(* ===== verification/_CoqProject ===== *)
-Q . S2P
Prelude.v
Types.v
Ring.v
Spinlock.v
Sched.v
Ide.v
Bio.v
Block.v
Frame.v
Log.v
Cstr.v
Ulib.v
Fs.v
Tx.v
FsBlock.v
FsInode.v
FsDinode.v
FsData.v
FsDir.v
FsPath.v
Kalloc.v
Pipe.v
File.v
Cprintf.v
Intr.v
Console.v
Cpuid.v
Uprintf.v
Vm.v
VmPages.v
Footprint.v
Space.v
Proc.v
Syscall.v
Exec.v
Sysfile.v
Descr.v
Trap.v
User.v
Grep.v
Sh.v
Umalloc.v
Mp.v
Boot.v
Scheduler.v
Main.v
Mkfs.v
MkfsImage.v
Libfs.v
LibfsFile.v
Opfs.v
OpfsGet.v
Asm.v
Entry.v
