(* ===== verification/Prelude.v ===== *)
(** * A verification development for xv6 (x86-64 port)

    The program is a small Unix: a kernel ([src/kernel], [src/include]), a C
    library and programs for its users ([src/ulib], [src/user]) and host tools
    that make and change its disk images ([src/tools]).  The development
    follows the 64-bit build.

    ** How the parts fit together

    A user program traps into the kernel by the assembly of [trapasm64.S];
    [trap] calls [syscall], which fetches the arguments and calls a system
    call.  The file system calls ([sysfile.c]) use the table of open files
    ([file.c]), which leads to pipes, to devices and to inodes ([fs.c]).  The
    file system changes blocks in transactions of the log ([log.c]), which
    works on the buffer cache ([bio.c]) and so on the disk driver ([ide.c]).
    Calls wait in [sleep] and are resumed by the scheduler ([proc.c]); all
    tables are protected by spin locks.  Memory comes from the page allocator
    ([kalloc.c]) and is mapped by [vm.c] and [vm64.c].  The loader, [main.c] and
    the tables of the firmware start all of this.  [mkfs] makes the disk and
    [opfs] edits it, by the format of [fs.h].

    ** How the code is modelled

    The kernel's global variables are the record [kernel] of Types, and a
    function of the kernel is a [K A], a function from a state to an outcome
    [res]: [Ok] with a result, [Panic] with its message, [Sleeps] when the
    process gives up the CPU, [Fault] when a null pointer or an index out of
    its array is used, [Spin] when a loop does not end.  The host tools, the
    user programs and the boot loader have states of their own in the same
    monad.  A pointer into a global array is an index; pages, images and user
    memory are bytes.  Integers are [Z], with the wrap-around of their width
    written where the code depends on it.  Definitions have the names of the
    source; where a name of the source is taken they have a prefix ([l_] in
    Libfs, [mk_] in Mkfs, [k] for [panic]).

    [wp m E Q s] says that a run returns with [Q] or panics with a message of
    [E]; it excludes sleeping, faults and endless loops.  [wps] admits sleeping
    too.  [runs] speaks of the states in which a run returns or sleeps, and
    [mlp] of the memory when it returns.  [Inert], [InertF], [InertL], [InertC]
    and [InertS] are classes of the parts of the state that a layer leaves
    alone, [Devsw] is the table of device drivers, [DevKeeps] what a driver
    promises, and [Sys] the system calls as a user program sees them.

    ** The files

    - Prelude: integers, bytes, the monad, its rules, tactics and hints.
      Types: constants, structures and globals, from [src/include].
      Ring: circular buffers with counters that wrap.
    - Spinlock ([spinlock.c]), Sched ([sched], [sleep], [wakeup], [yield]), Proc
      ([fork], [exit], [wait], [kill], [growproc], [userinit]: the rest of
      [proc.c]), Scheduler ([scheduler], and all of [proc.c] on several CPUs).
    - Ide ([ide.c]), Bio ([bio.c]), Block (what the cache promises), Frame (what
      these layers leave alone), Log ([log.c]), Tx (a transaction as the file
      system sees it).
    - Fs (all operations of [fs.c]) with the proofs in FsBlock (bitmap), FsInode
      (inode cache), FsDinode (inodes on disk), FsData (contents), FsDir
      (directories), FsPath (path names).
    - Kalloc ([kalloc.c]), Vm, VmPages and Space ([vm.c], [vm64.c]), Exec ([exec.c]),
      Pipe ([pipe.c]), File ([file.c]), Syscall ([syscall.c], [sysproc.c]),
      Sysfile ([sysfile.c]), Footprint and Descr (their composition), Trap
      ([trap.c] and the dispatch).
    - Cprintf and Console ([console.c], [kbd.c], [uart.c]), Intr ([lapic.c],
      [ioapic.c], [picirq.c], [timer.c]), Cpuid ([cpuid.c]), Mp ([mp.c],
      [acpi.c]), Main ([main.c]), Boot ([bootmain.c]), Entry ([entry64.S]), Asm
      ([swtch64.S], [trapasm64.S], [vectors64.pl]).
    - Cstr ([string.c]), Ulib, Uprintf and Umalloc ([src/ulib]), User (the small
      programs), Grep, Sh.
    - Mkfs and MkfsImage ([mkfs.c]), Libfs and LibfsFile ([libfs.c]), Opfs and
      OpfsGet ([opfs.c]).

    ** What the theorems show

    - Storage: [iderw] synchronises a buffer with the disk; the cache is a
      coherent view of the disk; [commit] is atomic under a crash at any disk
      write and under crashes of the recovery; calls within their budgets do
      not overflow a log longer than LOGSIZE blocks, and with the log that
      mkfs makes three calls can.
    - File system: [balloc] gives the lowest free block; the counts of the
      inode cache are the references held; [readi] and [writei] read and
      replace a range of the bytes of a file and touch no other file;
      names are found in directories and added to them, once.
    - Memory: a page has one user at a time; [allocuvm] maps fresh zeroed pages
      and keeps the others; [malloc] and [free] divide the heap into blocks that
      overlap nothing.
    - Processes: mutual exclusion of spin locks in every interleaving; no exit
      is missed by [wait], and every process that is runnable when a pass of a
      scheduler begins is chosen before the pass ends, in every run of several
      CPUs; descriptors are counted; a failed [exec] leaves the process as it
      was up to two argument registers, and its memory; a killed process does
      not return to user mode, also when it is killed while others run; context
      switch, trap entry and the first run of a process at the level of
      instructions.
    - Devices: pipes are bounded queues; the console is a line editor; the
      screen is not written out of its bounds; interrupts are routed as asked.
    - Start: [mpinit] records what the firmware lists; the boot loader loads
      the image; the boot page tables map the first gigabyte twice.
    - Programs: the parser of the shell is safe on every line and parses what
      is printed; the matcher of grep decides its language.
    - Tools: an image of mkfs satisfies what the kernel theorems assume and
      holds the files; libfs writes files by the specification of the kernel;
      opfs reads back from an image of mkfs what mkfs was given.

    [exec_fails_clean] and [killed_never_returns] are about runs that return,
    because [exec] and [trap] can also sleep, panic or not return.  A theorem
    about an operation that must return states that it does.

    ** Bounds and fuel

    The constants are those of [param.h] and [fs.h] (FSSIZE 1000, LOGSIZE 30,
    NBUF 30).  A loop that is not structural has fuel, and running out of it is
    [Spin], or [None] in Cstr and Ulib, so that a theorem that gives [Ok]
    proves that the fuel is enough.  Where the source bounds the loop the
    definition computes the fuel from that bound: the blocks of a range, the
    entries of a directory, the buffers of the cache, [parse_fuel] for the
    tokens of a line.  Where the number of rounds depends on the environment
    (input of a program, firmware tables, the heap) the fuel is an argument.

    ** Assumptions on the environment

    The drive answers every request, and a waiting process is resumed when its
    interrupt has come.  Memory accesses of the CPUs are sequentially
    consistent.  File system operations run in one process at a time between
    their sleeps.  [cpuid], the answers of hardware probes, addresses that the
    linker chooses and the code of a process between two switches are
    arguments.

    ** Not modelled

    - [usertests.c]: tests whose subject, the system calls, is modelled here.
    - [memide.c]: it uses a field that [struct buf] does not have.
    - [bootasm.S], [entryother.S], [initcode64.S], [usys.S] and the part of
      [entry64.S] that changes the mode of the processor: control registers
      and descriptor tables, and stubs of a few instructions.
    - The code of the 32-bit build.
    - The call stacks that locks record for debugging, the messages of the
      tools on the standard error, and the image after [fatal] in opfs.
    - Prototypes, the Makefile and scripts of the build. *)

From stdpp Require Import prelude gmap strings.

(** Prelude: machine integers, little-endian byte strings, array splices,
    the kernel monad with its weakest-precondition calculus, tactics and the
    hint databases that the component files share. *)

Declare Scope xv6_scope.
Delimit Scope xv6_scope with xv6.
Open Scope Z_scope.

(** ** Machine integers

    A C integer is a [Z] kept in range by the wrap-around below: [u8] is
    [uchar], [u16] is [ushort], [u32] is [uint], [u64] is [uintp] (the 64-bit
    build), [i16] is [short] and [i32] is [int]. *)

Definition u8 (x : Z) : Z := x mod 2 ^ 8.
Definition u16 (x : Z) : Z := x mod 2 ^ 16.
Definition u32 (x : Z) : Z := x mod 2 ^ 32.
Definition u64 (x : Z) : Z := x mod 2 ^ 64.
Definition i16 (x : Z) : Z := (x + 2 ^ 15) mod 2 ^ 16 - 2 ^ 15.
Definition i32 (x : Z) : Z := (x + 2 ^ 31) mod 2 ^ 32 - 2 ^ 31.

Lemma u8_range x : 0 <= u8 x < 256.
Proof. unfold u8. apply Z.mod_pos_bound. lia. Qed.

Lemma u16_range x : 0 <= u16 x < 65536.
Proof. unfold u16. apply Z.mod_pos_bound. lia. Qed.

Lemma u32_range x : 0 <= u32 x < 4294967296.
Proof. unfold u32. apply Z.mod_pos_bound. lia. Qed.

Lemma i32_range x : -2147483648 <= i32 x < 2147483648.
Proof. unfold i32. pose proof (Z.mod_pos_bound (x + 2 ^ 31) (2 ^ 32) eq_refl). lia. Qed.

Lemma u8_small x : 0 <= x < 256 → u8 x = x.
Proof. intros. unfold u8. by apply Z.mod_small. Qed.

Lemma u16_small x : 0 <= x < 65536 → u16 x = x.
Proof. intros. unfold u16. by apply Z.mod_small. Qed.

Lemma u32_small x : 0 <= x < 4294967296 → u32 x = x.
Proof. intros. unfold u32. by apply Z.mod_small. Qed.

Lemma u64_small x : 0 <= x < 2 ^ 64 → u64 x = x.
Proof. intros. unfold u64. by apply Z.mod_small. Qed.

Lemma i32_small x : -2147483648 <= x < 2147483648 → i32 x = x.
Proof. intros. unfold i32. rewrite Z.mod_small; lia. Qed.

Lemma i16_small x : -32768 <= x < 32768 → i16 x = x.
Proof. intros. unfold i16. rewrite Z.mod_small; lia. Qed.

Lemma i16_u16 x : i16 (u16 x) = i16 x.
Proof. unfold i16, u16. by rewrite Zplus_mod_idemp_l. Qed.

(** [i32] depends on its argument modulo [2 ^ 32] only. *)
Lemma i32_cong x y : (∃ q, x = y + q * 2 ^ 32) → i32 x = i32 y.
Proof.
  intros [q ->]. unfold i32. replace (y + q * 2 ^ 32 + 2 ^ 31) with (y + 2 ^ 31 + q * 2 ^ 32) by lia.
  by rewrite Z_mod_plus_full.
Qed.
Lemma i32_repr x : ∃ q, i32 x = x + q * 2 ^ 32.
Proof.
  exists (- ((x + 2 ^ 31) / 2 ^ 32)). unfold i32.
  pose proof (Z.div_mod (x + 2 ^ 31) (2 ^ 32) ltac:(done)). lia.
Qed.
Lemma i32_i32 x : i32 (i32 x) = i32 x.
Proof. apply i32_cong, i32_repr. Qed.

Lemma u32_u32 x : u32 (u32 x) = u32 x.
Proof. unfold u32. by rewrite Zmod_mod. Qed.

Lemma u32_add_l x y : u32 (u32 x + y) = u32 (x + y).
Proof. unfold u32. by rewrite Zplus_mod_idemp_l. Qed.

Lemma u32_sub_l x y : u32 (u32 x - y) = u32 (x - y).
Proof. unfold u32. by rewrite Zminus_mod_idemp_l. Qed.

Lemma u32_sub_r x y : u32 (x - u32 y) = u32 (x - y).
Proof. unfold u32. by rewrite Zminus_mod_idemp_r. Qed.

#[global] Arguments Z.testbit : simpl never.
#[global] Arguments Z.land : simpl never.
#[global] Arguments Z.lor : simpl never.
#[global] Arguments Z.ldiff : simpl never.
#[global] Arguments Z.shiftl : simpl never.
#[global] Arguments Z.shiftr : simpl never.

Create Rewrite HintDb wrap.
#[export] Hint Rewrite u32_u32 u32_add_l u32_sub_l u32_sub_r i16_u16 : wrap.
#[export] Hint Rewrite u8_small u16_small u32_small i32_small i16_small using lia : wrap.

(** ** Byte strings

    A byte is a [Z] between 0 and 255; C arrays of bytes are [list Z]. *)

Definition is_byte (b : Z) : Prop := 0 <= b < 256.
Definition bytes (l : list Z) : Prop := Forall is_byte l.

(** Little-endian value of a byte string and its inverse, the layout of every
    integer field in memory and on disk (x86 is little-endian). *)
Fixpoint le_get (l : list Z) : Z :=
  match l with
  | [] => 0
  | b :: r => b + 256 * le_get r
  end.

Fixpoint le_put (n : nat) (x : Z) : list Z :=
  match n with
  | O => []
  | S n => x mod 256 :: le_put n (x / 256)
  end.

Lemma length_le_put n x : length (le_put n x) = n.
Proof. revert x. induction n; intros; simpl; [done|]. by rewrite IHn. Qed.

Lemma bytes_le_put n x : bytes (le_put n x).
Proof.
  revert x. induction n; intros; simpl; [constructor|].
  constructor; [|apply IHn]. apply Z.mod_pos_bound. lia.
Qed.

Lemma le_get_put n x : le_get (le_put n x) = x mod 256 ^ Z.of_nat n.
Proof.
  revert x. induction n as [|n IH]; intros x; simpl le_put; simpl le_get.
  - by rewrite Z.pow_0_r, Z.mod_1_r.
  - rewrite IH, Nat2Z.inj_succ, Z.pow_succ_r by lia.
    rewrite Z.rem_mul_r by (try apply Z.pow_nonzero; lia). lia.
Qed.

Lemma le_get_range l : bytes l → 0 <= le_get l < 256 ^ Z.of_nat (length l).
Proof.
  induction 1 as [|b l Hb _ IH]; simpl le_get; simpl length.
  - rewrite Z.pow_0_r. lia.
  - rewrite Nat2Z.inj_succ, Z.pow_succ_r by lia. unfold is_byte in Hb. lia.
Qed.

Lemma le_put_get l : bytes l → le_put (length l) (le_get l) = l.
Proof.
  induction 1 as [|b l Hb _ IH]; simpl; [done|]. unfold is_byte in Hb.
  rewrite (Z.mul_comm 256), Z.mod_add, Z.mod_small by lia.
  rewrite Z.div_add, Z.div_small by lia. by rewrite Z.add_0_l, IH.
Qed.

(** ** Sub-arrays: [bslice off n l] is the [n] bytes at [off]; [bsplice off s l]
    stores [s] at [off], the effect of a [memmove] into an array. *)

Definition bslice {A} (off n : nat) (l : list A) : list A := take n (drop off l).
Definition bsplice {A} (off : nat) (s l : list A) : list A :=
  take off l ++ s ++ drop (off + length s) l.

Section slices.
Context {A : Type}.
Implicit Types l s : list A.

Lemma length_bslice off n l : (off + n <= length l)%nat → length (bslice off n l) = n.
Proof. intros. unfold bslice. rewrite length_take, length_drop. lia. Qed.

Lemma length_bsplice off s l :
  (off + length s <= length l)%nat → length (bsplice off s l) = length l.
Proof.
  intros. unfold bsplice. rewrite !length_app, length_take, length_drop. lia.
Qed.

Lemma lookup_bslice off n l i :
  bslice off n l !! i = if decide (i < n)%nat then l !! (off + i)%nat else None.
Proof.
  unfold bslice. case_decide.
  - by rewrite lookup_take_lt, lookup_drop.
  - apply lookup_ge_None. rewrite length_take. lia.
Qed.

Lemma lookup_bsplice off s l i :
  (off + length s <= length l)%nat →
  bsplice off s l !! i =
    if decide (off <= i < off + length s)%nat then s !! (i - off)%nat else l !! i.
Proof.
  intros Hl. unfold bsplice. case_decide as Hi.
  - rewrite lookup_app_r by (rewrite length_take; lia).
    rewrite length_take, lookup_app_l by lia. f_equal. lia.
  - destruct (decide (i < off)%nat).
    + rewrite lookup_app_l by (rewrite length_take; lia). by rewrite lookup_take_lt.
    + rewrite lookup_app_r by (rewrite length_take; lia). rewrite length_take.
      rewrite lookup_app_r by lia. rewrite lookup_drop. f_equal. lia.
Qed.

Lemma bslice_bsplice_eq off s l :
  (off + length s <= length l)%nat → bslice off (length s) (bsplice off s l) = s.
Proof.
  intros. apply list_eq. intros i. rewrite lookup_bslice. case_decide.
  - rewrite lookup_bsplice by done. rewrite decide_True by lia. f_equal. lia.
  - symmetry. apply lookup_ge_None. lia.
Qed.

Lemma bslice_bsplice_ne off off' n s l :
  (off + length s <= length l)%nat →
  (off' + n <= off ∨ off + length s <= off')%nat →
  bslice off' n (bsplice off s l) = bslice off' n l.
Proof.
  intros ??. apply list_eq. intros i. rewrite !lookup_bslice. case_decide; [|done].
  rewrite lookup_bsplice by done. rewrite decide_False by lia. done.
Qed.

Lemma bsplice_bslice off n l :
  (off + n <= length l)%nat → bsplice off (bslice off n l) l = l.
Proof.
  intros. apply list_eq. intros i.
  rewrite lookup_bsplice by (rewrite length_bslice; lia).
  rewrite length_bslice by lia. case_decide; [|done].
  rewrite lookup_bslice, decide_True by lia. f_equal. lia.
Qed.
End slices.

Lemma Forall_bslice {A} (P : A → Prop) off n l : Forall P l → Forall P (bslice off n l).
Proof. intros. unfold bslice. by apply Forall_take, Forall_drop. Qed.

Lemma Forall_bsplice {A} (P : A → Prop) off s l :
  Forall P l → Forall P s → Forall P (bsplice off s l).
Proof.
  intros. unfold bsplice. repeat (apply Forall_app; split); auto using Forall_take, Forall_drop.
Qed.

(** A 32-bit word in a block of bytes. *)
Definition get32 (off : nat) (b : list Z) : Z := le_get (bslice off 4 b).
Definition put32 (off : nat) (v : Z) (b : list Z) : list Z := bsplice off (le_put 4 v) b.

#[global] Arguments get32 : simpl never.
#[global] Arguments put32 : simpl never.

Lemma length_put32 off v b : (off + 4 <= length b)%nat → length (put32 off v b) = length b.
Proof. intros. unfold put32. by rewrite length_bsplice by (by rewrite length_le_put). Qed.

Lemma get_put32 off v b : (off + 4 <= length b)%nat → get32 off (put32 off v b) = u32 v.
Proof.
  intros. unfold get32, put32. rewrite <-(length_le_put 4 v) at 1.
  rewrite bslice_bsplice_eq by (by rewrite length_le_put). apply le_get_put.
Qed.

Lemma get_put32_ne off off' v b :
  (off + 4 <= length b)%nat → (off' + 4 <= off ∨ off + 4 <= off')%nat →
  get32 off' (put32 off v b) = get32 off' b.
Proof. intros. unfold get32, put32. f_equal. apply bslice_bsplice_ne; by rewrite length_le_put. Qed.

Lemma alter_to_insert {A} (f : A → A) i (l : list A) x :
  l !! i = Some x → alter f i l = <[i := f x]> l.
Proof.
  intros Hx. apply list_eq. intros j. destruct (decide (i = j)) as [<-|Hne].
  - rewrite list_lookup_alter_eq, Hx. simpl.
    symmetry. apply list_lookup_insert_eq. by eapply lookup_lt_Some.
  - by rewrite list_lookup_alter_ne, list_lookup_insert_ne by done.
Qed.

Lemma alter_insert_eq {A} (f : A → A) i (l : list A) x :
  (i < length l)%nat → alter f i (<[i := x]> l) = <[i := f x]> l.
Proof.
  intros. rewrite (alter_to_insert _ _ _ x) by (by apply list_lookup_insert_eq).
  apply list_insert_insert_eq.
Qed.

Create HintDb xv6 discriminated.
#[export] Hint Resolve u8_range u16_range u32_range i32_range bytes_le_put
  Forall_bslice Forall_bsplice : xv6.

(** An update that a projection does not see. *)
Lemma fmap_alter_same {A B} (g : A → B) (f : A → A) i (l : list A) :
  (∀ x, g (f x) = g x) → g <$> alter f i l = g <$> l.
Proof.
  intros Hf. apply list_eq. intros j. rewrite !list_lookup_fmap.
  destruct (decide (i = j)) as [->|Hne].
  - rewrite list_lookup_alter_eq. destruct (l !! j); cbn; [by rewrite Hf|done].
  - by rewrite list_lookup_alter_ne.
Qed.

(** ** The kernel monad

    A C function that reads and writes the kernel's globals is a state
    transformer with an outcome:
    - [Ok a s]: it returned [a] in state [s];
    - [Panic msg]: it called [panic(msg)], which never returns;
    - [Sleeps s]: the running process gave up the CPU in [sleep()], with the
      globals in state [s] (its [proc->chan] says what it waits for);
    - [Fault]: a null pointer or an index outside its array was used;
    - [Spin]: it loops forever (a busy-wait on a condition nothing can change,
      or a loop whose fuel ran out). *)
Inductive res (S A : Type) : Type :=
| Ok (a : A) (s : S)
| Panic (msg : string)
| Sleeps (s : S)
| Fault
| Spin.
Arguments Ok {S A} a s.
Arguments Panic {S A} msg.
Arguments Sleeps {S A} s.
Arguments Fault {S A}.
Arguments Spin {S A}.

Definition M (S A : Type) : Type := S → res S A.

#[global] Instance M_ret S : MRet (M S) := λ A a s, Ok a s.
#[global] Instance M_bind S : MBind (M S) := λ A B f m s,
  match m s with
  | Ok a s' => f a s'
  | Panic msg => Panic msg
  | Sleeps s' => Sleeps s'
  | Fault => Fault
  | Spin => Spin
  end.

Definition get {S} : M S S := λ s, Ok s s.
Definition gets {S A} (f : S → A) : M S A := λ s, Ok (f s) s.
Definition modify {S} (f : S → S) : M S unit := λ s, Ok tt (f s).
Definition panic {S A} (msg : string) : M S A := λ _, Panic msg.
Definition fault {S A} : M S A := λ _, Fault.
Definition spin {S A} : M S A := λ _, Spin.

(** [need o] is the use of a pointer or array element: a missing one faults. *)
Definition need {S A} (o : option A) : M S A :=
  λ s, match o with Some a => Ok a s | None => Fault end.

Definition when {S} (c : bool) (m : M S unit) : M S unit := if c then m else mret tt.

(** [for_each l body] is a counted loop without early exit. *)
Fixpoint for_each {S X} (l : list X) (body : X → M S unit) : M S unit :=
  match l with
  | [] => mret tt
  | x :: l => body x ;; for_each l body
  end.

(** *** Weakest preconditions

    [wp m E Q s]: run in [s], [m] either returns a result satisfying [Q], or
    panics with a message allowed by [E]; it never faults, never loops and
    never sleeps. *)
Definition wp {S A} (m : M S A) (E : string → Prop) (Q : A → S → Prop) (s : S) : Prop :=
  match m s with
  | Ok a s' => Q a s'
  | Panic msg => E msg
  | Sleeps _ | Fault | Spin => False
  end.

(** No panic at all. *)
Definition no_panic (msg : string) : Prop := False.

(** The result of a run that returns, for concrete runs. *)
Definition ok_val {S A} (r : res S A) : option A := match r with Ok a _ => Some a | _ => None end.
Lemma ok_val_run {S A} (m : M S A) s a : ok_val (m s) = Some a → ∃ s', m s = Ok a s'.
Proof. destruct (m s) as [x s'| | | |]; try done. intros [= ->]. by exists s'. Qed.

Section wp_rules.
Context {S : Type}.
Implicit Types (E : string → Prop) (s : S).

Lemma wp_ret {A} (a : A) E (Q : A → S → Prop) s : Q a s → wp (mret a) E Q s.
Proof. done. Qed.

Lemma wp_bind {A B} (m : M S A) (f : A → M S B) E (Q : B → S → Prop) s :
  wp m E (λ a, wp (f a) E Q) s → wp (m ≫= f) E Q s.
Proof. unfold wp, mbind, M_bind. by destruct (m s). Qed.

Lemma wp_mono {A} (m : M S A) E E' (Q Q' : A → S → Prop) s :
  wp m E Q s → (∀ a s', Q a s' → Q' a s') → (∀ msg, E msg → E' msg) → wp m E' Q' s.
Proof. unfold wp. destruct (m s); auto. Qed.

Lemma wp_post {A} (m : M S A) E (Q Q' : A → S → Prop) s :
  wp m E Q s → (∀ a s', Q a s' → Q' a s') → wp m E Q' s.
Proof. intros H ?. by apply (wp_mono _ _ _ _ _ _ H). Qed.

Lemma wp_gets {A} (f : S → A) E (Q : A → S → Prop) s : Q (f s) s → wp (gets f) E Q s.
Proof. done. Qed.

Lemma wp_get E (Q : S → S → Prop) s : Q s s → wp get E Q s.
Proof. done. Qed.

Lemma wp_modify (f : S → S) E (Q : unit → S → Prop) s : Q tt (f s) → wp (modify f) E Q s.
Proof. done. Qed.

Lemma wp_need {A} (o : option A) a E (Q : A → S → Prop) s :
  o = Some a → Q a s → wp (need o) E Q s.
Proof. intros ->. done. Qed.

Lemma wp_panic {A} msg E (Q : A → S → Prop) s : E msg → wp (panic msg) E Q s.
Proof. done. Qed.

(** A function whose run is known exactly. *)
Lemma wp_run {A} (m : M S A) a s' E (Q : A → S → Prop) s : m s = Ok a s' → Q a s' → wp m E Q s.
Proof. unfold wp. by intros ->. Qed.

Lemma wp_elim {A} (m : M S A) E Q s a s' : wp m E Q s → m s = Ok a s' → Q a s'.
Proof. unfold wp. intros H Hr. by rewrite Hr in H. Qed.

Lemma wp_ok {A} (m : M S A) Q s :
  wp m no_panic Q s → ∃ a s', m s = Ok a s' ∧ Q a s'.
Proof. unfold wp. destruct (m s); try done; eauto. Qed.

Lemma wp_cases {A} (m : M S A) E (Q : A → S → Prop) s :
  wp m E Q s → (∃ a s', m s = Ok a s' ∧ Q a s') ∨ (∃ msg, m s = Panic msg ∧ E msg).
Proof. unfold wp. destruct (m s); try done; eauto. Qed.

Lemma wp_eq {A} (m m' : M S A) E (Q : A → S → Prop) s : m s = m' s → wp m' E Q s → wp m E Q s.
Proof. unfold wp. by intros ->. Qed.

(** The run itself, for use in the postcondition. *)
Lemma wp_with_run {A} (m : M S A) E (Q : A → S → Prop) s :
  wp m E (λ a s', m s = Ok a s' → Q a s') s → wp m E Q s.
Proof. unfold wp. destruct (m s); auto. Qed.

Lemma wp_panics {A} (m : M S A) msg s : wp m (λ e, e = msg) (λ _ _, False) s → m s = Panic msg.
Proof. unfold wp. destruct (m s); try done. by intros ->. Qed.

Lemma bind_run {A B} (m : M S A) (f : A → M S B) a s s' :
  m s = Ok a s' → (m ≫= f) s = f a s'.
Proof. unfold mbind, M_bind. by intros ->. Qed.

Lemma bind_ok {A B} (m : M S A) (f : A → M S B) b s s' :
  (m ≫= f) s = Ok b s' → ∃ a s1, m s = Ok a s1 ∧ f a s1 = Ok b s'.
Proof. unfold mbind, M_bind. destruct (m s) eqn:?; try done. eauto. Qed.

Lemma bind_panic_inv {A B} (m : M S A) (f : A → M S B) msg s :
  (m ≫= f) s = Panic msg → m s = Panic msg ∨ ∃ a s1, m s = Ok a s1 ∧ f a s1 = Panic msg.
Proof. unfold mbind, M_bind. destruct (m s) eqn:?; try done; eauto. intros [= ->]. by left. Qed.

Lemma bind_panic {A B} (m : M S A) (f : A → M S B) msg s :
  m s = Panic msg → (m ≫= f) s = Panic msg.
Proof. unfold mbind, M_bind. by intros ->. Qed.

(** Loop rule: an invariant indexed by what is left to iterate over. *)
Lemma wp_for_each {X} (l : list X) (body : X → M S unit) E (I : list X → S → Prop) s :
  (∀ x l' s', x ∈ l → I (x :: l') s' → wp (body x) E (λ _, I l') s') →
  I l s → wp (for_each l body) E (λ _, I []) s.
Proof.
  revert s. induction l as [|x l IH]; intros s Hb HI; simpl; [done|].
  apply wp_bind. eapply wp_post; [apply Hb; [set_solver|done]|].
  intros [] s' HI'. apply IH; [|done]. intros; apply Hb; [set_solver|done].
Qed.

(** The same for [for(i = 0; i < n; i++)], with an invariant on [i]. *)
Lemma wp_for_seqZ (n : Z) (body : Z → M S unit) E (I : Z → S → Prop) s :
  0 <= n → I 0 s →
  (∀ i s', 0 <= i < n → I i s' → wp (body i) E (λ _, I (i + 1)) s') →
  wp (for_each (seqZ 0 n) body) E (λ _, I n) s.
Proof.
  intros Hn HI Hb. eapply wp_post.
  - apply (wp_for_each _ _ _ (λ l s', ∃ i, l = seqZ i (n - i) ∧ 0 <= i <= n ∧ I i s')).
    + intros x l' s' _ (i & Hl & Hi & HIi). destruct (decide (i = n)) as [->|Hne].
      { by rewrite Z.sub_diag in Hl. }
      rewrite seqZ_cons in Hl by lia. injection Hl as -> ->.
      eapply wp_post; [apply Hb; [lia|done]|]. intros [] s2 HI2. exists (i + 1).
      split_and!; [f_equal; lia|lia..|done].
    + exists 0. split_and!; [f_equal; lia|lia..|done].
  - intros [] s' (i & Hl & Hi & HIi). destruct (decide (i = n)) as [->|Hne]; [done|].
    rewrite seqZ_cons in Hl by lia. done.
Qed.

(** [wps m Q W s]: from [s], [m] returns with [Q] or puts its process to sleep
    in a state with [W]. *)
Definition wps {A} (m : M S A) (Q : A → S → Prop) (W : S → Prop) s : Prop :=
  match m s with Ok a s' => Q a s' | Sleeps s' => W s' | _ => False end.

Lemma wps_wp {A} (m : M S A) Q W s : wp m (λ _, False) Q s → wps m Q W s.
Proof. unfold wp, wps. destruct (m s); try done. Qed.
Lemma wps_bind {A B} (m : M S A) (f : A → M S B) Q W s :
  wps m (λ a, wps (f a) Q W) W s → wps (m ≫= f) Q W s.
Proof. unfold wps, mbind, M_bind. by destruct (m s). Qed.
Lemma wps_bind_wp {A B} (m : M S A) (f : A → M S B) Q W s :
  wp m (λ _, False) (λ a, wps (f a) Q W) s → wps (m ≫= f) Q W s.
Proof. intros H. by apply wps_bind, wps_wp. Qed.
Lemma wps_sleeps {A} (m : M S A) Q W s s' : m s = Sleeps s' → W s' → wps m Q W s.
Proof. unfold wps. by intros ->. Qed.
Lemma wps_sleeps_bind {A B} (m : M S A) (f : A → M S B) Q W s s' :
  m s = Sleeps s' → W s' → wps (m ≫= f) Q W s.
Proof. intros. by eapply wps_bind, wps_sleeps. Qed.
Lemma wps_post {A} (m : M S A) (Q Q' : A → S → Prop) (W W' : S → Prop) s :
  wps m Q W s → (∀ a s', Q a s' → Q' a s') → (∀ s', W s' → W' s') → wps m Q' W' s.
Proof. unfold wps. destruct (m s); naive_solver. Qed.
Lemma wps_elim {A} (m : M S A) Q W s :
  wps m Q W s → (∃ a s', m s = Ok a s' ∧ Q a s') ∨ (∃ s', m s = Sleeps s' ∧ W s').
Proof. unfold wps. destruct (m s); naive_solver. Qed.
End wp_rules.

#[global] Opaque wp wps.

Ltac wp_step :=
  lazymatch goal with
  | |- wp (mbind _ _) _ _ _ => apply wp_bind
  | |- wp (mret _) _ _ _ => apply wp_ret
  | |- wp get _ _ _ => apply wp_get
  | |- wp (gets _) _ _ _ => apply wp_gets
  | |- wp (modify _) _ _ _ => apply wp_modify
  end; cbn beta.

Ltac wp_steps := repeat wp_step.

(** The same for [wps]: the operations that return are taken with their [wp]
    rules. *)
Ltac wps_step := apply wps_bind_wp; wp_steps.

(** Takes the first operation off a run [H] that returned. *)
Tactic Notation "inv_ok" hyp(H) "as" simple_intropattern(a) simple_intropattern(s) simple_intropattern(E) :=
  let H' := fresh in
  apply bind_ok in H as (a & s & E & H'); rename H' into H; cbn beta in H.

(** *** Frames

    [keeps f m]: [m] leaves [f] of the state alone, whether it returns or
    sleeps. *)
Definition keeps {S A B} (f : S → B) (m : M S A) : Prop :=
  ∀ s, match m s with Ok _ s' | Sleeps s' => f s' = f s | _ => True end.

Section keeps.
Context {S B : Type} (f : S → B).

Lemma keeps_ret {A} (a : A) : keeps f (mret a : M S A).
Proof. done. Qed.
Lemma keeps_bind {A A'} (m : M S A) (g : A → M S A') :
  keeps f m → (∀ a, keeps f (g a)) → keeps f (m ≫= g).
Proof.
  intros Hm Hg s. specialize (Hm s). unfold mbind, M_bind. destruct (m s) as [a s'| |s'| |]; try done.
  specialize (Hg a s'). destruct (g a s'); try done; congruence.
Qed.
Lemma keeps_get : keeps f (get : M S S).
Proof. done. Qed.
Lemma keeps_gets {A} (g : S → A) : keeps f (gets g).
Proof. done. Qed.
Lemma keeps_modify (g : S → S) : (∀ s, f (g s) = f s) → keeps f (modify g).
Proof. intros Hg s. apply Hg. Qed.
Lemma keeps_panic {A} msg : keeps f (panic msg : M S A).
Proof. done. Qed.
Lemma keeps_spin {A} : keeps f (spin : M S A).
Proof. done. Qed.
Lemma keeps_need {A} (o : option A) : keeps f (need o : M S A).
Proof. intros s. unfold need. by destruct o. Qed.
Lemma keeps_when (c : bool) (m : M S unit) : keeps f m → keeps f (when c m).
Proof. by destruct c. Qed.
Lemma keeps_for_each {X} (l : list X) (body : X → M S unit) :
  (∀ x, keeps f (body x)) → keeps f (for_each l body).
Proof. intros Hb. induction l; cbn; [done|]. apply keeps_bind; [apply Hb|done]. Qed.
Lemma keeps_ok {A} (m : M S A) s a s' : keeps f m → m s = Ok a s' → f s' = f s.
Proof. intros Hm Hr. specialize (Hm s). by rewrite Hr in Hm. Qed.
Lemma keeps_from {A} (m : M S A) s s' :
  f s' = f s → keeps f m → match m s' with Ok _ s2 | Sleeps s2 => f s2 = f s | _ => True end.
Proof. intros Hs Hm. specialize (Hm s'). destruct (m s'); try done; congruence. Qed.
End keeps.

Create HintDb keeps discriminated.
#[export] Hint Resolve keeps_ret keeps_get keeps_gets keeps_panic keeps_spin keeps_need : keeps.

(** Goes through a definition, with the frames of what it calls from the hint
    database. *)
Ltac keeps_step :=
  match goal with
  | |- keeps _ (mbind _ _) => apply keeps_bind; [|intros]
  | |- keeps _ (when _ _) => apply keeps_when
  | |- keeps _ (for_each _ _) => apply keeps_for_each; intros
  | |- keeps _ (modify _) => apply keeps_modify; done
  | |- keeps _ (match ?x with _ => _ end) => destruct x
  | |- keeps _ (let x := _ in _) => cbv zeta
  | |- keeps _ _ => solve [eauto with keeps]
  end.
Ltac keeps_tac := repeat keeps_step.
