(* ===== verification/Types.v ===== *)
(** * Types: the kernel's data, from the headers under [include/]

    Constants and structures of [param.h], [fs.h], [stat.h], [buf.h],
    [file.h], [spinlock.h], [proc.h], [x86.h] and [memlayout.h], and the
    record [kernel] of the kernel's global variables.  Pointers into a global
    array are indices into the list that models it; a null pointer is
    [None]. *)

From stdpp Require Import prelude gmap strings.
From S2P Require Import Prelude.
Open Scope Z_scope.

(** ** param.h *)
Definition NPROC : Z := 64.
Definition KSTACKSIZE : Z := 4096.
Definition NCPU : Z := 8.
Definition NOFILE : Z := 16.
Definition NFILE : Z := 100.
Definition NINODE : Z := 50.
Definition NDEV : Z := 10.
Definition ROOTDEV : Z := 1.
Definition MAXARG : Z := 32.
Definition MAXOPBLOCKS : Z := 10.
Definition LOGSIZE : Z := MAXOPBLOCKS * 3.
Definition NBUF : Z := MAXOPBLOCKS * 3.
Definition FSSIZE : Z := 1000.

(** ** fs.h *)
Definition ROOTINO : Z := 1.
Definition BSIZE : Z := 512.

(** A disk block: [BSIZE] bytes. *)
Abbreviation block := (list Z).
Definition zero_block : block := replicate (Z.to_nat BSIZE) 0.

Record superblock := mkSb {
  sb_size : Z;      (* size of file system image (blocks) *)
  sb_nblocks : Z;   (* number of data blocks *)
  sb_ninodes : Z;   (* number of inodes *)
  sb_nlog : Z       (* number of log blocks *)
}.

Definition NDIRECT : Z := 10.
Definition NINDIRECT : Z := BSIZE / 4.
Definition MAXFILE : Z := NDIRECT + NINDIRECT.

(** On-disk inode; [sizeof(struct dinode)] is 64. *)
Record dinode := mkDinode {
  di_type : Z; di_major : Z; di_minor : Z; di_nlink : Z;
  di_ownerid : Z; di_groupid : Z; di_mode : Z; di_size : Z;
  di_addrs : list Z
}.
Definition DINODE_SIZE : Z := 64.

Definition IPB : Z := BSIZE / DINODE_SIZE.
Definition IBLOCK (i : Z) : Z := i / IPB + 2.
Definition BPB : Z := BSIZE * 8.
Definition BBLOCK (b ninodes : Z) : Z := b / BPB + ninodes / IPB + 3.

Definition DIRSIZ : Z := 14.
Record dirent := mkDirent { de_inum : Z; de_name : list Z }.
Definition DIRENT_SIZE : Z := 16.

(** ** stat.h *)
Definition T_DIR : Z := 1.
Definition T_FILE : Z := 2.
Definition T_DEV : Z := 3.

Record stat := mkStat {
  st_type : Z; st_dev : Z; st_ino : Z; st_nlink : Z;
  st_ownerid : Z; st_groupid : Z; st_mode : Z; st_size : Z
}.

(** ** buf.h *)
Record buf := mkBuf {
  b_flags : Z;
  b_dev : Z;
  b_blockno : Z;
  b_prev : nat;              (* LRU cache list *)
  b_next : nat;
  b_qnext : option nat;      (* disk queue *)
  b_data : block
}.
Definition B_BUSY : Z := 1.
Definition B_VALID : Z := 2.
Definition B_DIRTY : Z := 4.

Definition set_b_flags (v : Z) (b : buf) : buf :=
  mkBuf v (b_dev b) (b_blockno b) (b_prev b) (b_next b) (b_qnext b) (b_data b).
Definition set_b_key (dev blockno : Z) (b : buf) : buf :=
  mkBuf (b_flags b) dev blockno (b_prev b) (b_next b) (b_qnext b) (b_data b).
Definition set_b_prev (v : nat) (b : buf) : buf :=
  mkBuf (b_flags b) (b_dev b) (b_blockno b) v (b_next b) (b_qnext b) (b_data b).
Definition set_b_next (v : nat) (b : buf) : buf :=
  mkBuf (b_flags b) (b_dev b) (b_blockno b) (b_prev b) v (b_qnext b) (b_data b).
Definition set_b_qnext (v : option nat) (b : buf) : buf :=
  mkBuf (b_flags b) (b_dev b) (b_blockno b) (b_prev b) (b_next b) v (b_data b).
Definition set_b_data (v : block) (b : buf) : buf :=
  mkBuf (b_flags b) (b_dev b) (b_blockno b) (b_prev b) (b_next b) (b_qnext b) v.

(** The buffer cache: [bcache.buf[0..NBUF-1]] and, at index [NBUF], the list
    head [bcache.head] (itself a [struct buf]). *)
Abbreviation bcache := (list buf).
Definition HEAD : nat := Z.to_nat NBUF.

(** ** file.h *)
Inductive fdtype := FD_NONE | FD_PIPE | FD_INODE.
Record file := mkFile {
  f_type : fdtype;
  f_ref : Z;
  f_readable : bool;
  f_writable : bool;
  f_pipe : Z;                (* address of the struct pipe *)
  f_ip : option nat;         (* index into icache.inode *)
  f_off : Z
}.

Record inode := mkInode {
  i_dev : Z; i_inum : Z; i_ref : Z; i_flags : Z;
  i_type : Z; i_major : Z; i_minor : Z; i_nlink : Z;
  i_ownerid : Z; i_groupid : Z; i_mode : Z; i_size : Z;
  i_addrs : list Z
}.
Definition I_BUSY : Z := 1.
Definition I_VALID : Z := 2.
Definition CONSOLE : Z := 1.
Definition CPUID : Z := 2.

Definition set_i_ref (v : Z) (i : inode) : inode :=
  mkInode (i_dev i) (i_inum i) v (i_flags i) (i_type i) (i_major i) (i_minor i) (i_nlink i)
    (i_ownerid i) (i_groupid i) (i_mode i) (i_size i) (i_addrs i).
Definition set_i_flags (v : Z) (i : inode) : inode :=
  mkInode (i_dev i) (i_inum i) (i_ref i) v (i_type i) (i_major i) (i_minor i) (i_nlink i)
    (i_ownerid i) (i_groupid i) (i_mode i) (i_size i) (i_addrs i).
Definition set_i_type (v : Z) (i : inode) : inode :=
  mkInode (i_dev i) (i_inum i) (i_ref i) (i_flags i) v (i_major i) (i_minor i) (i_nlink i)
    (i_ownerid i) (i_groupid i) (i_mode i) (i_size i) (i_addrs i).
Definition set_i_nlink (v : Z) (i : inode) : inode :=
  mkInode (i_dev i) (i_inum i) (i_ref i) (i_flags i) (i_type i) (i_major i) (i_minor i) v
    (i_ownerid i) (i_groupid i) (i_mode i) (i_size i) (i_addrs i).
Definition set_i_major_minor (ma mi : Z) (i : inode) : inode :=
  mkInode (i_dev i) (i_inum i) (i_ref i) (i_flags i) (i_type i) ma mi (i_nlink i)
    (i_ownerid i) (i_groupid i) (i_mode i) (i_size i) (i_addrs i).
Definition set_i_mode (v : Z) (i : inode) : inode :=
  mkInode (i_dev i) (i_inum i) (i_ref i) (i_flags i) (i_type i) (i_major i) (i_minor i) (i_nlink i)
    (i_ownerid i) (i_groupid i) v (i_size i) (i_addrs i).
Definition set_i_size (v : Z) (i : inode) : inode :=
  mkInode (i_dev i) (i_inum i) (i_ref i) (i_flags i) (i_type i) (i_major i) (i_minor i) (i_nlink i)
    (i_ownerid i) (i_groupid i) (i_mode i) v (i_addrs i).
Definition set_i_addrs (v : list Z) (i : inode) : inode :=
  mkInode (i_dev i) (i_inum i) (i_ref i) (i_flags i) (i_type i) (i_major i) (i_minor i) (i_nlink i)
    (i_ownerid i) (i_groupid i) (i_mode i) (i_size i) v.

(** ** Spinlocks, CPUs and sleep channels

    [spinlock.h]'s [locked] and [cpu] fields; the debugging fields [name] and
    [pcs] are left out.  Every lock of the kernel has a name here. *)
Inductive lockid :=
| L_ptable | L_bcache | L_ide | L_log | L_icache | L_ftable | L_kmem
| L_ticks | L_cons | L_input
| L_pipe (p : Z).
#[global] Instance lockid_eq_dec : EqDecision lockid.
Proof. solve_decision. Defined.

Record spinlock := mkLock { lk_locked : bool; lk_cpu : option nat }.

(** What a process can sleep on: the address passed to [sleep]. *)
Inductive chan :=
| ChBuf (b : nat) | ChInode (i : nat) | ChLog | ChPipeRead (p : Z) | ChPipeWrite (p : Z)
| ChTicks | ChInput | ChProc (p : nat).
#[global] Instance chan_eq_dec : EqDecision chan.
Proof. solve_decision. Defined.

(** proc.h [struct cpu]: the fields that [spinlock.c] and [proc.c] use, and
    the CPU's interrupt flag ([FL_IF] of its eflags). *)
Record cpu := mkCpu {
  c_ncli : Z;                (* depth of pushcli nesting *)
  c_intena : bool;           (* were interrupts enabled before pushcli? *)
  c_if : bool;               (* eflags & FL_IF *)
  c_proc : option nat        (* the currently running process *)
}.

Record machine := mkMach {
  m_cpus : list cpu;
  m_me : nat;                       (* the CPU executing the code: [cpu] *)
  m_lock : lockid → spinlock
}.

(** ** Processes (proc.h) *)
Inductive procstate := UNUSED | EMBRYO | SLEEPING | RUNNABLE | RUNNING | ZOMBIE.
#[global] Instance procstate_eq_dec : EqDecision procstate.
Proof. solve_decision. Defined.

(** x86.h [struct trapframe] (64-bit build). *)
Record trapframe := mkTf {
  tf_eax : Z; tf_rbx : Z; tf_rcx : Z; tf_rdx : Z; tf_rbp : Z; tf_rsi : Z; tf_rdi : Z;
  tf_r8 : Z; tf_r9 : Z; tf_r10 : Z; tf_r11 : Z; tf_r12 : Z; tf_r13 : Z; tf_r14 : Z; tf_r15 : Z;
  tf_trapno : Z; tf_err : Z; tf_eip : Z; tf_cs : Z; tf_eflags : Z; tf_esp : Z; tf_ds : Z
}.

(** Where [swtch] resumes a process: a new one in [forkret], any other one in
    the [sched] call it left. *)
Inductive context := CtxNone | CtxForkret | CtxSched.

Record proc := mkProc {
  p_sz : Z;                  (* size of process memory (bytes) *)
  p_pgdir : Z;               (* page directory, 0 if none *)
  p_kstack : Z;              (* bottom of kernel stack, 0 if none *)
  p_state : procstate;
  p_pid : Z;
  p_parent : option nat;
  p_tf : trapframe;
  p_context : context;
  p_chan : option chan;
  p_killed : bool;
  p_ofile : list (option nat);   (* open files: indices into ftable.file *)
  p_cwd : option nat;            (* current directory: index into icache.inode *)
  p_name : list Z
}.

Record ptable := mkPtable {
  pt_proc : list proc;
  pt_initproc : option nat;
  pt_nextpid : Z
}.

(** ** log.c [struct log] with its [struct logheader] *)
Record logheader := mkLh { lh_n : Z; lh_block : list Z }.
Record log := mkLog {
  log_start : Z;
  log_size : Z;
  log_outstanding : Z;
  log_committing : bool;
  log_dev : Z;
  log_lh : logheader
}.

(** ** pipe.c [struct pipe] *)
Definition PIPESIZE : Z := 512.
Record pipe := mkPipe {
  p_data : list Z;
  p_nread : Z;               (* number of bytes read *)
  p_nwrite : Z;              (* number of bytes written *)
  p_readopen : bool;
  p_writeopen : bool
}.

(** ** The IDE driver's variables, the controller's registers, and the
    sectors of the two drives.  [ide_trace] is a history variable: the sector
    writes the drives have carried out, oldest first. *)
Record ide := mkIde {
  ide_queue : option nat;        (* idequeue *)
  ide_havedisk1 : bool;
  ide_status : Z;                (* status register, port 0x1f7 *)
  ide_nsect : Z;                 (* port 0x1f2 *)
  ide_lba0 : Z;                  (* port 0x1f3 *)
  ide_lba1 : Z;                  (* port 0x1f4 *)
  ide_lba2 : Z;                  (* port 0x1f5 *)
  ide_drive : Z;                 (* port 0x1f6 *)
  ide_cmd : Z;                   (* last command, port 0x1f7 *)
  ide_disk : gmap (Z * Z) block; (* (drive, sector) to contents *)
  ide_trace : list (Z * Z * block)
}.

Definition set_ide_queue (v : option nat) (d : ide) : ide :=
  mkIde v (ide_havedisk1 d) (ide_status d) (ide_nsect d) (ide_lba0 d) (ide_lba1 d) (ide_lba2 d)
    (ide_drive d) (ide_cmd d) (ide_disk d) (ide_trace d).

(** ** kalloc.c [kmem], and the kernel's view of memory, one byte per kernel
    virtual address.  [km_end] is the linker's [end] symbol. *)
Record kmem := mkKmem {
  km_use_lock : bool;
  km_freelist : Z;
  km_end : Z;
  km_mem : Z → Z
}.

(** ** console.c, uart.c and kbd.c: the input ring and the drivers' variables,
    the data waiting in the keyboard controller and in the serial port, the
    bytes sent to the serial port so far, and the screen: its cells and the
    cursor register.  [no_idt] is set once the interrupt table was dropped to
    reboot. *)
Record console := mkCons {
  in_buf : list Z;               (* input.buf *)
  in_r : Z;                      (* Read index *)
  in_w : Z;                      (* Write index *)
  in_e : Z;                      (* Edit index *)
  cons_locking : bool;
  panicked : bool;
  no_idt : bool;
  uart : bool;
  uart_in : list Z;
  cons_out : list Z;
  kbd_in : list Z;
  kbd_shift : Z;
  crt_pos : Z;
  crt : Z → Z
}.

(** ** mp.c, lapic.c, ioapic.c and picirq.c: what was found out about the
    machine, the registers of the interrupt controllers (one local APIC per
    CPU), and, newest first, the bytes written to the other I/O ports. *)
Record platform := mkPlat {
  cpus : list (Z * Z);           (* cpus[i].id and cpus[i].apicid *)
  ncpu : Z;
  bcpu : Z;                      (* index into cpus *)
  ismp : bool;
  ioapicid : Z;
  lapic : Z;                     (* address of the registers, 0 if none *)
  lapic_reg : nat → Z → Z;
  ioapic : bool;                 (* the pointer is set *)
  ioapic_sel : Z;
  ioapic_reg : Z → Z;
  irqmask : Z;
  cpunum_n : Z;                  (* cpunum's counter of early calls *)
  ports : list (Z * Z);
  started : list Z               (* cpus[i].started, for the i that are set *)
}.

(** ** The kernel's globals *)
Record kernel := mkKernel {
  k_mach : machine;
  k_pt : ptable;
  k_ide : ide;
  k_bc : bcache;
  k_log : log;
  k_ic : list inode;
  k_ft : list file;
  k_pipes : gmap Z pipe;
  k_kmem : kmem;
  k_ticks : Z;
  k_cons : console;
  k_plat : platform
}.

Definition set_mach (v : machine) (k : kernel) : kernel :=
  mkKernel v (k_pt k) (k_ide k) (k_bc k) (k_log k) (k_ic k) (k_ft k) (k_pipes k) (k_kmem k) (k_ticks k) (k_cons k) (k_plat k).
Definition set_pt (v : ptable) (k : kernel) : kernel :=
  mkKernel (k_mach k) v (k_ide k) (k_bc k) (k_log k) (k_ic k) (k_ft k) (k_pipes k) (k_kmem k) (k_ticks k) (k_cons k) (k_plat k).
Definition set_ide (v : ide) (k : kernel) : kernel :=
  mkKernel (k_mach k) (k_pt k) v (k_bc k) (k_log k) (k_ic k) (k_ft k) (k_pipes k) (k_kmem k) (k_ticks k) (k_cons k) (k_plat k).
Definition set_bc (v : bcache) (k : kernel) : kernel :=
  mkKernel (k_mach k) (k_pt k) (k_ide k) v (k_log k) (k_ic k) (k_ft k) (k_pipes k) (k_kmem k) (k_ticks k) (k_cons k) (k_plat k).
Definition set_log (v : log) (k : kernel) : kernel :=
  mkKernel (k_mach k) (k_pt k) (k_ide k) (k_bc k) v (k_ic k) (k_ft k) (k_pipes k) (k_kmem k) (k_ticks k) (k_cons k) (k_plat k).
Definition set_ic (v : list inode) (k : kernel) : kernel :=
  mkKernel (k_mach k) (k_pt k) (k_ide k) (k_bc k) (k_log k) v (k_ft k) (k_pipes k) (k_kmem k) (k_ticks k) (k_cons k) (k_plat k).
Definition set_ft (v : list file) (k : kernel) : kernel :=
  mkKernel (k_mach k) (k_pt k) (k_ide k) (k_bc k) (k_log k) (k_ic k) v (k_pipes k) (k_kmem k) (k_ticks k) (k_cons k) (k_plat k).
Definition set_pipes (v : gmap Z pipe) (k : kernel) : kernel :=
  mkKernel (k_mach k) (k_pt k) (k_ide k) (k_bc k) (k_log k) (k_ic k) (k_ft k) v (k_kmem k) (k_ticks k) (k_cons k) (k_plat k).
Definition set_kmem (v : kmem) (k : kernel) : kernel :=
  mkKernel (k_mach k) (k_pt k) (k_ide k) (k_bc k) (k_log k) (k_ic k) (k_ft k) (k_pipes k) v (k_ticks k) (k_cons k) (k_plat k).
Definition set_ticks (v : Z) (k : kernel) : kernel :=
  mkKernel (k_mach k) (k_pt k) (k_ide k) (k_bc k) (k_log k) (k_ic k) (k_ft k) (k_pipes k) (k_kmem k) v (k_cons k) (k_plat k).
Definition set_cons (v : console) (k : kernel) : kernel :=
  mkKernel (k_mach k) (k_pt k) (k_ide k) (k_bc k) (k_log k) (k_ic k) (k_ft k) (k_pipes k) (k_kmem k) (k_ticks k) v (k_plat k).
Definition set_plat (v : platform) (k : kernel) : kernel :=
  mkKernel (k_mach k) (k_pt k) (k_ide k) (k_bc k) (k_log k) (k_ic k) (k_ft k) (k_pipes k) (k_kmem k) (k_ticks k) (k_cons k) v.

(** A kernel function. *)
Abbreviation K := (M kernel).

(** ** An example machine

    The zeroed globals, with one CPU that runs process 0; the concrete runs
    start from it. *)
Definition tf0 : trapframe := mkTf 0 0 0 0 0 0 0 0 0 0 0 0 0 0 0 0 0 0 0 0 0 0.
Definition proc0 : proc :=
  mkProc 0 0 0 UNUSED 0 None tf0 CtxNone None false (replicate (Z.to_nat NOFILE) None) None [].
Definition proc_run : proc :=
  mkProc 4096 8192 12288 RUNNING 1 None tf0 CtxNone None false (replicate (Z.to_nat NOFILE) None) None [].
Definition buf0 : buf := mkBuf 0 0 0 0 0 None zero_block.
Definition inode0 : inode := mkInode 0 0 0 0 0 0 0 0 0 0 0 0 (replicate 11 0).
Definition file0 : file := mkFile FD_NONE 0 false false 0 None 0.
Definition kernel0 (disk : gmap (Z * Z) block) : kernel :=
  mkKernel (mkMach [mkCpu 0 true true (Some 0%nat)] 0 (λ _, mkLock false None))
    (mkPtable (proc_run :: replicate 63 proc0) None 2)
    (mkIde None true 64 0 0 0 0 0 0 disk [])
    (replicate (S HEAD) buf0)
    (mkLog 0 0 0 false 0 (mkLh 0 (replicate (Z.to_nat LOGSIZE) 0)))
    (replicate (Z.to_nat NINODE) inode0) (replicate (Z.to_nat NFILE) file0) ∅
    (mkKmem false 0 0 (λ _, 0)) 0 
    (mkCons (replicate 128 0) 0 0 0 false false false true [] [] [] 0 0 (λ _, 0))
    (mkPlat (replicate 8 (0, 0)) 1 0 false 0 0 (λ _ _, 0) false 0 (λ _, 0) 0xFFFB 0 [] []).

(** Two states with the same globals are equal; nested updates are compared
    one global at a time. *)
Lemma kernel_eq k k' :
  k_mach k = k_mach k' → k_pt k = k_pt k' → k_ide k = k_ide k' → k_bc k = k_bc k' →
  k_log k = k_log k' → k_ic k = k_ic k' → k_ft k = k_ft k' → k_pipes k = k_pipes k' →
  k_kmem k = k_kmem k' → k_ticks k = k_ticks k' → k_cons k = k_cons k' → k_plat k = k_plat k' → k = k'.
Proof. destruct k, k'; cbn; congruence. Qed.

Ltac ksolve := apply kernel_eq; cbn; try reflexivity.

(** [kexact H] proves a predicate of a kernel state from [H], the same
    predicate of a state with the same globals. *)
Ltac kexact H :=
  lazymatch type of H with
  | ?Q ?k1 => lazymatch goal with |- _ ?k2 => replace k2 with k1; [exact H|ksolve] end
  end.
