(* ===== verification/Ring.v ===== *)
(** * Ring: circular buffers indexed by wrapping 32-bit counters

    The pipes and the console input keep bytes in an array of [N] slots; the
    slot of counter value [i] is [i % N].  [N] divides 2^32, so that a counter
    that wraps around goes on with the next slot. *)

From stdpp Require Import prelude.
From S2P Require Import Prelude.
Open Scope Z_scope.

(** The [n] bytes from counter value [r] on. *)
Definition ring_list (N : Z) (buf : list Z) (r n : Z) : list Z :=
  (λ j, nth (Z.to_nat ((r + j) mod N)) buf 0) <$> seqZ 0 n.

Section ring.
Context (N : Z) (HN : 0 < N) (Hdiv : (N | 2 ^ 32)).

Lemma u32_mod_ring a b : u32 a = u32 b → a mod N = b mod N.
Proof. unfold u32. intros H. rewrite <-(Z.mod_mod_divide a (2 ^ 32)), <-(Z.mod_mod_divide b (2 ^ 32)) by done. by rewrite H. Qed.

Lemma ring_slot_lt i : (Z.to_nat (i mod N) < Z.to_nat N)%nat.
Proof. pose proof (Z.mod_pos_bound i N HN). lia. Qed.

Lemma ring_slot_ne r i j : 0 ≤ i < N → 0 ≤ j < N → i ≠ j → Z.to_nat ((r + i) mod N) ≠ Z.to_nat ((r + j) mod N).
Proof.
  intros Hi Hj Hne He. apply Hne.
  pose proof (Z.mod_pos_bound (r + i) N HN). pose proof (Z.mod_pos_bound (r + j) N HN).
  apply Z2Nat.inj in He; [|lia..]. rewrite !Z.mod_eq in He by lia.
  set (q := (r + i) / N) in *. set (q' := (r + j) / N) in *. destruct (Z.lt_trichotomy q q') as [?|[?|?]]; nia.
Qed.

Lemma ring_list_length buf r n : 0 ≤ n → Z.of_nat (length (ring_list N buf r n)) = n.
Proof. intros. unfold ring_list. rewrite length_fmap, length_seqZ. lia. Qed.

Lemma ring_list_take buf r n m : 0 ≤ m ≤ n → take (Z.to_nat m) (ring_list N buf r n) = ring_list N buf r m.
Proof.
  intros Hm. unfold ring_list. rewrite <-fmap_take. f_equal. replace n with (m + (n - m)) by lia.
  rewrite seqZ_app by lia. apply take_app_length'. rewrite length_seqZ. done.
Qed.

(** Storing at counter value [w], [n] slots after [r]. *)
Lemma ring_list_push buf r w n c : length buf = Z.to_nat N → 0 ≤ n < N → w mod N = (r + n) mod N →
  ring_list N (<[Z.to_nat (w mod N) := c]> buf) r (n + 1) = ring_list N buf r n ++ [c].
Proof.
  intros Hl Hn Hw. unfold ring_list. rewrite seqZ_app by lia. rewrite fmap_app. f_equal.
  - apply list_fmap_ext. intros i x [-> Hi]%lookup_seqZ. rewrite !nth_lookup.
    rewrite list_lookup_insert_ne; [done|]. rewrite Hw. apply ring_slot_ne; lia.
  - rewrite (seqZ_cons _ 1) by lia. change (seqZ _ (Z.pred 1)) with (@nil Z). cbn [fmap list_fmap]. f_equal.
    rewrite nth_lookup, Z.add_0_l, <-Hw. rewrite list_lookup_insert_eq; [done|]. rewrite Hl. apply ring_slot_lt.
Qed.

(** Taking the byte at counter value [r]. *)
Lemma ring_list_pop buf r n : 0 < n →
  ring_list N buf r n = nth (Z.to_nat (r mod N)) buf 0 :: ring_list N buf (u32 (r + 1)) (n - 1).
Proof.
  intros Hn. unfold ring_list. rewrite seqZ_cons by done. cbn [fmap list_fmap]. f_equal; [by rewrite Z.add_0_r|].
  change (Z.succ 0) with (1 + 0). rewrite <-(fmap_add_seqZ 1 0), <-list_fmap_compose.
  apply list_fmap_ext. intros i x _. unfold compose. do 2 f_equal. apply u32_mod_ring.
  unfold u32. rewrite Zplus_mod_idemp_l. f_equal. lia.
Qed.
End ring.

(** Distances between counters. *)
Lemma u32_dist_succ a b : u32 (a - b) < 2 ^ 32 - 1 → u32 (u32 (a + 1) - b) = u32 (a - b) + 1.
Proof.
  unfold u32. intros H. rewrite Zminus_mod_idemp_l. replace (a + 1 - b) with (a - b + 1) by lia.
  rewrite <-Zplus_mod_idemp_l. apply Z.mod_small. pose proof (Z.mod_pos_bound (a - b) (2 ^ 32) ltac:(lia)). lia.
Qed.

Lemma u32_dist_pred a b : 0 < u32 (a - b) → u32 (a - u32 (b + 1)) = u32 (a - b) - 1.
Proof.
  unfold u32. intros H. rewrite Zminus_mod_idemp_r. replace (a - (b + 1)) with (a - b - 1) by lia.
  rewrite <-Zminus_mod_idemp_l. apply Z.mod_small. pose proof (Z.mod_pos_bound (a - b) (2 ^ 32) ltac:(lia)). lia.
Qed.

Lemma u32_dist_back a b : 0 < u32 (a - b) → u32 (u32 (a - 1) - b) = u32 (a - b) - 1.
Proof.
  unfold u32. intros H. rewrite Zminus_mod_idemp_l. replace (a - 1 - b) with (a - b - 1) by lia.
  rewrite <-Zminus_mod_idemp_l. apply Z.mod_small. pose proof (Z.mod_pos_bound (a - b) (2 ^ 32) ltac:(lia)). lia.
Qed.

Lemma u32_eq_dist a b : 0 ≤ a < 2 ^ 32 → 0 ≤ b < 2 ^ 32 → (a =? b) = (u32 (b - a) =? 0).
Proof.
  intros Ha Hb. unfold u32. destruct (Z.eqb_spec a b) as [->|He]; [by rewrite Z.sub_diag|].
  destruct (Z.eqb_spec ((b - a) mod 2 ^ 32) 0) as [Hf|Hf]; [|done].
  apply Z.mod_divide in Hf as [q Hq]; [|lia]. destruct He. assert (q = 0) by lia. lia.
Qed.

Lemma u32_full_dist a b n : 0 ≤ a < 2 ^ 32 → 0 ≤ n < 2 ^ 32 → (a =? u32 (b + n)) = (u32 (a - b) =? n).
Proof.
  intros Ha Hn. unfold u32.
  destruct (Z.eqb_spec a ((b + n) mod 2 ^ 32)) as [He|He];
    destruct (Z.eqb_spec ((a - b) mod 2 ^ 32) n) as [Hf|Hf]; try done.
  - destruct Hf. rewrite He, Zminus_mod_idemp_l. replace (b + n - b) with n by lia. by apply Z.mod_small.
  - destruct He. rewrite <-Hf, Zplus_mod_idemp_r. replace (b + (a - b)) with a by lia. symmetry. by apply Z.mod_small.
Qed.

(** The slot of the counter [n] positions after [b]. *)
Lemma u32_slot N a b : 0 < N → (N | 2 ^ 32) → a mod N = (b + u32 (a - b)) mod N.
Proof. intros HN Hd. apply u32_mod_ring; [done..|]. unfold u32. rewrite Zplus_mod_idemp_r. f_equal. lia. Qed.
