(* ===== verification/Spinlock.v ===== *)
(** * Spinlock: mutual exclusion spin locks (kernel/spinlock.c)

    The operations of [spinlock.c] on the CPUs and lock words of [machine],
    their lifting to the kernel's globals, and the interleaving of several
    CPUs as a step relation.  Its steps are the accesses of [acquire] and
    [release] to memory that other CPUs write, one at a time, but for
    [holding], whose two reads of a lock are one step. *)

From stdpp Require Import prelude gmap strings.
From S2P Require Import Prelude Types.
Open Scope Z_scope.

(** ** The operations *)

Definition mycpu : M machine cpu := m ← get; need (m_cpus m !! m_me m).

Definition set_mycpu (c : cpu) : M machine unit :=
  modify (λ m, mkMach (<[m_me m := c]> (m_cpus m)) (m_me m) (m_lock m)).

Definition set_lock (lk : lockid) (v : spinlock) : M machine unit :=
  modify (λ m, mkMach (m_cpus m) (m_me m)
    (λ l, if decide (l = lk) then v else m_lock m l)).

Definition initlock (lk : lockid) : M machine unit := set_lock lk (mkLock false None).

Definition readeflags_if : M machine bool := c ← mycpu; mret (c_if c).
Definition cli : M machine unit :=
  c ← mycpu; set_mycpu (mkCpu (c_ncli c) (c_intena c) false (c_proc c)).
Definition sti : M machine unit :=
  c ← mycpu; set_mycpu (mkCpu (c_ncli c) (c_intena c) true (c_proc c)).

Definition pushcli : M machine unit :=
  eflags ← readeflags_if;
  cli;;
  c ← mycpu;
  let intena := if c_ncli c =? 0 then eflags else c_intena c in
  set_mycpu (mkCpu (c_ncli c + 1) intena (c_if c) (c_proc c)).

Definition popcli : M machine unit :=
  eflags ← readeflags_if;
  if (eflags : bool) then panic "popcli - interruptible" else
  c ← mycpu;
  let ncli := c_ncli c - 1 in
  set_mycpu (mkCpu ncli (c_intena c) (c_if c) (c_proc c));;
  if ncli <? 0 then panic "popcli" else
  when ((ncli =? 0) && c_intena c) sti.

(** Check whether this cpu is holding the lock. *)
Definition holding (lk : lockid) : M machine bool :=
  m ← get;
  mret (lk_locked (m_lock m lk) && bool_decide (lk_cpu (m_lock m lk) = Some (m_me m))).

(** The atomic exchange on [lk->locked]: the old value is returned. *)
Definition xchg (lk : lockid) (v : bool) : M machine bool :=
  m ← get;
  set_lock lk (mkLock v (lk_cpu (m_lock m lk)));;
  mret (lk_locked (m_lock m lk)).

Definition set_lk_cpu (lk : lockid) (v : option nat) : M machine unit :=
  m ← get; set_lock lk (mkLock (lk_locked (m_lock m lk)) v).

(** [acquire] as one run on one CPU: when the exchange finds the lock taken
    nothing else can free it, and the loop spins. *)
Definition acquire_m (lk : lockid) : M machine unit :=
  pushcli;;
  h ← holding lk;
  if (h : bool) then panic "acquire" else
  old ← xchg lk true;
  if (old : bool) then spin else
  m ← get;
  set_lk_cpu lk (Some (m_me m)).

Definition release_m (lk : lockid) : M machine unit :=
  h ← holding lk;
  if negb h then panic "release" else
  set_lk_cpu lk None;;
  xchg lk false;;
  popcli.

(** Lifting to the kernel's globals. *)
Definition on_mach {A} (m : M machine A) : K A := λ k,
  match m (k_mach k) with
  | Ok a s => Ok a (set_mach s k)
  | Panic msg => Panic msg
  | Sleeps s => Sleeps (set_mach s k)
  | Fault => Fault
  | Spin => Spin
  end.

Definition acquire (lk : lockid) : K unit := on_mach (acquire_m lk).
Definition release (lk : lockid) : K unit := on_mach (release_m lk).

(** ** Several CPUs

    [pc] is where a CPU stands inside [acquire] or [release]; [Out] is any
    code outside the two.  [own c] records the locks whose exchange CPU [c]
    has won and not yet given back. *)
Inductive pc :=
| Out
| Acq_check (lk : lockid)     (* pushcli done; about to test holding(lk) *)
| Acq_xchg (lk : lockid)      (* in the while(xchg(..)) loop *)
| Acq_setcpu (lk : lockid)    (* exchange won; about to set lk->cpu *)
| Rel_clear (lk : lockid)     (* holding(lk) tested; about to clear lk->cpu *)
| Rel_xchg (lk : lockid)      (* about to store 0 with xchg *)
| Rel_pop                     (* about to popcli *)
| Stopped.                    (* panicked *)

Record sys := mkSys {
  s_mach : machine;           (* [m_me] is the CPU that took the last step *)
  s_pc : nat → pc;
  s_own : nat → list lockid
}.

Definition on_cpu (c : nat) (m : machine) : machine := mkMach (m_cpus m) c (m_lock m).
Definition fupd {A} (c : nat) (v : A) (f : nat → A) : nat → A := λ x, if decide (x = c) then v else f x.

Inductive sys_step : sys → sys → Prop :=
| St_acq_enter c lk m m' p o :
    p c = Out → pushcli (on_cpu c m) = Ok tt m' →
    sys_step (mkSys m p o) (mkSys m' (fupd c (Acq_check lk) p) o)
| St_acq_check c lk m m' p o h :
    p c = Acq_check lk → holding lk (on_cpu c m) = Ok h m' →
    sys_step (mkSys m p o) (mkSys m' (fupd c (if h then Stopped else Acq_xchg lk) p) o)
| St_acq_spin c lk m m' p o :
    p c = Acq_xchg lk → xchg lk true (on_cpu c m) = Ok true m' →
    sys_step (mkSys m p o) (mkSys m' p o)
| St_acq_win c lk m m' p o :
    p c = Acq_xchg lk → xchg lk true (on_cpu c m) = Ok false m' →
    sys_step (mkSys m p o) (mkSys m' (fupd c (Acq_setcpu lk) p) (fupd c (lk :: o c) o))
| St_acq_setcpu c lk m m' p o :
    p c = Acq_setcpu lk → set_lk_cpu lk (Some c) (on_cpu c m) = Ok tt m' →
    sys_step (mkSys m p o) (mkSys m' (fupd c Out p) o)
| St_rel_enter c lk m m' p o h :
    p c = Out → holding lk (on_cpu c m) = Ok h m' →
    sys_step (mkSys m p o) (mkSys m' (fupd c (if h then Rel_clear lk else Stopped) p) o)
| St_rel_clear c lk m m' p o :
    p c = Rel_clear lk → set_lk_cpu lk None (on_cpu c m) = Ok tt m' →
    sys_step (mkSys m p o) (mkSys m' (fupd c (Rel_xchg lk) p) o)
| St_rel_xchg c lk m m' p o old :
    p c = Rel_xchg lk → xchg lk false (on_cpu c m) = Ok old m' →
    sys_step (mkSys m p o) (mkSys m' (fupd c Rel_pop p) (fupd c (filter (λ l, l ≠ lk) (o c)) o))
| St_rel_pop c m m' p o :
    p c = Rel_pop → popcli (on_cpu c m) = Ok tt m' →
    sys_step (mkSys m p o) (mkSys m' (fupd c Out p) o)
| St_rel_pop_panic c m p o msg :
    p c = Rel_pop → popcli (on_cpu c m) = Panic msg →
    sys_step (mkSys m p o) (mkSys m (fupd c Stopped p) o)
| St_sti c m m' p o :          (* code outside with no lock held enables interrupts *)
    p c = Out → o c = [] → sti (on_cpu c m) = Ok tt m' →
    sys_step (mkSys m p o) (mkSys m' p o).

Definition sys_init (m : machine) : Prop :=
  (∀ lk, m_lock m lk = mkLock false None) ∧ Forall (λ c, c_ncli c = 0) (m_cpus m).

Inductive sys_reach : sys → Prop :=
| Reach_init m : sys_init m → sys_reach (mkSys m (λ _, Out) (λ _, []))
| Reach_step s s' : sys_reach s → sys_step s s' → sys_reach s'.

(** ** Runs of the operations *)

Ltac mach_simpl := unfold mycpu, get, need, set_mycpu, modify, mbind, M_bind, mret, M_ret in *; simpl in *.

Lemma pushcli_run m m' :
  pushcli m = Ok tt m' →
  ∃ c, m_cpus m !! m_me m = Some c ∧
    m' = mkMach (<[m_me m := mkCpu (c_ncli c + 1)
                    (if c_ncli c =? 0 then c_if c else c_intena c) false (c_proc c)]> (m_cpus m))
           (m_me m) (m_lock m).
Proof.
  unfold pushcli, readeflags_if, cli. mach_simpl.
  destruct (m_cpus m !! m_me m) as [c|] eqn:Hc; [|done]. simpl.
  pose proof (lookup_lt_Some _ _ _ Hc). rewrite Hc; simpl.
  rewrite list_lookup_insert_eq by done. simpl. rewrite list_insert_insert_eq.
  intros [= <-]. eauto.
Qed.

Lemma popcli_run m m' :
  popcli m = Ok tt m' →
  ∃ c, m_cpus m !! m_me m = Some c ∧ c_if c = false ∧ 0 <= c_ncli c - 1 ∧
    m' = mkMach (<[m_me m := mkCpu (c_ncli c - 1) (c_intena c)
                    ((c_ncli c - 1 =? 0) && c_intena c) (c_proc c)]> (m_cpus m))
           (m_me m) (m_lock m).
Proof.
  unfold popcli, readeflags_if, when, sti. mach_simpl.
  destruct (m_cpus m !! m_me m) as [c|] eqn:Hc; [|done]. simpl.
  pose proof (lookup_lt_Some _ _ _ Hc).
  destruct (c_if c) eqn:Hif; [done|]. rewrite Hc; simpl.
  destruct (c_ncli c - 1 <? 0) eqn:Hn; [done|].
  destruct ((c_ncli c - 1 =? 0) && c_intena c) eqn:Hs; simpl.
  - rewrite list_lookup_insert_eq by done. simpl. rewrite list_insert_insert_eq.
    intros [= <-]. exists c. rewrite Hs. repeat split; auto; lia.
  - intros [= <-]. exists c. rewrite Hs, Hif. repeat split; auto; lia.
Qed.

Lemma sti_run m m' :
  sti m = Ok tt m' →
  ∃ c, m_cpus m !! m_me m = Some c ∧
    m' = mkMach (<[m_me m := mkCpu (c_ncli c) (c_intena c) true (c_proc c)]> (m_cpus m))
           (m_me m) (m_lock m).
Proof.
  unfold sti. mach_simpl. destruct (m_cpus m !! m_me m) as [c|] eqn:Hc; [|done]. simpl.
  intros [= <-]. eauto.
Qed.

(** ** Mutual exclusion: the invariant on lock words *)

Definition in_acq (p : pc) : Z :=
  match p with Acq_check _ | Acq_xchg _ | Rel_pop => 1 | _ => 0 end.

Record lock_inv (lk_of : lockid → spinlock) (p : nat → pc) (o : nat → list lockid) : Prop := {
  li_locked lk c : lk ∈ o c → lk_locked (lk_of lk) = true;
  li_excl lk c1 c2 : lk ∈ o c1 → lk ∈ o c2 → c1 = c2;
  li_cpu lk c : lk_cpu (lk_of lk) = Some c → lk ∈ o c;
  li_own lk c : lk ∈ o c → p c ≠ Acq_setcpu lk → p c ≠ Rel_xchg lk → lk_cpu (lk_of lk) = Some c;
  li_nodup c : NoDup (o c);
  li_pc c lk : p c = Acq_setcpu lk ∨ p c = Rel_clear lk ∨ p c = Rel_xchg lk → lk ∈ o c;
  li_some lk : lk_locked (lk_of lk) = true → ∃ c, lk ∈ o c;
  li_clear c lk : p c = Rel_xchg lk → lk_cpu (lk_of lk) = None
}.

Lemma fupd_eq {A} c (v : A) f : fupd c v f c = v.
Proof. unfold fupd. by rewrite decide_True. Qed.
Lemma fupd_ne {A} c c' (v : A) f : c' ≠ c → fupd c v f c' = f c'.
Proof. intros. unfold fupd. by rewrite decide_False. Qed.

Ltac case_cpu c :=
  repeat match goal with
  | H : context [fupd c _ _ ?c'] |- _ =>
      unfold fupd in H; destruct (decide (c' = c)); [subst|]; simplify_eq/=
  | |- context [fupd c _ _ ?c'] =>
      unfold fupd; destruct (decide (c' = c)); [subst|]; simplify_eq/=
  end.

Ltac pc_solve :=
  intros; repeat match goal with H : _ ∨ _ |- _ => destruct H end; try split; congruence.

(** Moving a CPU between control points that hold no claim on a lock. *)
Lemma lock_inv_move lk_of p o c q :
  lock_inv lk_of p o →
  (∀ lk, lk ∈ o c → p c ≠ Acq_setcpu lk ∧ p c ≠ Rel_xchg lk) →
  (∀ lk, q = Acq_setcpu lk ∨ q = Rel_clear lk → lk ∈ o c) →
  (∀ lk, q ≠ Rel_xchg lk) →
  lock_inv lk_of (fupd c q p) o.
Proof.
  intros [H1 H2 H3 H4 H5 H6 H7 H8] Hold Hnew Hq. split; try done.
  - intros lk c' Hin Ha Hb. case_cpu c; [|by apply H4].
    destruct (Hold lk Hin). by apply H4.
  - intros c' lk Hp. case_cpu c; [|by apply H6]. destruct Hp as [?|[?|?]]; [auto..|].
    by destruct (Hq lk).
  - intros c' lk Hp. case_cpu c; [by destruct (Hq lk)|eauto].
Qed.

Lemma lock_inv_ext f g p o :
  (∀ lk, f lk = g lk) → lock_inv f p o → lock_inv g p o.
Proof.
  intros Hfg [H1 H2 H3 H4 H5 H6 H7 H8].
  split; intros; rewrite <-?Hfg in *; eauto.
Qed.

Lemma lock_inv_win f p o c lk :
  lock_inv f p o → p c = Acq_xchg lk → lk_locked (f lk) = false →
  lock_inv (λ l, if decide (l = lk) then mkLock true (lk_cpu (f lk)) else f l)
    (fupd c (Acq_setcpu lk) p) (fupd c (lk :: o c) o).
Proof.
  intros [H1 H2 H3 H4 H5 H6 H7 H8] Hp Hfree.
  assert (Hno : ∀ c', lk ∉ o c') by (intros c' Hin; apply H1 in Hin; congruence).
  split.
  - intros l c' Hin. case_decide; [done|]. case_cpu c; [|eauto].
    apply elem_of_cons in Hin as [->|]; [done|eauto].
  - intros l c1 c2 Hi1 Hi2. case_cpu c; auto;
      repeat match goal with H : _ ∈ _ :: _ |- _ => apply elem_of_cons in H as [->|?] end;
      try (by exfalso; eapply Hno; eauto); eauto.
  - intros l c' Hc. case_decide; [subst; simpl in Hc|];
      apply H3 in Hc; case_cpu c; auto; by apply elem_of_cons; right.
  - intros l c' Hin Ha Hb. case_cpu c.
    + apply elem_of_cons in Hin as [->|Hin]; [done|].
      case_decide; [by subst|]. apply H4; auto; congruence.
    + case_decide; [subst; by exfalso; eapply Hno|]. by apply H4.
  - intros c'. case_cpu c; [|auto]. constructor; auto.
  - intros c' l Hc. case_cpu c; [|auto]. destruct Hc as [[= ->]|[|]]; try done. left.
  - intros l Hl. case_decide as Hd.
    + subst. exists c. rewrite fupd_eq. left.
    + apply H7 in Hl as [c' Hc']. exists c'. case_cpu c; [|done]. by right.
  - intros c' l Hc. case_cpu c. case_decide; [subst|eauto].
    destruct (Hno c'). eauto.
Qed.

Lemma lock_inv_setcpu f p o c lk :
  lock_inv f p o → p c = Acq_setcpu lk →
  lock_inv (λ l, if decide (l = lk) then mkLock (lk_locked (f lk)) (Some c) else f l)
    (fupd c Out p) o.
Proof.
  intros [H1 H2 H3 H4 H5 H6 H7 H8] Hp.
  assert (Hin : lk ∈ o c) by eauto.
  split; try done.
  - intros l c' Hl. case_decide; subst; eauto.
  - intros l c' Hl. case_decide; subst; simplify_eq/=; eauto.
  - intros l c' Hl Ha Hb. case_decide as Hd.
    + subst. simpl. f_equal. eauto.
    + case_cpu c; apply H4; auto; congruence.
  - intros c' l Hc. case_cpu c; [by pc_solve|eauto].
  - intros l Hl. case_decide; subst; eauto.
  - intros c' l Hc. case_cpu c. case_decide; [subst|eauto].
    destruct n. eauto.
Qed.

Lemma lock_inv_clear f p o c lk :
  lock_inv f p o → p c = Rel_clear lk →
  lock_inv (λ l, if decide (l = lk) then mkLock (lk_locked (f lk)) None else f l)
    (fupd c (Rel_xchg lk) p) o.
Proof.
  intros [H1 H2 H3 H4 H5 H6 H7 H8] Hp.
  assert (Hin : lk ∈ o c) by eauto.
  split; try done.
  - intros l c' Hl. case_decide; subst; eauto.
  - intros l c' Hl. case_decide; subst; simplify_eq/=; eauto.
  - intros l c' Hl Ha Hb. case_decide as Hd.
    + subst. pose proof (H2 _ _ _ Hl Hin). subst. by rewrite fupd_eq in Hb.
    + case_cpu c; apply H4; auto; congruence.
  - intros c' l Hc. case_cpu c; [|eauto]. destruct Hc as [?|[?|[= ->]]]; done.
  - intros l Hl. case_decide; subst; eauto.
  - intros c' l Hc. case_decide; [done|]. case_cpu c. eauto.
Qed.

Lemma lock_inv_free f p o c lk :
  lock_inv f p o → p c = Rel_xchg lk →
  lock_inv (λ l, if decide (l = lk) then mkLock false (lk_cpu (f lk)) else f l)
    (fupd c Rel_pop p) (fupd c (filter (λ l, l ≠ lk) (o c)) o).
Proof.
  intros [H1 H2 H3 H4 H5 H6 H7 H8] Hp.
  assert (Hin : lk ∈ o c) by eauto.
  assert (Hsub : ∀ l c', l ∈ fupd c (filter (λ l, l ≠ lk) (o c)) o c' ↔ l ∈ o c' ∧ l ≠ lk).
  { intros l c'. case_cpu c; [rewrite list_elem_of_filter; tauto|].
    split; [|tauto]. intros Hl. split; [done|]. intros ->. eauto. }
  split.
  - intros l c' [Hl Hne]%Hsub. rewrite decide_False by done. eauto.
  - intros l c1 c2 [? _]%Hsub [? _]%Hsub. eauto.
  - intros l c' Hl. apply Hsub. case_decide as Hd; simpl in Hl.
    + subst. rewrite (H8 _ _ Hp) in Hl. done.
    + eauto.
  - intros l c' [Hl Hne]%Hsub Ha Hb. rewrite decide_False by done.
    case_cpu c; apply H4; auto; congruence.
  - intros c'. case_cpu c; [|done]. by apply NoDup_filter.
  - intros c' l Hc. apply Hsub. case_cpu c; [by pc_solve|].
    split; [eauto|]. intros ->. pose proof (H6 _ _ Hc). eauto.
  - intros l Hl. case_decide as Hd; [done|]. apply H7 in Hl as [c' ?]. exists c'. by apply Hsub.
  - intros c' l Hc. case_cpu c. case_decide; [subst; eauto|eauto].
Qed.

Lemma pushcli_lock m m' : pushcli m = Ok tt m' → m_lock m' = m_lock m.
Proof. by intros (c & ? & ->)%pushcli_run. Qed.
Lemma popcli_lock m m' : popcli m = Ok tt m' → m_lock m' = m_lock m.
Proof. by intros (c & ? & ? & ? & ->)%popcli_run. Qed.
Lemma sti_lock m m' : sti m = Ok tt m' → m_lock m' = m_lock m.
Proof. by intros (c & ? & ->)%sti_run. Qed.

Lemma holding_own f p o c lk :
  lock_inv f p o → (∀ l, p c ≠ Acq_setcpu l) → (∀ l, p c ≠ Rel_xchg l) →
  (lk_locked (f lk) && bool_decide (lk_cpu (f lk) = Some c)) = bool_decide (lk ∈ o c).
Proof.
  intros Hi Ha Hb. destruct (decide (lk ∈ o c)) as [Hin|Hout].
  - rewrite bool_decide_true with (P := lk ∈ o c) by done.
    rewrite (li_locked _ _ _ Hi _ _ Hin), (li_own _ _ _ Hi _ _ Hin); auto.
    by rewrite bool_decide_true.
  - rewrite bool_decide_false with (P := lk ∈ o c) by done.
    rewrite bool_decide_false; [by rewrite andb_false_r|].
    by intros ?%(li_cpu _ _ _ Hi).
Qed.

Lemma lock_inv_step s s' :
  sys_step s s' → lock_inv (m_lock (s_mach s)) (s_pc s) (s_own s) →
  lock_inv (m_lock (s_mach s')) (s_pc s') (s_own s').
Proof.
  intros Hs Hi. destruct Hs; simpl in *.
  - rewrite (pushcli_lock _ _ H0). apply lock_inv_move; auto; try pc_solve.
  - unfold holding in H0. mach_simpl. simplify_eq/=.
    rewrite (holding_own _ _ _ _ _ Hi) by congruence.
    apply lock_inv_move; auto; try case_bool_decide; try pc_solve; try done.
  - unfold xchg, set_lock in H0. mach_simpl. simplify_eq/=.
    eapply lock_inv_ext; [|done]. intros l. simpl. case_decide; [subst|done].
    by destruct (m_lock m lk); simplify_eq/=.
  - unfold xchg, set_lock in H0. mach_simpl. simplify_eq/=. by apply lock_inv_win.
  - unfold set_lk_cpu, set_lock in H0. mach_simpl. simplify_eq/=. by apply lock_inv_setcpu.
  - unfold holding in H0. mach_simpl. simplify_eq/=.
    rewrite (holding_own _ _ _ _ _ Hi) by congruence.
    apply lock_inv_move; auto; try case_bool_decide; try pc_solve; try done.
  - unfold set_lk_cpu, set_lock in H0. mach_simpl. simplify_eq/=. by apply lock_inv_clear.
  - unfold xchg, set_lock in H0. mach_simpl. simplify_eq/=. by apply lock_inv_free.
  - rewrite (popcli_lock _ _ H0). apply lock_inv_move; auto; pc_solve.
  - apply lock_inv_move; auto; pc_solve.
  - by rewrite (sti_lock _ _ H1).
Qed.

Lemma lock_inv_reach s : sys_reach s → lock_inv (m_lock (s_mach s)) (s_pc s) (s_own s).
Proof.
  induction 1 as [m [Hl _]|s s' _ IH Hs]; [|by eapply lock_inv_step].
  split; simpl; intros; rewrite ?Hl in *; simpl in *;
    
    try (by constructor); try (by pc_solve);
    match goal with H : _ ∈ [] |- _ => by apply not_elem_of_nil in H end.
Qed.

(** ** Interrupts: the nesting count *)

Definition cli_inv (cpus : list cpu) (p : nat → pc) (o : nat → list lockid) : Prop :=
  ∀ c cp, cpus !! c = Some cp →
    (p c ≠ Stopped → c_ncli cp = Z.of_nat (length (o c)) + in_acq (p c)) ∧
    (0 < c_ncli cp → c_if cp = false).

Lemma cli_inv_move cpus p o c q :
  cli_inv cpus p o → p c ≠ Stopped → q = Stopped ∨ in_acq q = in_acq (p c) →
  cli_inv cpus (fupd c q p) o.
Proof.
  intros Hi Hp Hq c' cp Hc. destruct (Hi c' cp Hc) as [H1 H2]. split; [|done].
  intros Hns. case_cpu c; [|auto]. destruct Hq as [|Hq]; [done|]. rewrite Hq. auto.
Qed.

Lemma cli_inv_upd cpus p o c cp q own :
  cli_inv cpus p o →
  (q ≠ Stopped → c_ncli cp = Z.of_nat (length own) + in_acq q) →
  (0 < c_ncli cp → c_if cp = false) →
  cli_inv (<[c := cp]> cpus) (fupd c q p) (fupd c own o).
Proof.
  intros Hi H1 H2 c' cp' Hc. apply list_lookup_insert_Some in Hc as [(-> & -> & _)|[Hne Hc]].
  - by rewrite !fupd_eq.
  - rewrite !fupd_ne by done. by apply Hi.
Qed.

Lemma fupd_same {A} c (f : nat → A) x : fupd c (f c) f x = f x.
Proof. unfold fupd. case_decide; by subst. Qed.

Lemma cli_inv_ext cpus p p' o o' :
  (∀ c, p c = p' c) → (∀ c, o c = o' c) → cli_inv cpus p o → cli_inv cpus p' o'.
Proof. intros Hp Ho Hi c cp Hc. rewrite <-Hp, <-Ho. by apply Hi. Qed.

Lemma length_filter_one (l : list lockid) lk :
  NoDup l → lk ∈ l → Z.of_nat (length (filter (λ x, x ≠ lk) l)) = Z.of_nat (length l) - 1.
Proof.
  induction 1 as [|x l Hx Hl IH]; intros Hin; [by apply not_elem_of_nil in Hin|].
  rewrite filter_cons. case_decide as Hd.
  - apply elem_of_cons in Hin as [->|Hin]; [done|]. simpl length. rewrite !Nat2Z.inj_succ.
    specialize (IH Hin). lia.
  - subst x. simpl length.
    assert (filter (λ x, x ≠ lk) l = l) as ->; [|lia].
    clear -Hx. induction l as [|y l IH]; [done|].
    rewrite filter_cons, decide_True by set_solver. f_equal. apply IH. set_solver.
Qed.

Lemma cli_inv_step s s' :
  sys_step s s' → lock_inv (m_lock (s_mach s)) (s_pc s) (s_own s) →
  cli_inv (m_cpus (s_mach s)) (s_pc s) (s_own s) →
  cli_inv (m_cpus (s_mach s')) (s_pc s') (s_own s').
Proof.
  intros Hs Hl Hi. destruct Hs; simpl in *.
  - apply pushcli_run in H0 as (cp & Hc & ->). simpl in *. destruct (Hi _ _ Hc) as [Hn _].
    eapply cli_inv_ext; [done|apply (fupd_same c)|]. apply cli_inv_upd; [done| |done].
    simpl. rewrite Hn, H by congruence. simpl. lia.
  - unfold holding in H0. mach_simpl. simplify_eq/=.
    apply cli_inv_move; [done|congruence|rewrite H]. case_match; auto.
  - unfold xchg, set_lock in H0. mach_simpl. by simplify_eq/=.
  - unfold xchg, set_lock in H0. mach_simpl. simplify_eq/=.
    intros c' cp Hc. destruct (Hi _ _ Hc) as [Hn Hf]. split; [|done].
    intros Hns. case_cpu c; [|auto]. rewrite Hn, H by congruence. simpl. lia.
  - unfold set_lk_cpu, set_lock in H0. mach_simpl. simplify_eq/=.
    apply cli_inv_move; [done|congruence|by rewrite H; right].
  - unfold holding in H0. mach_simpl. simplify_eq/=.
    apply cli_inv_move; [done|congruence|rewrite H]. case_match; auto.
  - unfold set_lk_cpu, set_lock in H0. mach_simpl. simplify_eq/=.
    apply cli_inv_move; [done|congruence|by rewrite H; right].
  - unfold xchg, set_lock in H0. mach_simpl. simplify_eq/=.
    intros c' cp Hc. destruct (Hi _ _ Hc) as [Hn Hf]. split; [|done].
    intros Hst. case_cpu c; [|auto].
    rewrite Hn, H by congruence. rewrite length_filter_one; [simpl; lia|apply Hl|].
    eapply li_pc; eauto.
  - apply popcli_run in H0 as (cp & Hc & Hif & Hge & ->). simpl in *. destruct (Hi _ _ Hc) as [Hn _].
    eapply cli_inv_ext; [done|apply (fupd_same c)|]. apply cli_inv_upd; [done| |].
    + simpl. rewrite Hn, H by congruence. simpl. lia.
    + simpl. intros. destruct (c_ncli cp - 1 =? 0) eqn:E; [lia|done].
  - apply cli_inv_move; [done|congruence|by left].
  - apply sti_run in H1 as (cp & Hc & ->). simpl in *. destruct (Hi _ _ Hc) as [Hn _].
    eapply cli_inv_ext; [apply (fupd_same c)|apply (fupd_same c)|].
    apply cli_inv_upd; [done|simpl; auto|]. simpl. rewrite Hn, H, H0 by congruence. simpl. lia.
Qed.

Lemma cli_inv_reach s : sys_reach s → cli_inv (m_cpus (s_mach s)) (s_pc s) (s_own s).
Proof.
  induction 1 as [m [_ Hn]|s s' Hr IH Hs]; [|eauto using cli_inv_step, lock_inv_reach].
  intros c cp Hc. simpl in *. apply (Forall_lookup_1 _ _ _ _ Hn) in Hc. simpl. lia.
Qed.

(** ** One CPU running kernel code: which locks it holds *)

Definition at_mach (L : list lockid) (pr : option nat) (m : machine) : Prop :=
  NoDup L ∧
  (∃ cp, m_cpus m !! m_me m = Some cp ∧ c_ncli cp = Z.of_nat (length L) ∧ c_proc cp = pr ∧
         (L ≠ [] → c_if cp = false)) ∧
  (∀ lk, m_lock m lk = if decide (lk ∈ L) then mkLock true (Some (m_me m)) else mkLock false None).

Lemma acquire_m_run L pr m lk :
  at_mach L pr m → lk ∉ L → ∃ m', acquire_m lk m = Ok tt m' ∧ at_mach (lk :: L) pr m'.
Proof.
  intros (Hnd & (cp & Hc & Hn & Hp & Hif) & Hl) Hlk.
  pose proof (lookup_lt_Some _ _ _ Hc).
  unfold acquire_m, pushcli, readeflags_if, cli, holding, xchg, set_lk_cpu, set_lock.
  mach_simpl. rewrite Hc; simpl. rewrite Hc; simpl. rewrite list_lookup_insert_eq by done; simpl.
  assert (Hfree : m_lock m lk = mkLock false None) by (by rewrite Hl, decide_False).
  rewrite Hfree; simpl. rewrite Hfree; simpl.
  eexists; split; [done|]. split; [by constructor|]. split; simpl.
  - rewrite list_insert_insert_eq. eexists. split; [by apply list_lookup_insert_eq|].
    simpl. rewrite Hn. repeat split; auto. lia.
  - intros l. rewrite !Hl. destruct (decide (l = lk)) as [->|Hne].
    + rewrite (decide_True (P := lk = lk)) by done. simpl. by rewrite decide_True by left.
    + destruct (decide (l ∈ L)); [rewrite decide_True by (by right)|rewrite decide_False by (by intros [?|?]%elem_of_cons)]; done.
Qed.

Lemma release_m_run L pr m lk :
  at_mach (lk :: L) pr m → ∃ m', release_m lk m = Ok tt m' ∧ at_mach L pr m'.
Proof.
  intros (Hnd & (cp & Hc & Hn & Hp & Hif) & Hl).
  pose proof (lookup_lt_Some _ _ _ Hc). apply NoDup_cons in Hnd as [Hlk Hnd].
  simpl in Hn. specialize (Hif ltac:(done)).
  unfold release_m, popcli, when, sti, readeflags_if, holding, xchg, set_lk_cpu, set_lock.
  assert (Hheld : m_lock m lk = mkLock true (Some (m_me m))) by (rewrite Hl, decide_True; [done|left]).
  mach_simpl. rewrite Hheld; simpl. rewrite bool_decide_true by done; simpl. rewrite Hheld; simpl.
  rewrite Hc; simpl. rewrite Hif; simpl. rewrite Hc; simpl.
  destruct (c_ncli cp - 1 <? 0) eqn:E; [lia|].
  assert (Hlocks : ∀ l : lockid,
    (if decide (l = lk)
     then mkLock false (lk_cpu (if decide (lk = lk) then mkLock true None else mkLock true (Some (m_me m))))
     else if decide (l = lk) then mkLock true None else m_lock m l) =
    (if decide (l ∈ L) then mkLock true (Some (m_me m)) else mkLock false None)).
  { intros l. destruct (decide (lk = lk)) as [_|]; [|done]. simpl. destruct (decide (l = lk)) as [->|Hne].
    - by rewrite decide_False.
    - rewrite Hl. destruct (decide (l ∈ L)); [rewrite decide_True by (by right)|rewrite decide_False by (by intros [?|?]%elem_of_cons)]; done. }
  assert (Hin : L = [] ∨ L ≠ []) by (destruct L; auto).
  destruct ((c_ncli cp - 1 =? 0) && c_intena cp) eqn:Hs; simpl.
  - rewrite list_lookup_insert_eq by done; simpl. rewrite list_insert_insert_eq.
    eexists; split; [done|]. split; [done|]. split; [|exact Hlocks]. simpl. eexists.
    split; [by apply list_lookup_insert_eq|]. simpl. repeat split; auto; [lia|].
    destruct L; simpl in *; [done|lia].
  - eexists; split; [done|]. split; [done|]. split; [|exact Hlocks]. simpl. eexists.
    split; [by apply list_lookup_insert_eq|]. simpl. repeat split; auto; lia.
Qed.

(** A lock is not among those held. *)
Ltac nolock := repeat (apply not_elem_of_cons; split; [done|]); first [apply not_elem_of_nil|done].

Lemma wp_acquire L pr lk k E Q :
  at_mach L pr (k_mach k) → lk ∉ L →
  (∀ m', at_mach (lk :: L) pr m' → Q tt (set_mach m' k)) →
  wp (acquire lk) E Q k.
Proof.
  intros Hm Hlk HQ. destruct (acquire_m_run _ _ _ _ Hm Hlk) as (m' & Hr & Hm').
  eapply wp_run; [|by apply HQ]. unfold acquire, on_mach. by rewrite Hr.
Qed.

Lemma wp_release L pr lk k E Q :
  at_mach (lk :: L) pr (k_mach k) →
  (∀ m', at_mach L pr m' → Q tt (set_mach m' k)) →
  wp (release lk) E Q k.
Proof.
  intros Hm HQ. destruct (release_m_run _ _ _ _ Hm) as (m' & Hr & Hm').
  eapply wp_run; [|by apply HQ]. unfold release, on_mach. by rewrite Hr.
Qed.

(** ** Nested pushcli and popcli *)

Fixpoint repeat_m {S} (n : nat) (m : M S unit) : M S unit :=
  match n with O => mret tt | S n => m;; repeat_m n m end.

(** The effect of [n] pushcli and of [n] popcli on the CPU. *)
Definition pushed (n : nat) (cp : cpu) : cpu :=
  match n with
  | O => cp
  | _ => mkCpu (c_ncli cp + Z.of_nat n) (if c_ncli cp =? 0 then c_if cp else c_intena cp) false (c_proc cp)
  end.

Lemma pushed_S n cp : 0 <= c_ncli cp → pushed n (pushed 1 cp) = pushed (S n) cp.
Proof.
  intros. destruct n; [done|]. unfold pushed. simpl c_ncli. simpl c_intena.
  destruct (c_ncli cp + Z.of_nat 1 =? 0) eqn:E; [apply Z.eqb_eq in E; lia|]. f_equal. lia.
Qed.

Lemma repeat_pushcli n m cp :
  m_cpus m !! m_me m = Some cp → 0 <= c_ncli cp →
  repeat_m n pushcli m = Ok tt (mkMach (<[m_me m := pushed n cp]> (m_cpus m)) (m_me m) (m_lock m)).
Proof.
  revert m cp. induction n as [|n IH]; intros m cp Hc Hn; simpl.
  - rewrite list_insert_id by done. by destruct m.
  - pose proof (lookup_lt_Some _ _ _ Hc).
    assert (Hp : pushcli m = Ok tt (mkMach (<[m_me m := pushed 1 cp]> (m_cpus m)) (m_me m) (m_lock m))).
    { unfold pushcli, readeflags_if, cli. mach_simpl. rewrite Hc; simpl. rewrite Hc; simpl.
      rewrite list_lookup_insert_eq by done. simpl. by rewrite list_insert_insert_eq. }
    rewrite (bind_run _ _ _ _ _ Hp).
    rewrite (IH _ (pushed 1 cp)); [|by apply list_lookup_insert_eq|simpl; lia].
    simpl m_cpus. simpl m_me. rewrite list_insert_insert_eq, pushed_S by done. done.
Qed.

Lemma repeat_popcli n m cp :
  m_cpus m !! m_me m = Some cp → c_ncli cp = Z.of_nat n → (n ≠ O → c_if cp = false) →
  repeat_m n popcli m =
    Ok tt (mkMach (<[m_me m := match n with O => cp | _ => mkCpu 0 (c_intena cp) (c_intena cp) (c_proc cp) end]>
                     (m_cpus m)) (m_me m) (m_lock m)).
Proof.
  revert m cp. induction n as [|n IH]; intros m cp Hc Hn Hif; simpl.
  - rewrite list_insert_id by done. by destruct m.
  - pose proof (lookup_lt_Some _ _ _ Hc). specialize (Hif ltac:(done)).
    set (cp1 := mkCpu (Z.of_nat n) (c_intena cp) ((Z.of_nat n =? 0) && c_intena cp) (c_proc cp)).
    assert (Hp : popcli m = Ok tt (mkMach (<[m_me m := cp1]> (m_cpus m)) (m_me m) (m_lock m))).
    { unfold popcli, readeflags_if, when, sti. mach_simpl. rewrite Hc; simpl. rewrite Hif; simpl.
      rewrite Hc; simpl. replace (c_ncli cp - 1) with (Z.of_nat n) by lia.
      destruct (Z.of_nat n <? 0) eqn:E; [lia|].
      destruct ((Z.of_nat n =? 0) && c_intena cp) eqn:Hs; simpl; unfold cp1; rewrite ?Hs, ?Hif; [|done].
      rewrite list_lookup_insert_eq by done. simpl. by rewrite list_insert_insert_eq. }
    rewrite (bind_run _ _ _ _ _ Hp).
    rewrite (IH _ cp1); simpl; [|by apply list_lookup_insert_eq|done|].
    + rewrite list_insert_insert_eq. destruct n; [|done]. unfold cp1. simpl. done.
    + intros. destruct n; simpl; done.
Qed.

(** ** Properties *)

(** C8: in every interleaving of any number of CPUs at the granularity of single
    memory accesses, at most one CPU is between the winning exchange of
    [acquire(lk)] and the exchange of [release(lk)]; while it is, the lock word
    is set and its interrupts are off. *)
Theorem spinlock_mutual_exclusion s lk c1 c2 cp :
  sys_reach s → lk ∈ s_own s c1 → lk ∈ s_own s c2 →
  m_cpus (s_mach s) !! c1 = Some cp → s_pc s c1 ≠ Stopped →
  c1 = c2 ∧ lk_locked (m_lock (s_mach s) lk) = true ∧ c_if cp = false.
Proof.
  intros Hr H1 H2 Hc Hs. pose proof (lock_inv_reach s Hr) as Hl.
  split; [by eapply li_excl|]. split; [by eapply li_locked|].
  destruct (cli_inv_reach s Hr c1 cp Hc) as [Hn Hf]. apply Hf. rewrite Hn by done.
  destruct (s_own s c1); [by apply not_elem_of_nil in H1|]. simpl. destruct (s_pc s c1); simpl; lia.
Qed.

Definition two_cpus : machine :=
  mkMach [mkCpu 0 false true None; mkCpu 0 false true None] 0 (λ _, mkLock false None).

Ltac run := first [reflexivity | cbn; reflexivity | cbv -[decide]; reflexivity].

Lemma two_cpus_init : sys_init two_cpus.
Proof. split; [done|]. simpl. constructor; [done|]. constructor; [done|]. constructor. Qed.

(** CPU 0 of a two-CPU machine runs [acquire(&bcache.lock)] to the end. *)
Lemma two_cpus_run :
  ∃ s, sys_reach s ∧ L_bcache ∈ s_own s 0 ∧ s_pc s 0 = Out ∧ s_pc s 1 = Out ∧ s_own s 1 = [] ∧
    m_cpus (s_mach s) = [mkCpu 1 true false None; mkCpu 0 false true None].
Proof.
  eexists. split.
  { eapply Reach_step; [eapply Reach_step; [eapply Reach_step; [eapply Reach_step;
      [apply (Reach_init two_cpus); exact two_cpus_init
      |eapply (St_acq_enter 0 L_bcache); run]
      |eapply (St_acq_check 0 L_bcache); run]
      |eapply (St_acq_win 0 L_bcache); run]
      |eapply (St_acq_setcpu 0 L_bcache); run]. }
  split; [simpl; left|done].
Qed.

Lemma spinlock_mutual_exclusion_witness :
  ∃ s, L_bcache ∈ s_own s 0 ∧ lk_locked (m_lock (s_mach s) L_bcache) = true.
Proof.
  destruct two_cpus_run as (s & Hr & Hin & Hp & _ & _ & Hc). exists s. split; [done|].
  destruct (spinlock_mutual_exclusion s L_bcache 0 0 (mkCpu 1 true false None)) as (_ & H & _);
    auto; [by rewrite Hc|by rewrite Hp].
Defined.

(** What [acquire] and [release] do when a CPU outside the two calls them, in
    every reachable state: [release] frees the lock exactly when the caller owns
    it and panics otherwise; [acquire] panics when the caller already owns the
    lock, spins when another CPU owns it, and otherwise takes it. *)
Theorem spinlock_outcomes s lk c :
  sys_reach s → s_pc s c = Out → (c < length (m_cpus (s_mach s)))%nat →
  let m := on_cpu c (s_mach s) in
  (lk ∈ s_own s c →
     (∃ m', release_m lk m = Ok tt m' ∧ m_lock m' lk = mkLock false None) ∧
     acquire_m lk m = Panic "acquire") ∧
  (lk ∉ s_own s c →
     release_m lk m = Panic "release" ∧
     ((∃ c', lk ∈ s_own s c') → acquire_m lk m = Spin) ∧
     ((∀ c', lk ∉ s_own s c') →
        ∃ m', acquire_m lk m = Ok tt m' ∧ m_lock m' lk = mkLock true (Some c))).
Proof.
  intros Hr Hp Hc m. pose proof (lock_inv_reach s Hr) as Hl.
  apply lookup_lt_is_Some in Hc as [cp Hc]. pose proof (lookup_lt_Some _ _ _ Hc).
  destruct (cli_inv_reach s Hr c cp Hc) as [Hn Hf]. specialize (Hn ltac:(congruence)).
  rewrite Hp in Hn; simpl in Hn.
  pose proof (holding_own _ _ _ c lk Hl ltac:(congruence) ltac:(congruence)) as Hh.
  unfold release_m, acquire_m, pushcli, popcli, holding, readeflags_if, cli, xchg, set_lk_cpu, set_lock, when, sti.
  unfold m, on_cpu. mach_simpl. rewrite Hh, Hc. simpl. rewrite Hc. simpl.
  rewrite list_lookup_insert_eq by done. simpl. rewrite Hh. split; intros Hown.
  - rewrite bool_decide_true by done. simpl. split; [|done].
    assert (0 < c_ncli cp) by (destruct (s_own s c); [by apply not_elem_of_nil in Hown|simpl in *; lia]).
    rewrite Hc; simpl. rewrite Hf by done; simpl. rewrite Hc; simpl. destruct (c_ncli cp - 1 <? 0) eqn:E; [lia|].
    destruct ((c_ncli cp - 1 =? 0) && c_intena cp); simpl;
      rewrite ?list_lookup_insert_eq by done; simpl;
      eexists; split; try done; simpl; by rewrite !decide_True.
  - rewrite bool_decide_false by done. simpl. split; [done|]. split.
    + intros [c' Hc']. by rewrite (li_locked _ _ _ Hl _ _ Hc').
    + intros Hno. destruct (lk_locked _) eqn:El.
      { apply (li_some _ _ _ Hl) in El as [c' ?]. by destruct (Hno c'). }
      eexists; split; [done|]. simpl. by rewrite !decide_True.
Qed.

Lemma spinlock_outcomes_witness :
  ∃ s, sys_reach s ∧ acquire_m L_bcache (on_cpu 1 (s_mach s)) = Spin ∧
    release_m L_bcache (on_cpu 1 (s_mach s)) = Panic "release" ∧
    acquire_m L_bcache (on_cpu 0 (s_mach s)) = Panic "acquire".
Proof.
  destruct two_cpus_run as (s & Hr & Hin & Hp0 & Hp1 & Ho1 & Hc). exists s. split; [done|].
  destruct (spinlock_outcomes s L_bcache 1 Hr Hp1) as [_ H1]; [rewrite Hc; simpl; lia|].
  destruct H1 as (H1 & H2 & _); [rewrite Ho1; apply not_elem_of_nil|].
  split; [by apply H2; exists 0%nat|]. split; [done|].
  destruct (spinlock_outcomes s L_bcache 0 Hr Hp0) as [H3 _]; [rewrite Hc; simpl; lia|].
  by apply H3.
Defined.

(** Pushcli and popcli are matched: after [n] pushcli interrupts are off, and
    the [n]-th popcli restores the interrupt flag there was before. *)
Theorem pushcli_popcli_nest n m cp :
  m_cpus m !! m_me m = Some cp → c_ncli cp = 0 →
  ∃ m1 m2 cp1 cp2,
    repeat_m n pushcli m = Ok tt m1 ∧ m_cpus m1 !! m_me m = Some cp1 ∧
    (0 < n → c_if cp1 = false)%nat ∧ c_ncli cp1 = Z.of_nat n ∧
    repeat_m n popcli m1 = Ok tt m2 ∧ m_cpus m2 !! m_me m = Some cp2 ∧
    c_if cp2 = c_if cp ∧ c_ncli cp2 = 0.
Proof.
  intros Hc Hn. pose proof (lookup_lt_Some _ _ _ Hc).
  eexists _, _, (pushed n cp), _. split; [apply (repeat_pushcli n m cp Hc); lia|].
  split; [by apply list_lookup_insert_eq|]. split; [destruct n; [lia|done]|].
  split; [destruct n; simpl; lia|].
  split; [apply (repeat_popcli n _ (pushed n cp)); simpl;
          [by apply list_lookup_insert_eq|destruct n; simpl; lia|destruct n; done]|].
  simpl. rewrite list_insert_insert_eq. split; [by apply list_lookup_insert_eq|].
  destruct n; simpl; [done|]. by rewrite Hn.
Qed.

Lemma pushcli_popcli_nest_witness :
  ∃ m2 cp2, (repeat_m 3 pushcli ;; repeat_m 3 popcli) two_cpus = Ok tt m2 ∧
    m_cpus m2 !! 0%nat = Some cp2 ∧ c_if cp2 = true.
Proof.
  destruct (pushcli_popcli_nest 3 two_cpus (mkCpu 0 false true None) eq_refl eq_refl)
    as (m1 & m2 & cp1 & cp2 & H1 & _ & _ & _ & H2 & Hc & Hif & _).
  exists m2, cp2. split; [by rewrite (bind_run _ _ _ _ _ H1)|]. by split.
Defined.

(** ** The panics of [acquire] and [release] *)

Lemma acquire_panic lk k msg : acquire lk k = Panic msg → msg = "acquire".
Proof.
  unfold acquire, on_mach, acquire_m, pushcli, readeflags_if, cli, holding, xchg, set_lk_cpu, set_lock.
  mach_simpl. repeat (case_match; simplify_eq/=; try done). all: unfold panic in *; intros; congruence.
Qed.
Lemma release_panic lk k msg :
  release lk k = Panic msg → msg ∈ ["release"; "popcli - interruptible"; "popcli"].
Proof.
  unfold release, on_mach, release_m, popcli, when, sti, readeflags_if, holding, xchg, set_lk_cpu, set_lock.
  mach_simpl. repeat (case_match; simplify_eq/=; try done); unfold panic in *; intros; simplify_eq; set_solver.
Qed.
