(* ===== verification/Sched.v ===== *)
(** * Sched: sleeping, waking and the scheduler (kernel/proc.c)

    [sched], [sleep], [wakeup1], [wakeup], [yield] and the scheduler's choice.
    A call of [sched] leaves the running process, so its outcome is [Sleeps]
    with the globals as [swtch] finds them; the code after it runs when the
    scheduler resumes the process and is a definition of its own. *)

From stdpp Require Import prelude gmap strings.
From S2P Require Import Prelude Types Spinlock.
Open Scope Z_scope.

Definition set_p_state (v : procstate) (p : proc) : proc :=
  mkProc (p_sz p) (p_pgdir p) (p_kstack p) v (p_pid p) (p_parent p) (p_tf p) (p_context p)
    (p_chan p) (p_killed p) (p_ofile p) (p_cwd p) (p_name p).
Definition set_p_chan (v : option chan) (p : proc) : proc :=
  mkProc (p_sz p) (p_pgdir p) (p_kstack p) (p_state p) (p_pid p) (p_parent p) (p_tf p) (p_context p)
    v (p_killed p) (p_ofile p) (p_cwd p) (p_name p).
Definition set_p_context (v : context) (p : proc) : proc :=
  mkProc (p_sz p) (p_pgdir p) (p_kstack p) (p_state p) (p_pid p) (p_parent p) (p_tf p) v
    (p_chan p) (p_killed p) (p_ofile p) (p_cwd p) (p_name p).
Definition set_procs (f : list proc → list proc) (pt : ptable) : ptable :=
  mkPtable (f (pt_proc pt)) (pt_initproc pt) (pt_nextpid pt).

(** The per-CPU variable [proc]. *)
Definition curproc (m : machine) : option nat := m_cpus m !! m_me m ≫= c_proc.

(** [proc->f], for a process that must exist. *)
Definition myproc : K nat := k ← get; need (curproc (k_mach k)).
Definition getproc (i : nat) : K proc := k ← get; need (pt_proc (k_pt k) !! i).
Definition updproc (i : nat) (f : proc → proc) : K unit :=
  modify (λ k, set_pt (set_procs (alter f i) (k_pt k)) k).

(** [proc->killed] *)
Definition killed : K bool := i ← myproc; p ← getproc i; mret (p_killed p).

(** [swtch(&proc->context, cpu->scheduler)]. *)
Definition swtch_out : K unit := λ k, Sleeps k.

(** Enter scheduler.  Must hold only ptable.lock and have changed
    proc->state. *)
Definition sched : K unit :=
  h ← on_mach (holding L_ptable);
  if negb h then panic "sched ptable.lock" else
  c ← on_mach mycpu;
  if negb (c_ncli c =? 1) then panic "sched locks" else
  i ← myproc;
  p ← getproc i;
  if bool_decide (p_state p = RUNNING) then panic "sched running" else
  if c_if c then panic "sched interruptible" else
  updproc i (set_p_context CtxSched);;
  swtch_out.

(** Atomically release lock and sleep on chan: up to the switch to the
    scheduler. *)
Definition sleep (ch : chan) (lk : option lockid) : K unit :=
  k ← get;
  match curproc (k_mach k), lk with
  | None, _ => panic "sleep"
  | Some _, None => panic "sleep without lk"
  | Some i, Some l =>
      when (negb (bool_decide (l = L_ptable))) (acquire L_ptable;; release l);;
      updproc i (set_p_chan (Some ch));;
      updproc i (set_p_state SLEEPING);;
      sched
  end.

(** What [sleep] does when the process is resumed, up to the release of the
    process table, and all of it. *)
Definition sleep_wake (lk : lockid) : K unit :=
  i ← myproc;
  updproc i (set_p_chan None);;
  when (negb (bool_decide (lk = L_ptable))) (release L_ptable).
Definition sleep_return (lk : lockid) : K unit :=
  sleep_wake lk;;
  when (negb (bool_decide (lk = L_ptable))) (acquire lk).

(** Wake up all processes sleeping on chan. The ptable lock must be held. *)
Definition wakeup1_proc (ch : chan) (p : proc) : proc :=
  if bool_decide (p_state p = SLEEPING ∧ p_chan p = Some ch) then set_p_state RUNNABLE p else p.
Definition wakeup1 (ch : chan) : K unit :=
  modify (λ k, set_pt (set_procs (map (wakeup1_proc ch)) (k_pt k)) k).

Definition wakeup (ch : chan) : K unit :=
  acquire L_ptable;; wakeup1 ch;; release L_ptable.

(** Give up the CPU for one scheduling round. *)
Definition yield : K unit :=
  acquire L_ptable;;
  i ← myproc;
  updproc i (set_p_state RUNNABLE);;
  sched.

(** [proc = v], the per-CPU variable. *)
Definition set_cpuproc (v : option nat) : K unit :=
  on_mach (c ← mycpu; set_mycpu (mkCpu (c_ncli c) (c_intena c) (c_if c) v)).

(** vm64.c [switchuvm]: the task state segment and the page table register
    it loads are not part of the model. *)
Definition switchuvm (i : nat) : K unit :=
  on_mach pushcli;;
  p ← getproc i;
  if p_pgdir p =? 0 then panic "switchuvm: no pgdir" else
  on_mach popcli.

(** The body of the scheduler's loop over the process table, up to [swtch]:
    whether process [i] is chosen and now runs. *)
Definition scheduler_visit (i : nat) : K bool :=
  p ← getproc i;
  if negb (bool_decide (p_state p = RUNNABLE)) then mret false else
  set_cpuproc (Some i);;
  switchuvm i;;
  updproc i (set_p_state RUNNING);;
  mret true.

(** The scheduler from [swtch]'s return to its next look at the process
    table, when it finds nothing else to run: [env] is what the interrupts do
    meanwhile. *)
Definition scheduler_idle (env : K unit) : K unit :=
  set_cpuproc None;;
  release L_ptable;;
  on_mach sti;;
  env;;
  acquire L_ptable.

(** [sched] after [swtch]: restore the saved [intena]. *)
Definition sched_return (intena : bool) : K unit :=
  on_mach (c ← mycpu; set_mycpu (mkCpu (c_ncli c) intena (c_if c) (c_proc c))).

(** A whole [sleep]: the process leaves the CPU, [env] runs, and the
    scheduler resumes the process. *)
Definition sleep_until (env : K unit) (ch : chan) (lk : lockid) : K unit := λ k,
  match curproc (k_mach k), m_cpus (k_mach k) !! m_me (k_mach k), sleep ch (Some lk) k with
  | Some i, Some c, Sleeps k1 =>
      (scheduler_idle env;;
       b ← scheduler_visit i;
       if (b : bool) then sched_return (c_intena c);; sleep_return lk else spin) k1
  | _, _, r => r
  end.

(** A whole [yield]: the process leaves the CPU, [others] is what runs until
    the scheduler switches back to it, on whatever CPU; [intena] is the local
    variable of [sched]. *)
Definition yield_until (others : K unit) : K unit := λ k,
  match yield k with
  | Sleeps k1 =>
      (c ← on_mach mycpu;
       others;;
       sched_return (c_intena c);;
       release L_ptable) k1
  | r => r
  end.

(** ** Runs *)

Lemma wp_wakeup L pr ch k E Q :
  at_mach L pr (k_mach k) → L_ptable ∉ L →
  (∀ m', at_mach L pr m' →
     Q tt (set_mach m' (set_pt (set_procs (map (wakeup1_proc ch)) (k_pt k)) k))) →
  wp (wakeup ch) E Q k.
Proof.
  intros Hm Hl HQ. unfold wakeup. wp_step. eapply wp_acquire; [done..|]. intros m1 Hm1.
  wp_step. unfold wakeup1. apply wp_modify. eapply wp_release; [done|]. intros m2 Hm2.
  by apply HQ.
Qed.

Lemma at_mach_perm L L' pr m : L ≡ₚ L' → at_mach L pr m → at_mach L' pr m.
Proof.
  intros HL (Hnd & (cp & Hc & Hn & Hp & Hif) & Hl). split; [by rewrite <-HL|]. split.
  - exists cp. rewrite <-(Permutation_length HL). split_and!; try done. intros ?. apply Hif.
    intros ->. by apply Permutation_nil_l in HL.
  - intros lk. rewrite Hl. destruct (decide (lk ∈ L)) as [Hi|Hi]; rewrite HL in Hi.
    + by rewrite decide_True.
    + by rewrite decide_False.
Qed.

(** A change of this CPU's record that keeps its [ncli] and, with a lock
    held, its interrupt flag. *)
Lemma at_mach_cpu L pr v m (f : cpu → cpu) :
  at_mach L pr m →
  (∀ c, c_ncli (f c) = c_ncli c ∧ c_proc (f c) = v c ∧ (L ≠ [] → c_if c = false → c_if (f c) = false)) →
  ∃ c, m_cpus m !! m_me m = Some c ∧ c_proc c = pr ∧ c_ncli c = Z.of_nat (length L) ∧
    (L ≠ [] → c_if c = false) ∧
    at_mach L (v c) (mkMach (<[m_me m := f c]> (m_cpus m)) (m_me m) (m_lock m)).
Proof.
  intros (Hnd & (c & Hc & Hn & Hp & Hif) & Hl) Hf. exists c. split_and!; try done.
  destruct (Hf c) as (Hf1 & Hf2 & Hf3). split; [done|]. split; [|done]. simpl. exists (f c).
  rewrite list_lookup_insert_eq by (by eapply lookup_lt_Some).
  rewrite Hf1. split_and!; auto.
Qed.

Lemma wp_on_mach {A} (m : M machine A) a m' k E (Q : A → kernel → Prop) :
  m (k_mach k) = Ok a m' → Q a (set_mach m' k) → wp (on_mach m) E Q k.
Proof. intros Hr HQ. eapply wp_run; [|done]. unfold on_mach. by rewrite Hr. Qed.

Lemma wp_set_cpuproc L pr v k E Q :
  at_mach L pr (k_mach k) → (∀ m', at_mach L v m' → Q tt (set_mach m' k)) →
  wp (set_cpuproc v) E Q k.
Proof.
  intros Hm HQ.
  destruct (at_mach_cpu L pr (λ _, v) _ (λ c, mkCpu (c_ncli c) (c_intena c) (c_if c) v) Hm)
    as (c & Hc & _ & _ & _ & Hm'); [done|].
  eapply wp_on_mach; [|by apply HQ]. mach_simpl. by rewrite Hc.
Qed.

Lemma wp_sched_return L pr v k E Q :
  at_mach L pr (k_mach k) → (∀ m', at_mach L pr m' → Q tt (set_mach m' k)) →
  wp (sched_return v) E Q k.
Proof.
  intros Hm HQ.
  destruct (at_mach_cpu L pr c_proc _ (λ c, mkCpu (c_ncli c) v (c_if c) (c_proc c)) Hm)
    as (c & Hc & Hp & _ & _ & Hm'); [done|]. subst pr.
  eapply wp_on_mach; [|by apply HQ]. mach_simpl. by rewrite Hc.
Qed.

Lemma wp_sti pr k E Q :
  at_mach [] pr (k_mach k) → (∀ m', at_mach [] pr m' → Q tt (set_mach m' k)) →
  wp (on_mach sti) E Q k.
Proof.
  intros Hm HQ.
  destruct (at_mach_cpu [] pr c_proc _ (λ c, mkCpu (c_ncli c) (c_intena c) true (c_proc c)) Hm)
    as (c & Hc & Hp & _ & _ & Hm'); [intros; split_and!; [done..|by intros []]|]. subst pr.
  eapply wp_on_mach; [|by apply HQ]. unfold sti. mach_simpl. by rewrite Hc.
Qed.

Lemma wp_getproc i p k E Q :
  pt_proc (k_pt k) !! i = Some p → Q p k → wp (getproc i) E Q k.
Proof. intros. unfold getproc. wp_steps. by eapply wp_need. Qed.

Lemma wp_updproc i f k E Q :
  Q tt (set_pt (set_procs (alter f i) (k_pt k)) k) → wp (updproc i f) E Q k.
Proof. intros. by apply wp_modify. Qed.

Lemma wp_switchuvm L pr i p k E Q :
  at_mach L pr (k_mach k) → L ≠ [] → pt_proc (k_pt k) !! i = Some p → p_pgdir p ≠ 0 →
  (∀ m', at_mach L pr m' → Q tt (set_mach m' k)) →
  wp (switchuvm i) E Q k.
Proof.
  intros Hm HL Hp Hpg HQ.
  destruct (at_mach_cpu L pr c_proc _ (λ c, mkCpu (c_ncli c) (c_intena c) false (c_proc c)) Hm)
    as (c & Hc & Hcp & Hn & Hif & Hm'); [done|]. subst pr. specialize (Hif HL).
  pose proof (lookup_lt_Some _ _ _ Hc) as Hlt.
  assert (HL0 : 0 < c_ncli c) by (destruct L; [done|simpl in *; lia]).
  unfold switchuvm. wp_step. eapply wp_on_mach.
  { unfold pushcli, readeflags_if, cli. mach_simpl. rewrite Hc; simpl. rewrite Hc; simpl.
    rewrite list_lookup_insert_eq by done; simpl. rewrite list_insert_insert_eq. done. }
  wp_step. eapply wp_getproc; [done|]. rewrite (proj2 (Z.eqb_neq _ _) Hpg).
  eapply wp_on_mach; [|by apply HQ].
  unfold popcli, readeflags_if. mach_simpl. rewrite list_lookup_insert_eq by done; simpl.
  rewrite list_lookup_insert_eq by done; simpl. rewrite list_insert_insert_eq.
  replace (c_ncli c + 1 - 1) with (c_ncli c) by lia.
  rewrite (proj2 (Z.ltb_ge _ _)), (proj2 (Z.eqb_neq _ _)) by lia. simpl. unfold when; simpl. done.
Qed.

Lemma wp_scheduler_visit i p k E Q :
  at_mach [L_ptable] None (k_mach k) →
  pt_proc (k_pt k) !! i = Some p → p_state p = RUNNABLE → p_pgdir p ≠ 0 →
  (∀ m', at_mach [L_ptable] (Some i) m' →
     Q true (set_mach m' (set_pt (set_procs (alter (set_p_state RUNNING) i) (k_pt k)) k))) →
  wp (scheduler_visit i) E Q k.
Proof.
  intros Hm Hp Hs Hpg HQ. unfold scheduler_visit. wp_step. eapply wp_getproc; [done|].
  rewrite bool_decide_true by done. simpl.
  wp_step. eapply wp_set_cpuproc; [done|]. intros m1 Hm1.
  wp_step. eapply wp_switchuvm; [done..|]. intros m2 Hm2.
  wp_step. apply wp_updproc. apply wp_ret. by apply HQ.
Qed.

Lemma set_mach_id k : set_mach (k_mach k) k = k.
Proof. by destruct k. Qed.

Lemma on_mach_run {A} (m : M machine A) a m' k :
  m (k_mach k) = Ok a m' → on_mach m k = Ok a (set_mach m' k).
Proof. unfold on_mach. by intros ->. Qed.

Lemma on_mach_read {A} (m : M machine A) a k :
  m (k_mach k) = Ok a (k_mach k) → on_mach m k = Ok a k.
Proof. intros Hr. by rewrite (on_mach_run _ _ _ _ Hr), set_mach_id. Qed.

Lemma curproc_at L pr m : at_mach L pr m → curproc m = pr.
Proof. intros (_ & (c & Hc & _ & Hp & _) & _). unfold curproc. by rewrite Hc. Qed.

Lemma myproc_run L i k : at_mach L (Some i) (k_mach k) → myproc k = Ok i k.
Proof.
  intros Hm%curproc_at. unfold myproc, get, need, mbind, M_bind. cbn -[curproc]. by rewrite Hm.
Qed.

Lemma getproc_run i p k : pt_proc (k_pt k) !! i = Some p → getproc i k = Ok p k.
Proof. intros Hp. unfold getproc, get, need, mbind, M_bind. cbn. by rewrite Hp. Qed.

(** The run of [sched]. *)
Lemma sched_run i p k :
  at_mach [L_ptable] (Some i) (k_mach k) → pt_proc (k_pt k) !! i = Some p → p_state p ≠ RUNNING →
  sched k = Sleeps (set_pt (set_procs (alter (set_p_context CtxSched) i) (k_pt k)) k).
Proof.
  intros Hm Hp Hs. pose proof Hm as (_ & (c & Hc & Hn & Hcp & Hif) & Hl). unfold sched.
  erewrite bind_run.
  2:{ apply on_mach_read with (a:=true). unfold holding. mach_simpl.
      rewrite Hl, decide_True by left. simpl. by rewrite bool_decide_true. }
  cbn [negb].
  erewrite bind_run; [|apply on_mach_read with (a:=c); mach_simpl; by rewrite Hc].
  rewrite Hn. change (negb (Z.of_nat (length [L_ptable]) =? 1)) with false. cbn iota.
  erewrite bind_run; [|by eapply myproc_run].
  erewrite bind_run; [|by eapply getproc_run].
  rewrite bool_decide_false, Hif by done. reflexivity.
Qed.

(** The run of [sleep] up to the switch. *)
Lemma sleep_run lk i p ch k :
  at_mach [lk] (Some i) (k_mach k) → lk ≠ L_ptable → pt_proc (k_pt k) !! i = Some p →
  ∃ m', at_mach [L_ptable] (Some i) m' ∧
    sleep ch (Some lk) k = Sleeps (set_mach m' (set_pt (set_procs
      (<[i := set_p_context CtxSched (set_p_state SLEEPING (set_p_chan (Some ch) p))]>) (k_pt k)) k)).
Proof.
  intros Hm Hlk Hp.
  destruct (acquire_m_run _ _ _ L_ptable Hm) as (m1 & Hr1 & Hm1).
  { by intros [<-|[]%not_elem_of_nil]%elem_of_cons. }
  destruct (release_m_run [L_ptable] (Some i) m1 lk) as (m2 & Hr2 & Hm2).
  { by apply (at_mach_perm [L_ptable; lk]); [apply Permutation_swap|]. }
  exists m2. split; [done|].
  pose proof (lookup_lt_Some _ _ _ Hp) as Hlt.
  unfold sleep. rewrite (bind_run _ _ k _ k) by done. rewrite (curproc_at _ _ _ Hm).
  rewrite bool_decide_false by done. unfold when. cbn [negb].
  rewrite (bind_run _ _ tt _ (set_mach m2 k)).
  2:{ rewrite (bind_run _ _ tt _ (set_mach m1 k)) by (by apply on_mach_run).
      exact (on_mach_run _ _ m2 (set_mach m1 k) Hr2). }
  rewrite (bind_run _ _ tt _ (set_pt (set_procs (<[i := set_p_chan (Some ch) p]>) (k_pt k)) (set_mach m2 k))).
  2:{ unfold updproc, modify, set_procs. cbn. by rewrite (alter_to_insert _ _ _ p). }
  rewrite (bind_run _ _ tt _ (set_pt (set_procs (<[i := set_p_state SLEEPING (set_p_chan (Some ch) p)]>)
    (k_pt k)) (set_mach m2 k))).
  2:{ unfold updproc, modify, set_procs. cbn. by rewrite alter_insert_eq. }
  erewrite sched_run; [|done|by apply list_lookup_insert_eq|done].
  unfold set_procs. cbn. by rewrite alter_insert_eq.
Qed.

(** A whole [sleep], given what the interrupts that run meanwhile do. *)
Lemma wp_sleep_until env lk i p ch k E Q :
  at_mach [lk] (Some i) (k_mach k) → lk ≠ L_ptable → pt_proc (k_pt k) !! i = Some p →
  (∀ m', at_mach [] None m' →
     wp env E (λ _ k2, ∃ p2,
       at_mach [] None (k_mach k2) ∧
       pt_proc (k_pt k2) !! i = Some p2 ∧ p_state p2 = RUNNABLE ∧ p_pgdir p2 ≠ 0 ∧
       ∀ m2, at_mach [lk] (Some i) m2 → Q tt (set_mach m2 (set_pt (set_procs
         (<[i := set_p_chan None (set_p_state RUNNING p2)]>) (k_pt k2)) k2)))
       (set_mach m' (set_pt (set_procs
         (<[i := set_p_context CtxSched (set_p_state SLEEPING (set_p_chan (Some ch) p))]>) (k_pt k)) k))) →
  wp (sleep_until env ch lk) E Q k.
Proof.
  intros Hm Hlk Hp Henv.
  destruct (sleep_run lk i p ch k Hm Hlk Hp) as (m1 & Hm1 & Hr).
  pose proof Hm as (_ & (c & Hc & _) & _).
  assert (Hcp := curproc_at _ _ _ Hm).
  enough (Hwp : wp (scheduler_idle env;; b ← scheduler_visit i;
       if (b : bool) then sched_return (c_intena c);; sleep_return lk else spin) E Q
    (set_mach m1 (set_pt (set_procs
      (<[i := set_p_context CtxSched (set_p_state SLEEPING (set_p_chan (Some ch) p))]>) (k_pt k)) k))).
  { Local Transparent wp. unfold wp, sleep_until in *. by rewrite Hcp, Hc, Hr. Local Opaque wp. }
  unfold scheduler_idle. wp_steps.
  eapply wp_set_cpuproc; [exact Hm1|]. intros m2 Hm2. wp_steps.
  eapply wp_release; [exact Hm2|]. intros m3 Hm3. wp_steps.
  eapply wp_sti; [exact Hm3|]. intros m4 Hm4. wp_steps.
  eapply wp_post; [by apply Henv|]. intros [] k2 (p2 & Hm5 & Hp2 & Hs2 & Hg2 & HQ).
  eapply wp_acquire; [exact Hm5|apply not_elem_of_nil|]. intros m6 Hm6. wp_steps.
  eapply wp_scheduler_visit; [exact Hm6|exact Hp2|done|done|]. intros m7 Hm7. wp_steps.
  eapply wp_sched_return; [exact Hm7|]. intros m8 Hm8.
  unfold sleep_return, sleep_wake. wp_steps.
  eapply wp_run; [eapply myproc_run; exact Hm8|]. wp_steps. apply wp_updproc.
  rewrite bool_decide_false by done. unfold when. cbn [negb]. wp_steps.
  eapply wp_release; [exact Hm8|]. intros m9 Hm9. wp_steps.
  eapply wp_acquire; [exact Hm9|apply not_elem_of_nil|]. intros m10 Hm10.
  specialize (HQ m10 Hm10). kexact HQ. unfold set_procs. cbn. f_equal.
  rewrite (alter_to_insert (set_p_state RUNNING) _ _ p2), alter_insert_eq; try done.
  by eapply lookup_lt_Some.
Qed.

(** ** The calling process *)

(** Process [i] runs on this CPU, which holds no lock. *)
Definition running (i : nat) (k : kernel) : Prop :=
  at_mach [] (Some i) (k_mach k) ∧
  ∃ p, pt_proc (k_pt k) !! i = Some p ∧ p_state p = RUNNING ∧ p_pgdir p ≠ 0.

(** Process tables that differ in scheduling only: the states, channels and
    saved contexts. *)
Definition psim (p p' : proc) : Prop :=
  p' = set_p_state (p_state p') (set_p_chan (p_chan p') (set_p_context (p_context p') p)).
Definition pt_sim (pt pt' : ptable) : Prop :=
  Forall2 psim (pt_proc pt) (pt_proc pt') ∧
  pt_initproc pt' = pt_initproc pt ∧ pt_nextpid pt' = pt_nextpid pt.

#[global] Instance psim_preorder : PreOrder psim.
Proof.
  split.
  - by intros [].
  - intros p q r Hq Hr. unfold psim in *. rewrite Hr, Hq at 1. done.
Qed.
#[global] Instance pt_sim_preorder : PreOrder pt_sim.
Proof.
  split.
  - intros pt. split_and!; [reflexivity|done..].
  - intros p q r (H1 & H2 & H3) (H1' & H2' & H3').
    split_and!; [by transitivity (pt_proc q)|congruence..].
Qed.

Lemma pt_sim_lookup pt pt' i p :
  pt_sim pt pt' → pt_proc pt !! i = Some p → ∃ p', pt_proc pt' !! i = Some p' ∧ psim p p'.
Proof. intros [H _] Hp. eapply Forall2_lookup_l in H as (p' & ? & ?); eauto. Qed.

Lemma pt_sim_insert pt i p p' :
  pt_proc pt !! i = Some p → psim p p' → pt_sim pt (set_procs (<[i := p']>) pt).
Proof.
  intros Hp Hs. split_and!; [|done..]. simpl.
  rewrite <-(list_insert_id _ _ _ Hp) at 1. by apply Forall2_insert.
Qed.

Lemma psim_wakeup1 ch p : psim p (wakeup1_proc ch p).
Proof. unfold wakeup1_proc. case_bool_decide; by destruct p. Qed.

Lemma wakeup1_hit ch p :
  p_state p = SLEEPING → p_chan p = Some ch → wakeup1_proc ch p = set_p_state RUNNABLE p.
Proof. intros. unfold wakeup1_proc. by rewrite bool_decide_true. Qed.

Lemma pt_sim_wakeup pt ch : pt_sim pt (set_procs (map (wakeup1_proc ch)) pt).
Proof.
  split_and!; [|done..]. simpl. rewrite <-(list_fmap_id (pt_proc pt)) at 1.
  apply Forall2_fmap, Forall_Forall2_diag, Forall_true. intros; apply psim_wakeup1.
Qed.

(** A process put to sleep, woken and resumed. *)
Lemma pt_sim_resume pt i p ch q r :
  pt_proc pt !! i = Some p → psim p q → psim p r →
  pt_sim pt (set_procs (λ l, <[i := r]> (map (wakeup1_proc ch) (<[i := q]> l))) pt).
Proof.
  intros Hp Hq Hr. split_and!; [|done..]. cbn. apply Forall2_same_length_lookup. split.
  { by rewrite length_insert, length_map, length_insert. }
  intros j x y Hx Hy. apply list_lookup_insert_Some in Hy as [(-> & -> & _)|(Hne & Hy)]; [congruence|].
  rewrite list_lookup_fmap, list_lookup_insert_ne, Hx in Hy by done. simplify_eq/=. apply psim_wakeup1.
Qed.
