(* ===== verification/Ide.v ===== *)
(** * Ide: the IDE disk driver (kernel/ide.c)

    [idewait], [idestart], [ideintr] and [iderw] with the driver's request
    queue, over a controller whose registers are set with [outb] and whose
    drives hold the sectors.  A process that waits in [iderw] is modelled to
    the switch into the scheduler and back: while it sleeps the drive raises
    its interrupt, [ideintr] runs, and the scheduler resumes the process once
    it is RUNNABLE (no other process is scheduled in between). *)

From stdpp Require Import prelude gmap strings.
From S2P Require Import Prelude Types Spinlock Sched.
Open Scope Z_scope.

Definition SECTOR_SIZE : Z := 512.
Definition IDE_BSY : Z := 128.
Definition IDE_DRDY : Z := 64.
Definition IDE_DF : Z := 32.
Definition IDE_ERR : Z := 1.
Definition IDE_CMD_READ : Z := 32.
Definition IDE_CMD_WRITE : Z := 48.

(** ** Buffers *)

(** [flags & bit] as a truth value. *)
Definition hasf (flags bit : Z) : bool := negb (Z.land flags bit =? 0).

Definition getbuf (b : nat) : K buf := k ← get; need (k_bc k !! b).
Definition updbuf (b : nat) (f : buf → buf) : K unit :=
  modify (λ k, set_bc (alter f b (k_bc k)) k).

(** ** The controller *)

Definition disk_get (d : gmap (Z * Z) block) (u s : Z) : block := default zero_block (d !! (u, s)).

(** The drive and sector the registers select. *)
Definition ide_unit (d : ide) : Z := Z.land (Z.shiftr (ide_drive d) 4) 1.
Definition ide_lba (d : ide) : Z :=
  Z.lor (ide_lba0 d) (Z.lor (Z.shiftl (ide_lba1 d) 8)
    (Z.lor (Z.shiftl (ide_lba2 d) 16) (Z.shiftl (Z.land (ide_drive d) 15) 24))).

(** [outb(port, v)] on the controller's ports. *)
Definition ide_outb (port v : Z) (d : ide) : ide :=
  let r p old := if port =? p then u8 v else old in
  mkIde (ide_queue d) (ide_havedisk1 d) (ide_status d)
    (r 0x1f2 (ide_nsect d)) (r 0x1f3 (ide_lba0 d)) (r 0x1f4 (ide_lba1 d)) (r 0x1f5 (ide_lba2 d))
    (r 0x1f6 (ide_drive d)) (r 0x1f7 (ide_cmd d)) (ide_disk d) (ide_trace d).
Definition outb (port v : Z) : K unit := modify (λ k, set_ide (ide_outb port v (k_ide k)) k).

Definition inb_status : K Z := gets (λ k, ide_status (k_ide k)).

(** [outsl(0x1f0, data, BSIZE/4)]: the data of a write command; the drive
    stores it in the selected sector. *)
Definition ide_outsl (data : block) (d : ide) : ide :=
  mkIde (ide_queue d) (ide_havedisk1 d) (ide_status d) (ide_nsect d) (ide_lba0 d)
    (ide_lba1 d) (ide_lba2 d) (ide_drive d) (ide_cmd d)
    (<[(ide_unit d, ide_lba d) := data]> (ide_disk d))
    (ide_trace d ++ [(ide_unit d, ide_lba d, data)]).
Definition outsl_block (data : block) : K unit :=
  modify (λ k, set_ide (ide_outsl data (k_ide k)) k).

(** [insl(0x1f0, data, BSIZE/4)]: the data of a read command. *)
Definition insl_block : K block :=
  gets (λ k, disk_get (ide_disk (k_ide k)) (ide_unit (k_ide k)) (ide_lba (k_ide k))).

(** ** The driver *)

(** Wait for IDE disk to become ready.  Nothing in the driver changes the
    status register: an unready drive is waited for forever. *)
Definition idewait (checkerr : bool) : K Z :=
  r ← inb_status;
  if negb (Z.land r (Z.lor IDE_BSY IDE_DRDY) =? IDE_DRDY) then spin else
  if checkerr && negb (Z.land r (Z.lor IDE_DF IDE_ERR) =? 0) then mret (-1) else mret 0.

(** Start the request for b.  Caller must hold idelock. *)
Definition idestart (ob : option nat) : K unit :=
  match ob with
  | None => panic "idestart"
  | Some b =>
      bf ← getbuf b;
      if FSSIZE <=? b_blockno bf then panic "incorrect blockno" else
      let sector_per_block := BSIZE / SECTOR_SIZE in
      let sector := i32 (b_blockno bf * sector_per_block) in
      if 7 <? sector_per_block then panic "idestart" else
      idewait false;;
      outb 0x3f6 0;;
      outb 0x1f2 sector_per_block;;
      outb 0x1f3 (Z.land sector 0xff);;
      outb 0x1f4 (Z.land (Z.shiftr sector 8) 0xff);;
      outb 0x1f5 (Z.land (Z.shiftr sector 16) 0xff);;
      outb 0x1f6 (Z.lor 0xe0 (Z.lor (Z.shiftl (Z.land (b_dev bf) 1) 4)
                                    (Z.land (Z.shiftr sector 24) 0x0f)));;
      if hasf (b_flags bf) B_DIRTY then
        outb 0x1f7 IDE_CMD_WRITE;;
        outsl_block (b_data bf)
      else
        outb 0x1f7 IDE_CMD_READ
  end.

Definition set_idequeue (v : option nat) : K unit :=
  modify (λ k, set_ide (set_ide_queue v (k_ide k)) k).

(** Interrupt handler. *)
Definition ideintr : K unit :=
  acquire L_ide;;
  q ← gets (λ k, ide_queue (k_ide k));
  match q with
  | None => release L_ide
  | Some b =>
      bf ← getbuf b;
      set_idequeue (b_qnext bf);;
      (if hasf (b_flags bf) B_DIRTY then mret tt else
         r ← idewait true;
         when (0 <=? r) (data ← insl_block; updbuf b (set_b_data data)));;
      updbuf b (λ x, set_b_flags (Z.lor (b_flags x) B_VALID) x);;
      updbuf b (λ x, set_b_flags (Z.ldiff (b_flags x) B_DIRTY) x);;
      wakeup (ChBuf b);;
      q' ← gets (λ k, ide_queue (k_ide k));
      (match q' with None => mret tt | Some b' => idestart (Some b') end);;
      release L_ide
  end.

(** The walk to the end of the queue; [fuel] bounds its length. *)
Fixpoint queue_last (fuel : nat) (q : nat) : K nat :=
  bf ← getbuf q;
  match b_qnext bf, fuel with
  | None, _ => mret q
  | Some _, O => spin
  | Some q', S fuel => queue_last fuel q'
  end.

(** Append b to idequeue. *)
Definition ide_append (b : nat) : K unit :=
  updbuf b (set_b_qnext None);;
  q ← gets (λ k, ide_queue (k_ide k));
  match q with
  | None => set_idequeue (Some b)
  | Some q =>
      n ← gets (λ k, length (k_bc k));
      l ← queue_last n q;
      updbuf l (set_b_qnext (Some b))
  end.

(** The drive's interrupts, one per finished request, until process [i] has
    been woken; [fuel] bounds the number of requests. *)
Fixpoint disk_interrupts (fuel : nat) (i : nat) : K unit :=
  match fuel with
  | O => spin
  | S fuel =>
      ideintr;;
      p ← getproc i;
      if bool_decide (p_state p = RUNNABLE) then mret tt else disk_interrupts fuel i
  end.

(** Wait for request to finish. *)
Fixpoint iderw_wait (fuel : nat) (b : nat) : K unit :=
  bf ← getbuf b;
  if Z.land (b_flags bf) (Z.lor B_VALID B_DIRTY) =? B_VALID then mret tt else
  match fuel with
  | O => spin
  | S fuel =>
      n ← gets (λ k, length (k_bc k));
      i ← gets (λ k, default 0%nat (curproc (k_mach k)));
      sleep_until (disk_interrupts (S n) i) (ChBuf b) L_ide;;
      iderw_wait fuel b
  end.

(** Sync buf with disk. *)
Definition iderw (b : nat) : K unit :=
  bf ← getbuf b;
  if negb (hasf (b_flags bf) B_BUSY) then panic "iderw: buf not busy" else
  if Z.land (b_flags bf) (Z.lor B_VALID B_DIRTY) =? B_VALID then panic "iderw: nothing to do" else
  havedisk1 ← gets (λ k, ide_havedisk1 (k_ide k));
  if negb (b_dev bf =? 0) && negb havedisk1 then panic "iderw: ide disk 1 not present" else
  acquire L_ide;;
  ide_append b;;
  q ← gets (λ k, ide_queue (k_ide k));
  when (bool_decide (q = Some b)) (idestart (Some b));;
  n ← gets (λ k, length (k_bc k));
  iderw_wait n b;;
  release L_ide.

(** ** Flags *)

Lemma hasf_spec f n : 0 <= n → hasf f (2 ^ n) = Z.testbit f n.
Proof.
  intros Hn. unfold hasf. destruct (Z.testbit f n) eqn:Hf.
  - apply negb_true_iff, Z.eqb_neq. intros H.
    assert (Hb : Z.testbit (Z.land f (2 ^ n)) n = false) by (by rewrite H, Z.bits_0).
    by rewrite Z.land_spec, Hf, Z.pow2_bits_true in Hb.
  - apply negb_false_iff, Z.eqb_eq. apply Z.bits_inj'. intros m Hm.
    rewrite Z.land_spec, Z.bits_0, Z.pow2_bits_eqb by done.
    destruct (Z.eqb_spec n m) as [->|]; [by rewrite Hf|apply andb_false_r].
Qed.
Lemma hasf_busy f : hasf f B_BUSY = Z.testbit f 0.
Proof. by apply (hasf_spec f 0). Qed.
Lemma hasf_valid f : hasf f B_VALID = Z.testbit f 1.
Proof. by apply (hasf_spec f 1). Qed.
Lemma hasf_dirty f : hasf f B_DIRTY = Z.testbit f 2.
Proof. by apply (hasf_spec f 2). Qed.

Lemma valid_clean f :
  (Z.land f (Z.lor B_VALID B_DIRTY) =? B_VALID) = Z.testbit f 1 && negb (Z.testbit f 2).
Proof.
  change (Z.lor B_VALID B_DIRTY) with 6. unfold B_VALID.
  assert (H1 : Z.testbit (Z.land f 6) 1 = Z.testbit f 1) by (by rewrite Z.land_spec, andb_true_r).
  assert (H2 : Z.testbit (Z.land f 6) 2 = Z.testbit f 2) by (by rewrite Z.land_spec, andb_true_r).
  destruct (Z.testbit f 1) eqn:E1; [destruct (Z.testbit f 2) eqn:E2|]; simpl.
  - apply Z.eqb_neq. intros H. by rewrite H in H2.
  - apply Z.eqb_eq, Z.bits_inj'. intros n Hn. rewrite Z.land_spec.
    destruct (decide (n < 3)); [|rewrite (Z.bits_above_log2 6), (Z.bits_above_log2 2) by (simpl; lia);
      apply andb_false_r].
    assert (n = 0 ∨ n = 1 ∨ n = 2) as [->|[->| ->]] by lia.
    + apply andb_false_r.
    + by rewrite E1.
    + by rewrite E2.
  - apply Z.eqb_neq. intros H. by rewrite H in H1.
Qed.

(** The bits of the updated flags. *)
Create Rewrite HintDb flags.
#[export] Hint Rewrite hasf_busy hasf_valid hasf_dirty valid_clean Z.lor_spec Z.ldiff_spec : flags.
Ltac flags :=
  autorewrite with flags; unfold B_BUSY, B_VALID, B_DIRTY;
  repeat match goal with
  | |- context [Z.testbit (Z.pos ?p) ?n] =>
      let v := eval vm_compute in (Z.testbit (Z.pos p) n) in
      change (Z.testbit (Z.pos p) n) with v
  end;
  rewrite ?orb_true_r, ?orb_false_r, ?andb_true_r, ?andb_false_r; cbn [andb orb negb];
  rewrite ?orb_true_r, ?orb_false_r, ?andb_true_r, ?andb_false_r.

(** ** The controller's registers *)

Lemma u8_testbit x n : 0 <= n → Z.testbit (u8 x) n = (n <? 8) && Z.testbit x n.
Proof.
  intros Hn. unfold u8. change 256 with (2 ^ 8). rewrite <-Z.land_ones, Z.land_spec by lia.
  rewrite Z.testbit_ones by lia. rewrite andb_comm. f_equal.
  rewrite (proj2 (Z.leb_le _ _)) by lia. done.
Qed.

Lemma shiftl_testbit a k n : 0 <= n → Z.testbit (Z.shiftl a k) n = (k <=? n) && Z.testbit a (n - k).
Proof.
  intros. rewrite Z.shiftl_spec by lia. destruct (Z.leb_spec k n); [done|].
  by rewrite Z.testbit_neg_r by lia.
Qed.

Lemma ones_testbit k n : 0 <= k → 0 <= n → Z.testbit (Z.ones k) n = (n <? k).
Proof. intros. rewrite Z.testbit_ones by lia. by rewrite (proj2 (Z.leb_le 0 n)). Qed.

(** Decide the comparisons of bit positions that the hypotheses settle. *)
Ltac bit_cmp :=
  repeat match goal with
  | |- context [?a <? ?b] =>
      first [rewrite (proj2 (Z.ltb_lt a b)) by lia | rewrite (proj2 (Z.ltb_ge a b)) by lia]
  | |- context [?a <=? ?b] =>
      first [rewrite (proj2 (Z.leb_le a b)) by lia | rewrite (proj2 (Z.leb_gt a b)) by lia]
  end.
Ltac bit_spec :=
  repeat first
    [ rewrite Z.lor_spec | rewrite Z.land_spec
    | rewrite shiftl_testbit by lia | rewrite Z.shiftr_spec by lia
    | rewrite u8_testbit by lia | rewrite ones_testbit by lia ]; bit_cmp; cbn [andb orb];
  rewrite ?andb_true_r, ?andb_false_r, ?orb_false_r.

Lemma testbit_high s k n : 0 <= s < 2 ^ k → 0 <= k <= n → Z.testbit s n = false.
Proof.
  intros Hs Hk. destruct (decide (s = 0)) as [->|]; [apply Z.bits_0|].
  apply Z.bits_above_log2; [lia|]. apply Z.log2_lt_pow2; [lia|].
  apply (Z.lt_le_trans _ (2 ^ k)); [lia|]. apply Z.pow_le_mono_r; lia.
Qed.

(** The four register values written by [idestart] select sector [s]. *)
Lemma lba_registers s dev q h st ns c dk tr :
  0 <= s < 2 ^ 28 →
  let d := mkIde q h st ns (u8 (Z.land s 0xff)) (u8 (Z.land (Z.shiftr s 8) 0xff))
    (u8 (Z.land (Z.shiftr s 16) 0xff))
    (u8 (Z.lor 0xe0 (Z.lor (Z.shiftl (Z.land dev 1) 4) (Z.land (Z.shiftr s 24) 0x0f)))) c dk tr in
  ide_lba d = s ∧ ide_unit d = Z.land dev 1.
Proof.
  intros Hs d. subst d. unfold ide_lba, ide_unit; cbn [ide_lba0 ide_lba1 ide_lba2 ide_drive].
  change 0xff with (Z.ones 8). change 0x0f with (Z.ones 4). change 15 with (Z.ones 4).
  split; apply Z.bits_inj'; intros n Hn.
  - destruct (decide (n < 8)); [bit_spec; done|].
    destruct (decide (n < 16)); [bit_spec; by f_equal; lia|].
    destruct (decide (n < 24)); [bit_spec; by f_equal; lia|].
    destruct (decide (n < 28)).
    + bit_spec. assert (n = 24 ∨ n = 25 ∨ n = 26 ∨ n = 27) as [->|[->|[->| ->]]] by lia; reflexivity.
    + rewrite (testbit_high s 28 n) by lia. bit_spec. done.
  - change 1 with (Z.ones 1). destruct (decide (n < 1)).
    + bit_spec. replace n with 0 by lia. bit_spec. done.
    + bit_spec. done.
Qed.

(** ** Runs of the driver *)

(** The drives are ready and report no error. *)
Definition ide_ready (d : ide) : Prop :=
  Z.land (ide_status d) (Z.lor IDE_BSY IDE_DRDY) = IDE_DRDY ∧
  Z.land (ide_status d) (Z.lor IDE_DF IDE_ERR) = 0.

Lemma idewait_run ce k : ide_ready (k_ide k) → idewait ce k = Ok 0 k.
Proof.
  intros [H1 H2]. unfold idewait, inb_status. rewrite (bind_run _ _ (ide_status (k_ide k)) _ k) by done.
  rewrite H1, H2. by destruct ce.
Qed.

Lemma wp_getbuf b bf k E Q : k_bc k !! b = Some bf → Q bf k → wp (getbuf b) E Q k.
Proof. intros. unfold getbuf. wp_steps. by eapply wp_need. Qed.

(** The controller after [idestart] for buffer [bf]. *)
Definition ide_started (bf : buf) (d d' : ide) : Prop :=
  ide_queue d' = ide_queue d ∧ ide_havedisk1 d' = ide_havedisk1 d ∧ ide_status d' = ide_status d ∧
  ide_unit d' = Z.land (b_dev bf) 1 ∧ ide_lba d' = b_blockno bf ∧ ide_nsect d' = 1 ∧
  let key := (Z.land (b_dev bf) 1, b_blockno bf) in
  if Z.testbit (b_flags bf) 2
  then ide_disk d' = <[key := b_data bf]> (ide_disk d) ∧ ide_trace d' = ide_trace d ++ [(key, b_data bf)]
  else ide_disk d' = ide_disk d ∧ ide_trace d' = ide_trace d.

Lemma wp_idestart b bf k E Q :
  k_bc k !! b = Some bf → 0 <= b_blockno bf < FSSIZE → ide_ready (k_ide k) →
  (∀ d', ide_started bf (k_ide k) d' → Q tt (set_ide d' k)) →
  wp (idestart (Some b)) E Q k.
Proof.
  intros Hb Hn Hr HQ. unfold FSSIZE in Hn. unfold idestart. wp_steps. eapply wp_getbuf; [done|].
  rewrite (proj2 (Z.leb_gt _ _)) by (unfold FSSIZE; lia). change (7 <? BSIZE / SECTOR_SIZE) with false.
  change (BSIZE / SECTOR_SIZE) with 1. rewrite Z.mul_1_r, i32_small by lia. cbv beta iota.
  wp_steps. eapply wp_run; [by apply idewait_run|]. unfold outb. wp_steps.
  set (d := ide_outb 0x1f6 _ _).
  assert (Hd : ide_lba d = b_blockno bf ∧ ide_unit d = Z.land (b_dev bf) 1).
  { subst d. cbn -[ide_lba ide_unit u8 Z.land Z.lor Z.shiftl Z.shiftr].
    apply lba_registers. lia. }
  destruct Hd as [Hlba Hunit].
  rewrite hasf_dirty. destruct (Z.testbit (b_flags bf) 2) eqn:Hdirty.
  - unfold outsl_block. wp_steps.
    assert (HQ' : Q tt (set_ide (ide_outsl (b_data bf) (ide_outb 0x1f7 IDE_CMD_WRITE d)) k)).
    { apply HQ. unfold ide_started. rewrite Hdirty, <-Hlba, <-Hunit. split_and!; reflexivity. }
    kexact HQ'.
  - wp_steps. assert (HQ' : Q tt (set_ide (ide_outb 0x1f7 IDE_CMD_READ d) k)).
    { apply HQ. unfold ide_started. rewrite Hdirty, <-Hlba, <-Hunit. split_and!; reflexivity. }
    kexact HQ'.
Qed.

(** The buffer of a finished request. *)
Definition intr_data (d : ide) (bf : buf) : block :=
  if Z.testbit (b_flags bf) 2 then b_data bf else disk_get (ide_disk d) (ide_unit d) (ide_lba d).
Definition intr_buf (d : ide) (bf : buf) : buf :=
  set_b_flags (Z.ldiff (Z.lor (b_flags bf) B_VALID) B_DIRTY) (set_b_data (intr_data d bf) bf).

Lemma wp_updbuf b f bf k E Q :
  k_bc k !! b = Some bf → Q tt (set_bc (<[b := f bf]> (k_bc k)) k) → wp (updbuf b f) E Q k.
Proof. intros Hb HQ. unfold updbuf. wp_step. by rewrite (alter_to_insert _ _ _ bf). Qed.

Lemma set_bc_id k : set_bc (k_bc k) k = k.
Proof. by destruct k. Qed.

(** Read data if needed. *)
Lemma wp_intr_read b bf k E Q :
  k_bc k !! b = Some bf → ide_ready (k_ide k) →
  Q tt (set_bc (<[b := set_b_data (intr_data (k_ide k) bf) bf]> (k_bc k)) k) →
  wp (if hasf (b_flags bf) B_DIRTY then mret tt else
        r ← idewait true;
        when (0 <=? r) (data ← insl_block; updbuf b (set_b_data data))) E Q k.
Proof.
  intros Hb Hr HQ. rewrite hasf_dirty. unfold intr_data in HQ.
  destruct (Z.testbit (b_flags bf) 2); wp_steps.
  - replace (set_b_data (b_data bf) bf) with bf in HQ by (by destruct bf).
    by rewrite list_insert_id, set_bc_id in HQ.
  - eapply wp_run; [by apply idewait_run|]. unfold when. cbn [Z.leb Z.compare].
    unfold insl_block. wp_steps. by eapply wp_updbuf.
Qed.

(** The state after [ideintr] for request [b]: what the drive does next
    depends on the queue. *)
Definition intr_next (bf : buf) (bc : bcache) (d d' : ide) : Prop :=
  match b_qnext bf with
  | None => d' = set_ide_queue None d
  | Some b' => ∃ bf', bc !! b' = Some bf' ∧ ide_started bf' (set_ide_queue (Some b') d) d'
  end.

Lemma wp_ideintr L pr b bf k E Q :
  at_mach L pr (k_mach k) → L_ide ∉ L → L_ptable ∉ L →
  ide_queue (k_ide k) = Some b → k_bc k !! b = Some bf → ide_ready (k_ide k) →
  (∀ b', b_qnext bf = Some b' → ∃ bf', <[b := intr_buf (k_ide k) bf]> (k_bc k) !! b' = Some bf' ∧
     0 <= b_blockno bf' < FSSIZE) →
  (∀ m' d', at_mach L pr m' →
     intr_next bf (<[b := intr_buf (k_ide k) bf]> (k_bc k)) (k_ide k) d' →
     Q tt (set_mach m' (set_ide d' (set_bc (<[b := intr_buf (k_ide k) bf]> (k_bc k))
       (set_pt (set_procs (map (wakeup1_proc (ChBuf b))) (k_pt k)) k))))) →
  wp ideintr E Q k.
Proof.
  intros Hm Hi Hpt Hq Hb Hr Hnext HQ. pose proof (lookup_lt_Some _ _ _ Hb) as Hlt.
  unfold ideintr. wp_steps.
  eapply wp_acquire; [done..|]. intros m1 Hm1. wp_steps. cbn [set_mach k_ide]. rewrite Hq. wp_steps.
  eapply wp_getbuf; [exact Hb|]. wp_steps. unfold set_idequeue. wp_steps.
  eapply wp_intr_read; [exact Hb|exact Hr|]. wp_steps.
  eapply wp_updbuf; [by apply list_lookup_insert_eq|]. wp_steps.
  eapply wp_updbuf; [cbn; rewrite list_insert_insert_eq; by apply list_lookup_insert_eq|]. wp_steps.
  eapply wp_wakeup; [exact Hm1|nolock|]. intros m2 Hm2. wp_steps.
  assert (Hbc : ∀ k0 x, k_bc (set_mach m2 (set_pt x (set_bc (<[b := intr_buf (k_ide k) bf]> (k_bc k)) k0))) =
     <[b := intr_buf (k_ide k) bf]> (k_bc k)) by done.
  specialize (λ m' d' H, HQ m' d' H). unfold intr_next in HQ.
  cbn [set_mach set_pt set_bc set_ide k_ide set_ide_queue ide_queue].
  destruct (b_qnext bf) as [b'|] eqn:Hqn; wp_steps.
  - destruct (Hnext b' eq_refl) as (bf' & Hb' & Hn').
    eapply wp_idestart; [cbn; rewrite !list_insert_insert_eq; exact Hb'|done|exact Hr|].
    intros d' Hd'. eapply wp_release; [exact Hm2|]. intros m3 Hm3.
    assert (HQ' := HQ m3 d' Hm3 (ex_intro _ bf' (conj Hb' Hd'))). kexact HQ'.
    by rewrite !list_insert_insert_eq.
  - eapply wp_release; [exact Hm2|]. intros m3 Hm3.
    assert (HQ' := HQ m3 _ Hm3 eq_refl). kexact HQ'. by rewrite !list_insert_insert_eq.
Qed.

(** ** [iderw] with an idle drive *)

(** The drive is idle and works; drive 1 is there if [dev] needs it. *)
Definition ide_idle (d : ide) : Prop := ide_queue d = None ∧ ide_ready d ∧ ide_havedisk1 d = true.

(** A buffer after [iderw]. *)
Definition iderw_buf (d : ide) (bf : buf) : buf :=
  mkBuf (Z.ldiff (Z.lor (b_flags bf) B_VALID) B_DIRTY) (b_dev bf) (b_blockno bf) (b_prev bf)
    (b_next bf) None
    (if Z.testbit (b_flags bf) 2 then b_data bf
     else disk_get (ide_disk d) (Z.land (b_dev bf) 1) (b_blockno bf)).

(** The drives after [iderw]. *)
Definition iderw_disk (bf : buf) (d d' : ide) : Prop :=
  ide_idle d' ∧
  let key := (Z.land (b_dev bf) 1, b_blockno bf) in
  if Z.testbit (b_flags bf) 2
  then ide_disk d' = <[key := b_data bf]> (ide_disk d) ∧ ide_trace d' = ide_trace d ++ [(key, b_data bf)]
  else ide_disk d' = ide_disk d ∧ ide_trace d' = ide_trace d.

Lemma wp_ide_append_idle b bf k E Q :
  k_bc k !! b = Some bf → ide_queue (k_ide k) = None →
  Q tt (set_ide (set_ide_queue (Some b) (k_ide k)) (set_bc (<[b := set_b_qnext None bf]> (k_bc k)) k)) →
  wp (ide_append b) E Q k.
Proof.
  intros Hb Hq HQ. unfold ide_append. wp_steps. eapply wp_updbuf; [done|]. wp_steps.
  cbn [set_bc k_ide]. rewrite Hq. unfold set_idequeue. by wp_steps.
Qed.

(** The wait of the process whose request the drive is working on. *)
Lemma wp_iderw_wait i p b bf n k E Q :
  at_mach [L_ide] (Some i) (k_mach k) → pt_proc (k_pt k) !! i = Some p → p_pgdir p ≠ 0 →
  ide_queue (k_ide k) = Some b → k_bc k !! b = Some bf → b_qnext bf = None → ide_ready (k_ide k) →
  Z.testbit (b_flags bf) 1 && negb (Z.testbit (b_flags bf) 2) = false →
  (∀ m' pt', at_mach [L_ide] (Some i) m' → pt_sim (k_pt k) pt' →
     (∃ p', pt_proc pt' !! i = Some p' ∧ p_state p' = RUNNING) →
     Q tt (set_mach m' (set_ide (set_ide_queue None (k_ide k))
       (set_bc (<[b := intr_buf (k_ide k) bf]> (k_bc k)) (set_pt pt' k))))) →
  wp (iderw_wait (S n) b) E Q k.
Proof.
  intros Hm Hp Hpg Hq Hb Hqn Hr Hf HQ. pose proof (lookup_lt_Some _ _ _ Hb) as Hlt.
  pose proof (lookup_lt_Some _ _ _ Hp) as Hlt'.
  cbn [iderw_wait]. wp_steps. eapply wp_getbuf; [done|]. rewrite valid_clean, Hf. wp_steps.
  rewrite (curproc_at _ _ _ Hm). cbn [default from_option].
  eapply wp_sleep_until; [done|done|done|]. intros m1 Hm1. cbn [disk_interrupts]. wp_steps.
  eapply wp_ideintr; [exact Hm1|apply not_elem_of_nil..|exact Hq|exact Hb|exact Hr| |].
  { intros b' Hb'. cbn in Hb'. congruence. }
  intros m2 d' Hm2 Hd'. unfold intr_next in Hd'. rewrite Hqn in Hd'. subst d'. wp_steps.
  eapply wp_getproc.
  { cbn. rewrite list_lookup_fmap, list_lookup_insert_eq by done. cbn. by rewrite wakeup1_hit. }
  rewrite bool_decide_true by done. wp_steps.
  eexists. split; [exact Hm2|].
  split; [cbn; rewrite list_lookup_fmap, list_lookup_insert_eq by done; cbn; by rewrite wakeup1_hit|].
  split; [done|]. split; [done|]. intros m3 Hm3.
  enough (HQ' : ∀ n', wp (iderw_wait n' b) E Q (set_mach m3 (set_ide (set_ide_queue None (k_ide k))
    (set_bc (<[b := intr_buf (k_ide k) bf]> (k_bc k))
      (set_pt (set_procs (λ l, <[i := set_p_chan None (set_p_state RUNNING (set_p_state RUNNABLE
         (set_p_context CtxSched (set_p_state SLEEPING (set_p_chan (Some (ChBuf b)) p)))))]>
         (map (wakeup1_proc (ChBuf b)) (<[i:=set_p_context CtxSched
           (set_p_state SLEEPING (set_p_chan (Some (ChBuf b)) p))]> l))) (k_pt k)) k))))).
  { specialize (HQ' n). kexact HQ'. }
  intros n'. destruct n' as [|n']; cbn [iderw_wait]; wp_steps.
  all: eapply wp_getbuf; [cbn; by apply list_lookup_insert_eq|].
  all: rewrite valid_clean; unfold intr_buf at 1 2; cbn [set_b_flags b_flags]; flags; wp_steps.
  all: apply HQ; [done| |eexists; split; [cbn; apply list_lookup_insert_eq|done]].
  all: try (rewrite length_map, length_insert; done).
  all: by eapply pt_sim_resume.
Qed.

(** [iderw] by the running process, with the drive idle: it returns, a dirty
    buffer is on the disk, any other one holds the disk's block. *)
Lemma wp_iderw i b bf k E Q :
  running i k → k_bc k !! b = Some bf → 0 <= b_blockno bf < FSSIZE →
  Z.testbit (b_flags bf) 0 = true →
  Z.testbit (b_flags bf) 1 && negb (Z.testbit (b_flags bf) 2) = false →
  ide_idle (k_ide k) →
  (∀ m' pt' d', running i (set_mach m' (set_pt pt' k)) → pt_sim (k_pt k) pt' →
     iderw_disk bf (k_ide k) d' →
     Q tt (set_mach m' (set_pt pt' (set_ide d' (set_bc (<[b := iderw_buf (k_ide k) bf]> (k_bc k)) k))))) →
  wp (iderw b) E Q k.
Proof.
  intros (Hm & p & Hp & Hrun & Hpg) Hb Hn Hbusy Hf (Hq & Hr & Hd1) HQ.
  pose proof (lookup_lt_Some _ _ _ Hb) as Hlt.
  unfold iderw. wp_steps. eapply wp_getbuf; [done|].
  rewrite hasf_busy, Hbusy, valid_clean, Hf. cbn [negb]. wp_steps. rewrite Hd1, andb_false_r. wp_steps.
  eapply wp_acquire; [done|apply not_elem_of_nil|]. intros m1 Hm1. wp_steps.
  eapply wp_ide_append_idle; [exact Hb|exact Hq|]. wp_steps.
  cbn [set_ide k_ide set_ide_queue ide_queue]. rewrite bool_decide_true by done. unfold when.
  eapply wp_idestart; [by apply list_lookup_insert_eq|exact Hn|exact Hr|]. intros d1 Hd'. wp_steps.
  destruct Hd' as (Hd1q & Hd1h & Hd1s & Hd1u & Hd1l & _ & Hd1d).
  replace (length _) with (S (pred (length (k_bc k)))) by (cbn; rewrite length_insert; lia).
  eapply (wp_iderw_wait i p); [exact Hm1|exact Hp|exact Hpg|exact Hd1q|by apply list_lookup_insert_eq|
    done| |exact Hf|].
  { unfold ide_ready. cbn. by rewrite Hd1s. }
  intros m2 pt2 Hm2 Hpt2 (p2 & Hp2 & Hs2). eapply wp_release; [exact Hm2|]. intros m3 Hm3.
  destruct (pt_sim_lookup _ _ _ _ Hpt2 Hp) as (p2' & Hp2' & Hsim). simplify_eq.
  cbn in Hd1q, Hd1h, Hd1s, Hd1u, Hd1l, Hd1d.
  assert (Hdata : intr_data d1 (set_b_qnext None bf) = b_data (iderw_buf (k_ide k) bf)).
  { unfold intr_data. cbn. rewrite Hd1u, Hd1l. destruct (Z.testbit _ 2); [done|].
    by destruct Hd1d as [-> _]. }
  assert (HQ' : Q tt (set_mach m3 (set_pt pt2 (set_ide (set_ide_queue None d1)
      (set_bc (<[b:=iderw_buf (k_ide k) bf]> (k_bc k)) k))))).
  { apply HQ; [|done|].
    - split; [done|]. exists p2. split_and!; [done..|]. unfold psim in Hsim. by rewrite Hsim.
    - split; [|done]. unfold ide_idle, ide_ready. cbn. rewrite Hd1s, Hd1h. done. }
  kexact HQ'. rewrite list_insert_insert_eq. unfold intr_buf. by rewrite Hdata.
Qed.

(** C7: [iderw] by a running process, with the drive idle and working,
    returns (the process sleeps until the interrupt and is resumed).  The
    buffer is then valid and clean and still busy.  If it was dirty, its data
    was written to the sector of its block on its drive and to no other; if
    not, its data is what that sector holds and nothing was written. *)
Theorem iderw_syncs i b bf k :
  running i k → k_bc k !! b = Some bf → 0 <= b_blockno bf < FSSIZE →
  Z.testbit (b_flags bf) 0 = true →
  Z.testbit (b_flags bf) 1 && negb (Z.testbit (b_flags bf) 2) = false →
  ide_idle (k_ide k) →
  ∃ bf' k', iderw b k = Ok tt k' ∧ running i k' ∧ ide_idle (k_ide k') ∧ pt_sim (k_pt k) (k_pt k') ∧
    k_bc k' = <[b := bf']> (k_bc k) ∧
    Z.testbit (b_flags bf') 0 = true ∧ Z.testbit (b_flags bf') 1 = true ∧ Z.testbit (b_flags bf') 2 = false ∧
    let key := (Z.land (b_dev bf) 1, b_blockno bf) in
    if Z.testbit (b_flags bf) 2
    then b_data bf' = b_data bf ∧ ide_disk (k_ide k') = <[key := b_data bf]> (ide_disk (k_ide k)) ∧
         ide_trace (k_ide k') = ide_trace (k_ide k) ++ [(key, b_data bf)]
    else b_data bf' = disk_get (ide_disk (k_ide k)) key.1 key.2 ∧ ide_disk (k_ide k') = ide_disk (k_ide k) ∧
         ide_trace (k_ide k') = ide_trace (k_ide k).
Proof.
  intros Hrun Hb Hbn Hbusy Hf Hide.
  destruct (wp_ok (iderw b) (λ _ k', ∃ m' pt' d', running i (set_mach m' (set_pt pt' k)) ∧ pt_sim (k_pt k) pt' ∧
    iderw_disk bf (k_ide k) d' ∧
    k' = set_mach m' (set_pt pt' (set_ide d' (set_bc (<[b := iderw_buf (k_ide k) bf]> (k_bc k)) k)))) k)
    as ([] & k' & Hr & m' & pt' & d' & Hrun' & Hpt & [Hidle Hd] & ->).
  { eapply wp_iderw; [done..|]. intros m' pt' d' ? ? ?. by exists m', pt', d'. }
  exists (iderw_buf (k_ide k) bf). eexists. split; [exact Hr|]. split_and!; try done.
  - cbn. flags. done.
  - cbn. flags. done.
  - cbn. flags. done.
  - cbn. destruct (Z.testbit (b_flags bf) 2); by destruct Hd.
Qed.

(** A dirty buffer of the example machine, for block 3 of drive 1. *)
Lemma iderw_syncs_witness :
  let bf := mkBuf 5 1 3 0 0 None (replicate 512 9) in
  let k := set_bc [bf] (kernel0 ∅) in
  ∃ bf' k', iderw 0 k = Ok tt k' ∧ running 0 k' ∧ ide_idle (k_ide k') ∧ pt_sim (k_pt k) (k_pt k') ∧
    k_bc k' = <[0%nat := bf']> (k_bc k) ∧
    Z.testbit (b_flags bf') 0 = true ∧ Z.testbit (b_flags bf') 1 = true ∧ Z.testbit (b_flags bf') 2 = false ∧
    let key := (Z.land (b_dev bf) 1, b_blockno bf) in
    if Z.testbit (b_flags bf) 2
    then b_data bf' = b_data bf ∧ ide_disk (k_ide k') = <[key := b_data bf]> (ide_disk (k_ide k)) ∧
         ide_trace (k_ide k') = ide_trace (k_ide k) ++ [(key, b_data bf)]
    else b_data bf' = disk_get (ide_disk (k_ide k)) key.1 key.2 ∧ ide_disk (k_ide k') = ide_disk (k_ide k) ∧
         ide_trace (k_ide k') = ide_trace (k_ide k).
Proof.
  intros bf k. apply (iderw_syncs 0 0 bf k); try done.
  split; [|by exists proc_run]. split_and!; [constructor| |].
  - eexists. by split_and!.
  - intros lk. by rewrite decide_False by apply not_elem_of_nil.
Defined.
