(* ===== verification/Bio.v ===== *)
(** * Bio: the buffer cache (kernel/bio.c)

    [binit], [bget], [bread], [bwrite] and [brelse] over the array of buffers
    and its doubly linked list.  The list is shown to be a ring that lists
    every buffer once, most recently used first; on top of it the cache is a
    coherent view of the disk, given by [bview]. *)

From stdpp Require Import prelude gmap strings.
From S2P Require Import Prelude Types Spinlock Sched Ide.
Open Scope Z_scope.

(** ** The operations *)

(** One round of the loop that links buffer [b] in. *)
Definition binit_buf (b : nat) : K unit :=
  h ← getbuf HEAD;
  updbuf b (set_b_next (b_next h));;
  updbuf b (set_b_prev HEAD);;
  updbuf b (λ x, set_b_key (u32 (-1)) (b_blockno x) x);;
  h ← getbuf HEAD;
  updbuf (b_next h) (set_b_prev b);;
  updbuf HEAD (set_b_next b).

Definition binit : K unit :=
  on_mach (initlock L_bcache);;
  updbuf HEAD (set_b_prev HEAD);;
  updbuf HEAD (set_b_next HEAD);;
  for_each (seq 0 HEAD) binit_buf.

(** The two walks over the list, from [b] on, to the first buffer that
    satisfies [f]; [fuel] bounds the number of buffers visited. *)
Fixpoint walk_next (f : buf → bool) (fuel : nat) (b : nat) : K (option nat) :=
  if bool_decide (b = HEAD) then mret None else
  bf ← getbuf b;
  if f bf then mret (Some b) else
  match fuel with O => spin | S fuel => walk_next f fuel (b_next bf) end.
Fixpoint walk_prev (f : buf → bool) (fuel : nat) (b : nat) : K (option nat) :=
  if bool_decide (b = HEAD) then mret None else
  bf ← getbuf b;
  if f bf then mret (Some b) else
  match fuel with O => spin | S fuel => walk_prev f fuel (b_prev bf) end.

Definition buf_is (dev blockno : Z) (bf : buf) : bool :=
  (b_dev bf =? dev) && (b_blockno bf =? blockno).
Definition buf_free (bf : buf) : bool :=
  negb (hasf (b_flags bf) B_BUSY) && negb (hasf (b_flags bf) B_DIRTY).

(** The [loop:] of [bget]; a round that finds the block busy sleeps, and when
    the process resumes it starts over. *)
Fixpoint bget_loop (rounds : nat) (dev blockno : Z) : K nat :=
  n ← gets (λ k, length (k_bc k));
  h ← getbuf HEAD;
  r ← walk_next (buf_is dev blockno) n (b_next h);
  match r with
  | Some b =>
      bf ← getbuf b;
      if negb (hasf (b_flags bf) B_BUSY) then
        updbuf b (λ x, set_b_flags (Z.lor (b_flags x) B_BUSY) x);;
        release L_bcache;;
        mret b
      else
        sleep (ChBuf b) (Some L_bcache);;
        sleep_return L_bcache;;
        match rounds with O => spin | S rounds => bget_loop rounds dev blockno end
  | None =>
      h ← getbuf HEAD;
      r ← walk_prev buf_free n (b_prev h);
      match r with
      | Some b =>
          updbuf b (set_b_key dev blockno);;
          updbuf b (set_b_flags B_BUSY);;
          release L_bcache;;
          mret b
      | None => panic "bget: no buffers"
      end
  end.

Definition bget (dev blockno : Z) : K nat :=
  acquire L_bcache;; bget_loop 0 dev blockno.

(** Return a B_BUSY buf with the contents of the indicated block. *)
Definition bread (dev blockno : Z) : K nat :=
  b ← bget dev blockno;
  bf ← getbuf b;
  when (negb (hasf (b_flags bf) B_VALID)) (iderw b);;
  mret b.

(** Write b's contents to disk.  Must be B_BUSY. *)
Definition bwrite (b : nat) : K unit :=
  bf ← getbuf b;
  if negb (hasf (b_flags bf) B_BUSY) then panic "bwrite" else
  updbuf b (λ x, set_b_flags (Z.lor (b_flags x) B_DIRTY) x);;
  iderw b.

(** Release a B_BUSY buffer.  Move to the head of the MRU list. *)
Definition brelse (b : nat) : K unit :=
  bf ← getbuf b;
  if negb (hasf (b_flags bf) B_BUSY) then panic "brelse" else
  acquire L_bcache;;
  bf ← getbuf b;
  updbuf (b_next bf) (set_b_prev (b_prev bf));;
  bf ← getbuf b;
  updbuf (b_prev bf) (set_b_next (b_next bf));;
  h ← getbuf HEAD;
  updbuf b (set_b_next (b_next h));;
  updbuf b (set_b_prev HEAD);;
  h ← getbuf HEAD;
  updbuf (b_next h) (set_b_prev b);;
  updbuf HEAD (set_b_next b);;
  updbuf b (λ x, set_b_flags (Z.ldiff (b_flags x) B_BUSY) x);;
  wakeup (ChBuf b);;
  release L_bcache.

(** ** The doubly linked ring *)

Definition nxt (bc : bcache) (i : nat) : nat := default 0%nat (b_next <$> bc !! i).
Definition prv (bc : bcache) (i : nat) : nat := default 0%nat (b_prev <$> bc !! i).

Definition lupd (f : nat → nat) (i v : nat) : nat → nat := λ j, if decide (j = i) then v else f j.

(** From [x] the links lead through [l] to [y], and back. *)
Fixpoint path (nx pv : nat → nat) (x : nat) (l : list nat) (y : nat) : Prop :=
  match l with
  | [] => nx x = y ∧ pv y = x
  | z :: l => nx x = z ∧ pv z = x ∧ path nx pv z l y
  end.

Section path.
Context (nx pv : nat → nat).

Lemma path_app x l1 z l2 y :
  path nx pv x (l1 ++ z :: l2) y ↔ path nx pv x l1 z ∧ path nx pv z l2 y.
Proof. revert x. induction l1 as [|w l1 IH]; intros x; simpl; [tauto|]. rewrite IH. tauto. Qed.

Lemma path_ext nx' pv' x l y :
  (∀ z, z ∈ x :: l → nx' z = nx z) → (∀ z, z ∈ y :: l → pv' z = pv z) →
  path nx pv x l y → path nx' pv' x l y.
Proof.
  revert x. induction l as [|w l IH]; intros x Hn Hp; simpl.
  - rewrite Hn, Hp by left. done.
  - intros (H1 & H2 & H3). rewrite Hn by left. rewrite Hp by (right; left).
    split_and!; [done..|]. apply IH; [|set_solver|done]. intros z Hz. apply Hn. by right.
Qed.

Lemma path_nx x l y : path nx pv x l y → nx x = default y (head l).
Proof. destruct l; simpl; tauto. Qed.
Lemma path_pv x l y : path nx pv x l y → pv y = default x (last l).
Proof.
  destruct l as [|z l _] using rev_ind; simpl; [tauto|].
  rewrite path_app, last_snoc. simpl. tauto.
Qed.
End path.

(** The walk forward, and backward, over a ring. *)
Lemma path_snoc nx pv x l z y :
  path nx pv x (l ++ [z]) y ↔ path nx pv x l z ∧ nx z = y ∧ pv y = z.
Proof. by rewrite path_app. Qed.

Lemma lupd_eq f i v : lupd f i v i = v.
Proof. unfold lupd. by destruct (decide (i = i)). Qed.
Lemma lupd_ne f i v j : j ≠ i → lupd f i v j = f j.
Proof. intros. unfold lupd. by destruct (decide (j = i)). Qed.

(** Joining two stretches. *)
Lemma path_join nx pv x l1 p n l2 y :
  p ∉ l1 → p ≠ x → p ∉ n :: l2 → n ∉ l2 → n ∉ p :: l1 → n ≠ y →
  path nx pv x l1 p → path nx pv n l2 y →
  path (lupd nx p n) (lupd pv n p) x (l1 ++ p :: n :: l2) y.
Proof.
  intros ?????? H1 H2. rewrite path_app. simpl. rewrite !lupd_eq. split; [|split_and!; [done..|]].
  - eapply path_ext; [..|done]; intros z Hz; apply lupd_ne; set_solver.
  - eapply path_ext; [..|done]; intros z Hz; apply lupd_ne; set_solver.
Qed.

Lemma path_unlink nx pv x l1 b l2 y :
  NoDup (l1 ++ b :: l2) → x ∉ l1 ++ b :: l2 → y ∉ l1 ++ b :: l2 →
  path nx pv x (l1 ++ b :: l2) y →
  path (lupd nx (pv b) (nx b)) (lupd pv (nx b) (pv b)) x (l1 ++ l2) y.
Proof.
  intros Hnd Hx Hy [H1 H2]%path_app.
  rewrite (path_pv _ _ _ _ _ H1), (path_nx _ _ _ _ _ H2).
  destruct l1 as [|p l1 _] using rev_ind; [|rewrite last_snoc; apply path_snoc in H1 as (H1 & _ & _)];
    (destruct l2 as [|n l2]; [|destruct H2 as (_ & _ & H2)]); cbn [default from_option head app last id].
  - simpl. by rewrite !lupd_eq.
  - simpl. rewrite !lupd_eq. split_and!; [done..|].
    apply NoDup_app in Hnd as (_ & _ & Hnd). apply NoDup_cons in Hnd as [_ Hnd].
    apply NoDup_cons in Hnd as [? Hnd].
    eapply path_ext; [..|done]; intros z Hz; apply lupd_ne; set_solver.
  - rewrite app_nil_r, path_snoc, !lupd_eq. split_and!; [|done..].
    rewrite <-app_assoc in Hnd. apply NoDup_app in Hnd as (Hnd & Hd & _).
    eapply path_ext; [..|done]; intros z Hz; apply lupd_ne; set_solver.
  - rewrite <-app_assoc in *. cbn [app] in *. change (p :: n :: l2) with (p :: n :: l2).
    apply NoDup_app in Hnd as (Hnd1 & Hd & Hnd). apply NoDup_cons in Hnd as [Hp Hnd].
    apply NoDup_cons in Hnd as [Hb Hnd]. apply NoDup_cons in Hnd as [Hn Hnd].
    apply path_join; try done; set_solver.
Qed.

Lemma path_push nx pv h l b :
  b ≠ h → b ∉ l → h ∉ l → NoDup l → path nx pv h l h →
  path (lupd (lupd nx b (nx h)) h b) (lupd (lupd pv b h) (nx h) b) h (b :: l) h.
Proof.
  intros Hbh Hb Hh Hnd H. cbn [path]. rewrite lupd_eq. split; [done|].
  rewrite (path_nx _ _ _ _ _ H). destruct l as [|n l]; cbn [default from_option head id].
  - simpl. rewrite lupd_eq, lupd_ne, lupd_eq by done.
    rewrite (lupd_ne _ _ _ b), lupd_eq by done. done.
  - destruct H as (_ & _ & H). cbn [path]. apply NoDup_cons in Hnd as [Hn Hnd].
    rewrite !lupd_eq. rewrite (lupd_ne _ n), lupd_eq by set_solver.
    rewrite (lupd_ne _ h _ b), lupd_eq by done. split_and!; [done..|].
    eapply path_ext; [..|done]; intros z Hz; rewrite !lupd_ne; set_solver.
Qed.

(** The cache's list, most recently used first. *)
Definition ring (bc : bcache) (l : list nat) : Prop :=
  length bc = S HEAD ∧ NoDup l ∧ (∀ i, i ∈ l ↔ (i < HEAD)%nat) ∧ path (nxt bc) (prv bc) HEAD l HEAD.

Lemma ring_head l bc : ring bc l → HEAD ∉ l.
Proof. intros (_ & _ & H & _) ?%H. lia. Qed.

Lemma nxt_lookup bc i bf : bc !! i = Some bf → nxt bc i = b_next bf.
Proof. unfold nxt. by intros ->. Qed.
Lemma prv_lookup bc i bf : bc !! i = Some bf → prv bc i = b_prev bf.
Proof. unfold prv. by intros ->. Qed.

Lemma nxt_insert bc i bf : (i < length bc)%nat →
  ∀ j, nxt (<[i := bf]> bc) j = lupd (nxt bc) i (b_next bf) j.
Proof.
  intros Hi j. unfold nxt, lupd. destruct (decide (j = i)) as [->|].
  - by rewrite list_lookup_insert_eq.
  - by rewrite list_lookup_insert_ne.
Qed.
Lemma prv_insert bc i bf : (i < length bc)%nat →
  ∀ j, prv (<[i := bf]> bc) j = lupd (prv bc) i (b_prev bf) j.
Proof.
  intros Hi j. unfold prv, lupd. destruct (decide (j = i)) as [->|].
  - by rewrite list_lookup_insert_eq.
  - by rewrite list_lookup_insert_ne.
Qed.

(** ** The walks *)

(** [r] is the first buffer of [l] that satisfies [f], if any. *)
Definition first_of (bc : bcache) (f : buf → bool) (l : list nat) (r : option nat) : Prop :=
  match r with
  | Some b => ∃ l1 l2 bf, l = l1 ++ b :: l2 ∧ bc !! b = Some bf ∧ f bf = true ∧
      Forall (λ j, ∃ bj, bc !! j = Some bj ∧ f bj = false) l1
  | None => Forall (λ j, ∃ bj, bc !! j = Some bj ∧ f bj = false) l
  end.

Lemma first_of_cons bc f j bj l r :
  bc !! j = Some bj → f bj = false → first_of bc f l r → first_of bc f (j :: l) r.
Proof.
  intros Hj Hf. destruct r as [b|]; simpl.
  - intros (l1 & l2 & bf & -> & ? & ? & ?). exists (j :: l1), l2, bf. split_and!; try done. eauto.
  - intros. constructor; eauto.
Qed.

Lemma getbuf_run b bf k : k_bc k !! b = Some bf → getbuf b k = Ok bf k.
Proof. intros Hb. unfold getbuf, get, need, mbind, M_bind. cbn. by rewrite Hb. Qed.

Lemma walk_next_run f k l fuel x :
  length (k_bc k) = S HEAD → (∀ i, i ∈ l → (i < HEAD)%nat) → (length l <= fuel)%nat →
  path (nxt (k_bc k)) (prv (k_bc k)) x l HEAD →
  ∃ r, walk_next f fuel (nxt (k_bc k) x) k = Ok r k ∧ first_of (k_bc k) f l r.
Proof.
  intros Hlen. revert fuel x. induction l as [|j l IH]; intros fuel x Hl Hfuel Hp.
  - destruct Hp as [-> _]. exists None. split; [|by constructor].
    destruct fuel; cbn [walk_next]; by rewrite bool_decide_true.
  - destruct Hp as (-> & _ & Hp). assert (Hj : (j < HEAD)%nat) by (apply Hl; left).
    destruct (lookup_lt_is_Some_2 (k_bc k) j) as [bj Hbj]; [lia|].
    destruct fuel as [|fuel]; [simpl in Hfuel; lia|]. cbn [walk_next].
    rewrite bool_decide_false by lia. rewrite (bind_run _ _ bj _ k) by (by apply getbuf_run).
    destruct (f bj) eqn:Hf.
    + exists (Some j). split; [done|]. exists [], l, bj. done.
    + destruct (IH fuel j) as (r & Hr & Hfst); [set_solver|simpl in *; lia|done|].
      exists r. rewrite <-(nxt_lookup _ _ _ Hbj), Hr. split; [done|]. by eapply first_of_cons.
Qed.

Lemma walk_prev_run f k l fuel y :
  length (k_bc k) = S HEAD → (∀ i, i ∈ l → (i < HEAD)%nat) → (length l <= fuel)%nat →
  path (nxt (k_bc k)) (prv (k_bc k)) HEAD l y →
  ∃ r, walk_prev f fuel (prv (k_bc k) y) k = Ok r k ∧ first_of (k_bc k) f (reverse l) r.
Proof.
  intros Hlen. revert fuel y. induction l as [|j l IH] using rev_ind; intros fuel y Hl Hfuel Hp.
  - destruct Hp as [_ ->]. exists None. split; [|by constructor].
    destruct fuel; cbn [walk_prev]; by rewrite bool_decide_true.
  - apply path_snoc in Hp as (Hp & _ & ->). rewrite reverse_app. cbn [reverse app].
    assert (Hj : (j < HEAD)%nat) by (apply Hl, elem_of_app; right; left).
    destruct (lookup_lt_is_Some_2 (k_bc k) j) as [bj Hbj]; [lia|].
    rewrite length_app in Hfuel; simpl in Hfuel.
    destruct fuel as [|fuel]; [lia|]. cbn [walk_prev].
    rewrite bool_decide_false by lia. rewrite (bind_run _ _ bj _ k) by (by apply getbuf_run).
    destruct (f bj) eqn:Hf.
    + exists (Some j). split; [done|]. exists [], (reverse l), bj. done.
    + destruct (IH fuel j) as (r & Hr & Hfst); [set_solver|lia|done|].
      exists r. rewrite <-(prv_lookup _ _ _ Hbj), Hr. split; [done|]. by eapply first_of_cons.
Qed.

(** ** [bget] *)

Definition busy (bf : buf) : bool := Z.testbit (b_flags bf) 0.
Definition valid (bf : buf) : bool := Z.testbit (b_flags bf) 1.
Definition dirty (bf : buf) : bool := Z.testbit (b_flags bf) 2.
Definition keyed (bn : Z) (bf : buf) : Prop := b_dev bf = ROOTDEV ∧ b_blockno bf = bn.

Lemma buf_is_spec bn bf : buf_is ROOTDEV bn bf = true ↔ keyed bn bf.
Proof. unfold buf_is, keyed. rewrite andb_true_iff, !Z.eqb_eq. done. Qed.
Lemma buf_free_spec bf : buf_free bf = negb (busy bf) && negb (dirty bf).
Proof. unfold buf_free. by rewrite hasf_busy, hasf_dirty. Qed.

(** The buffer [bget] returns: the one that caches the block, or a free one
    given the block's key. *)
Definition bget_buf (bn : Z) (bf bf' : buf) : Prop :=
  (keyed bn bf ∧ bf' = set_b_flags (Z.lor (b_flags bf) B_BUSY) bf) ∨
  (¬ keyed bn bf ∧ dirty bf = false ∧ bf' = set_b_flags B_BUSY (set_b_key ROOTDEV bn bf)).

Lemma wp_bget pr bn l k E Q :
  at_mach [] pr (k_mach k) → ring (k_bc k) l →
  (∀ i bf, (i < HEAD)%nat → k_bc k !! i = Some bf → keyed bn bf → busy bf = false) →
  ((∀ i bf, (i < HEAD)%nat → k_bc k !! i = Some bf → ¬ keyed bn bf ∧ busy bf || dirty bf = true) →
     E "bget: no buffers") →
  (∀ b bf bf' m', at_mach [] pr m' → (b < HEAD)%nat → k_bc k !! b = Some bf → busy bf = false →
     bget_buf bn bf bf' →
     (keyed bn bf ∨ ∀ i bi, (i < HEAD)%nat → k_bc k !! i = Some bi → ¬ keyed bn bi) →
     Q b (set_mach m' (set_bc (<[b := bf']> (k_bc k)) k))) →
  wp (bget ROOTDEV bn) E Q k.
Proof.
  intros Hm Hring Hnb HE HQ. pose proof Hring as (Hlen & Hnd & Hin & Hpath).
  destruct (lookup_lt_is_Some_2 (k_bc k) HEAD) as [h Hh]; [rewrite Hlen; lia|].
  assert (Hll : (length l <= length (k_bc k))%nat).
  { rewrite Hlen. transitivity (length (seq 0 HEAD)); [|rewrite length_seq; lia].
    apply submseteq_length, NoDup_submseteq; [done|]. intros x Hx%Hin. apply elem_of_seq. lia. }
  unfold bget. wp_steps. eapply wp_acquire; [done|apply not_elem_of_nil|]. intros m1 Hm1.
  cbn [bget_loop]. wp_steps. eapply wp_getbuf; [exact Hh|]. wp_steps.
  rewrite <-(nxt_lookup _ _ _ Hh).
  destruct (walk_next_run (buf_is ROOTDEV bn) (set_mach m1 k) l (length (k_bc k)) HEAD)
    as (r & Hr & Hf); [done|by intros i ?%Hin|done|done|].
  eapply wp_run; [exact Hr|]. destruct r as [b|].
  - destruct Hf as (l1 & l2 & bf & -> & Hb & Hkey & _). apply buf_is_spec in Hkey.
    assert (Hblt : (b < HEAD)%nat) by (apply Hin, elem_of_app; right; left).
    wp_steps. eapply wp_getbuf; [exact Hb|]. specialize (Hnb b bf Hblt Hb Hkey).
    rewrite hasf_busy. unfold busy in Hnb. rewrite Hnb. cbn [negb]. wp_steps.
    eapply wp_updbuf; [exact Hb|]. wp_steps. eapply wp_release; [exact Hm1|]. intros m2 Hm2. wp_steps.
    eapply HQ; try done; [|by left]. by left.
  - assert (Hnone : ∀ i bi, (i < HEAD)%nat → k_bc k !! i = Some bi → ¬ keyed bn bi).
    { intros i bi Hi%Hin Hbi Hk%buf_is_spec. simpl in Hf. rewrite Forall_forall in Hf.
      destruct (Hf i Hi) as (? & ? & ?). cbn in *. congruence. }
    wp_steps. eapply wp_getbuf; [exact Hh|]. wp_steps. rewrite <-(prv_lookup _ _ _ Hh).
    destruct (walk_prev_run buf_free (set_mach m1 k) l (length (k_bc k)) HEAD)
      as (r & Hr' & Hf'); [done|by intros i ?%Hin|done|done|].
    eapply wp_run; [exact Hr'|]. destruct r as [b|].
    + destruct Hf' as (l1 & l2 & bf & Hl & Hb & Hfree & _).
      assert (Hblt : (b < HEAD)%nat).
      { apply Hin, elem_of_reverse. rewrite Hl. set_solver. }
      rewrite buf_free_spec in Hfree. apply andb_true_iff in Hfree as [Hfb Hfd].
      apply negb_true_iff in Hfb, Hfd. wp_steps. eapply wp_updbuf; [exact Hb|]. wp_steps.
      eapply wp_updbuf; [apply list_lookup_insert_eq; cbn; lia|]. wp_steps.
      eapply wp_release; [exact Hm1|]. intros m2 Hm2. wp_steps.
      assert (HQ' : Q b (set_mach m2 (set_bc
        (<[b:=set_b_flags B_BUSY (set_b_key ROOTDEV bn bf)]> (k_bc k)) k))).
      { eapply HQ; try done; [|by right]. right. split; [by eapply Hnone|done]. }
      kexact HQ'. by rewrite list_insert_insert_eq.
    + apply wp_panic, HE. intros i bi Hi Hbi. split; [by eapply Hnone|].
      simpl in Hf'. rewrite Forall_forall in Hf'. apply Hin in Hi.
      destruct (Hf' i) as (bi' & Hbi' & Hfree); [by apply elem_of_reverse|]. cbn in *. simplify_eq.
      rewrite buf_free_spec in Hfree. by destruct (busy bi), (dirty bi).
Qed.

(** ** The cache as a view of the disk *)

Definition disk_of (k : kernel) (bn : Z) : block := disk_get (ide_disk (k_ide k)) 1 bn.

(** The contents of block [bn] of the root device, as the kernel sees it. *)
Definition bview (k : kernel) (bn : Z) : block :=
  match list_find (λ bf, keyed bn bf ∧ valid bf = true) (take HEAD (k_bc k)) with
  | Some (_, bf) => b_data bf
  | None => disk_of k bn
  end.

(** Buffer [i] holds [bf]. *)
Definition isbuf (k : kernel) (i : nat) (bf : buf) : Prop :=
  (i < HEAD)%nat ∧ k_bc k !! i = Some bf.

(** [bn] has changes that are not on the disk yet. *)
Definition bdirty (k : kernel) (bn : Z) : Prop := ∃ i bf, isbuf k i bf ∧ keyed bn bf ∧ dirty bf = true.

(** The invariant, with [H] the buffers that are in use. *)
Record bio_inv (H : list nat) (k : kernel) : Prop := {
  bi_ring : ∃ l, ring (k_bc k) l;
  bi_nodup : NoDup H;
  bi_lt : ∀ i, i ∈ H → (i < HEAD)%nat;
  bi_busy : ∀ i bf, isbuf k i bf → (busy bf = true ↔ i ∈ H);
  bi_key : ∀ i bf, isbuf k i bf →
    (b_dev bf = ROOTDEV ∧ 0 <= b_blockno bf < FSSIZE) ∨ (valid bf = false ∧ dirty bf = false ∧ b_dev bf = u32 (-1));
  bi_uniq : ∀ i j bi bj bn, isbuf k i bi → isbuf k j bj → keyed bn bi → keyed bn bj → i = j;
  bi_len : ∀ i bf, isbuf k i bf → length (b_data bf) = Z.to_nat BSIZE;
  bi_dirty : ∀ i bf, isbuf k i bf → dirty bf = true → valid bf = true;
  bi_sync : ∀ i bf, isbuf k i bf → i ∉ H → valid bf = true → dirty bf = false →
    b_data bf = disk_of k (b_blockno bf);
  bi_disk : ∀ u s, length (disk_get (ide_disk (k_ide k)) u s) = Z.to_nat BSIZE
}.

Lemma isbuf_fun k i bf bf' : isbuf k i bf → isbuf k i bf' → bf = bf'.
Proof. intros [_ ?] [_ ?]. congruence. Qed.

Lemma bview_hit H k bn i bf :
  bio_inv H k → isbuf k i bf → keyed bn bf → valid bf = true → bview k bn = b_data bf.
Proof.
  intros Hinv [Hi Hb] Hk Hv. unfold bview.
  destruct (list_find _ _) as [[j bj]|] eqn:Hf.
  - apply list_find_Some in Hf as (Hj & [Hkj _] & _).
    apply lookup_take_Some in Hj as [Hj Hlt].
    assert (i = j) as -> by (by apply (bi_uniq _ _ Hinv i j bf bj bn)). congruence.
  - apply list_find_None in Hf. rewrite Forall_lookup in Hf. destruct (Hf i bf); [|done].
    apply lookup_take_Some. done.
Qed.

Lemma bview_miss k bn :
  (∀ i bf, isbuf k i bf → keyed bn bf → valid bf = false) → bview k bn = disk_of k bn.
Proof.
  intros Hm. unfold bview. destruct (list_find _ _) as [[j bj]|] eqn:Hf; [|done].
  apply list_find_Some in Hf as (Hj & [Hkj Hv] & _). apply lookup_take_Some in Hj as [Hj Hlt].
  rewrite (Hm j bj) in Hv; done.
Qed.

(** Either a valid buffer caches the block, or none does. *)
Lemma bview_cases k bn :
  (∃ i bf, isbuf k i bf ∧ keyed bn bf ∧ valid bf = true) ∨
  (∀ i bf, isbuf k i bf → keyed bn bf → valid bf = false).
Proof.
  destruct (list_find (λ bf, keyed bn bf ∧ valid bf = true) (take HEAD (k_bc k))) as [[j bj]|] eqn:Hf.
  - left. apply list_find_Some in Hf as (Hj & [Hkj Hv] & _).
    apply lookup_take_Some in Hj as [Hj Hlt]. by exists j, bj.
  - right. apply list_find_None in Hf. rewrite Forall_lookup in Hf. intros i bf [Hi Hb] Hk.
    destruct (valid bf) eqn:Hv; [|done]. destruct (Hf i bf); [|done].
    apply lookup_take_Some. done.
Qed.

Lemma ring_update bc l i bf bf' :
  bc !! i = Some bf → b_next bf' = b_next bf → b_prev bf' = b_prev bf →
  ring bc l → ring (<[i := bf']> bc) l.
Proof.
  intros Hb Hn Hp (Hlen & Hnd & Hin & Hpath). pose proof (lookup_lt_Some _ _ _ Hb) as Hlt.
  split_and!; [by rewrite length_insert|done|done|].
  eapply path_ext; [..|done]; intros z _.
  - rewrite nxt_insert by done. unfold lupd. destruct (decide (z = i)) as [->|]; [|done].
    by rewrite Hn, (nxt_lookup _ _ _ Hb).
  - rewrite prv_insert by done. unfold lupd. destruct (decide (z = i)) as [->|]; [|done].
    by rewrite Hp, (prv_lookup _ _ _ Hb).
Qed.

Lemma isbuf_insert k k' i bf' j bj :
  k_bc k' = <[i := bf']> (k_bc k) →
  isbuf k' j bj → (j = i ∧ bj = bf') ∨ (j ≠ i ∧ isbuf k j bj).
Proof.
  intros Hbc [Hj Hb]. rewrite Hbc in Hb. apply list_lookup_insert_Some in Hb as [(<- & <- & _)|[Hne Hb]].
  - by left.
  - right. by repeat split.
Qed.

(** The invariant after a change of one buffer and of the disk. *)
Lemma bio_inv_update H H' k k' i bf bf' :
  bio_inv H k → isbuf k i bf → k_bc k' = <[i := bf']> (k_bc k) →
  b_next bf' = b_next bf → b_prev bf' = b_prev bf →
  NoDup H' → (∀ j, j ∈ H' → (j < HEAD)%nat) → (∀ j, j ≠ i → (j ∈ H' ↔ j ∈ H)) →
  (busy bf' = true ↔ i ∈ H') →
  (b_dev bf' = ROOTDEV ∧ 0 <= b_blockno bf' < FSSIZE) →
  (∀ j bj, j ≠ i → isbuf k j bj → ¬ keyed (b_blockno bf') bj) →
  length (b_data bf') = Z.to_nat BSIZE → (dirty bf' = true → valid bf' = true) →
  (i ∉ H' → valid bf' = true → dirty bf' = false → b_data bf' = disk_of k' (b_blockno bf')) →
  (∀ bn, bn ≠ b_blockno bf' → disk_of k' bn = disk_of k bn) →
  (∀ u s, length (disk_get (ide_disk (k_ide k')) u s) = Z.to_nat BSIZE) →
  bio_inv H' k'.
Proof.
  intros Hinv Hb Hbc Hn Hp Hnd Hlt HH Hbusy Hkey Huniq Hlen Hdv Hsync Hdisk Hdl.
  destruct (bi_ring _ _ Hinv) as [l Hring].
  assert (Hkey' : ∀ j bj, isbuf k j bj → b_dev bj ≠ ROOTDEV → valid bj = false).
  { intros j bj Hj Hne. by destruct (bi_key _ _ Hinv j bj Hj) as [[? _]|[? _]]. }
  split.
  - exists l. rewrite Hbc. by eapply ring_update; [apply Hb|..].
  - done.
  - done.
  - intros j bj [[-> ->]|[Hne Hj]]%(isbuf_insert _ _ _ _ _ _ Hbc); [done|].
    rewrite HH by done. by apply (bi_busy _ _ Hinv).
  - intros j bj [[-> ->]|[Hne Hj]]%(isbuf_insert _ _ _ _ _ _ Hbc); [by left|by apply (bi_key _ _ Hinv j)].
  - intros j1 j2 b1 b2 bn H1 H2 K1 K2.
    destruct (isbuf_insert _ _ _ _ _ _ Hbc H1) as [[-> ->]|[Hne1 H1']],
      (isbuf_insert _ _ _ _ _ _ Hbc H2) as [[-> ->]|[Hne2 H2']]; [done|..].
    + destruct K1 as [_ <-]. by destruct (Huniq j2 b2).
    + destruct K2 as [_ <-]. by destruct (Huniq j1 b1).
    + by apply (bi_uniq _ _ Hinv _ _ _ _ bn H1' H2').
  - intros j bj [[-> ->]|[Hne Hj]]%(isbuf_insert _ _ _ _ _ _ Hbc); [done|by apply (bi_len _ _ Hinv j)].
  - intros j bj [[-> ->]|[Hne Hj]]%(isbuf_insert _ _ _ _ _ _ Hbc); [done|by apply (bi_dirty _ _ Hinv j)].
  - intros j bj [[-> ->]|[Hne Hj]]%(isbuf_insert _ _ _ _ _ _ Hbc) Hj' Hv Hd; [by apply Hsync|].
    rewrite HH in Hj' by done. rewrite (bi_sync _ _ Hinv j bj Hj Hj' Hv Hd). symmetry. apply Hdisk.
    intros Heq. apply (Huniq j bj Hne Hj). split; [|done].
    destruct (decide (b_dev bj = ROOTDEV)) as [|Hd']; [done|]. by rewrite (Hkey' j bj) in Hv.
  - done.
Qed.

(** Other blocks' contents after a change of one buffer: a block that loses
    its buffer must be in sync with the disk. *)
Lemma bview_update H H' k k' i bf bf' bn :
  bio_inv H k → bio_inv H' k' → isbuf k i bf → k_bc k' = <[i := bf']> (k_bc k) →
  bn ≠ b_blockno bf' → disk_of k' bn = disk_of k bn →
  (keyed bn bf → valid bf = true → b_data bf = disk_of k bn) →
  bview k' bn = bview k bn.
Proof.
  intros Hinv Hinv' Hb Hbc Hbn Hd Hev.
  destruct (bview_cases k' bn) as [(j & bj & Hj & Hk & Hv)|Hmiss].
  - rewrite (bview_hit _ _ _ _ _ Hinv' Hj Hk Hv).
    destruct (isbuf_insert _ _ _ _ _ _ Hbc Hj) as [[-> ->]|[Hne Hj']].
    + by destruct Hk as [_ <-].
    + by rewrite (bview_hit _ _ _ _ _ Hinv Hj' Hk Hv).
  - rewrite (bview_miss _ _ Hmiss), Hd.
    destruct (bview_cases k bn) as [(j & bj & Hj & Hk & Hv)|Hmiss'].
    + rewrite (bview_hit _ _ _ _ _ Hinv Hj Hk Hv). destruct (decide (j = i)) as [->|Hne].
      * rewrite (isbuf_fun _ _ _ _ Hj Hb) in *. symmetry. by apply Hev.
      * rewrite (Hmiss j bj) in Hv; [done| |done]. destruct Hj. split; [done|].
        rewrite Hbc. by rewrite list_lookup_insert_ne.
    + by rewrite (bview_miss _ _ Hmiss').
Qed.

(** What the block layer leaves alone. *)
Definition bframe (k k' : kernel) : Prop :=
  pt_sim (k_pt k) (k_pt k') ∧ k_log k' = k_log k ∧ k_ic k' = k_ic k ∧ k_ft k' = k_ft k ∧
  k_pipes k' = k_pipes k ∧ k_kmem k' = k_kmem k ∧ k_ticks k' = k_ticks k ∧ k_cons k' = k_cons k.
#[global] Instance bframe_preorder : PreOrder bframe.
Proof.
  split; [intros k; split_and!; [reflexivity|done..]|].
  intros k1 k2 k3 (? & ? & ? & ? & ? & ? & ? & ?) (? & ? & ? & ? & ? & ? & ? & ?).
  split_and!; [by transitivity (k_pt k2)|congruence..].
Qed.

(** A process may use the block layer: it runs with no lock held and the
    drive is idle. *)
Definition ready (p : nat) (k : kernel) : Prop := running p k ∧ ide_idle (k_ide k).

(** What two states have in common for the holder of other buffers: buffer
    contents up to the list links. *)
Definition strip (bf : buf) : buf := set_b_next 0 (set_b_prev 0 (set_b_qnext None bf)).
Definition same_held (H : list nat) (k k' : kernel) : Prop :=
  ∀ j, j ∈ H → strip <$> k_bc k' !! j = strip <$> k_bc k !! j.

#[global] Instance same_held_preorder H : PreOrder (same_held H).
Proof.
  split; [done|]. intros k1 k2 k3 H12 H23 j Hj. by rewrite H23, H12.
Qed.

Lemma same_held_insert H k k' i bf' :
  k_bc k' = <[i := bf']> (k_bc k) → i ∉ H → same_held H k k'.
Proof. intros Hbc Hi j Hj. rewrite Hbc, list_lookup_insert_ne by set_solver. done. Qed.

(** A held buffer of one state in the other. *)
Lemma same_held_buf H k k' j bf :
  same_held H k k' → j ∈ H → isbuf k j bf → ∃ bf', isbuf k' j bf' ∧ strip bf' = strip bf.
Proof.
  intros Hs Hj [Hlt Hb]. specialize (Hs j Hj). rewrite Hb in Hs. unfold isbuf.
  destruct (k_bc k' !! j) as [bf'|]; [|done]. exists bf'. simpl in Hs. split_and!; congruence.
Qed.

Lemma strip_eq bf bf' : strip bf' = strip bf →
  b_flags bf' = b_flags bf ∧ b_dev bf' = b_dev bf ∧ b_blockno bf' = b_blockno bf ∧ b_data bf' = b_data bf.
Proof. destruct bf, bf'. unfold strip. simpl. intros. simplify_eq/=. done. Qed.

(** The block layer has only read: contents, pending changes and disk are the
    same. *)
Definition bkeep (k k' : kernel) : Prop :=
  bframe k k' ∧ ide_disk (k_ide k') = ide_disk (k_ide k) ∧ ide_trace (k_ide k') = ide_trace (k_ide k) ∧
  (∀ bn, bview k' bn = bview k bn) ∧ (∀ bn, bdirty k' bn ↔ bdirty k bn).
#[global] Instance bkeep_preorder : PreOrder bkeep.
Proof.
  split; [intros k; split_and!; [reflexivity|done..]|].
  intros k1 k2 k3 (H1 & H2 & H3 & H4 & H5) (H1' & H2' & H3' & H4' & H5').
  split_and!; [by transitivity k2|congruence..| |].
  - intros bn. by rewrite H4', H4.
  - intros bn. by rewrite H5', H5.
Qed.

Lemma disk_of_eq k k' bn : ide_disk (k_ide k') = ide_disk (k_ide k) → disk_of k' bn = disk_of k bn.
Proof. unfold disk_of. by intros ->. Qed.

(** A process holds buffer [b] with the contents [d] of block [bn]. *)
Definition holds (k : kernel) (b : nat) (bn : Z) (d : block) : Prop :=
  ∃ bf, isbuf k b bf ∧ keyed bn bf ∧ valid bf = true ∧ b_data bf = d.

(** [bread]'s effect: buffer [b], which was free, now caches [bn] for its
    caller. *)
Section bread_effect.
Context (H : list nat) (k k' : kernel) (b : nat) (bf bf' : buf) (bn : Z).
Hypothesis Hinv : bio_inv H k.
Hypothesis Hb : isbuf k b bf.
Hypothesis Hfree : busy bf = false.
Hypothesis Hwhich : keyed bn bf ∨ dirty bf = false ∧ ∀ i bi, isbuf k i bi → ¬ keyed bn bi.
Hypothesis Hbc : k_bc k' = <[b := bf']> (k_bc k).
Hypothesis Hnext : b_next bf' = b_next bf.
Hypothesis Hprev : b_prev bf' = b_prev bf.
Hypothesis Hkey' : keyed bn bf'.
Hypothesis Hbusy' : busy bf' = true.
Hypothesis Hvalid' : valid bf' = true.
Hypothesis Hdirty' : dirty bf' = dirty bf.
Hypothesis Hdata' : b_data bf' = bview k bn.
Hypothesis Hlen' : length (b_data bf') = Z.to_nat BSIZE.
Hypothesis Hdisk : ide_disk (k_ide k') = ide_disk (k_ide k).
Hypothesis Hbn : 0 <= bn < FSSIZE.

Lemma bread_not_held : b ∉ H.
Proof. intros Hin%(bi_busy _ _ Hinv b bf Hb). congruence. Qed.

(** No other buffer has the key. *)
Lemma bread_unique j bj : j ≠ b → isbuf k j bj → ¬ keyed bn bj.
Proof.
  intros Hne Hj Hk. destruct Hwhich as [Hk'|[_ Hno]]; [|by apply (Hno j bj)].
  by apply Hne, (bi_uniq _ _ Hinv _ _ _ _ bn Hj Hb).
Qed.

Lemma bread_inv : bio_inv (b :: H) k'.
Proof.
  destruct Hkey' as [Hdev Hno].
  eapply (bio_inv_update H (b :: H) k k' b bf bf'); try done.
  - constructor; [apply bread_not_held|apply (bi_nodup _ _ Hinv)].
  - intros j [->|Hj]%elem_of_cons; [apply Hb|by apply (bi_lt _ _ Hinv)].
  - intros j Hj. rewrite elem_of_cons. naive_solver.
  - split; [by left|done].
  - split; [done|]. by rewrite Hno.
  - intros j bj. rewrite Hno. apply bread_unique.
  - intros Hnin. exfalso. apply Hnin. by left.
  - intros. by apply disk_of_eq.
  - rewrite Hdisk. apply (bi_disk _ _ Hinv).
Qed.

Lemma bread_view bn' : bview k' bn' = bview k bn'.
Proof.
  assert (Hb' : isbuf k' b bf').
  { split; [apply Hb|]. rewrite Hbc. apply list_lookup_insert_eq. by eapply lookup_lt_Some, Hb. }
  destruct Hkey' as [Hdev Hno]. destruct (decide (bn' = bn)) as [->|Hne].
  - by rewrite (bview_hit _ _ _ _ _ bread_inv Hb' Hkey' Hvalid').
  - eapply bview_update; [done|apply bread_inv|done|done|congruence|by apply disk_of_eq|].
    intros [Hd <-] Hv. destruct Hwhich as [[_ ?]|[Hcl _]]; [done|].
    eapply (bi_sync _ _ Hinv); try done. apply bread_not_held.
Qed.

Lemma bread_dirty bn' : bdirty k' bn' ↔ bdirty k bn'.
Proof.
  assert (Hlt : (b < length (k_bc k))%nat) by (by eapply lookup_lt_Some, Hb).
  split; intros (j & bj & Hj & Hk & Hd).
  - destruct (isbuf_insert _ _ _ _ _ _ Hbc Hj) as [[-> ->]|[Hne Hj']]; [|by exists j, bj].
    exists b, bf. rewrite <-Hdirty'. split_and!; [done| |done].
    destruct Hwhich as [Hk0|[Hcl _]]; [|congruence]. destruct Hk, Hk0, Hkey'. unfold keyed. split; congruence.
  - destruct (decide (j = b)) as [->|Hne].
    + rewrite (isbuf_fun _ _ _ _ Hj Hb) in *. exists b, bf'. split_and!; [|..|congruence].
      * split; [apply Hb|]. rewrite Hbc. by apply list_lookup_insert_eq.
      * destruct Hwhich as [Hk0|[Hcl _]]; [|congruence]. destruct Hk, Hk0, Hkey'. unfold keyed. split; congruence.
    + exists j, bj. split_and!; [|done..]. destruct Hj. split; [done|]. by rewrite Hbc, list_lookup_insert_ne.
Qed.

Lemma bread_done :
  bframe k k' → ide_trace (k_ide k') = ide_trace (k_ide k) →
  bio_inv (b :: H) k' ∧ (b ∉ H) ∧ bkeep k k' ∧ same_held H k k' ∧ holds k' b bn (bview k bn).
Proof.
  intros Hfr Htr. split_and!; auto using bread_inv, bread_not_held.
  - split_and!; auto using bread_view, bread_dirty.
  - eapply same_held_insert; [done|apply bread_not_held].
  - exists bf'. split_and!; [|done..]. split; [apply Hb|]. rewrite Hbc. apply list_lookup_insert_eq.
    by eapply lookup_lt_Some, Hb.
Qed.
End bread_effect.

(** Block [bn] is not cached, and every buffer is in use or holds changes that
    are not on the disk yet. *)
Definition cache_full (k : kernel) (bn : Z) : Prop :=
  ∀ i bf, isbuf k i bf → ¬ keyed bn bf ∧ busy bf || dirty bf = true.

(** The facts about [bget]'s buffer that [bread] goes on with. *)
Lemma bget_buf_facts bn bf bf1 :
  bget_buf bn bf bf1 →
  b_next bf1 = b_next bf ∧ b_prev bf1 = b_prev bf ∧ keyed bn bf1 ∧ busy bf1 = true ∧
  b_data bf1 = b_data bf ∧ dirty bf1 = dirty bf ∧ (valid bf1 = true → keyed bn bf ∧ valid bf = true) ∧
  (keyed bn bf → valid bf1 = valid bf).
Proof.
  unfold bget_buf, busy, dirty, valid, keyed. intros [[Hk ->]|(Hk & Hd & ->)]; cbn; flags.
  - by destruct Hk.
  - by rewrite Hd.
Qed.

Lemma iderw_buf_facts d bf :
  busy (iderw_buf d bf) = busy bf ∧ valid (iderw_buf d bf) = true ∧ dirty (iderw_buf d bf) = false.
Proof. unfold busy, valid, dirty. cbn. flags. done. Qed.

Lemma wp_bread p H bn k E Q :
  ready p k → bio_inv H k → 0 <= bn < FSSIZE →
  (∀ i bf, isbuf k i bf → keyed bn bf → i ∉ H) →
  (cache_full k bn → E "bget: no buffers") →
  (∀ b k', ready p k' → bio_inv (b :: H) k' ∧ (b ∉ H) ∧ bkeep k k' ∧ same_held H k k' ∧
     holds k' b bn (bview k bn) → Q b k') →
  wp (bread ROOTDEV bn) E Q k.
Proof.
  intros [Hrun Hide] Hinv Hbn Hnh HE HQ. destruct (bi_ring _ _ Hinv) as [l Hring].
  unfold bread. wp_steps. pose proof Hrun as [Hm Hq].
  eapply wp_bget; [done|done| | |].
  { intros i bf Hi Hb Hk. destruct (busy bf) eqn:Hbusy; [|done].
    exfalso. apply (Hnh i bf); [done..|]. by apply (bi_busy _ _ Hinv i bf). }
  { intros Hfull. apply HE. intros i bf [Hi Hb]. by apply (Hfull i). }
  intros b bf bf1 m1 Hm1 Hlt Hb Hfree Hget Hno. assert (Hib : isbuf k b bf) by done.
  assert (Hlen : (b < length (k_bc k))%nat) by (by eapply lookup_lt_Some).
  assert (Hwhich : keyed bn bf ∨ dirty bf = false ∧ ∀ i bi, isbuf k i bi → ¬ keyed bn bi).
  { destruct Hget as [[? _]|(_ & Hd & _)]; [by left|]. destruct Hno as [?|Hno]; [by left|].
    right. split; [done|]. intros i bi [? ?]. by apply (Hno i). }
  apply bget_buf_facts in Hget as (Hn1 & Hp1 & Hk1 & Hbusy1 & Hd1 & Hdirty1 & Hv1 & Hv2).
  wp_steps. eapply wp_getbuf; [by apply list_lookup_insert_eq|]. rewrite hasf_valid. fold (valid bf1).
  destruct (valid bf1) eqn:Hvalid; cbn [negb when]; wp_steps.
  - destruct (Hv1 eq_refl) as [Hk Hv]. apply HQ; [done|].
    apply (bread_done H k _ b bf bf1 bn); try done.
    + by rewrite Hd1, (bview_hit _ _ _ _ _ Hinv Hib Hk Hv).
    + rewrite Hd1. by eapply (bi_len _ _ Hinv).
  - assert (Hmiss : bview k bn = disk_of k bn).
    { apply bview_miss. intros i bi Hi Hk. destruct Hwhich as [Hk'|[_ Hn]]; [|by destruct (Hn i bi)].
      assert (i = b) as -> by (by apply (bi_uniq _ _ Hinv _ _ _ _ bn Hi Hib)).
      rewrite (isbuf_fun _ _ _ _ Hi Hib) in *. by rewrite <-Hv2. }
    assert (Hcl : dirty bf1 = false).
    { rewrite Hdirty1. destruct (dirty bf) eqn:Hdy; [|done]. destruct Hwhich as [Hk|[? _]]; [|done].
      specialize (Hv2 Hk). rewrite (bi_dirty _ _ Hinv b bf) in Hv2; congruence. }
    destruct Hk1 as [Hkd Hkn].
    eapply (wp_iderw p); [done|by apply list_lookup_insert_eq|by rewrite Hkn|done| |done|].
    { unfold valid, dirty in *. by rewrite Hvalid. }
    intros m2 pt2 d2 Hrun2 Hpt2 [Hide2 Hd2]. wp_steps. unfold dirty in Hcl. rewrite Hcl in Hd2.
    destruct Hd2 as [Hdk Htr]. 
    eapply HQ; [done|]. eapply (bread_done H k _ b bf (iderw_buf (k_ide k) bf1) bn); try done.
    all: pose proof (iderw_buf_facts (k_ide k) bf1) as (Hf1 & Hf2 & Hf3).
    + cbn. by rewrite list_insert_insert_eq.
    + by rewrite Hf1.
    + done.
    + by rewrite Hf3, <-Hdirty1.
    + rewrite Hmiss. cbn. by rewrite Hcl, Hkd, Hkn.
    + cbn. rewrite Hcl. apply (bi_disk _ _ Hinv).
Qed.

(** ** [bwrite] *)

(** The block layer has written [d] to block [bn]; [bn]'s contents were [d]
    already. *)
Definition bwrote (bn : Z) (d : block) (k k' : kernel) : Prop :=
  bframe k k' ∧
  ide_disk (k_ide k') = <[(1, bn) := d]> (ide_disk (k_ide k)) ∧
  ide_trace (k_ide k') = ide_trace (k_ide k) ++ [((1, bn), d)] ∧
  (∀ bn, bview k' bn = bview k bn) ∧ (∀ bn', bdirty k' bn' ↔ bdirty k bn' ∧ bn' ≠ bn).

Lemma disk_get_insert dk u s d u' s' :
  disk_get (<[(u, s) := d]> dk) u' s' = if decide ((u', s') = (u, s)) then d else disk_get dk u' s'.
Proof.
  unfold disk_get. destruct (decide _) as [Heq|Hne].
  - rewrite Heq. by rewrite lookup_insert_eq.
  - by rewrite lookup_insert_ne.
Qed.

Section bwrite_effect.
Context (H : list nat) (k k' : kernel) (b : nat) (bf bf' : buf) (bn : Z) (d : block).
Hypothesis Hinv : bio_inv H k.
Hypothesis Hb : isbuf k b bf.
Hypothesis Hin : b ∈ H.
Hypothesis Hkey : keyed bn bf.
Hypothesis Hvalid : valid bf = true.
Hypothesis Hdata : b_data bf = d.
Hypothesis Hbn : 0 <= bn < FSSIZE.
Hypothesis Hbc : k_bc k' = <[b := bf']> (k_bc k).
Hypothesis Hnext : b_next bf' = b_next bf.
Hypothesis Hprev : b_prev bf' = b_prev bf.
Hypothesis Hkey' : keyed bn bf'.
Hypothesis Hbusy' : busy bf' = true.
Hypothesis Hvalid' : valid bf' = true.
Hypothesis Hdirty' : dirty bf' = false.
Hypothesis Hdata' : b_data bf' = d.
Hypothesis Hdisk : ide_disk (k_ide k') = <[(1, bn) := d]> (ide_disk (k_ide k)).

Lemma bwrite_disk bn' : disk_of k' bn' = if decide (bn' = bn) then d else disk_of k bn'.
Proof.
  unfold disk_of. rewrite Hdisk, disk_get_insert.
  destruct (decide (bn' = bn)) as [->|]; [by rewrite decide_True|]. rewrite decide_False; congruence.
Qed.

Lemma bwrite_isbuf : isbuf k' b bf'.
Proof.
  split; [apply Hb|]. rewrite Hbc. apply list_lookup_insert_eq. by eapply lookup_lt_Some, Hb.
Qed.

Lemma bwrite_inv : bio_inv H k'.
Proof.
  destruct Hkey' as [Hdev Hno].
  eapply (bio_inv_update H H k k' b bf bf'); try done.
  - apply (bi_nodup _ _ Hinv).
  - apply (bi_lt _ _ Hinv).
  - by rewrite Hno.
  - intros j bj Hne Hj Hk. rewrite Hno in Hk. by apply Hne, (bi_uniq _ _ Hinv _ _ _ _ bn Hj Hb).
  - rewrite Hdata', <-Hdata. by eapply (bi_len _ _ Hinv).
  - intros bn' Hne. rewrite bwrite_disk. rewrite decide_False; congruence.
  - intros u s. rewrite Hdisk, disk_get_insert. case_decide; [|apply (bi_disk _ _ Hinv)].
    rewrite <-Hdata. by eapply (bi_len _ _ Hinv).
Qed.

Lemma bwrite_view bn' : bview k' bn' = bview k bn'.
Proof.
  destruct Hkey' as [Hdev Hno]. destruct (decide (bn' = bn)) as [->|Hne].
  - rewrite (bview_hit _ _ _ _ _ bwrite_inv bwrite_isbuf Hkey' Hvalid').
    by rewrite (bview_hit _ _ _ _ _ Hinv Hb Hkey Hvalid), Hdata.
  - eapply bview_update; [done|apply bwrite_inv|done|done|congruence| |].
    + rewrite bwrite_disk. by rewrite decide_False.
    + intros [_ Hk]. destruct Hkey. congruence.
Qed.

Lemma bwrite_dirty bn' : bdirty k' bn' ↔ bdirty k bn' ∧ bn' ≠ bn.
Proof.
  split.
  - intros (j & bj & Hj & Hk & Hd).
    destruct (isbuf_insert _ _ _ _ _ _ Hbc Hj) as [[-> ->]|[Hne Hj']]; [congruence|].
    split; [by exists j, bj|]. intros ->. by apply Hne, (bi_uniq _ _ Hinv _ _ _ _ bn Hj' Hb).
  - intros [(j & bj & Hj & Hk & Hd) Hne]. exists j, bj. split_and!; [|done..].
    destruct (decide (j = b)) as [->|Hjb].
    { rewrite (isbuf_fun _ _ _ _ Hj Hb) in *. destruct Hk, Hkey. congruence. }
    destruct Hj. split; [done|]. by rewrite Hbc, list_lookup_insert_ne.
Qed.

Lemma bwrite_done :
  bframe k k' → ide_trace (k_ide k') = ide_trace (k_ide k) ++ [((1, bn), d)] →
  bio_inv H k' ∧ bwrote bn d k k' ∧ same_held (filter (.≠ b) H) k k' ∧ holds k' b bn d.
Proof.
  intros Hfr Htr. split_and!; auto using bwrite_inv.
  - split_and!; auto using bwrite_view, bwrite_dirty.
  - eapply same_held_insert; [done|]. rewrite list_elem_of_filter. tauto.
  - exists bf'. split_and!; auto using bwrite_isbuf.
Qed.
End bwrite_effect.

Lemma wp_bwrite p H b bn d k E Q :
  ready p k → bio_inv H k → b ∈ H → holds k b bn d →
  (∀ k', ready p k' → bio_inv H k' ∧ bwrote bn d k k' ∧ same_held (filter (.≠ b) H) k k' ∧
     holds k' b bn d → Q tt k') →
  wp (bwrite b) E Q k.
Proof.
  intros [Hrun Hide] Hinv Hin (bf & Hb & [Hdev Hno] & Hv & Hd) HQ.
  assert (Hbusy : busy bf = true) by (by apply (bi_busy _ _ Hinv b bf)).
  assert (Hlt : (b < length (k_bc k))%nat) by (by eapply lookup_lt_Some, Hb).
  assert (Hbn : 0 <= b_blockno bf < FSSIZE).
  { destruct (bi_key _ _ Hinv b bf Hb) as [[_ ?]|(? & _)]; [done|congruence]. }
  unfold bwrite. wp_steps. eapply wp_getbuf; [apply Hb|]. rewrite hasf_busy. fold (busy bf).
  rewrite Hbusy. cbn [negb]. wp_steps. eapply wp_updbuf; [apply Hb|].
  set (bf1 := set_b_flags _ bf).
  assert (Hdirty1 : Z.testbit (b_flags bf1) 2 = true) by (subst bf1; cbn; by flags).
  assert (Hbusy1 : busy bf1 = true) by (subst bf1; unfold busy in *; cbn; by flags).
  eapply (wp_iderw p); [done|by apply list_lookup_insert_eq|done|done| |done|].
  { rewrite Hdirty1. apply andb_false_r. }
  intros m2 pt2 d2 Hrun2 Hpt2 [Hide2 Hd2]. rewrite Hdirty1 in Hd2. destruct Hd2 as [Hdk Htr].
  apply HQ; [done|]. destruct (iderw_buf_facts (k_ide k) bf1) as (Hf1 & Hf2 & Hf3).
  rewrite <-Hno, <-Hd. change (b_dev bf1) with (b_dev bf) in *. rewrite Hdev in *.
  eapply (bwrite_done H k _ b bf (iderw_buf (k_ide k) bf1)); try done.
  - cbn -[bf1]. by rewrite list_insert_insert_eq.
  - by rewrite Hf1.
  - cbn -[bf1]. by rewrite Hdirty1.
Qed.

(** ** [brelse] *)

(** The link assignments, on the array: inserting at the front, and the six
    of [brelse]. *)
Definition push_links (b : nat) (bc : bcache) : bcache :=
  let bc1 := alter (set_b_next (nxt bc HEAD)) b bc in
  let bc2 := alter (set_b_prev HEAD) b bc1 in
  let bc3 := alter (set_b_prev b) (nxt bc2 HEAD) bc2 in
  alter (set_b_next b) HEAD bc3.
Definition brelse_links (b : nat) (bc : bcache) : bcache :=
  let bc1 := alter (set_b_prev (prv bc b)) (nxt bc b) bc in
  let bc2 := alter (set_b_next (nxt bc1 b)) (prv bc1 b) bc1 in
  push_links b bc2.

Lemma nxt_alter_next bc i v j : (i < length bc)%nat →
  nxt (alter (set_b_next v) i bc) j = lupd (nxt bc) i v j.
Proof.
  intros Hi. destruct (lookup_lt_is_Some_2 _ _ Hi) as [x Hx].
  rewrite (alter_to_insert _ _ _ x Hx), nxt_insert by done. done.
Qed.
Lemma prv_alter_prev bc i v j : (i < length bc)%nat →
  prv (alter (set_b_prev v) i bc) j = lupd (prv bc) i v j.
Proof.
  intros Hi. destruct (lookup_lt_is_Some_2 _ _ Hi) as [x Hx].
  rewrite (alter_to_insert _ _ _ x Hx), prv_insert by done. done.
Qed.
Lemma nxt_alter_prev bc i v j : nxt (alter (set_b_prev v) i bc) j = nxt bc j.
Proof.
  unfold nxt. destruct (decide (i = j)) as [->|].
  - rewrite list_lookup_alter_eq. by destruct (bc !! j).
  - by rewrite list_lookup_alter_ne.
Qed.
Lemma prv_alter_next bc i v j : prv (alter (set_b_next v) i bc) j = prv bc j.
Proof.
  unfold prv. destruct (decide (i = j)) as [->|].
  - rewrite list_lookup_alter_eq. by destruct (bc !! j).
  - by rewrite list_lookup_alter_ne.
Qed.
Lemma strip_alter (f : buf → buf) (bc : bcache) (i j : nat) :
  (∀ x, strip (f x) = strip x) → strip <$> alter f i bc !! j = strip <$> bc !! j.
Proof.
  intros Hf. destruct (decide (i = j)) as [->|].
  - rewrite list_lookup_alter_eq. destruct (bc !! j); simpl; by rewrite ?Hf.
  - by rewrite list_lookup_alter_ne.
Qed.

Lemma strip_brelse_links b bc j : strip <$> brelse_links b bc !! j = strip <$> bc !! j.
Proof. unfold brelse_links, push_links. by rewrite !strip_alter by done. Qed.

Lemma ring_lookup bc l i : ring bc l → i ∈ l → (nxt bc i < length bc)%nat ∧ (prv bc i < length bc)%nat.
Proof.
  intros (Hlen & _ & Hin & Hpath) (l1 & l2 & ->)%list_elem_of_split.
  apply path_app in Hpath as [H1 H2]. rewrite (path_nx _ _ _ _ _ H2), (path_pv _ _ _ _ _ H1), Hlen.
  split.
  - destruct l2 as [|x l2]; cbn; [lia|]. assert (x < HEAD)%nat by (apply Hin; set_solver). lia.
  - destruct l1 as [|x l1 _] using rev_ind; [cbn; lia|]. rewrite last_snoc. cbn.
    assert (x < HEAD)%nat by (apply Hin; set_solver). lia.
Qed.

(** The links after the assignments. *)
Lemma push_links_spec b bc :
  (b < length bc)%nat → (HEAD < length bc)%nat → b ≠ HEAD → (nxt bc HEAD < length bc)%nat →
  (∀ z, nxt (push_links b bc) z = lupd (lupd (nxt bc) b (nxt bc HEAD)) HEAD b z) ∧
  (∀ z, prv (push_links b bc) z = lupd (lupd (prv bc) b HEAD) (nxt bc HEAD) b z).
Proof.
  intros Hb Hh Hne Hnh. unfold push_links. set (bc2 := alter (set_b_prev HEAD) b _).
  assert (Hl : length bc2 = length bc) by (subst bc2; by rewrite !length_alter).
  assert (H2 : (∀ z, nxt bc2 z = lupd (nxt bc) b (nxt bc HEAD) z) ∧ ∀ z, prv bc2 z = lupd (prv bc) b HEAD z).
  { subst bc2. split; intros z.
    - by rewrite nxt_alter_prev, nxt_alter_next.
    - rewrite prv_alter_prev by (by rewrite length_alter). unfold lupd.
      case_decide; [done|]. by rewrite prv_alter_next. }
  destruct H2 as [Hn2 Hp2]. clearbody bc2.
  assert (Hnh2 : nxt bc2 HEAD = nxt bc HEAD) by (rewrite Hn2; by apply lupd_ne).
  rewrite Hnh2. split; intros z.
  - rewrite nxt_alter_next by (rewrite length_alter; lia). unfold lupd at 1 2. case_decide; [done|].
    by rewrite nxt_alter_prev, Hn2.
  - rewrite prv_alter_next, prv_alter_prev by lia. unfold lupd at 1 2. by case_decide.
Qed.

Lemma brelse_links_spec b bc :
  (b < length bc)%nat → (HEAD < length bc)%nat → b ≠ HEAD → b ≠ nxt bc b →
  (nxt bc b < length bc)%nat → (prv bc b < length bc)%nat → (nxt bc HEAD < length bc)%nat →
  let nx := lupd (nxt bc) (prv bc b) (nxt bc b) in
  let pv := lupd (prv bc) (nxt bc b) (prv bc b) in
  (∀ z, nxt (brelse_links b bc) z = lupd (lupd nx b (nx HEAD)) HEAD b z) ∧
  (∀ z, prv (brelse_links b bc) z = lupd (lupd pv b HEAD) (nx HEAD) b z).
Proof.
  intros Hb Hh Hne Hbn Hn Hp Hnh nx pv. unfold brelse_links.
  set (bc1 := alter (set_b_prev (prv bc b)) _ bc).
  assert (Hp1 : prv bc1 b = prv bc b).
  { subst bc1. by rewrite prv_alter_prev, lupd_ne. }
  set (bc2 := alter (set_b_next (nxt bc1 b)) _ bc1).
  assert (Hl2 : length bc2 = length bc) by (subst bc1 bc2; by rewrite !length_alter).
  assert (H2 : (∀ z, nxt bc2 z = nx z) ∧ ∀ z, prv bc2 z = pv z).
  { subst bc2 bc1 nx pv. split; intros z.
    - rewrite nxt_alter_next by (rewrite length_alter, Hp1; done). rewrite Hp1, nxt_alter_prev.
      unfold lupd. case_decide; [done|apply nxt_alter_prev].
    - by rewrite prv_alter_next, prv_alter_prev. }
  destruct H2 as [Hn2 Hp2].
  assert (Hnx : (nxt bc2 HEAD < length bc2)%nat).
  { rewrite Hn2, Hl2. unfold nx, lupd. by case_decide. }
  destruct (push_links_spec b bc2) as [Hs1 Hs2]; [lia..|]. rewrite Hn2 in Hs1, Hs2.
  split; intros z; [rewrite Hs1|rewrite Hs2]; unfold lupd; repeat case_decide; auto.
Qed.

(** [brelse] moves its buffer to the front. *)
Lemma ring_brelse b bc l1 l2 :
  ring bc (l1 ++ b :: l2) → ring (brelse_links b bc) (b :: l1 ++ l2).
Proof.
  intros Hring. pose proof Hring as (Hlen & Hnd & Hin & Hpath).
  pose proof (ring_head _ _ Hring) as Hh.
  destruct (ring_lookup _ _ b Hring) as [Hn Hp]; [set_solver|].
  assert (Hb : (b < HEAD)%nat) by (apply Hin; set_solver).
  assert (Hnh : (nxt bc HEAD < length bc)%nat).
  { rewrite (path_nx _ _ _ _ _ Hpath), Hlen. destruct l1 as [|x l1]; cbn; [lia|].
    assert (x < HEAD)%nat by (apply Hin; set_solver). lia. }
  assert (Hbn : b ≠ nxt bc b).
  { apply path_app in Hpath as [_ H2]. rewrite (path_nx _ _ _ _ _ H2).
    apply NoDup_app in Hnd as (_ & _ & Hnd). apply NoDup_cons in Hnd as [Hnd _].
    destruct l2; cbn; [lia|set_solver]. }
  apply path_unlink in Hpath as Hpath1; [|done..].
  assert (Hnd' : NoDup (b :: l1 ++ l2)) by (by rewrite Permutation_middle).
  apply NoDup_cons in Hnd' as [Hbl Hnd1].
  eapply (path_push _ _ _ _ b) in Hpath1; [|lia|done|set_solver|done].
  destruct (brelse_links_spec b bc) as [Hs1 Hs2]; [lia..|]. split_and!.
  - unfold brelse_links, push_links. by rewrite !length_alter.
  - by apply NoDup_cons.
  - intros i. rewrite <-Hin. set_solver.
  - by eapply path_ext; [..|exact Hpath1].
Qed.

(** States whose buffers differ in the links only. *)
Section relink.
Context (k k' : kernel).
Hypothesis Hstrip : ∀ j, strip <$> k_bc k' !! j = strip <$> k_bc k !! j.
Hypothesis Hdisk : ide_disk (k_ide k') = ide_disk (k_ide k).

Lemma relink_buf j bj : isbuf k' j bj → ∃ bj', isbuf k j bj' ∧ strip bj' = strip bj.
Proof.
  intros [Hj Hb]. specialize (Hstrip j). rewrite Hb in Hstrip. unfold isbuf.
  destruct (k_bc k !! j) as [bj'|] eqn:Hb'; [|done]. simpl in Hstrip. exists bj'. split_and!; congruence.
Qed.

Lemma relink_inv H l : ring (k_bc k') l → bio_inv H k → bio_inv H k'.
Proof.
  intros Hring Hinv. split; try apply Hinv; [by exists l| | | | | | |].
  - intros i bf (bf' & Hb & (Hf & _)%strip_eq)%relink_buf. unfold busy. rewrite <-Hf.
    by apply (bi_busy _ _ Hinv).
  - intros i bf (bf' & Hb & (Hf & Hd & Hn & _)%strip_eq)%relink_buf. unfold valid, dirty.
    rewrite <-Hf, <-Hd, <-Hn. by apply (bi_key _ _ Hinv i).
  - intros i j bi bj bn (bi' & Hbi & (_ & Hdi & Hni & _)%strip_eq)%relink_buf
      (bj' & Hbj & (_ & Hdj & Hnj & _)%strip_eq)%relink_buf. unfold keyed.
    rewrite <-Hdi, <-Hni, <-Hdj, <-Hnj. by apply (bi_uniq _ _ Hinv).
  - intros i bf (bf' & Hb & (_ & _ & _ & Hd)%strip_eq)%relink_buf. rewrite <-Hd.
    by apply (bi_len _ _ Hinv i).
  - intros i bf (bf' & Hb & (Hf & _)%strip_eq)%relink_buf. unfold valid, dirty. rewrite <-Hf.
    by apply (bi_dirty _ _ Hinv i).
  - intros i bf (bf' & Hb & (Hf & _ & Hn & Hd)%strip_eq)%relink_buf. unfold valid, dirty.
    rewrite <-Hf, <-Hn, <-Hd, (disk_of_eq _ _ _ Hdisk). by apply (bi_sync _ _ Hinv i).
  - rewrite Hdisk. apply (bi_disk _ _ Hinv).
Qed.

Lemma relink_dirty1 bn : bdirty k' bn → bdirty k bn.
Proof.
  intros (j & bj & (bj' & Hj & (Hf & Hd & Hn & _)%strip_eq)%relink_buf & Hk & Hdy). exists j, bj'.
  unfold keyed, dirty in *. rewrite Hf, Hd, Hn. done.
Qed.

Lemma relink_view1 H bn : bio_inv H k → bio_inv H k' → bview k' bn = bview k bn.
Proof.
  intros Hinv Hinv'. destruct (bview_cases k' bn) as [(j & bj & Hj & Hk & Hv)|Hmiss].
  - rewrite (bview_hit _ _ _ _ _ Hinv' Hj Hk Hv).
    destruct (relink_buf _ _ Hj) as (bj' & Hj' & (Hf & Hd & Hn & Hdt)%strip_eq).
    unfold keyed, valid in *. rewrite <-Hf in Hv. rewrite <-Hd, <-Hn in Hk.
    by rewrite (bview_hit _ _ _ _ _ Hinv Hj' Hk Hv).
  - rewrite (bview_miss _ _ Hmiss), (disk_of_eq _ _ _ Hdisk). symmetry. apply bview_miss.
    intros i bf [Hi Hb] Hk. specialize (Hstrip i). rewrite Hb in Hstrip.
    destruct (k_bc k' !! i) as [bi|] eqn:Hbi; [|done]. simpl in Hstrip.
    assert (strip bi = strip bf) as (Hf & Hd & Hn & _)%strip_eq by congruence.
    unfold keyed, valid in *. rewrite <-Hf. rewrite <-Hd, <-Hn in Hk. by apply (Hmiss i bi).
Qed.
End relink.

(** Clearing B_BUSY. *)
Lemma unbusy_effect H k k' b bf :
  bio_inv H k → isbuf k b bf → valid bf = true →
  (dirty bf = true ∨ b_data bf = disk_of k (b_blockno bf)) →
  k_bc k' = <[b := set_b_flags (Z.ldiff (b_flags bf) B_BUSY) bf]> (k_bc k) →
  ide_disk (k_ide k') = ide_disk (k_ide k) →
  bio_inv (filter (.≠ b) H) k' ∧ (∀ bn, bview k' bn = bview k bn) ∧ (∀ bn, bdirty k' bn ↔ bdirty k bn).
Proof.
  intros Hinv Hb Hv Hs Hbc Hdisk. set (bf' := set_b_flags _ bf) in *.
  assert (Hf : busy bf' = false ∧ valid bf' = valid bf ∧ dirty bf' = dirty bf).
  { subst bf'. unfold busy, valid, dirty. cbn. by flags. }
  destruct Hf as (Hbusy' & Hv' & Hd').
  assert (Hkey : b_dev bf = ROOTDEV ∧ 0 <= b_blockno bf < FSSIZE).
  { destruct (bi_key _ _ Hinv b bf Hb) as [?|[? _]]; [done|congruence]. }
  assert (Hb' : isbuf k' b bf').
  { split; [apply Hb|]. rewrite Hbc. apply list_lookup_insert_eq. by eapply lookup_lt_Some, Hb. }
  assert (Hinv' : bio_inv (filter (.≠ b) H) k').
  { eapply (bio_inv_update H _ k k' b bf bf'); try done.
    - apply NoDup_filter, (bi_nodup _ _ Hinv).
    - intros j [_ Hj]%list_elem_of_filter. by apply (bi_lt _ _ Hinv).
    - intros j Hj. rewrite list_elem_of_filter. tauto.
    - rewrite list_elem_of_filter. split; [congruence|tauto].
    - intros j bj Hne Hj Hk.
      exact (Hne (bi_uniq _ _ Hinv _ _ _ _ (b_blockno bf) Hj Hb Hk (conj (proj1 Hkey) eq_refl))).
    - exact (bi_len _ _ Hinv b bf Hb).
    - rewrite Hv', Hd'. by apply (bi_dirty _ _ Hinv b).
    - intros _ _ Hd. rewrite (disk_of_eq _ _ _ Hdisk). destruct Hs as [Hs|Hs]; [congruence|done].
    - intros. by apply disk_of_eq.
    - rewrite Hdisk. apply (bi_disk _ _ Hinv). }
  split_and!; [done|..].
  - intros bn. destruct (decide (bn = b_blockno bf)) as [->|Hne].
    + assert (Hk : keyed (b_blockno bf) bf) by (split; [apply Hkey|done]).
      rewrite <-Hv' in Hv. rewrite (bview_hit _ _ _ b bf' Hinv' Hb' Hk Hv).
      rewrite Hv' in Hv. by rewrite (bview_hit _ _ _ b bf Hinv Hb Hk Hv).
    + eapply bview_update; [done|done|done|done|done|by apply disk_of_eq|].
      intros [_ Hk]. congruence.
  - intros bn. split; intros (j & bj & Hj & Hk & Hdj).
    + destruct (isbuf_insert _ _ _ _ _ _ Hbc Hj) as [[-> ->]|[Hne Hj']]; [|by exists j, bj].
      exists b, bf. rewrite <-Hd'. done.
    + destruct (decide (j = b)) as [->|Hne].
      * rewrite (isbuf_fun _ _ _ _ Hj Hb) in *. exists b, bf'. rewrite Hd'. done.
      * exists j, bj. split_and!; [|done..]. destruct Hj. split; [done|]. by rewrite Hbc, list_lookup_insert_ne.
Qed.

Lemma wp_getbuf_any b k E Q :
  (b < length (k_bc k))%nat → (∀ bf, k_bc k !! b = Some bf → Q bf k) → wp (getbuf b) E Q k.
Proof. intros [bf Hb]%lookup_lt_is_Some HQ. eapply wp_getbuf; eauto. Qed.

Lemma wp_updbuf_alter b f k E Q : Q tt (set_bc (alter f b (k_bc k)) k) → wp (updbuf b f) E Q k.
Proof. intros. unfold updbuf. by wp_step. Qed.

(** The effect of [brelse] on the array. *)
Definition unbusy (x : buf) : buf := set_b_flags (Z.ldiff (b_flags x) B_BUSY) x.

Lemma brelse_effect H k k' b bf :
  bio_inv H k → isbuf k b bf → valid bf = true →
  (dirty bf = true ∨ b_data bf = disk_of k (b_blockno bf)) →
  k_bc k' = alter unbusy b (brelse_links b (k_bc k)) → ide_disk (k_ide k') = ide_disk (k_ide k) →
  bio_inv (filter (.≠ b) H) k' ∧ (∀ bn, bview k' bn = bview k bn) ∧ (∀ bn, bdirty k' bn ↔ bdirty k bn) ∧
  same_held (filter (.≠ b) H) k k'.
Proof.
  intros Hinv Hb Hv Hs Hbc Hdisk. destruct (bi_ring _ _ Hinv) as [l Hring].
  assert (Hbl : b ∈ l) by (apply Hring, Hb). apply list_elem_of_split in Hbl as (l1 & l2 & ->).
  pose proof (ring_brelse _ _ _ _ Hring) as Hring'.
  set (k1 := set_bc (brelse_links b (k_bc k)) k).
  assert (Hst : ∀ j, strip <$> k_bc k1 !! j = strip <$> k_bc k !! j) by apply strip_brelse_links.
  assert (Hinv1 : bio_inv H k1) by (by eapply (relink_inv k k1)).
  destruct (relink_buf k1 k (λ j, eq_sym (Hst j)) b bf Hb)
    as (bf1 & Hb1 & (Hst1 & Hst2 & Hst3 & Hst4)%strip_eq).
  assert (Hbc' : k_bc k' = <[b := unbusy bf1]> (k_bc k1)).
  { rewrite Hbc. apply alter_to_insert, Hb1. }
  destruct (unbusy_effect H k1 k' b bf1) as (Hinv2 & Hv2 & Hd2); try done.
  { unfold valid. by rewrite Hst1. }
  { unfold dirty. by rewrite Hst1, Hst3, Hst4. }
  split_and!; [done|..].
  - intros bn. rewrite Hv2. by eapply relink_view1.
  - intros bn. rewrite Hd2. split; by apply relink_dirty1.
  - intros j [Hj _]%list_elem_of_filter. rewrite Hbc', list_lookup_insert_ne by done. apply Hst.
Qed.

Lemma running_wakeup p m ch k :
  running p k → at_mach [] (Some p) m →
  running p (set_mach m (set_pt (set_procs (map (wakeup1_proc ch)) (k_pt k)) k)).
Proof.
  intros [_ (q & Hq & Hs & Hg)] Hm. split; [done|]. exists q. cbn. rewrite list_lookup_fmap, Hq. cbn.
  unfold wakeup1_proc. rewrite bool_decide_false; [done|]. intros [? _]. congruence.
Qed.

(** The run of [brelse]. *)
Lemma wp_brelse_run pr b bf k E (Q : unit → kernel → Prop) :
  at_mach [] pr (k_mach k) → length (k_bc k) = S HEAD → isbuf k b bf → busy bf = true →
  (∀ m', at_mach [] pr m' → Q tt (set_mach m' (set_pt (set_procs (map (wakeup1_proc (ChBuf b))) (k_pt k))
     (set_bc (alter unbusy b (brelse_links b (k_bc k))) k)))) →
  wp (brelse b) E Q k.
Proof.
  intros Hm Hlen Hb Hbusy HQ. pose proof (proj1 Hb) as Hlt.
  unfold brelse. wp_steps. eapply wp_getbuf; [apply Hb|]. rewrite hasf_busy. fold (busy bf).
  rewrite Hbusy. cbn [negb]. wp_steps.
  eapply wp_acquire; [exact Hm|nolock|]. intros m1 Hm1. wp_steps.
  eapply wp_getbuf_any; [cbn; lia|]. intros x1 Hx1. rewrite <-(nxt_lookup _ _ _ Hx1), <-(prv_lookup _ _ _ Hx1).
  wp_steps. apply wp_updbuf_alter. wp_steps.
  eapply wp_getbuf_any; [cbn; rewrite length_alter; lia|]. intros x2 Hx2.
  rewrite <-(nxt_lookup _ _ _ Hx2), <-(prv_lookup _ _ _ Hx2). wp_steps. apply wp_updbuf_alter. wp_steps.
  eapply wp_getbuf_any; [cbn; rewrite !length_alter; lia|]. intros x3 Hx3.
  rewrite <-(nxt_lookup _ _ _ Hx3). wp_steps. apply wp_updbuf_alter. wp_steps.
  apply wp_updbuf_alter. wp_steps.
  eapply wp_getbuf_any; [cbn; rewrite !length_alter; lia|]. intros x4 Hx4.
  rewrite <-(nxt_lookup _ _ _ Hx4). wp_steps. apply wp_updbuf_alter. wp_steps.
  apply wp_updbuf_alter. wp_steps. apply wp_updbuf_alter. wp_steps.
  eapply wp_wakeup; [exact Hm1|nolock|]. intros m2 Hm2. wp_steps.
  eapply wp_release; [exact Hm2|]. intros m3 Hm3. specialize (HQ m3 Hm3). kexact HQ.
Qed.

Lemma wp_brelse p H b bf k E Q :
  ready p k → bio_inv H k → b ∈ H → isbuf k b bf → valid bf = true →
  (dirty bf = true ∨ b_data bf = disk_of k (b_blockno bf)) →
  (∀ k', ready p k' → bio_inv (filter (.≠ b) H) k' ∧ bkeep k k' ∧ same_held (filter (.≠ b) H) k k' → Q tt k') →
  wp (brelse b) E Q k.
Proof.
  intros [Hrun Hide] Hinv Hin Hb Hv Hs HQ. destruct (bi_ring _ _ Hinv) as [l (Hlen & _)].
  assert (Hbusy : busy bf = true) by (by apply (bi_busy _ _ Hinv b bf)).
  eapply wp_brelse_run; [apply Hrun|done|done|done|]. intros m3 Hm3.
  destruct (brelse_effect H k (set_mach m3 (set_pt (set_procs (map (wakeup1_proc (ChBuf b))) (k_pt k))
    (set_bc (alter unbusy b (brelse_links b (k_bc k))) k))) b bf) as (Hinv2 & Hv2 & Hd2 & Hh); try done.
  apply HQ.
  - split; [|done]. apply (running_wakeup p m3 (ChBuf b)) in Hrun; done.
  - split_and!; [done| |done]. split_and!; try done. split_and!; [apply pt_sim_wakeup|done..].
Qed.

(** The ring after [brelse]. *)
Lemma ring_unbusy b bc l : ring bc l → ring (alter unbusy b bc) l.
Proof.
  intros Hr. destruct (bc !! b) as [bf|] eqn:Hb.
  - rewrite (alter_to_insert _ _ _ bf Hb). by eapply ring_update.
  - replace (alter unbusy b bc) with bc; [done|]. apply list_eq. intros j.
    destruct (decide (b = j)) as [<-|]; [|by rewrite list_lookup_alter_ne].
    by rewrite list_lookup_alter_eq, Hb.
Qed.

(** ** [binit] *)

(** The buffers before and after [binit]: flags and data of the zeroed
    array; the key is invalidated. *)
Definition binit_strip (x : buf) : buf := strip (set_b_key (u32 (-1)) (b_blockno x) x).

(** After the first [i] rounds. *)
Definition binit_ok (bc0 bc : bcache) (i : nat) : Prop :=
  length bc = S HEAD ∧ path (nxt bc) (prv bc) HEAD (reverse (seq 0 i)) HEAD ∧
  (∀ j, (j < i)%nat → strip <$> bc !! j = binit_strip <$> bc0 !! j) ∧
  (∀ j, (i <= j < HEAD)%nat → strip <$> bc !! j = strip <$> bc0 !! j).

Definition unkey (x : buf) : buf := set_b_key (u32 (-1)) (b_blockno x) x.

Lemma links_unkey i bc : (∀ z, nxt (alter unkey i bc) z = nxt bc z) ∧ (∀ z, prv (alter unkey i bc) z = prv bc z).
Proof.
  unfold nxt, prv. split; intros z.
  all: destruct (decide (i = z)) as [->|]; [|by rewrite list_lookup_alter_ne].
  all: rewrite list_lookup_alter_eq; by destruct (bc !! z).
Qed.

Lemma reverse_seq_S i : reverse (seq 0 (S i)) = i :: reverse (seq 0 i).
Proof. rewrite seq_S, reverse_app. done. Qed.

(** One round on the array. *)
Lemma binit_round bc0 bc i :
  binit_ok bc0 bc i → (i < HEAD)%nat → binit_ok bc0 (push_links i (alter unkey i bc)) (S i).
Proof.
  intros (Hlen & Hpath & H1 & H2) Hi. destruct (links_unkey i bc) as [Hn Hp].
  assert (Hin : ∀ j, j ∈ reverse (seq 0 i) ↔ (j < i)%nat).
  { intros j. rewrite elem_of_reverse, elem_of_seq. lia. }
  assert (Hnh : (nxt bc HEAD < S HEAD)%nat).
  { rewrite (path_nx _ _ _ _ _ Hpath). destruct (reverse (seq 0 i)) as [|x l] eqn:Hl; cbn; [lia|].
    assert (x < i)%nat by (apply Hin; left). lia. }
  destruct (push_links_spec i (alter unkey i bc)) as [Hs1 Hs2]; rewrite ?length_alter, ?Hn; [lia..|].
  assert (Hst : ∀ j, strip <$> push_links i (alter unkey i bc) !! j = strip <$> alter unkey i bc !! j).
  { intros j. unfold push_links. by rewrite !strip_alter by done. }
  split_and!.
  - unfold push_links. by rewrite !length_alter.
  - rewrite reverse_seq_S. eapply path_ext; [..|apply (path_push (nxt bc) (prv bc) HEAD _ i); try done].
    + intros z _. rewrite Hs1. unfold lupd. repeat case_decide; auto.
    + intros z _. rewrite Hs2, Hn. unfold lupd. repeat case_decide; auto.
    + lia.
    + rewrite Hin. lia.
    + rewrite Hin. lia.
    + rewrite reverse_Permutation. apply NoDup_seq.
  - intros j Hj. rewrite Hst. destruct (decide (i = j)) as [->|Hne].
    + rewrite list_lookup_alter_eq. specialize (H2 j ltac:(lia)).
      destruct (bc !! j) as [[]|], (bc0 !! j) as [[]|]; try done.
      unfold binit_strip, unkey, strip in *. cbn in *. by simplify_eq.
    + rewrite list_lookup_alter_ne by done. apply H1. lia.
  - intros j Hj. rewrite Hst, list_lookup_alter_ne by lia. apply H2. lia.
Qed.

Lemma wp_binit_buf i k E (Q : unit → kernel → Prop) :
  length (k_bc k) = S HEAD → (i < HEAD)%nat →
  Q tt (set_bc (push_links i (alter unkey i (k_bc k))) k) → wp (binit_buf i) E Q k.
Proof.
  intros Hlen Hi HQ. unfold binit_buf. wp_steps.
  eapply wp_getbuf_any; [lia|]. intros x1 Hx1. rewrite <-(nxt_lookup _ _ _ Hx1). wp_steps.
  apply wp_updbuf_alter. wp_steps. apply wp_updbuf_alter. wp_steps. apply wp_updbuf_alter. wp_steps.
  eapply wp_getbuf_any; [cbn; rewrite !length_alter; lia|]. intros x2 Hx2.
  rewrite <-(nxt_lookup _ _ _ Hx2). wp_steps. apply wp_updbuf_alter. wp_steps. apply wp_updbuf_alter.
  kexact HQ. unfold push_links. rewrite (proj1 (links_unkey i (k_bc k))).
  assert (Hc : alter (set_b_prev HEAD) i (alter (set_b_next (nxt (k_bc k) HEAD)) i (alter unkey i (k_bc k))) =
    alter unkey i (alter (set_b_prev HEAD) i (alter (set_b_next (nxt (k_bc k) HEAD)) i (k_bc k)))).
  { destruct (lookup_lt_is_Some_2 (k_bc k) i) as [x Hx]; [lia|].
    rewrite (alter_to_insert unkey _ _ x Hx), (alter_to_insert (set_b_next _) _ _ x Hx).
    by rewrite !alter_insert_eq by (by eapply lookup_lt_Some). }
  by rewrite Hc.
Qed.

(** The state [binit] leaves. *)
Lemma binit_done k k' :
  (∀ i bf, k_bc k !! i = Some bf → b_flags bf = 0 ∧ length (b_data bf) = Z.to_nat BSIZE) →
  (∀ u s, length (disk_get (ide_disk (k_ide k)) u s) = Z.to_nat BSIZE) →
  k_ide k' = k_ide k → binit_ok (k_bc k) (k_bc k') HEAD →
  bio_inv [] k' ∧ ring (k_bc k') (reverse (seq 0 HEAD)) ∧ (∀ bn, bview k' bn = disk_of k bn) ∧
  (∀ i bf bn, isbuf k' i bf → ¬ keyed bn bf).
Proof.
  intros Hz Hd Hide (Hlen & Hpath & H1 & _).
  assert (Hring : ring (k_bc k') (reverse (seq 0 HEAD))).
  { split_and!; [done| |intros i; rewrite elem_of_reverse, elem_of_seq; lia|done].
    rewrite reverse_Permutation. apply NoDup_seq. }
  assert (Hb : ∀ i bf, isbuf k' i bf → b_flags bf = 0 ∧ length (b_data bf) = Z.to_nat BSIZE ∧ b_dev bf = u32 (-1)).
  { intros i bf [Hi Hb]. specialize (H1 i Hi). rewrite Hb in H1.
    destruct (k_bc k !! i) as [bf0|] eqn:Hb0; [|done]. destruct (Hz i bf0 Hb0) as [Hf Hl].
    cbn in H1. assert (strip bf = strip (unkey bf0)) as (? & ? & ? & ?)%strip_eq by (by apply Some_inj).
    cbn in *. split_and!; congruence. }
  assert (Hnk : ∀ i bf bn, isbuf k' i bf → ¬ keyed bn bf).
  { intros i bf bn Hi [Hk _]. destruct (Hb i bf Hi) as (_ & _ & Hu). rewrite Hu in Hk. done. }
  split_and!; [|done| |].
  - split; [by eexists|constructor|by intros ? ?%not_elem_of_nil|..].
    + intros i bf (Hf & _)%Hb. unfold busy. rewrite Hf. split; [done|by intros ?%not_elem_of_nil].
    + intros i bf (Hf & _ & Hu)%Hb. right. unfold valid, dirty. by rewrite Hf.
    + intros i j bi bj bn Hi _ Hk. by destruct (Hnk i bi bn).
    + intros i bf (_ & Hl & _)%Hb. done.
    + intros i bf (Hf & _)%Hb. unfold dirty. by rewrite Hf.
    + intros i bf (Hf & _)%Hb _. unfold valid. by rewrite Hf.
    + by rewrite Hide.
  - intros bn. rewrite bview_miss; [unfold disk_of; by rewrite Hide|]. intros i bf Hi Hk. by destruct (Hnk i bf bn).
  - done.
Qed.

(** [binit] on zeroed buffers: the list has every buffer, the cache is empty
    and every block is seen as it is on the disk. *)
Lemma wp_binit k E (Q : unit → kernel → Prop) :
  length (k_bc k) = S HEAD →
  (∀ i bf, k_bc k !! i = Some bf → b_flags bf = 0 ∧ length (b_data bf) = Z.to_nat BSIZE) →
  (∀ u s, length (disk_get (ide_disk (k_ide k)) u s) = Z.to_nat BSIZE) →
  (∀ bc' m', initlock L_bcache (k_mach k) = Ok tt m' →
     let k' := set_bc bc' (set_mach m' k) in
     bio_inv [] k' ∧ ring (k_bc k') (reverse (seq 0 HEAD)) ∧ (∀ bn, bview k' bn = disk_of k bn) ∧
     (∀ i bf bn, isbuf k' i bf → ¬ keyed bn bf) → Q tt k') →
  wp binit E Q k.
Proof.
  intros Hlen Hz Hd HQ. unfold binit. wp_steps.
  eapply wp_on_mach; [done|]. set (m' := mkMach _ _ _). wp_steps.
  apply wp_updbuf_alter. wp_steps. apply wp_updbuf_alter. eapply wp_post.
  - apply (wp_for_each _ _ _ (λ l k', ∃ i, l = seq i (HEAD - i) ∧ (i <= HEAD)%nat ∧
      binit_ok (k_bc k) (k_bc k') i ∧ k' = set_bc (k_bc k') (set_mach m' k))).
    + intros x l' k' _ (i & Hl & Hi & Hok & Hk').
      destruct (decide (i = HEAD)) as [->|Hne]; [rewrite Nat.sub_diag in Hl; done|].
      replace (HEAD - i)%nat with (S (HEAD - S i)) in Hl by lia. cbn in Hl. simplify_eq.
      apply wp_binit_buf; [apply Hok|lia|]. exists (S i). split_and!; [done|lia| |].
      * apply binit_round; [done|lia].
      * rewrite Hk' at 2. done.
    + exists 0%nat. split_and!; [done|lia| |done]. cbn. split_and!; [by rewrite !length_alter| |lia|].
      * cbn. rewrite nxt_alter_next, lupd_eq by (rewrite length_alter; lia).
        rewrite prv_alter_next, prv_alter_prev, lupd_eq by lia. done.
      * intros j Hj. by rewrite !strip_alter.
  - intros [] k' (i & Hl & Hi & Hok & Hk'). rewrite Hk'. apply HQ; [done|].
    assert (i = HEAD) as -> by (destruct (HEAD - i)%nat eqn:?; [lia|done]). by apply binit_done.
Qed.

Lemma ready_initlock p lk k :
  ready p k → ∃ m', initlock lk (k_mach k) = Ok tt m' ∧ ready p (set_mach m' k).
Proof.
  intros [[(Hnd & Hc & Hl) Hp] Hi]. eexists. split; [done|]. split; [|done]. split; [|done].
  split_and!; [done|done|]. cbn. intros lk'. rewrite Hl. destruct (decide (lk' = lk)); [|done].
  rewrite decide_False by apply not_elem_of_nil. done.
Qed.

(** The example machine after [binit]. *)
Lemma kernel0_ready disk : ready 0 (kernel0 disk).
Proof.
  split; [|done]. split.
  - split_and!; [constructor| |].
    + eexists. by split_and!.
    + intros lk. by rewrite decide_False by apply not_elem_of_nil.
  - by exists proc_run.
Qed.

(** ** The replacement policy *)

Lemma ring_length bc l : ring bc l → (length l <= length bc)%nat.
Proof.
  intros (Hlen & Hnd & Hin & _). rewrite Hlen. transitivity (length (seq 0 HEAD)); [|rewrite length_seq; lia].
  apply submseteq_length, NoDup_submseteq; [done|]. intros x Hx%Hin. apply elem_of_seq. lia.
Qed.

Lemma wp_bget_lru pr dev bn l k :
  at_mach [] pr (k_mach k) → ring (k_bc k) l →
  Forall (λ i, ∃ bf, k_bc k !! i = Some bf ∧ buf_is dev bn bf = false) l →
  wp (bget dev bn) (λ _, Forall (λ i, ∃ bf, k_bc k !! i = Some bf ∧ busy bf || dirty bf = true) l)
    (λ b k', at_mach [] pr (k_mach k') ∧ ring (k_bc k') l ∧ (∃ bf, k_bc k' !! b = Some bf ∧ b_flags bf = B_BUSY) ∧
    ∃ l1 l2, l = l1 ++ b :: l2 ∧
      Forall (λ i, ∃ bf, k_bc k !! i = Some bf ∧ busy bf || dirty bf = true) l2) k.
Proof.
  intros Hm Hring Hno. pose proof Hring as (Hlen & Hnd & Hin & Hpath). pose proof (ring_length _ _ Hring) as Hll.
  destruct (lookup_lt_is_Some_2 (k_bc k) HEAD) as [h Hh]; [rewrite Hlen; lia|].
  unfold bget. wp_steps. eapply wp_acquire; [done|nolock|]. intros m1 Hm1.
  cbn [bget_loop]. wp_steps. eapply wp_getbuf; [exact Hh|]. wp_steps.
  rewrite <-(nxt_lookup _ _ _ Hh).
  destruct (walk_next_run (buf_is dev bn) (set_mach m1 k) l (length (k_bc k)) HEAD)
    as (r & Hr & Hf); [done|by intros i ?%Hin|done|done|].
  eapply wp_run; [exact Hr|]. destruct r as [b|].
  { destruct Hf as (l1 & l2 & bf & -> & Hb & Hkey & _). rewrite Forall_forall in Hno.
    destruct (Hno b) as (bf' & Hb' & Hk'); [set_solver|]. cbn in *. congruence. }
  wp_steps. eapply wp_getbuf; [exact Hh|]. wp_steps. rewrite <-(prv_lookup _ _ _ Hh).
  destruct (walk_prev_run buf_free (set_mach m1 k) l (length (k_bc k)) HEAD)
    as (r & Hr' & Hf'); [done|by intros i ?%Hin|done|done|].
  eapply wp_run; [exact Hr'|].
  assert (Hnf : ∀ l', Forall (λ j, ∃ bj, k_bc k !! j = Some bj ∧ buf_free bj = false) (reverse l') →
    Forall (λ i, ∃ bf, k_bc k !! i = Some bf ∧ busy bf || dirty bf = true) l').
  { intros l'. rewrite !Forall_forall. intros H i Hi. destruct (H i) as (bi & Hbi & Hfr); [by apply elem_of_reverse|].
    exists bi. split; [done|]. rewrite buf_free_spec in Hfr. by destruct (busy bi), (dirty bi). }
  destruct r as [b|]; [|by apply wp_panic, Hnf].
  destruct Hf' as (l1 & l2 & bf & Hl & Hb & _ & Hbusy). cbn in Hb.
  wp_steps. eapply wp_updbuf; [exact Hb|]. wp_steps.
  assert (Hlt : (b < length (k_bc k))%nat) by (by eapply lookup_lt_Some).
  eapply wp_updbuf; [by apply list_lookup_insert_eq|]. wp_steps.
  eapply wp_release; [exact Hm1|]. intros m2 Hm2. wp_steps. cbn. rewrite list_insert_insert_eq. split_and!.
  - done.
  - by eapply ring_update.
  - eexists. split; [by apply list_lookup_insert_eq|done].
  - exists (reverse l2), (reverse l1). split.
    + rewrite <-(reverse_involutive l), Hl, reverse_app, reverse_cons, <-app_assoc. done.
    + apply Hnf. by rewrite reverse_involutive.
Qed.
