(* ===== verification/Block.v ===== *)
(** * Block: what the buffer cache promises its clients

    The abstract state of the block layer: the contents of each block as the
    kernel sees it, the contents of the disk, the blocks whose changes are
    not on the disk, and the disk writes so far.  [binv] relates a kernel
    state to it, given which buffers the running process holds and for which
    blocks; for each operation of [bio.c] there is a rule on the abstract
    state.  The log and the file system are verified against these rules. *)

From stdpp Require Import prelude gmap strings.
From S2P Require Import Prelude Types Spinlock Sched Ide Bio.
Open Scope Z_scope.

Record bstate := mkA {
  a_view : Z → block;
  a_disk : Z → block;
  a_dirty : gset Z;
  a_trace : list (Z * Z * block)
}.

Definition vupd {A} (f : Z → A) (x : Z) (v : A) : Z → A := λ y, if decide (y = x) then v else f y.

Lemma vupd_eq {A} (f : Z → A) x v : vupd f x v x = v.
Proof. unfold vupd. by destruct (decide (x = x)). Qed.
Lemma vupd_ne {A} (f : Z → A) x v y : y ≠ x → vupd f x v y = f y.
Proof. intros. unfold vupd. by destruct (decide (y = x)). Qed.

Definition a_set (bn : Z) (d : block) (a : bstate) : bstate :=
  mkA (vupd (a_view a) bn d) (a_disk a) (a_dirty a) (a_trace a).
Definition a_mark (bn : Z) (a : bstate) : bstate :=
  mkA (a_view a) (a_disk a) ({[bn]} ∪ a_dirty a) (a_trace a).
Definition a_write (bn : Z) (a : bstate) : bstate :=
  mkA (a_view a) (vupd (a_disk a) bn (a_view a bn)) (a_dirty a ∖ {[bn]})
    (a_trace a ++ [((1, bn), a_view a bn)]).

(** The buffers [H] are held, each with its block. *)
Record bdat (H : list (nat * Z)) (a : bstate) (k : kernel) : Prop := {
  bd_inv : bio_inv H.*1 k;
  bd_held : ∀ b bn, (b, bn) ∈ H → holds k b bn (a_view a bn);
  bd_view : ∀ bn, bview k bn = a_view a bn;
  bd_disk : ∀ bn, disk_of k bn = a_disk a bn;
  bd_dirty : ∀ bn, bdirty k bn ↔ bn ∈ a_dirty a;
  bd_trace : ide_trace (k_ide k) = a_trace a
}.
(** Process [p] runs, can wait for the disk, and holds the buffers [H]. *)
Definition binv (p : nat) (H : list (nat * Z)) (a : bstate) (k : kernel) : Prop :=
  ready p k ∧ bdat H a k.

(** Only the buffers and the drives matter. *)
Lemma bdat_ext H a k k' : k_ide k' = k_ide k → k_bc k' = k_bc k → bdat H a k → bdat H a k'.
Proof.
  destruct k, k'. cbn. intros -> -> [[] ? ? ? ? ?]. split; [|done..]. by split.
Qed.

(** A block that is neither held nor marked is on the disk as it is seen. *)
Lemma bdat_sync H a k bn :
  bdat H a k → bn ∉ H.*2 → bn ∉ a_dirty a → a_view a bn = a_disk a bn.
Proof.
  intros Hv Hh Hd. rewrite <-(bd_view _ _ _ Hv), <-(bd_disk _ _ _ Hv).
  destruct (bview_cases k bn) as [(i & bf & Hi & Hk & Hval)|Hmiss]; [|by apply bview_miss].
  rewrite (bview_hit _ _ _ _ _ (bd_inv _ _ _ Hv) Hi Hk Hval).
  destruct Hk as [Hdev Hno]. rewrite <-Hno. apply (bi_sync _ _ (bd_inv _ _ _ Hv) i bf); try done.
  - intros ((b & bn') & -> & Hin)%list_elem_of_fmap. cbn in Hi.
    destruct (bd_held _ _ _ Hv _ _ Hin) as (bf' & Hi' & [_ Hno'] & _).
    assert (bf' = bf) as -> by (by eapply isbuf_fun). apply Hh. apply list_elem_of_fmap.
    exists (b, bn'). split; [cbn; congruence|done].
  - destruct (dirty bf) eqn:Hdy; [|done]. destruct Hd. apply (bd_dirty _ _ _ Hv). by exists i, bf.
Qed.

(** Held blocks are cached under their own key. *)
Lemma bdat_held_key H a k bn i bf :
  bdat H a k → isbuf k i bf → keyed bn bf → i ∈ H.*1 → bn ∈ H.*2.
Proof.
  intros Hv Hi [_ Hno] ((b & bn') & -> & Hin)%list_elem_of_fmap. cbn in Hi.
  destruct (bd_held _ _ _ Hv _ _ Hin) as (bf' & Hi' & [_ Hno'] & _).
  assert (bf' = bf) as -> by (by eapply isbuf_fun). apply list_elem_of_fmap.
  exists (b, bn'). split; [cbn; congruence|done].
Qed.

(** The cache is not full while few enough blocks are held or marked. *)
Lemma bdat_not_full H a k bn :
  bdat H a k → (length H + size (a_dirty a) < HEAD)%nat → ¬ cache_full k bn.
Proof.
  intros Hv Hlt Hfull. pose proof (bd_inv _ _ _ Hv) as Hinv.
  destruct (bi_ring _ _ Hinv) as [l (Hlen & _)].
  set (bno := λ i, default 0 (b_blockno <$> k_bc k !! i)).
  set (rest := filter (.∉ H.*1) (seq 0 HEAD)).
  assert (Hrest : ∀ i, i ∈ rest → ∃ bf, isbuf k i bf ∧ keyed (bno i) bf ∧ dirty bf = true).
  { intros i [Hi Hs]%list_elem_of_filter. apply elem_of_seq in Hs.
    destruct (lookup_lt_is_Some_2 (k_bc k) i) as [bf Hb]; [lia|].
    assert (Hib : isbuf k i bf) by (split; [lia|done]). exists bf. split; [done|].
    destruct (Hfull i bf Hib) as [_ Hor].
    destruct (busy bf) eqn:Hbusy; [by apply (bi_busy _ _ Hinv i bf Hib) in Hbusy|]. cbn in Hor.
    split; [|done]. unfold keyed, bno. rewrite Hb. split; [|done].
    destruct (bi_key _ _ Hinv i bf Hib) as [[? _]|(_ & ? & _)]; congruence. }
  assert (Hnd : NoDup (bno <$> rest)).
  { apply NoDup_fmap_2_strong; [|apply NoDup_filter, NoDup_seq]. intros i j Hi Hj Heq.
    destruct (Hrest i Hi) as (bi & ? & Hki & _), (Hrest j Hj) as (bj & ? & Hkj & _).
    rewrite <-Heq in Hkj. by eapply (bi_uniq _ _ Hinv). }
  assert (Hsub : (length rest <= size (a_dirty a))%nat).
  { rewrite <-(length_fmap bno rest), <-(size_list_to_set (C:=gset Z) _ Hnd).
    apply subseteq_size. intros x Hx%elem_of_list_to_set. apply list_elem_of_fmap in Hx as (i & -> & Hi).
    destruct (Hrest i Hi) as (bf & ? & ? & ?). apply (bd_dirty _ _ _ Hv). by exists i, bf. }
  assert (Hall : (HEAD <= length rest + length H)%nat).
  { rewrite <-(length_seq HEAD 0) at 1. rewrite <-(length_fmap fst H), <-length_app.
    apply submseteq_length, NoDup_submseteq; [apply NoDup_seq|]. intros i Hi.
    apply elem_of_app. destruct (decide (i ∈ H.*1)); [by right|left]. by apply list_elem_of_filter. }
  lia.
Qed.

(** ** The rules *)

Lemma holds_same H k k' b bn d : same_held H k k' → b ∈ H → holds k b bn d → holds k' b bn d.
Proof.
  intros Hs Hb (bf & Hi & [Hd Hn] & Hv & Hdt).
  destruct (same_held_buf _ _ _ _ _ Hs Hb Hi) as (bf' & Hi' & (H1 & H2 & H3 & H4)%strip_eq).
  exists bf'. unfold keyed, valid in *. rewrite H1, H2, H3, H4. done.
Qed.

Lemma elem_fst (H : list (nat * Z)) b bn : (b, bn) ∈ H → b ∈ H.*1.
Proof. intros. apply list_elem_of_fmap. by exists (b, bn). Qed.
Lemma elem_snd (H : list (nat * Z)) b bn : (b, bn) ∈ H → bn ∈ H.*2.
Proof. intros. apply list_elem_of_fmap. by exists (b, bn). Qed.

(** [bread]: needs a free buffer, unless the block is marked, which keeps it
    in the cache. *)
Lemma wpa_bread p H a bn k E (Q : nat → kernel → Prop) :
  binv p H a k → 0 <= bn < FSSIZE → bn ∉ H.*2 →
  ((length H + size (a_dirty a) < HEAD)%nat ∨ bn ∈ a_dirty a ∨ E "bget: no buffers") →
  (∀ b k', binv p ((b, bn) :: H) a k' → bframe k k' → Q b k') →
  wp (bread ROOTDEV bn) E Q k.
Proof.
  intros [Hrdy Hv] Hbn Hh HE HQ. eapply (wp_bread p H.*1); [done|apply Hv|done| | |].
  - intros i bf Hi Hk Hin. by eapply Hh, bdat_held_key.
  - intros Hfull. destruct HE as [Hlt|[Hd|HE]]; [by destruct (bdat_not_full _ _ _ bn Hv Hlt)| |done].
    apply (bd_dirty _ _ _ Hv) in Hd as (i & bf & Hi & Hk & _). by destruct (Hfull i bf Hi).
  - intros b k' Hr (Hinv' & Hnin & (Hfr & Hdk & Htr & Hvw & Hdy) & Hsame & Hhold).
    apply HQ; [|done]. split; [done|]. split; try done.
    + intros b' bn' [Heq|Hin]%elem_of_cons.
      * simplify_eq. by rewrite <-(bd_view _ _ _ Hv).
      * eapply holds_same; [done|by eapply elem_fst|by apply (bd_held _ _ _ Hv)].
    + intros bn'. rewrite Hvw. apply Hv.
    + intros bn'. rewrite (disk_of_eq _ _ _ Hdk). apply Hv.
    + intros bn'. rewrite Hdy. apply Hv.
    + rewrite Htr. apply Hv.
Qed.

(** The data of a held buffer is the block's contents. *)
Lemma wpa_getbuf p H a b bn k E (Q : buf → kernel → Prop) :
  binv p H a k → (b, bn) ∈ H →
  (∀ bf, b_data bf = a_view a bn → b_blockno bf = bn → b_dev bf = ROOTDEV → isbuf k b bf → Q bf k) →
  wp (getbuf b) E Q k.
Proof.
  intros [_ Hv] Hin HQ. destruct (bd_held _ _ _ Hv _ _ Hin) as (bf & Hi & [Hd Hn] & _ & Hdt).
  eapply wp_getbuf; [apply Hi|]. by apply HQ.
Qed.

(** Distinct held buffers have distinct blocks. *)
Lemma bdat_held_inj H a k b b' bn :
  bdat H a k → (b, bn) ∈ H → (b', bn) ∈ H → b = b'.
Proof.
  intros Hv H1 H2. destruct (bd_held _ _ _ Hv _ _ H1) as (bf & Hi & Hk & _).
  destruct (bd_held _ _ _ Hv _ _ H2) as (bf' & Hi' & Hk' & _).
  by eapply (bi_uniq _ _ (bd_inv _ _ _ Hv)).
Qed.
Lemma bdat_held_fun H a k b bn bn' :
  bdat H a k → (b, bn) ∈ H → (b, bn') ∈ H → bn = bn'.
Proof.
  intros Hv H1 H2. destruct (bd_held _ _ _ Hv _ _ H1) as (bf & Hi & [_ <-] & _).
  destruct (bd_held _ _ _ Hv _ _ H2) as (bf' & Hi' & [_ <-] & _). by rewrite (isbuf_fun _ _ _ _ Hi Hi').
Qed.

Lemma bdat_range H a k b bn : bdat H a k → (b, bn) ∈ H → 0 <= bn < FSSIZE.
Proof.
  intros Hv Hin. destruct (bd_held _ _ _ Hv _ _ Hin) as (bf & Hi & [_ <-] & Hval & _).
  destruct (bi_key _ _ (bd_inv _ _ _ Hv) b bf Hi) as [[_ ?]|[? _]]; [done|congruence].
Qed.

Lemma bdat_len H a k bn : bdat H a k → length (a_view a bn) = Z.to_nat BSIZE.
Proof.
  intros Hv. rewrite <-(bd_view _ _ _ Hv). pose proof (bd_inv _ _ _ Hv) as Hinv.
  destruct (bview_cases k bn) as [(i & bf & Hi & Hk & Hval)|Hmiss].
  - rewrite (bview_hit _ _ _ _ _ Hinv Hi Hk Hval). by apply (bi_len _ _ Hinv i).
  - rewrite (bview_miss _ _ Hmiss). apply (bi_disk _ _ Hinv).
Qed.

(** Writing to a held buffer's memory: data and flags that keep it busy and
    valid. *)
Section held_update.
Context (H : list (nat * Z)) (a : bstate) (k k' : kernel) (b : nat) (bf bf' : buf) (bn : Z).
Hypothesis Hv : bdat H a k.
Hypothesis Hin : (b, bn) ∈ H.
Hypothesis Hb : isbuf k b bf.
Hypothesis Hbc : k_bc k' = <[b := bf']> (k_bc k).
Hypothesis Hnext : b_next bf' = b_next bf.
Hypothesis Hprev : b_prev bf' = b_prev bf.
Hypothesis Hkey' : keyed bn bf'.
Hypothesis Hbusy' : busy bf' = true.
Hypothesis Hvalid' : valid bf' = true.
Hypothesis Hlen' : length (b_data bf') = Z.to_nat BSIZE.
Hypothesis Hide : k_ide k' = k_ide k.

Lemma held_update_inv : bio_inv H.*1 k'.
Proof.
  pose proof (bd_inv _ _ _ Hv) as Hinv. destruct Hkey' as [Hdev Hno].
  destruct (bd_held _ _ _ Hv _ _ Hin) as (bf0 & Hi0 & Hk0 & _).
  assert (bf0 = bf) as -> by (by eapply isbuf_fun).
  eapply (bio_inv_update H.*1 H.*1 k k' b bf bf'); try done.
  - apply (bi_nodup _ _ Hinv).
  - apply (bi_lt _ _ Hinv).
  - split; [|done]. intros _. by eapply elem_fst.
  - split; [done|]. rewrite Hno. by eapply bdat_range.
  - rewrite Hno. intros j bj Hne Hj Hk. by apply Hne, (bi_uniq _ _ Hinv _ _ _ _ bn Hj Hb).
  - intros Hn. destruct Hn. by eapply elem_fst.
  - intros. unfold disk_of. by rewrite Hide.
  - rewrite Hide. apply (bi_disk _ _ Hinv).
Qed.

Lemma held_update : (∀ x, bdirty k' x ↔ bdirty k x ∨ x = bn ∧ dirty bf' = true) →
  bdat H (mkA (vupd (a_view a) bn (b_data bf')) (a_disk a)
    (if dirty bf' then {[bn]} ∪ a_dirty a else a_dirty a) (a_trace a)) k'.
Proof.
  intros Hdy. pose proof held_update_inv as Hinv'. pose proof (bd_inv _ _ _ Hv) as Hinv.
  assert (Hb' : isbuf k' b bf').
  { split; [apply Hb|]. rewrite Hbc. apply list_lookup_insert_eq. by eapply lookup_lt_Some, Hb. }
  destruct (bd_held _ _ _ Hv _ _ Hin) as (bf0 & Hi0 & [Hd0 Hn0] & Hv0 & Hdt0).
  assert (bf0 = bf) as -> by (by eapply isbuf_fun).
  split; cbn; try done.
  - intros b' bn' Hin'. destruct (decide (bn' = bn)) as [->|Hne].
    + rewrite vupd_eq. rewrite (bdat_held_inj _ _ _ _ _ _ Hv Hin' Hin). by exists bf'.
    + rewrite vupd_ne by done. eapply (holds_same [b']); [|by left|by apply (bd_held _ _ _ Hv)].
      eapply same_held_insert; [done|]. intros ->%list_elem_of_singleton.
      by apply Hne, (bdat_held_fun _ _ _ _ _ _ Hv Hin' Hin).
  - intros bn'. destruct (decide (bn' = bn)) as [->|Hne].
    + rewrite vupd_eq. by eapply bview_hit.
    + rewrite vupd_ne by done. rewrite <-(bd_view _ _ _ Hv).
      eapply bview_update; [done|done|done|done| | |].
      * destruct Hkey'. congruence.
      * unfold disk_of. by rewrite Hide.
      * intros [_ ?]. congruence.
  - intros bn'. unfold disk_of. rewrite Hide. apply Hv.
  - intros bn'. rewrite Hdy, (bd_dirty _ _ _ Hv).
    destruct (dirty bf'); set_solver.
  - rewrite Hide. apply Hv.
Qed.
End held_update.

(** The marked blocks when one buffer changes in place. *)
Lemma bdirty_insert H k k' b bf bf' bn x :
  bio_inv H k → isbuf k b bf → keyed bn bf → keyed bn bf' → k_bc k' = <[b := bf']> (k_bc k) →
  (dirty bf = true → dirty bf' = true) →
  bdirty k' x ↔ bdirty k x ∨ x = bn ∧ dirty bf' = true.
Proof.
  intros Hinv Hb [Hd Hn] [Hd' Hn'] Hbc Hdy.
  assert (Hb' : isbuf k' b bf').
  { split; [apply Hb|]. rewrite Hbc. apply list_lookup_insert_eq. by eapply lookup_lt_Some, Hb. }
  split.
  - intros (j & bj & Hj & Hk & Hdj).
    destruct (isbuf_insert _ _ _ _ _ _ Hbc Hj) as [[-> ->]|[Hne Hj']]; [right|left; by exists j, bj].
    destruct Hk. split; [congruence|done].
  - intros [(j & bj & Hj & Hk & Hdj)|[-> Hdj]]; [|by exists b, bf'].
    destruct (decide (j = b)) as [->|Hne].
    + rewrite (isbuf_fun _ _ _ _ Hj Hb) in *. exists b, bf'. destruct Hk. split_and!; [done|split; congruence|auto].
    + exists j, bj. split_and!; [|done..]. destruct Hj. split; [done|]. by rewrite Hbc, list_lookup_insert_ne.
Qed.

(** An update of a held buffer's data. *)
Lemma wpa_setdata p H a b bn (f : buf → buf) k E (Q : unit → kernel → Prop) :
  binv p H a k → (b, bn) ∈ H →
  (∀ x, f x = set_b_data (b_data (f x)) x) →
  (∀ x, b_data x = a_view a bn → b_blockno x = bn → length (b_data (f x)) = Z.to_nat BSIZE) →
  (∀ x k', b_data x = a_view a bn → b_blockno x = bn → binv p H (a_set bn (b_data (f x)) a) k' → bframe k k' →
     k' = set_bc (k_bc k') k → Q tt k') →
  wp (updbuf b f) E Q k.
Proof.
  intros [Hrdy Hv] Hin Hf Hlen HQ. pose proof (bd_inv _ _ _ Hv) as Hinv.
  destruct (bd_held _ _ _ Hv _ _ Hin) as (bf & Hi & Hk & Hval & Hdt).
  eapply wp_updbuf; [apply Hi|]. set (k' := set_bc _ k).
  assert (Hbusy : busy bf = true) by (apply (bi_busy _ _ Hinv b bf Hi); by eapply elem_fst).
  assert (Hk' : keyed bn (f bf)) by (rewrite Hf; done).
  assert (Hdf : dirty (f bf) = dirty bf) by (by rewrite Hf).
  apply (HQ bf k'); [done|apply Hk| |done|done].
  assert (Hdy : ∀ x, bdirty k' x ↔ bdirty k x ∨ x = bn ∧ dirty (f bf) = true).
  { intros x. eapply (bdirty_insert H.*1 k k' b bf); try done. by rewrite Hdf. }
  pose proof (held_update H a k k' b bf (f bf) bn) as Hup. split; [done|].
  replace (a_set bn (b_data (f bf)) a) with (mkA (vupd (a_view a) bn (b_data (f bf))) (a_disk a)
    (if dirty (f bf) then {[bn]} ∪ a_dirty a else a_dirty a) (a_trace a)).
  - apply Hup; try done; try (rewrite Hf; done). apply Hlen; [done|apply Hk].
  - unfold a_set. f_equal. rewrite Hdf. destruct (dirty bf) eqn:Hd; [|done].
    assert (bn ∈ a_dirty a) by (apply (bd_dirty _ _ _ Hv); by exists b, bf). set_solver.
Qed.

(** [flags |= B_DIRTY] on a held buffer; the caller may hold a lock. *)
Lemma wpa_mark H a b bn k E (Q : unit → kernel → Prop) :
  bdat H a k → (b, bn) ∈ H →
  (∀ k', bdat H (a_mark bn a) k' → k' = set_bc (k_bc k') k → Q tt k') →
  wp (updbuf b (λ x, set_b_flags (Z.lor (b_flags x) B_DIRTY) x)) E Q k.
Proof.
  intros Hv Hin HQ. pose proof (bd_inv _ _ _ Hv) as Hinv.
  destruct (bd_held _ _ _ Hv _ _ Hin) as (bf & Hi & Hk & Hval & Hdt).
  eapply wp_updbuf; [apply Hi|]. set (bf' := set_b_flags _ bf). set (k' := set_bc _ k).
  assert (Hbusy : busy bf = true) by (apply (bi_busy _ _ Hinv b bf Hi); by eapply elem_fst).
  assert (Hf : busy bf' = busy bf ∧ valid bf' = valid bf ∧ dirty bf' = true).
  { subst bf'. unfold busy, valid, dirty. cbn. by flags. }
  destruct Hf as (Hf1 & Hf2 & Hf3). apply HQ; [|done].
  assert (Hdy : ∀ x, bdirty k' x ↔ bdirty k x ∨ x = bn ∧ dirty bf' = true).
  { intros x. by eapply (bdirty_insert H.*1 k k' b bf). }
  assert (Hup := held_update H a k k' b bf bf' bn Hv Hin Hi eq_refl eq_refl eq_refl Hk).
  rewrite Hf1, Hf2, Hf3 in Hup. specialize (Hup Hbusy Hval (bi_len _ _ Hinv b bf Hi) eq_refl).
  rewrite Hf3 in Hdy. specialize (Hup Hdy). change (b_data bf') with (b_data bf) in Hup.
  destruct Hup as [U1 U2 U3 U4 U5 U6]. split; try done.
  - intros b' bn' Hb'. specialize (U2 b' bn' Hb'). cbn in U2. unfold vupd in U2.
    destruct (decide (bn' = bn)) as [->|]; [by rewrite Hdt in U2|done].
  - intros bn'. rewrite U3. cbn. unfold vupd. by destruct (decide (bn' = bn)) as [->|].
Qed.

(** [bwrite]. *)
Lemma wpa_bwrite p H a b bn k E (Q : unit → kernel → Prop) :
  binv p H a k → (b, bn) ∈ H →
  (∀ k', binv p H (a_write bn a) k' → bframe k k' → Q tt k') →
  wp (bwrite b) E Q k.
Proof.
  intros [Hrdy Hv] Hin HQ.
  eapply (wp_bwrite p H.*1 b bn); [done|apply Hv|by eapply elem_fst|by apply (bd_held _ _ _ Hv)|].
  intros k' Hr (Hinv' & (Hfr & Hdk & Htr & Hvw & Hdy) & Hsame & Hhold).
  apply HQ; [|done]. split; [done|]. split; try done.
  - intros b' bn' Hin'. cbn. destruct (decide (b' = b)) as [->|Hne].
    + by rewrite (bdat_held_fun _ _ _ _ _ _ Hv Hin' Hin).
    + eapply holds_same; [done| |by apply (bd_held _ _ _ Hv)].
      apply list_elem_of_filter. split; [done|by eapply elem_fst].
  - intros bn'. rewrite Hvw. apply Hv.
  - intros bn'. unfold disk_of. rewrite Hdk, disk_get_insert. cbn. unfold vupd.
    destruct (decide (bn' = bn)) as [->|Hne]; [by rewrite decide_True|].
    rewrite decide_False by congruence. apply Hv.
  - intros bn'. rewrite Hdy, (bd_dirty _ _ _ Hv). cbn. set_solver.
  - rewrite Htr. cbn. by rewrite (bd_trace _ _ _ Hv).
Qed.

Lemma filter_fst (H : list (nat * Z)) b : (filter (λ x, x.1 ≠ b) H).*1 = filter (.≠ b) H.*1.
Proof.
  induction H as [|[x y] H IH]; [done|]. rewrite fmap_cons, !filter_cons.
  destruct (decide (x ≠ b)) as [Hx|Hx].
  - rewrite !decide_True by done. cbn. by rewrite IH.
  - rewrite !decide_False by done. by rewrite IH.
Qed.

(** [brelse]: the block must be marked or on the disk. *)
Lemma wpa_brelse p H a b bn k E (Q : unit → kernel → Prop) :
  binv p H a k → (b, bn) ∈ H → bn ∈ a_dirty a ∨ a_view a bn = a_disk a bn →
  (∀ k', binv p (filter (λ x, x.1 ≠ b) H) a k' → bframe k k' → Q tt k') →
  wp (brelse b) E Q k.
Proof.
  intros [Hrdy Hv] Hin Hs HQ. pose proof (bd_inv _ _ _ Hv) as Hinv.
  destruct (bd_held _ _ _ Hv _ _ Hin) as (bf & Hi & Hk & Hval & Hdt).
  pose proof (filter_fst H b) as HH.
  eapply (wp_brelse p H.*1 b bf); [done|done|by eapply elem_fst|done|done| |].
  { destruct Hs as [Hd|Hd].
    - left. apply (bd_dirty _ _ _ Hv) in Hd as (j & bj & Hj & Hkj & Hdj).
      assert (j = b) as -> by (by eapply (bi_uniq _ _ Hinv)). by rewrite (isbuf_fun _ _ _ _ Hi Hj).
    - right. rewrite Hdt, Hd, <-(bd_disk _ _ _ Hv). by destruct Hk as [_ ->]. }
  intros k' Hr (Hinv' & (Hfr & Hdk & Htr & Hvw & Hdy) & Hsame). rewrite <-HH in Hinv', Hsame.
  apply HQ; [|done]. split; [done|]. split; try done.
  - intros b' bn' Hin'. eapply holds_same; [done|by eapply elem_fst|].
    apply list_elem_of_filter in Hin' as [_ Hin']. by apply (bd_held _ _ _ Hv).
  - intros bn'. rewrite Hvw. apply Hv.
  - intros bn'. rewrite (disk_of_eq _ _ _ Hdk). apply Hv.
  - intros bn'. rewrite Hdy. apply Hv.
  - rewrite Htr. apply Hv.
Qed.

(** [brelse] of the buffer read last, and of the one before. *)
Lemma filter_out (H : list (nat * Z)) b : b ∉ H.*1 → filter (λ x, x.1 ≠ b) H = H.
Proof.
  induction H as [|[x y] H IH]; [done|]. rewrite fmap_cons. intros [Hx Hb]%not_elem_of_cons.
  by rewrite filter_cons, decide_True, IH by done.
Qed.

Lemma wpa_brelse1 p H a b bn k E (Q : unit → kernel → Prop) :
  binv p ((b, bn) :: H) a k → bn ∈ a_dirty a ∨ a_view a bn = a_disk a bn →
  (∀ k', binv p H a k' → bframe k k' → Q tt k') → wp (brelse b) E Q k.
Proof.
  intros Hv Hs HQ. eapply wpa_brelse; [exact Hv|left|done|].
  intros k' Hk' Hfr. apply HQ; [|done]. pose proof (bi_nodup _ _ (bd_inv _ _ _ (proj2 Hv))) as Hnd.
  cbn in Hnd. apply NoDup_cons in Hnd as [Hb _].
  rewrite filter_cons, decide_False, filter_out in Hk' by (cbn; tauto). done.
Qed.

Lemma wpa_brelse2 p H a x b bn k E (Q : unit → kernel → Prop) :
  binv p (x :: (b, bn) :: H) a k → bn ∈ a_dirty a ∨ a_view a bn = a_disk a bn →
  (∀ k', binv p (x :: H) a k' → bframe k k' → Q tt k') → wp (brelse b) E Q k.
Proof.
  intros Hv Hs HQ. eapply wpa_brelse; [exact Hv|right; left|done|].
  intros k' Hk' Hfr. apply HQ; [|done]. pose proof (bi_nodup _ _ (bd_inv _ _ _ (proj2 Hv))) as Hnd.
  cbn in Hnd. apply NoDup_cons in Hnd as [Hx Hnd]. apply NoDup_cons in Hnd as [Hb _].
  rewrite filter_cons, decide_True in Hk' by (cbn in *; set_solver).
  rewrite filter_cons, decide_False, filter_out in Hk' by (cbn; tauto). done.
Qed.

(** Abstract states are compared pointwise. *)
#[global] Instance bstate_equiv : Equiv bstate := λ a a',
  (∀ x, a_view a x = a_view a' x) ∧ (∀ x, a_disk a x = a_disk a' x) ∧
  a_dirty a = a_dirty a' ∧ a_trace a = a_trace a'.
#[global] Instance bstate_equivalence : Equivalence (≡@{bstate}).
Proof.
  split.
  - done.
  - intros a a' (?&?&?&?). split_and!; done.
  - intros a1 a2 a3 (H1&H2&?&?) (H1'&H2'&?&?). split_and!; [|..|congruence|congruence].
    + intros x. by rewrite H1, H1'.
    + intros x. by rewrite H2, H2'.
Qed.
#[global] Instance bdat_proper H : Proper ((≡) ==> (=) ==> iff) (bdat H).
Proof.
  assert (Himp : ∀ a a' k, a ≡ a' → bdat H a k → bdat H a' k).
  { intros a a' k (H1 & H2 & H3 & H4) []. split; [done|..].
    - intros b bn ?. rewrite <-H1. auto.
    - intros bn. by rewrite <-H1.
    - intros bn. by rewrite <-H2.
    - by rewrite <-H3.
    - by rewrite <-H4. }
  intros a a' Ha k ? <-. split; by apply Himp.
Qed.
#[global] Instance binv_proper p H : Proper ((≡) ==> (=) ==> iff) (binv p H).
Proof. intros a a' Ha k ? <-. unfold binv. by rewrite Ha. Qed.

Lemma a_set_set bn d d' a : a_set bn d' (a_set bn d a) ≡ a_set bn d' a.
Proof. split_and!; try done. intros x. cbn. unfold vupd. by destruct (decide (x = bn)). Qed.
Lemma a_set_same bn a : a_set bn (a_view a bn) a ≡ a.
Proof. split_and!; try done. intros x. cbn. unfold vupd. by destruct (decide (x = bn)) as [->|]. Qed.

(** The example machine after [binit], with the given drives. *)
Lemma kernel0_binit disk :
  (∀ u s, length (disk_get disk u s) = Z.to_nat BSIZE) →
  ∃ bc m, let k := set_bc bc (set_mach m (kernel0 disk)) in
    binit (kernel0 disk) = Ok tt k ∧ binv 0 [] (mkA (disk_get disk 1) (disk_get disk 1) ∅ []) k ∧
    ∀ i bf bn, isbuf k i bf → ¬ keyed bn bf.
Proof.
  intros Hd.
  destruct (wp_ok binit (λ _ k, ∃ bc m, k = set_bc bc (set_mach m (kernel0 disk)) ∧
    binv 0 [] (mkA (disk_get disk 1) (disk_get disk 1) ∅ []) k ∧
    ∀ i bf bn, isbuf k i bf → ¬ keyed bn bf) (kernel0 disk)) as ([] & k & Hr & bc & m & -> & Hv).
  - apply wp_binit; [done| |done|].
    + intros i bf (-> & _)%lookup_replicate. done.
    + intros bc m Hm k1 (Hinv & _ & Hvw & Hnd). exists bc, m. split; [done|]. split; [|exact Hnd].
      destruct (ready_initlock 0 L_bcache (kernel0 disk)) as (m' & Hm' & Hr); [apply kernel0_ready|].
      assert (m' = m) as -> by congruence. split; [done|]. split; try done.
      * by intros b bn ?%not_elem_of_nil.
      * intros bn. split; [|set_solver]. intros (i & bf & Hi & Hk & _). by destruct (Hnd i bf bn Hi).
  - exists bc, m. exact (conj Hr Hv).
Qed.

(** The example machine, holding block 7. *)
Lemma zero_disk_len u s : length (disk_get ∅ u s) = Z.to_nat BSIZE.
Proof. unfold disk_get. by rewrite lookup_empty. Qed.

Lemma kernel0_held : ∃ a k b, binv 0 [(b, 7)] a k.
Proof.
  destruct (kernel0_binit ∅ zero_disk_len) as (bc & m & _ & Hv & _). set (k := set_bc _ _) in Hv.
  destruct (wp_ok (bread ROOTDEV 7) (λ b k', ∃ a, binv 0 [(b, 7)] a k') k) as (b & k' & _ & a & Hv').
  - eapply wpa_bread; [exact Hv|unfold FSSIZE; lia|apply not_elem_of_nil|left; vm_compute; lia|].
    intros b k' Hv' _. by eexists.
  - by exists a, k', b.
Qed.

(** ** The properties of the buffer cache *)

(** C3: [bread] by a running process, with fewer than [NBUF] buffers in use or
    pinned, returns a busy buffer that holds the block's current contents
    (from the cache, or read from the disk), and no block's contents, pending
    change or disk sector is different afterwards, whatever buffer was
    recycled. *)
Theorem bread_coherent p H a bn k :
  binv p H a k → 0 <= bn < FSSIZE → bn ∉ H.*2 → (length H + size (a_dirty a) < HEAD)%nat →
  ∃ b bf k', bread ROOTDEV bn k = Ok b k' ∧ binv p ((b, bn) :: H) a k' ∧ bframe k k' ∧
    k_bc k' !! b = Some bf ∧ busy bf = true ∧ valid bf = true ∧ keyed bn bf ∧ b_data bf = bview k bn.
Proof.
  intros Hv Hbn Hh Hsz.
  destruct (wp_ok (bread ROOTDEV bn) (λ b k', binv p ((b, bn) :: H) a k' ∧ bframe k k') k) as (b & k' & Hr & Hv' & Hf).
  { eapply wpa_bread; [done..|by left|]. done. }
  destruct (bd_held _ _ _ (proj2 Hv') b bn) as (bf & Hi & Hk & Hval & Hd); [left|].
  exists b, bf, k'. rewrite (bd_view _ _ _ (proj2 Hv)). split_and!; try done; [apply Hi|].
  apply (bi_busy _ _ (bd_inv _ _ _ (proj2 Hv')) b bf Hi). left.
Qed.

Lemma bread_coherent_witness :
  ∃ p a k b bf k', binv p [] a k ∧
    bread ROOTDEV 7 k = Ok b k' ∧ binv p [(b, 7)] a k' ∧ bframe k k' ∧
    k_bc k' !! b = Some bf ∧ busy bf = true ∧ valid bf = true ∧ keyed 7 bf ∧ b_data bf = bview k 7.
Proof.
  destruct (kernel0_binit ∅ zero_disk_len) as (bc & m & _ & Hv & _). set (k := set_bc _ _) in Hv.
  destruct (bread_coherent 0 [] _ 7 k Hv) as (b & bf & k' & HQ).
  - unfold FSSIZE. lia.
  - apply not_elem_of_nil.
  - vm_compute. lia.
  - exists 0%nat. eexists. exists k, b, bf, k'. exact (conj Hv HQ).
Defined.

(** C6: [bwrite] then [brelse] of a held buffer: the drive has the block, the
    block is clean, exactly one sector was written, and every block reads as
    before. *)
Theorem bwrite_durable p H a b bn k :
  binv p ((b, bn) :: H) a k →
  ∃ k', (bwrite b;; brelse b) k = Ok tt k' ∧
    disk_of k' bn = bview k bn ∧ ¬ bdirty k' bn ∧
    ide_trace (k_ide k') = ide_trace (k_ide k) ++ [((1, bn), bview k bn)] ∧
    (∀ x, bview k' x = bview k x) ∧ (∀ x, x ≠ bn → disk_of k' x = disk_of k x) ∧ bio_inv H.*1 k'.
Proof.
  intros Hv. destruct (wp_ok (bwrite b;; brelse b) (λ _ k', binv p H (a_write bn a) k') k) as ([] & k' & Hr & Hv').
  { wp_steps. eapply wpa_bwrite; [done|left|]. intros k1 Hv1 _.
    eapply wpa_brelse1; [done|right; cbn; by rewrite vupd_eq|]. done. }
  exists k'. destruct Hv as [_ Hv], Hv' as [_ Hv']. split; [done|].
  rewrite (bd_disk _ _ _ Hv'), (bd_view _ _ _ Hv), (bd_dirty _ _ _ Hv'), (bd_trace _ _ _ Hv'), (bd_trace _ _ _ Hv).
  split_and!; [apply vupd_eq|cbn; set_solver|done|..|apply (bd_inv _ _ _ Hv')].
  - intros x. by rewrite (bd_view _ _ _ Hv), (bd_view _ _ _ Hv').
  - intros x Hx. rewrite (bd_disk _ _ _ Hv), (bd_disk _ _ _ Hv'). by apply vupd_ne.
Qed.

Lemma bwrite_durable_witness :
  ∃ k b k', (bwrite b;; brelse b) k = Ok tt k' ∧
    disk_of k' 7 = bview k 7 ∧ ¬ bdirty k' 7 ∧
    ide_trace (k_ide k') = ide_trace (k_ide k) ++ [((1, 7), bview k 7)] ∧
    (∀ x, bview k' x = bview k x) ∧ (∀ x, x ≠ 7 → disk_of k' x = disk_of k x) ∧ bio_inv [] k'.
Proof.
  destruct kernel0_held as (a & k & b & Hv). exists k, b. exact (bwrite_durable 0 [] a b 7 k Hv).
Defined.

(** Replacement is least recently used.  When no buffer has the block,
    [bget] takes the buffer nearest to the old end of the list that is
    neither busy nor dirty and leaves the order alone; the [brelse] that
    follows moves it to the front and keeps the order of the others. *)
Theorem buffers_lru pr dev bn l k b k' :
  at_mach [] pr (k_mach k) → ring (k_bc k) l →
  Forall (λ i, ∃ bf, k_bc k !! i = Some bf ∧ buf_is dev bn bf = false) l →
  bget dev bn k = Ok b k' →
  ∃ l1 l2 k2, l = l1 ++ b :: l2 ∧
    Forall (λ i, ∃ bf, k_bc k !! i = Some bf ∧ busy bf || dirty bf = true) l2 ∧
    ring (k_bc k') l ∧ brelse b k' = Ok tt k2 ∧ ring (k_bc k2) (b :: l1 ++ l2).
Proof.
  intros Hm Hring Hno Hrun.
  destruct (wp_elim _ _ _ _ _ _ (wp_bget_lru pr dev bn l k Hm Hring Hno) Hrun)
    as (Hm' & Hring' & (bf & Hb & Hbf) & l1 & l2 & -> & Hl2).
  pose proof Hring' as (Hlen & _ & Hin & _).
  destruct (wp_ok (brelse b) (λ _ k2, ring (k_bc k2) (b :: l1 ++ l2)) k') as ([] & k2 & Hr2 & Hring2).
  { eapply wp_brelse_run; [done|done|split; [|done]|by unfold busy; rewrite Hbf|].
    - apply Hin. set_solver.
    - intros m2 _. cbn. by apply ring_unbusy, ring_brelse. }
  by exists l1, l2, k2.
Qed.

(** The example machine after [binit]: block 8 is not cached. *)
Lemma kernel0_miss :
  ∃ k l, at_mach [] (Some 0%nat) (k_mach k) ∧ ring (k_bc k) l ∧
    Forall (λ i, ∃ bf, k_bc k !! i = Some bf ∧ buf_is ROOTDEV 8 bf = false) l ∧
    ∃ b k', bget ROOTDEV 8 k = Ok b k'.
Proof.
  destruct (kernel0_binit ∅ zero_disk_len) as (bc & m & _ & [[[Hm _] _] Hd] & Hnk). set (k := set_bc _ _) in *.
  pose proof (bd_inv _ _ _ Hd) as Hinv. destruct (bi_ring _ _ Hinv) as [l Hring].
  pose proof Hring as (Hlen & _ & Hin & _).
  assert (Hno : Forall (λ i, ∃ bf, k_bc k !! i = Some bf ∧ buf_is ROOTDEV 8 bf = false) l).
  { apply Forall_forall. intros i Hi%Hin. destruct (lookup_lt_is_Some_2 (k_bc k) i) as [bf Hb]; [lia|].
    exists bf. split; [done|]. destruct (buf_is ROOTDEV 8 bf) eqn:Hk; [|done]. apply buf_is_spec in Hk.
    by destruct (Hnk i bf 8). }
  exists k, l. split_and!; [done..|].
  destruct (wp_ok (bget ROOTDEV 8) (λ _ _, True) k) as (b & k' & Hr & _); [|by exists b, k'].
  eapply wp_mono; [by eapply wp_bget_lru|done|]. intros msg Hall. cbn beta in Hall. rewrite Forall_forall in Hall.
  destruct (Hall 0%nat) as (bf & Hb & Hbd); [apply Hin; unfold HEAD, NBUF, MAXOPBLOCKS; lia|].
  assert (Hi : isbuf k 0 bf) by (split; [unfold HEAD, NBUF, MAXOPBLOCKS; lia|done]).
  apply orb_true_iff in Hbd as [Hbusy|Hdy].
  - apply (bi_busy _ _ Hinv 0%nat bf Hi) in Hbusy. by apply not_elem_of_nil in Hbusy.
  - destruct (bi_key _ _ Hinv 0%nat bf Hi) as [[Hk _]|(_ & ? & _)]; [|congruence]. by destruct (Hnk 0%nat bf (b_blockno bf)).
Qed.

Lemma buffers_lru_witness :
  ∃ k l b k' l1 l2 k2, bget ROOTDEV 8 k = Ok b k' ∧ l = l1 ++ b :: l2 ∧
    Forall (λ i, ∃ bf, k_bc k !! i = Some bf ∧ busy bf || dirty bf = true) l2 ∧
    ring (k_bc k') l ∧ brelse b k' = Ok tt k2 ∧ ring (k_bc k2) (b :: l1 ++ l2).
Proof.
  destruct kernel0_miss as (k & l & Hm & Hring & Hno & b & k' & Hr).
  destruct (buffers_lru (Some 0%nat) ROOTDEV 8 l k b k' Hm Hring Hno Hr) as (l1 & l2 & k2 & HQ).
  exists k, l, b, k', l1, l2, k2. exact (conj Hr HQ).
Defined.
