(* ===== verification/Frame.v ===== *)
(** * Frame: what scheduling, the disk driver and the buffer cache leave alone

    [Inert f] says that the part [f] of the kernel's globals does not depend
    on the machine, on which processes run and what they wait for, on the
    drives or on the buffers.  Every
    operation of the lower layers keeps such a part, in every run, also one
    in which it sleeps. *)

From stdpp Require Import prelude gmap strings.
From S2P Require Import Prelude Types Spinlock Sched Ide Bio.
Open Scope Z_scope.

(** A process without what scheduling changes in it. *)
Definition image (p : proc) : proc := set_p_state UNUSED (set_p_chan None (set_p_context CtxNone p)).
Definition same_images (t t' : ptable) : Prop :=
  image <$> pt_proc t = image <$> pt_proc t' ∧ pt_initproc t = pt_initproc t' ∧ pt_nextpid t = pt_nextpid t'.

Lemma same_images_alter g i t : (∀ p, image (g p) = image p) → same_images (set_procs (alter g i) t) t.
Proof. intros Hg. split; [|done]. by apply fmap_alter_same. Qed.
Lemma same_images_map g t : (∀ p, image (g p) = image p) → same_images (set_procs (map g) t) t.
Proof.
  intros Hg. split; [|done]. cbn. rewrite <-list_fmap_compose. apply list_fmap_ext. intros i p _. apply Hg.
Qed.
Lemma image_wakeup1 ch p : image (wakeup1_proc ch p) = image p.
Proof. unfold wakeup1_proc. by destruct (bool_decide _). Qed.

Class Inert {B} (f : kernel → B) : Prop := {
  inert_mach : ∀ m k, f (set_mach m k) = f k;
  inert_sched : ∀ t k, same_images t (k_pt k) → f (set_pt t k) = f k;
  inert_ide : ∀ x k, f (set_ide x k) = f k;
  inert_bc : ∀ x k, f (set_bc x k) = f k
}.
#[global] Instance inert_log : Inert k_log.
Proof. by split. Qed.
#[global] Instance inert_ic : Inert k_ic.
Proof. by split. Qed.
#[global] Instance inert_ft : Inert k_ft.
Proof. by split. Qed.
#[global] Instance inert_pipes : Inert k_pipes.
Proof. by split. Qed.
#[global] Instance inert_kmem : Inert k_kmem.
Proof. by split. Qed.
#[global] Instance inert_cons : Inert k_cons.
Proof. by split. Qed.

Section inert.
Context {B : Type} (f : kernel → B) `{!Inert f}.

Lemma keeps_on_mach {A} (m : M machine A) : keeps f (on_mach m).
Proof. intros k. unfold on_mach. destruct (m (k_mach k)); try done; apply inert_mach. Qed.
Lemma keeps_updbuf b g : keeps f (updbuf b g).
Proof. apply keeps_modify. intros. apply inert_bc. Qed.
Lemma keeps_updproc i g : (∀ p, image (g p) = image p) → keeps f (updproc i g).
Proof. intros Hg. apply keeps_modify. intros. by apply inert_sched, same_images_alter. Qed.
Lemma keeps_set_state i s : keeps f (updproc i (set_p_state s)).
Proof. by apply keeps_updproc. Qed.
Lemma keeps_set_chan i c : keeps f (updproc i (set_p_chan c)).
Proof. by apply keeps_updproc. Qed.
Lemma keeps_set_context i c : keeps f (updproc i (set_p_context c)).
Proof. by apply keeps_updproc. Qed.
Lemma keeps_wakeup1 ch : keeps f (wakeup1 ch).
Proof. apply keeps_modify. intros. apply inert_sched, same_images_map, image_wakeup1. Qed.
Lemma keeps_outb port v : keeps f (outb port v).
Proof. apply keeps_modify. intros. apply inert_ide. Qed.
Lemma keeps_outsl d : keeps f (outsl_block d).
Proof. apply keeps_modify. intros. apply inert_ide. Qed.
Lemma keeps_set_idequeue q : keeps f (set_idequeue q).
Proof. apply keeps_modify. intros. apply inert_ide. Qed.
Lemma keeps_swtch_out : keeps f swtch_out.
Proof. done. Qed.
End inert.
#[export] Hint Resolve keeps_on_mach keeps_updbuf keeps_set_state keeps_set_chan keeps_set_context keeps_wakeup1 keeps_outb keeps_outsl
  keeps_set_idequeue keeps_swtch_out : keeps.

Section inert_ops.
Context {B : Type} (f : kernel → B) `{!Inert f}.

Lemma keeps_getbuf b : keeps f (getbuf b).
Proof. unfold getbuf. keeps_tac. Qed.
Lemma keeps_getproc i : keeps f (getproc i).
Proof. unfold getproc. keeps_tac. Qed.
Lemma keeps_myproc : keeps f myproc.
Proof. unfold myproc. keeps_tac. Qed.
Lemma keeps_acquire l : keeps f (acquire l).
Proof. unfold acquire. keeps_tac. Qed.
Lemma keeps_release l : keeps f (release l).
Proof. unfold release. keeps_tac. Qed.
#[local] Hint Resolve keeps_getbuf keeps_getproc keeps_myproc keeps_acquire keeps_release : keeps.

Lemma keeps_sched : keeps f sched.
Proof. unfold sched. keeps_tac. Qed.
#[local] Hint Resolve keeps_sched : keeps.
Lemma keeps_sleep ch l : keeps f (sleep ch l).
Proof. unfold sleep. keeps_tac. Qed.
Lemma keeps_sleep_return l : keeps f (sleep_return l).
Proof. unfold sleep_return, sleep_wake. keeps_tac. Qed.
Lemma keeps_wakeup ch : keeps f (wakeup ch).
Proof. unfold wakeup. keeps_tac. Qed.
Lemma keeps_scheduler_visit i : keeps f (scheduler_visit i).
Proof. unfold scheduler_visit, set_cpuproc, switchuvm. keeps_tac. Qed.
#[local] Hint Resolve keeps_sleep keeps_sleep_return keeps_wakeup keeps_scheduler_visit : keeps.

Lemma keeps_sleep_until env ch l : keeps f env → keeps f (sleep_until env ch l).
Proof.
  intros Henv k. unfold sleep_until. pose proof (keeps_sleep ch (Some l) k) as Hs.
  destruct (curproc (k_mach k)) as [i|]; [|done].
  destruct (m_cpus (k_mach k) !! m_me (k_mach k)) as [c|]; [|done].
  destruct (sleep ch (Some l) k) as [| |k1| |]; try done.
  apply keeps_from; [done|]. unfold scheduler_idle, set_cpuproc, sched_return. keeps_tac.
Qed.

Lemma keeps_idewait c : keeps f (idewait c).
Proof. unfold idewait, inb_status. keeps_tac. Qed.
#[local] Hint Resolve keeps_idewait : keeps.
Lemma keeps_idestart b : keeps f (idestart b).
Proof. unfold idestart. keeps_tac. Qed.
#[local] Hint Resolve keeps_idestart : keeps.
Lemma keeps_ideintr : keeps f ideintr.
Proof. unfold ideintr, insl_block. keeps_tac. Qed.
#[local] Hint Resolve keeps_ideintr : keeps.
Lemma keeps_disk_interrupts n i : keeps f (disk_interrupts n i).
Proof. induction n; cbn [disk_interrupts]; keeps_tac. Qed.
#[local] Hint Resolve keeps_disk_interrupts keeps_sleep_until : keeps.
Lemma keeps_iderw_wait n b : keeps f (iderw_wait n b).
Proof. induction n; cbn [iderw_wait]; keeps_tac. Qed.
Lemma keeps_queue_last n q : keeps f (queue_last n q).
Proof. revert q. induction n; intros q; cbn [queue_last]; keeps_tac. Qed.
#[local] Hint Resolve keeps_iderw_wait keeps_queue_last : keeps.
Lemma keeps_iderw b : keeps f (iderw b).
Proof. unfold iderw, ide_append. keeps_tac. Qed.
Lemma keeps_walk_next g n b : keeps f (walk_next g n b).
Proof. revert b. induction n; intros b; cbn [walk_next]; keeps_tac. Qed.
Lemma keeps_walk_prev g n b : keeps f (walk_prev g n b).
Proof. revert b. induction n; intros b; cbn [walk_prev]; keeps_tac. Qed.
#[local] Hint Resolve keeps_iderw keeps_walk_next keeps_walk_prev : keeps.
Lemma keeps_bget_loop n dev bn : keeps f (bget_loop n dev bn).
Proof. induction n; cbn [bget_loop]; keeps_tac. Qed.
#[local] Hint Resolve keeps_bget_loop : keeps.
Lemma keeps_bread dev bn : keeps f (bread dev bn).
Proof. unfold bread, bget. keeps_tac. Qed.
Lemma keeps_bwrite b : keeps f (bwrite b).
Proof. unfold bwrite. keeps_tac. Qed.
Lemma keeps_brelse b : keeps f (brelse b).
Proof. unfold brelse. keeps_tac. Qed.
End inert_ops.
#[export] Hint Resolve keeps_getbuf keeps_getproc keeps_myproc keeps_acquire keeps_release keeps_sleep
  keeps_sleep_return keeps_wakeup keeps_bread keeps_bwrite keeps_brelse : keeps.
#[export] Hint Extern 1 (Inert _) => typeclasses eauto : keeps.
