(* ===== verification/Log.v ===== *)
(** * Log: write-ahead logging of file system calls (kernel/log.c)

    The transaction interface [begin_op], [log_write], [end_op], the commit
    and the recovery of [log.c], and [fs.c]'s [readsb], which [initlog] calls.
    The theorems: [commit] writes the logged blocks, the header, the home
    locations and the cleared header in this order; a crash after any number
    of these writes, and after any number of crashes during recovery, leaves
    a disk from which recovery rebuilds the state before the transaction or
    the state after it. *)

From stdpp Require Import prelude gmap strings.
From S2P Require Import Prelude Types Spinlock Sched Ide Bio Block Frame.
Open Scope Z_scope.

Definition getlog : K log := gets k_log.
Definition updlog (f : log → log) : K unit := modify (λ k, set_log (f (k_log k)) k).

Definition set_lh (n : Z) (bl : list Z) (l : log) : log :=
  mkLog (log_start l) (log_size l) (log_outstanding l) (log_committing l) (log_dev l) (mkLh n bl).
Definition set_outstanding (v : Z) (l : log) : log :=
  mkLog (log_start l) (log_size l) v (log_committing l) (log_dev l) (log_lh l).
Definition set_committing (v : bool) (l : log) : log :=
  mkLog (log_start l) (log_size l) (log_outstanding l) v (log_dev l) (log_lh l).
Definition set_geometry (start size dev : Z) (l : log) : log :=
  mkLog start size (log_outstanding l) (log_committing l) dev (log_lh l).

(** [memmove(to->data, from->data, BSIZE)]. *)
Definition copy_block (to from : nat) : K unit :=
  bf ← getbuf from; updbuf to (set_b_data (b_data bf)).

(** ** The superblock (fs.c) *)

Definition sb_of_block (b : block) : superblock :=
  mkSb (get32 0 b) (get32 4 b) (get32 8 b) (get32 12 b).

Definition readsb (dev : Z) : K superblock :=
  bp ← bread dev 1;
  bf ← getbuf bp;
  let sb := sb_of_block (b_data bf) in
  brelse bp;;
  mret sb.

(** ** log.c *)

(** Copy committed blocks from log to their home location. *)
Definition install_one (tail : Z) : K unit :=
  l ← getlog;
  lbuf ← bread (log_dev l) (u32 (log_start l + tail + 1));
  bn ← need (lh_block (log_lh l) !! Z.to_nat tail);
  dbuf ← bread (log_dev l) (u32 bn);
  copy_block dbuf lbuf;;
  bwrite dbuf;;
  brelse lbuf;;
  brelse dbuf.
Definition install_trans : K unit :=
  l ← getlog; for_each (seqZ 0 (lh_n (log_lh l))) install_one.

(** The on-disk header: [n] and [block[LOGSIZE]] as 32-bit integers. *)
Definition hb_n (b : block) : Z := i32 (get32 0 b).
Definition hb_block (i : Z) (b : block) : Z := i32 (get32 (Z.to_nat (4 + 4 * i)) b).

(** Read the log header from disk into the in-memory log header; an index
    outside the array [log.lh.block] faults. *)
Definition read_head_one (hb : block) (i : Z) : K unit :=
  l ← getlog;
  need (lh_block (log_lh l) !! Z.to_nat i);;
  updlog (λ l, set_lh (lh_n (log_lh l)) (<[Z.to_nat i := hb_block i hb]> (lh_block (log_lh l))) l).
Definition read_head : K unit :=
  l ← getlog;
  b ← bread (log_dev l) (u32 (log_start l));
  bf ← getbuf b;
  updlog (λ l, set_lh (hb_n (b_data bf)) (lh_block (log_lh l)) l);;
  for_each (seqZ 0 (hb_n (b_data bf))) (read_head_one (b_data bf));;
  brelse b.

(** Write in-memory log header to disk.  This is the true point at which the
    current transaction commits. *)
Definition write_head_one (b : nat) (i : Z) : K unit :=
  l ← getlog;
  bn ← need (lh_block (log_lh l) !! Z.to_nat i);
  updbuf b (λ x, set_b_data (put32 (Z.to_nat (4 + 4 * i)) bn (b_data x)) x).
Definition write_head : K unit :=
  l ← getlog;
  b ← bread (log_dev l) (u32 (log_start l));
  updbuf b (λ x, set_b_data (put32 0 (lh_n (log_lh l)) (b_data x)) x);;
  for_each (seqZ 0 (lh_n (log_lh l))) (write_head_one b);;
  bwrite b;;
  brelse b.

Definition clear_head : K unit := updlog (λ l, set_lh 0 (lh_block (log_lh l)) l).

Definition recover_from_log : K unit :=
  read_head;;
  install_trans;;
  clear_head;;
  write_head.

Definition initlog : K unit :=
  if BSIZE <=? 4 + 4 * LOGSIZE then panic "initlog: too big logheader" else
  on_mach (initlock L_log);;
  sb ← readsb ROOTDEV;
  updlog (set_geometry (i32 (u32 (sb_size sb - sb_nlog sb))) (i32 (sb_nlog sb)) ROOTDEV);;
  recover_from_log.

(** Called at the start of each FS system call: the [while(1)] with its two
    reasons to wait. *)
Fixpoint begin_op_loop (rounds : nat) : K unit :=
  l ← getlog;
  if log_committing l || (LOGSIZE <? lh_n (log_lh l) + (log_outstanding l + 1) * MAXOPBLOCKS) then
    sleep ChLog (Some L_log);;
    sleep_return L_log;;
    match rounds with O => spin | S rounds => begin_op_loop rounds end
  else
    updlog (λ l, set_outstanding (log_outstanding l + 1) l);;
    release L_log.
Definition begin_op : K unit := acquire L_log;; begin_op_loop 0.

(** Copy modified blocks from cache to log. *)
Definition write_log_one (tail : Z) : K unit :=
  l ← getlog;
  to ← bread (log_dev l) (u32 (log_start l + tail + 1));
  bn ← need (lh_block (log_lh l) !! Z.to_nat tail);
  from ← bread (log_dev l) (u32 bn);
  copy_block to from;;
  bwrite to;;
  brelse from;;
  brelse to.
Definition write_log : K unit :=
  l ← getlog; for_each (seqZ 0 (lh_n (log_lh l))) write_log_one.

Definition commit : K unit :=
  l ← getlog;
  when (0 <? lh_n (log_lh l)) (
    write_log;;
    write_head;;
    install_trans;;
    clear_head;;
    write_head).

(** Called at the end of each FS system call; commits if this was the last
    outstanding operation. *)
Definition end_op : K unit :=
  acquire L_log;;
  updlog (λ l, set_outstanding (log_outstanding l - 1) l);;
  l ← getlog;
  if log_committing l then panic "log.committing" else
  let do_commit := log_outstanding l =? 0 in
  (if do_commit then updlog (set_committing true) else wakeup ChLog);;
  release L_log;;
  when do_commit (
    commit;;
    acquire L_log;;
    updlog (set_committing false);;
    wakeup ChLog;;
    release L_log).

(** The index [log_write]'s loop stops at. *)
Fixpoint log_find (bn : Z) (bl : list Z) : Z :=
  match bl with
  | [] => 0
  | x :: bl => if u32 x =? bn then 0 else 1 + log_find bn bl
  end.

(** Caller has modified b->data and is done with the buffer.  Record the block
    number and pin in the cache with B_DIRTY. *)
Definition log_write (b : nat) : K unit :=
  l ← getlog;
  if (LOGSIZE <=? lh_n (log_lh l)) || (log_size l - 1 <=? lh_n (log_lh l))
  then panic "too big a transaction" else
  if log_outstanding l <? 1 then panic "log_write outside of trans" else
  acquire L_log;;
  bf ← getbuf b;
  l ← getlog;
  let n := lh_n (log_lh l) in
  let i := log_find (b_blockno bf) (take (Z.to_nat n) (lh_block (log_lh l))) in
  need (lh_block (log_lh l) !! Z.to_nat i);;
  updlog (set_lh (if i =? n then n + 1 else n) (<[Z.to_nat i := i32 (b_blockno bf)]> (lh_block (log_lh l))));;
  updbuf b (λ x, set_b_flags (Z.lor (b_flags x) B_DIRTY) x);;
  release L_log.

(** ** Invariants *)

(** The logged block numbers. *)
Definition logged (k : kernel) : list Z := take (Z.to_nat (lh_n (log_lh (k_log k)))) (lh_block (log_lh (k_log k))).

(** Where the log is: [start] is its header, [start+1] to [start+size-1] hold
    blocks. *)
Definition in_log (l : log) (bn : Z) : Prop := log_start l <= bn < log_start l + log_size l.

(** A well-formed log on the root device. *)
Record log_ok (l : log) : Prop := {
  lo_dev : log_dev l = ROOTDEV;
  lo_start : 0 <= log_start l;
  lo_end : log_start l + log_size l <= FSSIZE;
  lo_size : log_size l <= NBUF;
  lo_len : length (lh_block (log_lh l)) = Z.to_nat LOGSIZE;
  lo_n : 0 <= lh_n (log_lh l) <= LOGSIZE;
  lo_fit : lh_n (log_lh l) < log_size l;
  lo_nodup : NoDup (take (Z.to_nat (lh_n (log_lh l))) (lh_block (log_lh l)));
  lo_home : ∀ bn, bn ∈ take (Z.to_nat (lh_n (log_lh l))) (lh_block (log_lh l)) →
    0 <= bn < FSSIZE ∧ ¬ in_log l bn
}.

(** The log's blocks. *)
Lemma logged_lookup k i bn :
  logged k !! i = Some bn ↔ (i < Z.to_nat (lh_n (log_lh (k_log k))))%nat ∧ lh_block (log_lh (k_log k)) !! i = Some bn.
Proof. unfold logged. rewrite lookup_take_Some. tauto. Qed.

Lemma logged_length k : log_ok (k_log k) → Z.of_nat (length (logged k)) = lh_n (log_lh (k_log k)).
Proof.
  intros Hok. pose proof (lo_n _ Hok). unfold logged. rewrite length_take, (lo_len _ Hok).
  unfold LOGSIZE, MAXOPBLOCKS in *. lia.
Qed.

Lemma logged_get k i :
  log_ok (k_log k) → 0 <= i < lh_n (log_lh (k_log k)) →
  ∃ bn, lh_block (log_lh (k_log k)) !! Z.to_nat i = Some bn ∧ logged k !! Z.to_nat i = Some bn ∧
    bn ∈ logged k ∧ 0 <= bn < FSSIZE ∧ ¬ in_log (k_log k) bn.
Proof.
  intros Hok Hi. pose proof (logged_length k Hok) as Hlen.
  destruct (lookup_lt_is_Some_2 (logged k) (Z.to_nat i)) as [bn Hbn]; [lia|]. exists bn.
  pose proof (list_elem_of_lookup_2 _ _ _ Hbn) as Hin. pose proof Hbn as [_ ?]%logged_lookup.
  split_and!; try done; by apply (lo_home _ Hok).
Qed.

Lemma log_block_range l i :
  log_ok l → 0 <= i < lh_n (log_lh l) →
  0 <= log_start l + i + 1 < FSSIZE ∧ in_log l (log_start l + i + 1) ∧
  u32 (log_start l + i + 1) = log_start l + i + 1.
Proof.
  intros Hok Hi. pose proof (lo_fit _ Hok). pose proof (lo_start _ Hok). pose proof (lo_end _ Hok).
  unfold in_log, FSSIZE in *. rewrite u32_small by lia. lia.
Qed.

Lemma wp_need_at {A} (l : list A) i x k E (Q : A → kernel → Prop) :
  l !! i = Some x → Q x k → wp (need (l !! i)) E Q k.
Proof. intros. by eapply wp_need. Qed.

(** Copying a block: [memmove] between two held buffers. *)
Lemma wpa_copy p H a to from bto bfrom k E (Q : unit → kernel → Prop) :
  binv p H a k → (to, bto) ∈ H → (from, bfrom) ∈ H →
  (∀ k', binv p H (a_set bto (a_view a bfrom) a) k' → bframe k k' → Q tt k') →
  wp (copy_block to from) E Q k.
Proof.
  intros Hv Hto Hfrom HQ. unfold copy_block. wp_steps.
  eapply wpa_getbuf; [exact Hv|exact Hfrom|]. intros bf Hd _ _ _.
  eapply wpa_setdata; [exact Hv|exact Hto|done| |].
  - intros x _ _. cbn. rewrite Hd. by eapply bdat_len, Hv.
  - intros x k' _ _ Hk' Hfr _. cbn in Hk'. rewrite Hd in Hk'. by apply HQ.
Qed.

(** The abstract effect of copying block [from] to block [to] on the disk. *)
Definition a_copy (to from : Z) (a : bstate) : bstate := a_write to (a_set to (a_view a from) a).

(** One round of [write_log]: the block's contents go to the log block. *)
Lemma wp_write_log_one p a k i bn E (Q : unit → kernel → Prop) :
  binv p [] a k → log_ok (k_log k) → 0 <= i < lh_n (log_lh (k_log k)) → logged k !! Z.to_nat i = Some bn →
  bn ∈ a_dirty a → (size (a_dirty a) < HEAD)%nat →
  (∀ x, in_log (k_log k) x → x ∉ a_dirty a) →
  (∀ k', binv p [] (a_copy (log_start (k_log k) + i + 1) bn a) k' → bframe k k' → Q tt k') →
  wp (write_log_one i) E Q k.
Proof.
  intros Hv Hok Hi Hbn Hd Hsz Hnl HQ. set (la := log_start (k_log k) + i + 1) in *.
  destruct (log_block_range _ i Hok Hi) as (Hla & Hinl & Hw). fold la in Hla, Hinl, Hw.
  destruct (logged_get k i Hok Hi) as (bn' & Hblk & Hlg & _ & Hrange & Hnin).
  assert (bn' = bn) as -> by congruence.
  unfold write_log_one, getlog. wp_steps. rewrite (lo_dev _ Hok). fold la. rewrite Hw.
  eapply wpa_bread; [done|done|apply not_elem_of_nil|by left|]. intros to k1 Hv1 Hf1. wp_steps.
  eapply wp_need_at; [done|]. wp_steps. rewrite u32_small by (unfold FSSIZE in *; lia).
  eapply wpa_bread; [exact Hv1|done| |by right; left|].
  { cbn. intros [->|[]%not_elem_of_nil]%elem_of_cons. done. }
  intros from k2 Hv2 Hf2. wp_steps.
  eapply (wpa_copy _ _ _ to from la bn); [exact Hv2|set_solver..|]. intros k3 Hv3 Hf3. wp_steps.
  eapply (wpa_bwrite _ _ _ to la); [exact Hv3|set_solver|]. intros k4 Hv4 Hf4. wp_steps.
  assert (Hne : bn ≠ la) by (intros ->; done).
  eapply wpa_brelse1; [exact Hv4| |].
  { left. cbn. set_solver. }
  intros k5 Hv5 Hf5. eapply wpa_brelse1; [exact Hv5| |].
  { right. cbn. by rewrite !vupd_eq. }
  intros k6 Hv6 Hf6. apply HQ; [done|].
  by rewrite Hf1, Hf2, Hf3, Hf4, Hf5.
Qed.

(** One round of [install_trans]: the log block goes to its home. *)
Lemma wp_install_one p a k i bn E (Q : unit → kernel → Prop) :
  binv p [] a k → log_ok (k_log k) → 0 <= i < lh_n (log_lh (k_log k)) → logged k !! Z.to_nat i = Some bn →
  (size (a_dirty a) < HEAD)%nat → bn ∈ a_dirty a ∨ (1 + size (a_dirty a) < HEAD)%nat →
  (∀ x, in_log (k_log k) x → x ∉ a_dirty a) →
  (∀ k', binv p [] (a_copy bn (log_start (k_log k) + i + 1) a) k' → bframe k k' → Q tt k') →
  wp (install_one i) E Q k.
Proof.
  intros Hv Hok Hi Hbn Hsz Hd Hnl HQ. set (la := log_start (k_log k) + i + 1) in *.
  destruct (log_block_range _ i Hok Hi) as (Hla & Hinl & Hw). fold la in Hla, Hinl, Hw.
  destruct (logged_get k i Hok Hi) as (bn' & Hblk & Hlg & _ & Hrange & Hnin).
  assert (bn' = bn) as -> by congruence.
  assert (Hne : bn ≠ la) by (intros ->; done).
  assert (Hsync : a_view a la = a_disk a la).
  { eapply bdat_sync; [apply Hv|apply not_elem_of_nil|by apply Hnl]. }
  unfold install_one, getlog. wp_steps. rewrite (lo_dev _ Hok). fold la. rewrite Hw.
  eapply wpa_bread; [done|done|apply not_elem_of_nil|by left|]. intros lbuf k1 Hv1 Hf1. wp_steps.
  eapply wp_need_at; [done|]. wp_steps. rewrite u32_small by (unfold FSSIZE in *; lia).
  eapply wpa_bread; [exact Hv1|done| |cbn; tauto|].
  { cbn. intros [->|[]%not_elem_of_nil]%elem_of_cons. done. }
  intros dbuf k2 Hv2 Hf2. wp_steps.
  eapply (wpa_copy _ _ _ dbuf lbuf bn la); [exact Hv2|set_solver..|]. intros k3 Hv3 Hf3. wp_steps.
  eapply (wpa_bwrite _ _ _ dbuf bn); [exact Hv3|set_solver|]. intros k4 Hv4 Hf4. wp_steps.
  eapply wpa_brelse2; [exact Hv4| |].
  { right. cbn. by rewrite !vupd_ne. }
  intros k5 Hv5 Hf5. eapply wpa_brelse1; [exact Hv5| |].
  { right. cbn. by rewrite !vupd_eq. }
  intros k6 Hv6 Hf6. apply HQ; [done|].
  by rewrite Hf1, Hf2, Hf3, Hf4, Hf5.
Qed.

(** ** The loops *)

Definition log_writes (start : Z) (v : Z → block) (l : list Z) : list (Z * Z * block) :=
  imap (λ j b, ((1, start + Z.of_nat j + 1), v b)) l.
Definition home_writes (start : Z) (v : Z → block) (l : list Z) : list (Z * Z * block) :=
  imap (λ j b, ((1, b), v (start + Z.of_nat j + 1))) l.

Lemma imap_take_S {A B} (f : nat → A → B) (l : list A) i x :
  l !! i = Some x → imap f (take (S i) l) = imap f (take i l) ++ [f i x].
Proof.
  intros Hx. rewrite (take_S_r _ _ _ Hx), imap_app. cbn. rewrite length_take, Nat.add_0_r.
  apply lookup_lt_Some in Hx. by replace (i `min` length l)%nat with i by lia.
Qed.

(** The state after the first [i] rounds of [write_log]. *)
Definition wrote_log (start : Z) (l : list Z) (a : bstate) (i : Z) (a' : bstate) : Prop :=
  (∀ j b, l !! j = Some b → Z.of_nat j < i →
     a_view a' (start + Z.of_nat j + 1) = a_view a b ∧ a_disk a' (start + Z.of_nat j + 1) = a_view a b) ∧
  (∀ x, ¬ (start < x <= start + i) → a_view a' x = a_view a x ∧ a_disk a' x = a_disk a x) ∧
  a_dirty a' = a_dirty a ∧
  a_trace a' = a_trace a ++ log_writes start (a_view a) (take (Z.to_nat i) l).

Lemma wrote_log_step start l a i a' bn :
  wrote_log start l a i a' → 0 <= i → l !! Z.to_nat i = Some bn → (start + i + 1 ∉ a_dirty a) →
  ¬ (start < bn <= start + i) →
  wrote_log start l a (i + 1) (a_copy (start + i + 1) bn a').
Proof.
  intros (H1 & H2 & H3 & H4) Hi Hbn Hnd Hout. destruct (H2 bn Hout) as [Hv _]. split_and!.
  - intros j b Hj Hlt. cbn. destruct (decide (Z.of_nat j = i)) as [<-|Hne].
    + rewrite !vupd_eq. rewrite Nat2Z.id in Hbn. simplify_eq. done.
    + rewrite !vupd_ne by lia. apply H1; [done|lia].
  - intros x Hx. cbn. rewrite !vupd_ne by lia. apply H2. lia.
  - cbn. rewrite H3. set_solver.
  - cbn. rewrite H4, <-app_assoc, vupd_eq, Hv. f_equal.
    replace (Z.to_nat (i + 1)) with (S (Z.to_nat i)) by lia.
    unfold log_writes. rewrite (imap_take_S _ _ _ _ Hbn). by rewrite Z2Nat.id.
Qed.

Lemma bframe_log k k' : bframe k k' → k_log k' = k_log k.
Proof. intros (_ & H & _). exact H. Qed.

Lemma logged_frame k k' : bframe k k' → logged k' = logged k.
Proof. intros H%bframe_log. unfold logged. by rewrite H. Qed.

(** The marked blocks are the logged ones. *)
Definition pinned (k : kernel) (a : bstate) : Prop := a_dirty a = list_to_set (logged k).

Lemma pinned_size k a : log_ok (k_log k) → pinned k a → (size (a_dirty a) < HEAD)%nat.
Proof.
  intros Hok ->. rewrite size_list_to_set by apply (lo_nodup _ Hok).
  pose proof (logged_length k Hok). pose proof (lo_fit _ Hok). pose proof (lo_size _ Hok).
  unfold HEAD, NBUF, MAXOPBLOCKS in *. lia.
Qed.

Lemma size_empty_HEAD : (size (∅ : gset Z) < HEAD)%nat.
Proof. rewrite size_empty. unfold HEAD, NBUF, MAXOPBLOCKS. lia. Qed.

Lemma pinned_home k a x : log_ok (k_log k) → pinned k a → in_log (k_log k) x → x ∉ a_dirty a.
Proof. intros Hok -> Hx Hin%elem_of_list_to_set. by apply (lo_home _ Hok) in Hin as [_ ?]. Qed.

Lemma wp_write_log p a k E (Q : unit → kernel → Prop) :
  binv p [] a k → log_ok (k_log k) → pinned k a →
  (∀ a' k', binv p [] a' k' → bframe k k' →
     wrote_log (log_start (k_log k)) (logged k) a (lh_n (log_lh (k_log k))) a' → Q tt k') →
  wp write_log E Q k.
Proof.
  intros Hv Hok Hpin HQ. set (l := k_log k) in *. unfold write_log, getlog. wp_steps. fold l.
  eapply wp_post.
  - apply (wp_for_seqZ _ _ _ (λ i k', ∃ a', binv p [] a' k' ∧ bframe k k' ∧
      wrote_log (log_start l) (logged k) a i a')); [apply (lo_n _ Hok)| |].
    + exists a. split_and!; [done|done|]. split_and!; [lia|done|done|].
      by rewrite app_nil_r.
    + intros i k' Hi (a' & Hv' & Hfr & Hw).
      assert (Hl : k_log k' = l) by (by apply bframe_log).
      destruct (logged_get k i Hok Hi) as (bn & _ & Hbn & Hin & _ & Hnl).
      destruct (log_block_range l i Hok Hi) as (_ & Hinl & _).
      pose proof Hw as (_ & _ & Hd & _).
      eapply (wp_write_log_one p a' k' i bn); rewrite ?Hl; try done.
      * by rewrite (logged_frame k k').
      * rewrite Hd, Hpin. by apply elem_of_list_to_set.
      * rewrite Hd. by eapply pinned_size.
      * intros x Hx. rewrite Hd. by eapply pinned_home.
      * intros k2 Hv2 Hf2. eexists. split_and!; [exact Hv2|by rewrite Hfr|].
        eapply wrote_log_step; [done|lia|done|by eapply pinned_home|].
        unfold in_log in *. pose proof (lo_fit _ Hok). subst l. lia.
  - intros [] k' (a' & Hv' & Hfr & Hw). by apply (HQ a').
Qed.

(** The state after the first [i] rounds of [install_trans]. *)
Definition installed (start : Z) (l : list Z) (a : bstate) (i : Z) (a' : bstate) : Prop :=
  (∀ j b, l !! j = Some b → Z.of_nat j < i →
     a_view a' b = a_view a (start + Z.of_nat j + 1) ∧ a_disk a' b = a_view a (start + Z.of_nat j + 1)) ∧
  (∀ x, x ∉ take (Z.to_nat i) l → a_view a' x = a_view a x ∧ a_disk a' x = a_disk a x) ∧
  a_dirty a' = a_dirty a ∖ list_to_set (take (Z.to_nat i) l) ∧
  a_trace a' = a_trace a ++ home_writes start (a_view a) (take (Z.to_nat i) l).

Lemma NoDup_take_lookup {A} (l : list A) i x : NoDup l → l !! i = Some x → x ∉ take i l.
Proof.
  intros Hnd Hx (j & Hj)%list_elem_of_lookup. apply lookup_take_Some in Hj as [Hj Hlt].
  pose proof (NoDup_lookup _ _ _ _ Hnd Hx Hj). lia.
Qed.

Lemma installed_step start l a i a' bn :
  installed start l a i a' → 0 <= i → NoDup l → l !! Z.to_nat i = Some bn → (start + i + 1 ∉ l) →
  installed start l a (i + 1) (a_copy bn (start + i + 1) a').
Proof.
  intros (H1 & H2 & H3 & H4) Hi Hnd Hbn Hout.
  destruct (H2 (start + i + 1)) as [Hv _].
  { intros (j & Hj & _)%elem_of_take. by apply Hout, (list_elem_of_lookup_2 _ j). }
  replace (Z.to_nat (i + 1)) with (S (Z.to_nat i)) by lia. unfold installed.
  replace (Z.to_nat (i + 1)) with (S (Z.to_nat i)) by lia. split_and!.
  - intros j b Hj Hlt. cbn. destruct (decide (Z.of_nat j = i)) as [<-|Hne].
    + rewrite Nat2Z.id in Hbn. simplify_eq. by rewrite !vupd_eq.
    + assert (b ≠ bn) by (intros ->; pose proof (NoDup_lookup _ _ _ _ Hnd Hbn Hj); lia).
      rewrite !vupd_ne by done. apply H1; [done|lia].
  - intros x Hx. rewrite (take_S_r _ _ _ Hbn) in Hx. cbn. rewrite !vupd_ne by set_solver.
    apply H2. set_solver.
  - cbn. rewrite H3, (take_S_r _ _ _ Hbn), list_to_set_app_L. set_solver.
  - cbn. rewrite H4, <-app_assoc, vupd_eq, Hv. f_equal.
    unfold home_writes. rewrite (imap_take_S _ _ _ _ Hbn). by rewrite Z2Nat.id.
Qed.

Lemma wp_install_trans p a k E (Q : unit → kernel → Prop) :
  binv p [] a k → log_ok (k_log k) → pinned k a ∨ a_dirty a = ∅ →
  (∀ a' k', binv p [] a' k' → bframe k k' →
     installed (log_start (k_log k)) (logged k) a (lh_n (log_lh (k_log k))) a' → Q tt k') →
  wp install_trans E Q k.
Proof.
  intros Hv Hok Hpin HQ. set (l := k_log k) in *. unfold install_trans, getlog. wp_steps. fold l.
  assert (Hsz : (size (a_dirty a) < HEAD)%nat).
  { destruct Hpin as [|Hd]; [by eapply pinned_size|]. rewrite Hd. apply size_empty_HEAD. }
  assert (Hhome : ∀ x, in_log l x → x ∉ a_dirty a).
  { intros x Hx. destruct Hpin as [|Hd]; [by eapply pinned_home|]. rewrite Hd. set_solver. }
  assert (Hnd := lo_nodup _ Hok). fold l (logged k) in Hnd.
  eapply wp_post.
  - apply (wp_for_seqZ _ _ _ (λ i k', ∃ a', binv p [] a' k' ∧ bframe k k' ∧
      installed (log_start l) (logged k) a i a')); [apply (lo_n _ Hok)| |].
    + exists a. split_and!; [done|done|]. split_and!; [lia|done|cbn; set_solver|].
      by rewrite app_nil_r.
    + intros i k' Hi (a' & Hv' & Hfr & Hw).
      assert (Hl : k_log k' = l) by (by apply bframe_log).
      destruct (logged_get k i Hok Hi) as (bn & _ & Hbn & Hin & _ & Hnl).
      destruct (log_block_range l i Hok Hi) as (_ & Hinl & _).
      pose proof Hw as (_ & _ & Hd & _).
      assert (Hsub : (size (a_dirty a') <= size (a_dirty a))%nat) by (apply subseteq_size; set_solver).
      eapply (wp_install_one p a' k' i bn); rewrite ?Hl; try done.
      * by rewrite (logged_frame k k').
      * lia.
      * destruct Hpin as [Hpin|Hd0]; [left|right].
        -- rewrite Hd, Hpin. apply NoDup_take_lookup in Hbn; set_solver.
        -- rewrite Hd0, size_empty in Hsub. unfold HEAD, NBUF, MAXOPBLOCKS. lia.
      * intros x Hx. rewrite Hd. pose proof (Hhome x Hx). set_solver.
      * intros k2 Hv2 Hf2. eexists. split_and!; [exact Hv2|by rewrite Hfr|].
        eapply installed_step; [done|lia|done|done|]. intros Hc.
        apply (lo_home _ Hok) in Hc as [_ Hc]. done.
  - intros [] k' (a' & Hv' & Hfr & Hw). by apply (HQ a').
Qed.

(** ** The header *)

Fixpoint put_blocks (i : nat) (l : list Z) (d : block) : block :=
  match l with
  | [] => d
  | b :: l => put_blocks (S i) l (put32 (4 + 4 * i) b d)
  end.
Definition put_head (l : list Z) (d : block) : block := put_blocks 0 l (put32 0 (Z.of_nat (length l)) d).

Lemma put_blocks_snoc i l x d :
  put_blocks i (l ++ [x]) d = put32 (4 + 4 * (i + length l)) x (put_blocks i l d).
Proof.
  revert i d. induction l as [|b l IH]; intros i d; cbn [put_blocks app length].
  - by rewrite Nat.add_0_r.
  - rewrite IH. f_equal. lia.
Qed.

Lemma length_put_blocks i l d :
  (4 + 4 * (i + length l) <= length d)%nat → length (put_blocks i l d) = length d.
Proof.
  revert i d. induction l as [|b l IH]; intros i d Hd; cbn [put_blocks length] in *; [done|].
  rewrite IH, length_put32; rewrite ?length_put32; lia.
Qed.

Lemma length_put_head l d :
  (length l <= 30)%nat → length d = Z.to_nat BSIZE → length (put_head l d) = Z.to_nat BSIZE.
Proof.
  intros Hl Hd. change (Z.to_nat BSIZE) with 512%nat in *. unfold put_head.
  rewrite length_put_blocks; rewrite length_put32; lia.
Qed.

Lemma get_put_blocks_lt i l d off :
  (off + 4 <= 4 + 4 * i)%nat → (4 + 4 * (i + length l) <= length d)%nat →
  get32 off (put_blocks i l d) = get32 off d.
Proof.
  revert i d. induction l as [|b l IH]; intros i d Ho Hd; cbn [put_blocks length] in *; [done|].
  rewrite IH, get_put32_ne; try rewrite length_put32; try lia; done.
Qed.

Lemma get_put_blocks i l d j b :
  l !! j = Some b → (4 + 4 * (i + length l) <= length d)%nat →
  get32 (4 + 4 * (i + j)) (put_blocks i l d) = u32 b.
Proof.
  revert i d j. induction l as [|x l IH]; intros i d j Hj Hd; [done|]. cbn [put_blocks length] in *. destruct j as [|j].
  - injection Hj as ->. rewrite Nat.add_0_r. rewrite get_put_blocks_lt; [|lia|rewrite length_put32; lia].
    apply get_put32. lia.
  - replace (i + S j)%nat with (S i + j)%nat by lia. apply IH; [done|]. rewrite length_put32; lia.
Qed.

(** Reading back what [write_head] wrote. *)
Lemma hb_n_put_head l d :
  (length l <= 30)%nat → length d = Z.to_nat BSIZE → hb_n (put_head l d) = Z.of_nat (length l).
Proof.
  intros Hl Hd. change (Z.to_nat BSIZE) with 512%nat in *. unfold hb_n, put_head.
  rewrite get_put_blocks_lt; [|lia|rewrite length_put32; lia]. rewrite get_put32 by lia.
  rewrite u32_small, i32_small by lia. done.
Qed.

Lemma hb_block_put_head l d j b :
  l !! j = Some b → (length l <= 30)%nat → length d = Z.to_nat BSIZE → 0 <= b < FSSIZE →
  hb_block (Z.of_nat j) (put_head l d) = b.
Proof.
  intros Hj Hl Hd Hb. change (Z.to_nat BSIZE) with 512%nat in *. unfold FSSIZE in Hb.
  unfold hb_block, put_head. replace (Z.to_nat (4 + 4 * Z.of_nat j)) with (4 + 4 * (0 + j))%nat by lia.
  rewrite (get_put_blocks 0 l _ j b); [|done|rewrite length_put32; lia].
  rewrite u32_small, i32_small by lia. done.
Qed.

(** [write_head] puts the in-memory header into the header block. *)
Lemma wp_write_head p a k E (Q : unit → kernel → Prop) :
  binv p [] a k → log_ok (k_log k) → (size (a_dirty a) < HEAD)%nat →
  (∀ k', binv p [] (a_write (log_start (k_log k))
       (a_set (log_start (k_log k)) (put_head (logged k) (a_view a (log_start (k_log k)))) a)) k' →
     bframe k k' → Q tt k') →
  wp write_head E Q k.
Proof.
  intros Hv Hok Hsz HQ. set (l := k_log k) in *. set (st := log_start l) in *.
  pose proof (lo_start _ Hok) as Hst. pose proof (lo_fit _ Hok) as Hfit. pose proof (lo_end _ Hok) as Hend.
  pose proof (lo_n _ Hok) as Hn. fold st in Hst, Hend. unfold FSSIZE in Hend.
  assert (Hlen : length (a_view a st) = Z.to_nat BSIZE) by (by eapply bdat_len, Hv).
  pose proof (logged_length k Hok) as Hll. fold l in Hll.
  unfold write_head, getlog. wp_steps. fold l. rewrite (lo_dev _ Hok). fold st.
  rewrite u32_small by lia.
  eapply wpa_bread; [done|unfold FSSIZE; lia|apply not_elem_of_nil|by left|]. intros b k1 Hv1 Hf1. wp_steps.
  set (hd := λ i, put_blocks 0 (take (Z.to_nat i) (logged k)) (put32 0 (lh_n (log_lh l)) (a_view a st))).
  assert (Hhd : ∀ i, 0 <= i → length (hd i) = Z.to_nat BSIZE).
  { intros i Hi. unfold hd. change (Z.to_nat BSIZE) with 512%nat in *.
    unfold LOGSIZE, MAXOPBLOCKS in Hn.
    rewrite length_put_blocks; rewrite ?length_put32, ?length_take; lia. }
  eapply (wpa_setdata _ _ _ b st); [exact Hv1|left|done| |].
  { intros x Hx _. cbn. rewrite Hx. apply (Hhd 0). lia. }
  intros x k2 Hx _ Hv2 Hf2 _. cbn in Hv2. rewrite Hx in Hv2. wp_steps.
  eapply wp_post.
  - apply (wp_for_seqZ _ _ _ (λ i k', binv p [(b, st)] (a_set st (hd i) a) k' ∧ bframe k k')); [lia| |].
    + split; [exact Hv2|by rewrite Hf1].
    + intros i k' Hi [Hv' Hf']. assert (Hl : k_log k' = l) by (by apply bframe_log).
      destruct (logged_get k i Hok Hi) as (bn & Hblk & Hbn & _).
      unfold write_head_one, getlog. wp_steps. rewrite Hl. eapply wp_need_at; [exact Hblk|].
      assert (Hstep : put32 (Z.to_nat (4 + 4 * i)) bn (hd i) = hd (i + 1)).
      { unfold hd. replace (Z.to_nat (i + 1)) with (S (Z.to_nat i)) by lia.
        rewrite (take_S_r _ _ _ Hbn), put_blocks_snoc, length_take.
        apply lookup_lt_Some in Hbn. f_equal. lia. }
      eapply (wpa_setdata _ _ _ b st); [exact Hv'|left|done| |].
      * intros y Hy _. cbn in *. rewrite Hy, vupd_eq, Hstep. apply Hhd. lia.
      * intros y k3 Hy _ Hv3 Hf3 _. cbn in Hy, Hv3. rewrite Hy, vupd_eq, Hstep, a_set_set in Hv3.
        split; [done|by rewrite Hf'].
  - intros [] k' [Hv' Hf']. wp_steps.
    assert (Heq : hd (lh_n (log_lh l)) = put_head (logged k) (a_view a st)).
    { unfold hd, put_head. rewrite Hll. f_equal. apply take_ge. lia. }
    rewrite Heq in Hv'.
    eapply (wpa_bwrite _ _ _ b st); [exact Hv'|left|]. intros k3 Hv3 Hf3.
    eapply wpa_brelse1; [exact Hv3| |].
    { right. cbn. by rewrite !vupd_eq. }
    intros k4 Hv4 Hf4. apply HQ; [done|]. by rewrite Hf', Hf3.
Qed.

(** ** Commit *)

(** The writes of [commit]. *)
Definition commit_writes (start : Z) (l : list Z) (v : Z → block) : list (Z * Z * block) :=
  log_writes start v l ++ [((1, start), put_head l (v start))] ++
  imap (λ _ b, ((1, b), v b)) l ++ [((1, start), put_head [] (put_head l (v start)))].

Lemma wp_clear_head k E (Q : unit → kernel → Prop) :
  Q tt (set_log (set_lh 0 (lh_block (log_lh (k_log k))) (k_log k)) k) → wp clear_head E Q k.
Proof. intros. unfold clear_head, updlog. by wp_steps. Qed.

Lemma log_ok_clear l : log_ok l → log_ok (set_lh 0 (lh_block (log_lh l)) l).
Proof.
  intros []. split; cbn; try done; [lia|constructor|]. by intros bn ?%not_elem_of_nil.
Qed.

Lemma binv_log p H a k l : binv p H a k → binv p H a (set_log l k).
Proof. intros [Hr Hd]. split; [exact Hr|]. by eapply bdat_ext; [..|exact Hd]. Qed.

(** The kernel differs in the log and in what the block layer changes. *)
Definition lframe (k k' : kernel) : Prop := bframe (set_log (k_log k') k) k'.

Lemma lframe_set_log k k' l : lframe k k' → lframe k (set_log l k').
Proof. intros (?&?&?&?&?&?&?&?). by split_and!. Qed.
#[global] Instance lframe_preorder : PreOrder lframe.
Proof.
  split.
  - intros k. split_and!; [reflexivity|done..].
  - intros k1 k2 k3 (?&?&?&?&?&?&?&?) (?&?&?&?&?&?&?&?). unfold lframe, bframe in *. cbn in *.
    split_and!; [by etrans|congruence..].
Qed.
Lemma bframe_lframe k k' : bframe k k' → lframe k k'.
Proof. intros (?&?&?&?&?&?&?&?). by split_and!. Qed.

Lemma commit_home_writes start l v v' :
  (∀ j b, l !! j = Some b → v' (start + Z.of_nat j + 1) = v b) →
  home_writes start v' l = imap (λ _ b, ((1, b), v b)) l.
Proof. intros H. unfold home_writes. apply imap_ext. intros j b Hj. cbn. by rewrite (H j b). Qed.

Lemma wp_commit p a k E (Q : unit → kernel → Prop) :
  binv p [] a k → log_ok (k_log k) → pinned k a → 0 < lh_n (log_lh (k_log k)) →
  (∀ a' k', binv p [] a' k' → lframe k k' →
     k_log k' = set_lh 0 (lh_block (log_lh (k_log k))) (k_log k) →
     (∀ x, ¬ in_log (k_log k) x → a_view a' x = a_view a x) →
     a_view a' (log_start (k_log k)) = put_head [] (put_head (logged k) (a_view a (log_start (k_log k)))) →
     (∀ x, a_disk a' x = a_view a' x) → a_dirty a' = ∅ →
     a_trace a' = a_trace a ++ commit_writes (log_start (k_log k)) (logged k) (a_view a) → Q tt k') →
  wp commit E Q k.
Proof.
  intros Hv Hok Hpin Hn HQ. set (l := k_log k) in *. set (st := log_start l) in *.
  assert (Hsz := pinned_size k a Hok Hpin).
  unfold commit, getlog. wp_steps. fold l. rewrite (proj2 (Z.ltb_lt _ _)) by done. unfold when. wp_steps.
  eapply wp_write_log; [done|done|done|]. intros a1 k1 Hv1 Hf1 (W1 & W2 & W3 & W4). fold l st in W1, W2, W4.
  assert (Hl1 : k_log k1 = l) by (by apply bframe_log). assert (Hg1 := logged_frame _ _ Hf1). wp_steps.
  eapply wp_write_head; [done|by rewrite Hl1|by rewrite W3|]. rewrite Hl1. fold st.
  intros k2 Hv2 Hf2. assert (Hl2 : k_log k2 = l) by (rewrite <-Hl1; by apply bframe_log).
  assert (Hg2 := logged_frame _ _ Hf2). wp_steps. rewrite Hg1 in *. set (L := logged k) in *.
  assert (Hstl : in_log l st) by (pose proof (lo_fit _ Hok); unfold in_log; lia).
  destruct (W2 st) as [Hst1 _]; [lia|]. rewrite Hst1 in Hv2.
  set (a2 := a_write st (a_set st (put_head L (a_view a st)) a1)) in *.
  assert (Hd2 : a_dirty a2 = a_dirty a).
  { cbn. rewrite W3. pose proof (pinned_home k a st Hok Hpin Hstl). set_solver. }
  assert (Hpin2 : pinned k2 a2) by (unfold pinned; by rewrite Hd2, Hg2).
  assert (Hlog2 : ∀ j b, L !! j = Some b → a_view a2 (st + Z.of_nat j + 1) = a_view a b).
  { intros j b Hj. cbn. rewrite vupd_ne by lia. apply W1; [done|].
    apply lookup_lt_Some in Hj. pose proof (logged_length k Hok). subst L l. lia. }
  eapply wp_install_trans; [done|by rewrite Hl2|by left|]. rewrite Hl2, Hg2. fold st.
  intros a3 k3 Hv3 Hf3 (I1 & I2 & I3 & I4).
  assert (Hl3 : k_log k3 = l) by (rewrite <-Hl2; by apply bframe_log).
  rewrite take_ge in I2, I3, I4 by (pose proof (logged_length k Hok); subst L l; lia).
  rewrite (commit_home_writes st L (a_view a) (a_view a2) Hlog2) in I4.
  assert (Hd3 : a_dirty a3 = ∅) by (rewrite I3, Hd2, Hpin; set_solver).
  wp_steps. apply wp_clear_head. rewrite Hl3. set (l' := set_lh 0 _ l).
  eapply wp_write_head; [apply binv_log; exact Hv3|by apply log_ok_clear|by rewrite Hd3; apply size_empty_HEAD|].
  cbn [k_log set_log]. change (log_start l') with st. change (logged (set_log l' k3)) with (@nil Z).
  assert (HstL : st ∉ L) by (intros Hin; by apply (lo_home _ Hok) in Hin as [_ ?]).
  destruct (I2 st HstL) as [Hst3 _].
  intros k4 Hv4 Hf4. apply (HQ (a_write st (a_set st (put_head [] (a_view a3 st)) a3))); [done|..].
  - etrans; [|apply bframe_lframe, Hf4]. apply lframe_set_log, bframe_lframe. by rewrite Hf1, Hf2.
  - by apply bframe_log in Hf4.
  - intros x Hx. cbn. rewrite vupd_ne by (intros ->; done).
    destruct (decide (x ∈ L)) as [(j & Hj)%list_elem_of_lookup|Hnin].
    + destruct (I1 j x Hj) as [-> _]; [|by apply Hlog2].
      apply lookup_lt_Some in Hj. pose proof (logged_length k Hok). subst L l. lia.
    + destruct (I2 x Hnin) as [-> _]. cbn. rewrite vupd_ne by (intros ->; done).
      apply W2. unfold in_log in Hx. pose proof (lo_fit _ Hok). lia.
  - cbn. rewrite vupd_eq, Hst3. cbn. by rewrite vupd_eq.
  - intros x. symmetry. eapply bdat_sync; [apply Hv4|apply not_elem_of_nil|]. cbn. rewrite Hd3. set_solver.
  - cbn. rewrite Hd3. set_solver.
  - cbn. rewrite I4, vupd_eq, Hst3. cbn. rewrite W4, !vupd_eq, <-!app_assoc. unfold commit_writes.
    rewrite take_ge by (pose proof (logged_length k Hok); subst L l; lia). done.
Qed.

(** ** Transactions *)

Lemma log_find_in bn l :
  Forall (λ x, 0 <= x < FSSIZE) l → bn ∈ l →
  ∃ i, log_find bn l = Z.of_nat i ∧ l !! i = Some bn.
Proof.
  intros Hl. induction Hl as [|x l Hx Hl IH]; intros Hin; [by apply not_elem_of_nil in Hin|].
  unfold FSSIZE in Hx. cbn. rewrite u32_small by lia. destruct (Z.eqb_spec x bn) as [->|Hne]; [by exists 0%nat|].
  apply elem_of_cons in Hin as [->|Hin]; [done|]. destruct (IH Hin) as (i & Hi & Hli).
  exists (S i). split; [rewrite Hi; lia|done].
Qed.
Lemma log_find_out bn l :
  Forall (λ x, 0 <= x < FSSIZE) l → bn ∉ l → log_find bn l = Z.of_nat (length l).
Proof.
  intros Hl. induction Hl as [|x l Hx Hl IH]; intros Hin; [done|].
  unfold FSSIZE in Hx. apply not_elem_of_cons in Hin as [Hne Hin]. cbn. rewrite u32_small by lia.
  rewrite (proj2 (Z.eqb_neq _ _)), IH by done. lia.
Qed.

(** The logged blocks after [log_write]: absorbed, or appended. *)
Definition log_add (bn : Z) (l : list Z) : list Z := if decide (bn ∈ l) then l else l ++ [bn].

(** The in-memory header after [log_write]. *)
Lemma log_write_header l bn :
  log_ok l → 0 <= bn < FSSIZE → ¬ in_log l bn → lh_n (log_lh l) < LOGSIZE → lh_n (log_lh l) < log_size l - 1 →
  let n := lh_n (log_lh l) in
  let L := take (Z.to_nat n) (lh_block (log_lh l)) in
  let i := log_find bn L in
  let l' := set_lh (if i =? n then n + 1 else n) (<[Z.to_nat i := i32 bn]> (lh_block (log_lh l))) l in
  (∃ x, lh_block (log_lh l) !! Z.to_nat i = Some x) ∧ log_ok l' ∧
  take (Z.to_nat (lh_n (log_lh l'))) (lh_block (log_lh l')) = log_add bn L.
Proof.
  intros Hok Hbn Hnl Hn Hsz n L i. pose proof (lo_n _ Hok) as Hn0. fold n in Hn0, Hn, Hsz.
  assert (HL : Forall (λ x, 0 <= x < FSSIZE) L).
  { apply Forall_forall. intros x Hx. by apply (lo_home _ Hok). }
  assert (HlL : length L = Z.to_nat n).
  { unfold L. rewrite length_take, (lo_len _ Hok). unfold LOGSIZE, MAXOPBLOCKS in *. lia. }
  assert (Hlen := lo_len _ Hok). rewrite (i32_small bn) by (unfold FSSIZE in *; lia).
  destruct (decide (bn ∈ L)) as [Hin|Hout].
  - destruct (log_find_in bn L HL Hin) as (j & Hj & HLj). unfold i. rewrite Hj, Nat2Z.id.
    pose proof (lookup_lt_Some _ _ _ HLj) as Hjlt.
    assert (Hb : lh_block (log_lh l) !! j = Some bn) by (by apply lookup_take_Some in HLj as [? _]).
    rewrite (proj2 (Z.eqb_neq _ _)) by lia. rewrite list_insert_id by done. split_and!; [by exists bn| |].
    + destruct l as [? ? ? ? ? []]. exact Hok.
    + unfold log_add. by rewrite decide_True.
  - unfold i. rewrite (log_find_out bn L HL Hout), HlL, Nat2Z.id, Z2Nat.id, Z.eqb_refl by lia.
    assert (Htk : take (Z.to_nat (n + 1)) (<[Z.to_nat n := bn]> (lh_block (log_lh l))) = L ++ [bn]).
    { replace (Z.to_nat (n + 1)) with (S (Z.to_nat n)) by lia.
      rewrite (take_S_r _ _ bn) by (apply list_lookup_insert_eq; unfold LOGSIZE, MAXOPBLOCKS in *; lia).
      by rewrite take_insert_ge by lia. }
    split_and!.
    + apply lookup_lt_is_Some. unfold LOGSIZE, MAXOPBLOCKS in *. lia.
    + destruct Hok. split; cbn; rewrite ?Htk, ?length_insert; try done; [lia|lia| |].
      * apply NoDup_app. split_and!; [done| |apply NoDup_singleton].
        intros x Hx ->%list_elem_of_singleton. done.
      * intros x [Hx| ->%list_elem_of_singleton]%elem_of_app; [by apply lo_home0|done].
    + cbn. unfold log_add. by rewrite decide_False.
Qed.

Lemma wpa_log_write p H a b bn k E (Q : unit → kernel → Prop) :
  binv p H a k → (b, bn) ∈ H → log_ok (k_log k) → ¬ in_log (k_log k) bn →
  1 <= log_outstanding (k_log k) →
  (lh_n (log_lh (k_log k)) < LOGSIZE ∧ lh_n (log_lh (k_log k)) < log_size (k_log k) - 1 ∨ E "too big a transaction") →
  (∀ k', binv p H (a_mark bn a) k' → lframe k k' → log_ok (k_log k') →
     logged k' = log_add bn (logged k) → k_log k' = set_lh (lh_n (log_lh (k_log k'))) (lh_block (log_lh (k_log k'))) (k_log k) →
     Q tt k') →
  wp (log_write b) E Q k.
Proof.
  intros [Hr Hv] Hin Hok Hnl Hout Hsp HQ. unfold log_write, getlog. wp_steps.
  destruct ((LOGSIZE <=? lh_n (log_lh (k_log k))) || (log_size (k_log k) - 1 <=? lh_n (log_lh (k_log k)))) eqn:Hbig.
  { destruct Hsp as [[H1 H2]|HE]; [|by apply wp_panic]. apply orb_true_iff in Hbig as [Hb%Z.leb_le|Hb%Z.leb_le]; lia. }
  apply orb_false_iff in Hbig as [Hb1%Z.leb_gt Hb2%Z.leb_gt].
  rewrite (proj2 (Z.ltb_ge _ _)) by lia. wp_steps.
  destruct Hr as [[Hm Hp] Hide]. eapply wp_acquire; [done|nolock|]. intros m1 Hm1. wp_steps.
  destruct (bd_held _ _ _ Hv _ _ Hin) as (bf & Hi & [Hdev Hno] & _).
  eapply wp_getbuf; [apply Hi|]. wp_steps. cbn [set_mach k_log]. rewrite Hno.
  assert (Hrange : 0 <= bn < FSSIZE) by (by eapply bdat_range).
  destruct (log_write_header (k_log k) bn Hok Hrange Hnl Hb1 Hb2) as ((x & Hx) & Hok' & Htk).
  set (l' := set_lh _ _ (k_log k)) in *. wp_steps.
  eapply wp_need_at; [exact Hx|]. unfold updlog. wp_steps. cbn [set_mach k_log].
  assert (Hv1 : bdat H a (set_log l' (set_mach m1 k))) by (by eapply bdat_ext; [..|exact Hv]).
  eapply wpa_mark; [exact Hv1|done|]. intros k2 Hv2 Hk2. rewrite Hk2 in Hv2 |- *.
  eapply wp_release; [exact Hm1|]. intros m2 Hm2.
  assert (HQ' : Q tt (set_mach m2 (set_bc (k_bc k2) (set_log l' k)))); [|kexact HQ'].
  apply HQ.
  - split; [done|]. by eapply bdat_ext; [..|exact Hv2].
  - split_and!; [reflexivity|done..].
  - exact Hok'.
  - exact Htk.
  - done.
Qed.

(** ** Recovery *)

Lemma wp_readsb p a k E (Q : superblock → kernel → Prop) :
  binv p [] a k → (size (a_dirty a) < HEAD)%nat →
  (∀ k', binv p [] a k' → bframe k k' → Q (sb_of_block (a_view a 1)) k') →
  wp (readsb ROOTDEV) E Q k.
Proof.
  intros Hv Hsz HQ. unfold readsb. wp_steps.
  eapply wpa_bread; [done|unfold FSSIZE; lia|apply not_elem_of_nil|by left|]. intros b k1 Hv1 Hf1. wp_steps.
  eapply wpa_getbuf; [done|left|]. intros bf Hd _ _ _. cbv zeta. wp_steps.
  eapply wpa_brelse1; [exact Hv1| |].
  { destruct (decide (1 ∈ a_dirty a)); [by left|right]. by eapply bdat_sync; [apply Hv|set_solver|]. }
  intros k2 Hv2 Hf2. wp_steps. rewrite Hd. apply HQ; [done|by rewrite Hf1].
Qed.

(** The block numbers in the header on disk [D]. *)
Definition rec_list (start : Z) (D : Z → block) : list Z :=
  map (λ i, hb_block i (D start)) (seqZ 0 (hb_n (D start))).

(** The header on disk is one that [write_head] wrote. *)
Record rec_ok (start size : Z) (D : Z → block) : Prop := {
  ro_n : 0 <= hb_n (D start) <= LOGSIZE;
  ro_fit : hb_n (D start) < size;
  ro_nodup : NoDup (rec_list start D);
  ro_home : ∀ b, b ∈ rec_list start D → 0 <= b < FSSIZE ∧ ¬ (start <= b < start + size)
}.

Lemma length_rec_list start D : 0 <= hb_n (D start) → Z.of_nat (length (rec_list start D)) = hb_n (D start).
Proof. intros. unfold rec_list. rewrite length_map, length_seqZ. lia. Qed.

Lemma rec_list_lookup start D i :
  0 <= i < hb_n (D start) → rec_list start D !! Z.to_nat i = Some (hb_block i (D start)).
Proof.
  intros Hi. unfold rec_list. rewrite list_lookup_fmap, lookup_seqZ_lt by lia. cbn. do 2 f_equal. lia.
Qed.

(** The in-memory header before recovery, with the log's place known. *)
Record log_fresh (l : log) : Prop := {
  lf_dev : log_dev l = ROOTDEV;
  lf_start : 0 <= log_start l;
  lf_end : log_start l + log_size l <= FSSIZE;
  lf_size : log_size l <= NBUF;
  lf_len : length (lh_block (log_lh l)) = Z.to_nat LOGSIZE
}.

Lemma wp_read_head p a k E (Q : unit → kernel → Prop) :
  binv p [] a k → a_dirty a = ∅ → log_fresh (k_log k) →
  rec_ok (log_start (k_log k)) (log_size (k_log k)) (a_view a) →
  (∀ bl k', binv p [] a k' → lframe k k' →
     k_log k' = set_lh (hb_n (a_view a (log_start (k_log k)))) bl (k_log k) →
     length bl = Z.to_nat LOGSIZE → logged k' = rec_list (log_start (k_log k)) (a_view a) → Q tt k') →
  wp read_head E Q k.
Proof.
  intros Hv Hd0 Hfr Hro HQ. set (l := k_log k) in *. set (st := log_start l) in *.
  pose proof (ro_n _ _ _ Hro) as Hn. pose proof (ro_fit _ _ _ Hro) as Hfit.
  pose proof (lf_start _ Hfr) as Hst. pose proof (lf_end _ Hfr) as Hend. fold st in Hst, Hend.
  unfold FSSIZE in Hend. set (hb := a_view a st) in *. set (n := hb_n hb) in *.
  unfold read_head, getlog. wp_steps. fold l. rewrite (lf_dev _ Hfr). fold st. rewrite u32_small by lia.
  eapply wpa_bread; [done|unfold FSSIZE; lia|apply not_elem_of_nil|left; rewrite Hd0; apply size_empty_HEAD|].
  intros b k1 Hv1 Hf1. wp_steps.
  eapply wpa_getbuf; [exact Hv1|left|]. intros bf Hd _ _ _. rewrite Hd. fold hb n. unfold updlog. wp_steps.
  assert (Hl1 : k_log k1 = l) by (by apply bframe_log). rewrite Hl1.
  eapply wp_post.
  - apply (wp_for_seqZ _ _ _ (λ i k', ∃ bl, binv p [(b, st)] a k' ∧ lframe k k' ∧
      k_log k' = set_lh n bl l ∧ length bl = Z.to_nat LOGSIZE ∧
      take (Z.to_nat i) bl = take (Z.to_nat i) (rec_list st (a_view a)))); [lia| |].
    + exists (lh_block (log_lh l)). split_and!; [by apply binv_log| |done|apply (lf_len _ Hfr)|done].
      by apply lframe_set_log, bframe_lframe.
    + intros i k' Hi (bl & Hv' & Hlf & Hl' & Hlen & Htk). unfold read_head_one, getlog, updlog. wp_steps.
      rewrite Hl'. cbn [log_lh set_lh lh_block lh_n].
      destruct (lookup_lt_is_Some_2 bl (Z.to_nat i)) as [x Hx].
      { rewrite Hlen. unfold LOGSIZE, MAXOPBLOCKS in *. lia. }
      eapply wp_need_at; [exact Hx|]. wp_steps. rewrite Hl'. cbn [log_lh set_lh lh_block lh_n].
      exists (<[Z.to_nat i := hb_block i hb]> bl). split_and!.
      * by apply binv_log.
      * by apply lframe_set_log.
      * done.
      * by rewrite length_insert.
      * replace (Z.to_nat (i + 1)) with (S (Z.to_nat i)) by lia.
        rewrite (take_S_r _ _ (hb_block i hb)) by (apply list_lookup_insert_eq; by eapply lookup_lt_Some).
        rewrite (take_S_r _ _ (hb_block i hb)) by (by apply rec_list_lookup).
        rewrite take_insert_ge by lia. by rewrite Htk.
  - intros [] k' (bl & Hv' & Hlf & Hl' & Hlen & Htk). wp_steps.
    eapply wpa_brelse1; [exact Hv'| |].
    { right. eapply bdat_sync; [apply Hv|set_solver|]. rewrite Hd0. set_solver. }
    intros k2 Hv2 Hf2. assert (Hl2 : k_log k2 = set_lh n bl l) by (rewrite <-Hl'; by apply bframe_log).
    apply (HQ bl); try done.
    + etrans; [done|]. by apply bframe_lframe.
    + unfold logged. rewrite Hl2. cbn. rewrite Htk. apply take_ge.
      pose proof (length_rec_list st (a_view a)). fold hb n in H. lia.
Qed.

(** What recovery makes of disk [D]. *)
Definition recovered (start : Z) (D : Z → block) (bn : Z) : block :=
  match list_find (λ b, b = bn) (rec_list start D) with
  | Some (j, _) => D (start + Z.of_nat j + 1)
  | None => D bn
  end.

Definition recovery_writes (start : Z) (D : Z → block) : list (Z * Z * block) :=
  home_writes start D (rec_list start D) ++ [((1, start), put_head [] (D start))].

Lemma recovered_hit start D j b :
  NoDup (rec_list start D) → rec_list start D !! j = Some b →
  recovered start D b = D (start + Z.of_nat j + 1).
Proof.
  intros Hnd Hj. unfold recovered. destruct (list_find _ _) as [[j' b']|] eqn:Hf.
  - apply list_find_Some in Hf as (Hj' & -> & _). by rewrite (NoDup_lookup _ _ _ _ Hnd Hj Hj').
  - apply list_find_None in Hf. rewrite Forall_lookup in Hf. by destruct (Hf j b Hj).
Qed.
Lemma recovered_miss start D b : b ∉ rec_list start D → recovered start D b = D b.
Proof.
  intros Hb. unfold recovered. destruct (list_find _ _) as [[j' b']|] eqn:Hf; [|done].
  apply list_find_Some in Hf as (Hj' & -> & _). destruct Hb. by eapply list_elem_of_lookup_2.
Qed.

(** The kernel after recovery: [a] before, [a'] after. *)
Record recovery_done (st size : Z) (a a' : bstate) : Prop := {
  rd_view : ∀ x, ¬ (st <= x < st + size) → a_view a' x = recovered st (a_view a) x;
  rd_head : a_view a' st = put_head [] (a_view a st);
  rd_dirty : a_dirty a' = ∅;
  rd_trace : a_trace a' = a_trace a ++ recovery_writes st (a_view a)
}.

Lemma wp_recover_from_log p a k E (Q : unit → kernel → Prop) :
  binv p [] a k → a_dirty a = ∅ → log_fresh (k_log k) →
  rec_ok (log_start (k_log k)) (log_size (k_log k)) (a_view a) →
  (∀ a' k', binv p [] a' k' → lframe k k' → log_ok (k_log k') → lh_n (log_lh (k_log k')) = 0 →
     log_start (k_log k') = log_start (k_log k) → log_size (k_log k') = log_size (k_log k) →
     recovery_done (log_start (k_log k)) (log_size (k_log k)) a a' → Q tt k') →
  wp recover_from_log E Q k.
Proof.
  intros Hv Hd0 Hfr Hro HQ. set (l := k_log k) in *. set (st := log_start l) in *.
  unfold recover_from_log. wp_steps. eapply wp_read_head; [done..|].
  intros bl k1 Hv1 Hf1 Hl1 Hlen Hlg. fold l st in Hl1, Hlg. set (n := hb_n (a_view a st)) in *.
  assert (Htk : take (Z.to_nat n) bl = rec_list st (a_view a)).
  { rewrite <-Hlg. unfold logged. by rewrite Hl1. }
  assert (Hok1 : log_ok (k_log k1)).
  { rewrite Hl1. split; cbn; try apply Hfr; try apply Hro; [done| |]; rewrite Htk; apply Hro. }
  wp_steps. eapply wp_install_trans; [exact Hv1|exact Hok1|by right|]. rewrite Hl1, Hlg.
  cbn [log_start set_lh log_lh lh_n]. fold st.
  intros a2 k2 Hv2 Hf2 (I1 & I2 & I3 & I4).
  assert (Hn : Z.of_nat (length (rec_list st (a_view a))) = n) by (apply length_rec_list, Hro).
  rewrite take_ge in I2, I3, I4 by lia.
  assert (Hst : st ∉ rec_list st (a_view a)).
  { intros [_ Hc]%(ro_home _ _ _ Hro). apply Hc. pose proof (ro_fit _ _ _ Hro). pose proof (ro_n _ _ _ Hro). lia. }
  assert (Hl2 : k_log k2 = set_lh n bl l) by (rewrite <-Hl1; by apply bframe_log).
  assert (Hd2 : a_dirty a2 = ∅) by (rewrite I3, Hd0; set_solver).
  wp_steps. apply wp_clear_head. rewrite Hl2. cbn [log_lh set_lh lh_block].
  set (l' := set_lh 0 bl (set_lh n bl l)).
  assert (Hok' : log_ok l') by (rewrite Hl1 in Hok1; by apply log_ok_clear in Hok1).
  eapply wp_write_head; [apply binv_log; exact Hv2|exact Hok'|by rewrite Hd2; apply size_empty_HEAD|].
  cbn [k_log set_log]. change (log_start l') with st. change (logged (set_log l' k2)) with (@nil Z).
  destruct (I2 st Hst) as [Hst2 _]. rewrite Hst2.
  intros k3 Hv3 Hf3. assert (Hl3 : k_log k3 = l') by (by apply bframe_log in Hf3).
  eapply HQ; [exact Hv3| |by rewrite Hl3..|].
  - etrans; [exact Hf1|]. etrans; [|apply bframe_lframe, Hf3]. by apply lframe_set_log, bframe_lframe.
  - split; cbn.
    + intros x Hx. rewrite vupd_ne by (intros ->; apply Hx; pose proof (ro_fit _ _ _ Hro); pose proof (ro_n _ _ _ Hro); lia).
      destruct (decide (x ∈ rec_list st (a_view a))) as [(j & Hj)%list_elem_of_lookup|Hnin].
      * rewrite (recovered_hit _ _ _ _ (ro_nodup _ _ _ Hro) Hj). apply (I1 j x Hj).
        apply lookup_lt_Some in Hj. lia.
      * rewrite recovered_miss by done. by apply I2.
    + by rewrite vupd_eq.
    + rewrite Hd2. set_solver.
    + rewrite I4, vupd_eq, <-app_assoc. done.
Qed.

(** Where the superblock of disk [D] puts the log. *)
Definition sb_start (D : Z → block) : Z :=
  i32 (u32 (sb_size (sb_of_block (D 1)) - sb_nlog (sb_of_block (D 1)))).
Definition sb_logsize (D : Z → block) : Z := i32 (sb_nlog (sb_of_block (D 1))).

(** A disk whose superblock and log header are well formed. *)
Record disk_ok (D : Z → block) : Prop := {
  do_start : 1 < sb_start D;
  do_end : sb_start D + sb_logsize D <= FSSIZE;
  do_size : sb_logsize D <= NBUF;
  do_rec : rec_ok (sb_start D) (sb_logsize D) D;
  do_sb : 1 ∉ rec_list (sb_start D) D
}.

Lemma wp_initlog p a k E (Q : unit → kernel → Prop) :
  binv p [] a k → a_dirty a = ∅ → length (lh_block (log_lh (k_log k))) = Z.to_nat LOGSIZE →
  disk_ok (a_view a) →
  (∀ a' k', binv p [] a' k' → lframe k k' → log_ok (k_log k') → lh_n (log_lh (k_log k')) = 0 →
     log_start (k_log k') = sb_start (a_view a) → log_size (k_log k') = sb_logsize (a_view a) →
     recovery_done (sb_start (a_view a)) (sb_logsize (a_view a)) a a' → Q tt k') →
  wp initlog E Q k.
Proof.
  intros [Hr Hv] Hd0 Hlen [Hst Hend Hsize Hrec Hsb] HQ. unfold initlog.
  change (BSIZE <=? 4 + 4 * LOGSIZE) with false. cbn iota. wp_steps.
  destruct (ready_initlock p L_log k Hr) as (m1 & Hm1 & Hr1).
  eapply wp_on_mach; [exact Hm1|]. wp_steps.
  eapply (wp_readsb p a).
  { split; [done|]. by eapply bdat_ext; [..|exact Hv]. }
  { rewrite Hd0. apply size_empty_HEAD. }
  intros k1 Hv1 Hf1. unfold updlog. wp_steps.
  assert (Hl1 : k_log k1 = k_log k) by (by apply bframe_log in Hf1).
  eapply (wp_recover_from_log p a); [by apply binv_log|done|..]; cbn [k_log set_log].
  { split; cbn [set_geometry log_dev log_start log_size log_lh]; rewrite ?Hl1; try done.
    fold (sb_start (a_view a)). lia. }
  { exact Hrec. }
  intros a' k' Hv' Hf' Hok Hn Hs Hz Hdone. eapply HQ; try done.
  etrans; [|exact Hf']. apply lframe_set_log. by apply bframe_lframe in Hf1.
Qed.

(** ** Crashes *)

(** The root drive after the sector writes [w]. *)
Definition apply_writes (D : Z → block) (w : list (Z * Z * block)) : Z → block :=
  foldl (λ D x, if decide (x.1.1 = 1) then vupd D x.1.2 x.2 else D) D w.

Lemma apply_writes_app D w w' : apply_writes D (w ++ w') = apply_writes (apply_writes D w) w'.
Proof. apply foldl_app. Qed.

Lemma apply_writes_ext D D' w x :
  (∀ y, D y = D' y) → apply_writes D w x = apply_writes D' w x.
Proof.
  revert D D'. induction w as [|[[u y] d] w IH]; intros D D' H; cbn; [done|]. apply IH. intros z. cbn.
  destruct (decide (u = 1)); [|done]. unfold vupd. by destruct (decide (z = y)).
Qed.

Lemma apply_writes_ne D w x : (∀ y, y ∈ w → y.1.2 ≠ x) → apply_writes D w x = D x.
Proof.
  revert D. induction w as [|[[u y] d] w IH]; intros D H; cbn; [done|].
  rewrite IH by (intros; apply H; by right). destruct (decide (u = 1)); [|done]. apply vupd_ne.
  intros ->. by apply (H (u, y, d)); [left|].
Qed.

Lemma apply_writes_in D w x d :
  NoDup (map (λ y, y.1.2) w) → ((1, x), d) ∈ w → apply_writes D w x = d.
Proof.
  revert D. induction w as [|[[u y] e] w IH]; intros D Hnd Hin; [by apply not_elem_of_nil in Hin|].
  cbn in *. apply NoDup_cons in Hnd as [Hy Hnd]. apply elem_of_cons in Hin as [Heq|Hin]; [|by apply IH].
  simplify_eq. rewrite apply_writes_ne; [by rewrite decide_True, vupd_eq|].
  intros z Hz Heq. apply Hy. apply list_elem_of_fmap. by exists z.
Qed.

Lemma prefix_app_cases {A} (w l1 l2 : list A) :
  w `prefix_of` l1 ++ l2 → w `prefix_of` l1 ∨ ∃ w', w = l1 ++ w' ∧ w' `prefix_of` l2.
Proof.
  revert w. induction l1 as [|x l1 IH]; intros w Hw; [right; by exists w|].
  destruct w as [|y w]; [left; apply prefix_nil|]. cbn in Hw.
  pose proof (prefix_cons_inv_1 _ _ _ _ Hw) as ->. apply prefix_cons_inv_2 in Hw.
  destruct (IH w Hw) as [Hp|(w' & -> & Hw')]; [left; by apply prefix_cons|right; by exists w'].
Qed.

Lemma prefix_elem {A} (w l : list A) x : w `prefix_of` l → x ∈ w → x ∈ l.
Proof. intros [w' ->] ?. apply elem_of_app. by left. Qed.

(** The blocks that the writes of [write_log] and [install_trans] touch. *)
Lemma log_writes_key start v l y :
  y ∈ log_writes start v l → start < y.1.2 <= start + Z.of_nat (length l).
Proof.
  intros (j & b & -> & Hj)%elem_of_lookup_imap_1. cbn. apply lookup_lt_Some in Hj. lia.
Qed.
Lemma home_writes_key start v l y : y ∈ home_writes start v l → y.1.2 ∈ l.
Proof.
  intros (j & b & -> & Hj)%elem_of_lookup_imap_1. cbn. by eapply list_elem_of_lookup_2.
Qed.

Lemma log_writes_nodup start v l : NoDup (map (λ y, y.1.2) (log_writes start v l)).
Proof.
  apply NoDup_alt. intros i j x. unfold log_writes. rewrite !list_lookup_fmap, !list_lookup_imap.
  destruct (l !! i), (l !! j); cbn; try done. intros. simplify_eq. lia.
Qed.
Lemma home_writes_nodup start v l : NoDup l → NoDup (map (λ y, y.1.2) (home_writes start v l)).
Proof.
  intros Hnd. apply NoDup_alt. intros i j x. unfold home_writes. rewrite !list_lookup_fmap, !list_lookup_imap.
  destruct (l !! i) as [a|] eqn:Hi, (l !! j) as [b|] eqn:Hj; cbn; try done. intros. simplify_eq.
  by eapply NoDup_lookup.
Qed.

Lemma log_writes_at start v l D j b :
  l !! j = Some b → apply_writes D (log_writes start v l) (start + Z.of_nat j + 1) = v b.
Proof.
  intros Hj. apply apply_writes_in; [apply log_writes_nodup|].
  exact (elem_of_lookup_imap_2 (λ j b, ((1, start + Z.of_nat j + 1), v b)) l b j Hj).
Qed.
Lemma home_writes_at start v l D j b :
  NoDup l → l !! j = Some b → apply_writes D (home_writes start v l) b = v (start + Z.of_nat j + 1).
Proof.
  intros Hnd Hj. apply apply_writes_in; [by apply home_writes_nodup|].
  exact (elem_of_lookup_imap_2 (λ j b, ((1, b), v (start + Z.of_nat j + 1))) l b j Hj).
Qed.

(** A header written by [write_head] is read back by recovery. *)
Lemma rec_list_put_head start D l d :
  D start = put_head l d → (length l <= 30)%nat → length d = Z.to_nat BSIZE →
  (∀ b, b ∈ l → 0 <= b < FSSIZE) → rec_list start D = l ∧ hb_n (D start) = Z.of_nat (length l).
Proof.
  intros HD Hl Hd Hr. assert (Hn : hb_n (D start) = Z.of_nat (length l)) by (rewrite HD; by apply hb_n_put_head).
  split; [|done]. apply list_eq. intros j. destruct (l !! j) as [b|] eqn:Hj.
  - pose proof (lookup_lt_Some _ _ _ Hj). rewrite <-(Nat2Z.id j), rec_list_lookup by lia. f_equal. rewrite HD.
    apply hb_block_put_head; try done. apply Hr. by eapply list_elem_of_lookup_2.
  - apply lookup_ge_None in Hj. apply lookup_ge_None. unfold rec_list. rewrite length_map, length_seqZ. lia.
Qed.

(** Recovery from a disk that a crash left in the middle of [commit]. *)
Section commit_crash.
Context (st size : Z) (L : list Z) (v D : Z → block).
Hypothesis Hst : 1 < st.
Hypothesis Hnd : NoDup L.
Hypothesis Hlen : (length L <= 30)%nat.
Hypothesis Hfit : Z.of_nat (length L) < size.
Hypothesis Hhome : ∀ b, b ∈ L → 0 <= b < FSSIZE ∧ ¬ (st <= b < st + size).
Hypothesis Hsync : ∀ x, x ∉ L → v x = D x.
Hypothesis Hblk : length (v st) = Z.to_nat BSIZE.
Hypothesis Hclean : hb_n (D st) = 0.

Definition crash_ok (T D1 : Z → block) : Prop :=
  rec_ok st size D1 ∧ (∀ b, b ∈ rec_list st D1 → b ∈ L) ∧
  (∀ x, ¬ (st <= x < st + size) → recovered st D1 x = T x).

(** A disk with an empty header is recovered as it is. *)
Lemma crash_ok_clean T D1 :
  hb_n (D1 st) = 0 → (∀ x, ¬ (st <= x < st + size) → D1 x = T x) → crash_ok T D1.
Proof.
  intros Hn Hx. assert (Hrl : rec_list st D1 = []) by (unfold rec_list; by rewrite Hn).
  split_and!.
  - split; rewrite ?Hn, ?Hrl; [unfold LOGSIZE, MAXOPBLOCKS; lia|lia|constructor|by intros ? ?%not_elem_of_nil].
  - rewrite Hrl. by intros ? ?%not_elem_of_nil.
  - intros x Hout. rewrite recovered_miss; [auto|]. rewrite Hrl. apply not_elem_of_nil.
Qed.

(** A disk with the transaction's header and log blocks is recovered to the
    new state. *)
Lemma crash_ok_committed D1 d :
  D1 st = put_head L d → length d = Z.to_nat BSIZE →
  (∀ j b, L !! j = Some b → D1 (st + Z.of_nat j + 1) = v b) →
  (∀ x, x ∉ L → ¬ (st <= x < st + size) → D1 x = D x) → crash_ok v D1.
Proof.
  intros HD Hd Hlog Hrest.
  destruct (rec_list_put_head st D1 L d HD Hlen Hd) as [Hrl Hn]; [intros; by apply Hhome|].
  split_and!.
  - split; rewrite ?Hn, ?Hrl; [unfold LOGSIZE, MAXOPBLOCKS; lia|lia|done|done].
  - by rewrite Hrl.
  - intros x Hx. destruct (decide (x ∈ L)) as [(j & Hj)%list_elem_of_lookup|Hnin].
    + rewrite (recovered_hit st D1 j x) by (by rewrite Hrl). by apply Hlog.
    + rewrite recovered_miss by (by rewrite Hrl). rewrite Hrest, Hsync; done.
Qed.

(** The disk once the header is written, and after some home writes. *)
Let h := put_head L (v st).
Let D0 := apply_writes D (log_writes st v L).
Let D1 := vupd D0 st h.

Lemma D0_at j b : L !! j = Some b → D0 (st + Z.of_nat j + 1) = v b.
Proof. apply log_writes_at. Qed.
Lemma D0_out x : ¬ (st < x <= st + Z.of_nat (length L)) → D0 x = D x.
Proof. intros Hx. apply apply_writes_ne. intros y Hy%log_writes_key. lia. Qed.

Lemma home_prefix_ok w : w `prefix_of` home_writes st D0 L → crash_ok v (apply_writes D1 w).
Proof.
  intros Hw. assert (Hk : ∀ x, x ∉ L → apply_writes D1 w x = D1 x).
  { intros x Hx. apply apply_writes_ne. intros y Hy%(prefix_elem _ _ _ Hw)%home_writes_key <-. done. }
  assert (HstL : st ∉ L) by (intros [_ ?]%Hhome; lia).
  apply (crash_ok_committed _ (v st)).
  - rewrite Hk by done. apply vupd_eq.
  - done.
  - intros j b Hj. pose proof (lookup_lt_Some _ _ _ Hj). rewrite Hk.
    + unfold D1. rewrite vupd_ne by lia. by apply D0_at.
    + intros [_ ?]%Hhome. lia.
  - intros x Hx Hout. rewrite Hk by done. unfold D1. rewrite vupd_ne by lia. apply D0_out. lia.
Qed.

Lemma cleared_ok d :
  length d = Z.to_nat BSIZE → crash_ok v (vupd (apply_writes D1 (home_writes st D0 L)) st (put_head [] d)).
Proof.
  intros Hd. apply crash_ok_clean.
  - rewrite vupd_eq. by apply hb_n_put_head; [cbn; lia|].
  - intros x Hx. rewrite vupd_ne by lia.
    destruct (decide (x ∈ L)) as [(j & Hj)%list_elem_of_lookup|Hnin].
    + rewrite (home_writes_at _ _ _ _ j) by done. by apply D0_at.
    + rewrite apply_writes_ne by (intros y Hy%home_writes_key <-; done).
      unfold D1. rewrite vupd_ne by lia. rewrite D0_out by lia. by rewrite Hsync.
Qed.

(** The commit point is the header write, after the [length L] log writes. *)
Lemma commit_prefix_ok w :
  w `prefix_of` commit_writes st L v →
  crash_ok (if decide (length w <= length L)%nat then D else v) (apply_writes D w).
Proof.
  unfold commit_writes. fold h. rewrite <-(commit_home_writes st L v D0 D0_at).
  assert (Hll : length (log_writes st v L) = length L) by apply length_imap.
  intros [Hw|(w1 & -> & Hw)]%prefix_app_cases.
  - rewrite decide_True by (rewrite <-Hll; by apply prefix_length). apply crash_ok_clean.
    + rewrite apply_writes_ne; [done|]. intros y Hy%(prefix_elem _ _ _ Hw)%log_writes_key. lia.
    + intros x Hx. apply apply_writes_ne. intros y Hy%(prefix_elem _ _ _ Hw)%log_writes_key. lia.
  - rewrite apply_writes_app, length_app, Hll. fold D0. destruct w1 as [|y w1].
    + rewrite decide_True by (cbn; lia).
      apply crash_ok_clean; [cbn; by rewrite D0_out by lia|intros x Hx; apply D0_out; lia].
    + rewrite decide_False by (cbn; lia).
      pose proof (prefix_cons_inv_1 _ _ _ _ Hw) as ->. apply prefix_cons_inv_2 in Hw.
      cbn [apply_writes foldl fst snd]. destruct (decide (1 = 1)) as [_|]; [|done].
      fold (apply_writes (vupd D0 st h) w1). fold D1.
      apply prefix_app_cases in Hw as [Hw|(w2 & -> & Hw)]; [by apply home_prefix_ok|].
      rewrite apply_writes_app. destruct w2 as [|y w2]; [by apply home_prefix_ok|].
      pose proof (prefix_cons_inv_1 _ _ _ _ Hw) as ->. apply prefix_cons_inv_2, prefix_nil_inv in Hw as ->.
      cbn [apply_writes foldl fst snd]. destruct (decide (1 = 1)) as [_|]; [|done].
      apply cleared_ok. by apply length_put_head.
Qed.
End commit_crash.

(** Recovery from a disk that a crash left in the middle of a recovery. *)
Lemma recovery_prefix_ok st size D w :
  1 < st → rec_ok st size D → length (D st) = Z.to_nat BSIZE →
  w `prefix_of` recovery_writes st D →
  rec_ok st size (apply_writes D w) ∧ (∀ b, b ∈ rec_list st (apply_writes D w) → b ∈ rec_list st D) ∧
  (∀ x, ¬ (st <= x < st + size) → recovered st (apply_writes D w) x = recovered st D x).
Proof.
  intros Hst Hro Hlen. set (L := rec_list st D). pose proof (ro_n _ _ _ Hro) as Hn. pose proof (ro_fit _ _ _ Hro).
  assert (HlL : Z.of_nat (length L) = hb_n (D st)) by (apply length_rec_list; lia).
  unfold recovery_writes. fold L.
  assert (HstL : st ∉ L) by (intros [_ ?]%(ro_home _ _ _ Hro); lia).
  assert (Hhome : ∀ w, w `prefix_of` home_writes st D L →
    rec_list st (apply_writes D w) = L ∧ hb_n (apply_writes D w st) = hb_n (D st) ∧
    (∀ x, x ∉ L → apply_writes D w x = D x)).
  { intros w' Hw. assert (Hk : ∀ x, x ∉ L → apply_writes D w' x = D x).
    { intros x Hx. apply apply_writes_ne. intros y Hy%(prefix_elem _ _ _ Hw)%home_writes_key <-. done. }
    split_and!; [|by rewrite Hk|done]. unfold L, rec_list. by rewrite (Hk st HstL). }
  assert (Hmid : ∀ w, w `prefix_of` home_writes st D L →
    rec_ok st size (apply_writes D w) ∧ (∀ b, b ∈ rec_list st (apply_writes D w) → b ∈ L) ∧
    (∀ x, ¬ (st <= x < st + size) → recovered st (apply_writes D w) x = recovered st D x)).
  { intros w' Hw. destruct (Hhome w' Hw) as (Hrl & Hn' & Hk). split_and!.
    - split; rewrite ?Hrl, ?Hn'; apply Hro.
    - by rewrite Hrl.
    - intros x Hx. destruct (decide (x ∈ L)) as [(j & Hj)%list_elem_of_lookup|Hnin].
      + rewrite (recovered_hit st _ j x) by (rewrite Hrl; try apply Hro; done).
        rewrite (recovered_hit st D j x) by (try apply Hro; done). apply Hk.
        intros [_ Hc]%(ro_home _ _ _ Hro). apply Hc. apply lookup_lt_Some in Hj. lia.
      + rewrite !recovered_miss by (by rewrite ?Hrl). by apply Hk. }
  intros [Hw|(w1 & -> & Hw)]%prefix_app_cases; [by apply Hmid|].
  rewrite apply_writes_app. destruct w1 as [|y w1]; [by apply Hmid|].
  pose proof (prefix_cons_inv_1 _ _ _ _ Hw) as ->. apply prefix_cons_inv_2, prefix_nil_inv in Hw as ->.
  cbn [apply_writes foldl fst snd]. destruct (decide (1 = 1)) as [_|]; [|done].
  set (D2 := vupd _ st _).
  assert (Hn2 : hb_n (D2 st) = 0) by (unfold D2; rewrite vupd_eq; by apply hb_n_put_head; [cbn; lia|]).
  assert (Hrl : rec_list st D2 = []) by (unfold rec_list; by rewrite Hn2).
  split_and!.
  - split; rewrite ?Hn2, ?Hrl; [unfold LOGSIZE, MAXOPBLOCKS; lia|lia|constructor|by intros ? ?%not_elem_of_nil].
  - rewrite Hrl. by intros ? ?%not_elem_of_nil.
  - intros x Hx. rewrite recovered_miss by (rewrite Hrl; apply not_elem_of_nil). unfold D2.
    rewrite vupd_ne by lia. destruct (decide (x ∈ L)) as [(j & Hj)%list_elem_of_lookup|Hnin].
    + rewrite (recovered_hit st D j x) by (try apply Hro; done). apply home_writes_at; [apply Hro|done].
    + rewrite recovered_miss by done. apply apply_writes_ne. by intros y Hy%home_writes_key <-.
Qed.

(** Process [p] of a freshly booted kernel, whose root drive holds [D]. *)
Definition booted (p : nat) (D : Z → block) (k : kernel) : Prop :=
  binv p [] (mkA D D ∅ (ide_trace (k_ide k))) k ∧ length (lh_block (log_lh (k_log k))) = Z.to_nat LOGSIZE.

(** The disks that any number of crashes during recovery can make of [D]:
    the drive carries out the first writes [w1] of [initlog]. *)
Inductive crashes (D : Z → block) : (Z → block) → Prop :=
| crashes_none : crashes D D
| crashes_again D1 D2 p k k' w1 w2 :
    crashes D D1 → booted p D1 k → initlog k = Ok tt k' →
    ide_trace (k_ide k') = ide_trace (k_ide k) ++ w1 ++ w2 →
    (∀ x, D2 x = apply_writes D1 w1 x) → crashes D D2.

Lemma rec_list_ext st D D' : D st = D' st → rec_list st D = rec_list st D'.
Proof. unfold rec_list. by intros ->. Qed.
Lemma rec_ok_ext st size D D' : (∀ x, D x = D' x) → rec_ok st size D → rec_ok st size D'.
Proof.
  intros H []. split; rewrite <-?(rec_list_ext st D D') by done; rewrite <-?H; done.
Qed.
Lemma recovered_ext st D D' x : (∀ x, D x = D' x) → recovered st D x = recovered st D' x.
Proof.
  intros H. unfold recovered. rewrite <-(rec_list_ext st D D') by done.
  destruct (list_find _ _) as [[]|]; apply H.
Qed.

(** What [initlog] does to a booted kernel. *)
Lemma initlog_booted p D k :
  booted p D k → disk_ok D →
  ∃ a' k', initlog k = Ok tt k' ∧ binv p [] a' k' ∧ log_ok (k_log k') ∧ lh_n (log_lh (k_log k')) = 0 ∧
    log_start (k_log k') = sb_start D ∧ log_size (k_log k') = sb_logsize D ∧
    recovery_done (sb_start D) (sb_logsize D) (mkA D D ∅ (ide_trace (k_ide k))) a'.
Proof.
  intros [Hv Hlen] Hok.
  destruct (wp_ok initlog (λ _ k', ∃ a', binv p [] a' k' ∧ log_ok (k_log k') ∧ lh_n (log_lh (k_log k')) = 0 ∧
    log_start (k_log k') = sb_start D ∧ log_size (k_log k') = sb_logsize D ∧
    recovery_done (sb_start D) (sb_logsize D) (mkA D D ∅ (ide_trace (k_ide k))) a') k) as ([] & k' & Hrun & a' & HQ).
  - eapply wp_initlog; [exact Hv|done|done|exact Hok|]. intros a' k' Hv' _ ? ? ? ? ?. by exists a'.
  - by exists a', k'.
Qed.

(** Disks from which recovery rebuilds the state [T]. *)
Record recoverable (sb : block) (st size : Z) (T : Z → block) (D : Z → block) : Prop := {
  rv_sb : D 1 = sb;
  rv_rec : rec_ok st size D;
  rv_one : 1 ∉ rec_list st D;
  rv_state : ∀ x, ¬ (st <= x < st + size) → recovered st D x = T x
}.

Lemma recoverable_ext sb st size T D D' :
  (∀ x, D x = D' x) → recoverable sb st size T D → recoverable sb st size T D'.
Proof.
  intros H [H1 H2 H3 H4]. split.
  - by rewrite <-H.
  - by eapply rec_ok_ext.
  - by rewrite <-(rec_list_ext st D D').
  - intros x Hx. rewrite <-(recovered_ext st D D') by done. by apply H4.
Qed.

Section recoverable.
Context (sb : block) (st size : Z) (T : Z → block).
Hypothesis Hst : 1 < st.
Hypothesis Hend : st + size <= FSSIZE.
Hypothesis Hsize : size <= NBUF.
Hypothesis Hsbst : i32 (u32 (sb_size (sb_of_block sb) - sb_nlog (sb_of_block sb))) = st.
Hypothesis Hsbsize : i32 (sb_nlog (sb_of_block sb)) = size.

Lemma recoverable_disk_ok D : recoverable sb st size T D → disk_ok D ∧ sb_start D = st ∧ sb_logsize D = size.
Proof.
  intros [Hsb Hrec Hone _]. assert (Hs : sb_start D = st) by (unfold sb_start; by rewrite Hsb).
  assert (Hz : sb_logsize D = size) by (unfold sb_logsize; by rewrite Hsb).
  split_and!; [|done..]. split; by rewrite ?Hs, ?Hz.
Qed.

Lemma recoverable_crash D D' : recoverable sb st size T D → crashes D D' → recoverable sb st size T D'.
Proof.
  intros HD. induction 1 as [|D1 D2 p k k' w1 w2 _ IH Hboot Hrun Htr HD2]; [done|].
  destruct (recoverable_disk_ok D1 IH) as (Hok & Hs & Hz).
  destruct (initlog_booted p D1 k Hboot Hok) as (a' & k'' & Hrun' & Hv' & _ & _ & _ & _ & Hdone).
  rewrite Hrun in Hrun'. injection Hrun' as <-. rewrite Hs, Hz in Hdone.
  pose proof (rd_trace _ _ _ _ Hdone) as Htr'. cbn in Htr'. rewrite <-(bd_trace _ _ _ (proj2 Hv')), Htr in Htr'.
  apply app_inv_head in Htr'.
  assert (Hpre : w1 `prefix_of` recovery_writes st D1) by (rewrite <-Htr'; by exists w2).
  assert (Hlen : length (D1 st) = Z.to_nat BSIZE) by (exact (bdat_len _ _ _ st (proj2 (proj1 Hboot)))).
  destruct (recovery_prefix_ok st size D1 w1 Hst (rv_rec _ _ _ _ _ IH) Hlen Hpre) as (R1 & R2 & R3).
  assert (Hext : ∀ x, apply_writes D1 w1 x = D2 x) by (intros x; by rewrite HD2). split.
  - rewrite HD2, apply_writes_ne; [apply IH|]. intros y Hy%(prefix_elem _ _ _ Hpre) Hy1.
    unfold recovery_writes in Hy. apply elem_of_app in Hy as [Hy%home_writes_key|Hy%list_elem_of_singleton].
    + rewrite Hy1 in Hy. by apply (rv_one _ _ _ _ _ IH).
    + subst y. cbn in Hy1. lia.
  - by eapply rec_ok_ext.
  - intros Hin. rewrite <-(rec_list_ext st (apply_writes D1 w1) D2) in Hin by done.
    by apply (rv_one _ _ _ _ _ IH), R2.
  - intros x Hx. rewrite <-(recovered_ext st (apply_writes D1 w1) D2) by done. rewrite R3 by done.
    by apply (rv_state _ _ _ _ _ IH).
Qed.
End recoverable.

(** A transaction ready to commit: the changed blocks are pinned in the cache,
    and the log on the disk is empty. *)
Record tx_state (p : nat) (a : bstate) (k : kernel) : Prop := {
  tx_binv : binv p [] a k;
  tx_log : log_ok (k_log k);
  tx_pinned : pinned k a;
  tx_start : 1 < log_start (k_log k);
  tx_sb_start : sb_start (a_view a) = log_start (k_log k);
  tx_sb_size : sb_logsize (a_view a) = log_size (k_log k);
  tx_sb : 1 ∉ logged k;
  tx_clean : hb_n (a_disk a (log_start (k_log k))) = 0
}.

(** The disk after some of the writes of [commit]. *)
Lemma commit_recoverable p a k w :
  tx_state p a k → w `prefix_of` commit_writes (log_start (k_log k)) (logged k) (a_view a) →
  recoverable (a_view a 1) (log_start (k_log k)) (log_size (k_log k))
    (if decide (length w <= length (logged k))%nat then a_disk a else a_view a) (apply_writes (a_disk a) w).
Proof.
  intros [Hv Hok Hpin Hst Hss Hsz Hsb Hcl] Hw. set (st := log_start (k_log k)) in *. set (L := logged k) in *.
  assert (Hsync : ∀ x, x ∉ L → a_view a x = a_disk a x).
  { intros x Hx. eapply bdat_sync; [apply Hv|apply not_elem_of_nil|]. rewrite Hpin. by rewrite elem_of_list_to_set. }
  pose proof (logged_length k Hok) as Hll. pose proof (lo_n _ Hok). pose proof (lo_fit _ Hok).
  assert (Hone : ∀ w, w `prefix_of` commit_writes st L (a_view a) → apply_writes (a_disk a) w 1 = a_view a 1).
  { intros w' Hw'. rewrite (Hsync 1 Hsb). apply apply_writes_ne. intros y Hy%(prefix_elem _ _ _ Hw').
    unfold commit_writes in Hy. rewrite !elem_of_app, !list_elem_of_singleton in Hy.
    destruct Hy as [Hy%log_writes_key|[->|[Hy| ->]]]; [lia|cbn; lia| |cbn; lia].
    apply elem_of_lookup_imap_1 in Hy as (j & b & -> & Hj). cbn. intros ->. apply Hsb. by eapply list_elem_of_lookup_2. }
  destruct (commit_prefix_ok st (log_size (k_log k)) L (a_view a) (a_disk a)) with (w:=w) as (C1 & C2 & C3); try done.
  - apply (lo_nodup _ Hok).
  - subst L. unfold LOGSIZE, MAXOPBLOCKS in *. lia.
  - subst L. lia.
  - apply (lo_home _ Hok).
  - by eapply bdat_len, Hv.
  - split; [by apply Hone|done| |done]. intros Hin%C2. done.
Qed.

(** C1: crash atomicity of [commit].  It returns with every logged block at
    its home on the disk.  If the machine stops after any number of the disk
    writes it makes, and after any number of further stops while [initlog]
    recovers, then the next [initlog] returns, and every block outside the
    log has its contents from before the transaction if the stop came before
    the header write, and its contents from after the transaction
    otherwise. *)
Theorem commit_crash_atomic p a k :
  tx_state p a k → 0 < lh_n (log_lh (k_log k)) →
  ∃ k', commit k = Ok tt k' ∧
    (∀ x, ¬ in_log (k_log k) x → disk_of k' x = bview k x ∧ bview k' x = bview k x) ∧
    ∀ w1 w2 D pb kb,
      ide_trace (k_ide k') = ide_trace (k_ide k) ++ w1 ++ w2 →
      crashes (apply_writes (disk_of k) w1) D → booted pb D kb →
      ∃ kb', initlog kb = Ok tt kb' ∧
        ∀ x, ¬ in_log (k_log k) x →
          bview kb' x = if decide (length w1 <= length (logged k))%nat then disk_of k x else bview k x.
Proof.
  intros Htx Hn. pose proof Htx as [Hv Hok Hpin Hst Hss Hsz Hsb Hcl].
  destruct (wp_ok commit (λ _ k', ∃ a', binv p [] a' k' ∧
     (∀ x, ¬ in_log (k_log k) x → a_view a' x = a_view a x) ∧ (∀ x, a_disk a' x = a_view a' x) ∧
     a_trace a' = a_trace a ++ commit_writes (log_start (k_log k)) (logged k) (a_view a)) k)
    as ([] & k' & Hrun & a' & Hv' & Hvw & Hdk & Htr).
  { eapply wp_commit; [done..|]. intros a' k' ? ? ? ? ? ? ? ?. by exists a'. }
  exists k'. split; [done|]. split.
  { intros x Hx. rewrite (bd_disk _ _ _ (proj2 Hv')), !(bd_view _ _ _ (proj2 Hv')), (bd_view _ _ _ (proj2 Hv)).
    by rewrite Hdk, Hvw. }
  intros w1 w2 D pb kb Htr1 Hcr Hboot.
  rewrite (bd_trace _ _ _ (proj2 Hv')), (bd_trace _ _ _ (proj2 Hv)), Htr in Htr1. apply app_inv_head in Htr1.
  assert (Hrec : recoverable (a_view a 1) (log_start (k_log k)) (log_size (k_log k))
    (if decide (length w1 <= length (logged k))%nat then a_disk a else a_view a) (apply_writes (disk_of k) w1)).
  { apply (recoverable_ext _ _ _ _ (apply_writes (a_disk a) w1)).
    - intros x. apply apply_writes_ext. intros y. symmetry. apply (bd_disk _ _ _ (proj2 Hv)).
    - apply (commit_recoverable p); [done|]. rewrite Htr1. by exists w2. }
  pose proof (lo_end _ Hok) as Hend. pose proof (lo_size _ Hok) as Hsize.
  eapply recoverable_crash in Hrec; [|done..].
  destruct (recoverable_disk_ok _ _ _ _ Hst Hend Hsize Hss Hsz _ Hrec) as (Hdok & Hs & Hz).
  destruct (initlog_booted pb D kb Hboot Hdok) as (ab & kb' & Hrunb & Hvb & _ & _ & _ & _ & Hdone).
  exists kb'. split; [done|]. intros x Hx. rewrite (bd_view _ _ _ (proj2 Hvb)).
  rewrite (rd_view _ _ _ _ Hdone) by (rewrite Hs, Hz; exact Hx). cbn. rewrite Hs.
  rewrite (rv_state _ _ _ _ _ Hrec) by exact Hx.
  destruct (decide _); [by rewrite (bd_disk _ _ _ (proj2 Hv))|by rewrite (bd_view _ _ _ (proj2 Hv))].
Qed.

(** *** A concrete transaction: block 50 of an otherwise zeroed image *)

Definition demo_sb : block := put32 0 1000 (put32 4 941 (put32 8 200 (put32 12 30 zero_block))).
Definition demo_disk : gmap (Z * Z) block := {[ (1, 1) := demo_sb ]}.
Definition demo_log : log := mkLog 970 30 1 false ROOTDEV (mkLh 0 (replicate (Z.to_nat LOGSIZE) 0)).
(** The file system call: read block 50, change it, log it, release it. *)
Definition demo_op (d : block) : K unit :=
  b ← bread ROOTDEV 50; updbuf b (set_b_data d);; log_write b;; brelse b.

Lemma demo_disk_len u s : length (disk_get demo_disk u s) = Z.to_nat BSIZE.
Proof.
  unfold disk_get, demo_disk. destruct (decide ((u, s) = (1, 1))) as [Heq|Hne].
  - rewrite Heq. vm_compute. done.
  - rewrite lookup_singleton_ne by done. done.
Qed.

Lemma demo_log_ok : log_ok demo_log.
Proof.
  split; cbn; try done; [constructor|]. by intros bn ?%not_elem_of_nil.
Qed.

Lemma demo_tx d : length d = Z.to_nat BSIZE →
  ∃ a k, tx_state 0 a k ∧ logged k = [50] ∧ a_view a 50 = d ∧ a_disk a 50 = zero_block.
Proof.
  intros Hd. destruct (kernel0_binit demo_disk demo_disk_len) as (bc & m & _ & Hv & _).
  set (k0 := set_bc _ _) in Hv. apply (binv_log _ _ _ _ demo_log) in Hv. set (a0 := mkA _ _ _ _) in Hv.
  destruct (wp_ok (demo_op d) (λ _ k, ∃ a, tx_state 0 a k ∧ logged k = [50] ∧ a_view a 50 = d ∧
    a_disk a 50 = zero_block) (set_log demo_log k0)) as ([] & k & _ & a & HQ); [|by exists a, k].
  unfold demo_op. wp_steps.
  eapply wpa_bread; [exact Hv|done|apply not_elem_of_nil|left; apply size_empty_HEAD|].
  intros b k1 Hv1 Hf1. wp_steps. assert (Hl1 : k_log k1 = demo_log) by (by apply bframe_log in Hf1).
  eapply (wpa_setdata _ _ _ b 50); [exact Hv1|left|done|done|]. intros x k2 _ _ Hv2 Hf2 _. wp_steps.
  assert (Hl2 : k_log k2 = demo_log) by (rewrite <-Hl1; by apply bframe_log).
  eapply (wpa_log_write _ _ _ b 50); [exact Hv2|left|rewrite Hl2; apply demo_log_ok|rewrite Hl2; unfold in_log; cbn; lia|
    by rewrite Hl2|rewrite Hl2; by left|].
  intros k3 Hv3 Hf3 Hok3 Hlg3 Hl3. rewrite Hl2 in Hl3.
  assert (Hlg : logged k3 = [50]) by (rewrite Hlg3; unfold logged; by rewrite Hl2).
  eapply wpa_brelse1; [exact Hv3|left; cbn; set_solver|]. intros k4 Hv4 Hf4.
  assert (Hl4 : k_log k4 = k_log k3) by (by apply bframe_log).
  assert (Hlg4 : logged k4 = [50]) by (by rewrite (logged_frame _ _ Hf4)).
  eexists. split; [split; [exact Hv4|..]|]; rewrite ?Hl4.
  - done.
  - unfold pinned. rewrite Hlg4. cbn. set_solver.
  - by rewrite Hl3.
  - rewrite Hl3. vm_compute. done.
  - rewrite Hl3. vm_compute. done.
  - rewrite Hlg4. intros ?%list_elem_of_singleton. done.
  - rewrite Hl3. vm_compute. done.
  - split_and!; [done|cbn; by rewrite vupd_eq|done].
Qed.

(** Its commit, interrupted after any write, is all or nothing. *)
Lemma commit_crash_atomic_witness :
  ∃ p a k, tx_state p a k ∧ 0 < lh_n (log_lh (k_log k)) ∧ bview k 50 ≠ disk_of k 50 ∧
  ∃ k', commit k = Ok tt k' ∧
    (∀ x, ¬ in_log (k_log k) x → disk_of k' x = bview k x ∧ bview k' x = bview k x) ∧
    ∀ w1 w2 D pb kb,
      ide_trace (k_ide k') = ide_trace (k_ide k) ++ w1 ++ w2 →
      crashes (apply_writes (disk_of k) w1) D → booted pb D kb →
      ∃ kb', initlog kb = Ok tt kb' ∧
        ∀ x, ¬ in_log (k_log k) x →
          bview kb' x = if decide (length w1 <= length (logged k))%nat then disk_of k x else bview k x.
Proof.
  destruct (demo_tx (replicate 512 7) eq_refl) as (a & k & Htx & Hlg & Hv & Hd).
  assert (Hn : 0 < lh_n (log_lh (k_log k))).
  { pose proof (logged_length k (tx_log _ _ _ Htx)) as Hl. rewrite Hlg in Hl. cbn in Hl. lia. }
  exists 0%nat, a, k. split; [done|]. split; [done|]. split.
  { rewrite (bd_view _ _ _ (proj2 (tx_binv _ _ _ Htx))), (bd_disk _ _ _ (proj2 (tx_binv _ _ _ Htx))).
    by rewrite Hv, Hd. }
  exact (commit_crash_atomic 0 a k Htx Hn).
Defined.

(** ** Space reservation *)

Lemma keeps_log_copy to from : keeps k_log (copy_block to from).
Proof. unfold copy_block. keeps_tac. Qed.
#[export] Hint Resolve keeps_log_copy : keeps.
Lemma keeps_log_write_log : keeps k_log write_log.
Proof. unfold write_log, write_log_one, getlog. keeps_tac. Qed.
Lemma keeps_log_install : keeps k_log install_trans.
Proof. unfold install_trans, install_one, getlog. keeps_tac. Qed.
Lemma keeps_log_write_head : keeps k_log write_head.
Proof. unfold write_head, write_head_one, getlog. keeps_tac. Qed.

(** The in-memory log after each of the three calls. *)
Lemma begin_op_log k k' :
  begin_op k = Ok tt k' →
  lh_n (log_lh (k_log k)) + (log_outstanding (k_log k) + 1) * MAXOPBLOCKS <= LOGSIZE ∧
  k_log k' = set_outstanding (log_outstanding (k_log k) + 1) (k_log k).
Proof.
  unfold begin_op. intros H. inv_ok H as [] k1 H1. apply (keeps_ok k_log) in H1; [|auto with keeps].
  cbn [begin_op_loop] in H. inv_ok H as l k2 H2. unfold getlog, gets in H2. simplify_eq. rewrite H1 in *.
  destruct (log_committing (k_log k) || _) eqn:Hc.
  - inv_ok H as [] k3 H3. inv_ok H as [] k4 H4. done.
  - apply orb_false_iff in Hc as [_ Hc%Z.ltb_ge]. split; [done|].
    inv_ok H as [] k3 H3. unfold updlog, modify in H3. simplify_eq.
    apply (keeps_ok k_log) in H; [|auto with keeps]. rewrite H. cbn. by rewrite H1.
Qed.

Lemma log_write_log b k k' :
  log_write b k = Ok tt k' →
  ∃ n' bl', k_log k' = set_lh n' bl' (k_log k) ∧
    (n' = lh_n (log_lh (k_log k)) ∨ n' = lh_n (log_lh (k_log k)) + 1).
Proof.
  unfold log_write. intros H. inv_ok H as l k1 H1. unfold getlog, gets in H1. simplify_eq.
  destruct (_ || _); [done|]. destruct (_ <? 1); [done|].
  inv_ok H as [] k2 H2. apply (keeps_ok k_log) in H2; [|auto with keeps].
  inv_ok H as bf k3 H3. apply (keeps_ok k_log) in H3; [|auto with keeps].
  inv_ok H as l k4 H4. unfold getlog, gets in H4. simplify_eq. rewrite H3, H2 in H.
  inv_ok H as x k5 H5. unfold need in H5. destruct (_ !! _); simplify_eq.
  inv_ok H as [] k6 H6. unfold updlog, modify in H6. simplify_eq.
  inv_ok H as [] k7 H7. apply (keeps_ok k_log) in H7; [|auto with keeps].
  apply (keeps_ok k_log) in H; [|auto with keeps]. rewrite H, H7. cbn. rewrite H3, H2.
  do 2 eexists. split; [done|]. destruct (_ =? _); auto.
Qed.

Lemma commit_log k k' :
  commit k = Ok tt k' → 0 <= lh_n (log_lh (k_log k)) → ∃ bl', k_log k' = set_lh 0 bl' (k_log k).
Proof.
  unfold commit. intros H Hn. inv_ok H as l k1 H1. unfold getlog, gets in H1. simplify_eq.
  destruct (Z.ltb_spec 0 (lh_n (log_lh (k_log k1)))) as [Hlt|Hge]; unfold when in H.
  - inv_ok H as [] k2 H2. apply (keeps_ok k_log) in H2; [|apply keeps_log_write_log].
    inv_ok H as [] k3 H3. apply (keeps_ok k_log) in H3; [|apply keeps_log_write_head].
    inv_ok H as [] k4 H4. apply (keeps_ok k_log) in H4; [|apply keeps_log_install].
    inv_ok H as [] k5 H5. unfold clear_head, updlog, modify in H5. simplify_eq.
    apply (keeps_ok k_log) in H; [|apply keeps_log_write_head]. rewrite H. cbn.
    rewrite H4, H3, H2. by eexists.
  - injection H as <-. exists (lh_block (log_lh (k_log k1))).
    destruct (k_log k1) as [? ? ? ? ? [n bl]]. cbn in *. by replace n with 0 by lia.
Qed.

Lemma end_op_log k k' :
  end_op k = Ok tt k' → 0 <= lh_n (log_lh (k_log k)) →
  log_size (k_log k') = log_size (k_log k) ∧ log_outstanding (k_log k') = log_outstanding (k_log k) - 1 ∧
  lh_n (log_lh (k_log k')) =
    if decide (log_outstanding (k_log k) = 1) then 0 else lh_n (log_lh (k_log k)).
Proof.
  unfold end_op. intros H Hn. inv_ok H as [] k1 H1. apply (keeps_ok k_log) in H1; [|auto with keeps].
  inv_ok H as [] k2 H2. unfold updlog, modify in H2. simplify_eq.
  inv_ok H as l k3 H3. unfold getlog, gets in H3. simplify_eq. cbn in H. rewrite H1 in H.
  destruct (log_committing (k_log k)); [done|].
  destruct (Z.eqb_spec (log_outstanding (k_log k) - 1) 0) as [Ho|Ho]; unfold when in H.
  - inv_ok H as [] k4 H4. unfold updlog, modify in H4. simplify_eq.
    inv_ok H as [] k5 H5. apply (keeps_ok k_log) in H5; [|auto with keeps].
    inv_ok H as [] k6 H6. rewrite decide_True by lia.
    apply commit_log in H6 as [bl' H6]; [|by rewrite H5].
    inv_ok H as [] k7 H7. apply (keeps_ok k_log) in H7; [|auto with keeps].
    inv_ok H as [] k8 H8. unfold updlog, modify in H8. simplify_eq.
    inv_ok H as [] k9 H9. apply (keeps_ok k_log) in H9; [|auto with keeps].
    apply (keeps_ok k_log) in H; [|auto with keeps]. rewrite H, H9. cbn. by rewrite H7, H6, H5.
  - inv_ok H as [] k4 H4. apply (keeps_ok k_log) in H4; [|auto with keeps].
    inv_ok H as [] k5 H5. apply (keeps_ok k_log) in H5; [|auto with keeps]. injection H as <-.
    rewrite decide_False by lia. by rewrite H5, H4.
Qed.

(** File system calls in any interleaving.  Each call in progress has a budget
    of new log blocks, [MAXOPBLOCKS] at its [begin_op]; everything else the
    kernel does leaves the log alone. *)
Inductive tx_step : kernel * list Z → kernel * list Z → Prop :=
| ts_begin k k' bs : begin_op k = Ok tt k' → tx_step (k, bs) (k', MAXOPBLOCKS :: bs)
| ts_write k k' bs i r b :
    bs !! i = Some r → log_write b k = Ok tt k' →
    0 <= r - (lh_n (log_lh (k_log k')) - lh_n (log_lh (k_log k))) →
    tx_step (k, bs) (k', <[i := r - (lh_n (log_lh (k_log k')) - lh_n (log_lh (k_log k)))]> bs)
| ts_end k k' bs i r :
    bs !! i = Some r → end_op k = Ok tt k' → tx_step (k, bs) (k', delete i bs)
| ts_other k k' bs : k_log k' = k_log k → tx_step (k, bs) (k', bs).

Fixpoint sum_budgets (bs : list Z) : Z :=
  match bs with [] => 0 | b :: bs => b + sum_budgets bs end.

Definition reserved (s : kernel * list Z) : Prop :=
  let l := k_log s.1 in
  log_outstanding l = Z.of_nat (length s.2) ∧ Forall (λ r, 0 <= r <= MAXOPBLOCKS) s.2 ∧
  0 <= lh_n (log_lh l) ∧ lh_n (log_lh l) + sum_budgets s.2 <= LOGSIZE.

Lemma sum_budgets_insert bs i r v : bs !! i = Some r → sum_budgets (<[i := v]> bs) = sum_budgets bs - r + v.
Proof.
  revert i. induction bs as [|b bs IH]; intros [|i] Hi; simplify_eq/=; [lia|]. rewrite (IH i Hi). lia.
Qed.
Lemma sum_budgets_delete bs i r : bs !! i = Some r → sum_budgets (delete i bs) = sum_budgets bs - r.
Proof.
  revert i. induction bs as [|b bs IH]; intros [|i] Hi; simplify_eq/=; [lia|]. rewrite (IH i Hi). lia.
Qed.
Lemma sum_budgets_bound bs :
  Forall (λ r, 0 <= r <= MAXOPBLOCKS) bs →
  0 <= sum_budgets bs <= MAXOPBLOCKS * Z.of_nat (length bs) ∧ ∀ i r, bs !! i = Some r → r <= sum_budgets bs.
Proof.
  induction 1 as [|b bs Hb Hbs [IH1 IH2]]; cbn.
  - split; [lia|]. intros i r Hi. by rewrite lookup_nil in Hi.
  - split; [lia|]. intros [|i] r Hi; simplify_eq/=; [lia|]. specialize (IH2 i r Hi). lia.
Qed.

Lemma reserved_step s s' : tx_step s s' → reserved s → reserved s'.
Proof.
  intros Hs (Ho & Hb & Hn & Hsum). destruct Hs as [k k' bs H|k k' bs i r b Hi H Hr|k k' bs i r Hi H|k k' bs H];
    cbn in *; unfold reserved; cbn.
  - apply begin_op_log in H as [Hg ->]. cbn. rewrite Ho in *. destruct (sum_budgets_bound bs Hb) as [Hsb _].
    unfold MAXOPBLOCKS, LOGSIZE in *. split_and!; [lia|constructor; [lia|done]|done|lia].
  - apply log_write_log in H as (n' & bl' & Hl & Hn'). rewrite Hl in *. cbn in *.
    rewrite length_insert, (sum_budgets_insert _ _ _ _ Hi). rewrite Forall_lookup in Hb.
    pose proof (Hb i r Hi). split_and!; [done| |lia|lia].
    apply Forall_insert; [by apply Forall_lookup|lia].
  - apply end_op_log in H as (_ & Ho' & Hn'); [|done]. rewrite Ho', Hn', Ho. clear Ho' Hn'.
    pose proof (lookup_lt_Some _ _ _ Hi). rewrite length_delete by done.
    rewrite (sum_budgets_delete _ _ _ Hi). destruct (sum_budgets_bound bs Hb) as [Hsb Hsr].
    assert (Hr : 0 <= r) by (rewrite Forall_lookup in Hb; by apply (Hb i r)).
    split_and!; [lia|by apply Forall_delete| |].
    + case_decide; lia.
    + specialize (Hsr i r Hi). unfold LOGSIZE, MAXOPBLOCKS in *. case_decide; lia.
  - by rewrite H.
Qed.

(** C2: reservation by [begin_op] is enough when the log has room for
    [LOGSIZE] blocks and its header: in every interleaving of file system
    calls that each log at most [MAXOPBLOCKS] new blocks, no [log_write] of a
    call that has budget left panics with "too big a transaction", and the
    log never has more than [LOGSIZE] blocks. *)
Theorem log_reservation_safe k0 k bs i r b :
  log_outstanding (k_log k0) = 0 → lh_n (log_lh (k_log k0)) = 0 →
  rtc tx_step (k0, []) (k, bs) →
  LOGSIZE < log_size (k_log k) → bs !! i = Some r → 0 < r →
  lh_n (log_lh (k_log k)) <= LOGSIZE ∧ log_write b k ≠ Panic "too big a transaction".
Proof.
  intros Ho0 Hn0 Hreach Hsz Hi Hr.
  assert (Hres : reserved (k, bs)).
  { assert (H0 : reserved (k0, [])) by (unfold reserved; cbn; rewrite Ho0, Hn0; by split_and!).
    revert H0. induction Hreach as [|x y z Hxy _ IH]; [done|]. intros H0. by eapply IH, reserved_step. }
  destruct Hres as (Ho & Hb & Hn & Hsum). cbn in *. destruct (sum_budgets_bound bs Hb) as [Hsb Hsr].
  specialize (Hsr i r Hi). split; [lia|]. unfold log_write, getlog, gets, mbind, M_bind at 1.
  rewrite (proj2 (Z.leb_gt _ _)), (proj2 (Z.leb_gt _ _)) by lia. cbn [orb].
  destruct (log_outstanding (k_log k) <? 1); [done|].
  intros [H|([] & k1 & _ & H)]%bind_panic_inv; [by apply acquire_panic in H|].
  apply bind_panic_inv in H as [H|(bf & k2 & _ & H)]; [by unfold getbuf, get, need, mbind, M_bind in H; case_match|].
  apply bind_panic_inv in H as [H|(l & k3 & _ & H)]; [done|].
  apply bind_panic_inv in H as [H|(x & k4 & _ & H)]; [by unfold need in H; case_match|].
  apply bind_panic_inv in H as [H|([] & k5 & _ & H)]; [done|].
  apply bind_panic_inv in H as [H|([] & k6 & _ & H)]; [done|].
  apply release_panic in H. set_solver.
Qed.

(** Scripts of file system calls, run by the model. *)
Inductive tx_op := OpBegin | OpWrite (i b : nat) | OpEnd (i : nat).
Definition tx_run1 (o : tx_op) (s : kernel * list Z) : option (kernel * list Z) :=
  let '(k, bs) := s in
  match o with
  | OpBegin => match begin_op k with Ok _ k' => Some (k', MAXOPBLOCKS :: bs) | _ => None end
  | OpWrite i b =>
      match bs !! i, log_write b k with
      | Some r, Ok _ k' =>
          let r' := r - (lh_n (log_lh (k_log k')) - lh_n (log_lh (k_log k))) in
          if 0 <=? r' then Some (k', <[i := r']> bs) else None
      | _, _ => None
      end
  | OpEnd i => match bs !! i, end_op k with Some _, Ok _ k' => Some (k', delete i bs) | _, _ => None end
  end.
Definition tx_run (l : list tx_op) (s : kernel * list Z) : option (kernel * list Z) :=
  foldl (λ o x, o ≫= tx_run1 x) (Some s) l.

Lemma tx_run1_sound o s s' : tx_run1 o s = Some s' → tx_step s s'.
Proof.
  destruct s as [k bs], o as [|i b|i]; cbn.
  - destruct (begin_op k) as [[] k'| | | |] eqn:H; intros; simplify_eq. by constructor.
  - destruct (bs !! i) as [r|] eqn:Hi; [|done]. destruct (log_write b k) as [[] k'| | | |] eqn:H; try done.
    destruct (Z.leb_spec 0 (r - (lh_n (log_lh (k_log k')) - lh_n (log_lh (k_log k))))); intros; simplify_eq.
    by econstructor.
  - destruct (bs !! i) as [r|] eqn:Hi; [|done]. destruct (end_op k) as [[] k'| | | |] eqn:H; try done.
    intros; simplify_eq. by econstructor.
Qed.

Lemma tx_run_sound l s s' : tx_run l s = Some s' → rtc tx_step s s'.
Proof.
  revert s'. induction l as [|o l IH] using rev_ind; intros s' H; unfold tx_run in *; cbn in *.
  - simplify_eq. constructor.
  - rewrite foldl_app in H. cbn in H. apply bind_Some in H as (s1 & H1 & H2).
    eapply rtc_r; [by apply IH|by eapply tx_run1_sound].
Qed.

(** Thirty cached blocks 100 to 129, and a log of [size] blocks. *)
Definition full_kernel (size : Z) : kernel :=
  set_log (mkLog (1000 - size) size 0 false ROOTDEV (mkLh 0 (replicate (Z.to_nat LOGSIZE) 0)))
    (set_bc (map (λ i, mkBuf 3 1 (100 + Z.of_nat i) 0 0 None []) (seq 0 (S HEAD))) (kernel0 ∅)).
(** Three calls begin; the first two log ten blocks each, the third nine. *)
Definition full_script : list tx_op :=
  [OpBegin; OpBegin; OpBegin] ++ map (λ i, OpWrite (i / 10) i) (seq 0 29).

Definition is_panic {S A} (r : res S A) (msg : string) : bool :=
  match r with Panic m => bool_decide (m = msg) | _ => false end.
Lemma is_panic_true {S A} (r : res S A) msg : is_panic r msg = true → r = Panic msg.
Proof. destruct r; cbn; try done. intros ->%bool_decide_eq_true. done. Qed.

(** The script's last state: the third call has one block left. *)
Definition full_check (size : Z) (f : kernel → bool) : bool :=
  match tx_run full_script (full_kernel size, []) with
  | Some (k, bs) => bool_decide (bs = [0; 0; 1]) && (log_size (k_log k) =? size) && f k
  | None => false
  end.
Lemma full_check_run size f :
  full_check size f = true →
  ∃ k, rtc tx_step (full_kernel size, []) (k, [0; 0; 1]) ∧ log_size (k_log k) = size ∧ f k = true.
Proof.
  unfold full_check. destruct (tx_run _ _) as [[k bs]|] eqn:H; [|done].
  intros [[->%bool_decide_eq_true ?%Z.eqb_eq]%andb_true_iff ?]%andb_true_iff.
  exists k. split_and!; [by eapply tx_run_sound|done..].
Qed.

Lemma log_reservation_safe_witness :
  ∃ k b, lh_n (log_lh (k_log k)) = 29 ∧ lh_n (log_lh (k_log k)) <= LOGSIZE ∧
    log_write b k ≠ Panic "too big a transaction".
Proof.
  destruct (full_check_run 31 (λ k, lh_n (log_lh (k_log k)) =? 29)) as (k & Hr & Hs & Hn%Z.eqb_eq).
  { vm_compute. reflexivity. }
  exists k, 29%nat. split; [done|].
  apply (log_reservation_safe (full_kernel 31) k [0; 0; 1] 2 1 29);
    [done|done|exact Hr|rewrite Hs; done|done|done].
Defined.

(** C40: with the log that mkfs lays out, of [LOGSIZE] blocks including the
    header, the reservation of [begin_op] is one block short: three calls
    within their budgets reach a state in which the third call, with one
    block of its budget left, panics. *)
Theorem log_reservation_short :
  ∃ k, rtc tx_step (full_kernel LOGSIZE, []) (k, [0; 0; 1]) ∧ log_size (k_log k) = LOGSIZE ∧
    log_write 29 k = Panic "too big a transaction".
Proof.
  destruct (full_check_run LOGSIZE (λ k, is_panic (log_write 29 k) "too big a transaction")) as (k & Hr & Hs & Hp).
  { vm_compute. reflexivity. }
  exists k. split_and!; [done..|by apply is_panic_true].
Qed.
