(* ===== verification/Cstr.v ===== *)
(** * Cstr: the byte and string routines of kernel/string.c

    Memory is a total function from addresses to bytes, and an object that a
    routine only reads is a view of it, the function that gives the byte at
    each offset from the pointer.  [memmove] reads and writes one memory,
    because its contract is about overlapping ranges.  A loop that counts
    down is a recursion on the count; a loop that looks for the terminating
    NUL has fuel, and the theorems say how much of it is enough. *)

From stdpp Require Import prelude functions gmap strings.
From S2P Require Import Prelude.
Open Scope Z_scope.

Abbreviation mem := (Z → Z).

(** The view of a list of bytes as the object at a pointer. *)
Definition cells (l : list Z) : Z → Z := λ i, nth (Z.to_nat i) l 0.

(** The [n] bytes an object starts with. *)
Definition bytes_of (p : Z → Z) (n : Z) : list Z := p <$> seqZ 0 n.

(** ** kernel/string.c *)

Fixpoint stosb (m : mem) (d c : Z) (n : nat) : mem :=
  match n with
  | O => m
  | S n' => stosb (<[d := u8 c]> m) (d + 1) c n'
  end.

(** [stosl] stores a 32-bit word, low byte first, at each of [n] steps. *)
Fixpoint stosl (m : mem) (d w : Z) (n : nat) : mem :=
  match n with
  | O => m
  | S n' =>
      let m1 := <[d := Z.land w 255]> m in
      let m2 := <[d + 1 := Z.land (Z.shiftr w 8) 255]> m1 in
      let m3 := <[d + 2 := Z.land (Z.shiftr w 16) 255]> m2 in
      let m4 := <[d + 3 := Z.land (Z.shiftr w 24) 255]> m3 in
      stosl m4 (d + 4) w n'
  end.

Definition memset (m : mem) (dst c n : Z) : mem :=
  if (dst mod 4 =? 0) && (n mod 4 =? 0)
  then let c := Z.land c 255 in
       stosl m dst
         (Z.lor (Z.lor (Z.lor (Z.shiftl c 24) (Z.shiftl c 16)) (Z.shiftl c 8)) c)
         (Z.to_nat (n / 4))
  else stosb m dst c (Z.to_nat n).

Fixpoint memcmp_loop (s1 s2 : Z → Z) (i : Z) (n : nat) : Z :=
  match n with
  | O => 0
  | S n' => if negb (s1 i =? s2 i) then s1 i - s2 i
            else memcmp_loop s1 s2 (i + 1) n'
  end.

Definition memcmp (s1 s2 : Z → Z) (n : Z) : Z := memcmp_loop s1 s2 0 (Z.to_nat n).

(** The two loops of [memmove]: downwards from the ends, upwards from the
    starts. *)
Fixpoint copy_down (m : mem) (d s : Z) (n : nat) : mem :=
  match n with
  | O => m
  | S n' => copy_down (<[d - 1 := m (s - 1)]> m) (d - 1) (s - 1) n'
  end.

Fixpoint copy_up (m : mem) (d s : Z) (n : nat) : mem :=
  match n with
  | O => m
  | S n' => copy_up (<[d := m s]> m) (d + 1) (s + 1) n'
  end.

Definition memmove (m : mem) (dst src n : Z) : mem :=
  if (src <? dst) && (dst <? src + n)
  then copy_down m (dst + n) (src + n) (Z.to_nat n)
  else copy_up m dst src (Z.to_nat n).

Definition memcpy (m : mem) (dst src n : Z) : mem := memmove m dst src n.

Fixpoint strncmp_loop (p q : Z → Z) (i : Z) (n : nat) : Z :=
  match n with
  | O => 0
  | S n' => if negb (p i =? 0) && (p i =? q i) then strncmp_loop p q (i + 1) n'
            else u8 (p i) - u8 (q i)
  end.

Definition strncmp (p q : Z → Z) (n : Z) : Z := strncmp_loop p q 0 (Z.to_nat n).

Fixpoint zero_fill (m : mem) (s : Z) (n : nat) : mem :=
  match n with
  | O => m
  | S n' => zero_fill (<[s := 0]> m) (s + 1) n'
  end.

Fixpoint strncpy_loop (m : mem) (s : Z) (t : Z → Z) (i : Z) (n : nat) : mem :=
  match n with
  | O => m
  | S n' =>
      let m := <[s + i := t i]> m in
      if t i =? 0 then zero_fill m (s + i + 1) n'
      else strncpy_loop m s t (i + 1) n'
  end.

Definition strncpy (m : mem) (s : Z) (t : Z → Z) (n : Z) : mem :=
  strncpy_loop m s t 0 (Z.to_nat n).

(** [n] is the number of further bytes the loop may copy; the final store
    goes to the cell after the last byte copied, which is the cell after the
    NUL when the loop stopped at one. *)
Fixpoint safestrcpy_loop (m : mem) (s : Z) (t : Z → Z) (i : Z) (n : nat) : mem :=
  match n with
  | O => <[s + i := 0]> m
  | S n' =>
      let m := <[s + i := t i]> m in
      if t i =? 0 then <[s + (i + 1) := 0]> m
      else safestrcpy_loop m s t (i + 1) n'
  end.

Definition safestrcpy (m : mem) (s : Z) (t : Z → Z) (n : Z) : mem :=
  if n <=? 0 then m else safestrcpy_loop m s t 0 (Z.to_nat (n - 1)).

Fixpoint strlen_loop (s : Z → Z) (n : Z) (fuel : nat) : option Z :=
  match fuel with
  | O => None
  | S fuel' => if s n =? 0 then Some n else strlen_loop s (n + 1) fuel'
  end.

Definition strlen (s : Z → Z) (fuel : nat) : option Z := strlen_loop s 0 fuel.

(** ** Copying *)

(** [copied m m' d s n]: [m'] is [m] with the [n] bytes at [s], as they were
    in [m], at [d], and nothing else changed. *)
Definition copied (m m' : mem) (d s n : Z) : Prop :=
  ∀ a, m' a = if bool_decide (d ≤ a < d + n) then m (s + (a - d)) else m a.

Ltac fn_tac :=
  repeat first
    [ rewrite fn_lookup_insert
    | rewrite fn_lookup_insert_ne by lia
    | rewrite bool_decide_eq_true_2 by lia
    | rewrite bool_decide_eq_false_2 by lia ];
  try done; try (f_equal; lia).

Lemma copy_up_ok n : ∀ m d s, d ≤ s ∨ s + Z.of_nat n ≤ d →
  copied m (copy_up m d s n) d s (Z.of_nat n).
Proof.
  induction n as [|n IH]; intros m d s H a; cbn [copy_up].
  - fn_tac.
  - rewrite (IH _ (d + 1) (s + 1)) by lia.
    destruct (decide (a = d)) as [->|]; [fn_tac|].
    destruct (decide (d ≤ a < d + Z.of_nat (S n))); fn_tac.
Qed.

Lemma copy_down_ok n : ∀ m d s, s ≤ d →
  copied m (copy_down m d s n) (d - Z.of_nat n) (s - Z.of_nat n) (Z.of_nat n).
Proof.
  induction n as [|n IH]; intros m d s H a; cbn [copy_down].
  - fn_tac.
  - rewrite (IH _ (d - 1) (s - 1)) by lia.
    destruct (decide (a = d - 1)) as [->|]; [fn_tac|].
    destruct (decide (d - Z.of_nat (S n) ≤ a < d)); fn_tac.
Qed.

(** [memmove] copies as if through a temporary, whatever the overlap of
    the two ranges: afterwards the [n] bytes at [dst] are the bytes that were
    at [src] before the call, and no other byte has changed. *)
Theorem memmove_correct (m : mem) (dst src n : Z) (Hn : 0 ≤ n) :
  copied m (memmove m dst src n) dst src n.
Proof.
  intros a. unfold memmove.
  destruct ((src <? dst) && (dst <? src + n)) eqn:E.
  - pose proof (copy_down_ok (Z.to_nat n) m (dst + n) (src + n) ltac:(lia) a) as H.
    rewrite Z2Nat.id in H by lia.
    by replace (dst + n - n) with dst in H by lia;
       replace (src + n - n) with src in H by lia.
  - pose proof (copy_up_ok (Z.to_nat n) m dst src ltac:(lia) a) as H.
    by rewrite Z2Nat.id in H by lia.
Qed.

Lemma memmove_correct_witness :
  bytes_of (memmove (λ a, a) 2 0 4) 7 = [0; 1; 0; 1; 2; 3; 6] ∧
  copied (λ a, a) (memmove (λ a, a) 2 0 4) 2 0 4.
Proof. split; [vm_compute; reflexivity|]. apply memmove_correct. lia. Defined.

(** ** Filling *)

Lemma stosb_ok n : ∀ m d c a,
  stosb m d c n a = if bool_decide (d ≤ a < d + Z.of_nat n) then u8 c else m a.
Proof.
  induction n as [|n IH]; intros m d c a; cbn [stosb]; [fn_tac|].
  rewrite IH. destruct (decide (a = d)) as [->|]; [fn_tac|].
  destruct (decide (d ≤ a < d + Z.of_nat (S n))); fn_tac.
Qed.

Lemma stosl_ok n w c : ∀ m d a,
  Z.land w 255 = c → Z.land (Z.shiftr w 8) 255 = c →
  Z.land (Z.shiftr w 16) 255 = c → Z.land (Z.shiftr w 24) 255 = c →
  stosl m d w n a = if bool_decide (d ≤ a < d + 4 * Z.of_nat n) then c else m a.
Proof.
  induction n as [|n IH]; intros m d a H0 H1 H2 H3; cbn [stosl]; [fn_tac|].
  rewrite IH, H0, H1, H2, H3 by done.
  destruct (decide (a = d)) as [->|]; [fn_tac|].
  destruct (decide (a = d + 1)) as [->|]; [fn_tac|].
  destruct (decide (a = d + 2)) as [->|]; [fn_tac|].
  destruct (decide (a = d + 3)) as [->|]; [fn_tac|].
  destruct (decide (d ≤ a < d + 4 * Z.of_nat (S n))); fn_tac.
Qed.

(** The word that [memset] stores has the byte [c] in each of its places. *)
Lemma memset_word c k : 0 ≤ c < 256 → 0 ≤ k < 4 →
  Z.land (Z.shiftr (Z.lor (Z.lor (Z.lor (Z.shiftl c 24) (Z.shiftl c 16)) (Z.shiftl c 8)) c)
            (8 * k)) 255 = c.
Proof.
  intros Hc Hk. change 255 with (Z.ones 8). apply Z.bits_inj'. intros i Hi.
  rewrite Z.land_spec, Z.shiftr_spec, !Z.lor_spec, !Z.shiftl_spec, Z.testbit_ones by lia.
  assert (Hhigh : ∀ j, 8 ≤ j → Z.testbit c j = false).
  { intros j Hj. destruct (decide (c = 0)) as [->|]; [apply Z.testbit_0_l|].
    apply Z.bits_above_log2; [lia|]. apply (Z.log2_lt_pow2 c j); [lia|].
    apply Z.lt_le_trans with (2 ^ 8); [lia|]. by apply Z.pow_le_mono_r; lia. }
  destruct (decide (i < 8)).
  2:{ rewrite (Hhigh i) by lia. replace (i <? 8) with false by lia. by rewrite !andb_false_r. }
  replace ((0 <=? i) && (i <? 8)) with true by lia. rewrite andb_true_r.
  assert (k = 0 ∨ k = 1 ∨ k = 2 ∨ k = 3) as [-> | [-> | [-> | ->]]] by lia;
    repeat match goal with
      | |- context [Z.testbit c ?j] =>
          assert_fails (constr_eq j i);
          first [ rewrite (Z.testbit_neg_r c j) by lia
                | rewrite (Hhigh j) by lia
                | replace j with i by lia ]
      end; by destruct (Z.testbit c i).
Qed.

Lemma memset_correct m dst c n a : 0 ≤ n →
  memset m dst c n a = if bool_decide (dst ≤ a < dst + n) then u8 c else m a.
Proof.
  intros Hn. unfold memset.
  destruct ((dst mod 4 =? 0) && (n mod 4 =? 0)) eqn:E.
  2:{ rewrite stosb_ok. by rewrite Z2Nat.id by lia. }
  apply andb_true_iff in E as [_ E%Z.eqb_eq].
  assert (Hc : Z.land c 255 = u8 c).
  { change 255 with (Z.ones 8). rewrite Z.land_ones by lia. done. }
  rewrite Hc. pose proof (u8_range c) as Hr.
  rewrite (stosl_ok _ _ (u8 c)).
  - rewrite Z2Nat.id by (apply Z.div_pos; lia).
    by replace (4 * (n / 4)) with n by (pose proof (Z.div_mod n 4); lia).
  - apply (memset_word (u8 c) 0); lia.
  - apply (memset_word (u8 c) 1); lia.
  - apply (memset_word (u8 c) 2); lia.
  - apply (memset_word (u8 c) 3); lia.
Qed.

(** ** Strings *)

(** The string of at most [n] bytes at [p], without its NUL. *)
Fixpoint cstr_from (p : Z → Z) (i : Z) (n : nat) : list Z :=
  match n with
  | O => []
  | S n' => if p i =? 0 then [] else p i :: cstr_from p (i + 1) n'
  end.

Definition cstr (p : Z → Z) (n : Z) : list Z := cstr_from p 0 (Z.to_nat n).

Lemma cstr_from_S p i n :
  cstr_from p i (S n) = if p i =? 0 then [] else p i :: cstr_from p (i + 1) n.
Proof. done. Qed.

Lemma strncmp_loop_eq p q n : (∀ i, is_byte (p i)) → (∀ i, is_byte (q i)) →
  ∀ i, strncmp_loop p q i n = 0 ↔ cstr_from p i n = cstr_from q i n.
Proof.
  intros Hp Hq. induction n as [|n IH]; intros i; cbn [strncmp_loop cstr_from]; [done|].
  rewrite !u8_small by apply Hp || apply Hq.
  destruct (Z.eqb_spec (p i) 0) as [E|E], (Z.eqb_spec (q i) 0) as [E'|E'];
    destruct (Z.eqb_spec (p i) (q i)) as [E''|E'']; cbn [negb andb];
    try (exfalso; lia); try (split; [lia|congruence]).
  - split; intros; [done|lia].
  - rewrite IH. split; intros H; [|by simplify_eq/=; inversion H]. by rewrite E'', H.
Qed.

(** [strncmp] is zero on the pairs that are the same string of at most [n]
    bytes. *)
Lemma strncmp_eq p q n : (∀ i, is_byte (p i)) → (∀ i, is_byte (q i)) →
  strncmp p q n = 0 ↔ cstr p n = cstr q n.
Proof. intros. by apply strncmp_loop_eq. Qed.

Lemma zero_fill_ok n : ∀ m s a,
  zero_fill m s n a = if bool_decide (s ≤ a < s + Z.of_nat n) then 0 else m a.
Proof.
  induction n as [|n IH]; intros m s a; cbn [zero_fill]; [fn_tac|].
  rewrite IH. destruct (decide (a = s)) as [->|]; [fn_tac|].
  destruct (decide (s ≤ a < s + Z.of_nat (S n))); fn_tac.
Qed.

(** [same_outside m m' s n]: [m'] differs from [m] only in the [n] cells at
    [s]. *)
Definition same_outside (m m' : mem) (s n : Z) : Prop :=
  ∀ a, ¬ (s ≤ a < s + n) → m' a = m a.

Lemma cstr_from_ext p q n : ∀ i j,
  (∀ k, 0 ≤ k < Z.of_nat n → p (i + k) = q (j + k)) → cstr_from p i n = cstr_from q j n.
Proof.
  induction n as [|n IH]; intros i j H; cbn [cstr_from]; [done|].
  pose proof (H 0 ltac:(lia)) as H0. rewrite !Z.add_0_r in H0. rewrite H0.
  rewrite (IH (i + 1) (j + 1)); [done|]. intros k Hk.
  rewrite <-!Z.add_assoc. apply H. lia.
Qed.

Lemma strncpy_loop_outside n : ∀ m s t i,
  same_outside m (strncpy_loop m s t i n) (s + i) (Z.of_nat n).
Proof.
  induction n as [|n IH]; intros m s t i a Ha; cbn [strncpy_loop]; [done|].
  destruct (t i =? 0).
  - rewrite zero_fill_ok. fn_tac.
  - rewrite IH by lia. fn_tac.
Qed.

Lemma strncpy_loop_cstr n : ∀ m s t i,
  cstr_from (strncpy_loop m s t i n) (s + i) n = cstr_from t i n.
Proof.
  induction n as [|n IH]; intros m s t i; cbn [strncpy_loop cstr_from]; [done|].
  destruct (Z.eqb_spec (t i) 0) as [E|E].
  - rewrite zero_fill_ok. rewrite bool_decide_eq_false_2 by lia.
    rewrite fn_lookup_insert. by rewrite E.
  - rewrite (strncpy_loop_outside n _ s t (i + 1)) by lia.
    rewrite fn_lookup_insert. replace (t i =? 0) with false by lia.
    f_equal. rewrite <-Z.add_assoc. apply IH.
Qed.

(** [strncpy] gives a field of [n] bytes the same string as its source, and
    touches nothing else. *)
Lemma strncpy_spec m s t n : 0 ≤ n →
  cstr (λ i, strncpy m s t n (s + i)) n = cstr t n ∧
  same_outside m (strncpy m s t n) s n.
Proof.
  intros Hn. unfold strncpy, cstr. split.
  - etrans; [|apply (strncpy_loop_cstr _ m s t 0)].
    apply cstr_from_ext. intros k Hk. f_equal. lia.
  - intros a Ha. apply strncpy_loop_outside. lia.
Qed.

Lemma safestrcpy_loop_outside n : ∀ m s t i,
  same_outside m (safestrcpy_loop m s t i n) (s + i) (Z.of_nat (S n)).
Proof.
  induction n as [|n IH]; intros m s t i a Ha; cbn [safestrcpy_loop]; [fn_tac|].
  destruct (t i =? 0); [fn_tac|]. rewrite IH by lia. fn_tac.
Qed.

Lemma safestrcpy_loop_cstr n : ∀ m s t i,
  cstr_from (safestrcpy_loop m s t i n) (s + i) (S n) = cstr_from t i n.
Proof.
  induction n as [|n IH]; intros m s t i.
  - cbn [safestrcpy_loop cstr_from]. by rewrite fn_lookup_insert.
  - cbn [safestrcpy_loop]. rewrite (cstr_from_S _ _ (S n)), (cstr_from_S t i n).
    destruct (Z.eqb_spec (t i) 0) as [E|E].
    + rewrite fn_lookup_insert_ne by lia. rewrite fn_lookup_insert. by rewrite E.
    + rewrite (safestrcpy_loop_outside n _ s t (i + 1)) by lia.
      rewrite fn_lookup_insert. replace (t i =? 0) with false by lia.
      f_equal. rewrite <-Z.add_assoc. apply IH.
Qed.

Lemma length_cstr_from p n : ∀ i, (length (cstr_from p i n) ≤ n)%nat.
Proof.
  induction n as [|n IH]; intros i; cbn [cstr_from]; [done|].
  case_match; cbn [length]; [lia|]. pose proof (IH (i + 1)). lia.
Qed.

(** [safestrcpy] into a buffer of [n] bytes writes only that buffer and
    leaves in it the first [n - 1] bytes of the source string, so that the
    string it holds always ends inside the buffer. *)
Theorem safestrcpy_bounded (m : mem) (s : Z) (t : Z → Z) (n : Z) (Hn : 0 < n) :
  same_outside m (safestrcpy m s t n) s n ∧
  cstr (λ i, safestrcpy m s t n (s + i)) n = cstr t (n - 1) ∧
  Z.of_nat (length (cstr (λ i, safestrcpy m s t n (s + i)) n)) < n.
Proof.
  assert (H : cstr (λ i, safestrcpy m s t n (s + i)) n = cstr t (n - 1)).
  { unfold safestrcpy, cstr. replace (n <=? 0) with false by lia.
    replace (Z.to_nat n) with (S (Z.to_nat (n - 1))) by lia.
    etrans; [|apply (safestrcpy_loop_cstr _ m s t 0)].
    apply cstr_from_ext. intros k Hk. f_equal. lia. }
  split; [|split; [done|]].
  - intros a Ha. unfold safestrcpy. replace (n <=? 0) with false by lia.
    apply safestrcpy_loop_outside. lia.
  - rewrite H. unfold cstr. pose proof (length_cstr_from t (Z.to_nat (n - 1)) 0). lia.
Qed.

Lemma safestrcpy_bounded_witness :
  cstr (λ i, safestrcpy (λ _, 7) 0 (cells [104; 101; 108; 108; 111; 0]) 4 (0 + i)) 4
    = [104; 101; 108].
Proof.
  destruct (safestrcpy_bounded (λ _, 7) 0 (cells [104; 101; 108; 108; 111; 0]) 4 eq_refl)
    as (_ & H & _).
  rewrite H. vm_compute. reflexivity.
Defined.

(** [strlen] stops at the first NUL, with one unit of fuel more than the
    length. *)
Lemma strlen_loop_ok k : ∀ s i fuel,
  (∀ j, 0 ≤ j < Z.of_nat k → s (i + j) ≠ 0) → s (i + Z.of_nat k) = 0 →
  (k < fuel)%nat → strlen_loop s i fuel = Some (i + Z.of_nat k).
Proof.
  induction k as [|k IH]; intros s i [|fuel] Hne H0 Hf; try lia; cbn [strlen_loop].
  - rewrite Z.add_0_r in *. by rewrite H0.
  - pose proof (Hne 0 ltac:(lia)) as H. rewrite Z.add_0_r in H.
    replace (s i =? 0) with false by lia. rewrite IH; [f_equal; lia | | | lia].
    + intros j Hj. rewrite <-Z.add_assoc. apply Hne. lia.
    + rewrite <-H0. f_equal. lia.
Qed.

Lemma strlen_ok s k fuel :
  (∀ j, 0 ≤ j < Z.of_nat k → s j ≠ 0) → s (Z.of_nat k) = 0 → (k < fuel)%nat →
  strlen s fuel = Some (Z.of_nat k).
Proof. intros. unfold strlen. by apply (strlen_loop_ok k s 0). Qed.
