(* ===== verification/Ulib.v ===== *)
(** * Ulib: the C library of the user programs, ulib/ulib.c

    The routines work on the memory and the views of [Cstr]. *)

From stdpp Require Import prelude functions gmap strings.
From S2P Require Import Prelude Cstr.
Open Scope Z_scope.

Fixpoint strcpy_loop (m : mem) (s : Z) (t : Z → Z) (i : Z) (fuel : nat) : option mem :=
  match fuel with
  | O => None
  | S fuel' =>
      let m := <[s + i := t i]> m in
      if t i =? 0 then Some m else strcpy_loop m s t (i + 1) fuel'
  end.

Definition strcpy (m : mem) (s : Z) (t : Z → Z) (fuel : nat) : option mem :=
  strcpy_loop m s t 0 fuel.

Fixpoint strcmp_loop (p q : Z → Z) (i : Z) (fuel : nat) : option Z :=
  match fuel with
  | O => None
  | S fuel' => if negb (p i =? 0) && (p i =? q i) then strcmp_loop p q (i + 1) fuel'
               else Some (u8 (p i) - u8 (q i))
  end.

Definition strcmp (p q : Z → Z) (fuel : nat) : option Z := strcmp_loop p q 0 fuel.

(** [strchr] returns the offset of the first [c], or [None] for NULL; the
    outer option is the fuel. *)
Fixpoint strchr_loop (s : Z → Z) (c i : Z) (fuel : nat) : option (option Z) :=
  match fuel with
  | O => None
  | S fuel' => if s i =? 0 then Some None
               else if s i =? c then Some (Some i)
               else strchr_loop s c (i + 1) fuel'
  end.

Definition strchr (s : Z → Z) (c : Z) (fuel : nat) : option (option Z) :=
  strchr_loop s c 0 fuel.

Definition is_digit (c : Z) : bool := (48 <=? c) && (c <=? 57).

Fixpoint atoi_loop (s : Z → Z) (i n : Z) (fuel : nat) : option Z :=
  match fuel with
  | O => None
  | S fuel' => if is_digit (s i) then atoi_loop s (i + 1) (i32 (n * 10 + s i - 48)) fuel'
               else Some n
  end.

Definition atoi (s : Z → Z) (fuel : nat) : option Z := atoi_loop s 0 0 fuel.

Definition memmove (m : mem) (dst src n : Z) : mem :=
  copy_up m dst src (Z.to_nat n).

Definition memset (m : mem) (dst c n : Z) : mem := stosb m dst c (Z.to_nat n).

(** [gets]: what [read(0, &c, 1)] gives, call after call, is the list of its
    results, [Some c] for one byte and [None] for a count below one.  The
    result is the buffer's contents up to and including the NUL, and the
    calls left over; [None] when the list of results is too short. *)
Fixpoint gets_loop (input : list (option Z)) (room : nat) (acc : list Z)
    {struct room} : option (list Z * list (option Z)) :=
  match room with
  | O => Some (acc ++ [0], input)
  | S room' =>
      match input with
      | [] => None
      | None :: rest => Some (acc ++ [0], rest)
      | Some c :: rest =>
          if (c =? 10) || (c =? 13) then Some (acc ++ [c; 0], rest)
          else gets_loop rest room' (acc ++ [c])
      end
  end.

Definition gets (input : list (option Z)) (max : Z) : option (list Z * list (option Z)) :=
  gets_loop input (Z.to_nat (max - 1)) [].

(** ** Strings *)

(** Comparing strings that end within the fuel. *)
Lemma strcmp_loop_ok p q (Hp : ∀ i, is_byte (p i)) (Hq : ∀ i, is_byte (q i)) :
  ∀ k i fuel, p (i + Z.of_nat k) = 0 → (k < fuel)%nat →
  ∃ r, strcmp_loop p q i fuel = Some r ∧
    (r = 0 ↔ cstr_from p i (S k) = cstr_from q i (S k)).
Proof.
  induction k as [|k IH]; intros i [|fuel] H0 Hf; try lia; cbn [strcmp_loop];
    rewrite (cstr_from_S p), (cstr_from_S q), !u8_small by apply Hp || apply Hq.
  - rewrite Z.add_0_r in H0. rewrite H0. cbn [Z.eqb negb andb]. eexists; split; [done|].
    destruct (Z.eqb_spec (q i) 0) as [E|E]; [split; [done|lia]|]. split; [lia|done].
  - destruct (Z.eqb_spec (p i) 0) as [E|E], (Z.eqb_spec (p i) (q i)) as [E'|E']; cbn [negb andb].
    + eexists; split; [done|]. rewrite <-E', E. done.
    + eexists; split; [done|]. destruct (Z.eqb_spec (q i) 0); [lia|]. split; [lia|done].
    + destruct (IH (i + 1) fuel) as (r & Hr & Heq); [by replace (i + 1 + Z.of_nat k) with (i + Z.of_nat (S k)) by lia|lia|].
      exists r. split; [done|]. rewrite Heq, <-E'. replace (p i =? 0) with false by lia.
      split; [by intros ->|by intros [=]].
    + eexists; split; [done|]. destruct (Z.eqb_spec (q i) 0); [|split; [lia|congruence]].
      split; [lia|done].
Qed.

(** [strcmp] ends on two strings, and is zero exactly on equal ones. *)
Lemma strcmp_eq p q k fuel : (∀ i, is_byte (p i)) → (∀ i, is_byte (q i)) →
  p (Z.of_nat k) = 0 → (k < fuel)%nat →
  ∃ r, strcmp p q fuel = Some r ∧
    (r = 0 ↔ cstr p (Z.of_nat (S k)) = cstr q (Z.of_nat (S k))).
Proof.
  intros Hp Hq H0 Hf. unfold strcmp, cstr. rewrite Nat2Z.id.
  by apply (strcmp_loop_ok p q Hp Hq k 0 fuel).
Qed.

(** ** Numbers *)

(** The value of a string of digits. *)
Definition dec_value (l : list Z) : Z := foldl (λ n c, n * 10 + (c - 48)) 0 l.

Lemma foldl_i32 l : ∀ n,
  i32 (foldl (λ n c, n * 10 + (c - 48)) (i32 n) l) = i32 (foldl (λ n c, n * 10 + (c - 48)) n l).
Proof.
  assert (H : ∀ n m, (∃ q, n = m + q * 2 ^ 32) →
    i32 (foldl (λ n c, n * 10 + (c - 48)) n l) = i32 (foldl (λ n c, n * 10 + (c - 48)) m l)).
  { induction l as [|c l IH]; intros n m [q ->]; cbn; [apply i32_cong; by exists q|].
    apply IH. exists (q * 10). lia. }
  intros n. apply H, i32_repr.
Qed.

Lemma atoi_loop_ok l : ∀ s i n fuel,
  Forall (λ c, is_digit c = true) l →
  (∀ j c, l !! j = Some c → s (i + Z.of_nat j) = c) →
  is_digit (s (i + Z.of_nat (length l))) = false →
  (length l < fuel)%nat → i32 n = n →
  atoi_loop s i n fuel = Some (i32 (foldl (λ n c, n * 10 + (c - 48)) n l)).
Proof.
  induction l as [|c l IH]; intros s i n [|fuel] Hd Hs Hend Hf Hn; cbn [length] in *; try lia;
    cbn [atoi_loop].
  - rewrite Z.add_0_r in Hend. rewrite Hend. cbn. by rewrite Hn.
  - apply Forall_cons in Hd as [Hc Hd]. pose proof (Hs 0%nat c eq_refl) as H0.
    rewrite Z.add_0_r in H0. rewrite H0, Hc. rewrite IH; cbn [foldl].
    + f_equal. replace (n * 10 + c - 48) with (n * 10 + (c - 48)) by lia. apply foldl_i32.
    + done.
    + intros j x Hj. rewrite <-Z.add_assoc. rewrite <-(Hs (S j) x Hj). f_equal. lia.
    + rewrite <-Hend. f_equal. f_equal. lia.
    + lia.
    + apply i32_i32.
Qed.

(** [atoi] of a string of digits is its value, wrapped to an [int]. *)
Lemma atoi_ok l s fuel :
  Forall (λ c, is_digit c = true) l → (∀ j c, l !! j = Some c → s (Z.of_nat j) = c) →
  is_digit (s (Z.of_nat (length l))) = false → (length l < fuel)%nat →
  atoi s fuel = Some (i32 (dec_value l)).
Proof. intros. by apply (atoi_loop_ok l s 0 0). Qed.

(** ** Reading a line *)

Lemma gets_loop_bound room : ∀ input acc r rest,
  gets_loop input room acc = Some (r, rest) →
  (length r ≤ length acc + room + 1)%nat ∧ ∃ l, r = acc ++ l ++ [0].
Proof.
  induction room as [|room IH]; intros input acc r rest; cbn [gets_loop].
  - intros ?; simplify_eq. rewrite length_app. cbn. split; [lia|]. by exists [].
  - destruct input as [|[c|] input]; [done| |].
    + case_match.
      * intros ?; simplify_eq. rewrite length_app. cbn. split; [lia|]. by exists [c].
      * intros [Hl (l & ->)]%IH. rewrite length_app in Hl |- *. cbn in *.
        split; [rewrite !length_app in *; cbn in *; lia|].
        exists (c :: l). by rewrite <-app_assoc.
    + intros ?; simplify_eq. rewrite length_app. cbn. split; [lia|]. by exists [].
Qed.

(** [gets] writes at most [max] bytes and ends them with a NUL. *)
Lemma gets_bound input max r rest : 0 < max →
  gets input max = Some (r, rest) → Z.of_nat (length r) ≤ max ∧ ∃ l, r = l ++ [0].
Proof.
  intros Hm [Hl H]%gets_loop_bound. split; [cbn in Hl; lia|done].
Qed.
