(* ===== verification/Fs.v ===== *)
(** * Fs: the operations of kernel/fs.c

    Blocks, inodes, file contents, directories and path names, one definition
    per function of the source.  A pointer into [icache.inode] is its index;
    a buffer's data is the block's bytes, so an on-disk structure is read and
    written at the byte offsets the compiler gives its fields.  [readi] gives
    the bytes it stores at [dst] along with its result, and [writei] is given
    the bytes at [src].  The loops over files have fuel for the largest number
    of iterations the size allows. *)

From stdpp Require Import prelude functions gmap strings.
From S2P Require Import Prelude Types Spinlock Sched Ide Bio Cstr Log.
Open Scope Z_scope.

(** ** Blocks *)

(** [bp->data] replaced by [f] of it. *)
Definition upddata (b : nat) (f : block → block) : K unit :=
  updbuf b (λ x, set_b_data (f (b_data x)) x).

Definition bzero (dev bno : Z) : K unit :=
  bp ← bread dev (u32 bno);
  upddata bp (λ _, zero_block);;
  log_write bp;;
  brelse bp.

(** The bit of block [b + bi] in the bitmap block that starts with [b]'s. *)
Definition bit_mask (bi : Z) : Z := Z.shiftl 1 (bi mod 8).
Definition bit_of (d : block) (bi : Z) : bool :=
  negb (Z.land (nth (Z.to_nat (bi / 8)) d 0) (bit_mask bi) =? 0).
Definition bit_set (bi : Z) (d : block) : block :=
  alter (λ x, Z.lor x (bit_mask bi)) (Z.to_nat (bi / 8)) d.
Definition bit_clear (bi : Z) (d : block) : block :=
  alter (λ x, Z.land x (Z.lnot (bit_mask bi))) (Z.to_nat (bi / 8)) d.

(** The inner loop of [balloc]: the first clear bit, over at most [n] bits. *)
Fixpoint balloc_scan (d : block) (b size bi : Z) (n : nat) : option Z :=
  match n with
  | O => None
  | S n' => if b + bi <? size
            then if bit_of d bi then balloc_scan d b size (bi + 1) n' else Some bi
            else None
  end.

(** The outer loop, over the values [b] takes. *)
Fixpoint balloc_loop (dev : Z) (sb : superblock) (bs : list Z) : K Z :=
  match bs with
  | [] => panic "balloc: out of blocks"
  | b :: bs =>
      bp ← bread dev (u32 (BBLOCK b (sb_ninodes sb)));
      bf ← getbuf bp;
      match balloc_scan (b_data bf) b (sb_size sb) 0 (Z.to_nat BPB) with
      | Some bi =>
          upddata bp (bit_set bi);;
          log_write bp;;
          brelse bp;;
          bzero dev (b + bi);;
          mret (b + bi)
      | None => brelse bp;; balloc_loop dev sb bs
      end
  end.

Definition balloc (dev : Z) : K Z :=
  sb ← readsb dev;
  balloc_loop dev sb ((λ i, i * BPB) <$> seqZ 0 ((sb_size sb + BPB - 1) / BPB)).

Definition bfree (dev b : Z) : K unit :=
  sb ← readsb dev;
  bp ← bread dev (u32 (BBLOCK b (sb_ninodes sb)));
  let bi := b mod BPB in
  bf ← getbuf bp;
  if negb (bit_of (b_data bf) bi) then panic "freeing free block" else
  upddata bp (bit_clear bi);;
  log_write bp;;
  brelse bp.

(** ** Inodes on disk *)

Definition get16 (off : nat) (b : block) : Z := le_get (bslice off 2 b).
Definition put16 (off : nat) (v : Z) (b : block) : block := bsplice off (le_put 2 v) b.

(** [(struct dinode* )bp->data + inum%IPB]. *)
Definition dip_off (inum : Z) : nat := Z.to_nat (inum mod IPB * DINODE_SIZE).

Definition get_addrs (o : nat) (d : block) : list Z :=
  (λ i, get32 (o + 20 + 4 * i) d) <$> seq 0 11.
Definition put_addrs (o : nat) (addrs : list Z) (d : block) : block :=
  bsplice (o + 20) (concat (le_put 4 <$> addrs)) d.

(** The stores of [iupdate], in the order of the source. *)
Definition dinode_store (ip : inode) (d : block) : block :=
  let o := dip_off (i_inum ip) in
  let d := put16 o (i_type ip) d in
  let d := put16 (o + 2) (i_major ip) d in
  let d := put16 (o + 4) (i_minor ip) d in
  let d := put16 (o + 6) (i_nlink ip) d in
  let d := put32 (o + 16) (i_size ip) d in
  let d := put32 (o + 12) (i_mode ip) d in
  put_addrs o (i_addrs ip) d.

(** The loads of [ilock]. *)
Definition dinode_load (d : block) (ip : inode) : inode :=
  let o := dip_off (i_inum ip) in
  mkInode (i_dev ip) (i_inum ip) (i_ref ip) (i_flags ip)
    (i16 (get16 o d)) (i16 (get16 (o + 2) d)) (i16 (get16 (o + 4) d)) (i16 (get16 (o + 6) d))
    (i16 (get16 (o + 8) d)) (i16 (get16 (o + 10) d))
    (get32 (o + 12) d) (get32 (o + 16) d) (get_addrs o d).

(** ** The inode cache *)

Definition getinode (i : nat) : K inode := k ← get; need (k_ic k !! i).
Definition updinode (i : nat) (f : inode → inode) : K unit :=
  getinode i;; modify (λ k, set_ic (alter f i (k_ic k)) k).

Definition iinit : K unit := on_mach (initlock L_icache).

Definition set_i_key (dev inum : Z) (i : inode) : inode :=
  mkInode dev inum (i_ref i) (i_flags i) (i_type i) (i_major i) (i_minor i) (i_nlink i)
    (i_ownerid i) (i_groupid i) (i_mode i) (i_size i) (i_addrs i).

(** The search of [iget]: the entry of the inode if it is cached, and
    otherwise the first entry without references ([inr]). *)
Fixpoint iget_scan (dev inum : Z) (ics : list inode) (i : nat) (empty : option nat)
    : nat + option nat :=
  match ics with
  | [] => inr empty
  | ip :: ics =>
      if (0 <? i_ref ip) && (i_dev ip =? dev) && (i_inum ip =? inum) then inl i
      else iget_scan dev inum ics (S i)
             (match empty with
              | None => if i_ref ip =? 0 then Some i else None
              | Some e => Some e
              end)
  end.

Definition iget (dev inum : Z) : K nat :=
  acquire L_icache;;
  k ← get;
  match iget_scan dev inum (k_ic k) 0 None with
  | inl ip =>
      updinode ip (λ x, set_i_ref (i32 (i_ref x + 1)) x);;
      release L_icache;;
      mret ip
  | inr None => panic "iget: no inodes"
  | inr (Some ip) =>
      updinode ip (set_i_key dev inum);;
      updinode ip (set_i_ref 1);;
      updinode ip (set_i_flags 0);;
      release L_icache;;
      mret ip
  end.

Fixpoint ialloc_loop (dev type : Z) (inums : list Z) : K nat :=
  match inums with
  | [] => panic "ialloc: no inodes"
  | inum :: inums =>
      bp ← bread dev (u32 (IBLOCK inum));
      bf ← getbuf bp;
      if i16 (get16 (dip_off inum) (b_data bf)) =? 0 then
        upddata bp (bsplice (dip_off inum) (replicate (Z.to_nat DINODE_SIZE) 0));;
        upddata bp (put16 (dip_off inum) type);;
        log_write bp;;
        brelse bp;;
        iget dev inum
      else
        brelse bp;;
        ialloc_loop dev type inums
  end.

Definition ialloc (dev type : Z) : K nat :=
  sb ← readsb dev;
  ialloc_loop dev type (seqZ 1 (sb_ninodes sb - 1)).

Definition iupdate (i : nat) : K unit :=
  ip ← getinode i;
  bp ← bread (i_dev ip) (u32 (IBLOCK (i_inum ip)));
  upddata bp (dinode_store ip);;
  log_write bp;;
  brelse bp.

Definition idup (i : nat) : K nat :=
  acquire L_icache;;
  updinode i (λ x, set_i_ref (i32 (i_ref x + 1)) x);;
  release L_icache;;
  mret i.

(** The wait of [ilock]; a process that finds the inode busy gives up the
    CPU in [sleep]. *)
Fixpoint ilock_wait (i : nat) (rounds : nat) : K unit :=
  ip ← getinode i;
  when (hasf (i_flags ip) I_BUSY)
    (sleep (ChInode i) (Some L_icache);;
     sleep_return L_icache;;
     match rounds with O => spin | S rounds => ilock_wait i rounds end).

Definition ilock (i : option nat) : K unit :=
  match i with
  | None => panic "ilock"
  | Some i =>
      ip ← getinode i;
      if i_ref ip <? 1 then panic "ilock" else
      acquire L_icache;;
      ilock_wait i 0;;
      updinode i (λ x, set_i_flags (Z.lor (i_flags x) I_BUSY) x);;
      release L_icache;;
      ip ← getinode i;
      when (negb (hasf (i_flags ip) I_VALID))
        (bp ← bread (i_dev ip) (u32 (IBLOCK (i_inum ip)));
         bf ← getbuf bp;
         updinode i (dinode_load (b_data bf));;
         brelse bp;;
         updinode i (λ x, set_i_flags (Z.lor (i_flags x) I_VALID) x);;
         ip ← getinode i;
         if i_type ip =? 0 then panic "ilock: no type" else mret tt)
  end.

Definition iunlock (i : option nat) : K unit :=
  match i with
  | None => panic "iunlock"
  | Some i =>
      ip ← getinode i;
      if negb (hasf (i_flags ip) I_BUSY) || (i_ref ip <? 1) then panic "iunlock" else
      acquire L_icache;;
      updinode i (λ x, set_i_flags (Z.land (i_flags x) (Z.lnot I_BUSY)) x);;
      wakeup (ChInode i);;
      release L_icache
  end.

(** ** Inode contents *)

(** [ip->addrs[n]], and the store to it. *)
Definition getaddr (i : nat) (n : Z) : K Z :=
  ip ← getinode i; need (i_addrs ip !! Z.to_nat n).
Definition setaddr (i : nat) (n v : Z) : K unit :=
  updinode i (λ x, set_i_addrs (<[Z.to_nat n := v]> (i_addrs x)) x).

Definition bmap (i : nat) (bn : Z) : K Z :=
  ip ← getinode i;
  if bn <? NDIRECT then
    addr ← getaddr i bn;
    if addr =? 0 then
      addr ← balloc (i_dev ip);
      setaddr i bn addr;;
      mret addr
    else mret addr
  else
  let bn := bn - NDIRECT in
  if bn <? NINDIRECT then
    addr ← getaddr i NDIRECT;
    addr ← (if addr =? 0 then
              addr ← balloc (i_dev ip);
              setaddr i NDIRECT addr;;
              mret addr
            else mret addr);
    bp ← bread (i_dev ip) addr;
    bf ← getbuf bp;
    let addr := get32 (Z.to_nat (4 * bn)) (b_data bf) in
    addr ← (if addr =? 0 then
              addr ← balloc (i_dev ip);
              upddata bp (put32 (Z.to_nat (4 * bn)) addr);;
              log_write bp;;
              mret addr
            else mret addr);
    brelse bp;;
    mret addr
  else panic "bmap: out of range".

Definition itrunc_direct (i : nat) (n : Z) : K unit :=
  ip ← getinode i;
  addr ← getaddr i n;
  when (negb (addr =? 0)) (bfree (i_dev ip) addr;; setaddr i n 0).

Definition itrunc_indirect (i bp : nat) (j : Z) : K unit :=
  ip ← getinode i;
  bf ← getbuf bp;
  let a := get32 (Z.to_nat (4 * j)) (b_data bf) in
  when (negb (a =? 0)) (bfree (i_dev ip) a).

Definition itrunc (i : nat) : K unit :=
  for_each (seqZ 0 NDIRECT) (itrunc_direct i);;
  ip ← getinode i;
  addr ← getaddr i NDIRECT;
  when (negb (addr =? 0))
    (bp ← bread (i_dev ip) addr;
     for_each (seqZ 0 NINDIRECT) (itrunc_indirect i bp);;
     brelse bp;;
     addr ← getaddr i NDIRECT;
     bfree (i_dev ip) addr;;
     setaddr i NDIRECT 0);;
  updinode i (set_i_size 0);;
  iupdate i.

Definition iput (i : nat) : K unit :=
  acquire L_icache;;
  ip ← getinode i;
  when ((i_ref ip =? 1) && hasf (i_flags ip) I_VALID && (i_nlink ip =? 0))
    (if hasf (i_flags ip) I_BUSY then panic "iput busy" else
     updinode i (λ x, set_i_flags (Z.lor (i_flags x) I_BUSY) x);;
     release L_icache;;
     itrunc i;;
     updinode i (set_i_type 0);;
     iupdate i;;
     acquire L_icache;;
     updinode i (set_i_flags 0);;
     wakeup (ChInode i));;
  updinode i (λ x, set_i_ref (i32 (i_ref x - 1)) x);;
  release L_icache.

Definition iunlockput (i : nat) : K unit :=
  iunlock (Some i);; iput i.

Definition stati (i : nat) : K stat :=
  ip ← getinode i;
  mret (mkStat (i_type ip) (i32 (i_dev ip)) (i_inum ip) (i_nlink ip)
    (i_ownerid ip) (i_groupid ip) (i_mode ip) (i_size ip)).

(** The device switch: what the drivers promise the file system is a function
    for reading and one for writing, or none. *)
Class Devsw := {
  dev_read : Z → option (nat → Z → K (Z * list Z));
  dev_write : Z → option (nat → list Z → Z → K Z)
}.

Section with_devsw.
Context `{Devsw}.

(** [ip->major < 0 || ip->major >= NDEV || !devsw[ip->major].read]. *)
Definition dev_lookup {A} (sw : Z → option A) (major : Z) : option A :=
  if (major <? 0) || (NDEV <=? major) then None else sw major.

(** The loop of [readi]: [tot] bytes, [acc], are at [dst] already. *)
Fixpoint readi_loop (i : nat) (off n tot : Z) (acc : list Z) (fuel : nat) : K (list Z) :=
  if tot <? n then
    match fuel with
    | O => spin
    | S fuel =>
        addr ← bmap i (off / BSIZE);
        ip ← getinode i;
        bp ← bread (i_dev ip) addr;
        let m := Z.min (n - tot) (BSIZE - off mod BSIZE) in
        bf ← getbuf bp;
        let piece := bslice (Z.to_nat (off mod BSIZE)) (Z.to_nat m) (b_data bf) in
        brelse bp;;
        readi_loop i (off + m) n (tot + m) (acc ++ piece) fuel
    end
  else mret acc.

Definition readi (i : nat) (off n : Z) : K (Z * list Z) :=
  ip ← getinode i;
  if i_type ip =? T_DEV then
    match dev_lookup dev_read (i_major ip) with
    | None => mret (-1, [])
    | Some f => f i (i32 n)
    end
  else
  if (i_size ip <? off) || (u32 (off + n) <? off) then mret (-1, []) else
  let n := if i_size ip <? u32 (off + n) then i_size ip - off else n in
  data ← readi_loop i off n 0 [] (Z.to_nat (n / BSIZE + 2));
  mret (i32 n, data).

(** The loop of [writei] and the final [off]. *)
Fixpoint writei_loop (i : nat) (src : list Z) (off n tot : Z) (fuel : nat) : K Z :=
  if tot <? n then
    match fuel with
    | O => spin
    | S fuel =>
        addr ← bmap i (off / BSIZE);
        ip ← getinode i;
        bp ← bread (i_dev ip) addr;
        let m := Z.min (n - tot) (BSIZE - off mod BSIZE) in
        upddata bp (bsplice (Z.to_nat (off mod BSIZE)) (bslice (Z.to_nat tot) (Z.to_nat m) src));;
        log_write bp;;
        brelse bp;;
        writei_loop i src (off + m) n (tot + m) fuel
    end
  else mret off.

Definition writei (i : nat) (src : list Z) (off n : Z) : K Z :=
  ip ← getinode i;
  if i_type ip =? T_DEV then
    match dev_lookup dev_write (i_major ip) with
    | None => mret (-1)
    | Some f => f i src (i32 n)
    end
  else
  if (i_size ip <? off) || (u32 (off + n) <? off) then mret (-1) else
  if MAXFILE * BSIZE <? u32 (off + n) then mret (-1) else
  off ← writei_loop i src off n 0 (Z.to_nat (n / BSIZE + 2));
  ip ← getinode i;
  when ((0 <? n) && (i_size ip <? off))
    (updinode i (set_i_size off);; iupdate i);;
  mret (i32 n).

(** ** Directories *)

Definition namecmp (s t : Z → Z) : Z := strncmp s t DIRSIZ.

Definition de_of_bytes (l : list Z) : dirent := mkDirent (get16 0 l) (bslice 2 (Z.to_nat DIRSIZ) l).
Definition de_bytes (d : dirent) : list Z := le_put 2 (de_inum d) ++ de_name d.

(** The result is the inode and the offset that goes to [*poff]. *)
Fixpoint dirlookup_loop (dp : nat) (name : list Z) (off : Z) (fuel : nat) : K (option (nat * Z)) :=
  ip ← getinode dp;
  if off <? i_size ip then
    match fuel with
    | O => spin
    | S fuel =>
        r ← readi dp off DIRENT_SIZE;
        if negb (r.1 =? DIRENT_SIZE) then panic "dirlink read" else
        let de := de_of_bytes r.2 in
        if de_inum de =? 0 then dirlookup_loop dp name (off + DIRENT_SIZE) fuel else
        if namecmp (cells name) (cells (de_name de)) =? 0 then
          next ← iget (i_dev ip) (de_inum de);
          mret (Some (next, off))
        else dirlookup_loop dp name (off + DIRENT_SIZE) fuel
    end
  else mret None.

Definition dir_fuel (size : Z) : nat := Z.to_nat (size / DIRENT_SIZE + 1).

Definition dirlookup (dp : nat) (name : list Z) : K (option (nat * Z)) :=
  ip ← getinode dp;
  if negb (i_type ip =? T_DIR) then panic "dirlookup not DIR" else
  dirlookup_loop dp name 0 (dir_fuel (i_size ip)).

(** Look for an empty dirent: the offset the loop stops at. *)
Fixpoint dirlink_loop (dp : nat) (off : Z) (fuel : nat) : K Z :=
  ip ← getinode dp;
  if off <? i_size ip then
    match fuel with
    | O => spin
    | S fuel =>
        r ← readi dp off DIRENT_SIZE;
        if negb (r.1 =? DIRENT_SIZE) then panic "dirlink read" else
        if de_inum (de_of_bytes r.2) =? 0 then mret off
        else dirlink_loop dp (off + DIRENT_SIZE) fuel
    end
  else mret off.

Definition dirlink (dp : nat) (name : list Z) (inum : Z) : K Z :=
  r ← dirlookup dp name;
  match r with
  | Some (ip, _) => iput ip;; mret (-1)
  | None =>
      ip ← getinode dp;
      off ← dirlink_loop dp 0 (dir_fuel (i_size ip));
      let de := mkDirent (u16 inum) (bytes_of (strncpy (λ _, 0) 0 (cells name) DIRSIZ) DIRSIZ) in
      n ← writei dp (de_bytes de) off DIRENT_SIZE;
      if negb (n =? DIRENT_SIZE) then panic "dirlink" else mret 0
  end.

(** ** Paths

    A path is the list of its bytes up to the NUL. *)

Definition slash : Z := 47.

(** Skip the slashes. *)
Fixpoint skip_slashes (path : list Z) : list Z :=
  match path with
  | c :: rest => if c =? slash then skip_slashes rest else path
  | [] => []
  end.

(** Skip to a slash or the end: the bytes passed over and the path after
    them. *)
Fixpoint skip_name (path : list Z) : list Z * list Z :=
  match path with
  | c :: rest => if c =? slash then ([], path)
                 else let '(e, r) := skip_name rest in (c :: e, r)
  | [] => ([], [])
  end.

(** [name] is the caller's array of [DIRSIZ] bytes; the result is NULL or the
    path that follows, with the array after the call. *)
Definition skipelem (path name : list Z) : option (list Z * list Z) :=
  let path := skip_slashes path in
  match path with
  | [] => None
  | _ =>
      let '(s, path) := skip_name path in
      let len := Z.of_nat (length s) in
      let name := if DIRSIZ <=? len then bsplice 0 (take (Z.to_nat DIRSIZ) s) name
                  else <[length s := 0]> (bsplice 0 s name) in
      Some (skip_slashes path, name)
  end.

Fixpoint namex_loop (ip : nat) (path : list Z) (nameiparent : bool) (name : list Z) (fuel : nat)
    : K (option nat * list Z) :=
  match skipelem path name with
  | None =>
      if nameiparent then iput ip;; mret (None, name) else mret (Some ip, name)
  | Some (path, name) =>
      match fuel with
      | O => spin
      | S fuel =>
          ilock (Some ip);;
          x ← getinode ip;
          if negb (i_type x =? T_DIR) then iunlockput ip;; mret (None, name) else
          if nameiparent && (match path with [] => true | _ => false end) then
            iunlock (Some ip);;
            mret (Some ip, name)
          else
          next ← dirlookup ip name;
          match next with
          | None => iunlockput ip;; mret (None, name)
          | Some (next, _) =>
              iunlockput ip;;
              namex_loop next path nameiparent name fuel
          end
      end
  end.

Definition namex (path : list Z) (nameiparent : bool) (name : list Z) : K (option nat * list Z) :=
  ip ← (match path with
        | c :: _ => if c =? slash then iget ROOTDEV ROOTINO
                    else p ← myproc; pr ← getproc p; cwd ← need (p_cwd pr); idup cwd
        | [] => p ← myproc; pr ← getproc p; cwd ← need (p_cwd pr); idup cwd
        end);
  namex_loop ip path nameiparent name (length path).

(** The array [name] of [namei] has no initial value in the source; nothing
    is read from it before [skipelem] has written it. *)
Definition namei (path : list Z) : K (option nat) :=
  r ← namex path false (replicate (Z.to_nat DIRSIZ) 0); mret r.1.

Definition nameiparent (path name : list Z) : K (option nat * list Z) :=
  namex path true name.

End with_devsw.
