(* ===== verification/Tx.v ===== *)
(** * Tx: the block layer as seen by a file system call

    Between [begin_op] and [end_op] a file system call sees an array of
    blocks, reads and writes them through buffers it holds, and has a budget
    of log slots.  The rules below are what [bread], [log_write] and [brelse]
    promise to fs.c under that invariant. *)

From stdpp Require Import prelude functions gmap strings.
From S2P Require Import Prelude Types Spinlock Sched Ide Bio Block Log Fs.
Open Scope Z_scope.

(** [n] more log slots are there, and then enough free buffers; or the two
    panics are allowed.  The 25 leaves [NBUF] buffers room for those that a
    file system call holds at once. *)
Definition space (E : string → Prop) (n : Z) (k : kernel) : Prop :=
  0 ≤ n ∧
  (lh_n (log_lh (k_log k)) + n ≤ 25 ∧ lh_n (log_lh (k_log k)) + n < log_size (k_log k) ∨
   E "too big a transaction" ∧ E "bget: no buffers").

(** Process [p] is in a transaction, holds the buffers [H] and sees the blocks
    [v]. *)
Definition tinv (E : string → Prop) (p : nat) (n : Z) (H : list (nat * Z)) (v : Z → block)
    (k : kernel) : Prop :=
  ∃ a, binv p H a k ∧ (∀ x, a_view a x = v x) ∧
    (∀ x, x ∈ a_dirty a ∨ a_view a x = a_disk a x) ∧
    log_ok (k_log k) ∧ pinned k a ∧ 1 ≤ log_outstanding (k_log k) ∧ space E n k.

(** What such a call leaves alone: all but the log header's contents and what
    the block layer changes. *)
Definition tframe (k k' : kernel) : Prop :=
  lframe k k' ∧ log_start (k_log k') = log_start (k_log k).

#[global] Instance tframe_preorder : PreOrder tframe.
Proof.
  split; [by intros k|]. intros k1 k2 k3 [H1 H2] [H3 H4].
  split; [by transitivity k2|congruence].
Qed.

Lemma bframe_tframe k k' : bframe k k' → tframe k k'.
Proof. intros Hf. split; [by apply bframe_lframe|]. by rewrite (bframe_log _ _ Hf). Qed.

Lemma tframe_ic k k' : tframe k k' → k_ic k' = k_ic k.
Proof. by intros [(?&?&?&?&?&?&?&?) _]. Qed.

Lemma tframe_start k k' : tframe k k' → log_start (k_log k') = log_start (k_log k).
Proof. by intros []. Qed.

Section rules.
Context (E : string → Prop) (p : nat).
Implicit Types (v : Z → block) (H : list (nat * Z)).

(** What is seen can be replaced by what is equal to it. *)
Lemma tinv_ext n H v v' k : (∀ x, v x = v' x) → tinv E p n H v k → tinv E p n H v' k.
Proof. intros Hv (a & Hb & Ha & Hr). exists a. split; [done|]. split; [|done]. intros x. by rewrite Ha. Qed.

Lemma tinv_len n H v k x : tinv E p n H v k → length (v x) = Z.to_nat BSIZE.
Proof. intros (a & [_ Hb] & Ha & _). rewrite <-Ha. by eapply bdat_len. Qed.

Lemma tinv_weaken n n' H v k : tinv E p n H v k → 0 ≤ n' ≤ n → tinv E p n' H v k.
Proof.
  intros (a & Hb & Ha & Hs & Hl & Hp & Ho & Hsp) Hn. exists a. do 6 (split; [done|]). split; [lia|].
  destruct Hsp as [? [[]|]]; [left; lia|by right].
Qed.

Lemma tinv_frame n H v k k' : bframe k k' →
  (∃ a, binv p H a k' ∧ (∀ x, a_view a x = v x) ∧ (∀ x, x ∈ a_dirty a ∨ a_view a x = a_disk a x) ∧
     pinned k a) →
  log_ok (k_log k) → 1 ≤ log_outstanding (k_log k) → space E n k → tinv E p n H v k'.
Proof.
  intros Hf (a & Hb & Ha & Hs & Hp) Hl Ho Hsp. pose proof (bframe_log _ _ Hf) as Hlog.
  exists a. unfold pinned, space in *. rewrite Hlog, (logged_frame _ _ Hf). done.
Qed.

Lemma t_bread n H v k bn (Q : nat → kernel → Prop) :
  tinv E p n H v k → 0 ≤ bn < FSSIZE → bn ∉ H.*2 → (length H ≤ 3)%nat →
  (∀ b k', tinv E p n ((b, bn) :: H) v k' → tframe k k' → Q b k') →
  wp (bread ROOTDEV bn) E Q k.
Proof.
  intros (a & Hb & Ha & Hs & Hl & Hp & Ho & Hsp) Hbn Hh Hlen HQ.
  eapply wpa_bread; [exact Hb|done|done| |].
  - destruct Hsp as [? [[Hn _]|[_ HE]]]; [left|by right; right].
    unfold pinned in Hp. rewrite Hp, size_list_to_set by apply (lo_nodup _ Hl).
    pose proof (logged_length k Hl). unfold HEAD, NBUF, MAXOPBLOCKS. lia.
  - intros b k' Hb' Hf. apply HQ; [|by apply bframe_tframe].
    eapply tinv_frame; try done. by exists a.
Qed.

Lemma t_getbuf n H v k b bn (Q : buf → kernel → Prop) :
  tinv E p n H v k → (b, bn) ∈ H →
  (∀ bf, b_data bf = v bn → Q bf k) →
  wp (getbuf b) E Q k.
Proof.
  intros (a & Hb & Ha & _) Hin HQ. eapply wpa_getbuf; [done|done|].
  intros bf Hd _ _ _. apply HQ. by rewrite <-Ha.
Qed.

Lemma t_brelse1 n H v k b bn (Q : unit → kernel → Prop) :
  tinv E p n ((b, bn) :: H) v k →
  (∀ k', tinv E p n H v k' → tframe k k' → Q tt k') →
  wp (brelse b) E Q k.
Proof.
  intros (a & Hb & Ha & Hs & Hl & Hp & Ho & Hsp) HQ.
  eapply wpa_brelse1; [exact Hb|apply Hs|]. intros k' Hb' Hf.
  apply HQ; [|by apply bframe_tframe]. eapply tinv_frame; try done. by exists a.
Qed.

(** The store to a held buffer and its [log_write]. *)
Lemma t_update {A} n H v k b bn (f : block → block) (m : unit → K A) (Q : A → kernel → Prop) :
  tinv E p n H v k → 1 ≤ n → (b, bn) ∈ H → bn < log_start (k_log k) →
  length (f (v bn)) = Z.to_nat BSIZE →
  (∀ k', tinv E p (n - 1) H (vupd v bn (f (v bn))) k' → tframe k k' → wp (m tt) E Q k') →
  wp (upddata b f) E (λ _, wp (log_write b ≫= m) E Q) k.
Proof.
  intros (a & Hb & Ha & Hs & Hl & Hp & Ho & Hsp) Hn Hin Hst Hlen HQ. unfold upddata. wp_steps.
  eapply wpa_setdata; [exact Hb|done|done| |].
  { intros x Hx _. cbn. by rewrite Hx, Ha. }
  intros x k1 Hx _ Hb1 Hf1 _. cbn [b_data set_b_data] in Hb1. rewrite Hx, Ha in Hb1. wp_steps.
  pose proof (bframe_log _ _ Hf1) as Hl1.
  eapply wpa_log_write; [exact Hb1|done|by rewrite Hl1| |by rewrite Hl1| |].
  { rewrite Hl1. unfold in_log. lia. }
  { rewrite Hl1. destruct Hsp as [_ [[]|[]]]; [left|by right]. unfold LOGSIZE, MAXOPBLOCKS. lia. }
  intros k2 Hb2 Hf2 Hl2 Hlg2 Hlog2.
  apply HQ.
  2:{ split; [transitivity k1; [by apply bframe_lframe|done]|]. by rewrite Hlog2, Hl1. }
  exists (a_mark bn (a_set bn (f (v bn)) a)). split; [done|].
  assert (Hlen2 : lh_n (log_lh (k_log k2)) ≤ lh_n (log_lh (k_log k)) + 1).
  { rewrite <-(logged_length k2), <-(logged_length k), Hlg2 by done.
    rewrite (logged_frame _ _ Hf1). unfold log_add. case_decide; [lia|]. rewrite length_app. cbn. lia. }
  split_and!; try done.
  - intros y. cbn. unfold vupd. case_decide; [done|apply Ha].
  - intros y. cbn. destruct (decide (y = bn)) as [->|]; [left; set_solver|].
    rewrite vupd_ne by done. destruct (Hs y); [left; set_solver|by right].
  - unfold pinned in *. cbn. rewrite Hp, Hlg2, (logged_frame _ _ Hf1). unfold log_add.
    case_decide; [set_solver|]. rewrite list_to_set_app_L. set_solver.
  - by rewrite Hlog2, Hl1.
  - split; [lia|]. rewrite Hlog2. cbn. rewrite Hlog2 in Hlen2. cbn in Hlen2. rewrite Hl1.
    destruct Hsp as [_ [[]|]]; [left; lia|by right].
Qed.
End rules.
