(* ===== verification/FsBlock.v ===== *)
(** * FsBlock: the block allocator of kernel/fs.c

    The free bitmap as a set of block numbers, and [balloc], [bfree] and
    [bzero] against it. *)

From stdpp Require Import prelude functions gmap strings.
From S2P Require Import Prelude Types Spinlock Sched Ide Bio Block Log Fs Tx.
Open Scope Z_scope.

(** ** Bits *)

Lemma bit_mask_testbit bi i : 0 ≤ bi → 0 ≤ i → Z.testbit (bit_mask bi) i = (i =? bi mod 8).
Proof.
  intros Hb Hi. unfold bit_mask. rewrite Z.shiftl_1_l.
  pose proof (Z.mod_pos_bound bi 8). rewrite Z.pow2_bits_eqb by lia. lia.
Qed.

(** A bit of the map is a bit of a byte. *)
Lemma bit_of_testbit d bi : 0 ≤ bi →
  bit_of d bi = Z.testbit (nth (Z.to_nat (bi / 8)) d 0) (bi mod 8).
Proof.
  intros Hb. unfold bit_of. set (x := nth _ _ _). pose proof (Z.mod_pos_bound bi 8 eq_refl) as Hm.
  assert (Hl : Z.land x (bit_mask bi) = if Z.testbit x (bi mod 8) then bit_mask bi else 0).
  { apply Z.bits_inj'. intros i Hi. rewrite Z.land_spec, bit_mask_testbit by lia.
    destruct (Z.eqb_spec i (bi mod 8)) as [->|].
    - destruct (Z.testbit x (bi mod 8)); [|by rewrite Z.testbit_0_l].
      rewrite bit_mask_testbit by lia. by rewrite Z.eqb_refl.
    - rewrite andb_false_r. destruct (Z.testbit x (bi mod 8)); [|by rewrite Z.testbit_0_l].
      rewrite bit_mask_testbit by lia. lia. }
  rewrite Hl. destruct (Z.testbit x (bi mod 8)); [|done].
  assert (bit_mask bi ≠ 0); [|by rewrite (proj2 (Z.eqb_neq _ _))].
  intros H0. pose proof (bit_mask_testbit bi (bi mod 8) Hb ltac:(lia)) as H1.
  rewrite H0, Z.testbit_0_l, Z.eqb_refl in H1. done.
Qed.

Lemma nth_alter {A} (f : A → A) i (l : list A) j x0 :
  (i < length l)%nat → nth j (alter f i l) x0 = if decide (j = i) then f (nth i l x0) else nth j l x0.
Proof.
  intros Hi. destruct (lookup_lt_is_Some_2 l i Hi) as [y Hy].
  rewrite !nth_lookup. destruct (decide (j = i)) as [->|Hne].
  - rewrite list_lookup_alter_eq, Hy. done.
  - by rewrite list_lookup_alter_ne.
Qed.

Lemma bit_index_ne bi bj : 0 ≤ bi → 0 ≤ bj → bi ≠ bj →
  Z.to_nat (bj / 8) = Z.to_nat (bi / 8) → bj mod 8 ≠ bi mod 8.
Proof.
  intros Hi Hj Hne Heq Hm. apply Z2Nat.inj in Heq; [|by apply Z.div_pos..].
  pose proof (Z.div_mod bi 8). pose proof (Z.div_mod bj 8). lia.
Qed.

Section bits.
Context (d : block) (bi bj : Z).
Hypothesis (Hlen : length d = Z.to_nat BSIZE) (Hbi : 0 ≤ bi < BPB) (Hbj : 0 ≤ bj < BPB).

Lemma bit_byte_lt : (Z.to_nat (bi / 8) < length d)%nat.
Proof.
  rewrite Hlen. unfold BPB, BSIZE in *.
  assert (bi / 8 < 512) by (apply Z.div_lt_upper_bound; lia). pose proof (Z.div_pos bi 8). lia.
Qed.

Lemma bit_of_set : bit_of (bit_set bi d) bj = (bj =? bi) || bit_of d bj.
Proof.
  rewrite !bit_of_testbit by lia. unfold bit_set. rewrite nth_alter by apply bit_byte_lt.
  pose proof (Z.mod_pos_bound bj 8 eq_refl). case_decide as Hd.
  - rewrite Z.lor_spec, bit_mask_testbit, <-Hd, orb_comm by lia. f_equal.
    destruct (Z.eqb_spec bj bi) as [->|Hne]; [by rewrite Z.eqb_refl|].
    apply Z.eqb_neq. apply bit_index_ne; lia.
  - destruct (Z.eqb_spec bj bi) as [->|]; [done|]. done.
Qed.

Lemma bit_of_clear : bit_of (bit_clear bi d) bj = negb (bj =? bi) && bit_of d bj.
Proof.
  rewrite !bit_of_testbit by lia. unfold bit_clear. rewrite nth_alter by apply bit_byte_lt.
  pose proof (Z.mod_pos_bound bj 8 eq_refl). case_decide as Hd.
  - rewrite Z.land_spec, Z.lnot_spec, bit_mask_testbit, <-Hd, andb_comm by lia. f_equal. f_equal.
    destruct (Z.eqb_spec bj bi) as [->|Hne]; [by rewrite Z.eqb_refl|].
    apply Z.eqb_neq. apply bit_index_ne; lia.
  - destruct (Z.eqb_spec bj bi) as [->|]; [done|]. done.
Qed.
End bits.

Lemma length_bit_set bi d : length (bit_set bi d) = length d.
Proof. apply length_alter. Qed.
Lemma length_bit_clear bi d : length (bit_clear bi d) = length d.
Proof. apply length_alter. Qed.

(** ** The scan *)

Lemma balloc_scan_first d size : ∀ n bi r,
  (bi ≤ r < bi + Z.of_nat n) → r < size →
  (∀ j, bi ≤ j < r → bit_of d j = true) → bit_of d r = false →
  balloc_scan d 0 size bi n = Some r.
Proof.
  induction n as [|n IH]; intros bi r Hr Hs Hall Hfree; [lia|]. cbn [balloc_scan].
  replace (0 + bi <? size) with true by lia.
  destruct (decide (r = bi)) as [->|]; [by rewrite Hfree|].
  rewrite Hall by lia. apply IH; try done; [lia|]. intros j Hj. apply Hall. lia.
Qed.

Lemma balloc_scan_none d size : ∀ n bi,
  (∀ j, bi ≤ j < size → bit_of d j = true) → balloc_scan d 0 size bi n = None.
Proof.
  induction n as [|n IH]; intros bi Hall; [done|]. cbn [balloc_scan].
  destruct (Z.ltb_spec (0 + bi) size); [|done]. rewrite Hall by lia.
  apply IH. intros j Hj. apply Hall. lia.
Qed.

(** ** The bitmap of a file system *)

Definition sbv (v : Z → block) : superblock := sb_of_block (v 1).
Definition bitmap_block (v : Z → block) : Z := BBLOCK 0 (sb_ninodes (sbv v)).
Definition used (v : Z → block) (b : Z) : bool := bit_of (v (bitmap_block v)) b.

(** A file system whose log starts at [start]: it is as large as the disk at
    most, so that it has one bitmap block, and that block and the ones before
    it are in use. *)
Record fs_geo (start : Z) (v : Z → block) : Prop := {
  g_start : start ≤ sb_size (sbv v);
  g_size : sb_size (sbv v) ≤ FSSIZE;
  g_inodes : 0 ≤ sb_ninodes (sbv v);
  g_bm : bitmap_block v < start;
  g_meta : ∀ b, 0 ≤ b ≤ bitmap_block v → used v b = true
}.

(** The lowest free block. *)
Definition first_free (v : Z → block) (b : Z) : Prop :=
  0 ≤ b ∧ used v b = false ∧ ∀ x, 0 ≤ x < b → used v x = true.

Lemma fs_geo_bm start v : fs_geo start v → 3 ≤ bitmap_block v.
Proof.
  intros Hg. pose proof (g_inodes _ _ Hg). unfold bitmap_block, BBLOCK.
  pose proof (Z.div_pos (sb_ninodes (sbv v)) IPB ltac:(done) eq_refl). rewrite Z.div_0_l by done. lia.
Qed.

Lemma first_free_data start v b : fs_geo start v → first_free v b → bitmap_block v < b.
Proof.
  intros Hg (Hb & Hf & _). destruct (decide (b ≤ bitmap_block v)); [|lia].
  rewrite (g_meta _ _ Hg) in Hf by lia. done.
Qed.

(** The blocks after an allocation, and after a release. *)
Definition view_alloc (v : Z → block) (b : Z) : Z → block :=
  vupd (vupd v (bitmap_block v) (bit_set b (v (bitmap_block v)))) b zero_block.
Definition view_free (v : Z → block) (b : Z) : Z → block :=
  vupd v (bitmap_block v) (bit_clear b (v (bitmap_block v))).

(** A change of other blocks keeps the superblock and the bitmap. *)
Lemma sbv_ne v x d : x ≠ 1 → sbv (vupd v x d) = sbv v.
Proof. intros. unfold sbv. by rewrite vupd_ne. Qed.
Lemma bitmap_block_ne v x d : x ≠ 1 → bitmap_block (vupd v x d) = bitmap_block v.
Proof. intros. unfold bitmap_block. by rewrite sbv_ne. Qed.
Lemma used_ne v x d b : x ≠ 1 → x ≠ bitmap_block v → used (vupd v x d) b = used v b.
Proof. intros. unfold used. by rewrite bitmap_block_ne, vupd_ne. Qed.

Lemma bitmap_block_alloc start v b : fs_geo start v → bitmap_block v < b →
  bitmap_block (view_alloc v b) = bitmap_block v.
Proof.
  intros Hg Hb. pose proof (fs_geo_bm _ _ Hg). unfold view_alloc.
  by rewrite !bitmap_block_ne by lia.
Qed.

Lemma used_alloc start v b x : fs_geo start v → bitmap_block v < b < BPB → 0 ≤ x < BPB →
  length (v (bitmap_block v)) = Z.to_nat BSIZE →
  used (view_alloc v b) x = (x =? b) || used v x.
Proof.
  intros Hg Hb Hx Hlen. pose proof (fs_geo_bm _ _ Hg). unfold used.
  rewrite (bitmap_block_alloc start) by (done || lia). unfold view_alloc.
  rewrite vupd_ne by lia. rewrite vupd_eq. apply bit_of_set; [done|lia..].
Qed.

Lemma used_free start v b x : fs_geo start v → 0 ≤ b < BPB → 0 ≤ x < BPB →
  length (v (bitmap_block v)) = Z.to_nat BSIZE →
  used (view_free v b) x = negb (x =? b) && used v x.
Proof.
  intros Hg Hb Hx Hlen. pose proof (fs_geo_bm _ _ Hg). unfold used, view_free.
  rewrite bitmap_block_ne, vupd_eq by lia. apply bit_of_clear; [done|lia..].
Qed.

Lemma sb_ninodes_range v k E p n H : tinv E p n H v k → fs_geo (log_start (k_log k)) v →
  0 ≤ bitmap_block v < FSSIZE.
Proof.
  intros Ht Hg. pose proof (fs_geo_bm _ _ Hg). pose proof (g_bm _ _ Hg).
  pose proof (g_start _ _ Hg). pose proof (g_size _ _ Hg). lia.
Qed.

(** [BBLOCK] of any block of the file system is the bitmap block. *)
Lemma bblock_eq v b : 0 ≤ b < FSSIZE → BBLOCK b (sb_ninodes (sbv v)) = bitmap_block v.
Proof.
  intros Hb. unfold bitmap_block, BBLOCK. unfold FSSIZE in Hb.
  by rewrite !Z.div_small by (unfold BPB, BSIZE; lia).
Qed.

(** One iteration of the outer loop is enough. *)
Lemma one_bitmap size : 0 < size ≤ FSSIZE →
  (λ i, i * BPB) <$> seqZ 0 ((size + BPB - 1) / BPB) = [0].
Proof.
  intros Hs. replace ((size + BPB - 1) / BPB) with 1; [done|].
  unfold BPB, BSIZE, FSSIZE in *. apply Z.div_unique with (size - 1); lia.
Qed.

Section rules.
Context (E : string → Prop) (p : nat).
Implicit Types (v : Z → block) (H : list (nat * Z)).

Lemma t_readsb n H v k (Q : superblock → kernel → Prop) :
  tinv E p n H v k → 1 ∉ H.*2 → (length H ≤ 3)%nat →
  (∀ k', tinv E p n H v k' → tframe k k' → Q (sbv v) k') →
  wp (readsb ROOTDEV) E Q k.
Proof.
  intros Ht Hh Hlen HQ. unfold readsb. wp_steps.
  eapply t_bread; [exact Ht|done|done|done|]. intros b k1 Ht1 Hf1. wp_steps.
  eapply t_getbuf; [exact Ht1|left|]. intros bf Hd. cbv zeta. wp_steps.
  eapply t_brelse1; [exact Ht1|]. intros k2 Ht2 Hf2. wp_steps.
  rewrite Hd. apply HQ; [done|by rewrite Hf1].
Qed.

Lemma t_bzero n H v k b (Q : unit → kernel → Prop) :
  tinv E p n H v k → 1 ≤ n → 0 ≤ b < log_start (k_log k) → b < FSSIZE → b ∉ H.*2 → (length H ≤ 3)%nat →
  (∀ k', tinv E p (n - 1) H (vupd v b zero_block) k' → tframe k k' → Q tt k') →
  wp (bzero ROOTDEV b) E Q k.
Proof.
  intros Ht Hn Hb Hfs Hh Hlen HQ. unfold bzero. rewrite u32_small by (unfold FSSIZE in *; lia). wp_steps.
  eapply t_bread; [exact Ht|lia|done|done|]. intros bp k1 Ht1 Hf1. wp_steps.
  eapply t_update; [exact Ht1|done|left| |done|].
  { rewrite (tframe_start _ _ Hf1). lia. }
  intros k2 Ht2 Hf2. eapply t_brelse1; [exact Ht2|]. intros k3 Ht3 Hf3.
  apply HQ; [done|by rewrite Hf1, Hf2].
Qed.

(** [balloc]: the lowest free block, marked and zeroed. *)
Lemma t_balloc n H v k b (Q : Z → kernel → Prop) :
  tinv E p n H v k → 2 ≤ n → fs_geo (log_start (k_log k)) v →
  first_free v b → b < log_start (k_log k) →
  1 ∉ H.*2 → bitmap_block v ∉ H.*2 → b ∉ H.*2 → (length H ≤ 2)%nat →
  (∀ k', tinv E p (n - 2) H (view_alloc v b) k' → tframe k k' → Q b k') →
  wp (balloc ROOTDEV) E Q k.
Proof.
  intros Ht Hn Hg Hff Hst H1 Hbm Hb Hlen HQ. unfold balloc. wp_steps.
  eapply t_readsb; [exact Ht|done|lia|]. intros k1 Ht1 Hf1.
  pose proof (first_free_data _ _ _ Hg Hff) as Hdata. pose proof (fs_geo_bm _ _ Hg) as H3.
  pose proof (g_start _ _ Hg). pose proof (g_size _ _ Hg). destruct Hff as (Hb0 & Hfree & Hall).
  rewrite one_bitmap by lia. cbn [balloc_loop].
  fold (bitmap_block v). rewrite u32_small by (unfold FSSIZE in *; lia). wp_steps.
  eapply t_bread; [exact Ht1|unfold FSSIZE in *; lia|done|lia|]. intros bp k2 Ht2 Hf2. wp_steps.
  eapply t_getbuf; [exact Ht2|left|]. intros bf Hd. rewrite Hd.
  rewrite (balloc_scan_first _ _ _ 0 b); [|unfold BPB, BSIZE, FSSIZE in *; lia|lia|exact Hall|done].
  wp_steps. rewrite Z.add_0_l.
  assert (Hf12 : tframe k k2) by (by rewrite Hf1).
  eapply t_update; [exact Ht2|lia|left| | |].
  { rewrite (tframe_start _ _ Hf12). lia. }
  { rewrite length_bit_set. by eapply tinv_len. }
  intros k3 Ht3 Hf3. wp_steps.
  eapply t_brelse1; [exact Ht3|]. intros k4 Ht4 Hf4. wp_steps.
  assert (Hf34 : tframe k k4) by (by rewrite Hf12, Hf3).
  eapply t_bzero; [exact Ht4|lia|rewrite (tframe_start _ _ Hf34); lia|lia|done|lia|].
  intros k5 Ht5 Hf5. wp_steps. apply HQ; [|by rewrite Hf34].
  by replace (n - 2) with (n - 1 - 1) by lia.
Qed.

(** Out of blocks. *)
Lemma t_balloc_full n H v k (Q : Z → kernel → Prop) :
  tinv E p n H v k → fs_geo (log_start (k_log k)) v → 0 < sb_size (sbv v) →
  (∀ b, 0 ≤ b < sb_size (sbv v) → used v b = true) →
  1 ∉ H.*2 → bitmap_block v ∉ H.*2 → (length H ≤ 2)%nat →
  E "balloc: out of blocks" → wp (balloc ROOTDEV) E Q k.
Proof.
  intros Ht Hg Hpos Hall H1 Hbm Hlen HE. unfold balloc. wp_steps.
  eapply t_readsb; [exact Ht|done|lia|]. intros k1 Ht1 Hf1. pose proof (fs_geo_bm _ _ Hg).
  pose proof (g_bm _ _ Hg). pose proof (g_start _ _ Hg). pose proof (g_size _ _ Hg).
  rewrite one_bitmap by lia. cbn [balloc_loop].
  fold (bitmap_block v). rewrite u32_small by (unfold FSSIZE in *; lia). wp_steps.
  eapply t_bread; [exact Ht1|unfold FSSIZE in *; lia|done|lia|]. intros bp k2 Ht2 Hf2. wp_steps.
  eapply t_getbuf; [exact Ht2|left|]. intros bf Hd. rewrite Hd, balloc_scan_none by exact Hall. wp_steps.
  eapply t_brelse1; [exact Ht2|]. intros k3 Ht3 Hf3. by apply wp_panic.
Qed.

(** [bfree] clears the block's bit; a clear bit is a panic. *)
Lemma t_bfree n H v k b (Q : unit → kernel → Prop) :
  tinv E p n H v k → 1 ≤ n → fs_geo (log_start (k_log k)) v → 0 ≤ b < FSSIZE →
  1 ∉ H.*2 → bitmap_block v ∉ H.*2 → (length H ≤ 2)%nat →
  (used v b = false → E "freeing free block") →
  (∀ k', used v b = true → tinv E p (n - 1) H (view_free v b) k' → tframe k k' → Q tt k') →
  wp (bfree ROOTDEV b) E Q k.
Proof.
  intros Ht Hn Hg Hb H1 Hbm Hlen HE HQ. unfold bfree. wp_steps.
  eapply t_readsb; [exact Ht|done|lia|]. intros k1 Ht1 Hf1. pose proof (fs_geo_bm _ _ Hg).
  pose proof (g_bm _ _ Hg). pose proof (g_start _ _ Hg). pose proof (g_size _ _ Hg).
  rewrite bblock_eq by done. cbv zeta.
  rewrite u32_small by (unfold FSSIZE in *; lia). wp_steps.
  eapply t_bread; [exact Ht1|lia|done|lia|]. intros bp k2 Ht2 Hf2. wp_steps.
  eapply t_getbuf; [exact Ht2|left|]. intros bf Hd. rewrite Hd.
  rewrite Z.mod_small by (unfold BPB, BSIZE, FSSIZE in *; lia). fold (used v b).
  destruct (used v b) eqn:Hu; cbn [negb]; [|by apply wp_panic, HE]. wp_steps.
  assert (Hf12 : tframe k k2) by (by rewrite Hf1).
  eapply t_update; [exact Ht2|lia|left| | |].
  { rewrite (tframe_start _ _ Hf12). lia. }
  { rewrite length_bit_clear. by eapply tinv_len. }
  intros k3 Ht3 Hf3. eapply t_brelse1; [exact Ht3|]. intros k4 Ht4 Hf4.
  apply HQ; [done..|by rewrite Hf12, Hf3].
Qed.
End rules.

(** ** The properties of the allocator *)

Lemma tinv_no_panic E p n H v k : tinv no_panic p n H v k → tinv E p n H v k.
Proof.
  intros (a & ? & ? & ? & ? & ? & ? & ? & [?|[[] _]]). exists a. do 6 (split; [done|]).
  split; [done|by left].
Qed.

(** C4: in a transaction with two log slots left, on a file system that has a
    free block below the log, [balloc] returns the lowest free block, and
    afterwards that block is marked in use and full of zeros, no other block's
    mark has changed, and no other block's contents. *)
Theorem balloc_allocates p n H v k b :
  tinv no_panic p n H v k → 2 ≤ n → fs_geo (log_start (k_log k)) v →
  first_free v b → b < log_start (k_log k) →
  1 ∉ H.*2 → bitmap_block v ∉ H.*2 → b ∉ H.*2 → (length H ≤ 2)%nat →
  ∃ k' v', balloc ROOTDEV k = Ok b k' ∧ tinv no_panic p (n - 2) H v' k' ∧
    v' b = zero_block ∧
    (∀ x, 0 ≤ x < BPB → used v' x = (x =? b) || used v x) ∧
    (∀ x, x ≠ b → x ≠ bitmap_block v → v' x = v x).
Proof.
  intros Ht Hn Hg Hff Hst H1 Hbm Hb Hlen. pose proof (first_free_data _ _ _ Hg Hff) as Hdata.
  destruct (wp_ok (balloc ROOTDEV) (λ r k', r = b ∧ tinv no_panic p (n - 2) H (view_alloc v b) k') k)
    as (r & k' & Hr & -> & Ht').
  { eapply t_balloc; [done..|]. auto. }
  exists k', (view_alloc v b). split_and!; [done|done|apply vupd_eq| |].
  - intros x Hx. eapply used_alloc; [done| |done|by eapply tinv_len].
    pose proof (g_start _ _ Hg). pose proof (g_size _ _ Hg). unfold BPB, BSIZE, FSSIZE in *. lia.
  - intros x Hx1 Hx2. unfold view_alloc. by rewrite !vupd_ne.
Qed.

(** [bfree] of a block in use clears that block's mark and changes
    nothing else; of a free block, it panics. *)
Theorem bfree_frees p n H v k b :
  tinv no_panic p n H v k → 1 ≤ n → fs_geo (log_start (k_log k)) v → 0 ≤ b < FSSIZE →
  1 ∉ H.*2 → bitmap_block v ∉ H.*2 → (length H ≤ 2)%nat →
  if used v b
  then ∃ k' v', bfree ROOTDEV b k = Ok tt k' ∧ tinv no_panic p (n - 1) H v' k' ∧
    (∀ x, 0 ≤ x < BPB → used v' x = negb (x =? b) && used v x) ∧
    (∀ x, x ≠ bitmap_block v → v' x = v x)
  else bfree ROOTDEV b k = Panic "freeing free block".
Proof.
  intros Ht Hn Hg Hb H1 Hbm Hlen. destruct (used v b) eqn:Hu.
  - destruct (wp_ok (bfree ROOTDEV b) (λ _ k', tinv no_panic p (n - 1) H (view_free v b) k') k)
      as ([] & k' & Hr & Ht').
    { eapply t_bfree; [done..|congruence|auto]. }
    exists k', (view_free v b). split_and!; [done|done| |].
    + intros x Hx. eapply used_free; [done| |done|by eapply tinv_len].
      unfold BPB, BSIZE, FSSIZE in *. lia.
    + intros x Hx. unfold view_free. by rewrite vupd_ne.
  - apply wp_panics. eapply t_bfree; [by apply tinv_no_panic|done..|congruence].
Qed.

(** *** An example file system: 1000 blocks, 200 inodes, a log of 30 blocks at
    the end, the first [n] blocks in use. *)
Definition bitmap_first (n : nat) : block :=
  foldl (λ d i, bit_set (Z.of_nat i) d) zero_block (seq 0 n).
Definition fs_disk (n : nat) : gmap (Z * Z) block :=
  {[ (1, 1) := demo_sb; (1, 28) := bitmap_first n ]}.

Lemma length_bitmap_first n : length (bitmap_first n) = Z.to_nat BSIZE.
Proof.
  unfold bitmap_first. induction n as [|n IH]; [done|].
  rewrite seq_S, foldl_app. cbn. by rewrite length_bit_set.
Qed.

Lemma fs_disk_len n u s : length (disk_get (fs_disk n) u s) = Z.to_nat BSIZE.
Proof.
  unfold disk_get, fs_disk. destruct (decide ((u, s) = (1, 1))) as [->|Hne].
  { rewrite lookup_insert_eq. done. }
  rewrite lookup_insert_ne by done. destruct (decide ((u, s) = (1, 28))) as [->|Hne'].
  { rewrite lookup_singleton_eq. apply length_bitmap_first. }
  by rewrite lookup_singleton_ne.
Qed.

Lemma demo_tinv disk : (∀ u s, length (disk_get disk u s) = Z.to_nat BSIZE) →
  ∃ k, tinv no_panic 0 25 [] (disk_get disk 1) k ∧ k_log k = demo_log ∧ k_ic k = k_ic (kernel0 disk).
Proof.
  intros Hd. destruct (kernel0_binit disk Hd) as (bc & m & _ & Hv & _).
  set (k := set_bc _ _) in Hv. exists (set_log demo_log k). split; [|done].
  eexists. split; [apply binv_log; exact Hv|]. split; [done|].
  split; [by right|]. split; [apply demo_log_ok|]. split; [done|]. split; [done|].
  split; [done|]. left. vm_compute. done.
Qed.

(** The bitmap of the example with [n] blocks in use. *)
Lemma bitmap_first_bit n x : (n ≤ 4096)%nat → 0 ≤ x < BPB →
  bit_of (bitmap_first n) x = (x <? Z.of_nat n).
Proof.
  intros Hn Hx. induction n as [|n IH].
  - rewrite bit_of_testbit by lia. unfold bitmap_first. cbn [seq foldl].
    assert (H0 : ∀ i, nth i zero_block 0 = 0).
    { intros i. rewrite nth_lookup. destruct (zero_block !! i) eqn:H0; [|done].
      by apply lookup_replicate in H0 as [-> _]. }
    rewrite H0, Z.testbit_0_l. symmetry. apply Z.ltb_ge. lia.
  - unfold bitmap_first in *. rewrite seq_S, foldl_app. cbn [foldl].
    rewrite bit_of_set; [|apply length_bitmap_first|unfold BPB, BSIZE; lia|done].
    rewrite IH by lia. destruct (Z.eqb_spec x (Z.of_nat (0 + n))), (Z.ltb_spec x (Z.of_nat n)),
      (Z.ltb_spec x (Z.of_nat (S n))); done || lia.
Qed.

Lemma fs_disk_geo n : (28 < n < 970)%nat →
  fs_geo 970 (disk_get (fs_disk n) 1) ∧ first_free (disk_get (fs_disk n) 1) (Z.of_nat n).
Proof.
  intros Hn. set (v := disk_get (fs_disk n) 1).
  assert (Hsb : sbv v = mkSb 1000 941 200 30) by done.
  assert (Hbm : bitmap_block v = 28) by (unfold bitmap_block; by rewrite Hsb).
  assert (Hu : ∀ x, 0 ≤ x < BPB → used v x = (x <? Z.of_nat n)).
  { intros x Hx. unfold used. rewrite Hbm. apply bitmap_first_bit; [lia|done]. }
  unfold BPB, BSIZE in Hu. split; [split|].
  - by rewrite Hsb.
  - by rewrite Hsb.
  - by rewrite Hsb.
  - by rewrite Hbm.
  - rewrite Hbm. intros b Hb. rewrite Hu by lia. lia.
  - split; [lia|]. split; [rewrite Hu by lia; lia|]. intros x Hx. rewrite Hu by lia. lia.
Qed.

Lemma balloc_allocates_witness :
  ∃ k k', balloc ROOTDEV k = Ok 60 k' ∧ bview k' 60 = zero_block.
Proof.
  destruct (demo_tinv (fs_disk 60) (fs_disk_len 60)) as (k & Ht & Hl & _).
  destruct (fs_disk_geo 60 ltac:(lia)) as [Hg Hff].
  destruct (balloc_allocates 0 25 [] (disk_get (fs_disk 60) 1) k 60 Ht ltac:(lia))
    as (k' & v' & Hr & (a & [_ Hb] & Hv & _) & Hz & _).
  - by rewrite Hl.
  - exact Hff.
  - by rewrite Hl.
  - apply not_elem_of_nil.
  - apply not_elem_of_nil.
  - apply not_elem_of_nil.
  - cbn. lia.
  - exists k, k'. split; [exact Hr|]. rewrite (bd_view _ _ _ Hb), Hv. exact Hz.
Defined.

Lemma bfree_frees_witness :
  ∃ k k', bfree ROOTDEV 59 k = Ok tt k' ∧ bfree ROOTDEV 60 k = Panic "freeing free block".
Proof.
  destruct (demo_tinv (fs_disk 60) (fs_disk_len 60)) as (k & Ht & Hl & _).
  destruct (fs_disk_geo 60 ltac:(lia)) as [Hg Hff].
  assert (Hg' : fs_geo (log_start (k_log k)) (disk_get (fs_disk 60) 1)) by (by rewrite Hl).
  pose proof (bfree_frees 0 25 [] (disk_get (fs_disk 60) 1) k 59 Ht ltac:(lia) Hg' ltac:(done)
    (not_elem_of_nil _) (not_elem_of_nil _) ltac:(cbn; lia)) as H59.
  pose proof (bfree_frees 0 25 [] (disk_get (fs_disk 60) 1) k 60 Ht ltac:(lia) Hg' ltac:(done)
    (not_elem_of_nil _) (not_elem_of_nil _) ltac:(cbn; lia)) as H60.
  replace (used (disk_get (fs_disk 60) 1) 59) with true in H59 by (vm_compute; reflexivity).
  replace (used (disk_get (fs_disk 60) 1) 60) with false in H60 by (vm_compute; reflexivity).
  destruct H59 as (k' & _ & H59 & _). exists k, k'. split; [exact H59|exact H60].
Defined.

(** Boot, begin a file system call and allocate a block. *)
Definition full_fs_balloc : K Z := binit;; initlog;; begin_op;; balloc ROOTDEV.

(** The log's blocks are not marked in use by mkfs, and [balloc] looks
    at every block below [sb.size]: on a file system whose blocks below the
    log are all in use, [balloc] does not run out of blocks but returns the
    block of the log header and puts it in the transaction. *)
Theorem balloc_takes_log_block :
  ∃ k, full_fs_balloc (kernel0 (fs_disk 970)) = Ok 970 k ∧
    log_start (k_log k) = 970 ∧ 970 ∈ logged k.
Proof.
  assert (H : match full_fs_balloc (kernel0 (fs_disk 970)) with
              | Ok b k => (b =? 970) && (log_start (k_log k) =? 970) &&
                          bool_decide (970 ∈ logged k)
              | _ => false
              end = true) by (vm_compute; reflexivity).
  destruct (full_fs_balloc (kernel0 (fs_disk 970))) as [b k| | | |]; try done.
  apply andb_true_iff in H as [[Hb%Z.eqb_eq Hs%Z.eqb_eq]%andb_true_iff Hin%bool_decide_eq_true].
  subst b. by exists k.
Qed.
