(* ===== verification/FsInode.v ===== *)
(** * FsInode: the inode cache of kernel/fs.c

    The reference counts of [iget], [idup] and [iput] against the references
    that callers hold: an entry of the cache belongs to one inode for as long
    as someone holds a reference to it, and no two entries in use belong to
    the same inode. *)

From stdpp Require Import prelude functions gmap strings.
From S2P Require Import Prelude Types Spinlock Sched Ide Bio Block Frame Log Fs Tx.
Open Scope Z_scope.

(** ** What the block layer and the log leave alone *)

Class InertL {B} (f : kernel → B) : Prop := {
  inertl :: Inert f;
  inert_setlog : ∀ l k, f (set_log l k) = f k
}.

Section inertl.
Context {B : Type} (f : kernel → B) `{!InertL f}.

Lemma keeps_updlog g : keeps f (updlog g).
Proof. apply keeps_modify. intros. apply inert_setlog. Qed.
#[local] Hint Resolve keeps_updlog : keeps.
Lemma keeps_getlog : keeps f getlog.
Proof. unfold getlog. keeps_tac. Qed.
#[local] Hint Resolve keeps_getlog : keeps.
Lemma keeps_log_write b : keeps f (log_write b).
Proof. unfold log_write. keeps_tac. Qed.
Lemma keeps_readsb dev : keeps f (readsb dev).
Proof. unfold readsb. keeps_tac. Qed.
Lemma keeps_upddata b g : keeps f (upddata b g).
Proof. unfold upddata. keeps_tac. Qed.
#[local] Hint Resolve keeps_log_write keeps_readsb keeps_upddata : keeps.
Lemma keeps_bzero dev b : keeps f (bzero dev b).
Proof. unfold bzero. keeps_tac. Qed.
#[local] Hint Resolve keeps_bzero : keeps.
Lemma keeps_balloc_loop dev sb bs : keeps f (balloc_loop dev sb bs).
Proof. induction bs; cbn [balloc_loop]; keeps_tac. Qed.
#[local] Hint Resolve keeps_balloc_loop : keeps.
Lemma keeps_balloc dev : keeps f (balloc dev).
Proof. unfold balloc. keeps_tac. Qed.
Lemma keeps_bfree dev b : keeps f (bfree dev b).
Proof. unfold bfree. keeps_tac. Qed.
End inertl.
#[export] Hint Resolve keeps_log_write keeps_readsb keeps_upddata keeps_balloc keeps_bfree : keeps.
#[export] Hint Extern 1 (InertL _) => typeclasses eauto : keeps.

(** ** Which inode each entry is for, and its reference count *)

Definition i_key (ip : inode) : Z * Z := (i_dev ip, i_inum ip).
Definition ic_keys (k : kernel) : list (Z * Z * Z) := (λ ip, (i_key ip, i_ref ip)) <$> k_ic k.

#[global] Instance inertl_keys : InertL ic_keys.
Proof. by repeat split. Qed.

Lemma keeps_getinode {B} (f : kernel → B) i : keeps f (getinode i).
Proof. unfold getinode. keeps_tac. Qed.
#[export] Hint Resolve keeps_getinode : keeps.

Lemma keeps_updinode i f : (∀ x, (i_key (f x), i_ref (f x)) = (i_key x, i_ref x)) →
  keeps ic_keys (updinode i f).
Proof.
  intros Hf. unfold updinode. keeps_tac. apply keeps_modify. intros k. by apply fmap_alter_same.
Qed.
#[export] Hint Extern 2 (keeps ic_keys (updinode _ _)) => apply keeps_updinode; done : keeps.

(** Everything in fs.c but [iget], [idup] and [iput] keeps them. *)
Lemma keeps_setaddr i n v : keeps ic_keys (setaddr i n v).
Proof. unfold setaddr. keeps_tac. Qed.
Lemma keeps_getaddr i n : keeps ic_keys (getaddr i n).
Proof. unfold getaddr. keeps_tac. Qed.
#[export] Hint Resolve keeps_setaddr keeps_getaddr : keeps.
Lemma keeps_iupdate i : keeps ic_keys (iupdate i).
Proof. unfold iupdate. keeps_tac. Qed.
Lemma keeps_bmap i bn : keeps ic_keys (bmap i bn).
Proof. unfold bmap. keeps_tac. Qed.
#[export] Hint Resolve keeps_iupdate keeps_bmap : keeps.
Lemma keeps_itrunc i : keeps ic_keys (itrunc i).
Proof. unfold itrunc, itrunc_direct, itrunc_indirect. keeps_tac. Qed.
Lemma keeps_ilock_wait i n : keeps ic_keys (ilock_wait i n).
Proof. induction n; cbn [ilock_wait]; keeps_tac. Qed.
#[export] Hint Resolve keeps_itrunc keeps_ilock_wait : keeps.
Lemma keeps_ilock i : keeps ic_keys (ilock i).
Proof. unfold ilock. keeps_tac. Qed.
Lemma keeps_iunlock i : keeps ic_keys (iunlock i).
Proof. unfold iunlock. keeps_tac. Qed.
#[export] Hint Resolve keeps_ilock keeps_iunlock : keeps.
Lemma keeps_readi_loop i n fuel : ∀ off tot acc, keeps ic_keys (readi_loop i off n tot acc fuel).
Proof. induction fuel; intros; cbn [readi_loop]; keeps_tac. Qed.
Lemma keeps_writei_loop i src n fuel : ∀ off tot, keeps ic_keys (writei_loop i src off n tot fuel).
Proof. induction fuel; intros; cbn [writei_loop]; keeps_tac. Qed.
#[export] Hint Resolve keeps_readi_loop keeps_writei_loop : keeps.

(** ** [iget], [idup] and [iput] *)

Lemma updinode_keys i f k k' :
  updinode i f k = Ok tt k' →
  ∃ ip, k_ic k !! i = Some ip ∧ k_ic k' !! i = Some (f ip) ∧
    ic_keys k' = <[i := (i_key (f ip), i_ref (f ip))]> (ic_keys k).
Proof.
  unfold updinode, getinode. intros H. inv_ok H as ip k1 H1. inv_ok H1 as k2 k3 H3.
  unfold get in H3. simplify_eq. unfold need in H1.
  destruct (k_ic k3 !! i) as [ip'|] eqn:Hi; [|done]. unfold mret, M_ret in H1. simplify_eq.
  unfold modify in H. simplify_eq. exists ip. split; [done|].
  unfold ic_keys. cbn. rewrite (alter_to_insert _ _ _ ip) by done.
  split; [apply list_lookup_insert_eq; by eapply lookup_lt_Some|]. by rewrite list_fmap_insert.
Qed.

Lemma iget_scan_hit dev inum ics : ∀ i0 e i,
  iget_scan dev inum ics i0 e = inl i →
  ∃ j ip, i = (i0 + j)%nat ∧ ics !! j = Some ip ∧ 0 < i_ref ip ∧ i_key ip = (dev, inum).
Proof.
  induction ics as [|ip ics IH]; intros i0 e i; cbn [iget_scan]; [done|].
  destruct ((0 <? i_ref ip) && _ && _) eqn:Hh.
  - intros [= <-]. exists 0%nat, ip. rewrite !andb_true_iff in Hh. unfold i_key.
    split; [lia|]. split; [done|]. split; [lia|]. f_equal; lia.
  - intros (j & ip' & -> & ?)%IH. exists (S j), ip'. split; [lia|done].
Qed.

Lemma iget_scan_miss dev inum ics : ∀ i0 e i,
  iget_scan dev inum ics i0 e = inr (Some i) →
  (∀ j ip, ics !! j = Some ip → 0 < i_ref ip → i_key ip ≠ (dev, inum)) ∧
  (e = Some i ∨ ∃ j ip, i = (i0 + j)%nat ∧ ics !! j = Some ip ∧ i_ref ip = 0).
Proof.
  induction ics as [|ip ics IH]; intros i0 e i; cbn [iget_scan].
  - intros [= ->]. split; [done|by left].
  - destruct ((0 <? i_ref ip) && _ && _) eqn:Hh; [done|]. intros [Hno Hcase]%IH. split.
    + intros [|j] ip' Hj Hr; [|by eapply Hno]. cbn in Hj. injection Hj as <-.
      intros [= Hd Hi]. rewrite Hd, Hi, !Z.eqb_refl in Hh. lia.
    + destruct Hcase as [He|(j & ip' & -> & ?)]; [|right; exists (S j), ip'; split; [lia|done]].
      destruct e as [e|]; [by left|]. destruct (Z.eqb_spec (i_ref ip) 0); [|done].
      injection He as <-. right. exists 0%nat, ip. split; [lia|done].
Qed.

Lemma ic_keys_lookup k i ip : k_ic k !! i = Some ip → ic_keys k !! i = Some (i_key ip, i_ref ip).
Proof. intros H. unfold ic_keys. by rewrite list_lookup_fmap, H. Qed.
Lemma ic_keys_inv k i x : ic_keys k !! i = Some x →
  ∃ ip, k_ic k !! i = Some ip ∧ x = (i_key ip, i_ref ip).
Proof. intros (ip & ? & ?)%list_lookup_fmap_Some. by exists ip. Qed.

(** [iget] takes one more reference to the inode's entry, or makes an entry
    without references the inode's. *)
Definition iget_hit (dev inum : Z) (i : nat) (k k' : kernel) : Prop :=
  ∃ r, 0 < r ∧ ic_keys k !! i = Some ((dev, inum), r) ∧
    ic_keys k' = <[i := ((dev, inum), i32 (r + 1))]> (ic_keys k).
Definition iget_new (dev inum : Z) (i : nat) (k k' : kernel) : Prop :=
  (∀ j r, ic_keys k !! j = Some ((dev, inum), r) → r ≤ 0) ∧
  (∃ key, ic_keys k !! i = Some (key, 0)) ∧
  ic_keys k' = <[i := ((dev, inum), 1)]> (ic_keys k).

Lemma iget_keys dev inum i k k' :
  iget dev inum k = Ok i k' → iget_hit dev inum i k k' ∨ iget_new dev inum i k k'.
Proof.
  unfold iget. intros H. inv_ok H as [] k1 H1. apply (keeps_ok k_ic) in H1; [|auto with keeps].
  inv_ok H as k2 k3 H2. unfold get in H2. simplify_eq.
  assert (Hk : ic_keys k3 = ic_keys k) by (unfold ic_keys; by rewrite H1).
  destruct (iget_scan dev inum (k_ic k3) 0 None) as [j|[j|]] eqn:Hs; [left|right|done].
  - apply iget_scan_hit in Hs as (j' & ip & -> & Hj & Hr & Hkey). cbn [Nat.add] in H.
    inv_ok H as [] k4 H4. apply updinode_keys in H4 as (ip' & Hip' & _ & H4). simplify_eq.
    inv_ok H as [] k5 H5. apply (keeps_ok ic_keys) in H5; [|auto with keeps].
    unfold mret, M_ret in H. simplify_eq. exists (i_ref ip). split; [done|].
    rewrite <-Hk, H5, H4, <-Hkey. split; [by apply ic_keys_lookup|done].
  - apply iget_scan_miss in Hs as [Hno [?|(j' & ip & -> & Hj & Hr)]]; [done|]. cbn [Nat.add] in H.
    inv_ok H as [] k4 H4. apply updinode_keys in H4 as (ip4 & Hip4 & Hip4' & H4).
    inv_ok H as [] k5 H5. apply updinode_keys in H5 as (ip5 & Hip5 & Hip5' & H5).
    inv_ok H as [] k6 H6. apply updinode_keys in H6 as (ip6 & Hip6 & Hip6' & H6).
    inv_ok H as [] k7 H7. apply (keeps_ok ic_keys) in H7; [|auto with keeps].
    unfold mret, M_ret in H. simplify_eq. split_and!.
    + intros j r Hj'. rewrite <-Hk in Hj'. apply ic_keys_inv in Hj' as (ip' & Hj' & Heq).
      assert (i_key ip' = (dev, inum) ∧ i_ref ip' = r) as [? <-] by (split; congruence).
      destruct (decide (0 < i_ref ip')); [|lia]. by destruct (Hno j ip' Hj').
    + exists (i_key ip). rewrite <-Hk, <-Hr. by apply ic_keys_lookup.
    + rewrite H7, H6, H5, H4, Hk, !list_insert_insert_eq. done.
Qed.

Lemma idup_keys i j k k' : idup i k = Ok j k' →
  j = i ∧ ∃ key r, ic_keys k !! i = Some (key, r) ∧ ic_keys k' = <[i := (key, i32 (r + 1))]> (ic_keys k).
Proof.
  unfold idup. intros H. inv_ok H as [] k1 H1. apply (keeps_ok ic_keys) in H1; [|auto with keeps].
  inv_ok H as [] k2 H2. apply updinode_keys in H2 as (ip & Hip & _ & H2).
  inv_ok H as [] k3 H3. apply (keeps_ok ic_keys) in H3; [|auto with keeps].
  unfold mret, M_ret in H. simplify_eq. split; [done|]. exists (i_key ip), (i_ref ip).
  rewrite <-H1, H3, H2. split; [by apply ic_keys_lookup|done].
Qed.

Lemma iput_keys i k k' : iput i k = Ok tt k' →
  ∃ key r, ic_keys k !! i = Some (key, r) ∧ ic_keys k' = <[i := (key, i32 (r - 1))]> (ic_keys k).
Proof.
  unfold iput. intros H. inv_ok H as [] k1 H1. apply (keeps_ok ic_keys) in H1; [|auto with keeps].
  inv_ok H as ip k2 H2. apply (keeps_ok ic_keys) in H2; [|auto with keeps].
  inv_ok H as [] k3 H3. apply (keeps_ok ic_keys) in H3; [|keeps_tac].
  inv_ok H as [] k4 H4. apply updinode_keys in H4 as (ip4 & Hip4 & _ & H4).
  apply (keeps_ok ic_keys) in H; [|auto with keeps].
  exists (i_key ip4), (i_ref ip4). rewrite <-H1, <-H2, <-H3, H, H4.
  split; [by apply ic_keys_lookup|done].
Qed.

(** ** The references that callers hold

    [rc i] counts them for entry [i]: [iget] and [idup] hand one out, and
    [iput] takes one back; every other operation moves none.  A count stays
    below the largest [int]. *)
Inductive ic_step : kernel * (nat → Z) → kernel * (nat → Z) → Prop :=
| step_iget k k' rc dev inum i :
    iget dev inum k = Ok i k' → rc i < 2 ^ 31 - 1 →
    ic_step (k, rc) (k', fupd i (rc i + 1) rc)
| step_idup k k' rc i :
    1 ≤ rc i → rc i < 2 ^ 31 - 1 → idup i k = Ok i k' →
    ic_step (k, rc) (k', fupd i (rc i + 1) rc)
| step_iput k k' rc i :
    1 ≤ rc i → iput i k = Ok tt k' →
    ic_step (k, rc) (k', fupd i (rc i - 1) rc)
| step_other {A} (m : K A) k k' rc :
    keeps ic_keys m → (∃ a, m k = Ok a k') ∨ m k = Sleeps k' →
    ic_step (k, rc) (k', rc).

Record ic_ok (s : kernel * (nat → Z)) : Prop := {
  ic_counts : ∀ i key r, ic_keys s.1 !! i = Some (key, r) → r = s.2 i ∧ 0 ≤ r < 2 ^ 31;
  ic_unique : ∀ i j key r r', ic_keys s.1 !! i = Some (key, r) → ic_keys s.1 !! j = Some (key, r') →
    0 < r → 0 < r' → i = j
}.

(** A new count for an entry whose inode stays. *)
Lemma ic_ok_count k k' rc i key r r' :
  ic_ok (k, rc) → ic_keys k !! i = Some (key, r) → 0 < r → 0 ≤ r' < 2 ^ 31 →
  ic_keys k' = <[i := (key, r')]> (ic_keys k) → ic_ok (k', fupd i r' rc).
Proof.
  intros [Hc Hu] Hi Hr Hr' Hk. cbn in *. split; cbn; rewrite Hk.
  - intros j key' x [(-> & [= <- <-] & _)|(Hne & Hj)]%list_lookup_insert_Some.
    + by rewrite fupd_eq.
    + rewrite fupd_ne by done. by eapply Hc.
  - intros a b key' x y [(-> & [= <- <-] & _)|(Hne & Ha)]%list_lookup_insert_Some
      [(-> & ? & _)|(Hne' & Hb)]%list_lookup_insert_Some Hx Hy; simplify_eq; eauto.
Qed.

Lemma i32_count r : 0 ≤ r < 2 ^ 31 → i32 r = r.
Proof. intros. apply i32_small. lia. Qed.

Lemma ic_ok_step s s' : ic_step s s' → ic_ok s → ic_ok s'.
Proof.
  intros [k k' rc dev inum i H Hlt|k k' rc i Hge Hlt H|k k' rc i Hge H|A m k k' rc Hm H] Hok;
    pose proof Hok as [Hc Hu]; cbn in *.
  - apply iget_keys in H as [(r & Hr & Hi & Hk)|(Hno & (key & Hi) & Hk)];
      destruct (Hc _ _ _ Hi) as [Heq ?].
    + subst r. rewrite i32_count in Hk by lia. by apply (ic_ok_count k k' rc i (dev, inum) (rc i)); try lia.
    + split; cbn; rewrite Hk.
      * intros j key' x [(-> & [= <- <-] & _)|(Hne & Hj)]%list_lookup_insert_Some.
        -- rewrite fupd_eq. lia.
        -- rewrite fupd_ne by done. by eapply Hc.
      * intros a b key' x y [(-> & [= <- <-] & _)|(Hne & Ha)]%list_lookup_insert_Some
          [(-> & ? & _)|(Hne' & Hb)]%list_lookup_insert_Some Hx Hy; simplify_eq; [done| | |by eauto].
        -- apply Hno in Hb. lia.
        -- apply Hno in Ha. lia.
  - apply idup_keys in H as (_ & key & r & Hi & Hk). destruct (Hc _ _ _ Hi) as [-> ?].
    rewrite i32_count in Hk by lia. by apply (ic_ok_count k k' rc i key (rc i)); try lia.
  - apply iput_keys in H as (key & r & Hi & Hk). destruct (Hc _ _ _ Hi) as [-> ?].
    rewrite i32_count in Hk by lia. by apply (ic_ok_count k k' rc i key (rc i)); try lia.
  - assert (Hk : ic_keys k' = ic_keys k).
    { specialize (Hm k). destruct H as [[a H]|H]; by rewrite H in Hm. }
    split; cbn; rewrite Hk; done.
Qed.

Lemma ic_ok_init k : (∀ i ip, k_ic k !! i = Some ip → i_ref ip = 0) → ic_ok (k, λ _, 0).
Proof.
  intros H0. split; cbn.
  - intros i key r (ip & Hip & [= -> ->])%ic_keys_inv. by rewrite (H0 _ _ Hip).
  - intros i j key r r' (ip & Hip & [= -> ->])%ic_keys_inv _ Hr. rewrite (H0 _ _ Hip) in Hr. lia.
Qed.

Lemma ic_ok_reach k0 s : (∀ i ip, k_ic k0 !! i = Some ip → i_ref ip = 0) →
  rtc ic_step (k0, λ _, 0) s → ic_ok s.
Proof.
  intros H0 Hr. apply ic_ok_init in H0. induction Hr as [|s1 s2 s3 Hs _ IH]; [done|].
  by apply IH, (ic_ok_step s1).
Qed.

(** A step leaves the inode of a referenced entry alone. *)
Lemma ic_step_key k rc k' rc' i key r :
  ic_ok (k, rc) → ic_step (k, rc) (k', rc') → ic_keys k !! i = Some (key, r) → 1 ≤ rc i →
  ∃ r', ic_keys k' !! i = Some (key, r').
Proof.
  intros Hok Hs Hi Hr. destruct (ic_counts _ Hok _ _ _ Hi) as [-> _]. cbn in *.
  assert (Hlt : (i < length (ic_keys k))%nat) by (by eapply lookup_lt_Some).
  assert (Hins : ∀ j x, (j = i → x.1 = key) → ic_keys k' = <[j := x]> (ic_keys k) →
    ∃ r', ic_keys k' !! i = Some (key, r')).
  { intros j [x1 x2] Hx ->. destruct (decide (j = i)) as [->|].
    - rewrite list_lookup_insert_eq by done. exists x2. by rewrite <-Hx.
    - rewrite list_lookup_insert_ne by done. by eexists. }
  inversion Hs as [? ? ? dev inum j H Hlt'|? ? ? j Hge Hlt' H|? ? ? j Hge H|A m ? ? ? Hm H]; subst.
  - apply iget_keys in H as [(r & Hr' & Hj & Hk)|(Hno & (key' & Hj) & Hk)];
      eapply Hins; try exact Hk; intros ->; simplify_eq/=; [done|lia].
  - apply idup_keys in H as (_ & key' & r & Hj & Hk). eapply Hins; [|exact Hk]. intros ->. by simplify_eq.
  - apply iput_keys in H as (key' & r & Hj & Hk). eapply Hins; [|exact Hk]. intros ->. by simplify_eq.
  - assert (Hk : ic_keys k' = ic_keys k).
    { specialize (Hm k). destruct H as [[a H]|H]; by rewrite H in Hm. }
    rewrite Hk. by eexists.
Qed.

(** C5: in every state that [iget], [idup], [iput] and the rest of fs.c reach
    from an empty inode cache, the count of each entry is the number of
    references its callers hold; two entries with references are for
    different inodes; [iget] returns an entry for the inode it was asked for;
    and whatever is called next, an entry to which someone holds a reference
    stays with its inode. *)
Theorem icache_references k0 k rc :
  (∀ i ip, k_ic k0 !! i = Some ip → i_ref ip = 0) → rtc ic_step (k0, λ _, 0) (k, rc) →
  (∀ i ip, k_ic k !! i = Some ip → i_ref ip = rc i) ∧
  (∀ i j ip jp, k_ic k !! i = Some ip → k_ic k !! j = Some jp →
     1 ≤ rc i → 1 ≤ rc j → i_key ip = i_key jp → i = j) ∧
  (∀ dev inum i k', iget dev inum k = Ok i k' →
     ∃ ip, k_ic k' !! i = Some ip ∧ i_key ip = (dev, inum)) ∧
  (∀ k' rc' i ip, ic_step (k, rc) (k', rc') → k_ic k !! i = Some ip → 1 ≤ rc i →
     ∃ ip', k_ic k' !! i = Some ip' ∧ i_key ip' = i_key ip).
Proof.
  intros H0 Hr. pose proof (ic_ok_reach _ _ H0 Hr) as Hok. split_and!.
  - intros i ip Hi. by destruct (ic_counts _ Hok _ _ _ (ic_keys_lookup _ _ _ Hi)).
  - intros i j ip jp Hi Hj Hri Hrj Hkey. apply ic_keys_lookup in Hi, Hj. rewrite Hkey in Hi.
    destruct (ic_counts _ Hok _ _ _ Hi) as [? _], (ic_counts _ Hok _ _ _ Hj) as [? _].
    eapply (ic_unique _ Hok); [exact Hi|exact Hj|cbn in *; lia..].
  - intros dev inum i k' H.
    assert (∃ r, ic_keys k' !! i = Some ((dev, inum), r)) as (r & (ip & Hip & [= -> -> _])%ic_keys_inv).
    { apply iget_keys in H as [(r & _ & Hi & ->)|(_ & (key & Hi) & ->)]; eexists;
        apply list_lookup_insert_eq; by eapply lookup_lt_Some. }
    by exists ip.
  - intros k' rc' i ip Hs Hi Hrc. apply ic_keys_lookup in Hi.
    destruct (ic_step_key _ _ _ _ _ _ _ Hok Hs Hi Hrc) as (r' & (ip' & Hip' & Heq)%ic_keys_inv).
    exists ip'. split; [done|congruence].
Qed.

(** Inodes 1 and 5 are opened, the first of them twice. *)
Definition demo_igets : K (nat * nat * nat) :=
  a ← iget ROOTDEV 1; b ← iget ROOTDEV 5; c ← iget ROOTDEV 1; mret (a, b, c).

Lemma demo_igets_run k : ok_val (demo_igets k) = Some (0%nat, 1%nat, 0%nat) →
  ∃ k1 k2 k3, iget ROOTDEV 1 k = Ok 0%nat k1 ∧ iget ROOTDEV 5 k1 = Ok 1%nat k2 ∧
    iget ROOTDEV 1 k2 = Ok 0%nat k3.
Proof.
  intros (k4 & H)%ok_val_run. unfold demo_igets in H.
  inv_ok H as a k1 H1. inv_ok H as b k2 H2. inv_ok H as c k3 H3.
  unfold mret, M_ret in H. simplify_eq. by exists k1, k2, k4.
Qed.

Lemma icache_references_witness :
  ∃ k rc, rc 0%nat = 2 ∧ rc 1%nat = 1 ∧
    (∀ i ip, k_ic k !! i = Some ip → i_ref ip = rc i).
Proof.
  destruct (demo_igets_run (kernel0 ∅)) as (k1 & k2 & k3 & H1 & H2 & H3); [vm_compute; reflexivity|].
  set (rc1 := fupd 0%nat (0 + 1) (λ _ : nat, 0)). set (rc2 := fupd 1%nat (rc1 1%nat + 1) rc1).
  exists k3, (fupd 0%nat (rc2 0%nat + 1) rc2). split; [reflexivity|]. split; [reflexivity|].
  refine (proj1 (icache_references (kernel0 ∅) k3 _ _ _)).
  - intros i ip Hi. apply lookup_replicate in Hi as [-> _]. reflexivity.
  - eapply rtc_l; [apply (step_iget _ k1 _ ROOTDEV 1 0); [exact H1|reflexivity]|].
    eapply rtc_l; [apply (step_iget _ k2 _ ROOTDEV 5 1); [exact H2|reflexivity]|].
    eapply rtc_l; [apply (step_iget _ k3 _ ROOTDEV 1 0); [exact H3|reflexivity]|]. apply rtc_refl.
Defined.
