(* ===== verification/FsDinode.v ===== *)
(** * FsDinode: inodes on disk

    The stores of [iupdate] and the loads of [ilock] at the byte offsets of
    [struct dinode]: what is stored is loaded back, and the seven other
    inodes of the block do not change. *)

From stdpp Require Import prelude functions gmap strings.
From S2P Require Import Prelude Types Fs.
Open Scope Z_scope.

Lemma length_put16 o x d : (o + 2 ≤ length d)%nat → length (put16 o x d) = length d.
Proof. intros. unfold put16. apply length_bsplice. by rewrite length_le_put. Qed.

Lemma length_addr_bytes l : length (concat (le_put 4 <$> l)) = (4 * length l)%nat.
Proof.
  induction l as [|x l IH]; [done|]. rewrite fmap_cons. cbn [concat].
  rewrite length_app, length_le_put, IH. cbn. lia.
Qed.

Lemma length_put_addrs o l d : (o + 20 + 4 * length l ≤ length d)%nat → length (put_addrs o l d) = length d.
Proof. intros. unfold put_addrs. apply length_bsplice. by rewrite length_addr_bytes. Qed.

Lemma dip_off_range inum : (dip_off inum + 64 ≤ 512)%nat.
Proof.
  unfold dip_off, IPB, DINODE_SIZE, BSIZE. change (512 / 64) with 8.
  pose proof (Z.mod_pos_bound inum 8 eq_refl). lia.
Qed.

(** The lengths that the side conditions need. *)
Ltac len_tac :=
  repeat first [ rewrite length_put_addrs | rewrite length_put32 | rewrite length_put16 ];
  rewrite ?length_le_put, ?length_addr_bytes; lia.

Lemma length_dinode_store ip d : length d = 512%nat → length (i_addrs ip) = 11%nat →
  length (dinode_store ip d) = 512%nat.
Proof. intros Hd Ha. pose proof (dip_off_range (i_inum ip)). unfold dinode_store. cbv zeta. len_tac. Qed.

(** ** A load after a store *)

Lemma get_put16 o x d : (o + 2 ≤ length d)%nat → get16 o (put16 o x d) = u16 x.
Proof.
  intros. unfold get16, put16. rewrite <-(length_le_put 2 x) at 1.
  rewrite bslice_bsplice_eq by (by rewrite length_le_put). apply le_get_put.
Qed.

(** A load of [n] bytes at [o'], whatever is stored elsewhere. *)
Section elsewhere.
Context (o' n : nat) (d : block).

Lemma bslice_put16 o x : (o + 2 ≤ length d)%nat → (o' + n ≤ o ∨ o + 2 ≤ o')%nat →
  bslice o' n (put16 o x d) = bslice o' n d.
Proof. intros. unfold put16. apply bslice_bsplice_ne; by rewrite length_le_put. Qed.
Lemma bslice_put32 o x : (o + 4 ≤ length d)%nat → (o' + n ≤ o ∨ o + 4 ≤ o')%nat →
  bslice o' n (put32 o x d) = bslice o' n d.
Proof. intros. unfold put32. apply bslice_bsplice_ne; by rewrite length_le_put. Qed.
Lemma bslice_put_addrs o l : (o + 20 + 4 * length l ≤ length d)%nat →
  (o' + n ≤ o + 20 ∨ o + 20 + 4 * length l ≤ o')%nat →
  bslice o' n (put_addrs o l d) = bslice o' n d.
Proof. intros. unfold put_addrs. apply bslice_bsplice_ne; by rewrite length_addr_bytes. Qed.
End elsewhere.

(** Skips the stores that are elsewhere. *)
Ltac skip_stores :=
  repeat first
    [ rewrite bslice_put_addrs by len_tac | rewrite bslice_put32 by len_tac
    | rewrite bslice_put16 by len_tac ].

Lemma bslice_inside {A} off j n (s l : list A) : (j + n ≤ length s)%nat → (off + length s ≤ length l)%nat →
  bslice (off + j) n (bsplice off s l) = bslice j n s.
Proof.
  intros Hj Hl. apply list_eq. intros i. rewrite !lookup_bslice. case_decide; [|done].
  rewrite lookup_bsplice by done. rewrite decide_True by lia. f_equal. lia.
Qed.

Lemma bslice_addr_bytes l i x : l !! i = Some x → bslice (4 * i) 4 (concat (le_put 4 <$> l)) = le_put 4 x.
Proof.
  revert i. induction l as [|y l IH]; intros [|i] Hi; try done; rewrite fmap_cons; cbn [concat].
  - cbn in Hi. injection Hi as ->. unfold bslice. rewrite drop_0, take_app_length'; [done|by rewrite length_le_put].
  - cbn in Hi. rewrite <-(IH i Hi). unfold bslice. f_equal. replace (4 * S i)%nat with (4 + 4 * i)%nat by lia.
    rewrite <-drop_drop, drop_app_length'; [done|by rewrite length_le_put].
Qed.

Lemma get_put_addrs o l d : length l = 11%nat → (o + 64 ≤ length d)%nat → Forall (λ x, u32 x = x) l →
  get_addrs o (put_addrs o l d) = l.
Proof.
  intros Hl Hd Hr. apply list_eq. intros i. unfold get_addrs. rewrite list_lookup_fmap.
  destruct (decide (i < 11)%nat) as [Hi|Hi].
  - rewrite lookup_seq_lt by done. cbn [fmap option_fmap option_map].
    destruct (lookup_lt_is_Some_2 l i) as [x Hx]; [lia|]. rewrite Hx. f_equal. unfold get32, put_addrs.
    replace (o + 20 + 4 * (0 + i))%nat with (o + 20 + 4 * i)%nat by lia.
    rewrite bslice_inside by (rewrite length_addr_bytes; lia). rewrite (bslice_addr_bytes l i x Hx).
    rewrite le_get_put. change (256 ^ Z.of_nat 4) with (2 ^ 32). fold (u32 x).
    by apply (Forall_lookup_1 _ _ _ _ Hr Hx).
  - rewrite lookup_seq_ge by lia. cbn. symmetry. apply lookup_ge_None. lia.
Qed.

(** The fields of an inode are in range for their C types. *)
Record inode_ranges (ip : inode) : Prop := {
  ir_type : i16 (i_type ip) = i_type ip;
  ir_major : i16 (i_major ip) = i_major ip;
  ir_minor : i16 (i_minor ip) = i_minor ip;
  ir_nlink : i16 (i_nlink ip) = i_nlink ip;
  ir_mode : u32 (i_mode ip) = i_mode ip;
  ir_size : u32 (i_size ip) = i_size ip;
  ir_len : length (i_addrs ip) = 11%nat;
  ir_addrs : Forall (λ x, u32 x = x) (i_addrs ip)
}.

Lemma load_short o x d : (o + 2 ≤ length d)%nat → i16 x = x → i16 (le_get (bslice o 2 (put16 o x d))) = x.
Proof. intros Ho Hx. pose proof (get_put16 o x d Ho) as H. unfold get16 in H. by rewrite H, i16_u16. Qed.
Lemma load_uint o x d : (o + 4 ≤ length d)%nat → u32 x = x → le_get (bslice o 4 (put32 o x d)) = x.
Proof. intros Ho Hx. pose proof (get_put32 o x d Ho) as H. unfold get32 in H. by rewrite H. Qed.

(** The inode that [ilock] loads after [iupdate] stored [ip]. *)
Lemma dinode_load_store ip ip' d :
  length d = 512%nat → inode_ranges ip → i_inum ip' = i_inum ip →
  dinode_load (dinode_store ip d) ip' =
  mkInode (i_dev ip') (i_inum ip') (i_ref ip') (i_flags ip')
    (i_type ip) (i_major ip) (i_minor ip) (i_nlink ip)
    (i_ownerid (dinode_load d ip)) (i_groupid (dinode_load d ip)) (i_mode ip) (i_size ip) (i_addrs ip).
Proof.
  intros Hd [] Hn. unfold dinode_load, dinode_store. rewrite Hn. cbv zeta. cbn [i_ownerid i_groupid].
  set (o := dip_off (i_inum ip)). pose proof (dip_off_range (i_inum ip)) as Ho. fold o in Ho.
  f_equal; unfold get16, get32; skip_stores; try done.
  - by apply load_short; [len_tac|].
  - by apply load_short; [len_tac|].
  - by apply load_short; [len_tac|].
  - by apply load_short; [len_tac|].
  - by apply load_uint; [len_tac|].
  - by apply load_uint; [len_tac|].
  - apply get_put_addrs; [done|len_tac|done].
Qed.

(** Another inode of the block. *)
Lemma dinode_load_other ip ip' d :
  length d = 512%nat → length (i_addrs ip) = 11%nat → i_inum ip' mod IPB ≠ i_inum ip mod IPB →
  dinode_load (dinode_store ip d) ip' = dinode_load d ip'.
Proof.
  intros Hd Hl Hne. unfold dinode_load, dinode_store. cbv zeta.
  set (o := dip_off (i_inum ip)). set (o' := dip_off (i_inum ip')).
  pose proof (dip_off_range (i_inum ip)) as Ho. fold o in Ho.
  assert (Hdis : (o' + 64 ≤ o ∨ o + 64 ≤ o')%nat).
  { unfold o, o', dip_off, IPB, DINODE_SIZE, BSIZE in *. change (512 / 64) with 8 in *.
    pose proof (Z.mod_pos_bound (i_inum ip) 8 eq_refl). pose proof (Z.mod_pos_bound (i_inum ip') 8 eq_refl). lia. }
  f_equal; unfold get_addrs, get16, get32; skip_stores; try done.
  apply list_fmap_ext. intros j x Hx%lookup_seq. unfold get32. skip_stores. done.
Qed.

(** What [iupdate] stores for an inode is what [ilock] loads for it: the
    type, the device numbers, the link count, the mode, the size and the
    addresses come back, the owner and the group are those the disk had, and
    the other inodes of the block load as before. *)
Theorem dinode_roundtrip ip ip' d (Hd : length d = 512%nat) (Hr : inode_ranges ip) :
  (i_inum ip' = i_inum ip →
   dinode_load (dinode_store ip d) ip' =
   mkInode (i_dev ip') (i_inum ip') (i_ref ip') (i_flags ip')
     (i_type ip) (i_major ip) (i_minor ip) (i_nlink ip)
     (i_ownerid (dinode_load d ip)) (i_groupid (dinode_load d ip)) (i_mode ip) (i_size ip) (i_addrs ip)) ∧
  (i_inum ip' mod IPB ≠ i_inum ip mod IPB →
   dinode_load (dinode_store ip d) ip' = dinode_load d ip').
Proof.
  split; [by apply dinode_load_store|]. apply dinode_load_other; [done|apply Hr].
Qed.

Definition demo_inode : inode := mkInode 1 19 1 3 T_FILE 0 0 2 0 0 420 700 [61; 62; 0; 0; 0; 0; 0; 0; 0; 0; 0].

Lemma dinode_roundtrip_witness :
  i_size (dinode_load (dinode_store demo_inode zero_block) (set_i_size 0 demo_inode)) = 700.
Proof.
  destruct (dinode_roundtrip demo_inode (set_i_size 0 demo_inode) zero_block) as [H _].
  - reflexivity.
  - split; try reflexivity. repeat constructor.
  - rewrite H by reflexivity. reflexivity.
Defined.
