(* ===== verification/FsData.v ===== *)
(** * FsData: file contents, [bmap], [readi] and [writei] of kernel/fs.c

    A file is the sequence of bytes that its block map leads to.  [readi]
    returns a piece of that sequence, [writei] replaces one, allocating the
    blocks it needs, and neither touches a block that belongs to something
    else. *)

From stdpp Require Import prelude functions gmap strings.
From S2P Require Import Prelude Types Spinlock Sched Ide Bio Block Frame Log Fs Tx FsBlock FsDinode.
Open Scope Z_scope.

(** ** Free blocks *)

Definition nfree (start : Z) (v : Z → block) : Z :=
  Z.of_nat (length (filter (λ b, used v b = false) (seqZ 0 start))).

Lemma filter_first {A} (P : A → Prop) `{∀ x, Decision (P x)} (l : list A) :
  filter P l ≠ [] → ∃ i x, l !! i = Some x ∧ P x ∧ ∀ j y, (j < i)%nat → l !! j = Some y → ¬ P y.
Proof.
  induction l as [|a l IH]; [done|]. rewrite filter_cons. case_decide as Ha.
  - intros _. exists 0%nat, a. split; [done|]. split; [done|]. intros; lia.
  - intros (i & x & Hi & Hx & Hmin)%IH. exists (S i), x. split; [done|]. split; [done|].
    intros [|j] y Hj Hy; [by injection Hy as <-|]. apply (Hmin j); [lia|done].
Qed.

Lemma nfree_first start v : 1 ≤ nfree start v → ∃ b, first_free v b ∧ b < start.
Proof.
  intros Hn. destruct (filter_first (λ b, used v b = false) (seqZ 0 start)) as (i & x & Hi & Hx & Hmin).
  { intros He. unfold nfree in Hn. rewrite He in Hn. cbn in Hn. lia. }
  apply lookup_seqZ in Hi as [-> Hi]. exists (0 + Z.of_nat i). split; [|lia]. split; [lia|].
  split; [done|]. intros y Hy. destruct (used v y) eqn:Hu; [done|]. exfalso.
  apply (Hmin (Z.to_nat y) y); [lia| |done]. apply lookup_seqZ. lia.
Qed.

Lemma nfree_le start v v' : (∀ x, 0 ≤ x < start → used v' x = used v x) → nfree start v' = nfree start v.
Proof.
  intros Hu. unfold nfree. f_equal. f_equal.
  assert (Hl : Forall (λ x, 0 ≤ x < start) (seqZ 0 start)).
  { apply Forall_forall. intros x Hx. apply elem_of_seqZ in Hx. lia. }
  induction Hl as [|x l Hx _ IH]; [done|]. rewrite !filter_cons, (Hu x Hx), IH. done.
Qed.

(** An allocation uses up one. *)
Lemma filter_minus_one (P Q : Z → Prop) `{∀ x, Decision (P x)} `{∀ x, Decision (Q x)} b l :
  NoDup l → b ∈ l → P b → (∀ x, x ∈ l → Q x ↔ P x ∧ x ≠ b) →
  length (filter P l) = S (length (filter Q l)).
Proof.
  intros Hnd Hb HP HQ. induction Hnd as [|x l Hx Hnd IH]; [by apply not_elem_of_nil in Hb|].
  rewrite !filter_cons. apply elem_of_cons in Hb as [->|Hb].
  - rewrite decide_True by done. rewrite decide_False by (rewrite HQ by left; tauto). cbn. f_equal.
    clear IH. assert (HQ' : ∀ y, y ∈ l → Q y ↔ P y).
    { intros y Hy. rewrite HQ by (by right). split; [tauto|]. intros; split; [done|].
      by intros ->. }
    clear -HQ'. induction l as [|y l IH]; [done|]. rewrite !filter_cons.
    pose proof (HQ' y ltac:(left)).
    assert (IH' : length (filter P l) = length (filter Q l)) by (apply IH; intros; apply HQ'; by right).
    repeat case_decide; cbn; lia || tauto.
  - assert (x ≠ b) by (by intros ->). 
    assert (IH' : length (filter P l) = S (length (filter Q l))).
    { apply IH; [done|]. intros; apply HQ; by right. }
    pose proof (HQ x ltac:(left)). repeat case_decide; cbn; lia || tauto.
Qed.

Lemma nfree_alloc start v b : fs_geo start v → first_free v b → b < start →
  length (v (bitmap_block v)) = Z.to_nat BSIZE → start ≤ FSSIZE →
  nfree start v = nfree start (view_alloc v b) + 1.
Proof.
  intros Hg Hff Hb Hlen Hst. pose proof (first_free_data _ _ _ Hg Hff) as Hd. destruct Hff as (Hb0 & Hf & _).
  pose proof (fs_geo_bm _ _ Hg). unfold nfree.
  rewrite (filter_minus_one _ (λ x, used (view_alloc v b) x = false) b);
    [lia|apply NoDup_seqZ|apply elem_of_seqZ; lia|done|].
  intros x Hx%elem_of_seqZ. unfold FSSIZE in Hst.
  rewrite (used_alloc start) by (done || unfold BPB, BSIZE; lia).
  destruct (Z.eqb_spec x b) as [->|]; cbn [orb]; [split; [done|tauto]|tauto].
Qed.

(** ** The block map *)

Lemma MAXFILE_val : MAXFILE = 138.
Proof. done. Qed.

Definition addr_at (ip : inode) (n : Z) : Z := nth (Z.to_nat n) (i_addrs ip) 0.
Definition ind (ip : inode) : Z := addr_at ip NDIRECT.
(** The disk block of the file's block [bn]; 0 if there is none. *)
Definition addr_of (v : Z → block) (ip : inode) (bn : Z) : Z :=
  if bn <? NDIRECT then addr_at ip bn
  else if ind ip =? 0 then 0 else get32 (Z.to_nat (4 * (bn - NDIRECT))) (v (ind ip)).

Definition data_block (start : Z) (v : Z → block) (x : Z) : Prop :=
  bitmap_block v < x < start ∧ used v x = true.

(** The blocks of a file are data blocks in use, each for one purpose. *)
Record file_wf (start : Z) (v : Z → block) (ip : inode) : Prop := {
  fw_dev : i_dev ip = ROOTDEV;
  fw_len : length (i_addrs ip) = 11%nat;
  fw_ind : ind ip ≠ 0 → data_block start v (ind ip);
  fw_addr : ∀ bn, 0 ≤ bn < MAXFILE → addr_of v ip bn ≠ 0 →
    data_block start v (addr_of v ip bn) ∧ addr_of v ip bn ≠ ind ip;
  fw_inj : ∀ bn bn', 0 ≤ bn < MAXFILE → 0 ≤ bn' < MAXFILE → addr_of v ip bn ≠ 0 →
    addr_of v ip bn = addr_of v ip bn' → bn = bn'
}.

(** The blocks of a file. *)
Definition mine (v : Z → block) (ip : inode) (x : Z) : Prop :=
  x ≠ 0 ∧ (x = ind ip ∨ ∃ bn, 0 ≤ bn < MAXFILE ∧ addr_of v ip bn = x).

(** What [bmap] does to the file and to the rest of the disk: blocks may be
    added to the file; those it had stay as they are, and so does every block
    in use that is not the file's indirect block or the bitmap. *)
Record grows (v : Z → block) (ip : inode) (v' : Z → block) (ip' : inode) : Prop := {
  gr_ip : ip' = set_i_addrs (i_addrs ip') ip;
  gr_sb : v' 1 = v 1;
  gr_used : ∀ x, 0 ≤ x < FSSIZE → used v x = true → used v' x = true;
  gr_addr : ∀ bn, 0 ≤ bn < MAXFILE → addr_of v ip bn ≠ 0 →
    addr_of v' ip' bn = addr_of v ip bn ∧ v' (addr_of v ip bn) = v (addr_of v ip bn);
  gr_frame : ∀ x, 0 ≤ x < FSSIZE → used v x = true → x ≠ bitmap_block v → x ≠ ind ip → v' x = v x;
  gr_ind : ind ip' = ind ip ∨ ind ip = 0 ∧ 0 ≤ ind ip' < FSSIZE ∧ used v (ind ip') = false;
  gr_mine : ∀ x, 0 ≤ x < FSSIZE → used v x = true → mine v' ip' x → mine v ip x
}.

Lemma set_addrs_id ip : set_i_addrs (i_addrs ip) ip = ip.
Proof. by destruct ip. Qed.

Lemma grows_refl v ip : grows v ip v ip.
Proof. split; try done; [by rewrite set_addrs_id|by left]. Qed.

Lemma bitmap_block_eq v v' : v' 1 = v 1 → bitmap_block v' = bitmap_block v.
Proof. intros H. unfold bitmap_block, sbv. by rewrite H. Qed.

Lemma grows_trans v1 ip1 v2 ip2 v3 ip3 :
  grows v1 ip1 v2 ip2 → grows v2 ip2 v3 ip3 → grows v1 ip1 v3 ip3.
Proof.
  intros [] []. split.
  - rewrite gr_ip1. rewrite gr_ip0 at 1. done.
  - congruence.
  - auto.
  - intros bn Hbn Ha. destruct (gr_addr0 bn Hbn Ha) as [E1 E2].
    destruct (gr_addr1 bn Hbn) as [E3 E4]; [by rewrite E1|]. rewrite E1 in E3, E4. by rewrite E3, E4.
  - intros x Hx Hu Hb Hi. rewrite gr_frame1, gr_frame0; try done; auto.
    + by rewrite (bitmap_block_eq v1).
    + destruct gr_ind0 as [->|(_ & _ & Hu')]; [done|]. intros ->. congruence.
  - assert (Hun : 0 ≤ ind ip3 < FSSIZE → used v2 (ind ip3) = false → used v1 (ind ip3) = false).
    { intros Hr Hu. destruct (used v1 (ind ip3)) eqn:Hu1; [|done]. by rewrite gr_used0 in Hu. }
    destruct gr_ind0 as [E|(E & Hr & Hu)], gr_ind1 as [E'|(E' & Hr' & Hu')].
    + left. congruence.
    + right. split_and!; [congruence|lia..|auto].
    + right. rewrite E'. split_and!; [done|lia..|done].
    + right. split_and!; [done|lia..|auto].
  - auto.
Qed.

(** ** The three ways [bmap] adds a block *)

Section alloc.
Context (start : Z) (v : Z → block) (ip : inode) (b : Z).
Hypothesis (Hg : fs_geo start v) (Hst : start ≤ FSSIZE) (Hff : first_free v b) (Hb : b < start).
Hypothesis (Hlen : length (v (bitmap_block v)) = Z.to_nat BSIZE).
Hypothesis (Hwf : file_wf start v ip).

Let Hdata : bitmap_block v < b := first_free_data _ _ _ Hg Hff.
Let Hbm : 3 ≤ bitmap_block v := fs_geo_bm _ _ Hg.
Let Hfree : used v b = false := proj1 (proj2 Hff).

Lemma alloc_at x : x ≠ b → x ≠ bitmap_block v → view_alloc v b x = v x.
Proof. intros. unfold view_alloc. by rewrite !vupd_ne. Qed.
Lemma alloc_new : view_alloc v b b = zero_block.
Proof. apply vupd_eq. Qed.
Lemma alloc_sb : view_alloc v b 1 = v 1.
Proof. apply alloc_at; lia. Qed.
Lemma alloc_bm : bitmap_block (view_alloc v b) = bitmap_block v.
Proof. apply bitmap_block_eq, alloc_sb. Qed.
Lemma alloc_used x : 0 ≤ x < FSSIZE → used (view_alloc v b) x = (x =? b) || used v x.
Proof.
  intros Hx. unfold FSSIZE in *. apply (used_alloc start); try done; unfold BPB, BSIZE; lia.
Qed.
Lemma alloc_geo : fs_geo start (view_alloc v b).
Proof.
  split; unfold sbv; rewrite ?alloc_sb, ?alloc_bm; try apply Hg.
  intros x Hx. pose proof (g_bm _ _ Hg). rewrite alloc_used by lia.
  rewrite (g_meta _ _ Hg) by lia. apply orb_true_r.
Qed.
Lemma alloc_data x : data_block start v x → data_block start (view_alloc v b) x.
Proof.
  intros [Hx Hu]. split; [by rewrite alloc_bm|]. rewrite alloc_used, Hu by lia. apply orb_true_r.
Qed.
Lemma alloc_data_new : data_block start (view_alloc v b) b.
Proof.
  split; [rewrite alloc_bm; lia|]. rewrite alloc_used by lia. by rewrite Z.eqb_refl.
Qed.
Lemma data_ne x : data_block start v x → x ≠ b.
Proof. intros [_ Hu] ->. congruence. Qed.
Lemma data_keep x : data_block start v x → view_alloc v b x = v x.
Proof. intros Hx. apply alloc_at; [by apply data_ne|destruct Hx; lia]. Qed.

(** The new block belongs to no file yet. *)
Lemma addr_alloc bn : addr_of (view_alloc v b) ip bn = addr_of v ip bn.
Proof.
  unfold addr_of. case_match; [done|]. destruct (Z.eqb_spec (ind ip) 0) as [|Hi]; [done|].
  by rewrite data_keep by (by apply (fw_ind _ _ _ Hwf)).
Qed.
Lemma addr_ne bn : 0 ≤ bn < MAXFILE → addr_of v ip bn ≠ b.
Proof.
  intros Hbn Heq. assert (Hnz : addr_of v ip bn ≠ 0) by lia.
  destruct (fw_addr _ _ _ Hwf bn Hbn Hnz) as [Hd _]. by apply data_ne in Hd.
Qed.
Lemma ind_ne : ind ip ≠ b.
Proof. destruct (decide (ind ip = 0)) as [->|Hi]; [lia|]. by apply data_ne, (fw_ind _ _ _ Hwf). Qed.
End alloc.

Definition set_addr (n b : Z) (ip : inode) : inode :=
  set_i_addrs (<[Z.to_nat n := b]> (i_addrs ip)) ip.

Lemma addr_at_set ip n m b : length (i_addrs ip) = 11%nat → 0 ≤ n ≤ NDIRECT → 0 ≤ m →
  addr_at (set_addr n b ip) m = if decide (m = n) then b else addr_at ip m.
Proof.
  intros Hl Hn Hm. unfold addr_at, set_addr. cbn. rewrite !nth_lookup. unfold NDIRECT in Hn.
  case_decide as Heq.
  - subst m. rewrite list_lookup_insert_eq by lia. done.
  - rewrite list_lookup_insert_ne by lia. done.
Qed.
Lemma length_set_addr n b ip : length (i_addrs (set_addr n b ip)) = length (i_addrs ip).
Proof. cbn. apply length_insert. Qed.

Section add.
Context (start : Z) (v : Z → block) (ip : inode) (b : Z).
Hypothesis (Hg : fs_geo start v) (Hst : start ≤ FSSIZE) (Hff : first_free v b) (Hb : b < start).
Hypothesis (Hlen : length (v (bitmap_block v)) = Z.to_nat BSIZE).
Hypothesis (Hwf : file_wf start v ip).
Context (v' : Z → block) (ip' : inode).
Hypothesis (Hip : ip' = set_i_addrs (i_addrs ip') ip) (Hl : length (i_addrs ip') = 11%nat).
Hypothesis (Hdb : ∀ x, data_block start v x → data_block start v' x) (Hnew : data_block start v' b).

Let Hfree : used v b = false := proj1 (proj2 Hff).

Lemma wf_dev : i_dev ip' = ROOTDEV.
Proof. rewrite Hip. apply (fw_dev _ _ _ Hwf). Qed.

(** The new block as the file's block [bn]. *)
Lemma wf_add bn :
  ind ip' = ind ip → addr_of v ip bn = 0 →
  (∀ m, 0 ≤ m < MAXFILE → addr_of v' ip' m = if decide (m = bn) then b else addr_of v ip m) →
  file_wf start v' ip'.
Proof.
  intros Hi Hz Ha. assert (Hine : ind ip ≠ b) by (by eapply (ind_ne start)).
  assert (Hane : ∀ m, 0 ≤ m < MAXFILE → addr_of v ip m ≠ b) by (intros; by eapply (addr_ne start)). split.
  - apply wf_dev.
  - done.
  - rewrite Hi. intros Hnz. by apply Hdb, (fw_ind _ _ _ Hwf).
  - intros m Hm. rewrite Ha, Hi by done. case_decide; [done|]. intros Hnz.
    destruct (fw_addr _ _ _ Hwf m Hm Hnz). auto.
  - intros m m' Hm Hm'. rewrite !Ha by done.
    pose proof (Hane m Hm). pose proof (Hane m' Hm').
    repeat case_decide; try congruence. by apply (fw_inj _ _ _ Hwf).
Qed.

(** The new block as the file's indirect block. *)
Lemma wf_add_ind :
  ind ip' = b → (∀ m, 0 ≤ m < MAXFILE → addr_of v' ip' m = addr_of v ip m) →
  file_wf start v' ip'.
Proof.
  intros Hi Ha. split.
  - apply wf_dev.
  - done.
  - by rewrite Hi.
  - intros m Hm. rewrite Ha, Hi by done. intros Hnz.
    destruct (fw_addr _ _ _ Hwf m Hm Hnz). split; [auto|]. by eapply (addr_ne start).
  - intros m m' Hm Hm'. rewrite !Ha by done. by apply (fw_inj _ _ _ Hwf).
Qed.

Lemma grows_add :
  v' 1 = v 1 →
  (∀ x, 0 ≤ x < FSSIZE → used v x = true → used v' x = true) →
  (∀ m, 0 ≤ m < MAXFILE → addr_of v ip m ≠ 0 → addr_of v' ip' m = addr_of v ip m) →
  (∀ x, x ≠ b → x ≠ bitmap_block v → x ≠ ind ip → v' x = v x) →
  (ind ip' = ind ip ∨ ind ip = 0 ∧ ind ip' = b) →
  (∀ m, 0 ≤ m < MAXFILE → addr_of v' ip' m = addr_of v ip m ∨ addr_of v' ip' m = b) →
  grows v ip v' ip'.
Proof.
  intros Hsb Hu Ha Hx Hi Hnb. split; try done.
  - intros m Hm Hnz. split; [by apply Ha|].
    destruct (fw_addr _ _ _ Hwf m Hm Hnz) as [[Hr Hum] Hne]. apply Hx; [congruence|lia|done].
  - intros x Hxr Hux Hb' Hi'. apply Hx; congruence.
  - destruct Hi as [|[? ->]]; [by left|right]. pose proof (first_free_data _ _ _ Hg Hff).
    pose proof (fs_geo_bm _ _ Hg). split_and!; [done|lia|lia|done].
  - intros x Hxr Hux [Hnz [Hxi|(bn & Hbn & Hxa)]]; (split; [done|]).
    + destruct Hi as [Hi|[_ Hi]]; [left; congruence|congruence].
    + right. exists bn. split; [done|]. destruct (Hnb bn Hbn); congruence.
Qed.
End add.

Section steps.
Context (start : Z) (v : Z → block) (ip : inode) (b : Z).
Hypothesis (Hg : fs_geo start v) (Hst : start ≤ FSSIZE) (Hff : first_free v b) (Hb : b < start).
Hypothesis (Hlen : ∀ x, length (v x) = Z.to_nat BSIZE).
Hypothesis (Hwf : file_wf start v ip).

Let va := view_alloc v b.
Let Hva x : x ≠ b → x ≠ bitmap_block v → va x = v x := alloc_at v b x.
Let Hused x : 0 ≤ x < FSSIZE → used va x = (x =? b) || used v x :=
  alloc_used start v b Hg Hst Hff Hb (Hlen _) x.

Lemma step_data x : data_block start v x → data_block start va x.
Proof. by apply (alloc_data start). Qed.
Lemma step_new : data_block start va b.
Proof. by apply (alloc_data_new start). Qed.
Lemma step_sb : va 1 = v 1.
Proof. by apply (alloc_sb start). Qed.
Lemma step_used x : 0 ≤ x < FSSIZE → used v x = true → used va x = true.
Proof. intros Hx Hu. rewrite Hused, Hu by done. apply orb_true_r. Qed.
Lemma step_addr m : addr_of va ip m = addr_of v ip m.
Proof. by eapply (addr_alloc start). Qed.

Lemma grow_direct bn : 0 ≤ bn < NDIRECT → addr_at ip bn = 0 →
  file_wf start va (set_addr bn b ip) ∧ grows v ip va (set_addr bn b ip) ∧
  addr_of va (set_addr bn b ip) bn = b.
Proof.
  intros Hbn Hz. unfold NDIRECT in *. pose proof (fw_len _ _ _ Hwf) as Hl.
  assert (Hi : ind (set_addr bn b ip) = ind ip).
  { unfold ind. rewrite addr_at_set by (done || unfold NDIRECT in *; lia).
    rewrite decide_False; [done|]. unfold NDIRECT. lia. }
  assert (Ha : ∀ m, 0 ≤ m < MAXFILE →
    addr_of va (set_addr bn b ip) m = if decide (m = bn) then b else addr_of v ip m).
  { intros m Hm. assert (Haa : addr_of va ip m = addr_of v ip m) by (by eapply (addr_alloc start)).
    rewrite <-Haa. unfold addr_of.
    rewrite Hi, addr_at_set by (done || unfold NDIRECT; lia). unfold NDIRECT.
    destruct (Z.ltb_spec m 10); [done|]. rewrite decide_False by lia. done. }
  assert (Hz' : addr_of v ip bn = 0) by (unfold addr_of, NDIRECT; by rewrite (proj2 (Z.ltb_lt _ _)) by lia).
  assert (Hl' : length (i_addrs (set_addr bn b ip)) = 11%nat) by (by rewrite length_set_addr).
  pose proof step_data as Hdb. pose proof step_new as Hnew. split_and!.
  - by eapply (wf_add start v ip b).
  - eapply (grows_add start v ip b); try done.
    + apply step_sb.
    + apply step_used.
    + intros m Hm Hnz. rewrite Ha by done. rewrite decide_False; [done|]. congruence.
    + intros x ? ? ?. by apply Hva.
    + by left.
    + intros m Hm. rewrite Ha by done. case_decide; auto.
  - rewrite Ha by (rewrite MAXFILE_val; lia). by rewrite decide_True.
Qed.

Lemma get32_zero_block o : get32 o zero_block = 0.
Proof.
  unfold get32, bslice. assert (H : ∀ l, (∀ x, x ∈ l → x = 0) → le_get l = 0).
  { induction l as [|x l IH]; [done|]. intros Hl. cbn [le_get].
    rewrite (Hl x) by left. rewrite IH; [done|]. intros y Hy. apply Hl. by right. }
  apply H. intros x Hx. apply elem_of_take in Hx as (i & Hx & _). rewrite lookup_drop in Hx.
  by apply lookup_replicate in Hx as [-> _].
Qed.

Lemma grow_ind : ind ip = 0 →
  file_wf start va (set_addr NDIRECT b ip) ∧ grows v ip va (set_addr NDIRECT b ip) ∧
  ind (set_addr NDIRECT b ip) = b ∧
  (∀ m, 0 ≤ m < MAXFILE → addr_of va (set_addr NDIRECT b ip) m = addr_of v ip m).
Proof.
  intros Hz. pose proof (fw_len _ _ _ Hwf) as Hl.
  assert (Hi : ind (set_addr NDIRECT b ip) = b).
  { unfold ind. rewrite addr_at_set by (done || unfold NDIRECT in *; lia). by rewrite decide_True. }
  assert (Ha : ∀ m, 0 ≤ m < MAXFILE → addr_of va (set_addr NDIRECT b ip) m = addr_of v ip m).
  { intros m Hm. unfold addr_of. rewrite Hi, Hz, addr_at_set by (done || unfold NDIRECT; lia).
    destruct (Z.ltb_spec m NDIRECT); [by rewrite decide_False by lia|]. cbn [Z.eqb].
    unfold va. rewrite alloc_new, get32_zero_block. by case_match. }
  assert (Hl' : length (i_addrs (set_addr NDIRECT b ip)) = 11%nat) by (by rewrite length_set_addr).
  pose proof step_data as Hdb. pose proof step_new as Hnew. split_and!; [|..|done|done].
  - by eapply (wf_add_ind start v ip b).
  - eapply (grows_add start v ip b); try done.
    + apply step_sb.
    + apply step_used.
    + auto.
    + intros x ? ? ?. by apply Hva.
    + by right.
    + auto.
Qed.

(** The entry of the indirect block. *)
Definition view_entry (bn : Z) : Z → block :=
  vupd va (ind ip) (put32 (Z.to_nat (4 * (bn - NDIRECT))) b (va (ind ip))).

Lemma grow_entry bn : ind ip ≠ 0 → NDIRECT ≤ bn < MAXFILE → addr_of v ip bn = 0 →
  file_wf start (view_entry bn) ip ∧ grows v ip (view_entry bn) ip ∧
  addr_of (view_entry bn) ip bn = b ∧ view_entry bn b = zero_block.
Proof.
  intros Hi Hbn Hz. pose proof (fw_ind _ _ _ Hwf Hi) as [Hir Hiu].
  pose proof (first_free_data _ _ _ Hg Hff) as Hd. pose proof (fs_geo_bm _ _ Hg) as H3.
  assert (Hib : ind ip ≠ b) by (by eapply (ind_ne start)).
  assert (Hlen' : length (va (ind ip)) = Z.to_nat BSIZE).
  { rewrite Hva by (done || lia). apply Hlen. }
  rewrite MAXFILE_val in Hbn. unfold NDIRECT in Hbn.
  assert (Ha : ∀ m, 0 ≤ m < MAXFILE →
    addr_of (view_entry bn) ip m = if decide (m = bn) then b else addr_of v ip m).
  { intros m Hm. rewrite <-step_addr. unfold addr_of, view_entry. rewrite vupd_eq.
    rewrite MAXFILE_val in Hm. unfold NDIRECT.
    destruct (Z.ltb_spec m 10); [by rewrite decide_False by lia|].
    rewrite (proj2 (Z.eqb_neq _ _)) by done. case_decide as Hmb.
    - subst m. rewrite get_put32 by (rewrite Hlen'; unfold BSIZE; lia). apply u32_small. unfold FSSIZE in *. lia.
    - apply get_put32_ne; [rewrite Hlen'; unfold BSIZE; lia|lia]. }
  assert (Hbm : bitmap_block (view_entry bn) = bitmap_block v).
  { rewrite <-(bitmap_block_eq v va) by apply step_sb. apply bitmap_block_eq.
    unfold view_entry. rewrite vupd_ne; [done|lia]. }
  assert (Hus : ∀ x, used (view_entry bn) x = used va x).
  { intros x. unfold view_entry. apply used_ne; [lia|]. rewrite (bitmap_block_eq v va) by apply step_sb. lia. }
  assert (Hdb : ∀ x, data_block start va x → data_block start (view_entry bn) x).
  { intros x [Hx Hu]. split; [|by rewrite Hus]. rewrite Hbm.
    by rewrite (bitmap_block_eq v va) in Hx by apply step_sb. }
  pose proof step_data as Hdb1. pose proof (Hdb b step_new) as Hnew. pose proof (fw_len _ _ _ Hwf) as Hl.
  assert (Hidp : ip = set_i_addrs (i_addrs ip) ip) by (by rewrite set_addrs_id). split_and!.
  - eapply (wf_add start v ip b); try done. auto.
  - eapply (grows_add start v ip b); try done; auto.
    + unfold view_entry. rewrite vupd_ne by lia. apply step_sb.
    + intros x Hx Hu. rewrite Hus. by apply step_used.
    + intros m Hm Hnz. rewrite Ha by done. rewrite decide_False; [done|]. congruence.
    + intros x ? ? ?. unfold view_entry. rewrite vupd_ne by done. by apply Hva.
    + intros m Hm. rewrite Ha by done. case_decide; auto.
  - rewrite Ha by (rewrite MAXFILE_val; lia). by rewrite decide_True.
  - unfold view_entry. rewrite vupd_ne by congruence. apply alloc_new.
Qed.
End steps.

(** ** Changes of other blocks *)

Lemma fs_geo_upd st v x d : fs_geo st v → x ≠ 1 → x ≠ bitmap_block v → fs_geo st (vupd v x d).
Proof.
  intros [] H1 Hb. split; rewrite ?sbv_ne, ?bitmap_block_ne by done; try done.
  intros y Hy. rewrite used_ne by done. auto.
Qed.

Lemma data_block_upd st v x d y : x ≠ 1 → x ≠ bitmap_block v →
  data_block st v y → data_block st (vupd v x d) y.
Proof. intros H1 Hb [Hy Hu]. split; [by rewrite bitmap_block_ne|by rewrite used_ne]. Qed.

Lemma addr_of_upd v ip x d bn : x ≠ ind ip → addr_of (vupd v x d) ip bn = addr_of v ip bn.
Proof. intros. unfold addr_of. by rewrite vupd_ne. Qed.

Lemma file_wf_upd st v ip x d : file_wf st v ip → x ≠ 1 → x ≠ bitmap_block v → x ≠ ind ip →
  file_wf st (vupd v x d) ip.
Proof.
  intros [] H1 Hb Hi. split; try done.
  - intros Hnz. apply data_block_upd; auto.
  - intros bn Hbn. rewrite addr_of_upd by done. intros Hnz.
    destruct (fw_addr0 bn Hbn Hnz). split; [by apply data_block_upd|done].
  - intros bn bn' Hbn Hbn'. rewrite !addr_of_upd by done. auto.
Qed.

(** ** [bmap] *)

(** Only inode [i] differs, and what the block layer and the log change. *)
Definition iframe (i : nat) (k k' : kernel) : Prop :=
  (∀ j, j ≠ i → k_ic k' !! j = k_ic k !! j) ∧ tframe (set_ic (k_ic k') k) k'.

#[global] Instance iframe_preorder i : PreOrder (iframe i).
Proof.
  split.
  - intros k. split; [done|]. by destruct k.
  - intros k1 k2 k3 [H1 [H2 H2']] [H3 [H4 H4']]. split.
    + intros j Hj. by rewrite H3, H1.
    + destruct H2 as (?&?&?&?&?&?&?&?), H4 as (?&?&?&?&?&?&?&?). cbn in *.
      split; [|cbn; congruence]. split_and!; cbn; [by etrans|congruence..].
Qed.
Lemma tframe_iframe i k k' : tframe k k' → iframe i k k'.
Proof.
  intros Hf. pose proof (tframe_ic _ _ Hf) as Hic. split; [by rewrite Hic|].
  rewrite Hic. by destruct k.
Qed.

Record finv (E : string → Prop) (p : nat) (st n m : Z) (H : list (nat * Z)) (v : Z → block)
    (i : nat) (ip : inode) (k : kernel) : Prop := {
  fi_t : tinv E p n H v k;
  fi_st : log_start (k_log k) = st;
  fi_le : st ≤ FSSIZE;
  fi_geo : fs_geo st v;
  fi_free : 0 ≤ m ≤ nfree st v;
  fi_ip : k_ic k !! i = Some ip;
  fi_wf : file_wf st v ip
}.

Lemma tinv_set_ic E p n H v k l : tinv E p n H v k → tinv E p n H v (set_ic l k).
Proof.
  intros (a & [Hr Hb] & Hrest). exists a. split; [|exact Hrest]. split; [exact Hr|].
  by eapply bdat_ext; [..|exact Hb].
Qed.

Section bmap.
Context (E : string → Prop) (p : nat) (st : Z) (i : nat).
Implicit Types (v : Z → block) (ip : inode).

Lemma wp_getinode ip k (Q : inode → kernel → Prop) : k_ic k !! i = Some ip → Q ip k → wp (getinode i) E Q k.
Proof. intros Hi HQ. unfold getinode. wp_steps. rewrite Hi. by apply (wp_need _ ip). Qed.

Lemma wp_updinode ip f k (Q : unit → kernel → Prop) : k_ic k !! i = Some ip →
  Q tt (set_ic (<[i := f ip]> (k_ic k)) k) → wp (updinode i f) E Q k.
Proof.
  intros Hi HQ. unfold updinode. wp_steps. eapply wp_getinode; [done|]. wp_steps.
  by rewrite (alter_to_insert _ _ _ ip).
Qed.

Lemma wp_getaddr ip bn k (Q : Z → kernel → Prop) : k_ic k !! i = Some ip →
  length (i_addrs ip) = 11%nat → 0 ≤ bn ≤ NDIRECT → Q (addr_at ip bn) k → wp (getaddr i bn) E Q k.
Proof.
  intros Hi Hl Hbn HQ. unfold getaddr. wp_steps. eapply wp_getinode; [done|].
  unfold NDIRECT in Hbn. destruct (lookup_lt_is_Some_2 (i_addrs ip) (Z.to_nat bn)) as [x Hx]; [lia|].
  rewrite Hx. apply (wp_need _ x); [done|]. unfold addr_at in HQ. by rewrite nth_lookup, Hx in HQ.
Qed.

Lemma finv_frame n m H v ip k n' H' k' :
  finv E p st n m H v i ip k → tinv E p n' H' v k' → tframe k k' → finv E p st n' m H' v i ip k'.
Proof.
  intros [] Ht Hf. split; try done.
  - by rewrite (tframe_start _ _ Hf).
  - by rewrite (tframe_ic _ _ Hf).
Qed.

Lemma finv_weaken n n' m m' H v ip k :
  finv E p st n m H v i ip k → 0 ≤ n' ≤ n → 0 ≤ m' ≤ m → finv E p st n' m' H v i ip k.
Proof. intros [] Hn Hm. split; try done; [by eapply tinv_weaken|lia]. Qed.

Lemma finv_len n m H v ip k x : finv E p st n m H v i ip k → length (v x) = Z.to_nat BSIZE.
Proof. intros []. by eapply tinv_len. Qed.

(** A block for the file. *)
Lemma f_balloc n m H v ip k (Q : Z → kernel → Prop) :
  finv E p st n m H v i ip k → 2 ≤ n → 1 ≤ m → (length H ≤ 2)%nat →
  (∀ x, x ∈ H.*2 → data_block st v x) →
  (∀ b k', first_free v b → b < st → tinv E p (n - 2) H (view_alloc v b) k' → tframe k k' →
     fs_geo st (view_alloc v b) → m - 1 ≤ nfree st (view_alloc v b) → Q b k') →
  wp (balloc ROOTDEV) E Q k.
Proof.
  intros Hf Hn Hm HlH HH HQ. pose proof Hf as [Ht Hs Hle Hg Hfr _ _].
  destruct (nfree_first st v) as (b & Hff & Hb); [lia|].
  pose proof (first_free_data _ _ _ Hg Hff). pose proof (fs_geo_bm _ _ Hg).
  pose proof (finv_len _ _ _ _ _ _ (bitmap_block v) Hf) as Hlen.
  eapply t_balloc; [exact Ht|done|by rewrite Hs|exact Hff|by rewrite Hs|..|done|].
  - intros Hx. apply HH in Hx as [? _]. lia.
  - intros Hx. apply HH in Hx as [? _]. lia.
  - intros Hx. apply HH in Hx as [_ Hu]. destruct Hff as (_ & Hu' & _). congruence.
  - intros k' Ht' Hfr'. apply HQ; try done; [by apply alloc_geo|].
    rewrite (nfree_alloc st v b) in Hfr by done. lia.
Qed.

(** The store of a new address. *)
Lemma f_setaddr n m H v v' ip bn b k (Q : unit → kernel → Prop) :
  tinv E p n H v' k → log_start (k_log k) = st → k_ic k !! i = Some ip → st ≤ FSSIZE → fs_geo st v' →
  0 ≤ m ≤ nfree st v' → file_wf st v' (set_addr bn b ip) → grows v ip v' (set_addr bn b ip) →
  (∀ k', finv E p st n m H v' i (set_addr bn b ip) k' → iframe i k k' → Q tt k') →
  wp (setaddr i bn b) E Q k.
Proof.
  intros Ht Hs Hi Hle Hg Hm Hwf Hgr HQ. unfold setaddr. eapply wp_updinode; [exact Hi|].
  apply HQ.
  - split; try done; [by apply tinv_set_ic|]. cbn. apply list_lookup_insert_eq. by eapply lookup_lt_Some.
  - split; [|done]. intros j Hj. cbn. by rewrite list_lookup_insert_ne.
Qed.

(** What [bmap] gives its caller for block [bn]. *)
Definition bmapped (n m : Z) (v : Z → block) (ip : inode) (bn : Z) (k : kernel) (Q : Z → kernel → Prop) : Prop :=
  ∀ a v' ip' k', finv E p st n m [] v' i ip' k' → grows v ip v' ip' →
    addr_of v' ip' bn = a → a ≠ 0 → (addr_of v ip bn = 0 → v' a = zero_block) → iframe i k k' → Q a k'.

Lemma data_block_nz v x : fs_geo st v → data_block st v x → 3 < x < st.
Proof. intros Hg [Hx _]. pose proof (fs_geo_bm _ _ Hg). lia. Qed.

Lemma t_bmap_direct n m v ip bn k (Q : Z → kernel → Prop) :
  finv E p st n m [] v i ip k → 2 ≤ n → 1 ≤ m → 0 ≤ bn < NDIRECT →
  bmapped (n - 2) (m - 1) v ip bn k Q → wp (bmap i bn) E Q k.
Proof.
  intros Hf Hn Hm Hbn HQ. unfold bmap. wp_steps.
  eapply wp_getinode; [apply Hf|]. rewrite (proj2 (Z.ltb_lt _ _)) by lia. wp_steps.
  eapply (wp_getaddr ip); [apply Hf|apply (fw_len st v), Hf|unfold NDIRECT in *; lia|].
  assert (Ha : addr_of v ip bn = addr_at ip bn).
  { unfold addr_of. by rewrite (proj2 (Z.ltb_lt _ _)) by lia. }
  destruct (Z.eqb_spec (addr_at ip bn) 0) as [Hz|Hz]; wp_steps.
  2:{ apply (HQ _ v ip); [by eapply finv_weaken; [exact Hf|lia..]|apply grows_refl|done|done|congruence|done]. }
  rewrite (fw_dev _ _ _ (fi_wf _ _ _ _ _ _ _ _ _ _ Hf)).
  eapply f_balloc; [exact Hf|done|done|cbn; lia|by intros x ?%not_elem_of_nil|].
  intros b k1 Hff Hb Ht1 Hf1 Hg1 Hnf1. wp_steps.
  pose proof Hf as [Ht Hs Hle Hg Hfr Hip Hwf].
  assert (Hlen : ∀ x, length (v x) = Z.to_nat BSIZE) by (intros x; by eapply finv_len).
  destruct (grow_direct st v ip b Hg Hle Hff Hb Hlen Hwf bn Hbn Hz) as (Hwf' & Hgr & Hab).
  eapply (f_setaddr _ (m - 1) [] v); [exact Ht1| | | |exact Hg1| |exact Hwf'|exact Hgr|].
  { by rewrite (tframe_start _ _ Hf1). }
  { by rewrite (tframe_ic _ _ Hf1). }
  { done. }
  { lia. }
  intros k2 Hf2 Hi2. wp_steps. eapply HQ; [exact Hf2|exact Hgr|done| | |].
  - pose proof (first_free_data _ _ _ Hg Hff). pose proof (fs_geo_bm _ _ Hg). lia.
  - intros _. apply alloc_new.
  - by rewrite <-Hi2; apply tframe_iframe.
Qed.

(** The indirect block is there, or is allocated. *)
Definition get_ind : K Z :=
  addr ← getaddr i NDIRECT;
  if addr =? 0 then
    addr ← balloc ROOTDEV;
    setaddr i NDIRECT addr;;
    mret addr
  else mret addr.

Lemma t_get_ind n m v ip k (Q : Z → kernel → Prop) :
  finv E p st n m [] v i ip k → 2 ≤ n → 1 ≤ m →
  (∀ v' ip' k', finv E p st (n - 2) (m - 1) [] v' i ip' k' → grows v ip v' ip' → ind ip' ≠ 0 →
     (∀ bn, 0 ≤ bn < MAXFILE → addr_of v' ip' bn = addr_of v ip bn) → iframe i k k' → Q (ind ip') k') →
  wp get_ind E Q k.
Proof.
  intros Hf Hn Hm HQ. unfold get_ind. wp_steps.
  eapply (wp_getaddr ip); [apply Hf|apply (fw_len st v), Hf|unfold NDIRECT in *; lia|]. fold (ind ip).
  destruct (Z.eqb_spec (ind ip) 0) as [Hz|Hz]; wp_steps.
  2:{ apply (HQ v ip); [by eapply finv_weaken; [exact Hf|lia..]|apply grows_refl|done|done|done]. }
  eapply f_balloc; [exact Hf|done|done|cbn; lia|by intros x ?%not_elem_of_nil|].
  intros b k1 Hff Hb Ht1 Hf1 Hg1 Hnf1. wp_steps.
  pose proof Hf as [Ht Hs Hle Hg Hfr Hip Hwf].
  assert (Hlen : ∀ x, length (v x) = Z.to_nat BSIZE) by (intros x; by eapply finv_len).
  destruct (grow_ind st v ip b Hg Hle Hff Hb Hlen Hwf Hz) as (Hwf' & Hgr & Hib & Ha).
  eapply (f_setaddr _ (m - 1) [] v); [exact Ht1| | |done|exact Hg1|lia|exact Hwf'|exact Hgr|].
  { by rewrite (tframe_start _ _ Hf1). }
  { by rewrite (tframe_ic _ _ Hf1). }
  intros k2 Hf2 Hi2. wp_steps. rewrite <-Hib. eapply HQ; [exact Hf2|exact Hgr| |exact Ha|].
  - rewrite Hib. pose proof (first_free_data _ _ _ Hg Hff). pose proof (fs_geo_bm _ _ Hg). lia.
  - by rewrite <-Hi2; apply tframe_iframe.
Qed.

(** The entry of the indirect block is there, or is allocated. *)
Definition get_entry (addr bn : Z) : K Z :=
  bp ← bread ROOTDEV addr;
  bf ← getbuf bp;
  let addr := get32 (Z.to_nat (4 * bn)) (b_data bf) in
  addr ← (if addr =? 0 then
            addr ← balloc ROOTDEV;
            upddata bp (put32 (Z.to_nat (4 * bn)) addr);;
            log_write bp;;
            mret addr
          else mret addr);
  brelse bp;;
  mret addr.

Lemma t_get_entry n m v ip bn k (Q : Z → kernel → Prop) :
  finv E p st n m [] v i ip k → 3 ≤ n → 1 ≤ m → ind ip ≠ 0 → NDIRECT ≤ bn < MAXFILE →
  bmapped (n - 3) (m - 1) v ip bn k Q → wp (get_entry (ind ip) (bn - NDIRECT)) E Q k.
Proof.
  intros Hf Hn Hm Hi Hbn HQ. unfold get_entry. wp_steps.
  pose proof Hf as [Ht Hs Hle Hg Hfr Hip Hwf]. pose proof (fw_ind _ _ _ Hwf Hi) as Hid.
  pose proof (data_block_nz _ _ Hg Hid) as Hir.
  eapply t_bread; [exact Ht|lia|apply not_elem_of_nil|cbn; lia|]. intros bp k1 Ht1 Hf1. wp_steps.
  eapply t_getbuf; [exact Ht1|left|]. intros bf Hd. rewrite Hd. cbv zeta. wp_steps.
  assert (Ha : addr_of v ip bn = get32 (Z.to_nat (4 * (bn - NDIRECT))) (v (ind ip))).
  { unfold addr_of. rewrite (proj2 (Z.ltb_ge _ _)) by lia. by rewrite (proj2 (Z.eqb_neq _ _)). }
  rewrite <-Ha. pose proof (finv_frame _ _ _ _ _ _ _ _ _ Hf Ht1 Hf1) as Hf'.
  destruct (Z.eqb_spec (addr_of v ip bn) 0) as [Hz|Hz]; wp_steps.
  2:{ eapply t_brelse1; [exact Ht1|]. intros k2 Ht2 Hf2. wp_steps.
      apply (HQ _ v ip); [|apply grows_refl|done|done|congruence|].
      - eapply finv_weaken; [eapply finv_frame; [exact Hf'|exact Ht2|exact Hf2]|lia..].
      - rewrite <-(tframe_iframe i _ _ Hf2). by apply tframe_iframe. }
  eapply f_balloc; [exact Hf'|lia|done|cbn; lia|by intros x ->%list_elem_of_singleton|].
  intros b k2 Hff Hb Ht2 Hf2 Hg2 Hnf2. wp_steps.
  assert (Hlen : ∀ x, length (v x) = Z.to_nat BSIZE) by (intros x; by eapply finv_len).
  destruct (grow_entry st v ip b Hg Hle Hff Hb Hlen Hwf bn Hi Hbn Hz) as (Hwf' & Hgr & Hab & Hzb).
  assert (Hf12 : tframe k k2) by (by rewrite Hf1).
  rewrite MAXFILE_val in Hbn. unfold NDIRECT in Hbn.
  eapply t_update; [exact Ht2|lia|left| | |].
  { rewrite (tframe_start _ _ Hf12), Hs. lia. }
  { rewrite length_put32; rewrite (tinv_len _ _ _ _ _ _ _ Ht2); [done|unfold NDIRECT, BSIZE; lia]. }
  intros k3 Ht3 Hf3. fold (view_entry v ip b bn) in Ht3. wp_steps.
  eapply t_brelse1; [exact Ht3|]. intros k4 Ht4 Hf4. wp_steps.
  assert (Hf14 : tframe k k4) by (by rewrite Hf12, Hf3).
  eapply (HQ b (view_entry v ip b bn) ip); [|exact Hgr|exact Hab| |by intros _|by apply tframe_iframe].
  - pose proof (first_free_data _ _ _ Hg Hff). pose proof (fs_geo_bm _ _ Hg).
    assert (Hbm : bitmap_block (view_alloc v b) = bitmap_block v) by (by apply (alloc_bm st)).
    assert (Huse : ∀ x, used (view_entry v ip b bn) x = used (view_alloc v b) x).
    { intros x. unfold view_entry. apply used_ne; [lia|]. rewrite Hbm. destruct Hid. lia. }
    split.
    + eapply tinv_weaken; [exact Ht4|lia].
    + by rewrite (tframe_start _ _ Hf14).
    + done.
    + unfold view_entry. apply fs_geo_upd; [done|lia|]. rewrite Hbm. destruct Hid. lia.
    + rewrite (nfree_le st (view_alloc v b)); [lia|]. intros x _. apply Huse.
    + by rewrite (tframe_ic _ _ Hf14).
    + done.
  - pose proof (first_free_data _ _ _ Hg Hff). pose proof (fs_geo_bm _ _ Hg). lia.
Qed.

Lemma bmap_indirect_eq bn k ip : k_ic k !! i = Some ip → i_dev ip = ROOTDEV →
  NDIRECT ≤ bn < MAXFILE →
  bmap i bn k = (addr ← get_ind; get_entry addr (bn - NDIRECT)) k.
Proof.
  intros Hi Hd Hbn. unfold bmap. rewrite (bind_run _ _ ip k k).
  2:{ unfold getinode, get, mbind, M_bind, need. by rewrite Hi. }
  rewrite (proj2 (Z.ltb_ge _ _)) by lia. cbv zeta. rewrite MAXFILE_val in Hbn. unfold NDIRECT in Hbn.
  rewrite (proj2 (Z.ltb_lt _ _)) by (unfold NDIRECT; change NINDIRECT with 128; lia).
  rewrite Hd. unfold get_ind. unfold mbind, M_bind.
  destruct (getaddr i NDIRECT k); done.
Qed.

(** [bmap]: at most five blocks are logged and two allocated. *)
Lemma t_bmap n m v ip bn k (Q : Z → kernel → Prop) :
  finv E p st n m [] v i ip k → 5 ≤ n → 2 ≤ m → 0 ≤ bn < MAXFILE →
  bmapped (n - 5) (m - 2) v ip bn k Q → wp (bmap i bn) E Q k.
Proof.
  intros Hf Hn Hm Hbn HQ. destruct (decide (bn < NDIRECT)).
  { eapply t_bmap_direct; [exact Hf|lia|lia|lia|].
    intros a v' ip' k' Hf' Hgr Ha Hnz Hz Hfr. eapply HQ; try done. by eapply finv_weaken; [exact Hf'|lia..]. }
  eapply wp_eq; [eapply bmap_indirect_eq; [apply Hf|apply (fw_dev st v), Hf|lia]|]. wp_steps.
  eapply t_get_ind; [exact Hf|lia|lia|]. intros v1 ip1 k1 Hf1 Hgr1 Hi1 Ha1 Hfr1.
  eapply t_get_entry; [exact Hf1|lia|lia|done|lia|].
  intros a v' ip' k' Hf' Hgr Ha Hnz Hz Hfr. eapply HQ; [|by eapply grows_trans|done|done| |by rewrite Hfr1].
  - by eapply finv_weaken; [exact Hf'|lia..].
  - intros Hz0. apply Hz. by rewrite Ha1.
Qed.

(** A block that the file has is found without any change. *)
Lemma t_bmap_found n m v ip bn k (Q : Z → kernel → Prop) :
  finv E p st n m [] v i ip k → 0 ≤ bn < MAXFILE → addr_of v ip bn ≠ 0 →
  (∀ k', finv E p st n m [] v i ip k' → tframe k k' → Q (addr_of v ip bn) k') →
  wp (bmap i bn) E Q k.
Proof.
  intros Hf Hbn Hnz HQ. pose proof Hf as [Ht Hs Hle Hg Hfr Hip Hwf]. destruct (decide (bn < NDIRECT)).
  { unfold bmap. wp_steps. eapply wp_getinode; [done|]. rewrite (proj2 (Z.ltb_lt _ _)) by lia. wp_steps.
    eapply (wp_getaddr ip); [done|apply Hwf|unfold NDIRECT in *; lia|].
    assert (Ha : addr_of v ip bn = addr_at ip bn).
    { unfold addr_of. by rewrite (proj2 (Z.ltb_lt _ _)) by lia. }
    rewrite Ha in Hnz, HQ. rewrite (proj2 (Z.eqb_neq _ _)) by done. wp_steps. by apply HQ. }
  assert (Hin : ind ip ≠ 0).
  { intros Hz. apply Hnz. unfold addr_of. rewrite (proj2 (Z.ltb_ge _ _)) by lia. by rewrite Hz. }
  assert (Ha : addr_of v ip bn = get32 (Z.to_nat (4 * (bn - NDIRECT))) (v (ind ip))).
  { unfold addr_of. rewrite (proj2 (Z.ltb_ge _ _)) by lia. by rewrite (proj2 (Z.eqb_neq _ _)). }
  eapply wp_eq; [eapply bmap_indirect_eq; [done|apply Hwf|lia]|]. unfold get_ind, get_entry. wp_steps.
  eapply (wp_getaddr ip); [done|apply Hwf|unfold NDIRECT; lia|]. fold (ind ip).
  rewrite (proj2 (Z.eqb_neq _ _)) by done. wp_steps.
  pose proof (data_block_nz _ _ Hg (fw_ind _ _ _ Hwf Hin)) as Hir.
  eapply t_bread; [exact Ht|lia|apply not_elem_of_nil|cbn; lia|]. intros bp k1 Ht1 Hf1. wp_steps.
  eapply t_getbuf; [exact Ht1|left|]. intros bf Hd. rewrite Hd. cbv zeta. rewrite <-Ha.
  rewrite (proj2 (Z.eqb_neq _ _)) by done. wp_steps.
  eapply t_brelse1; [exact Ht1|]. intros k2 Ht2 Hf2. wp_steps. apply HQ; [|by rewrite Hf1].
  eapply finv_frame; [exact Hf|exact Ht2|by rewrite Hf1].
Qed.
End bmap.

(** ** File contents *)

(** The byte of the file at offset [o]. *)
Definition fbyte (v : Z → block) (ip : inode) (o : Z) : Z :=
  nth (Z.to_nat (o mod BSIZE)) (v (addr_of v ip (o / BSIZE))) 0.
Definition fbytes (v : Z → block) (ip : inode) (off n : Z) : list Z := fbyte v ip <$> seqZ off n.

(** The file has the blocks that hold its first [size] bytes. *)
Definition covered (v : Z → block) (ip : inode) (size : Z) : Prop :=
  size ≤ MAXFILE * BSIZE ∧ ∀ bn, 0 ≤ bn → bn * BSIZE < size → addr_of v ip bn ≠ 0.

Lemma length_fbytes v ip off n : 0 ≤ n → Z.of_nat (length (fbytes v ip off n)) = n.
Proof. intros. unfold fbytes. rewrite length_fmap, length_seqZ. lia. Qed.

Lemma fbytes_app v ip off n m : 0 ≤ n → 0 ≤ m →
  fbytes v ip off (n + m) = fbytes v ip off n ++ fbytes v ip (off + n) m.
Proof. intros. unfold fbytes. by rewrite seqZ_app, fmap_app. Qed.

(** The piece of a block that one iteration handles. *)
Definition piece (n tot off : Z) : Z := Z.min (n - tot) (BSIZE - off mod BSIZE).

Lemma piece_range n tot off : tot < n → 1 ≤ piece n tot off ≤ n - tot ∧ off mod BSIZE + piece n tot off ≤ BSIZE.
Proof. intros. unfold piece. pose proof (Z.mod_pos_bound off BSIZE eq_refl). lia. Qed.

(** The offsets of a piece lie in one block. *)
Lemma piece_block off m j : 0 ≤ j < m → off mod BSIZE + m ≤ BSIZE →
  (off + j) / BSIZE = off / BSIZE ∧ (off + j) mod BSIZE = off mod BSIZE + j.
Proof.
  intros Hj Hm. pose proof (Z.mod_pos_bound off BSIZE eq_refl) as Hr.
  pose proof (Z.div_mod off BSIZE ltac:(done)) as Hd. unfold BSIZE in *. split.
  - symmetry. apply Z.div_unique with (off mod 512 + j); lia.
  - symmetry. apply Z.mod_unique with (off / 512); lia.
Qed.

Lemma bslice_fbytes v ip off m : 0 ≤ off → 0 ≤ m → off mod BSIZE + m ≤ BSIZE →
  length (v (addr_of v ip (off / BSIZE))) = Z.to_nat BSIZE →
  bslice (Z.to_nat (off mod BSIZE)) (Z.to_nat m) (v (addr_of v ip (off / BSIZE))) = fbytes v ip off m.
Proof.
  intros Ho Hm Hmb Hlen. pose proof (Z.mod_pos_bound off BSIZE eq_refl) as Hr.
  apply list_eq. intros j. unfold fbytes. rewrite list_lookup_fmap.
  destruct (decide (Z.of_nat j < m)) as [Hj|Hj].
  - rewrite lookup_seqZ_lt by done. cbn [fmap option_fmap option_map].
    rewrite lookup_bslice. rewrite decide_True by lia. unfold fbyte.
    destruct (piece_block off m (Z.of_nat j)) as [-> ->]; [lia|done|].
    rewrite nth_lookup. replace (Z.to_nat (off mod BSIZE + Z.of_nat j)) with (Z.to_nat (off mod BSIZE) + j)%nat by lia.
    destruct (v _ !! (Z.to_nat (off mod BSIZE) + j)%nat) eqn:Hx; [done|].
    apply lookup_ge_None in Hx. lia.
  - rewrite lookup_seqZ_ge by lia. cbn.
    rewrite lookup_bslice. by rewrite decide_False by lia.
Qed.

(** Fuel for [rem] bytes from [off]: one unit for each block they touch. *)
Definition enough (off rem : Z) (fuel : nat) : Prop :=
  rem ≤ 0 ∨ off mod BSIZE + rem ≤ BSIZE * Z.of_nat fuel.

Lemma enough_0 off rem : enough off rem 0 → rem ≤ 0.
Proof. intros [?|?]; [done|]. pose proof (Z.mod_pos_bound off BSIZE eq_refl). lia. Qed.

Lemma enough_piece n tot off fuel : 0 ≤ off → tot < n → enough off (n - tot) (S fuel) →
  enough (off + piece n tot off) (n - (tot + piece n tot off)) fuel.
Proof.
  intros Ho Ht [?|Hf]; [lia|]. pose proof (Z.mod_pos_bound off BSIZE eq_refl) as Hr.
  pose proof (Z.div_mod off BSIZE ltac:(done)) as Hd. unfold enough, piece, BSIZE in *.
  destruct (Z.min_spec (n - tot) (512 - off mod 512)) as [[Hlt ->]|[Hge ->]]; [left; lia|right].
  assert ((off + (512 - off mod 512)) mod 512 = 0) as ->.
  { symmetry. apply Z.mod_unique with (off / 512 + 1); lia. }
  lia.
Qed.

Lemma enough_init off n : 0 ≤ n → enough off n (Z.to_nat (n / BSIZE + 2)).
Proof.
  intros Hn. right. pose proof (Z.mod_pos_bound off BSIZE eq_refl). pose proof (Z.div_mod n BSIZE ltac:(done)).
  pose proof (Z.mod_pos_bound n BSIZE eq_refl). pose proof (Z.div_pos n BSIZE Hn eq_refl).
  unfold BSIZE in *. lia.
Qed.

Section read.
Context `{Devsw} (E : string → Prop) (p : nat) (st : Z) (i : nat).

Lemma covered_block v ip size off n tot : covered v ip size → 0 ≤ off → tot < n → off + (n - tot) ≤ size →
  0 ≤ off / BSIZE < MAXFILE ∧ addr_of v ip (off / BSIZE) ≠ 0.
Proof.
  intros [Hmax Hc] Ho Ht Hsz. pose proof (Z.div_mod off BSIZE ltac:(done)).
  pose proof (Z.mod_pos_bound off BSIZE eq_refl). pose proof (Z.div_pos off BSIZE Ho eq_refl).
  rewrite MAXFILE_val in *. unfold BSIZE in *. split; [lia|]. apply Hc; lia.
Qed.

Lemma t_readi_loop size n m v ip : covered v ip size → ∀ fuel cnt off tot acc k (Q : list Z → kernel → Prop),
  finv E p st n m [] v i ip k → 0 ≤ off → 0 ≤ tot ≤ cnt → off + (cnt - tot) ≤ size →
  enough off (cnt - tot) fuel →
  (∀ k', finv E p st n m [] v i ip k' → tframe k k' → Q (acc ++ fbytes v ip off (cnt - tot)) k') →
  wp (readi_loop i off cnt tot acc fuel) E Q k.
Proof.
  intros Hc. induction fuel as [|fuel IH]; intros cnt off tot acc k Q Hf Ho Ht Hsz Hfu HQ; cbn [readi_loop].
  - destruct (Z.ltb_spec tot cnt).
    { apply enough_0 in Hfu. lia. }
    wp_steps. replace (cnt - tot) with 0 in HQ by lia. rewrite app_nil_r in HQ. by apply HQ.
  - destruct (Z.ltb_spec tot cnt) as [Hlt|Hge].
    2:{ wp_steps. replace (cnt - tot) with 0 in HQ by lia. rewrite app_nil_r in HQ. by apply HQ. }
    destruct (covered_block v ip size off cnt tot Hc Ho Hlt Hsz) as [Hbn Hnz].
    destruct (piece_range cnt tot off Hlt) as [Hp1 Hp2].
    wp_steps. eapply t_bmap_found; [exact Hf|exact Hbn|exact Hnz|]. intros k1 Hf1 Hfr1. wp_steps.
    pose proof Hf1 as [Ht1 Hs1 Hle1 Hg1 _ Hip1 Hwf1].
    eapply wp_getinode; [exact Hip1|]. rewrite (fw_dev _ _ _ Hwf1). wp_steps.
    destruct (fw_addr _ _ _ Hwf1 _ Hbn Hnz) as [Hd _]. pose proof (data_block_nz st _ _ Hg1 Hd).
    eapply t_bread; [exact Ht1|lia|apply not_elem_of_nil|cbn; lia|]. intros bp k2 Ht2 Hfr2. cbv zeta. wp_steps.
    eapply t_getbuf; [exact Ht2|left|]. intros bf Hdat. rewrite Hdat. wp_steps.
    eapply t_brelse1; [exact Ht2|]. intros k3 Ht3 Hfr3. fold (piece cnt tot off).
    assert (Hfr : tframe k k3) by (by rewrite Hfr1, Hfr2).
    eapply IH; [eapply finv_frame; [exact Hf|exact Ht3|exact Hfr]|lia..|by apply enough_piece|].
    intros k4 Hf4 Hfr4. rewrite bslice_fbytes; [|lia|lia|done|by eapply finv_len].
    rewrite <-app_assoc, <-fbytes_app by lia.
    replace (piece cnt tot off + (cnt - (tot + piece cnt tot off))) with (cnt - tot) by lia.
    apply HQ; [done|by rewrite Hfr].
Qed.

(** [readi] of a file: the bytes from [off], as many of the [cnt] as the file
    has. *)
Definition read_count (size off cnt : Z) : Z := if size <? u32 (off + cnt) then size - off else cnt.

Lemma t_readi n m v ip off cnt k (Q : Z * list Z → kernel → Prop) :
  finv E p st n m [] v i ip k → covered v ip (i_size ip) → i_type ip ≠ T_DEV →
  0 ≤ off ≤ i_size ip → 0 ≤ cnt → off + cnt < 2 ^ 32 →
  (∀ k', finv E p st n m [] v i ip k' → tframe k k' →
     Q (read_count (i_size ip) off cnt, fbytes v ip off (read_count (i_size ip) off cnt)) k') →
  wp (readi i off cnt) E Q k.
Proof.
  intros Hf Hc Hty Ho Hcnt Hov HQ. unfold readi. wp_steps. eapply wp_getinode; [apply Hf|].
  rewrite (proj2 (Z.eqb_neq _ _)) by done. rewrite (proj2 (Z.ltb_ge _ _)) by lia.
  assert (Hu : u32 (off + cnt) = off + cnt) by (apply u32_small; lia).
  rewrite Hu, (proj2 (Z.ltb_ge (off + cnt) off)) by lia. cbn [orb]. cbv zeta. wp_steps.
  unfold read_count in HQ. rewrite Hu in HQ. set (c := if i_size ip <? off + cnt then _ else _) in *.
  assert (Hcr : 0 ≤ c ∧ off + c ≤ i_size ip).
  { unfold c. destruct (Z.ltb_spec (i_size ip) (off + cnt)); lia. }
  destruct Hc as [Hmax Hcov]. rewrite MAXFILE_val in Hmax. unfold BSIZE in Hmax.
  eapply (t_readi_loop (i_size ip)); [split; [by rewrite MAXFILE_val|done]|exact Hf|lia|lia|lia| |].
  { rewrite Z.sub_0_r. apply enough_init. lia. }
  intros k' Hf' Hfr'. wp_steps. rewrite i32_small by lia. rewrite Z.sub_0_r. by apply HQ.
Qed.
End read.

(** ** Writing *)

(** The file and the disk after [tot] bytes of [src] have been written from
    offset [off] of the file [ip0] on the disk [v0], whose size was [size]. *)
Record wrote (size off : Z) (src : list Z) (v0 : Z → block) (ip0 : inode) (tot : Z)
    (v : Z → block) (ip : inode) : Prop := {
  wr_ip : ip = set_i_addrs (i_addrs ip) ip0;
  wr_sb : v 1 = v0 1;
  wr_used : ∀ x, 0 ≤ x < FSSIZE → used v0 x = true → used v x = true;
  wr_cov : covered v ip (Z.max size (off + tot));
  wr_bytes : ∀ o, 0 ≤ o < Z.max size (off + tot) →
    fbyte v ip o = if bool_decide (off ≤ o < off + tot) then nth (Z.to_nat (o - off)) src 0 else fbyte v0 ip0 o;
  wr_mine : ∀ x, 0 ≤ x < FSSIZE → used v0 x = true → mine v ip x → mine v0 ip0 x;
  wr_frame : ∀ x, 0 < x < FSSIZE → used v0 x = true → x ≠ bitmap_block v0 → ¬ mine v0 ip0 x → v x = v0 x
}.

Lemma wrote_init size off src v ip : covered v ip size → off ≤ size → wrote size off src v ip 0 v ip.
Proof.
  intros Hc Ho. split; try done.
  - by rewrite set_addrs_id.
  - by rewrite Z.max_l by lia.
  - intros o _. by rewrite bool_decide_eq_false_2 by lia.
Qed.

(** The store of one piece into block [a], which is the file's block [bn]. *)
Section piece.
Context (st : Z) (v : Z → block) (ip : inode) (bn a : Z) (s : list Z) (r : Z).
Hypothesis (Hg : fs_geo st v) (Hwf : file_wf st v ip) (Hbn : 0 ≤ bn < MAXFILE).
Hypothesis (Ha : addr_of v ip bn = a) (Hnz : a ≠ 0).
Hypothesis (Hlen : length (v a) = Z.to_nat BSIZE) (Hr : 0 ≤ r) (Hs : r + Z.of_nat (length s) ≤ BSIZE).

Definition view_piece : Z → block := vupd v a (bsplice (Z.to_nat r) s (v a)).

Lemma piece_a : data_block st v a ∧ a ≠ ind ip.
Proof. rewrite <-Ha in Hnz |- *. by apply Hwf. Qed.

Lemma piece_not_meta : a ≠ 1 ∧ a ≠ bitmap_block v.
Proof. destruct piece_a as [[? _] _]. pose proof (fs_geo_bm _ _ Hg). lia. Qed.

Lemma piece_addr b : addr_of view_piece ip b = addr_of v ip b.
Proof. apply addr_of_upd. apply piece_a. Qed.

Lemma piece_wf : fs_geo st view_piece ∧ file_wf st view_piece ip.
Proof.
  destruct piece_not_meta, piece_a. split; [by apply fs_geo_upd|by apply file_wf_upd].
Qed.

Lemma nth_bsplice (l : list Z) o : (Z.to_nat r + length s ≤ length l)%nat →
  0 ≤ o < Z.of_nat (length l) →
  nth (Z.to_nat o) (bsplice (Z.to_nat r) s l) 0 =
  if bool_decide (r ≤ o < r + Z.of_nat (length s)) then nth (Z.to_nat (o - r)) s 0 else nth (Z.to_nat o) l 0.
Proof.
  intros Hl Ho. rewrite !nth_lookup, lookup_bsplice by done. case_bool_decide as Hb.
  - rewrite decide_True by lia. by replace (Z.to_nat o - Z.to_nat r)%nat with (Z.to_nat (o - r)) by lia.
  - by rewrite decide_False by lia.
Qed.

Lemma piece_byte o : 0 ≤ o → o / BSIZE < MAXFILE → addr_of v ip (o / BSIZE) ≠ 0 →
  fbyte view_piece ip o =
  if bool_decide (bn * BSIZE + r ≤ o < bn * BSIZE + r + Z.of_nat (length s))
  then nth (Z.to_nat (o - (bn * BSIZE + r))) s 0 else fbyte v ip o.
Proof.
  intros Ho Hb Hao. unfold fbyte. rewrite piece_addr. pose proof (Z.div_pos o BSIZE Ho eq_refl).
  pose proof (Z.mod_pos_bound o BSIZE eq_refl). pose proof (Z.div_mod o BSIZE ltac:(done)).
  destruct (decide (o / BSIZE = bn)) as [Heq|Hne].
  - rewrite Heq, Ha. unfold view_piece. rewrite vupd_eq, nth_bsplice by lia.
    replace (o mod BSIZE - r) with (o - (bn * BSIZE + r)) by lia.
    apply (f_equal (λ c : bool, if c then _ else _)). apply bool_decide_ext. lia.
  - rewrite bool_decide_eq_false_2 by (unfold BSIZE in *; lia). unfold view_piece. rewrite vupd_ne; [done|].
    rewrite <-Ha. intros Heq. apply Hne. eapply (fw_inj _ _ _ Hwf); [lia|done|done|done].
Qed.
End piece.

(** One iteration: [bmap] and the store. *)
Lemma div_mul_le o b : b * BSIZE ≤ o < b * BSIZE + BSIZE → o / BSIZE = b.
Proof. intros. symmetry. apply Z.div_unique with (o - b * BSIZE); lia. Qed.

Lemma wrote_step st size off src v0 ip0 tot v ip v1 ip1 a m :
  wrote size off src v0 ip0 tot v ip → grows v ip v1 ip1 → fs_geo st v1 → file_wf st v1 ip1 →
  fs_geo st v0 → 0 ≤ off ≤ size → 0 ≤ tot → 1 ≤ m → (off + tot) mod BSIZE + m ≤ BSIZE →
  off + tot + m ≤ MAXFILE * BSIZE → tot + m ≤ Z.of_nat (length src) →
  addr_of v1 ip1 ((off + tot) / BSIZE) = a → a ≠ 0 → length (v1 a) = Z.to_nat BSIZE → st ≤ FSSIZE →
  wrote size off src v0 ip0 (tot + m)
    (view_piece v1 a (bslice (Z.to_nat tot) (Z.to_nat m) src) ((off + tot) mod BSIZE)) ip1.
Proof.
  intros Hw Hgr Hg1 Hwf1 Hg0 Ho Ht Hm Hmb Hmax Hsrc Ha Hnz Hlen Hst.
  set (r := (off + tot) mod BSIZE) in *. set (bn := (off + tot) / BSIZE) in *.
  set (s := bslice _ _ src). assert (Hls : Z.of_nat (length s) = m) by (unfold s; rewrite length_bslice; lia).
  pose proof (Z.mod_pos_bound (off + tot) BSIZE eq_refl) as Hr. fold r in Hr.
  pose proof (Z.div_mod (off + tot) BSIZE ltac:(done)) as Hdm. fold r bn in Hdm.
  assert (Hbn : 0 ≤ bn < MAXFILE).
  { pose proof (Z.div_pos (off + tot) BSIZE ltac:(lia) eq_refl) as Hp. fold bn in Hp.
    rewrite MAXFILE_val in *. unfold BSIZE in *. lia. }
  set (v2 := view_piece v1 a s r).
  assert (Haddr : ∀ b, addr_of v2 ip1 b = addr_of v1 ip1 b) by (intros; by eapply piece_addr).
  assert (Hold : ∀ o, 0 ≤ o < Z.max size (off + tot) →
    0 ≤ o / BSIZE < MAXFILE ∧ addr_of v ip (o / BSIZE) ≠ 0 ∧ addr_of v1 ip1 (o / BSIZE) ≠ 0 ∧
    fbyte v1 ip1 o = fbyte v ip o).
  { intros o Hoo. destruct (wr_cov _ _ _ _ _ _ _ _ Hw) as [Hcm Hc].
    pose proof (Z.div_mod o BSIZE ltac:(done)). pose proof (Z.mod_pos_bound o BSIZE eq_refl).
    pose proof (Z.div_pos o BSIZE ltac:(lia) eq_refl).
    assert (Hob : 0 ≤ o / BSIZE < MAXFILE) by (rewrite MAXFILE_val in *; unfold BSIZE in *; lia).
    assert (Haz : addr_of v ip (o / BSIZE) ≠ 0) by (apply Hc; lia).
    destruct (gr_addr _ _ _ _ Hgr _ Hob Haz) as [E1 E2].
    split; [done|]. split; [done|]. split; [by rewrite E1|]. unfold fbyte. by rewrite E1, E2. }
  assert (Hmine : ∀ x, 0 ≤ x < FSSIZE → used v0 x = true → mine v2 ip1 x → mine v0 ip0 x).
  { intros x Hx Hu [Hxz Hxm]. pose proof (wr_used _ _ _ _ _ _ _ _ Hw x Hx Hu) as Hu'.
    apply (wr_mine _ _ _ _ _ _ _ _ Hw), (gr_mine _ _ _ _ Hgr); try done. split; [done|].
    destruct Hxm as [?|(b & Hb & Hxa)]; [by left|right]. exists b. by rewrite <-Haddr. }
  split.
  - rewrite (gr_ip _ _ _ _ Hgr) at 1. rewrite (wr_ip _ _ _ _ _ _ _ _ Hw) at 1. done.
  - unfold v2, view_piece. rewrite vupd_ne; [|by destruct (piece_not_meta st v1 ip1 bn a)].
    rewrite (gr_sb _ _ _ _ Hgr). apply Hw.
  - intros x Hx Hu. unfold v2, view_piece. destruct (piece_not_meta st v1 ip1 bn a) as [H1 H2]; try done.
    rewrite used_ne by done. apply (gr_used _ _ _ _ Hgr); [done|]. by apply (wr_used _ _ _ _ _ _ _ _ Hw).
  - destruct (wr_cov _ _ _ _ _ _ _ _ Hw) as [Hcm _]. split; [lia|]. intros b Hb Hlt. rewrite Haddr.
    destruct (decide (b * BSIZE < Z.max size (off + tot))).
    + destruct (Hold (b * BSIZE)) as (_ & _ & Hz & _); [unfold BSIZE in *; lia|].
      by rewrite Z.div_mul in Hz by done.
    + assert (b = bn) as -> by (unfold BSIZE in *; lia). by rewrite Ha.
  - intros o Hoo. assert (Hin : 0 ≤ o / BSIZE < MAXFILE ∧ addr_of v1 ip1 (o / BSIZE) ≠ 0).
    { destruct (decide (o < Z.max size (off + tot))); [by destruct (Hold o) as (? & _ & ? & _); [lia|]|].
      assert (o / BSIZE = bn) as -> by (apply div_mul_le; unfold BSIZE in *; lia). by rewrite Ha. }
    destruct Hin as [Hob Hoz]. unfold v2. rewrite (piece_byte st v1 ip1 bn a s r) by (done || lia).
    replace (bn * BSIZE + r) with (off + tot) by lia. rewrite Hls. case_bool_decide as Hp.
    + rewrite bool_decide_eq_true_2 by lia. unfold s. rewrite !nth_lookup, lookup_bslice.
      rewrite decide_True by lia. do 2 f_equal. lia.
    + destruct (Hold o) as (_ & _ & _ & ->); [lia|]. rewrite (wr_bytes _ _ _ _ _ _ _ _ Hw) by lia.
      apply (f_equal (λ c : bool, if c then _ else _)). apply bool_decide_ext. lia.
  - exact Hmine.
  - intros x Hx0 Hu Hb Hnm. assert (Hx : 0 ≤ x < FSSIZE) by lia.
    pose proof (wr_used _ _ _ _ _ _ _ _ Hw x Hx Hu) as Hu'.
    unfold v2, view_piece. rewrite vupd_ne.
    + rewrite (gr_frame _ _ _ _ Hgr), (wr_frame _ _ _ _ _ _ _ _ Hw); try done.
      * by rewrite (bitmap_block_eq v0 v) by apply Hw.
      * intros ->. apply Hnm, (wr_mine _ _ _ _ _ _ _ _ Hw); [done..|]. split; [lia|by left].
    + intros ->. apply Hnm, Hmine; [done..|]. split; [done|]. right. exists bn. by rewrite Haddr.
Qed.

Section write.
Context `{Devsw} (E : string → Prop) (p : nat) (st : Z) (i : nat).

Lemma enough_done off rem c : enough off rem c → rem ≤ 0 ∨ ∃ c', c = S c'.
Proof. destruct c as [|c]; [by intros ?%enough_0; left|by right; eexists]. Qed.

(** [c] iterations log at most [6 * c] blocks and allocate at most [2 * c]. *)
Lemma t_writei_loop size off src v0 ip0 cnt :
  fs_geo st v0 → 0 ≤ off ≤ size → off + cnt ≤ MAXFILE * BSIZE → cnt ≤ Z.of_nat (length src) →
  ∀ c fuel tot v ip n m k (Q : Z → kernel → Prop),
  (c ≤ fuel)%nat → enough (off + tot) (cnt - tot) c → finv E p st n m [] v i ip k →
  wrote size off src v0 ip0 tot v ip → 6 * Z.of_nat c ≤ n → 2 * Z.of_nat c ≤ m → 0 ≤ tot ≤ cnt →
  (∀ v' ip' k', finv E p st (n - 6 * Z.of_nat c) (m - 2 * Z.of_nat c) [] v' i ip' k' →
     wrote size off src v0 ip0 cnt v' ip' → iframe i k k' → Q (off + cnt) k') →
  wp (writei_loop i src (off + tot) cnt tot fuel) E Q k.
Proof.
  intros Hg0 Ho Hmax Hsrc. induction c as [|c IH]; intros fuel tot v ip n m k Q Hfu Hen Hf Hw Hn Hm Ht HQ.
  { apply enough_0 in Hen. assert (tot = cnt) as -> by lia. destruct fuel; cbn [writei_loop];
      rewrite Z.ltb_irrefl; wp_steps; eapply HQ; try done; by eapply finv_weaken; [exact Hf|pose proof (fi_free _ _ _ _ _ _ _ _ _ _ Hf); lia..]. }
  destruct fuel as [|fuel]; [lia|]. cbn [writei_loop]. destruct (Z.ltb_spec tot cnt) as [Hlt|Hge].
  2:{ assert (tot = cnt) as -> by lia. wp_steps. eapply HQ; [|done|done].
      eapply finv_weaken; [exact Hf|lia..]. }
  destruct (piece_range cnt tot (off + tot) Hlt) as [Hp1 Hp2].
  assert (Hbn : 0 ≤ (off + tot) / BSIZE < MAXFILE).
  { pose proof (Z.div_pos (off + tot) BSIZE ltac:(lia) eq_refl). pose proof (Z.div_mod (off + tot) BSIZE ltac:(done)).
    pose proof (Z.mod_pos_bound (off + tot) BSIZE eq_refl). rewrite MAXFILE_val in *. unfold BSIZE in *. lia. }
  wp_steps. eapply t_bmap; [exact Hf|lia|lia|exact Hbn|]. intros a v1 ip1 k1 Hf1 Hgr1 Ha Hnz _ Hfr1. wp_steps.
  pose proof Hf1 as [Ht1 Hs1 Hle1 Hg1 Hfree1 Hip1 Hwf1].
  eapply wp_getinode; [exact Hip1|]. rewrite (fw_dev _ _ _ Hwf1). wp_steps.
  assert (Hd : data_block st v1 a) by (rewrite <-Ha in Hnz |- *; by apply Hwf1).
  pose proof (data_block_nz st _ _ Hg1 Hd) as Har.
  eapply t_bread; [exact Ht1|lia|apply not_elem_of_nil|cbn; lia|]. intros bp k2 Ht2 Hfr2. cbv zeta. wp_steps.
  fold (piece cnt tot (off + tot)). set (q := piece cnt tot (off + tot)) in *.
  assert (Hl1 : length (v1 a) = Z.to_nat BSIZE) by (by eapply finv_len).
  pose proof (Z.mod_pos_bound (off + tot) BSIZE eq_refl) as Hmod.
  eapply t_update; [exact Ht2|lia|left| | |].
  { rewrite (tframe_start _ _ Hfr2), Hs1. lia. }
  { rewrite length_bsplice; [done|]. rewrite length_bslice by lia. rewrite Hl1. lia. }
  intros k3 Ht3 Hfr3. wp_steps. eapply t_brelse1; [exact Ht3|]. intros k4 Ht4 Hfr4.
  fold (view_piece v1 a (bslice (Z.to_nat tot) (Z.to_nat q) src) ((off + tot) mod BSIZE)) in Ht4.
  rewrite <-Z.add_assoc. assert (Hfr14 : tframe k1 k4) by (by rewrite Hfr2, Hfr3).
  assert (Hls : Z.of_nat (length (bslice (Z.to_nat tot) (Z.to_nat q) src)) = q) by (rewrite length_bslice; lia).
  destruct (piece_wf st v1 ip1 ((off + tot) / BSIZE) a (bslice (Z.to_nat tot) (Z.to_nat q) src) ((off + tot) mod BSIZE))
    as [Hg4 Hwf4]; try done.
  destruct (piece_not_meta st v1 ip1 ((off + tot) / BSIZE) a) as [Hm1 Hm2]; try done.
  eapply (IH fuel (tot + q) _ ip1 (n - 6) (m - 2)); [lia| | | |lia|lia|lia|].
  - rewrite Z.add_assoc. by apply enough_piece; [lia|..].
  - split.
    + by replace (n - 6) with (n - 5 - 1) by lia.
    + by rewrite (tframe_start _ _ Hfr14).
    + done.
    + exact Hg4.
    + unfold view_piece. rewrite (nfree_le st v1); [lia|]. intros x _. by apply used_ne.
    + by rewrite (tframe_ic _ _ Hfr14).
    + exact Hwf4.
  - eapply wrote_step; try done; lia.
  - intros v' ip' k' Hf' Hw' Hfr'. eapply HQ; [|done|].
    + eapply finv_weaken; [exact Hf'|lia..].
    + rewrite Hfr1. rewrite <-Hfr'. by apply tframe_iframe.
Qed.

(** The inode's block is before the bitmap. *)
Lemma iblock_range v ip : fs_geo st v → 0 ≤ i_inum ip < sb_ninodes (sbv v) →
  2 ≤ IBLOCK (i_inum ip) < bitmap_block v.
Proof.
  intros Hg Hn. unfold bitmap_block, BBLOCK, IBLOCK. rewrite Z.div_0_l by done.
  change IPB with 8. pose proof (Z.div_pos (i_inum ip) 8 ltac:(lia) eq_refl).
  pose proof (Z.div_le_mono (i_inum ip) (sb_ninodes (sbv v)) 8 ltac:(lia) ltac:(lia)). lia.
Qed.

Definition view_iupdate (v : Z → block) (ip : inode) : Z → block :=
  vupd v (IBLOCK (i_inum ip)) (dinode_store ip (v (IBLOCK (i_inum ip)))).

Lemma mine_data v ip x : fs_geo st v → file_wf st v ip → mine v ip x → bitmap_block v < x.
Proof.
  intros Hg Hwf [Hnz [->|(bn & Hbn & <-)]]; [destruct (fw_ind _ _ _ Hwf Hnz); lia|].
  destruct (fw_addr _ _ _ Hwf bn Hbn Hnz) as [[? _] _]. lia.
Qed.

Lemma t_iupdate n m v ip k (Q : unit → kernel → Prop) :
  finv E p st n m [] v i ip k → 1 ≤ n → 0 ≤ i_inum ip < sb_ninodes (sbv v) →
  (∀ k', finv E p st (n - 1) m [] (view_iupdate v ip) i ip k' → tframe k k' → Q tt k') →
  wp (iupdate i) E Q k.
Proof.
  intros Hf Hn Hin HQ. pose proof Hf as [Ht Hs Hle Hg Hfr Hip Hwf].
  pose proof (iblock_range v ip Hg Hin) as Hib. pose proof (g_bm _ _ Hg) as Hbm.
  unfold iupdate. wp_steps. eapply wp_getinode; [done|]. rewrite (fw_dev _ _ _ Hwf).
  rewrite u32_small by (unfold FSSIZE in *; lia). wp_steps.
  eapply t_bread; [exact Ht|lia|apply not_elem_of_nil|cbn; lia|]. intros bp k1 Ht1 Hf1. wp_steps.
  eapply t_update; [exact Ht1|done|left| | |].
  { rewrite (tframe_start _ _ Hf1). lia. }
  { apply length_dinode_store; [by eapply tinv_len|apply Hwf]. }
  intros k2 Ht2 Hf2. eapply t_brelse1; [exact Ht2|]. intros k3 Ht3 Hf3.
  assert (Hf13 : tframe k k3) by (by rewrite Hf1, Hf2). apply HQ; [|done].
  assert (Hni : IBLOCK (i_inum ip) ≠ ind ip).
  { destruct (decide (ind ip = 0)); [lia|]. destruct (fw_ind _ _ _ Hwf); [done|lia]. }
  split; try done.
  - by rewrite (tframe_start _ _ Hf13).
  - apply fs_geo_upd; [done|lia..].
  - unfold view_iupdate. rewrite (nfree_le st v); [done|]. intros x _. apply used_ne; lia.
  - by rewrite (tframe_ic _ _ Hf13).
  - apply file_wf_upd; [done|lia|lia|done].
Qed.

(** [iupdate] is not seen in the file's contents. *)
Lemma fbyte_iupdate v ip ip' o : fs_geo st v → file_wf st v ip → 0 ≤ i_inum ip' < sb_ninodes (sbv v) →
  0 ≤ o → o / BSIZE < MAXFILE → addr_of v ip (o / BSIZE) ≠ 0 →
  fbyte (view_iupdate v ip') ip o = fbyte v ip o ∧
  addr_of (view_iupdate v ip') ip (o / BSIZE) = addr_of v ip (o / BSIZE).
Proof.
  intros Hg Hwf Hin Ho Hb Hnz. pose proof (iblock_range v ip' Hg Hin) as Hib.
  pose proof (Z.div_pos o BSIZE Ho eq_refl).
  assert (Hni : IBLOCK (i_inum ip') ≠ ind ip).
  { destruct (decide (ind ip = 0)); [lia|]. destruct (fw_ind _ _ _ Hwf); [done|lia]. }
  destruct (fw_addr _ _ _ Hwf (o / BSIZE)) as [[Hr _] _]; [lia|done|].
  unfold fbyte, view_iupdate. rewrite addr_of_upd by done. split; [|done]. by rewrite vupd_ne by lia.
Qed.

(** *** [writei] *)

Definition new_size (size off cnt : Z) : Z := if 0 <? cnt then Z.max size (off + cnt) else size.

(** The result of writing [src] at [off]: [v'] and [ip'] are the disk and the
    inode afterwards. *)
Record written (off : Z) (src : list Z) (v : Z → block) (ip : inode) (v' : Z → block) (ip' : inode) : Prop := {
  wt_size : i_size ip' = new_size (i_size ip) off (Z.of_nat (length src));
  wt_meta : set_i_size (i_size ip) (set_i_addrs (i_addrs ip) ip') = ip;
  wt_cov : covered v' ip' (i_size ip');
  wt_bytes : ∀ o, 0 ≤ o < i_size ip' →
    fbyte v' ip' o = if bool_decide (off ≤ o < off + Z.of_nat (length src))
                     then nth (Z.to_nat (o - off)) src 0 else fbyte v ip o;
  wt_frame : ∀ x, 0 < x < FSSIZE → used v x = true → x ≠ bitmap_block v → ¬ mine v ip x →
    x ≠ IBLOCK (i_inum ip) → v' x = v x
}.

Lemma set_size_wf v ip s : file_wf st v ip → file_wf st v (set_i_size s ip).
Proof. intros []. by split. Qed.

(** The result when the size stays. *)
Lemma written_same off src v ip v1 ip1 :
  wrote (i_size ip) off src v ip (Z.of_nat (length src)) v1 ip1 → off ≤ i_size ip →
  (Z.of_nat (length src) = 0 ∨ off + Z.of_nat (length src) ≤ i_size ip) →
  written off src v ip v1 ip1.
Proof.
  intros Hw Ho Hsz. pose proof (wr_ip _ _ _ _ _ _ _ _ Hw) as Hip.
  assert (Hmax : Z.max (i_size ip) (off + Z.of_nat (length src)) = i_size ip) by lia.
  assert (Hs1 : i_size ip1 = i_size ip) by (by rewrite Hip).
  split.
  - rewrite Hs1. unfold new_size. destruct (Z.ltb_spec 0 (Z.of_nat (length src))); lia.
  - rewrite Hip. by destruct ip.
  - rewrite Hs1, <-Hmax. apply Hw.
  - rewrite Hs1, <-Hmax. apply Hw.
  - intros. by apply (wr_frame _ _ _ _ _ _ _ _ Hw).
Qed.

(** The result when the file grows, with the new size on disk. *)
Lemma written_grown off src v ip v1 ip1 (ip2 := set_i_size (off + Z.of_nat (length src)) ip1) :
  fs_geo st v1 → file_wf st v1 ip1 → 0 ≤ i_inum ip < sb_ninodes (sbv v) →
  wrote (i_size ip) off src v ip (Z.of_nat (length src)) v1 ip1 → 0 ≤ off →
  0 < Z.of_nat (length src) → i_size ip < off + Z.of_nat (length src) →
  written off src v ip (view_iupdate v1 ip2) ip2.
Proof.
  intros Hg Hwf Hin Hw Ho Hpos Hsz. pose proof (wr_ip _ _ _ _ _ _ _ _ Hw) as Hip.
  assert (Hmax : Z.max (i_size ip) (off + Z.of_nat (length src)) = off + Z.of_nat (length src)) by lia.
  assert (Hnum : i_inum ip2 = i_inum ip) by (unfold ip2; by rewrite Hip).
  assert (Hin2 : 0 ≤ i_inum ip2 < sb_ninodes (sbv v1)).
  { rewrite Hnum. unfold sbv. by rewrite (wr_sb _ _ _ _ _ _ _ _ Hw). }
  pose proof (set_size_wf v1 ip1 (off + Z.of_nat (length src)) Hwf) as Hwf2. fold ip2 in Hwf2.
  pose proof (wr_cov _ _ _ _ _ _ _ _ Hw) as [Hcm Hcov]. rewrite Hmax in Hcm, Hcov.
  assert (Hsame : ∀ o, 0 ≤ o < off + Z.of_nat (length src) →
    fbyte (view_iupdate v1 ip2) ip2 o = fbyte v1 ip1 o ∧
    addr_of (view_iupdate v1 ip2) ip2 (o / BSIZE) = addr_of v1 ip1 (o / BSIZE)).
  { intros o Hoo. pose proof (Z.div_mod o BSIZE ltac:(done)). pose proof (Z.mod_pos_bound o BSIZE eq_refl).
    apply (fbyte_iupdate v1 ip2 ip2 o); try done; [lia| |].
    - rewrite MAXFILE_val in Hcm |- *. unfold BSIZE in *. lia.
    - apply Hcov; [apply Z.div_pos; [lia|done]|lia]. }
  split.
  - cbn. unfold new_size. rewrite (proj2 (Z.ltb_lt _ _)) by done. lia.
  - unfold ip2. rewrite Hip. by destruct ip.
  - split; [done|]. intros bn Hbn Hlt. cbn in Hlt. destruct (Hsame (bn * BSIZE)) as [_ Heq]; [unfold BSIZE in *; lia|].
    rewrite Z.div_mul in Heq by done. rewrite Heq. by apply Hcov.
  - intros o Hoo. cbn in Hoo. destruct (Hsame o Hoo) as [-> _]. apply (wr_bytes _ _ _ _ _ _ _ _ Hw). lia.
  - intros x Hx Hu Hb Hnm Hxi. unfold view_iupdate. rewrite vupd_ne by congruence.
    by apply (wr_frame _ _ _ _ _ _ _ _ Hw).
Qed.

Lemma t_writei c n m v ip off src k (Q : Z → kernel → Prop) :
  finv E p st n m [] v i ip k → covered v ip (i_size ip) → i_type ip ≠ T_DEV →
  0 ≤ i_inum ip < sb_ninodes (sbv v) → 0 ≤ off ≤ i_size ip →
  off + Z.of_nat (length src) ≤ MAXFILE * BSIZE → enough off (Z.of_nat (length src)) c →
  (c ≤ Z.to_nat (Z.of_nat (length src) / BSIZE + 2))%nat → 6 * Z.of_nat c + 1 ≤ n → 2 * Z.of_nat c ≤ m →
  (∀ v' ip' k', finv E p st (n - 6 * Z.of_nat c - 1) (m - 2 * Z.of_nat c) [] v' i ip' k' →
     written off src v ip v' ip' → iframe i k k' → Q (Z.of_nat (length src)) k') →
  wp (writei i src off (Z.of_nat (length src))) E Q k.
Proof.
  intros Hf Hc Hty Hin Ho Hmax Hen Hfu Hn Hm HQ. set (cnt := Z.of_nat (length src)) in *.
  unfold writei. wp_steps. eapply wp_getinode; [apply Hf|]. rewrite MAXFILE_val in *. unfold BSIZE in Hmax.
  assert (Hu : u32 (off + cnt) = off + cnt) by (apply u32_small; unfold cnt in *; lia).
  rewrite (proj2 (Z.eqb_neq _ _)) by done. rewrite Hu. rewrite (proj2 (Z.ltb_ge (i_size ip) off)) by lia.
  rewrite (proj2 (Z.ltb_ge (off + cnt) off)) by lia. cbn [orb].
  rewrite (proj2 (Z.ltb_ge _ (off + cnt))) by (unfold BSIZE; lia). wp_steps.
  rewrite <-(Z.add_0_r off) at 1.
  eapply (t_writei_loop (i_size ip) off src v ip cnt); [apply Hf|lia|rewrite MAXFILE_val; unfold BSIZE; lia|done|exact Hfu| |exact Hf| |lia|lia|lia|].
  { by rewrite Z.add_0_r, Z.sub_0_r. }
  { apply wrote_init; [done|lia]. }
  intros v1 ip1 k1 Hf1 Hw1 Hfr1. wp_steps. pose proof Hf1 as [Ht1 Hs1 Hle1 Hg1 Hfree1 Hip1 Hwf1].
  eapply wp_getinode; [exact Hip1|]. pose proof (wr_ip _ _ _ _ _ _ _ _ Hw1) as Hipe.
  assert (Hsz : i_size ip1 = i_size ip) by (by rewrite Hipe). rewrite Hsz.
  rewrite (i32_small cnt) by (unfold cnt in *; lia).
  destruct ((0 <? cnt) && (i_size ip <? off + cnt)) eqn:Hgrow; cbn [when]; wp_steps.
  2:{ eapply HQ; [|apply written_same; [exact Hw1|lia|unfold cnt in *; lia]|done].
      eapply finv_weaken; [exact Hf1|lia..]. }
  eapply wp_updinode; [exact Hip1|]. set (ip2 := set_i_size (off + cnt) ip1). set (k2 := set_ic _ k1).
  assert (Hnum : i_inum ip2 = i_inum ip) by (unfold ip2; by rewrite Hipe).
  assert (Hf2 : finv E p st (n - 6 * Z.of_nat c) (m - 2 * Z.of_nat c) [] v1 i ip2 k2).
  { split; try done; [by apply tinv_set_ic| |by apply set_size_wf].
    cbn. apply list_lookup_insert_eq. by eapply lookup_lt_Some. }
  assert (Hfr2 : iframe i k1 k2) by (split; [intros j Hj; cbn; by rewrite list_lookup_insert_ne|done]).
  eapply t_iupdate; [exact Hf2|lia| |].
  { rewrite Hnum. unfold sbv. rewrite (wr_sb _ _ _ _ _ _ _ _ Hw1). done. }
  intros k3 Hf3 Hfr3. wp_steps. eapply HQ; [exact Hf3|apply written_grown; unfold cnt in *; (done || lia)|].
  rewrite Hfr1, Hfr2. by apply tframe_iframe.
Qed.
End write.

(** ** The properties of file contents *)

Section props.
Context `{Devsw}.

(** C11: [readi] of a file returns as many of the bytes asked for as the file
    has from the offset, and those bytes, and changes neither the inode nor
    any block. *)
Theorem readi_reads p st n m v i ip off cnt k :
  finv no_panic p st n m [] v i ip k → covered v ip (i_size ip) → i_type ip ≠ T_DEV →
  0 ≤ off ≤ i_size ip → 0 ≤ cnt → off + cnt < 2 ^ 32 →
  ∃ k', readi i off cnt k =
    Ok (Z.min cnt (i_size ip - off), fbytes v ip off (Z.min cnt (i_size ip - off))) k' ∧
    finv no_panic p st n m [] v i ip k'.
Proof.
  intros Hf Hc Hty Ho Hcnt Hov.
  destruct (wp_ok (readi i off cnt) (λ r k', r = (read_count (i_size ip) off cnt,
    fbytes v ip off (read_count (i_size ip) off cnt)) ∧ finv no_panic p st n m [] v i ip k') k)
    as (r & k' & Hr & -> & Hf').
  { eapply t_readi; [done..|]. auto. }
  exists k'. split; [|done]. rewrite Hr.
  assert (Hmin : read_count (i_size ip) off cnt = Z.min cnt (i_size ip - off)); [|by rewrite Hmin].
  unfold read_count. rewrite u32_small by lia. destruct (Z.ltb_spec (i_size ip) (off + cnt)); lia.
Qed.

(** C10: [writei] at an offset inside the file or at its end, of at most [c]
    blocks, with log slots and free blocks for them, returns the number of
    bytes; afterwards the file has those bytes there and its old ones
    elsewhere, its size has grown to the end of the write if that is beyond
    the old end, and every block in use by others is as it was. *)
Theorem writei_writes p st c n m v i ip off src k :
  finv no_panic p st n m [] v i ip k → covered v ip (i_size ip) → i_type ip ≠ T_DEV →
  0 ≤ i_inum ip < sb_ninodes (sbv v) → 0 ≤ off ≤ i_size ip →
  off + Z.of_nat (length src) ≤ MAXFILE * BSIZE → enough off (Z.of_nat (length src)) c →
  (c ≤ Z.to_nat (Z.of_nat (length src) / BSIZE + 2))%nat → 6 * Z.of_nat c + 1 ≤ n → 2 * Z.of_nat c ≤ m →
  ∃ v' ip' k', writei i src off (Z.of_nat (length src)) k = Ok (Z.of_nat (length src)) k' ∧
    finv no_panic p st (n - 6 * Z.of_nat c - 1) (m - 2 * Z.of_nat c) [] v' i ip' k' ∧
    written off src v ip v' ip'.
Proof.
  intros Hf Hc Hty Hin Ho Hmax Hen Hfu Hn Hm.
  destruct (wp_ok (writei i src off (Z.of_nat (length src))) (λ r k', r = Z.of_nat (length src) ∧ ∃ v' ip',
    finv no_panic p st (n - 6 * Z.of_nat c - 1) (m - 2 * Z.of_nat c) [] v' i ip' k' ∧
    written off src v ip v' ip') k) as (r & k' & Hr & -> & v' & ip' & Hf' & Hw').
  { eapply (t_writei no_panic p st i c); [done..|]. intros v' ip' k' Hf' Hw' _. eauto. }
  by exists v', ip', k'.
Qed.

(** What was written is what is read. *)
Lemma fbytes_written off src v ip v' ip' :
  written off src v ip v' ip' → 0 ≤ off → off + Z.of_nat (length src) ≤ i_size ip' →
  fbytes v' ip' off (Z.of_nat (length src)) = src.
Proof.
  intros Hw Ho Hle. apply list_eq. intros j. unfold fbytes. rewrite list_lookup_fmap.
  destruct (decide (j < length src)%nat) as [Hj|Hj].
  - rewrite lookup_seqZ_lt by lia. cbn [fmap option_fmap option_map].
    rewrite (wt_bytes _ _ _ _ _ _ Hw) by lia. rewrite bool_decide_eq_true_2 by lia.
    rewrite nth_lookup. replace (Z.to_nat (off + Z.of_nat j - off)) with j by lia.
    destruct (lookup_lt_is_Some_2 src j Hj) as [x Hx]. by rewrite Hx.
  - rewrite lookup_seqZ_ge by lia. symmetry. apply lookup_ge_None. lia.
Qed.

(** C9: a [readi] after a [writei] of the same range returns the bytes
    written. *)
Theorem writei_readi p st c n m v i ip off src k :
  finv no_panic p st n m [] v i ip k → covered v ip (i_size ip) → i_type ip ≠ T_DEV →
  0 ≤ i_inum ip < sb_ninodes (sbv v) → 0 ≤ off ≤ i_size ip →
  off + Z.of_nat (length src) ≤ MAXFILE * BSIZE → enough off (Z.of_nat (length src)) c →
  (c ≤ Z.to_nat (Z.of_nat (length src) / BSIZE + 2))%nat → 6 * Z.of_nat c + 1 ≤ n → 2 * Z.of_nat c ≤ m →
  ∃ k', (writei i src off (Z.of_nat (length src));; readi i off (Z.of_nat (length src))) k =
    Ok (Z.of_nat (length src), src) k'.
Proof.
  intros Hf Hc Hty Hin Ho Hmax Hen Hfu Hn Hm.
  assert (Hlen : Z.of_nat (length src) < 2 ^ 31) by (rewrite MAXFILE_val in Hmax; unfold BSIZE in Hmax; lia).
  destruct (wp_ok (writei i src off (Z.of_nat (length src));; readi i off (Z.of_nat (length src)))
    (λ r _, r = (Z.of_nat (length src), src)) k) as (r & k' & Hr & ->); [|by exists k'].
  wp_steps. eapply (t_writei no_panic p st i c); [done..|]. intros v' ip' k1 Hf1 Hw1 _.
  pose proof (wt_size _ _ _ _ _ _ Hw1) as Hsz. unfold new_size in Hsz.
  assert (Hle : off + Z.of_nat (length src) ≤ i_size ip').
  { destruct (Z.ltb_spec 0 (Z.of_nat (length src))); lia. }
  assert (Hty' : i_type ip' ≠ T_DEV).
  { pose proof (wt_meta _ _ _ _ _ _ Hw1) as He. by rewrite <-He in Hty. }
  rewrite MAXFILE_val in Hmax. unfold BSIZE in Hmax.
  eapply t_readi; [exact Hf1|apply Hw1|done|lia|lia|lia|]. intros k2 _ _.
  unfold read_count. rewrite u32_small by lia. rewrite (proj2 (Z.ltb_ge _ _)) by lia.
  f_equal. eapply fbytes_written; [done|lia|done].
Qed.
End props.

(** *** An example file: inode 19, 600 bytes in blocks 40 and 41. *)

#[local] Instance no_devices : Devsw := {| dev_read := λ _, None; dev_write := λ _, None |}.

Definition demo_file : inode := mkInode 1 19 1 3 T_FILE 0 0 1 0 0 420 600 [40; 41; 0; 0; 0; 0; 0; 0; 0; 0; 0].
Definition demo_view : Z → block := disk_get (fs_disk 60) 1.

Lemma demo_addr v bn : 0 ≤ bn → addr_of v demo_file bn = if bn =? 0 then 40 else if bn =? 1 then 41 else 0.
Proof.
  intros Hbn. unfold addr_of, ind, addr_at, NDIRECT. change (i_addrs demo_file) with [40; 41; 0; 0; 0; 0; 0; 0; 0; 0; 0].
  destruct (Z.ltb_spec bn 10).
  - assert (Hc : bn = 0 ∨ bn = 1 ∨ bn = 2 ∨ bn = 3 ∨ bn = 4 ∨ bn = 5 ∨ bn = 6 ∨ bn = 7 ∨ bn = 8 ∨ bn = 9) by lia.
    repeat destruct Hc as [->|Hc]; try subst bn; reflexivity.
  - change (nth (Z.to_nat 10) _ 0 =? 0) with true. cbn iota.
    destruct (Z.eqb_spec bn 0); [lia|]. destruct (Z.eqb_spec bn 1); [lia|done].
Qed.

Lemma demo_facts : used demo_view 40 = true ∧ used demo_view 41 = true ∧ bitmap_block demo_view = 28 ∧
  nfree 970 demo_view = 910 ∧ sb_ninodes (sbv demo_view) = 200.
Proof. vm_compute. repeat split. Qed.

Lemma demo_wf v : used v 40 = true → used v 41 = true → bitmap_block v = 28 →
  file_wf 970 v demo_file ∧ covered v demo_file 600.
Proof.
  intros Hu40 Hu41 Hbm. pose proof (demo_addr v) as Ha. split; [split|].
  - reflexivity.
  - reflexivity.
  - intros []. reflexivity.
  - intros bn Hbn. rewrite Ha by lia. change (ind demo_file) with 0. unfold data_block. rewrite Hbm.
    destruct (Z.eqb_spec bn 0) as [_|_]; [intros _; split; [split; [lia|exact Hu40]|lia]|].
    destruct (Z.eqb_spec bn 1) as [_|_]; [intros _; split; [split; [lia|exact Hu41]|lia]|done].
  - intros bn bn' Hbn Hbn'. rewrite !Ha by lia.
    destruct (Z.eqb_spec bn 0), (Z.eqb_spec bn' 0), (Z.eqb_spec bn 1), (Z.eqb_spec bn' 1); intros; lia.
  - split; [rewrite MAXFILE_val; unfold BSIZE; lia|]. intros bn Hbn Hlt. rewrite Ha by done.
    unfold BSIZE in Hlt. destruct (Z.eqb_spec bn 0); [lia|]. destruct (Z.eqb_spec bn 1); lia.
Qed.

Lemma demo_finv : ∃ k, finv no_panic 0 970 25 10 [] demo_view 0 demo_file k ∧
  covered demo_view demo_file (i_size demo_file).
Proof.
  destruct (demo_tinv (fs_disk 60) (fs_disk_len 60)) as (k & Ht & Hl & _).
  destruct (fs_disk_geo 60 ltac:(lia)) as [Hg _]. 
  destruct demo_facts as (Hu40 & Hu41 & Hbm & Hnf & _). destruct (demo_wf _ Hu40 Hu41 Hbm) as [Hwf Hc]. exists (set_ic [demo_file] k). split; [|exact Hc]. split.
  - by apply tinv_set_ic.
  - cbn. by rewrite Hl.
  - unfold FSSIZE. lia.
  - exact Hg.
  - rewrite Hnf. lia.
  - reflexivity.
  - exact Hwf.
Qed.

Lemma readi_reads_witness :
  ∃ k k', readi 0 500 1000 k = Ok (100, fbytes demo_view demo_file 500 100) k'.
Proof.
  destruct demo_finv as (k & Hf & Hc).
  destruct (readi_reads 0 970 25 10 demo_view 0 demo_file 500 1000 k Hf Hc) as (k' & Hr & _);
    [discriminate|cbn; lia|lia|lia|]. exists k, k'. exact Hr.
Defined.

(** Three bytes across the end of the second block: the file grows to a third
    one. *)
Lemma writei_writes_witness :
  ∃ k k' v' ip', writei 0 [7; 8; 9] 598 3 k = Ok 3 k' ∧ i_size ip' = 601 ∧ fbyte v' ip' 600 = 9.
Proof.
  destruct demo_finv as (k & Hf & Hc).
  destruct (writei_writes 0 970 1 25 10 demo_view 0 demo_file 598 [7; 8; 9] k Hf Hc)
    as (v' & ip' & k' & Hr & _ & Hw); [discriminate|vm_compute; split; congruence|cbn; lia|vm_compute; congruence| | |cbn; lia|cbn; lia|].
  - right. vm_compute. congruence.
  - vm_compute. lia.
  - exists k, k', v', ip'. split; [exact Hr|].
    assert (Hs : i_size ip' = 601) by (rewrite (wt_size _ _ _ _ _ _ Hw); reflexivity). split; [exact Hs|].
    rewrite (wt_bytes _ _ _ _ _ _ Hw) by (rewrite Hs; lia). reflexivity.
Defined.

Lemma writei_readi_witness :
  ∃ k k', (writei 0 [7; 8; 9] 511 3;; readi 0 511 3) k = Ok (3, [7; 8; 9]) k'.
Proof.
  destruct demo_finv as (k & Hf & Hc). exists k.
  apply (writei_readi 0 970 2 25 10 demo_view 0 demo_file 511 [7; 8; 9] k Hf Hc);
    [discriminate|vm_compute; split; congruence|cbn; lia|vm_compute; congruence| | |cbn; lia|cbn; lia].
  - right. vm_compute. congruence.
  - vm_compute. lia.
Defined.
