(* ===== verification/FsDir.v ===== *)
(** * FsDir: directories and path names of kernel/fs.c

    A directory is the list of its entries.  [dirlookup] finds the first
    entry in use with the name, [dirlink] puts a new one into the first free
    slot, and [skipelem] splits a path into its elements. *)

From stdpp Require Import prelude functions gmap strings.
From S2P Require Import Prelude Types Spinlock Sched Ide Bio Block Frame Cstr Log Fs Tx FsBlock FsInode FsDinode FsData.
Open Scope Z_scope.

(** ** The entries of a directory *)

Definition entry_at (v : Z → block) (ip : inode) (off : Z) : dirent := de_of_bytes (fbytes v ip off DIRENT_SIZE).

(** An entry in use whose name is [name]: the bytes of both before the NUL,
    at most [DIRSIZ] of them, are the same. *)
Definition de_match (name : list Z) (de : dirent) : bool :=
  negb (de_inum de =? 0) && bool_decide (cstr (cells name) DIRSIZ = cstr (cells (de_name de)) DIRSIZ).

(** The search from offset [off], over [n] entries: the offset and the inode
    number of the first match. *)
Fixpoint dir_find (v : Z → block) (ip : inode) (name : list Z) (off : Z) (n : nat) : option (Z * Z) :=
  match n with
  | O => None
  | S n => if de_match name (entry_at v ip off) then Some (off, de_inum (entry_at v ip off))
           else dir_find v ip name (off + DIRENT_SIZE) n
  end.

(** The first free slot. *)
Fixpoint dir_slot (v : Z → block) (ip : inode) (off : Z) (n : nat) : Z :=
  match n with
  | O => off
  | S n => if de_inum (entry_at v ip off) =? 0 then off else dir_slot v ip (off + DIRENT_SIZE) n
  end.

Definition dir_entries (ip : inode) : nat := Z.to_nat (i_size ip / DIRENT_SIZE).

(** A directory: whole entries, of bytes. *)
Record dir_wf (v : Z → block) (ip : inode) : Prop := {
  dw_type : i_type ip = T_DIR;
  dw_size : i_size ip = DIRENT_SIZE * Z.of_nat (dir_entries ip);
  dw_cov : covered v ip (i_size ip);
  dw_bytes : ∀ o, 0 ≤ o < i_size ip → is_byte (fbyte v ip o)
}.

Lemma is_byte_cells l i : bytes l → is_byte (cells l i).
Proof.
  intros Hl. unfold cells. rewrite nth_lookup. destruct (l !! Z.to_nat i) eqn:Hi; cbn; [|unfold is_byte; lia].
  by apply (Forall_lookup_1 _ _ _ _ Hl Hi).
Qed.

(** [namecmp] decides whether two names are the same. *)
Lemma namecmp_match name de : bytes name → bytes (de_name de) →
  (namecmp (cells name) (cells (de_name de)) =? 0) = bool_decide (cstr (cells name) DIRSIZ = cstr (cells (de_name de)) DIRSIZ).
Proof.
  intros Hn Hd. unfold namecmp. pose proof (strncmp_eq (cells name) (cells (de_name de)) DIRSIZ (λ i, is_byte_cells _ i Hn) (λ i, is_byte_cells _ i Hd)) as Heq.
  case_bool_decide as Hc; [apply Z.eqb_eq|apply Z.eqb_neq]; tauto.
Qed.

Lemma entry_bytes v ip off : dir_wf v ip → 0 ≤ off → off + DIRENT_SIZE ≤ i_size ip → bytes (de_name (entry_at v ip off)).
Proof.
  intros Hd Ho Hle. unfold entry_at, de_of_bytes. cbn [de_name]. apply Forall_take, Forall_drop, Forall_fmap, Forall_forall.
  intros o Hin%elem_of_seqZ. apply (dw_bytes _ _ Hd). unfold DIRENT_SIZE in *. lia.
Qed.

Section dir.
Context `{Devsw} (E : string → Prop) (p : nat) (st : Z) (dp : nat).

Lemma t_read_entry n m v ip off k (Q : Z * list Z → kernel → Prop) :
  finv E p st n m [] v dp ip k → dir_wf v ip → 0 ≤ off → off + DIRENT_SIZE ≤ i_size ip →
  (∀ k', finv E p st n m [] v dp ip k' → tframe k k' →
     Q (DIRENT_SIZE, fbytes v ip off DIRENT_SIZE) k') →
  wp (readi dp off DIRENT_SIZE) E Q k.
Proof.
  intros Hf [Hty Hsz Hc _] Ho Hle HQ. destruct Hc as [Hmax Hc]. rewrite MAXFILE_val in Hmax.
  unfold DIRENT_SIZE, BSIZE in *.
  eapply t_readi; [exact Hf|by split; [rewrite MAXFILE_val|]|by rewrite Hty|lia|lia|lia|].
  unfold read_count. rewrite u32_small by lia. rewrite (proj2 (Z.ltb_ge _ _)) by lia. done.
Qed.

Lemma t_dirlookup_loop n m v ip name : dir_wf v ip → bytes name → ∀ c fuel off k (Q : option (nat * Z) → kernel → Prop),
  finv E p st n m [] v dp ip k → 0 ≤ off → i_size ip = off + DIRENT_SIZE * Z.of_nat c → (c ≤ fuel)%nat →
  (∀ k', finv E p st n m [] v dp ip k' → tframe k k' →
     match dir_find v ip name off c with
     | None => Q None k'
     | Some (o, inum) => wp (iget ROOTDEV inum) E (λ j, Q (Some (j, o))) k'
     end) →
  wp (dirlookup_loop dp name off fuel) E Q k.
Proof.
  intros Hd Hb. induction c as [|c IH]; intros fuel off k Q Hf Ho Hsz Hfu HQ.
  { destruct fuel as [|fuel]; cbn [dirlookup_loop]; wp_steps; (eapply wp_getinode; [apply Hf|]);
      rewrite (proj2 (Z.ltb_ge _ _)) by lia; wp_steps; by apply HQ. }
  destruct fuel as [|fuel]; [lia|]. cbn [dirlookup_loop]. wp_steps. eapply wp_getinode; [apply Hf|].
  rewrite (proj2 (Z.ltb_lt _ _)) by (unfold DIRENT_SIZE in *; lia). wp_steps.
  eapply t_read_entry; [exact Hf|done|done|unfold DIRENT_SIZE in *; lia|]. intros k1 Hf1 Hfr1. cbn [fst snd].
  rewrite Z.eqb_refl. cbn [negb]. cbv zeta. fold (entry_at v ip off).
  rewrite namecmp_match by (done || apply entry_bytes; (done || unfold DIRENT_SIZE in *; lia)). cbn [dir_find] in HQ. unfold de_match in HQ.
  assert (Hrec : wp (dirlookup_loop dp name (off + DIRENT_SIZE) fuel) E Q k1 ∨
    de_match name (entry_at v ip off) = true).
  { destruct (de_match name (entry_at v ip off)) eqn:Hm; [by right|left]. unfold de_match in Hm. rewrite Hm in HQ.
    eapply IH; [exact Hf1|unfold DIRENT_SIZE in *; lia..|]. intros k2 Hf2 Hfr2. apply HQ; [done|by rewrite Hfr1]. }
  unfold de_match in Hrec. destruct (de_inum (entry_at v ip off) =? 0); cbn [negb andb] in *.
  { by destruct Hrec. }
  destruct (bool_decide _); [|by destruct Hrec]. wp_steps.
  rewrite (fw_dev _ _ _ (fi_wf _ _ _ _ _ _ _ _ _ _ Hf)).
  eapply wp_post; [by apply HQ|]. intros j k2 HQ2. by wp_steps.
Qed.

(** [dirlookup]: the search, and [iget] of what it found. *)
Lemma t_dirlookup n m v ip name k (Q : option (nat * Z) → kernel → Prop) :
  finv E p st n m [] v dp ip k → dir_wf v ip → bytes name →
  (∀ k', finv E p st n m [] v dp ip k' → tframe k k' →
     match dir_find v ip name 0 (dir_entries ip) with
     | None => Q None k'
     | Some (o, inum) => wp (iget ROOTDEV inum) E (λ j, Q (Some (j, o))) k'
     end) →
  wp (dirlookup dp name) E Q k.
Proof.
  intros Hf Hd Hb HQ. unfold dirlookup. wp_steps. eapply wp_getinode; [apply Hf|].
  rewrite (dw_type _ _ Hd), Z.eqb_refl. cbn [negb].
  eapply (t_dirlookup_loop n m v ip name Hd Hb (dir_entries ip)); [exact Hf|lia|apply Hd| |exact HQ].
  unfold dir_fuel, dir_entries. lia.
Qed.

Lemma t_dirlink_loop n m v ip : dir_wf v ip → ∀ c fuel off k (Q : Z → kernel → Prop),
  finv E p st n m [] v dp ip k → 0 ≤ off → i_size ip = off + DIRENT_SIZE * Z.of_nat c → (c ≤ fuel)%nat →
  (∀ k', finv E p st n m [] v dp ip k' → tframe k k' → Q (dir_slot v ip off c) k') →
  wp (dirlink_loop dp off fuel) E Q k.
Proof.
  intros Hd. induction c as [|c IH]; intros fuel off k Q Hf Ho Hsz Hfu HQ.
  { destruct fuel as [|fuel]; cbn [dirlink_loop]; wp_steps; (eapply wp_getinode; [apply Hf|]);
      rewrite (proj2 (Z.ltb_ge _ _)) by lia; wp_steps; by apply HQ. }
  destruct fuel as [|fuel]; [lia|]. cbn [dirlink_loop]. wp_steps. eapply wp_getinode; [apply Hf|].
  rewrite (proj2 (Z.ltb_lt _ _)) by (unfold DIRENT_SIZE in *; lia). wp_steps.
  eapply t_read_entry; [exact Hf|done|done|unfold DIRENT_SIZE in *; lia|]. intros k1 Hf1 Hfr1. cbn [fst snd].
  rewrite Z.eqb_refl. cbn [negb]. fold (entry_at v ip off). cbn [dir_slot] in HQ.
  destruct (de_inum (entry_at v ip off) =? 0); wp_steps; [by apply HQ|].
  eapply IH; [exact Hf1|unfold DIRENT_SIZE in *; lia..|]. intros k2 Hf2 Hfr2. apply HQ; [done|by rewrite Hfr1].
Qed.
End dir.

(** ** Adding an entry *)

Lemma dir_find_ext v ip v' ip' name n : ∀ off,
  (∀ j, 0 ≤ j < Z.of_nat n → entry_at v' ip' (off + DIRENT_SIZE * j) = entry_at v ip (off + DIRENT_SIZE * j)) →
  dir_find v' ip' name off n = dir_find v ip name off n.
Proof.
  induction n as [|n IH]; intros off He; [done|]. cbn [dir_find].
  pose proof (He 0 ltac:(lia)) as H0. rewrite Z.mul_0_r, Z.add_0_r in H0. rewrite H0.
  rewrite IH; [done|]. intros j Hj.
  replace (off + DIRENT_SIZE + DIRENT_SIZE * j) with (off + DIRENT_SIZE * (j + 1)) by lia. apply He. lia.
Qed.

Lemma dir_find_app v ip name a b : ∀ off,
  dir_find v ip name off (a + b) =
  match dir_find v ip name off a with
  | Some r => Some r
  | None => dir_find v ip name (off + DIRENT_SIZE * Z.of_nat a) b
  end.
Proof.
  induction a as [|a IH]; intros off; cbn [dir_find Nat.add].
  - by rewrite Z.mul_0_r, Z.add_0_r.
  - case_match; [done|]. rewrite IH. case_match; [done|]. f_equal. lia.
Qed.

(** The slot is one of the entries, and free, or follows the last one. *)
Lemma dir_slot_spec v ip n : ∀ off, ∃ s,
  dir_slot v ip off n = off + DIRENT_SIZE * Z.of_nat s ∧
  (s = n ∨ (s < n)%nat ∧ de_inum (entry_at v ip (off + DIRENT_SIZE * Z.of_nat s)) = 0).
Proof.
  induction n as [|n IH]; intros off; cbn [dir_slot].
  - exists 0%nat. split; [lia|by left].
  - destruct (Z.eqb_spec (de_inum (entry_at v ip off)) 0) as [H0|].
    + exists 0%nat. rewrite Z.mul_0_r, Z.add_0_r. split; [done|]. right. split; [lia|done].
    + destruct (IH (off + DIRENT_SIZE)) as (s & Hs & Hc). exists (S s).
      replace (off + DIRENT_SIZE * Z.of_nat (S s)) with (off + DIRENT_SIZE + DIRENT_SIZE * Z.of_nat s) by lia.
      split; [done|]. destruct Hc as [->|[? ?]]; [by left|right; split; [lia|done]].
Qed.

(** The search in the directory with the new entry [de] in slot [s]. *)
Lemma dir_find_add v ip v' ip' name s n n' de :
  (s = n ∧ n' = S n ∨ (s < n)%nat ∧ n' = n ∧ de_inum (entry_at v ip (DIRENT_SIZE * Z.of_nat s)) = 0) →
  entry_at v' ip' (DIRENT_SIZE * Z.of_nat s) = de →
  (∀ j, 0 ≤ j < Z.of_nat n → j ≠ Z.of_nat s → entry_at v' ip' (DIRENT_SIZE * j) = entry_at v ip (DIRENT_SIZE * j)) →
  dir_find v' ip' name 0 n' =
  if de_match name de
  then match dir_find v ip name 0 s with Some r => Some r | None => Some (DIRENT_SIZE * Z.of_nat s, de_inum de) end
  else dir_find v ip name 0 n.
Proof.
  intros Hn Hs He.
  assert (Hfirst : dir_find v' ip' name 0 s = dir_find v ip name 0 s).
  { apply dir_find_ext. intros j Hj. rewrite !Z.add_0_l. apply He; lia. }
  set (rest := (n' - S s)%nat). assert (Hn' : n' = (s + S rest)%nat) by (unfold rest; lia).
  rewrite Hn', dir_find_app, Hfirst. cbn [dir_find]. rewrite Z.add_0_l, Hs.
  assert (Hlast : dir_find v' ip' name (DIRENT_SIZE * Z.of_nat s + DIRENT_SIZE) rest =
    dir_find v ip name (DIRENT_SIZE * Z.of_nat s + DIRENT_SIZE) rest).
  { apply dir_find_ext. intros j Hj.
    replace (DIRENT_SIZE * Z.of_nat s + DIRENT_SIZE + DIRENT_SIZE * j) with (DIRENT_SIZE * (Z.of_nat s + 1 + j)) by lia.
    apply He; unfold rest in Hj; lia. }
  destruct (de_match name de); [done|]. rewrite Hlast. destruct Hn as [[-> ->]|(Hlt & -> & H0)].
  - unfold rest. rewrite Nat.sub_diag. cbn [dir_find]. by case_match.
  - rewrite Hn'. rewrite dir_find_app. cbn [dir_find]. rewrite Z.add_0_l. case_match; [done|].
    unfold de_match at 1. by rewrite H0.
Qed.

Lemma de_of_bytes_bytes de : u16 (de_inum de) = de_inum de → length (de_name de) = 14%nat →
  de_of_bytes (de_bytes de) = de.
Proof.
  intros Hi Hl. unfold de_of_bytes, de_bytes, get16, bslice. destruct de as [inum name]. cbn [de_inum de_name] in *.
  f_equal.
  - rewrite drop_0, take_app_length' by (by rewrite length_le_put). rewrite le_get_put. done.
  - rewrite drop_app_length' by (by rewrite length_le_put). apply take_ge. unfold DIRSIZ. lia.
Qed.

(** The entry that [dirlink] makes. *)
Definition new_dirent (name : list Z) (inum : Z) : dirent :=
  mkDirent (u16 inum) (bytes_of (strncpy (λ _, 0) 0 (cells name) DIRSIZ) DIRSIZ).

Lemma cells_bytes_of f n i : 0 ≤ i < n → cells (bytes_of f n) i = f i.
Proof.
  intros Hi. unfold cells, bytes_of. rewrite nth_lookup, list_lookup_fmap, lookup_seqZ_lt by lia.
  cbn. f_equal. lia.
Qed.

Lemma cstr_new_dirent name inum : cstr (cells (de_name (new_dirent name inum))) DIRSIZ = cstr (cells name) DIRSIZ.
Proof.
  destruct (strncpy_spec (λ _, 0) 0 (cells name) DIRSIZ ltac:(done)) as [<- _].
  unfold cstr. apply cstr_from_ext. intros k Hk. rewrite !Z.add_0_l. unfold new_dirent. cbn [de_name].
  rewrite cells_bytes_of by (unfold DIRSIZ in *; lia). done.
Qed.

Lemma length_new_dirent name inum : length (de_name (new_dirent name inum)) = 14%nat.
Proof. done. Qed.

(** ** [dirlink] *)

(** The directory after [dirlink] of a name that was not in it. *)
Record linked (name : list Z) (inum : Z) (v : Z → block) (ip : inode) (v' : Z → block) (ip' : inode) : Prop := {
  lk_wf : dir_wf v' ip';
  lk_find : ∀ name', dir_find v' ip' name' 0 (dir_entries ip') =
    if decide (cstr (cells name') DIRSIZ = cstr (cells name) DIRSIZ)
    then Some (dir_slot v ip 0 (dir_entries ip), u16 inum)
    else dir_find v ip name' 0 (dir_entries ip);
  lk_frame : ∀ x, 0 < x < FSSIZE → used v x = true → x ≠ bitmap_block v → ¬ mine v ip x →
    x ≠ IBLOCK (i_inum ip) → v' x = v x
}.

Lemma fbytes_untouched off src v ip v' ip' o n :
  written off src v ip v' ip' → 0 ≤ o → o + n ≤ i_size ip' → (o + n ≤ off ∨ off + Z.of_nat (length src) ≤ o) →
  fbytes v' ip' o n = fbytes v ip o n.
Proof.
  intros Hw Ho Hle Hdis. unfold fbytes. apply list_fmap_ext. intros j x [-> Hj]%lookup_seqZ.
  rewrite (wt_bytes _ _ _ _ _ _ Hw) by lia. by rewrite bool_decide_eq_false_2 by lia.
Qed.

(** A match before slot [s] is the first match of the whole search. *)
Lemma dir_find_prefix v ip name s n : (s ≤ n)%nat → dir_find v ip name 0 n = None → dir_find v ip name 0 s = None.
Proof.
  intros Hs. replace n with (s + (n - s))%nat by lia. rewrite dir_find_app. by case_match.
Qed.

Lemma dir_find_cstr v ip name name' n : cstr (cells name') DIRSIZ = cstr (cells name) DIRSIZ →
  ∀ off, dir_find v ip name' off n = dir_find v ip name off n.
Proof.
  intros Hc. induction n as [|n IH]; intros off; [done|]. cbn [dir_find].
  assert (Hm : ∀ de, de_match name' de = de_match name de) by (intros de; unfold de_match; by rewrite Hc).
  by rewrite Hm, IH.
Qed.

Lemma fn_insert_byte (m : mem) a x : (∀ b, is_byte (m b)) → is_byte x → ∀ b, is_byte (<[a := x]> m b).
Proof.
  intros Hm Hx b. destruct (decide (b = a)) as [->|].
  - by rewrite fn_lookup_insert.
  - by rewrite fn_lookup_insert_ne.
Qed.

Lemma strncpy_bytes m s t n : (∀ a, is_byte (m a)) → (∀ i, is_byte (t i)) → ∀ a, is_byte (strncpy m s t n a).
Proof.
  intros Hm Ht. unfold strncpy. generalize 0 as i. revert m Hm. generalize (Z.to_nat n) as k.
  induction k as [|k IH]; intros m Hm i a; cbn [strncpy_loop]; [done|].
  assert (Hm' : ∀ b, is_byte (<[s + i := t i]> m b)) by (intros; by apply fn_insert_byte).
  case_match; [|by apply IH]. rewrite zero_fill_ok. case_bool_decide; [unfold is_byte; lia|done].
Qed.

Lemma bytes_new_dirent name inum : bytes name → bytes (de_bytes (new_dirent name inum)).
Proof.
  intros Hb. apply Forall_app. split; [apply bytes_le_put|]. apply Forall_fmap, Forall_true. intros a.
  apply strncpy_bytes; [unfold is_byte; lia|intros; by apply is_byte_cells].
Qed.

(** The names that match the new entry. *)
Lemma de_match_new name name' inum : u16 inum ≠ 0 →
  de_match name' (new_dirent name inum) = bool_decide (cstr (cells name') DIRSIZ = cstr (cells name) DIRSIZ).
Proof.
  intros Hnz. unfold de_match. rewrite cstr_new_dirent. cbn [de_inum new_dirent]. by rewrite (proj2 (Z.eqb_neq _ _)).
Qed.

Lemma linked_written name inum v ip v' ip' :
  dir_wf v ip → u16 inum ≠ 0 → bytes name → dir_find v ip name 0 (dir_entries ip) = None →
  written (dir_slot v ip 0 (dir_entries ip)) (de_bytes (new_dirent name inum)) v ip v' ip' →
  linked name inum v ip v' ip'.
Proof.
  intros Hd Hnz Hbn Habs Hw. pose proof Hd as [Hty Hsz Hc Hby].
  destruct (dir_slot_spec v ip (dir_entries ip) 0) as (s & Hs & Hcase). rewrite !Z.add_0_l in *.
  rewrite Hs in *. set (off := DIRENT_SIZE * Z.of_nat s) in *.
  assert (Hlen : Z.of_nat (length (de_bytes (new_dirent name inum))) = DIRENT_SIZE) by done.
  pose proof (wt_size _ _ _ _ _ _ Hw) as Hsz'. rewrite Hlen in Hsz'. unfold new_size in Hsz'. cbn iota in Hsz'.
  change (0 <? DIRENT_SIZE) with true in Hsz'. cbn iota in Hsz'.
  assert (Hn' : s = dir_entries ip ∧ dir_entries ip' = S (dir_entries ip) ∨
    (s < dir_entries ip)%nat ∧ dir_entries ip' = dir_entries ip ∧ de_inum (entry_at v ip off) = 0).
  { assert (Hde : dir_entries ip' = Z.to_nat (Z.max (DIRENT_SIZE * Z.of_nat (dir_entries ip)) (off + DIRENT_SIZE) / DIRENT_SIZE)).
    { unfold dir_entries at 1. by rewrite Hsz', <-Hsz. }
    rewrite Hde. unfold off. destruct Hcase as [->|[Hlt H0]].
    - left. split; [done|]. rewrite Z.max_r by (unfold DIRENT_SIZE; lia).
      replace (DIRENT_SIZE * Z.of_nat (dir_entries ip) + DIRENT_SIZE) with ((Z.of_nat (dir_entries ip) + 1) * DIRENT_SIZE) by lia.
      rewrite Z.div_mul by done. lia.
    - right. split; [done|]. split; [|done]. rewrite Z.max_l by (unfold DIRENT_SIZE; lia).
      rewrite Z.mul_comm, Z.div_mul by done. lia. }
  assert (Hoff : off + DIRENT_SIZE ≤ i_size ip') by lia.
  assert (Hnew : entry_at v' ip' off = new_dirent name inum).
  { unfold entry_at. rewrite <-Hlen, (fbytes_written off _ v ip v' ip') by (done || unfold off, DIRENT_SIZE in *; lia).
    apply de_of_bytes_bytes; [apply Z.mod_mod; done|done]. }
  assert (Hold : ∀ j, 0 ≤ j < Z.of_nat (dir_entries ip) → j ≠ Z.of_nat s →
    entry_at v' ip' (DIRENT_SIZE * j) = entry_at v ip (DIRENT_SIZE * j)).
  { intros j Hj Hne. unfold entry_at. f_equal. eapply fbytes_untouched; [exact Hw|..]; rewrite ?Hlen;
      unfold off, DIRENT_SIZE in *; lia. }
  split.
  - split.
    + pose proof (wt_meta _ _ _ _ _ _ Hw) as He. rewrite <-Hty, <-He. done.
    + rewrite Hsz'. unfold off. rewrite Hsz at 1. destruct Hn' as [[Hs1 ->]|(Hlt & -> & _)]; unfold DIRENT_SIZE; lia.
    + apply Hw.
    + intros o Ho. rewrite (wt_bytes _ _ _ _ _ _ Hw) by done. case_bool_decide as Hin.
      * apply (is_byte_cells _ (o - off)). by apply bytes_new_dirent.
      * apply Hby. rewrite Hlen in Hin. unfold off, DIRENT_SIZE in *. lia.
  - intros name'. rewrite (dir_find_add v ip v' ip' name' s (dir_entries ip) _ (new_dirent name inum)) by done.
    rewrite de_match_new by done. case_bool_decide as Hm; [|by rewrite decide_False].
    rewrite decide_True by done. rewrite (dir_find_cstr v ip name name') by done.
    rewrite (dir_find_prefix _ _ _ s (dir_entries ip)); [by rewrite Hs|lia|done].
  - intros. by apply (wt_frame _ _ _ _ _ _ Hw).
Qed.

Section dirlink.
Context `{Devsw} (E : string → Prop) (p : nat) (st : Z) (dp : nat).

(** An entry lies within one block. *)
Lemma entry_enough off : off mod DIRENT_SIZE = 0 → enough off DIRENT_SIZE 1.
Proof.
  intros Ho. right. apply Z.mod_divide in Ho as [q ->]; [|done]. unfold BSIZE, DIRENT_SIZE in *.
  replace 512 with (32 * 16) at 1 by done. rewrite Zmult_mod_distr_r.
  pose proof (Z.mod_pos_bound q 32 eq_refl). lia.
Qed.

Lemma t_dirlink n m v ip name inum k (Q : Z → kernel → Prop) :
  finv E p st n m [] v dp ip k → dir_wf v ip → 0 ≤ i_inum ip < sb_ninodes (sbv v) →
  i_size ip + DIRENT_SIZE ≤ MAXFILE * BSIZE → 7 ≤ n → 2 ≤ m → bytes name → u16 inum ≠ 0 →
  dir_find v ip name 0 (dir_entries ip) = None →
  (∀ v' ip' k', finv E p st (n - 7) (m - 2) [] v' dp ip' k' → linked name inum v ip v' ip' →
     iframe dp k k' → Q 0 k') →
  wp (dirlink dp name inum) E Q k.
Proof.
  intros Hf Hd Hin Hmax Hn Hm Hb Hnz Habs HQ. unfold dirlink. wp_steps.
  eapply t_dirlookup; [exact Hf|done|done|]. intros k1 Hf1 Hfr1. rewrite Habs. wp_steps.
  eapply wp_getinode; [apply Hf1|]. wp_steps.
  eapply (t_dirlink_loop E p st dp n m v ip Hd (dir_entries ip)); [exact Hf1|lia|apply Hd|unfold dir_fuel, dir_entries; lia|].
  intros k2 Hf2 Hfr2. cbv zeta. fold (new_dirent name inum). wp_steps.
  destruct (dir_slot_spec v ip (dir_entries ip) 0) as (s & Hs & Hcase). rewrite Z.add_0_l in Hs.
  set (off := dir_slot v ip 0 (dir_entries ip)) in *. pose proof Hd as [Hty Hsz Hc _].
  change DIRENT_SIZE with (Z.of_nat (length (de_bytes (new_dirent name inum)))) at 1.
  assert (Hoff : 0 ≤ off ≤ i_size ip) by (unfold DIRENT_SIZE in *; lia).
  eapply (t_writei E p st dp 1); [exact Hf2|done|by rewrite Hty|done|done| | |vm_compute; lia|lia|lia|].
  - change (Z.of_nat (length _)) with DIRENT_SIZE. lia.
  - apply entry_enough. rewrite Hs, Z.mul_comm. by apply Z_mod_mult.
  - intros v' ip' k3 Hf3 Hw3 Hfr3. change (Z.of_nat (length _)) with DIRENT_SIZE.
    rewrite Z.eqb_refl. cbn [negb]. wp_steps. eapply HQ.
    + replace (n - 7) with (n - 6 * Z.of_nat 1 - 1) by lia. by replace (m - 2) with (m - 2 * Z.of_nat 1) by lia.
    + by apply linked_written.
    + rewrite <-Hfr3. apply tframe_iframe. by rewrite Hfr1.
Qed.
End dirlink.

(** ** The properties of directories *)

Lemma tinv_same E p n H v k k' :
  tinv E p n H v k → at_mach [] (Some p) (k_mach k') → k_pt k' = k_pt k → k_ide k' = k_ide k →
  k_bc k' = k_bc k → k_log k' = k_log k → tinv E p n H v k'.
Proof.
  intros (a & [[[_ Hp] Hi] Hb] & Hv & Hs & Hrest) Hm Hpt Hide Hbc Hlog. exists a.
  unfold pinned, space, logged in *. rewrite Hlog. split; [|done].
  split; [|by eapply bdat_ext]. split; [|by rewrite Hide]. split; [done|]. by rewrite Hpt.
Qed.

(** [iget] of an inode gives entry [j] of the cache with one more reference:
    the entry in use for that inode, or else an entry that had none. *)
Definition took (dev inum : Z) (j : nat) (k k' : kernel) : Prop :=
  ∃ x x', k_ic k !! j = Some x ∧ k_ic k' = <[j := x']> (k_ic k) ∧
    (0 < i_ref x ∧ i_key x = (dev, inum) ∧ x' = set_i_ref (i32 (i_ref x + 1)) x ∨
     i_ref x = 0 ∧ x' = set_i_flags 0 (set_i_ref 1 (set_i_key dev inum x)) ∧
       ∀ i y, k_ic k !! i = Some y → 0 < i_ref y → i_key y ≠ (dev, inum)).

(** [iget] inside a transaction. *)
Lemma t_iget E p n H v k dev inum (Q : nat → kernel → Prop) :
  tinv E p n H v k → (iget_scan dev inum (k_ic k) 0 None ≠ inr None ∨ E "iget: no inodes") →
  (∀ j k', tinv E p n H v k' → took dev inum j k k' → Q j k') →
  wp (iget dev inum) E Q k.
Proof.
  intros Ht Hs HQ.
  assert (Hm : at_mach [] (Some p) (k_mach k)) by (by destruct Ht as (a & [[[Hm _] _] _] & _)).
  unfold iget. wp_steps. eapply wp_acquire; [exact Hm|nolock|]. intros m1 Hm1. wp_steps. cbn [set_mach k_ic].
  destruct (iget_scan dev inum (k_ic k) 0 None) as [j|[j|]] eqn:Hscan.
  - apply iget_scan_hit in Hscan as (j' & ip & -> & Hj & Hr & Hk). cbn [Nat.add]. wp_steps.
    eapply wp_updinode; [exact Hj|]. wp_steps. eapply wp_release; [exact Hm1|]. intros m2 Hm2. wp_steps.
    apply HQ; [by eapply tinv_same|]. exists ip. eexists. split; [exact Hj|]. split; [reflexivity|]. by left.
  - apply iget_scan_miss in Hscan as [Hno [?|(j' & ip & -> & Hj & Hr)]]; [done|]. cbn [Nat.add]. wp_steps.
    assert (Hlt : (j' < length (k_ic k))%nat) by (by eapply lookup_lt_Some).
    eapply wp_updinode; [exact Hj|]. wp_steps.
    eapply wp_updinode; [cbn; by apply list_lookup_insert_eq|]. wp_steps.
    eapply wp_updinode; [cbn; rewrite list_insert_insert_eq; by apply list_lookup_insert_eq|]. wp_steps.
    eapply wp_release; [exact Hm1|]. intros m2 Hm2. wp_steps. apply HQ; [by eapply tinv_same|].
    exists ip. eexists. split; [exact Hj|]. cbn. rewrite !list_insert_insert_eq. split; [reflexivity|]. by right.
  - destruct Hs as [Hs|Hs]; [done|by apply wp_panic].
Qed.

(** [iput] of a reference that is not the last one, or of an inode that was
    not read. *)
Lemma t_iput_drop E p n H v k j x (Q : unit → kernel → Prop) :
  tinv E p n H v k → k_ic k !! j = Some x → i_ref x ≠ 1 ∨ i_flags x = 0 →
  (∀ k', tinv E p n H v k' → k_ic k' = <[j := set_i_ref (i32 (i_ref x - 1)) x]> (k_ic k) → Q tt k') →
  wp (iput j) E Q k.
Proof.
  intros Ht Hj Hc HQ.
  assert (Hm : at_mach [] (Some p) (k_mach k)) by (by destruct Ht as (a & [[[Hm _] _] _] & _)).
  unfold iput. wp_steps. eapply wp_acquire; [exact Hm|nolock|]. intros m1 Hm1. wp_steps.
  eapply wp_getinode; [exact Hj|].
  assert (Hg : (i_ref x =? 1) && hasf (i_flags x) I_VALID && (i_nlink x =? 0) = false).
  { destruct Hc as [Hc|Hc]; [by rewrite (proj2 (Z.eqb_neq _ _) Hc)|]. rewrite Hc. by rewrite andb_false_r. }
  rewrite Hg. cbn [when]. wp_steps. eapply wp_updinode; [exact Hj|]. wp_steps. eapply wp_release; [exact Hm1|].
  intros m2 Hm2. apply HQ; [by eapply tinv_same|reflexivity].
Qed.

(** The reference counts are [int]s. *)
Definition refs_int (k : kernel) : Prop := Forall (λ x, i32 (i_ref x) = i_ref x) (k_ic k).
(** Every entry of the cache in use is as it was, and no other is in use. *)
Definition refs_kept (k k' : kernel) : Prop :=
  ∀ i x, k_ic k !! i = Some x → ∃ x', k_ic k' !! i = Some x' ∧ i_ref x' = i_ref x ∧ (0 < i_ref x → x' = x).

Lemma i32_succ_pred r : i32 r = r → i32 (i32 (r + 1) - 1) = r.
Proof.
  intros Hr. transitivity (i32 r); [|done]. apply i32_cong. destruct (i32_repr (r + 1)) as [q ->]. exists q. lia.
Qed.

(** A reference taken and given back. *)
Lemma t_iget_iput E p n H v k k' dev inum j (Q : unit → kernel → Prop) :
  tinv E p n H v k' → took dev inum j k k' → refs_int k →
  (∀ k2, tinv E p n H v k2 → refs_kept k k2 → Q tt k2) → wp (iput j) E Q k'.
Proof.
  intros Ht (x & x' & Hj & Hic & Hcase) Hint HQ. pose proof (lookup_lt_Some _ _ _ Hj) as Hlt.
  pose proof (Forall_lookup_1 _ _ _ _ Hint Hj) as Hx. cbn in Hx.
  assert (Hj' : k_ic k' !! j = Some x') by (rewrite Hic; by apply list_lookup_insert_eq).
  eapply t_iput_drop; [exact Ht|exact Hj'| |].
  - destruct Hcase as [(Hr & _ & ->)|(_ & -> & _)]; [left|by right]. cbn [i_ref set_i_ref]. intros H1.
    pose proof (i32_succ_pred _ Hx) as H2. rewrite H1 in H2. change (i32 (1 - 1)) with 0 in H2. lia.
  - intros k2 Ht2 Hic2. apply HQ; [exact Ht2|]. rewrite Hic, list_insert_insert_eq in Hic2. intros i y Hi. rewrite Hic2.
    destruct (decide (i = j)) as [->|Hne]; [|rewrite list_lookup_insert_ne by done; by exists y].
    rewrite list_lookup_insert_eq by done. rewrite Hj in Hi. injection Hi as <-. eexists. split; [reflexivity|].
    destruct Hcase as [(Hr & _ & ->)|(Hr & -> & _)]; cbn [i_ref set_i_ref set_i_flags set_i_key].
    + rewrite i32_succ_pred by done. by destruct x.
    + split; [by rewrite Hr|lia].
Qed.

Section props.
Context `{Devsw}.

(** C12: [dirlookup] of a name that no entry in use has returns nothing and
    leaves the inode cache as it was; of any other name it returns the offset
    of the first entry in use with the same name (the same bytes before the
    NUL, at most [DIRSIZ]), and an entry of the inode cache for its inode
    number with one more reference: the one in use for that inode, or a new
    one when there was none.  No block changes. *)
Theorem dirlookup_finds p st n m v dp ip name k :
  finv no_panic p st n m [] v dp ip k → dir_wf v ip → bytes name →
  (∀ inum, iget_scan ROOTDEV inum (k_ic k) 0 None ≠ inr None) →
  ∃ r k', dirlookup dp name k = Ok r k' ∧ tinv no_panic p n [] v k' ∧
    match dir_find v ip name 0 (dir_entries ip) with
    | None => r = None ∧ k_ic k' = k_ic k
    | Some (off, inum) => ∃ j, r = Some (j, off) ∧ took ROOTDEV inum j k k'
    end.
Proof.
  intros Hf Hd Hb Hroom.
  apply (wp_ok (dirlookup dp name) (λ r k', tinv no_panic p n [] v k' ∧ match dir_find v ip name 0 (dir_entries ip) with
    | None => r = None ∧ k_ic k' = k_ic k | Some (off, inum) => ∃ j, r = Some (j, off) ∧ took ROOTDEV inum j k k' end) k).
  eapply t_dirlookup; [exact Hf|done|done|]. intros k1 Hf1 Hfr1. pose proof (tframe_ic _ _ Hfr1) as Hic.
  destruct (dir_find v ip name 0 (dir_entries ip)) as [[off inum]|]; [|by split; [apply Hf1|]].
  eapply t_iget; [apply Hf1|left; rewrite Hic; apply Hroom|].
  intros j k2 Ht2 Htook. split; [exact Ht2|]. exists j. split; [done|]. unfold took in *. by rewrite <-Hic.
Qed.

(** C13: [dirlink] of a name that the directory has returns -1, and leaves
    every block and every reference to an inode as it was.  Of a name that it
    does not have, with log slots and free blocks for one entry, it returns 0,
    and from then on a search for that name gives the new inode number, a
    search for any other name what it gave before, and every block in use by
    others is as it was. *)
Theorem dirlink_adds p st n m v dp ip name inum k :
  finv no_panic p st n m [] v dp ip k → dir_wf v ip → 0 ≤ i_inum ip < sb_ninodes (sbv v) →
  i_size ip + DIRENT_SIZE ≤ MAXFILE * BSIZE → 7 ≤ n → 2 ≤ m → bytes name → u16 inum ≠ 0 →
  refs_int k → (∀ i, iget_scan ROOTDEV i (k_ic k) 0 None ≠ inr None) →
  match dir_find v ip name 0 (dir_entries ip) with
  | Some _ => ∃ k', dirlink dp name inum k = Ok (-1) k' ∧ tinv no_panic p n [] v k' ∧ refs_kept k k'
  | None => ∃ v' ip' k', dirlink dp name inum k = Ok 0 k' ∧
      finv no_panic p st (n - 7) (m - 2) [] v' dp ip' k' ∧ linked name inum v ip v' ip'
  end.
Proof.
  intros Hf Hd Hin Hmax Hn Hm Hb Hnz Hint Hroom. destruct (dir_find v ip name 0 (dir_entries ip)) as [[off i]|] eqn:Hfind.
  - destruct (wp_ok (dirlink dp name inum) (λ r k', r = -1 ∧ tinv no_panic p n [] v k' ∧ refs_kept k k') k)
      as (r & k' & Hr & -> & HQ); [|by exists k'].
    unfold dirlink. wp_steps. eapply t_dirlookup; [exact Hf|done|done|]. intros k1 Hf1 Hfr1.
    pose proof (tframe_ic _ _ Hfr1) as Hic. rewrite Hfind.
    eapply t_iget; [apply Hf1|left; rewrite Hic; apply Hroom|]. intros j k2 Ht2 Htook. wp_steps.
    eapply t_iget_iput; [exact Ht2|exact Htook|unfold refs_int; by rewrite Hic|]. intros k3 Ht3 Hk3. wp_steps.
    split; [done|]. split; [done|]. unfold refs_kept in *. by rewrite <-Hic.
  - destruct (wp_ok (dirlink dp name inum) (λ r k', r = 0 ∧ ∃ v' ip',
      finv no_panic p st (n - 7) (m - 2) [] v' dp ip' k' ∧ linked name inum v ip v' ip') k)
      as (r & k' & Hr & -> & v' & ip' & HQ); [|by exists v', ip', k'].
    eapply t_dirlink; [done..|]. intros v' ip' k' Hf' Hl' _. eauto.
Qed.
End props.

(** *** An example directory in block 40: a file [a] with inode 5, and a free
    slot. *)

#[local] Instance dir_no_devices : Devsw := {| dev_read := λ _, None; dev_write := λ _, None |}.

Definition demo_dir : inode := mkInode 1 19 1 3 T_DIR 0 0 1 0 0 420 32 [40; 41; 0; 0; 0; 0; 0; 0; 0; 0; 0].
Definition demo_entries : block := de_bytes (mkDirent 5 (97 :: replicate 13 0)) ++ replicate 496 0.
Definition demo_dir_disk : gmap (Z * Z) block := <[(1, 40) := demo_entries]> (fs_disk 60).
Definition demo_dir_view : Z → block := disk_get demo_dir_disk 1.

Lemma demo_dir_same b : b ≠ 40 → demo_dir_view b = demo_view b.
Proof. intros Hb. unfold demo_dir_view, demo_view, disk_get, demo_dir_disk. by rewrite lookup_insert_ne by congruence. Qed.
Lemma demo_dir_len u b : length (disk_get demo_dir_disk u b) = Z.to_nat BSIZE.
Proof.
  unfold disk_get, demo_dir_disk. destruct (decide ((1, 40) = (u, b))) as [<-|Hne].
  - rewrite lookup_insert_eq. reflexivity.
  - rewrite lookup_insert_ne by done. apply fs_disk_len.
Qed.
Lemma demo_dir_used x : used demo_dir_view x = used demo_view x.
Proof.
  assert (Hb : bitmap_block demo_dir_view = 28 ∧ bitmap_block demo_view = 28) by (vm_compute; split; reflexivity).
  unfold used. destruct Hb as [-> ->]. by rewrite demo_dir_same.
Qed.
Lemma demo_dir_geo : fs_geo 970 demo_dir_view ∧ nfree 970 demo_dir_view = 910.
Proof.
  destruct (fs_disk_geo 60 ltac:(lia)) as [Hg _]. fold demo_view in Hg.
  assert (Hs : sbv demo_dir_view = sbv demo_view ∧ bitmap_block demo_dir_view = bitmap_block demo_view) by (vm_compute; split; reflexivity).
  destruct Hs as [Hs Hb], Hg as [H1 H2 H3 H4 H5]. split; [split; rewrite ?Hs, ?Hb|].
  - exact H1.
  - exact H2.
  - exact H3.
  - exact H4.
  - intros b Hbb. rewrite demo_dir_used. by apply H5.
  - unfold nfree. rewrite (list_filter_iff _ (λ b, used demo_view b = false)) by (intros b; by rewrite demo_dir_used).
    by destruct demo_facts as (_ & _ & _ & Hn & _).
Qed.

Lemma demo_dir_finv : ∃ k, finv no_panic 0 970 25 10 [] demo_dir_view 0 demo_dir k ∧ dir_wf demo_dir_view demo_dir ∧
  k_ic k = [demo_dir; inode0].
Proof.
  destruct (demo_tinv demo_dir_disk demo_dir_len) as (k & Ht & Hl & _). destruct demo_dir_geo as [Hg Hn].
  destruct demo_facts as (Hu40 & Hu41 & _ & _). rewrite <-demo_dir_used in Hu40, Hu41.
  destruct (demo_wf demo_dir_view Hu40 Hu41 ltac:(vm_compute; reflexivity)) as [[H1 H2 H3 H4 H5] [_ Hc]].
  exists (set_ic [demo_dir; inode0] k). split; [split|split; [split|reflexivity]].
  - by apply tinv_set_ic.
  - cbn. by rewrite Hl.
  - unfold FSSIZE. lia.
  - exact Hg.
  - rewrite Hn. lia.
  - reflexivity.
  - split; [exact H1|exact H2|exact H3|exact H4|exact H5].
  - reflexivity.
  - reflexivity.
  - split; [rewrite MAXFILE_val; cbn; unfold BSIZE; lia|]. intros bn Hbn Hlt. apply Hc; [done|]. cbn in *. lia.
  - intros o Ho. cbn in Ho.
    assert (Hall : bytes (fbytes demo_dir_view demo_dir 0 32)).
    { apply (bool_decide_unpack _). vm_compute. exact I. }
    apply (Forall_lookup_1 _ _ (Z.to_nat o) (fbyte demo_dir_view demo_dir o) Hall).
    unfold fbytes. rewrite list_lookup_fmap, lookup_seqZ_lt by lia. cbn [fmap option_fmap option_map]. do 2 f_equal. lia.
Qed.

Lemma demo_dir_room inum : iget_scan ROOTDEV inum [demo_dir; inode0] 0 None ≠ inr None.
Proof. cbn [iget_scan]. case_match; discriminate. Qed.

(** The file [a], for which the cache has no entry yet, and a name that is not
    there. *)
Lemma dirlookup_finds_witness : ∃ k k' k'', dirlookup 0 [97; 0] k = Ok (Some (1%nat, 0)) k' ∧
  k_ic k' = [demo_dir; set_i_flags 0 (set_i_ref 1 (set_i_key 1 5 inode0))] ∧ dirlookup 0 [98; 0] k = Ok None k''.
Proof.
  destruct demo_dir_finv as (k & Hf & Hd & Hic). exists k.
  assert (Hb : ∀ c, 0 <= c < 256 → bytes [c; 0]) by (repeat constructor; unfold is_byte; lia).
  assert (Hroom : ∀ inum, iget_scan ROOTDEV inum (k_ic k) 0 None ≠ inr None) by (intros inum; rewrite Hic; apply demo_dir_room).
  destruct (dirlookup_finds 0 970 25 10 demo_dir_view 0 demo_dir [97; 0] k Hf Hd (Hb 97 ltac:(lia)) Hroom) as (r & k' & Hr & _ & Hres).
  destruct (dirlookup_finds 0 970 25 10 demo_dir_view 0 demo_dir [98; 0] k Hf Hd (Hb 98 ltac:(lia)) Hroom) as (r2 & k2 & Hr2 & _ & Hres2).
  assert (H1 : dir_find demo_dir_view demo_dir [97; 0] 0 (dir_entries demo_dir) = Some (0, 5)) by (vm_compute; reflexivity).
  assert (H2 : dir_find demo_dir_view demo_dir [98; 0] 0 (dir_entries demo_dir) = None) by (vm_compute; reflexivity).
  rewrite H1 in Hres. rewrite H2 in Hres2. destruct Hres2 as [-> _]. destruct Hres as (j & -> & x & x' & Hj & Hk' & Hc). rewrite Hic in Hj, Hk'.
  assert (Hj1 : j = 1%nat ∧ x = inode0).
  { destruct j as [|[|j]]; [|by injection Hj as <-|done]. injection Hj as <-. destruct Hc as [(_ & Hkey & _)|(Hr0 & _)]; discriminate. }
  destruct Hj1 as [-> ->]. destruct Hc as [(Hlt & _)|(_ & -> & _)]; [discriminate Hlt|].
  exists k', k2. split; [exact Hr|]. split; [exact Hk'|exact Hr2].
Defined.

(** A new name, and one that is there. *)
Lemma dirlink_adds_witness : ∃ k k' v' ip' k'', dirlink 0 [98; 0] 7 k = Ok 0 k' ∧
  dir_find v' ip' [98; 0] 0 (dir_entries ip') = Some (16, 7) ∧ dirlink 0 [97; 0] 7 k = Ok (-1) k''.
Proof.
  destruct demo_dir_finv as (k & Hf & Hd & Hic). exists k.
  assert (Hni : sb_ninodes (sbv demo_dir_view) = 200) by (vm_compute; reflexivity).
  assert (Hb : ∀ c, 0 <= c < 256 → bytes [c; 0]) by (repeat constructor; unfold is_byte; lia).
  assert (Hint : refs_int k) by (unfold refs_int; rewrite Hic; repeat constructor).
  assert (Hroom : ∀ inum, iget_scan ROOTDEV inum (k_ic k) 0 None ≠ inr None) by (intros inum; rewrite Hic; apply demo_dir_room).
  assert (Hin : 0 ≤ i_inum demo_dir < sb_ninodes (sbv demo_dir_view)) by (rewrite Hni; cbn; lia).
  assert (Hsz : i_size demo_dir + DIRENT_SIZE ≤ MAXFILE * BSIZE) by (rewrite MAXFILE_val; cbn; unfold DIRENT_SIZE, BSIZE; lia).
  pose proof (λ c Hc, dirlink_adds 0 970 25 10 demo_dir_view 0 demo_dir [c; 0] 7 k Hf Hd Hin Hsz ltac:(lia) ltac:(lia) (Hb c Hc) ltac:(discriminate) Hint Hroom) as Hl.
  assert (H1 : dir_find demo_dir_view demo_dir [97; 0] 0 (dir_entries demo_dir) = Some (0, 5)) by (vm_compute; reflexivity).
  assert (H2 : dir_find demo_dir_view demo_dir [98; 0] 0 (dir_entries demo_dir) = None) by (vm_compute; reflexivity).
  pose proof (Hl 98 ltac:(lia)) as Hnew. pose proof (Hl 97 ltac:(lia)) as Hold. rewrite H2 in Hnew. rewrite H1 in Hold.
  destruct Hnew as (v' & ip' & k' & Hr & _ & Hlk), Hold as (k2 & Hr2 & _).
  exists k', v', ip', k2. split; [exact Hr|]. split; [|exact Hr2]. rewrite (lk_find _ _ _ _ _ _ Hlk), decide_True by reflexivity. vm_compute. reflexivity.
Defined.
