(* ===== verification/FsPath.v ===== *)
(** * FsPath: path names of kernel/fs.c

    [skipelem] against the split of a path at its slashes, and the number of
    steps of [namex]. *)

From stdpp Require Import prelude functions gmap strings.
From S2P Require Import Prelude Types Spinlock Sched Cstr Fs FsDir.
Open Scope Z_scope.

(** ** The elements of a path *)

Fixpoint split_slash (path : list Z) : list (list Z) :=
  match path with
  | [] => [[]]
  | c :: rest =>
      if c =? slash then [] :: split_slash rest
      else match split_slash rest with
           | e :: es => (c :: e) :: es
           | [] => [[c]]
           end
  end.

Definition elements (path : list Z) : list (list Z) := filter (λ e, e ≠ []) (split_slash path).

Lemma split_slash_cons path : ∃ e es, split_slash path = e :: es.
Proof. destruct path as [|c path]; cbn; [by do 2 eexists|]. case_match; [by do 2 eexists|]. case_match; by do 2 eexists. Qed.

Lemma elements_slash path : elements (slash :: path) = elements path.
Proof. unfold elements. cbn [split_slash]. rewrite Z.eqb_refl. rewrite filter_cons, decide_False; [done|by intros []]. Qed.

Lemma elements_skip path : elements (skip_slashes path) = elements path.
Proof.
  induction path as [|c path IH]; [done|]. cbn [skip_slashes]. destruct (Z.eqb_spec c slash) as [->|]; [|done].
  by rewrite elements_slash.
Qed.

Lemma skip_slashes_head path : match skip_slashes path with [] => True | c :: _ => c ≠ slash end.
Proof. induction path as [|c path IH]; [done|]. cbn [skip_slashes]. by destruct (Z.eqb_spec c slash). Qed.

(** The first element of a path that starts with one. *)
Lemma skip_name_split path :
  ∃ es, split_slash path = (skip_name path).1 :: es ∧ split_slash (skip_name path).2 = [] :: es ∨
    split_slash path = [(skip_name path).1] ∧ (skip_name path).2 = [].
Proof.
  induction path as [|c path IH]; [exists []; right; done|]. cbn [skip_name split_slash].
  destruct (Z.eqb_spec c slash) as [->|Hne].
  - exists (split_slash path). left. cbn [fst snd]. split; [done|]. cbn [split_slash]. by rewrite Z.eqb_refl.
  - destruct (skip_name path) as [e r] eqn:Hs. cbn [fst snd] in *. destruct IH as (es & [[-> Hr]|[-> Hr]]).
    + exists es. by left.
    + exists []. by right.
Qed.

Lemma skip_name_elements path : (skip_name path).1 ≠ [] →
  elements path = (skip_name path).1 :: elements (skip_name path).2.
Proof.
  intros Hne. unfold elements. destruct (skip_name_split path) as (es & [[H1 H2]|[H1 H2]]); rewrite H1, filter_cons, decide_True by done.
  - by rewrite H2, filter_cons, decide_False by (by intros []).
  - by rewrite H2.
Qed.

Lemma skip_name_nonempty c path : c ≠ slash → (skip_name (c :: path)).1 ≠ [].
Proof. intros Hc. cbn [skip_name]. rewrite (proj2 (Z.eqb_neq _ _)) by done. by destruct (skip_name path). Qed.

Lemma skip_name_length path : (length (skip_name path).2 + length (skip_name path).1 = length path)%nat.
Proof.
  induction path as [|c path IH]; [done|]. cbn [skip_name]. case_match; [cbn; lia|].
  destruct (skip_name path) as [e r]. cbn in *. lia.
Qed.

Lemma skip_name_sub path x : x ∈ (skip_name path).1 → x ∈ path.
Proof.
  induction path as [|c path IH]; [done|]. cbn [skip_name]. case_match; [by intros ?%not_elem_of_nil|].
  destruct (skip_name path) as [e r]. cbn in *. set_solver.
Qed.

Lemma skip_name_rest path x : x ∈ (skip_name path).2 → x ∈ path.
Proof.
  induction path as [|c path IH]; [done|]. cbn [skip_name]. case_match; [done|].
  destruct (skip_name path) as [e r]. cbn in *. set_solver.
Qed.

Lemma skip_slashes_length path : (length (skip_slashes path) ≤ length path)%nat.
Proof. induction path as [|c path IH]; [done|]. cbn [skip_slashes]. case_match; cbn [length]; lia. Qed.

Lemma skip_slashes_sub path x : x ∈ skip_slashes path → x ∈ path.
Proof. induction path as [|c path IH]; [done|]. cbn [skip_slashes]. case_match; [|done]. set_solver. Qed.

(** ** The name that [skipelem] copies out *)

Lemma cstr_from_cells l : ∀ i n, 0 ≤ i → Forall (λ x, x ≠ 0) l →
  cstr_from (cells l) i n = take n (drop (Z.to_nat i) l).
Proof.
  intros i n Hi Hl. revert i Hi. induction n as [|n IH]; intros i Hi; [by rewrite take_0|].
  cbn [cstr_from]. unfold cells at 1 2. rewrite nth_lookup.
  destruct (l !! Z.to_nat i) as [x|] eqn:Hx; cbn [default].
  - pose proof (Forall_lookup_1 _ _ _ _ Hl Hx) as Hx0. cbn in Hx0. rewrite (proj2 (Z.eqb_neq _ _)) by done.
    rewrite (drop_S _ _ _ Hx). cbn [take]. f_equal. rewrite IH by lia. do 2 f_equal. lia.
  - rewrite drop_ge by (by apply lookup_ge_None). by rewrite take_nil.
Qed.

Lemma cstr_from_stop l s r : ∀ i n, 0 ≤ i → drop (Z.to_nat i) l = s ++ 0 :: r → Forall (λ x, x ≠ 0) s →
  (length s < n)%nat → cstr_from (cells l) i n = s.
Proof.
  induction s as [|x s IH]; intros i [|n] Hi Hd Hs Hn; cbn [length] in *; try lia; cbn [cstr_from];
    assert (Hx : l !! Z.to_nat i = head (drop (Z.to_nat i) l)) by (by rewrite head_lookup, lookup_drop, Nat.add_0_r);
    rewrite Hd in Hx; cbn in Hx; unfold cells at 1 2; rewrite nth_lookup, Hx; cbn [default].
  - done.
  - apply Forall_cons in Hs as [Hx0 Hs]. rewrite (proj2 (Z.eqb_neq _ _)) by done. f_equal.
    apply IH; [lia| |done|lia]. replace (Z.to_nat (i + 1)) with (Z.to_nat i + 1)%nat by lia.
    rewrite <-drop_drop, Hd. done.
Qed.

(** The array [name] after the copy of element [s]. *)
Lemma skipelem_name s name : length name = 14%nat → Forall (λ x, x ≠ 0) s →
  cstr (cells (if DIRSIZ <=? Z.of_nat (length s) then bsplice 0 (take (Z.to_nat DIRSIZ) s) name
               else <[length s := 0]> (bsplice 0 s name))) DIRSIZ = take 14 s.
Proof.
  intros Hl Hs. unfold DIRSIZ, cstr. change (Z.to_nat 14) with 14%nat. destruct (Z.leb_spec 14 (Z.of_nat (length s))).
  - assert (Hlt : length (take 14 s) = 14%nat) by (rewrite length_take; lia).
    unfold bsplice. rewrite take_0, Hlt, drop_ge, app_nil_r by lia. cbn [app].
    rewrite cstr_from_cells; [|lia|by apply Forall_take]. rewrite drop_0. by rewrite take_ge by lia.
  - assert (Hb : bsplice 0 s name = s ++ drop (length s) name) by (unfold bsplice; by rewrite take_0).
    rewrite Hb. destruct (drop (length s) name) as [|y r] eqn:Hd.
    { apply (f_equal length) in Hd. rewrite length_drop in Hd. cbn in Hd. lia. }
    rewrite insert_app_r_alt by lia. rewrite Nat.sub_diag. cbn [insert list_insert].
    rewrite (cstr_from_stop _ s r) by (done || lia). by rewrite take_ge by lia.
Qed.

Lemma skipelem_elements path name (Hl : length name = 14%nat) (Hp : Forall (λ x, x ≠ 0) path) :
  match elements path with
  | [] => skipelem path name = None
  | e :: es => ∃ rest name', skipelem path name = Some (rest, name') ∧
      elements rest = es ∧ head rest ≠ Some slash ∧ cstr (cells name') DIRSIZ = take 14 e ∧
      length name' = 14%nat ∧ (length rest < length path)%nat ∧ Forall (λ x, x ≠ 0) rest
  end.
Proof.
  unfold skipelem. pose proof (elements_skip path) as He. pose proof (skip_slashes_head path) as Hh.
  pose proof (skip_slashes_length path) as Hlen.
  assert (Hsub : Forall (λ x, x ≠ 0) (skip_slashes path)).
  { apply Forall_forall. intros x Hx%skip_slashes_sub. by apply (Forall_forall (λ x, x ≠ 0) path). }
  destruct (skip_slashes path) as [|c r] eqn:Hs; [by rewrite <-He|].
  pose proof (skip_name_nonempty c r Hh) as Hne. rewrite <-He, (skip_name_elements (c :: r) Hne).
  pose proof (skip_name_length (c :: r)) as Hnl.
  assert (Hes : Forall (λ x, x ≠ 0) (skip_name (c :: r)).1).
  { apply Forall_forall. intros x Hx%skip_name_sub. by apply (Forall_forall (λ x, x ≠ 0) (c :: r)). }
  assert (Hrs : ∀ x, x ∈ (skip_name (c :: r)).2 → x ≠ 0).
  { intros x Hx%skip_name_rest. by apply (Forall_forall (λ x, x ≠ 0) (c :: r)). }
  destruct (skip_name (c :: r)) as [e rest]. cbn [fst snd] in *. do 2 eexists. split; [done|].
  split; [apply elements_skip|]. split.
  { pose proof (skip_slashes_head rest). destruct (skip_slashes rest); cbn; congruence. }
  split; [by apply skipelem_name|]. split.
  - unfold DIRSIZ. case_match eqn:Hc.
    + rewrite length_bsplice; [done|]. rewrite length_take. lia.
    + rewrite length_insert, length_bsplice; lia.
  - split.
    + pose proof (skip_slashes_length rest). destruct e; [done|]. cbn in *. lia.
    + apply Forall_forall. intros x Hx%skip_slashes_sub. auto.
Qed.

(** [skipelem] takes the first element off a path: it returns NULL if the
    path has none, and otherwise a path with the remaining elements and no
    leading slash, with the element's first [DIRSIZ] bytes in [name]. *)
Theorem skipelem_spec path name (Hl : length name = 14%nat) (Hp : Forall (λ x, x ≠ 0) path) :
  match elements path with
  | [] => skipelem path name = None
  | e :: es => ∃ rest name', skipelem path name = Some (rest, name') ∧
      elements rest = es ∧ head rest ≠ Some slash ∧ cstr (cells name') DIRSIZ = take 14 e ∧
      length name' = 14%nat ∧ (length rest < length path)%nat
  end.
Proof.
  pose proof (skipelem_elements path name Hl Hp) as H. destruct (elements path); [done|].
  destruct H as (rest & name' & ?). exists rest, name'. tauto.
Qed.

(** The example in the source: "///a//bb". *)
Lemma skipelem_spec_witness :
  ∃ rest name', skipelem [47; 47; 47; 97; 47; 47; 98; 98] (replicate 14 0) = Some (rest, name') ∧
    elements rest = [[98; 98]].
Proof.
  destruct (skipelem_spec [47; 47; 47; 97; 47; 47; 98; 98] (replicate 14 0)) as (rest & name' & H1 & H2 & _).
  - reflexivity.
  - repeat constructor; lia.
  - exists rest, name'. split; [exact H1|exact H2].
Defined.

(** ** [namex] takes one step for each element *)

Lemma bind_ext {S A B} (m : M S A) (f g : A → M S B) s : (∀ a s', f a s' = g a s') → (m ≫= f) s = (m ≫= g) s.
Proof. intros H. unfold mbind, M_bind. destruct (m s); auto. Qed.

Lemma namex_loop_fuel `{Devsw} np f : ∀ f' ip path name k,
  length name = 14%nat → Forall (λ x, x ≠ 0) path →
  (length (elements path) ≤ f)%nat → (length (elements path) ≤ f')%nat →
  namex_loop ip path np name f k = namex_loop ip path np name f' k.
Proof.
  induction f as [|f IH]; intros f' ip path name k Hl Hp Hf Hf'; pose proof (skipelem_elements path name Hl Hp) as Hs.
  - destruct (elements path) as [|e es] eqn:He; [|cbn in Hf; lia].
    destruct f'; cbn [namex_loop]; by rewrite Hs.
  - destruct f' as [|f']; cbn [namex_loop]; (destruct (elements path) as [|e es] eqn:He; [by rewrite Hs|]);
      [cbn in Hf'; lia|]. destruct Hs as (rest & name' & -> & Hes & _ & _ & Hl' & _ & Hp').
    apply bind_ext; intros [] k1. apply bind_ext; intros x k2. case_match; [done|]. case_match; [done|].
    apply bind_ext; intros [[next ?]|] k3; [|done]. apply bind_ext; intros [] k4.
    apply IH; [done|done|rewrite Hes; cbn in Hf; lia|rewrite Hes; cbn in Hf'; lia].
Qed.

Lemma elements_length path : (length (elements path) ≤ length path)%nat.
Proof.
  assert (H : ∀ n path, (length path ≤ n)%nat → (length (elements path) ≤ length path)%nat); [|by apply (H (length path))].
  clear path. induction n as [|n IH]; intros path Hn.
  { destruct path; [done|cbn in Hn; lia]. }
  destruct path as [|c path]; [done|]. cbn [length] in *. destruct (decide (c = slash)) as [->|Hc].
  - rewrite elements_slash. pose proof (IH path ltac:(lia)). lia.
  - pose proof (skip_name_nonempty c path Hc) as Hne. rewrite (skip_name_elements (c :: path) Hne).
    pose proof (skip_name_length (c :: path)) as Hl. destruct (skip_name (c :: path)) as [[|y e] r]; [done|]. cbn [length fst snd] in *.
    pose proof (IH r ltac:(lia)). lia.
Qed.

(** The loop of [namex] ends: the number of steps that [namex] allows it,
    the length of the path, is enough, and any larger number gives the same
    run, in every state. *)
Theorem namex_terminates `{Devsw} ip path np name fuel k :
  length name = 14%nat → Forall (λ x, x ≠ 0) path → (length path ≤ fuel)%nat →
  namex_loop ip path np name fuel k = namex_loop ip path np name (length path) k.
Proof.
  intros Hl Hp Hf. pose proof (elements_length path). apply namex_loop_fuel; [done|done|lia|lia].
Qed.

#[local] Instance path_no_devices : Devsw := {| dev_read := λ _, None; dev_write := λ _, None |}.

Lemma namex_terminates_witness :
  namex_loop 0 [97; 47; 98] true (replicate 14 0) 1000 (kernel0 ∅) =
  namex_loop 0 [97; 47; 98] true (replicate 14 0) 3 (kernel0 ∅).
Proof.
  apply (namex_terminates 0 [97; 47; 98] true (replicate 14 0) 1000 (kernel0 ∅)).
  - reflexivity.
  - repeat constructor; lia.
  - cbn. lia.
Defined.
