(* ===== verification/Kalloc.v ===== *)
(** * Kalloc: the physical page allocator, kernel/kalloc.c

    The free pages are a list linked through their first words in the memory
    [km_mem].  The theorems relate it to the pages that callers hold: the two
    never overlap, and a page is never handed out twice. *)

From stdpp Require Import prelude functions gmap strings.
From S2P Require Import Prelude Types Spinlock Sched Cstr.
Open Scope Z_scope.

(** ** memlayout.h and mmu.h (64-bit build) *)

Definition EXTMEM : Z := 0x100000.
Definition PHYSTOP : Z := 0xE000000.
Definition KERNBASE : Z := 0xFFFFFFFF80000000.
Definition PGSIZE : Z := 4096.

Definition v2p (a : Z) : Z := u64 (a - KERNBASE).
Definition p2v (a : Z) : Z := u64 (a + KERNBASE).

Definition PGROUNDUP (sz : Z) : Z := Z.land (u64 (sz + (PGSIZE - 1))) (Z.lnot (PGSIZE - 1)).
Definition PGROUNDDOWN (a : Z) : Z := Z.land a (Z.lnot (PGSIZE - 1)).

(** ** Words in memory *)

Fixpoint mput_bytes (m : mem) (a : Z) (l : list Z) : mem :=
  match l with
  | [] => m
  | x :: l => mput_bytes (<[a := x]> m) (a + 1) l
  end.
Definition mget_bytes (m : mem) (a n : Z) : list Z := m <$> seqZ a n.

(** A pointer or a [uint64] at address [a]. *)
Definition mget64 (m : mem) (a : Z) : Z := le_get (mget_bytes m a 8).
Definition mput64 (m : mem) (a x : Z) : mem := mput_bytes m a (le_put 8 x).

(** ** kalloc.c *)

Definition set_km_freelist (v : Z) (x : kmem) : kmem := mkKmem (km_use_lock x) v (km_end x) (km_mem x).
Definition set_km_mem (v : mem) (x : kmem) : kmem := mkKmem (km_use_lock x) (km_freelist x) (km_end x) v.
Definition set_km_use_lock (v : bool) (x : kmem) : kmem := mkKmem v (km_freelist x) (km_end x) (km_mem x).

Definition getkm : K kmem := gets k_kmem.
Definition updkm (f : kmem → kmem) : K unit := modify (λ k, set_kmem (f (k_kmem k)) k).

Definition kfree (v : Z) : K unit :=
  km ← getkm;
  if negb (v mod PGSIZE =? 0) || (v <? km_end km) || (PHYSTOP <=? v2p v) then panic "kfree" else
  updkm (λ x, set_km_mem (memset (km_mem x) v 1 PGSIZE) x);;
  km ← getkm;
  when (km_use_lock km) (acquire L_kmem);;
  updkm (λ x, set_km_mem (mput64 (km_mem x) v (km_freelist x)) x);;
  updkm (set_km_freelist v);;
  km ← getkm;
  when (km_use_lock km) (release L_kmem).

Definition kalloc : K Z :=
  km ← getkm;
  when (km_use_lock km) (acquire L_kmem);;
  km ← getkm;
  let r := km_freelist km in
  when (negb (r =? 0)) (updkm (λ x, set_km_freelist (mget64 (km_mem x) r) x));;
  km ← getkm;
  when (km_use_lock km) (release L_kmem);;
  mret r.

(** The values of [p] in the loop of [freerange]. *)
Definition range_pages (vstart vend : Z) : list Z :=
  let p := PGROUNDUP vstart in (λ i, p + i * PGSIZE) <$> seqZ 0 ((vend - p) / PGSIZE).

Definition freerange (vstart vend : Z) : K unit := for_each (range_pages vstart vend) kfree.

Definition kinit1 (vstart vend : Z) : K unit :=
  on_mach (initlock L_kmem);;
  updkm (set_km_use_lock false);;
  freerange vstart vend.

Definition kinit2 (vstart vend : Z) : K unit :=
  freerange vstart vend;;
  updkm (set_km_use_lock true).

(** ** Memory lemmas *)

Lemma mput_bytes_at l : ∀ m a x,
  mput_bytes m a l x = if bool_decide (a ≤ x < a + Z.of_nat (length l)) then nth (Z.to_nat (x - a)) l 0 else m x.
Proof.
  induction l as [|y l IH]; intros m a x; cbn [mput_bytes length].
  - by rewrite bool_decide_eq_false_2 by lia.
  - rewrite IH. destruct (decide (x = a)) as [->|Hne].
    + rewrite bool_decide_eq_false_2, bool_decide_eq_true_2 by lia. rewrite fn_lookup_insert.
      by rewrite Z.sub_diag.
    + rewrite fn_lookup_insert_ne by done. case_bool_decide.
      * rewrite bool_decide_eq_true_2 by lia. replace (Z.to_nat (x - a)) with (S (Z.to_nat (x - (a + 1)))) by lia. done.
      * by rewrite bool_decide_eq_false_2 by lia.
Qed.

Lemma mget_put_bytes m a l : mget_bytes (mput_bytes m a l) a (Z.of_nat (length l)) = l.
Proof.
  apply list_eq. intros i. unfold mget_bytes. rewrite list_lookup_fmap.
  destruct (decide (i < length l)%nat) as [Hi|Hi].
  - rewrite lookup_seqZ_lt by lia. cbn [fmap option_fmap option_map]. rewrite mput_bytes_at.
    rewrite bool_decide_eq_true_2 by lia. rewrite nth_lookup. replace (Z.to_nat (a + Z.of_nat i - a)) with i by lia.
    destruct (lookup_lt_is_Some_2 l i Hi) as [x Hx]. by rewrite Hx.
  - rewrite lookup_seqZ_ge by lia. symmetry. apply lookup_ge_None. lia.
Qed.

Lemma mget_bytes_ext m m' a n : (∀ x, a ≤ x < a + n → m' x = m x) → mget_bytes m' a n = mget_bytes m a n.
Proof. intros H. unfold mget_bytes. apply list_fmap_ext. intros i x [-> Hi]%lookup_seqZ. apply H. lia. Qed.

Lemma mget_put64 m a x : 0 ≤ x < 2 ^ 64 → mget64 (mput64 m a x) a = x.
Proof.
  intros Hx. unfold mget64, mput64.
  change 8 with (Z.of_nat 8) at 1. rewrite <-(length_le_put 8 x) at 2. rewrite mget_put_bytes.
  rewrite le_get_put. apply Z.mod_small. exact Hx.
Qed.

Lemma mget64_ext m m' a : (∀ x, a ≤ x < a + 8 → m' x = m x) → mget64 m' a = mget64 m a.
Proof. intros H. unfold mget64. by rewrite (mget_bytes_ext m m'). Qed.

Lemma mput64_other m a x b : ¬ (a ≤ b < a + 8) → mput64 m a x b = m b.
Proof. intros H. unfold mput64. rewrite mput_bytes_at, length_le_put. by rewrite bool_decide_eq_false_2. Qed.

(** ** The rules of kfree and kalloc *)

Definition page_ok (e v : Z) : Prop := v mod PGSIZE = 0 ∧ e ≤ v ∧ v2p v < PHYSTOP ∧ 0 ≤ v < 2 ^ 64.

Lemma page_ok_base e v : page_ok e v → KERNBASE ≤ v < KERNBASE + PHYSTOP.
Proof.
  intros (_ & _ & H & Hv). unfold v2p, u64, KERNBASE, PHYSTOP in *.
  destruct (decide (v < 0xFFFFFFFF80000000)) as [Hlt|Hge].
  - replace (v - 0xFFFFFFFF80000000) with (v + 2147483648 + (-1) * 2 ^ 64) in H by lia.
    rewrite Z_mod_plus_full, Z.mod_small in H by lia. lia.
  - rewrite Z.mod_small in H by lia. lia.
Qed.

Definition freed (v : Z) (x : kmem) : kmem :=
  mkKmem (km_use_lock x) v (km_end x) (mput64 (memset (km_mem x) v 1 PGSIZE) v (km_freelist x)).
Definition taken (x : kmem) : kmem :=
  if km_freelist x =? 0 then x else set_km_freelist (mget64 (km_mem x) (km_freelist x)) x.

Lemma wp_acquire_if (b : bool) L pr lk k E Q :
  at_mach L pr (k_mach k) → lk ∉ L →
  (∀ m', at_mach (if b then lk :: L else L) pr m' → Q tt (set_mach m' k)) → wp (when b (acquire lk)) E Q k.
Proof.
  intros Hm HL HQ. destruct b; cbn [when]; [by eapply wp_acquire|].
  wp_steps. specialize (HQ _ Hm). by destruct k.
Qed.

Lemma wp_release_if (b : bool) L pr lk k E Q :
  at_mach (if b then lk :: L else L) pr (k_mach k) →
  (∀ m', at_mach L pr m' → Q tt (set_mach m' k)) → wp (when b (release lk)) E Q k.
Proof.
  intros Hm HQ. destruct b; cbn [when]; [by eapply wp_release|].
  wp_steps. specialize (HQ _ Hm). by destruct k.
Qed.

Lemma wp_kfree L pr v k E Q :
  at_mach L pr (k_mach k) → L_kmem ∉ L → page_ok (km_end (k_kmem k)) v →
  (∀ m', at_mach L pr m' → Q tt (set_mach m' (set_kmem (freed v (k_kmem k)) k))) →
  wp (kfree v) E Q k.
Proof.
  intros Hm HL (Ha & He & Hp & _) HQ. unfold kfree, getkm, updkm. wp_steps.
  replace (negb (v mod PGSIZE =? 0) || (v <? km_end (k_kmem k)) || (PHYSTOP <=? v2p v)) with false
    by (rewrite Ha; symmetry; apply orb_false_iff; split; [cbn; by apply Z.ltb_ge|by apply Z.leb_gt]).
  wp_steps. eapply wp_acquire_if; [exact Hm|done|]. intros m1 Hm1. wp_steps.
  eapply wp_release_if; [exact Hm1|]. intros m2 Hm2. specialize (HQ _ Hm2). kexact HQ.
Qed.

Lemma wp_kalloc L pr k E Q :
  at_mach L pr (k_mach k) → L_kmem ∉ L →
  (∀ m', at_mach L pr m' → Q (km_freelist (k_kmem k)) (set_mach m' (set_kmem (taken (k_kmem k)) k))) →
  wp kalloc E Q k.
Proof.
  intros Hm HL HQ. unfold kalloc, getkm, updkm. wp_steps.
  eapply wp_acquire_if; [exact Hm|done|]. intros m1 Hm1. wp_steps. unfold taken in HQ.
  cbn [set_mach k_kmem]. destruct (km_freelist (k_kmem k) =? 0); cbn [negb when]; wp_steps;
    (eapply wp_release_if; [exact Hm1|]; intros m2 Hm2; wp_steps; specialize (HQ _ Hm2)); [|kexact HQ].
  replace (set_kmem (k_kmem k) k) with k in HQ by (by destruct k). kexact HQ.
Qed.

(** ** The free list and the pages in use *)

(** [chain m p l]: following the links from [p] gives the pages [l]. *)
Fixpoint chain (m : mem) (p : Z) (l : list Z) : Prop :=
  match l with
  | [] => p = 0
  | q :: l => p = q ∧ q ≠ 0 ∧ chain m (mget64 m q) l
  end.

(** The pages [all] are the free ones and the ones in [used], each once. *)
Definition kmem_inv (all used : list Z) (km : kmem) : Prop :=
  ∃ l, chain (km_mem km) (km_freelist km) l ∧ l ++ used ≡ₚ all ∧ NoDup all ∧ Forall (page_ok (km_end km)) all.

Lemma chain_ext m m' l : ∀ p,
  (∀ q x, q ∈ l → q ≤ x < q + 8 → m' x = m x) → chain m p l → chain m' p l.
Proof.
  induction l as [|q l IH]; intros p Heq; [done|]. intros (-> & Hq & Hc). split; [done|]. split; [done|].
  rewrite (mget64_ext m m') by (intros x Hx; apply (Heq q); [left|done]).
  apply IH; [|done]. intros r x Hr. apply Heq. by right.
Qed.

Lemma pages_apart e v w x y :
  page_ok e v → page_ok e w → v ≠ w → v ≤ x < v + PGSIZE → w ≤ y < w + PGSIZE → x ≠ y.
Proof.
  intros (Hv & _) (Hw & _) Hne Hx Hy ->. apply Hne. unfold PGSIZE in *.
  apply Z.mod_divide in Hv as [a ->]; [|lia]. apply Z.mod_divide in Hw as [b ->]; lia.
Qed.

Lemma freed_other e v km w x :
  page_ok e v → page_ok e w → v ≠ w → w ≤ x < w + PGSIZE → km_mem (freed v km) x = km_mem km x.
Proof.
  intros Hv Hw Hne Hx. unfold freed; cbn [km_mem].
  assert (Hout : ¬ (v ≤ x < v + PGSIZE)) by (intros Hin; by eapply (pages_apart e v w x x)).
  rewrite mput64_other by (unfold PGSIZE in *; lia). rewrite memset_correct by done. by rewrite bool_decide_eq_false_2.
Qed.

Lemma freed_link v km : 0 ≤ km_freelist km < 2 ^ 64 → mget64 (km_mem (freed v km)) v = km_freelist km.
Proof. apply mget_put64. Qed.

Lemma chain_head m p l e : chain m p l → Forall (page_ok e) l → 0 ≤ p < 2 ^ 64.
Proof. destruct l as [|q l]; [intros ->; lia|]. intros (-> & _) [(_ & _ & _ & ?) _]%Forall_cons. lia. Qed.

Lemma page_ok_nonzero e v : page_ok e v → v ≠ 0.
Proof. intros H%page_ok_base ->. unfold KERNBASE in H. lia. Qed.

(** Freeing a page: one that was in use, or a new one during [kinit]. *)
Lemma kmem_inv_free all all' used used' v km :
  kmem_inv all used km → NoDup all' → Forall (page_ok (km_end km)) all' → v ∈ all' →
  (∀ l, l ++ used ≡ₚ all → v :: l ++ used' ≡ₚ all') → kmem_inv all' used' (freed v km).
Proof.
  intros (l & Hc & Hp & Hnd & Hall) Hnd' Hall' Hv Hperm. specialize (Hperm l Hp).
  exists (v :: l). split; [|done]. rewrite Forall_forall in Hall'. specialize (Hall' v Hv) as Hvok.
  assert (Hl : ∀ q, q ∈ l → page_ok (km_end km) q ∧ v ≠ q).
  { intros q Hq. split; [apply Hall'; rewrite <-Hperm; right; apply elem_of_app; by left|].
    intros ->. rewrite <-Hperm in Hnd'. apply NoDup_cons in Hnd' as [Hn _]. apply Hn, elem_of_app. by left. }
  split; [done|]. split; [by eapply page_ok_nonzero|]. rewrite freed_link.
  - eapply chain_ext; [|exact Hc]. intros q x Hq Hx. destruct (Hl q Hq).
    eapply (freed_other (km_end km) v km q); [done..|]. unfold PGSIZE. lia.
  - eapply chain_head; [exact Hc|]. apply Forall_forall. intros q Hq. by apply Hl.
Qed.

(** Taking a page. *)
Lemma kmem_inv_take all used km :
  kmem_inv all used km →
  (km_freelist km = 0 ∧ used ≡ₚ all ∧ kmem_inv all used (taken km)) ∨
  (km_freelist km ∈ all ∧ (km_freelist km ∉ used) ∧ kmem_inv all (km_freelist km :: used) (taken km)).
Proof.
  intros (l & Hc & Hp & Hnd & Hall). unfold taken. destruct l as [|q l].
  - left. cbn in Hc. rewrite Hc. split; [done|]. split; [done|]. cbn. by exists [].
  - right. destruct Hc as (Hq & Hq0 & Hc). rewrite Hq. rewrite (proj2 (Z.eqb_neq q 0) Hq0).
    assert (Hin : q ∈ all) by (rewrite <-Hp; left). split; [done|]. split.
    + intros Hu. rewrite <-Hp in Hnd. apply NoDup_cons in Hnd as [Hn _]. apply Hn, elem_of_app. by right.
    + exists l. split; [done|]. split; [|done]. rewrite <-Hp. by rewrite <-Permutation_middle.
Qed.

(** A holder writes inside a page it was given. *)
Lemma kmem_inv_write all used km v a x :
  kmem_inv all used km → v ∈ used → v ≤ a < v + PGSIZE → kmem_inv all used (set_km_mem (<[a := x]> (km_mem km)) km).
Proof.
  intros (l & Hc & Hp & Hnd & Hall) Hv Ha. exists l. split; [|done]. cbn.
  eapply chain_ext; [|exact Hc]. intros q y Hq Hy. apply fn_lookup_insert_ne.
  rewrite Forall_forall in Hall. eapply (pages_apart (km_end km) v q a y); [..|done|unfold PGSIZE; lia].
  - apply Hall. rewrite <-Hp. apply elem_of_app. by right.
  - apply Hall. rewrite <-Hp. apply elem_of_app. by left.
  - intros ->. rewrite <-Hp in Hnd. apply NoDup_app in Hnd as (_ & Hd & _). by apply (Hd q).
Qed.

(** ** Callers of the allocator *)

(** What happens to the kernel's memory: pages are allocated and freed, and
    their holders write to them.  [used] lists the pages that were returned
    and not freed yet. *)
Inductive kstep : kernel * list Z → kernel * list Z → Prop :=
| KAlloc k k' v used : kalloc k = Ok v k' → v ≠ 0 → kstep (k, used) (k', v :: used)
| KFull k k' used : kalloc k = Ok 0 k' → kstep (k, used) (k', used)
| KFree k k' v l1 l2 : kfree v k = Ok tt k' → kstep (k, l1 ++ v :: l2) (k', l1 ++ l2)
| KWrite k v a x used : v ∈ used → v ≤ a < v + PGSIZE →
    kstep (k, used) (set_kmem (set_km_mem (<[a := x]> (km_mem (k_kmem k))) (k_kmem k)) k, used).

Definition ksys_inv (L : list lockid) (all : list Z) (ku : kernel * list Z) : Prop :=
  (∃ pr, at_mach L pr (k_mach ku.1)) ∧ kmem_inv all ku.2 (k_kmem ku.1).

Lemma kalloc_run L pr k : at_mach L pr (k_mach k) → L_kmem ∉ L →
  ∃ m', at_mach L pr m' ∧ kalloc k = Ok (km_freelist (k_kmem k)) (set_mach m' (set_kmem (taken (k_kmem k)) k)).
Proof.
  intros Hm HL. destruct (wp_ok kalloc
    (λ v k', ∃ m', at_mach L pr m' ∧ v = km_freelist (k_kmem k) ∧ k' = set_mach m' (set_kmem (taken (k_kmem k)) k)) k)
    as (v & k' & Hrun & m' & Hm' & -> & ->); [|by exists m'].
  eapply wp_kalloc; [done..|]. intros m' Hm'. by exists m'.
Qed.

Lemma kfree_run L pr v k : at_mach L pr (k_mach k) → L_kmem ∉ L → page_ok (km_end (k_kmem k)) v →
  ∃ m', at_mach L pr m' ∧ kfree v k = Ok tt (set_mach m' (set_kmem (freed v (k_kmem k)) k)).
Proof.
  intros Hm HL Hv. destruct (wp_ok (kfree v)
    (λ _ k', ∃ m', at_mach L pr m' ∧ k' = set_mach m' (set_kmem (freed v (k_kmem k)) k)) k)
    as ([] & k' & Hrun & m' & Hm' & ->); [|by exists m'].
  eapply wp_kfree; [done..|]. intros m' Hm'. by exists m'.
Qed.

Lemma kmem_inv_ok all used km v : kmem_inv all used km → v ∈ used → page_ok (km_end km) v.
Proof.
  intros (l & _ & Hp & _ & Hall) Hv. rewrite Forall_forall in Hall. apply Hall.
  rewrite <-Hp. apply elem_of_app. by right.
Qed.

Lemma ksys_inv_step L all s s' : L_kmem ∉ L → ksys_inv L all s → kstep s s' → ksys_inv L all s'.
Proof.
  intros HL [[pr Hm] Hi] Hs. destruct Hs as [k k' v used Hr Hv|k k' used Hr|k k' v l1 l2 Hr|k v a x used Hv Ha]; cbn in *.
  - destruct (kalloc_run L pr k Hm HL) as (m' & Hm' & Hr'). rewrite Hr in Hr'. injection Hr' as -> ->.
    split; [by exists pr|]. destruct (kmem_inv_take _ _ _ Hi) as [[? _]|(_ & _ & ?)]; done.
  - destruct (kalloc_run L pr k Hm HL) as (m' & Hm' & Hr'). rewrite Hr in Hr'. injection Hr' as Hz ->.
    split; [by exists pr|]. destruct (kmem_inv_take _ _ _ Hi) as [(_ & _ & ?)|(Hin & _)]; [done|].
    destruct Hi as (l & _ & _ & _ & Hall). rewrite Forall_forall in Hall.
    destruct (page_ok_nonzero _ _ (Hall _ Hin)). done.
  - assert (Hv : page_ok (km_end (k_kmem k)) v) by (eapply kmem_inv_ok; [done|]; apply elem_of_app; right; left).
    destruct (kfree_run L pr v k Hm HL Hv) as (m' & Hm' & Hr'). rewrite Hr in Hr'. injection Hr' as ->.
    split; [by exists pr|]. pose proof Hi as (l & Hc & Hp & Hnd & Hall). cbn.
    eapply (kmem_inv_free all all); [exact Hi|done|done| |].
    + rewrite <-Hp. apply elem_of_app. right. apply elem_of_app. right. left.
    + intros l' <-. by rewrite <-Permutation_middle, !(Permutation_middle l').
  - split; [by exists pr|]. cbn. by eapply kmem_inv_write.
Qed.

Lemma ksys_inv_steps L all s s' : L_kmem ∉ L → rtc kstep s s' → ksys_inv L all s → ksys_inv L all s'.
Proof. intros HL. induction 1 as [|s1 s2 s3 Hs _ IH]; [done|]. intros Hi. apply IH. by eapply ksys_inv_step. Qed.

Lemma wp_kfree_list L pr vs : ∀ k dn, at_mach L pr (k_mach k) → L_kmem ∉ L →
  Forall (page_ok (km_end (k_kmem k))) vs → NoDup (vs ++ dn) → kmem_inv dn [] (k_kmem k) →
  wp (for_each vs kfree) no_panic (λ _ k', at_mach L pr (k_mach k') ∧ kmem_inv (reverse vs ++ dn) [] (k_kmem k') ∧
    km_use_lock (k_kmem k') = km_use_lock (k_kmem k)) k.
Proof.
  induction vs as [|v vs IH]; intros k dn Hm HL Hok Hnd Hi; cbn [for_each]; wp_steps; [done|].
  apply Forall_cons in Hok as [Hv Hok]. eapply wp_kfree; [done..|]. intros m' Hm'.
  eapply wp_post; [apply (IH _ (v :: dn)); [exact Hm'|done|done|by rewrite <-Permutation_middle|]|].
  - cbn. eapply (kmem_inv_free dn (v :: dn) [] []); [done| | |left|].
    + cbn in Hnd. apply NoDup_cons in Hnd as [Hn Hnd]. apply NoDup_app in Hnd as (_ & _ & Hnd).
      constructor; [|done]. intros ?. apply Hn, elem_of_app. by right.
    + constructor; [done|]. by destruct Hi as (? & _ & _ & _ & ?).
    + intros l Hl. by rewrite Hl.
  - intros [] k' (Hm2 & Hi2 & Hu). rewrite reverse_cons, <-app_assoc. done.
Qed.

Lemma PGROUNDUP_val a : 0 ≤ a < 2 ^ 64 - PGSIZE → PGROUNDUP a = (a + 4095) / PGSIZE * PGSIZE.
Proof.
  intros Ha. unfold PGROUNDUP, PGSIZE, u64 in *. rewrite Z.mod_small by lia.
  change (4096 - 1) with (Z.ones 12).
  rewrite <-Z.ldiff_land, Z.ldiff_ones_r by lia. rewrite Z.shiftr_div_pow2, Z.shiftl_mul_pow2 by lia. done.
Qed.

Lemma PGROUNDUP_le a : 0 ≤ a < 2 ^ 64 - PGSIZE → a ≤ PGROUNDUP a.
Proof. intros Ha. rewrite PGROUNDUP_val by done. unfold PGSIZE. Z.to_euclidean_division_equations. lia. Qed.

Lemma elem_of_range_pages vs ve v : 0 ≤ vs < 2 ^ 64 - PGSIZE →
  v ∈ range_pages vs ve ↔ v mod PGSIZE = 0 ∧ vs ≤ v ∧ v + PGSIZE ≤ ve.
Proof.
  intros Hvs. unfold range_pages. rewrite PGROUNDUP_val by done. rewrite list_elem_of_fmap. unfold PGSIZE in *. split.
  - intros (i & -> & Hi%elem_of_seqZ). rewrite <-Z.mul_add_distr_r, Z.mod_mul by lia. Z.to_euclidean_division_equations. lia.
  - intros (Hm & H1 & H2). apply Z.mod_divide in Hm as [q ->]; [|lia].
    exists (q - (vs + 4095) / 4096). split; [lia|]. apply elem_of_seqZ. Z.to_euclidean_division_equations. lia.
Qed.

Lemma NoDup_range_pages vs ve : NoDup (range_pages vs ve).
Proof.
  unfold range_pages. apply NoDup_fmap_2; [|apply NoDup_seqZ]. intros i j. unfold PGSIZE. lia.
Qed.

Lemma at_mach_initlock L pr m lk : at_mach L pr m → lk ∉ L → ∃ m', initlock lk m = Ok tt m' ∧ at_mach L pr m'.
Proof.
  intros (Hnd & Hc & Hl) HL. eexists. split; [done|]. split; [done|]. split; [done|]. intros l. cbn.
  rewrite Hl. destruct (decide (l = lk)) as [->|]; [|done]. by rewrite decide_False.
Qed.

Lemma kmem_inv_perm all all' used km : all ≡ₚ all' → kmem_inv all used km → kmem_inv all' used km.
Proof. intros Hp (l & ? & Hl & ? & ?). exists l. by rewrite <-Hp. Qed.

Lemma kernel0_at_mach disk : at_mach [] (Some 0%nat) (k_mach (kernel0 disk)).
Proof.
  split_and!; [constructor| |].
  - eexists. by split_and!.
  - intros lk. by rewrite decide_False by apply not_elem_of_nil.
Qed.

(** The allocator after [kinit1]. *)
Lemma kinit1_inv vstart vend pr k :
  at_mach [] pr (k_mach k) → km_freelist (k_kmem k) = 0 →
  km_end (k_kmem k) ≤ vstart ∧ KERNBASE ≤ vstart < 2 ^ 64 - PGSIZE → vend ≤ KERNBASE + PHYSTOP →
  ∃ k1, kinit1 vstart vend k = Ok tt k1 ∧ ksys_inv [] (range_pages vstart vend) (k1, []).
Proof.
  intros Hm Hfree Hstart Hend. assert (Hr : 0 ≤ vstart < 2 ^ 64 - PGSIZE) by (unfold KERNBASE in *; lia).
  destruct (wp_ok (kinit1 vstart vend) (λ _ k', ksys_inv [] (range_pages vstart vend) (k', [])) k)
    as ([] & k1 & Hrun & Hi1); [|by exists k1].
  unfold kinit1, updkm, freerange. wp_steps.
  destruct (at_mach_initlock [] pr (k_mach k) L_kmem) as (m1 & Hm1 & Hr1); [done|nolock|].
  eapply wp_on_mach; [exact Hm1|]. wp_steps.
  eapply wp_post; [apply (wp_kfree_list [] pr _ _ []); [exact Hr1|nolock| | |]|].
  - apply Forall_forall. intros v (Ha & H1 & H2)%elem_of_range_pages; [|done]. cbn.
    unfold page_ok, v2p, u64, KERNBASE, PGSIZE, PHYSTOP in *.
    rewrite (Z.mod_small (v - _)) by lia. lia.
  - rewrite app_nil_r. apply NoDup_range_pages.
  - exists []. split_and!; [exact Hfree|done|constructor|constructor].
  - intros [] k1 (Hm' & Hi & _). split; [by exists pr|].
    rewrite app_nil_r in Hi. eapply kmem_inv_perm; [|exact Hi]. apply reverse_Permutation.
Qed.

(** ** Properties *)

(** C15: after [kinit1] has freed the whole pages between [vstart] and [vend],
    at every later point of any sequence of allocations, frees and writes to
    allocated pages: the pages in use are distinct whole pages of that range,
    and [kalloc] returns either a page that nobody holds, or 0, the latter
    only when all the pages of the range are in use. *)
Theorem kalloc_exclusive (vstart vend : Z) (pr : option nat) (k : kernel)
  (Hm : at_mach [] pr (k_mach k)) (Hfree : km_freelist (k_kmem k) = 0)
  (Hstart : km_end (k_kmem k) ≤ vstart ∧ KERNBASE ≤ vstart < 2 ^ 64 - PGSIZE) (Hend : vend ≤ KERNBASE + PHYSTOP) :
  ∃ k1, kinit1 vstart vend k = Ok tt k1 ∧ ∀ k2 used, rtc kstep (k1, []) (k2, used) →
    NoDup used ∧ Forall (λ v, v mod PGSIZE = 0 ∧ vstart ≤ v ∧ v + PGSIZE ≤ vend) used ∧
    ∃ v k3, kalloc k2 = Ok v k3 ∧
      (v ∈ range_pages vstart vend ∧ (v ∉ used) ∨ v = 0 ∧ used ≡ₚ range_pages vstart vend).
Proof.
  assert (Hr : 0 ≤ vstart < 2 ^ 64 - PGSIZE) by (unfold KERNBASE in *; lia).
  destruct (kinit1_inv vstart vend pr k) as (k1 & Hrun & Hi1); [done..|].
  exists k1. split; [done|]. intros k2 used Hsteps.
  assert (ksys_inv [] (range_pages vstart vend) (k2, used)) as [[pr2 Hm2] Hi2].
  { eapply ksys_inv_steps; [nolock|exact Hsteps|exact Hi1]. }
  destruct (kalloc_run [] pr2 k2 Hm2) as (m3 & Hm3 & Hr3); [nolock|]. split; [|split; [|eexists _, _; split; [exact Hr3|]]].
  - destruct Hi2 as (l & _ & Hp & Hnd & _). cbn in Hp. rewrite <-Hp in Hnd. by apply NoDup_app in Hnd as (_ & _ & ?).
  - apply Forall_forall. intros v Hv. apply elem_of_range_pages; [done|].
    destruct Hi2 as (l & _ & <- & _). apply elem_of_app. by right.
  - destruct (kmem_inv_take _ _ _ Hi2) as [(? & ? & _)|(? & ? & _)]; [by right|by left].
Qed.

Lemma kalloc_exclusive_witness :
  range_pages (KERNBASE + 0x100000) (KERNBASE + 0x102000) = [KERNBASE + 0x100000; KERNBASE + 0x101000] ∧
  ∃ k1, kinit1 (KERNBASE + 0x100000) (KERNBASE + 0x102000) (kernel0 ∅) = Ok tt k1 ∧
    ∃ v k3, kalloc k1 = Ok v k3 ∧ v ∈ [KERNBASE + 0x100000; KERNBASE + 0x101000].
Proof.
  split; [reflexivity|].
  destruct (kalloc_exclusive (KERNBASE + 0x100000) (KERNBASE + 0x102000) (Some 0%nat) (kernel0 ∅)) as (k1 & H1 & H2).
  - apply kernel0_at_mach.
  - reflexivity.
  - cbn. unfold KERNBASE, PGSIZE. lia.
  - unfold KERNBASE, PHYSTOP. lia.
  - exists k1. split; [exact H1|]. destruct (H2 k1 [] (rtc_refl _ _)) as (_ & _ & v & k3 & H3 & [[Hin _]|[_ Hp]]).
    + by exists v, k3.
    + exfalso. apply Permutation_nil_l in Hp. discriminate Hp.
Defined.
