(* ===== verification/Pipe.v ===== *)
(** * Pipe: the bounded buffer of kernel/pipe.c

    A pipe is a page of memory, here the record [pipe] under the page's
    address.  [pipewrite] and [piperead] implement a queue of at most
    [PIPESIZE] bytes with two counters that wrap around at 2^32: the theorems
    describe all their outcomes in terms of that queue. *)

From stdpp Require Import prelude functions gmap strings.
From S2P Require Import Prelude Types Ring Spinlock Sched Cstr Kalloc.
Open Scope Z_scope.

(** ** Definitions *)

Definition set_p_nread (v : Z) (p : pipe) : pipe := mkPipe (p_data p) v (p_nwrite p) (p_readopen p) (p_writeopen p).
Definition set_p_open (r w : bool) (p : pipe) : pipe := mkPipe (p_data p) (p_nread p) (p_nwrite p) r w.

Definition getpipe (p : Z) : K pipe := k ← get; need (k_pipes k !! p).
Definition updpipe (p : Z) (f : pipe → pipe) : K unit := modify (λ k, set_pipes (alter f p (k_pipes k)) k).

(** [kfree((char* )p)] of a pipe: the page is no longer a pipe. *)
Definition kfree_pipe (p : Z) : K unit := modify (λ k, set_pipes (delete p (k_pipes k)) k);; kfree p.

Definition pipeclose (p : Z) (writable : bool) : K unit :=
  acquire (L_pipe p);;
  (if writable then
     updpipe p (λ x, set_p_open (p_readopen x) false x);;
     wakeup (ChPipeRead p)
   else
     updpipe p (λ x, set_p_open false (p_writeopen x) x);;
     wakeup (ChPipeWrite p));;
  pi ← getpipe p;
  if negb (p_readopen pi) && negb (p_writeopen pi) then
    release (L_pipe p);;
    kfree_pipe p
  else
    release (L_pipe p).

(** [p->data[p->nwrite++ % PIPESIZE] = c] *)
Definition pipe_put (c : Z) (p : pipe) : pipe :=
  mkPipe (<[Z.to_nat (p_nwrite p mod PIPESIZE) := c]> (p_data p)) (p_nread p) (u32 (p_nwrite p + 1))
    (p_readopen p) (p_writeopen p).

(** The loops of [pipewrite], from index [i] on, with the lock held.  A
    process that wakes up continues with the [while] test at the same [i]. *)
Fixpoint pipewrite_loop (p : Z) (addr : list Z) (n i : Z) (fuel : nat) : K Z :=
  match fuel with
  | O => spin
  | S fuel =>
      if i <? n then
        pi ← getpipe p;
        if p_nwrite pi =? u32 (p_nread pi + PIPESIZE) then
          kl ← killed;
          if negb (p_readopen pi) || kl then
            release (L_pipe p);;
            mret (-1)
          else
            wakeup (ChPipeRead p);;
            sleep (ChPipeWrite p) (Some (L_pipe p));;
            sleep_return (L_pipe p);;
            pipewrite_loop p addr n i fuel
        else
          c ← need (addr !! Z.to_nat i);
          updpipe p (pipe_put c);;
          pipewrite_loop p addr n (i + 1) fuel
      else
        wakeup (ChPipeRead p);;
        release (L_pipe p);;
        mret n
  end.
Definition pipewrite (p : Z) (addr : list Z) (n : Z) : K Z :=
  acquire (L_pipe p);;
  pipewrite_loop p addr n 0 (Z.to_nat n + 1).

(** [piperead]'s first loop: wait until there is something to read. *)
Fixpoint piperead_wait (p : Z) (rounds : nat) : K bool :=
  pi ← getpipe p;
  if (p_nread pi =? p_nwrite pi) && p_writeopen pi then
    kl ← killed;
    if (kl : bool) then
      release (L_pipe p);;
      mret false
    else
      sleep (ChPipeRead p) (Some (L_pipe p));;
      sleep_return (L_pipe p);;
      match rounds with O => spin | S rounds => piperead_wait p rounds end
  else mret true.

(** The copying loop; the bytes stored in [addr] are collected in [acc]. *)
Fixpoint piperead_copy (p : Z) (acc : list Z) (n : nat) : K (list Z) :=
  match n with
  | O => mret acc
  | S n =>
      pi ← getpipe p;
      if p_nread pi =? p_nwrite pi then mret acc else
      c ← need (p_data pi !! Z.to_nat (p_nread pi mod PIPESIZE));
      updpipe p (λ x, set_p_nread (u32 (p_nread x + 1)) x);;
      piperead_copy p (acc ++ [c]) n
  end.

(** Everything after the wait. *)
Definition piperead_rest (p n : Z) (go : bool) : K (Z * list Z) :=
  if go then
    l ← piperead_copy p [] (Z.to_nat n);
    wakeup (ChPipeWrite p);;
    release (L_pipe p);;
    mret (Z.of_nat (length l), l)
  else mret (-1, []).
Definition piperead (p n : Z) : K (Z * list Z) :=
  acquire (L_pipe p);;
  go ← piperead_wait p 0;
  piperead_rest p n go.

(** ** The queue of a pipe *)

(** The number of bytes in the buffer. *)
Definition pipe_len (p : pipe) : Z := u32 (p_nwrite p - p_nread p).

(** The bytes written and not yet read, oldest first. *)
Definition contents (p : pipe) : list Z := ring_list PIPESIZE (p_data p) (p_nread p) (pipe_len p).

Record pipe_wf (p : pipe) : Prop := {
  pw_data : length (p_data p) = Z.to_nat PIPESIZE;
  pw_nread : 0 ≤ p_nread p < 2 ^ 32;
  pw_nwrite : 0 ≤ p_nwrite p < 2 ^ 32;
  pw_len : pipe_len p ≤ PIPESIZE
}.

Lemma pipesize_div : (PIPESIZE | 2 ^ 32).
Proof. by exists 8388608. Qed.

Lemma pipe_len_nonneg p : 0 ≤ pipe_len p.
Proof. by apply Z.mod_pos_bound. Qed.

Lemma length_contents p : Z.of_nat (length (contents p)) = pipe_len p.
Proof. apply ring_list_length, pipe_len_nonneg. Qed.

(** The full and empty tests of the code. *)
Lemma pipe_full_eq p : pipe_wf p → (p_nwrite p =? u32 (p_nread p + PIPESIZE)) = (pipe_len p =? PIPESIZE).
Proof. intros [_ Hr Hw Hl]. by apply u32_full_dist. Qed.

Lemma pipe_empty_eq p : pipe_wf p → (p_nread p =? p_nwrite p) = (pipe_len p =? 0).
Proof. intros [_ Hr Hw Hl]. by apply u32_eq_dist. Qed.

Lemma pipe_put_len c p : pipe_len p < PIPESIZE → pipe_len (pipe_put c p) = pipe_len p + 1.
Proof. intros Hl. apply u32_dist_succ. by etransitivity; [exact Hl|]. Qed.

Lemma pipe_put_wf c p : pipe_wf p → pipe_len p < PIPESIZE → pipe_wf (pipe_put c p).
Proof.
  intros Hp Hl. pose proof Hp as [Hd Hr Hw _]. split; [by cbn; rewrite length_insert|done| |].
  - apply Z.mod_pos_bound. lia.
  - rewrite pipe_put_len by done. lia.
Qed.

Lemma pipe_put_contents c p : pipe_wf p → pipe_len p < PIPESIZE → contents (pipe_put c p) = contents p ++ [c].
Proof.
  intros Hp Hl. unfold contents. rewrite pipe_put_len by done. cbn [p_data p_nread pipe_put].
  apply ring_list_push; [done|apply Hp|split; [apply pipe_len_nonneg|done]|].
  apply u32_slot; [done|apply pipesize_div].
Qed.

Definition pipe_get (p : pipe) : pipe := set_p_nread (u32 (p_nread p + 1)) p.

Lemma pipe_get_spec p : pipe_wf p → 0 < pipe_len p →
  pipe_wf (pipe_get p) ∧ ∃ c, p_data p !! Z.to_nat (p_nread p mod PIPESIZE) = Some c ∧
    contents p = c :: contents (pipe_get p).
Proof.
  intros Hp Hl. assert (Hlen : pipe_len (pipe_get p) = pipe_len p - 1) by (by apply u32_dist_pred).
  destruct Hp as [Hd Hr Hw Hl2]. split.
  - split; [done|apply Z.mod_pos_bound; lia|done|lia].
  - destruct (lookup_lt_is_Some_2 (p_data p) (Z.to_nat (p_nread p mod PIPESIZE))) as [c Hc].
    { rewrite Hd. by apply ring_slot_lt. }
    exists c. split; [done|]. unfold contents. rewrite Hlen, ring_list_pop by (done || apply pipesize_div).
    by rewrite nth_lookup, Hc.
Qed.

(** ** Runs *)

(** Nobody sleeps on [ch]. *)
Definition awake (ch : chan) (k : kernel) : Prop :=
  ∀ x q, pt_proc (k_pt k) !! x = Some q → p_state q = SLEEPING → p_chan q ≠ Some ch.

(** Process [i] sleeps on [ch]. *)
Definition asleep (i : nat) (ch : chan) (k : kernel) : Prop :=
  ∃ q, pt_proc (k_pt k) !! i = Some q ∧ p_state q = SLEEPING ∧ p_chan q = Some ch.

(** Process [i] runs with the locks [L], the pipe [p] is [pi]. *)
Record piping (L : list lockid) (i : nat) (q : proc) (p : Z) (pi : pipe) (k : kernel) : Prop := {
  pp_mach : at_mach L (Some i) (k_mach k);
  pp_proc : ∃ q', pt_proc (k_pt k) !! i = Some q' ∧ p_killed q' = p_killed q;
  pp_pipe : k_pipes k !! p = Some pi;
  pp_wf : pipe_wf pi
}.

Lemma wp_getpipe p pi k E Q : k_pipes k !! p = Some pi → Q pi k → wp (getpipe p) E Q k.
Proof. intros Hp HQ. unfold getpipe. wp_steps. by eapply wp_need. Qed.

Lemma wp_killed L i q p pi k E Q : piping L i q p pi k → Q (p_killed q) k → wp killed E Q k.
Proof.
  intros [Hm (q' & Hq & Hk) _ _] HQ. unfold killed. wp_step. eapply wp_run; [by eapply myproc_run|].
  wp_step. eapply wp_getproc; [done|]. wp_step. by rewrite Hk.
Qed.

Lemma wakeup1_awake ch (ps : list proc) x q :
  map (wakeup1_proc ch) ps !! x = Some q → p_state q = SLEEPING → p_chan q ≠ Some ch.
Proof.
  rewrite list_lookup_fmap. destruct (ps !! x) as [q0|]; cbn; [|done]. intros [= <-]. unfold wakeup1_proc.
  case_bool_decide as Hc; cbn; [done|]. naive_solver.
Qed.

Lemma wakeup1_killed ch q : p_killed (wakeup1_proc ch q) = p_killed q.
Proof. unfold wakeup1_proc. by case_bool_decide. Qed.

Lemma wp_wakeup_piping L ch i q p pi k E Q :
  piping L i q p pi k → L_ptable ∉ L →
  (∀ k', piping L i q p pi k' → k_pipes k' = k_pipes k → awake ch k' → Q tt k') → wp (wakeup ch) E Q k.
Proof.
  intros [Hm (q' & Hq & Hk) Hp Hw] HL HQ. eapply wp_wakeup; [done..|]. intros m' Hm'. apply HQ; [|done|].
  - split; [done| |done..]. exists (wakeup1_proc ch q'). cbn. rewrite list_lookup_fmap, Hq. split; [done|].
    by rewrite wakeup1_killed.
  - intros x y. apply wakeup1_awake.
Qed.

Lemma wp_release_piping lk L i q p pi k E Q :
  piping (lk :: L) i q p pi k →
  (∀ k', piping L i q p pi k' → k_pipes k' = k_pipes k → k_pt k' = k_pt k → Q tt k') → wp (release lk) E Q k.
Proof. intros [Hm Hq Hp Hw] HQ. eapply wp_release; [done|]. intros m' Hm'. by apply HQ. Qed.

Lemma wp_acquire_piping lk L i q p pi k E Q :
  piping L i q p pi k → lk ∉ L →
  (∀ k', piping (lk :: L) i q p pi k' → k_pipes k' = k_pipes k → k_pt k' = k_pt k → Q tt k') → wp (acquire lk) E Q k.
Proof. intros [Hm Hq Hp Hw] HL HQ. eapply wp_acquire; [done|done|]. intros m' Hm'. by apply HQ. Qed.

Lemma piping_update L i q p pi f k :
  piping L i q p pi k → pipe_wf (f pi) → piping L i q p (f pi) (set_pipes (alter f p (k_pipes k)) k).
Proof. intros [Hm Hq Hp Hw] Hf. split; [done|done| |done]. cbn. by rewrite lookup_alter_eq, Hp. Qed.

(** [sleep] on the pipe's lock. *)
Lemma sleep_piping i q p pi ch k :
  piping [L_pipe p] i q p pi k →
  ∃ k', sleep ch (Some (L_pipe p)) k = Sleeps k' ∧ k_pipes k' = k_pipes k ∧ asleep i ch k' ∧
    (∀ ch', ch' ≠ ch → awake ch' k → awake ch' k').
Proof.
  intros [Hm (q' & Hq & Hk) Hp Hw]. destruct (sleep_run (L_pipe p) i q' ch k) as (m' & Hm' & Hr); [done..|].
  eexists. split; [exact Hr|]. split; [done|]. pose proof (lookup_lt_Some _ _ _ Hq) as Hlt. split.
  - eexists. split; [by apply list_lookup_insert_eq|done].
  - intros ch' Hne Ha x y. cbn. intros [(<- & <- & _)|[_ Hy]]%list_lookup_insert_Some; [cbn; congruence|by eapply Ha].
Qed.

(** [addr[i]] to [addr[j-1]] *)
Definition sub (addr : list Z) (i j : Z) : list Z := take (Z.to_nat (j - i)) (drop (Z.to_nat i) addr).

Lemma sub_step addr c i j : 0 ≤ i → i < j → addr !! Z.to_nat i = Some c → sub addr i j = c :: sub addr (i + 1) j.
Proof.
  intros Hi Hj Hc. unfold sub. rewrite (drop_S _ c) by done. replace (Z.to_nat (j - i)) with (S (Z.to_nat (j - (i + 1)))) by lia.
  cbn [take]. by replace (Z.to_nat (i + 1)) with (S (Z.to_nat i)) by lia.
Qed.

Lemma sub_nil addr i : sub addr i i = [].
Proof. unfold sub. by rewrite Z.sub_diag. Qed.

(** From [k] to [k'], the bytes [addr[i..j)] were appended to the pipe. *)
Definition appended (addr : list Z) (i j p : Z) (pi : pipe) (k k' : kernel) (pi' : pipe) : Prop :=
  k_pipes k' = <[p := pi']> (k_pipes k) ∧ pipe_wf pi' ∧ contents pi' = contents pi ++ sub addr i j ∧
  p_readopen pi' = p_readopen pi ∧ p_writeopen pi' = p_writeopen pi.

(** What [pipewrite] returns with, and in which state it sleeps. *)
Definition pw_returns (addr : list Z) (n i : Z) (a : nat) (q : proc) (p : Z) (pi : pipe) (k : kernel) (r : Z) (k' : kernel) : Prop :=
  at_mach [] (Some a) (k_mach k') ∧ ∃ j pi', appended addr i j p pi k k' pi' ∧ i ≤ j ≤ n ∧
    (r = n ∧ j = n ∧ awake (ChPipeRead p) k' ∨
     r = -1 ∧ j < n ∧ pipe_len pi' = PIPESIZE ∧ (p_readopen pi = false ∨ p_killed q = true)).
Definition pw_sleeps (addr : list Z) (n i : Z) (a : nat) (q : proc) (p : Z) (pi : pipe) (k k' : kernel) : Prop :=
  ∃ j pi', appended addr i j p pi k k' pi' ∧ i ≤ j < n ∧ pipe_len pi' = PIPESIZE ∧
    p_readopen pi = true ∧ p_killed q = false ∧ asleep a (ChPipeWrite p) k' ∧ awake (ChPipeRead p) k'.

Lemma appended_refl addr i p pi k k' : pipe_wf pi → k_pipes k !! p = Some pi → k_pipes k' = k_pipes k →
  appended addr i i p pi k k' pi.
Proof.
  intros Hw Hp Hk. split; [by rewrite Hk, insert_id|]. split; [done|]. by rewrite sub_nil, app_nil_r.
Qed.

Lemma appended_step addr c i j p pi k k' pi' :
  0 ≤ i → i < j → pipe_wf pi → pipe_len pi < PIPESIZE → addr !! Z.to_nat i = Some c → k_pipes k !! p = Some pi →
  appended addr (i + 1) j p (pipe_put c pi) (set_pipes (alter (pipe_put c) p (k_pipes k)) k) k' pi' →
  appended addr i j p pi k k' pi'.
Proof.
  intros Hi Hj Hw Hl Hc Hp (Hk & Hw' & Hcon & Hr & Hwr). split; [|split; [done|split; [|done]]].
  - rewrite Hk. cbn. by rewrite (alter_alt_Some _ _ _ pi), insert_insert_eq.
  - rewrite Hcon, pipe_put_contents, <-app_assoc by done. by rewrite (sub_step addr c i j).
Qed.

Lemma pipewrite_loop_spec addr n i a q p pi fuel : ∀ k,
  piping [L_pipe p] a q p pi k → 0 ≤ i ≤ n → n ≤ Z.of_nat (length addr) → (Z.to_nat (n - i) < fuel)%nat →
  wps (pipewrite_loop p addr n i fuel) (pw_returns addr n i a q p pi k) (pw_sleeps addr n i a q p pi k) k.
Proof.
  revert i pi. induction fuel as [|fuel IH]; intros i pi k Hk Hi Hn Hf; [lia|]. cbn [pipewrite_loop].
  pose proof (pp_pipe _ _ _ _ _ _ Hk) as Hp. pose proof (pp_wf _ _ _ _ _ _ Hk) as Hw.
  destruct (Z.ltb_spec i n) as [Hlt|Hge].
  - wps_step. eapply wp_getpipe; [done|]. rewrite pipe_full_eq by done.
    destruct (Z.eqb_spec (pipe_len pi) PIPESIZE) as [Hfull|Hnf].
    + wps_step. eapply wp_killed; [done|]. destruct (negb (p_readopen pi) || p_killed q) eqn:Hstop.
      * apply wps_wp. wp_steps. eapply wp_release_piping; [done|]. intros k1 Hk1 Hpp _. wp_steps.
        split; [apply Hk1|]. exists i, pi. split; [by apply appended_refl|]. split; [lia|]. right. split_and!; [done..|].
        apply orb_true_iff in Hstop as [?%negb_true_iff|?]; auto.
      * apply orb_false_iff in Hstop as [Hro%negb_false_iff Hkl].
        wps_step. eapply wp_wakeup_piping; [done|nolock|]. intros k1 Hk1 Hpp Haw.
        destruct (sleep_piping _ _ _ _ (ChPipeWrite p) _ Hk1) as (k2 & Hr & Hpp2 & Has & Hoth).
        eapply wps_sleeps_bind; [exact Hr|]. exists i, pi.
        split; [apply appended_refl; [done|done|congruence]|]. split_and!; [lia|lia|done..|]. by apply Hoth.
    + assert (Hl : pipe_len pi < PIPESIZE) by (pose proof (pw_len _ Hw); lia).
      destruct (lookup_lt_is_Some_2 addr (Z.to_nat i)) as [c Hc]; [lia|].
      wps_step. eapply wp_need; [done|]. wps_step. unfold updpipe. wp_steps.
      eapply wps_post; [apply IH; [apply piping_update; [done|by apply pipe_put_wf]|lia|lia|lia]| |].
      * intros r k' (Hm & j & pi' & Happ & Hj & Hr). split; [done|]. exists j, pi'.
        split; [by eapply (appended_step addr c); [lia..| | | | |]|]. split; [lia|done].
      * intros k' (j & pi' & Happ & Hj & Hr). exists j, pi'.
        split; [by eapply (appended_step addr c); [lia..| | | | |]|]. split; [lia|done].
  - apply wps_wp. assert (i = n) as -> by lia. wp_steps. eapply wp_wakeup_piping; [done|nolock|]. intros k1 Hk1 Hp1 Haw.
    wp_steps. eapply wp_release_piping; [done|]. intros k2 Hk2 Hp2 Hpt. wp_steps.
    split; [apply Hk2|]. exists n, pi. split; [apply appended_refl; [done|done|congruence]|]. split; [lia|].
    left. split_and!; [done..|]. unfold awake. by rewrite Hpt.
Qed.

(** What [piperead] returns with, and in which state it sleeps. *)
Definition pr_returns (n : Z) (a : nat) (q : proc) (p : Z) (pi : pipe) (k : kernel) (rl : Z * list Z) (k' : kernel) : Prop :=
  at_mach [] (Some a) (k_mach k') ∧
  (rl = (-1, []) ∧ contents pi = [] ∧ p_writeopen pi = true ∧ p_killed q = true ∧ k_pipes k' = k_pipes k ∨
   rl.1 = Z.of_nat (length rl.2) ∧ rl.2 = take (Z.to_nat n) (contents pi) ∧
   (contents pi = [] → p_writeopen pi = false) ∧ awake (ChPipeWrite p) k' ∧
   ∃ pi', k_pipes k' = <[p := pi']> (k_pipes k) ∧ pipe_wf pi' ∧ contents pi' = drop (Z.to_nat n) (contents pi) ∧
     p_readopen pi' = p_readopen pi ∧ p_writeopen pi' = p_writeopen pi).
Definition pr_sleeps (a : nat) (q : proc) (p : Z) (pi : pipe) (k k' : kernel) : Prop :=
  contents pi = [] ∧ p_writeopen pi = true ∧ p_killed q = false ∧ k_pipes k' = k_pipes k ∧
  asleep a (ChPipeRead p) k'.

Lemma contents_nil pi : pipe_len pi = 0 ↔ contents pi = [].
Proof. rewrite <-length_contents. split; [intros H; apply nil_length_inv; lia|by intros ->]. Qed.

Lemma wp_piperead_copy L a q p n E : ∀ acc pi k Q,
  piping L a q p pi k →
  (∀ pi' k', piping L a q p pi' k' → k_pipes k' = <[p := pi']> (k_pipes k) → contents pi' = drop n (contents pi) →
     p_readopen pi' = p_readopen pi → p_writeopen pi' = p_writeopen pi → Q (acc ++ take n (contents pi)) k') →
  wp (piperead_copy p acc n) E Q k.
Proof.
  induction n as [|n IH]; intros acc pi k Q Hk HQ; cbn [piperead_copy];
    pose proof (pp_pipe _ _ _ _ _ _ Hk) as Hp; pose proof (pp_wf _ _ _ _ _ _ Hk) as Hw.
  - wp_steps. specialize (HQ pi k Hk). rewrite app_nil_r in HQ. apply HQ; [by rewrite insert_id|done..].
  - wp_step. eapply wp_getpipe; [done|]. rewrite pipe_empty_eq by done.
    destruct (Z.eqb_spec (pipe_len pi) 0) as [H0|H0].
    + wp_steps. apply contents_nil in H0. specialize (HQ pi k Hk). rewrite H0, app_nil_r in HQ.
      apply HQ; [by rewrite insert_id|done..].
    + destruct (pipe_get_spec pi) as (Hw' & c & Hc & Hcon); [done| |].
      { pose proof (Z.mod_pos_bound (p_nwrite pi - p_nread pi) (2 ^ 32) ltac:(lia)). unfold pipe_len, u32 in *. lia. }
      wp_steps. eapply wp_need; [done|]. unfold updpipe. wp_steps. apply (IH _ (pipe_get pi)).
      { by apply (piping_update _ _ _ _ _ pipe_get). }
      intros pi' k' Hk' Hpp Hd Hr Hwr. rewrite <-app_assoc. rewrite Hcon in HQ. apply (HQ pi'); try done.
      rewrite Hpp. cbn. by rewrite (alter_alt_Some _ _ _ pi), insert_insert_eq.
Qed.

(** A pipe whose write counter has wrapped around and holds three bytes. *)
Definition demo_pipe : pipe := mkPipe (12 :: replicate 509 0 ++ [10; 11]) (2 ^ 32 - 2) 1 true true.
Definition demo_pipe_kernel : kernel := set_pipes {[ 4096 := demo_pipe ]} (kernel0 ∅).

Lemma demo_piping : piping [] 0 proc_run 4096 demo_pipe demo_pipe_kernel.
Proof.
  split; [apply kernel0_at_mach|by exists proc_run|apply lookup_singleton_eq|].
  split; [done|by cbn|by cbn|]. by vm_compute.
Qed.

(** ** Properties *)

(** C20: [pipewrite] is a write to a queue of at most 512 bytes, whatever the
    values of the two wrapping counters.  It appends [addr[0..j)] for some
    [j], in order, and: it returns [n] with [j = n] and all readers woken; or
    returns -1 with the queue full and the read end closed or the caller
    killed; or sleeps on the write channel with the queue full, the read end
    open and all readers woken.  No other outcome is possible. *)
Theorem pipewrite_appends (addr : list Z) (n : Z) (a : nat) (q : proc) (p : Z) (pi : pipe) (k : kernel)
  (Hk : piping [] a q p pi k) (Hn : 0 ≤ n ≤ Z.of_nat (length addr)) :
  wps (pipewrite p addr n) (pw_returns addr n 0 a q p pi k) (pw_sleeps addr n 0 a q p pi k) k.
Proof.
  unfold pipewrite. wps_step. eapply wp_acquire_piping; [done|nolock|]. intros k1 Hk1 Hp1 _.
  eapply wps_post; [apply pipewrite_loop_spec; [done|lia..]| |]; unfold pw_returns, pw_sleeps, appended; by rewrite Hp1.
Qed.

(** C21: [piperead] takes from the front of the queue: it returns the first
    [min(n, length)] bytes, which leave the queue, with all writers woken, and
    0 bytes from an empty queue only when the write end is closed; on an empty
    queue with the write end open it returns -1 to a killed caller and puts
    any other to sleep on the read channel. *)
Theorem piperead_takes (n : Z) (a : nat) (q : proc) (p : Z) (pi : pipe) (k : kernel)
  (Hk : piping [] a q p pi k) (Hn : 0 ≤ n) :
  wps (piperead p n) (pr_returns n a q p pi k) (pr_sleeps a q p pi k) k.
Proof.
  unfold piperead. wps_step. eapply wp_acquire_piping; [done|nolock|]. intros k1 Hk1 Hp1 _.
  apply wps_bind. cbn [piperead_wait]. pose proof (pp_pipe _ _ _ _ _ _ Hk1) as Hp. pose proof (pp_wf _ _ _ _ _ _ Hk1) as Hw.
  wps_step. eapply wp_getpipe; [done|]. rewrite pipe_empty_eq by done.
  destruct ((pipe_len pi =? 0) && p_writeopen pi) eqn:Hwait.
  - apply andb_true_iff in Hwait as [H0%Z.eqb_eq%contents_nil Hwo]. wps_step. eapply wp_killed; [done|].
    destruct (p_killed q) eqn:Hkl.
    + apply wps_wp. wp_steps. eapply wp_release_piping; [done|]. intros k2 Hk2 Hp2 _. wp_steps.
      apply wps_wp. unfold piperead_rest. wp_steps. split; [apply Hk2|]. left. split_and!; [done..|congruence].
    + destruct (sleep_piping _ _ _ _ (ChPipeRead p) _ Hk1) as (k2 & Hr & Hpp2 & Has & _).
      eapply wps_sleeps_bind; [exact Hr|]. split_and!; [done..|congruence|done].
  - apply wps_wp. wp_steps. apply wps_wp. unfold piperead_rest. wp_steps. eapply wp_piperead_copy; [done|].
    intros pi' k2 Hk2 Hpp Hd Hro Hwo. wp_steps. eapply wp_wakeup_piping; [done|nolock|]. intros k3 Hk3 Hp3 Haw. wp_steps.
    eapply wp_release_piping; [done|]. intros k4 Hk4 Hp4 Hpt. wp_steps. split; [apply Hk4|]. right. split_and!; [done..| | |].
    + intros H0%contents_nil. rewrite H0 in Hwait. done.
    + unfold awake. by rewrite Hpt.
    + exists pi'. split_and!; [congruence|apply Hk4|done..].
Qed.

Lemma pipewrite_appends_witness :
  contents demo_pipe = [10; 11; 12] ∧
  wps (pipewrite 4096 [7; 8] 2) (pw_returns [7; 8] 2 0 0 proc_run 4096 demo_pipe demo_pipe_kernel)
    (pw_sleeps [7; 8] 2 0 0 proc_run 4096 demo_pipe demo_pipe_kernel) demo_pipe_kernel.
Proof.
  split; [vm_compute; reflexivity|]. apply pipewrite_appends; [exact demo_piping|cbn; lia].
Defined.

Lemma piperead_takes_witness :
  contents demo_pipe = [10; 11; 12] ∧
  wps (piperead 4096 2) (pr_returns 2 0 proc_run 4096 demo_pipe demo_pipe_kernel)
    (pr_sleeps 0 proc_run 4096 demo_pipe demo_pipe_kernel) demo_pipe_kernel.
Proof.
  split; [vm_compute; reflexivity|]. apply piperead_takes; [exact demo_piping|lia].
Defined.
