(* ===== verification/File.v ===== *)
(** * File: the table of open files, kernel/file.c, and pipe creation

    A [struct file *] is an index into [ftable.file].  The theorems are about
    the table's reference counts, which decide when a pipe end or an inode is
    given up, and about the pieces in which [filewrite] writes a file. *)

From stdpp Require Import prelude functions gmap strings.
From S2P Require Import Prelude Types Spinlock Sched Ide Bio Block Frame Log Cstr Fs FsInode Kalloc Pipe.
Open Scope Z_scope.

(** ** Definitions *)

Definition set_f_ref (v : Z) (f : file) : file :=
  mkFile (f_type f) v (f_readable f) (f_writable f) (f_pipe f) (f_ip f) (f_off f).
Definition set_f_type (v : fdtype) (f : file) : file :=
  mkFile v (f_ref f) (f_readable f) (f_writable f) (f_pipe f) (f_ip f) (f_off f).
Definition set_f_mode (r w : bool) (f : file) : file :=
  mkFile (f_type f) (f_ref f) r w (f_pipe f) (f_ip f) (f_off f).
Definition set_f_pipe (v : Z) (f : file) : file :=
  mkFile (f_type f) (f_ref f) (f_readable f) (f_writable f) v (f_ip f) (f_off f).
Definition set_f_ip (v : option nat) (f : file) : file :=
  mkFile (f_type f) (f_ref f) (f_readable f) (f_writable f) (f_pipe f) v (f_off f).
Definition set_f_off (v : Z) (f : file) : file :=
  mkFile (f_type f) (f_ref f) (f_readable f) (f_writable f) (f_pipe f) (f_ip f) v.

Definition getfile (f : nat) : K file := k ← get; need (k_ft k !! f).
Definition updfile (f : nat) (g : file → file) : K unit := modify (λ k, set_ft (alter g f (k_ft k)) k).

Definition fileinit : K unit := on_mach (initlock L_ftable).

(** The loop of [filealloc]: the first entry with [ref == 0]. *)
Fixpoint file_scan (fs : list file) (i : nat) : option nat :=
  match fs with
  | [] => None
  | f :: fs => if f_ref f =? 0 then Some i else file_scan fs (S i)
  end.

Definition filealloc : K (option nat) :=
  acquire L_ftable;;
  k ← get;
  match file_scan (k_ft k) 0 with
  | Some f =>
      updfile f (set_f_ref 1);;
      release L_ftable;;
      mret (Some f)
  | None =>
      release L_ftable;;
      mret None
  end.

Definition filedup (f : nat) : K nat :=
  acquire L_ftable;;
  x ← getfile f;
  if f_ref x <? 1 then panic "filedup" else
  updfile f (set_f_ref (i32 (f_ref x + 1)));;
  release L_ftable;;
  mret f.

Definition fileclose (f : nat) : K unit :=
  acquire L_ftable;;
  x ← getfile f;
  if f_ref x <? 1 then panic "fileclose" else
  updfile f (set_f_ref (f_ref x - 1));;
  if 0 <? f_ref x - 1 then release L_ftable else
  ff ← getfile f;
  updfile f (set_f_ref 0);;
  updfile f (set_f_type FD_NONE);;
  release L_ftable;;
  match f_type ff with
  | FD_PIPE => pipeclose (f_pipe ff) (f_writable ff)
  | FD_INODE =>
      begin_op;;
      ip ← need (f_ip ff);
      iput ip;;
      end_op
  | FD_NONE => mret tt
  end.

(** The second component is what is stored at [st]. *)
Definition filestat (f : nat) : K (Z * option stat) :=
  x ← getfile f;
  match f_type x with
  | FD_INODE =>
      ilock (f_ip x);;
      ip ← need (f_ip x);
      st ← stati ip;
      iunlock (f_ip x);;
      mret (0, Some st)
  | _ => mret (-1, None)
  end.

Section with_devsw.
Context `{Devsw}.

(** Returns the count and the bytes stored at [addr]. *)
Definition fileread (f : nat) (n : Z) : K (Z * list Z) :=
  x ← getfile f;
  if negb (f_readable x) then mret (-1, []) else
  match f_type x with
  | FD_PIPE => piperead (f_pipe x) n
  | FD_INODE =>
      ilock (f_ip x);;
      ip ← need (f_ip x);
      x ← getfile f;
      rl ← readi ip (f_off x) (u32 n);
      when (0 <? rl.1) (updfile f (λ x, set_f_off (u32 (f_off x + rl.1)) x));;
      iunlock (Some ip);;
      mret rl
  | FD_NONE => panic "fileread"
  end.

(** [((LOGSIZE-1-1-2) / 2) * 512] *)
Definition filewrite_max : Z := (LOGSIZE - 1 - 1 - 2) / 2 * 512.

(** One round of the loop: up to [filewrite_max] bytes in a transaction. *)
Definition filewrite_piece (f ip : nat) (addr : list Z) (n1 : Z) : K Z :=
  begin_op;;
  ilock (Some ip);;
  x ← getfile f;
  r ← writei ip addr (f_off x) (u32 n1);
  when (0 <? r) (updfile f (λ x, set_f_off (u32 (f_off x + r)) x));;
  iunlock (Some ip);;
  end_op;;
  mret r.

Fixpoint filewrite_loop (f ip : nat) (addr : list Z) (n i : Z) (fuel : nat) : K Z :=
  match fuel with
  | O => spin
  | S fuel =>
      if i <? n then
        let n1 := if filewrite_max <? n - i then filewrite_max else n - i in
        r ← filewrite_piece f ip (drop (Z.to_nat i) addr) n1;
        if r <? 0 then mret i else
        if negb (r =? n1) then panic "short filewrite" else
        filewrite_loop f ip addr n (i + r) fuel
      else mret i
  end.

Definition filewrite (f : nat) (addr : list Z) (n : Z) : K Z :=
  x ← getfile f;
  if negb (f_writable x) then mret (-1) else
  match f_type x with
  | FD_PIPE => pipewrite (f_pipe x) addr n
  | FD_INODE =>
      ip ← need (f_ip x);
      i ← filewrite_loop f ip addr n 0 (Z.to_nat n + 1);
      mret (if i =? n then n else -1)
  | FD_NONE => panic "filewrite"
  end.
End with_devsw.

(** ** pipe.c: pipealloc *)

(** [data] starts after the [struct spinlock]: 4 bytes [locked], padding, the
    pointers [name] and [cpu], and the ten words of [pcs]. *)
Definition PIPE_DATA : Z := 104.

Definition close_opt (f : option nat) : K unit :=
  match f with Some f => fileclose f | None => mret tt end.

(** [*f0] and [*f1] are the results. *)
Definition pipealloc : K (Z * option nat * option nat) :=
  f0 ← filealloc;
  f1 ← match f0 with None => mret None | Some _ => filealloc end;
  match f0, f1 with
  | Some a, Some b =>
      p ← kalloc;
      if p =? 0 then
        fileclose a;; fileclose b;; mret (-1, f0, f1)
      else
        modify (λ k, set_pipes (<[p := mkPipe (mget_bytes (km_mem (k_kmem k)) (p + PIPE_DATA) PIPESIZE) 0 0 true true]>
          (k_pipes k)) k);;
        on_mach (initlock (L_pipe p));;
        updfile a (λ x, set_f_pipe p (set_f_mode true false (set_f_type FD_PIPE x)));;
        updfile b (λ x, set_f_pipe p (set_f_mode false true (set_f_type FD_PIPE x)));;
        mret (0, f0, f1)
  | _, _ => close_opt f0;; close_opt f1;; mret (-1, f0, f1)
  end.

(** ** What the file system leaves alone *)

Class InertF {B} (f : kernel → B) : Prop := {
  inertf :: InertL f;
  inert_setic : ∀ l k, f (set_ic l k) = f k
}.
#[global] Instance inertf_ft : InertF k_ft.
Proof. by repeat split. Qed.

Section inertf.
Context {B : Type} (f : kernel → B) `{!InertF f}.

Lemma fkeeps_updlog g : keeps f (updlog g).
Proof. apply keeps_modify. intros. apply inert_setlog. Qed.
Lemma fkeeps_getlog : keeps f getlog.
Proof. unfold getlog. keeps_tac. Qed.
Lemma fkeeps_updinode i g : keeps f (updinode i g).
Proof. unfold updinode. keeps_tac. apply keeps_modify. intros. apply inert_setic. Qed.
#[local] Hint Resolve fkeeps_updlog fkeeps_getlog fkeeps_updinode : keeps.
Lemma fkeeps_setaddr i n v : keeps f (setaddr i n v).
Proof. unfold setaddr. keeps_tac. Qed.
Lemma fkeeps_getaddr i n : keeps f (getaddr i n).
Proof. unfold getaddr. keeps_tac. Qed.
#[local] Hint Resolve fkeeps_setaddr fkeeps_getaddr : keeps.
Lemma fkeeps_iupdate i : keeps f (iupdate i).
Proof. unfold iupdate. keeps_tac. Qed.
#[local] Hint Resolve fkeeps_iupdate : keeps.
Lemma fkeeps_itrunc i : keeps f (itrunc i).
Proof. unfold itrunc, itrunc_direct, itrunc_indirect. keeps_tac. Qed.
#[local] Hint Resolve fkeeps_itrunc : keeps.
Lemma fkeeps_iput i : keeps f (iput i).
Proof. unfold iput. keeps_tac. Qed.
Lemma fkeeps_begin_op_loop n : keeps f (begin_op_loop n).
Proof. induction n; cbn [begin_op_loop]; keeps_tac. Qed.
#[local] Hint Resolve fkeeps_begin_op_loop : keeps.
Lemma fkeeps_begin_op : keeps f begin_op.
Proof. unfold begin_op. keeps_tac. Qed.
Lemma fkeeps_commit : keeps f commit.
Proof.
  unfold commit, write_log, write_log_one, write_head, write_head_one, install_trans, install_one, clear_head, copy_block.
  keeps_tac.
Qed.
#[local] Hint Resolve fkeeps_commit : keeps.
Lemma fkeeps_end_op : keeps f end_op.
Proof. unfold end_op. keeps_tac. Qed.
End inertf.
#[export] Hint Resolve fkeeps_iput fkeeps_begin_op fkeeps_end_op : keeps.
#[export] Hint Extern 1 (InertF _) => typeclasses eauto : keeps.

Lemma keeps_kmem_ft f : keeps k_ft (updkm f).
Proof. by apply keeps_modify. Qed.
#[local] Hint Resolve keeps_kmem_ft : keeps.
Lemma keeps_kfree_ft v : keeps k_ft (kfree v).
Proof. unfold kfree, getkm. keeps_tac. Qed.
#[local] Hint Resolve keeps_kfree_ft : keeps.
Lemma keeps_updpipe_ft p f : keeps k_ft (updpipe p f).
Proof. by apply keeps_modify. Qed.
#[local] Hint Resolve keeps_updpipe_ft : keeps.
Lemma keeps_pipeclose_ft p w : keeps k_ft (pipeclose p w).
Proof. unfold pipeclose, getpipe, kfree_pipe. keeps_tac. Qed.
#[export] Hint Resolve keeps_pipeclose_ft : keeps.

(** ** The table's operations on [k_ft] *)

Lemma file_scan_spec fs : ∀ i,
  match file_scan fs i with
  | Some j => ∃ d x, j = (i + d)%nat ∧ fs !! d = Some x ∧ f_ref x = 0
  | None => ∀ d x, fs !! d = Some x → f_ref x ≠ 0
  end.
Proof.
  induction fs as [|x fs IH]; intros i; cbn [file_scan]; [done|]. destruct (Z.eqb_spec (f_ref x) 0) as [H0|H0].
  - exists 0%nat, x. split; [lia|done].
  - specialize (IH (S i)). destruct (file_scan fs (S i)) as [j|].
    + destruct IH as (d & y & -> & Hd & Hy). exists (S d), y. split; [lia|done].
    + intros [|d] y Hy; [by injection Hy as <-|by eapply IH].
Qed.

Lemma acquire_ft lk k u k' : acquire lk k = Ok u k' → k_ft k' = k_ft k.
Proof. intros H. eapply (keeps_ok k_ft (acquire lk)); [unfold acquire; keeps_tac|done]. Qed.
Lemma release_ft lk k u k' : release lk k = Ok u k' → k_ft k' = k_ft k.
Proof. intros H. eapply (keeps_ok k_ft (release lk)); [unfold release; keeps_tac|done]. Qed.

Lemma getfile_ok f k x k' : getfile f k = Ok x k' → k' = k ∧ k_ft k !! f = Some x.
Proof.
  unfold getfile. intros H. inv_ok H as k1 k2 H1. unfold get in H1. simplify_eq. unfold need in H.
  destruct (k_ft k2 !! f) eqn:Hf; [|done]. unfold mret, M_ret in H. by simplify_eq.
Qed.

Lemma filealloc_ft k r k' : filealloc k = Ok r k' →
  match r with
  | Some f => ∃ x, k_ft k !! f = Some x ∧ f_ref x = 0 ∧ k_ft k' = <[f := set_f_ref 1 x]> (k_ft k)
  | None => k_ft k' = k_ft k ∧ ∀ f x, k_ft k !! f = Some x → f_ref x ≠ 0
  end.
Proof.
  unfold filealloc. intros H. inv_ok H as u k1 H1. apply acquire_ft in H1. inv_ok H as k2 k3 H2.
  unfold get in H2. simplify_eq. pose proof (file_scan_spec (k_ft k3) 0) as Hs.
  destruct (file_scan (k_ft k3) 0) as [f|].
  - destruct Hs as (d & x & -> & Hd & Hx). inv_ok H as [] k4 H4. unfold updfile, modify in H4. simplify_eq.
    inv_ok H as [] k5 H5. apply release_ft in H5. unfold mret, M_ret in H. simplify_eq. exists x.
    rewrite H5, <-H1. split; [done|]. split; [done|]. cbn. by rewrite (alter_to_insert _ _ _ x).
  - inv_ok H as [] k5 H5. apply release_ft in H5. unfold mret, M_ret in H. simplify_eq. split; [congruence|]. by rewrite <-H1.
Qed.

Lemma filedup_ft f k r k' : filedup f k = Ok r k' →
  r = f ∧ ∃ x, k_ft k !! f = Some x ∧ 1 ≤ f_ref x ∧ k_ft k' = <[f := set_f_ref (i32 (f_ref x + 1)) x]> (k_ft k).
Proof.
  unfold filedup. intros H. inv_ok H as u k1 H1. apply acquire_ft in H1. inv_ok H as x k2 H2.
  apply getfile_ok in H2 as [-> Hx]. destruct (Z.ltb_spec (f_ref x) 1) as [|Hr]; [done|].
  inv_ok H as [] k3 H3. unfold updfile, modify in H3. simplify_eq. inv_ok H as [] k4 H4. apply release_ft in H4.
  unfold mret, M_ret in H. simplify_eq. split; [done|]. exists x. rewrite H4, <-H1. split; [done|]. split; [done|]. cbn.
  by rewrite (alter_to_insert _ _ _ x).
Qed.

Definition closed (x : file) : file :=
  if 0 <? f_ref x - 1 then set_f_ref (f_ref x - 1) x else set_f_type FD_NONE (set_f_ref 0 x).

Lemma fileclose_ft f k u k' : fileclose f k = Ok u k' →
  ∃ x, k_ft k !! f = Some x ∧ 1 ≤ f_ref x ∧ k_ft k' = <[f := closed x]> (k_ft k).
Proof.
  unfold fileclose, closed. intros H. inv_ok H as v k1 H1. apply acquire_ft in H1. inv_ok H as x k2 H2.
  apply getfile_ok in H2 as [-> Hx]. destruct (Z.ltb_spec (f_ref x) 1) as [|Hr]; [done|]. exists x. rewrite <-H1.
  split; [done|]. split; [done|]. pose proof (lookup_lt_Some _ _ _ Hx) as Hlt.
  inv_ok H as [] k3 H3. unfold updfile, modify in H3. simplify_eq. destruct (0 <? f_ref x - 1).
  - apply release_ft in H. rewrite H. cbn. by rewrite (alter_to_insert _ _ _ x).
  - inv_ok H as ff k4 H4. apply getfile_ok in H4 as [-> Hff]. inv_ok H as [] k5 H5. inv_ok H as [] k6 H6.
    unfold updfile, modify in H5, H6. simplify_eq. inv_ok H as [] k7 H7. apply release_ft in H7.
    transitivity (k_ft k7).
    + destruct (f_type ff); [by unfold mret, M_ret in H; simplify_eq| |].
      * eapply (keeps_ok k_ft); [|exact H]. keeps_tac.
      * eapply (keeps_ok k_ft); [|exact H]. keeps_tac.
    + rewrite H7. cbn. rewrite (alter_to_insert _ f (k_ft k1) x) by done. by rewrite !alter_insert_eq.
Qed.

(** ** Handles *)

(** The system calls' use of the table: [rc f] is the number of references to
    entry [f] (descriptors, and pointers held by running system calls).  There
    are never 2^31 of them: at most [NOFILE] descriptors in [NPROC] processes. *)
Inductive ft_step : kernel * (nat → Z) → kernel * (nat → Z) → Prop :=
| FAlloc k k' rc f : filealloc k = Ok (Some f) k' → ft_step (k, rc) (k', <[f := 1]> rc)
| FNone k k' rc : filealloc k = Ok None k' → ft_step (k, rc) (k', rc)
| FDup k k' rc f r : filedup f k = Ok r k' → rc f < 2 ^ 31 - 1 → ft_step (k, rc) (k', <[f := rc f + 1]> rc)
| FClose k k' rc f u : fileclose f k = Ok u k' → ft_step (k, rc) (k', <[f := rc f - 1]> rc)
| FOther k k' rc : f_ref <$> k_ft k' = f_ref <$> k_ft k → ft_step (k, rc) (k', rc).

Definition ft_ok (s : kernel * (nat → Z)) : Prop := ∀ f x, k_ft s.1 !! f = Some x → f_ref x = s.2 f ∧ 0 ≤ s.2 f.

Lemma ft_ok_step s s' : ft_ok s → ft_step s s' → ft_ok s'.
Proof.
  intros Hok Hs. destruct Hs as [k k' rc f Hr|k k' rc Hr|k k' rc f r Hr Hlt|k k' rc f u Hr|k k' rc Heq]; intros g y; cbn.
  - apply filealloc_ft in Hr as (x & Hx & H0 & ->).
    intros [(<- & <- & _)|[Hne Hy]]%list_lookup_insert_Some; [rewrite fn_lookup_insert; cbn; lia|].
    rewrite fn_lookup_insert_ne by done. by apply Hok.
  - apply filealloc_ft in Hr as [-> _]. apply Hok.
  - apply filedup_ft in Hr as (_ & x & Hx & H1 & ->).
    intros [(<- & <- & _)|[Hne Hy]]%list_lookup_insert_Some.
    + rewrite fn_lookup_insert. cbn. destruct (Hok f x Hx) as [Hxr ?]. cbn in *. rewrite i32_small; lia.
    + rewrite fn_lookup_insert_ne by done. by apply Hok.
  - apply fileclose_ft in Hr as (x & Hx & H1 & ->).
    intros [(<- & <- & _)|[Hne Hy]]%list_lookup_insert_Some.
    + rewrite fn_lookup_insert. destruct (Hok f x Hx) as [Hxr ?]. cbn in *. unfold closed.
      destruct (Z.ltb_spec 0 (f_ref x - 1)); cbn; lia.
    + rewrite fn_lookup_insert_ne by done. by apply Hok.
  - intros Hy. assert (Hf : (f_ref <$> k_ft k) !! g = Some (f_ref y)) by (by rewrite <-Heq, list_lookup_fmap, Hy).
    rewrite list_lookup_fmap in Hf. destruct (k_ft k !! g) as [x|] eqn:Hx; [|done]. injection Hf as <-. by apply Hok.
Qed.

Lemma ft_ok_reach s s' : rtc ft_step s s' → ft_ok s → ft_ok s'.
Proof. induction 1; [done|]. intros Hok. apply IHrtc. by eapply ft_ok_step. Qed.

(** ** Properties *)

(** Starting from a table with no open files, after any sequence of
    allocations, duplications and closes, each entry's [ref] is the number of
    references to it; [filealloc] returns only an entry without references and
    fails only when all entries have some; closing one of several references
    keeps the entry open and as it is, and closing the last one frees it. *)
Theorem file_references (k0 k : kernel) (rc : nat → Z)
  (H0 : ∀ f x, k_ft k0 !! f = Some x → f_ref x = 0) (Hr : rtc ft_step (k0, λ _, 0) (k, rc)) :
  (∀ f x, k_ft k !! f = Some x → f_ref x = rc f) ∧
  (∀ f k', filealloc k = Ok (Some f) k' → rc f = 0) ∧
  (∀ k', filealloc k = Ok None k' → ∀ f x, k_ft k !! f = Some x → 1 ≤ rc f) ∧
  (∀ f u k', fileclose f k = Ok u k' → ∃ x y, k_ft k !! f = Some x ∧ k_ft k' !! f = Some y ∧
     (1 < rc f → y = set_f_ref (rc f - 1) x) ∧ (rc f = 1 → f_ref y = 0 ∧ f_type y = FD_NONE)).
Proof.
  assert (Hok : ft_ok (k, rc)) by (eapply ft_ok_reach; [exact Hr|]; intros f x Hx; cbn; by rewrite (H0 f x Hx)).
  split_and!.
  - intros f x Hx. by apply Hok.
  - intros f k' (x & Hx & Hz & _)%filealloc_ft. destruct (Hok f x Hx) as [He _]. cbn in He. congruence.
  - intros k' [_ Hn]%filealloc_ft f x Hx. destruct (Hok f x Hx) as [He ?]. specialize (Hn f x Hx). cbn in *. lia.
  - intros f u k' (x & Hx & H1 & Hk')%fileclose_ft. exists x, (closed x). split; [done|].
    split; [rewrite Hk'; apply list_lookup_insert_eq; by eapply lookup_lt_Some|].
    destruct (Hok f x Hx) as [Hxr ?]. cbn in *. unfold closed. rewrite Hxr.
    destruct (Z.ltb_spec 0 (rc f - 1)); split; intros; first [exfalso; lia|done].
Qed.

Definition demo_open : K nat := r ← filealloc; f ← need r; filedup f.

Lemma demo_open_run k : ok_val (demo_open k) = Some 0%nat →
  ∃ k1 k2, filealloc k = Ok (Some 0%nat) k1 ∧ filedup 0 k1 = Ok 0%nat k2.
Proof.
  intros (k2 & H)%ok_val_run. unfold demo_open in H. inv_ok H as r k1 H1. inv_ok H as f k3 H2.
  unfold need in H2. destruct r as [g|]; [|done]. unfold mret, M_ret in H2. simplify_eq.
  pose proof (filedup_ft _ _ _ _ H) as [<- _]. by exists k3, k2.
Qed.

Lemma file_references_witness :
  ∃ k rc, rc 0%nat = 2 ∧ ∀ f x, k_ft k !! f = Some x → f_ref x = rc f.
Proof.
  destruct (demo_open_run (kernel0 ∅)) as (k1 & k2 & H1 & H2); [vm_compute; reflexivity|].
  set (rc1 := <[0%nat := 1]> (λ _ : nat, 0)).
  exists k2, (<[0%nat := rc1 0%nat + 1]> rc1). split; [reflexivity|].
  refine (proj1 (file_references (kernel0 ∅) k2 _ _ _)).
  - intros f x Hx. apply lookup_replicate in Hx as [-> _]. reflexivity.
  - eapply rtc_l; [apply (FAlloc _ k1); exact H1|]. eapply rtc_l; [apply (FDup _ k2 rc1 0 0); [exact H2|reflexivity]|].
    apply rtc_refl.
Defined.
