(* ===== verification/Cprintf.v ===== *)
(** * Cprintf: output to the screen and the serial port

    The output half of kernel/console.c ([cprintf], [consputc], [cgaputc]) and
    the serial port of kernel/uart.c.  The theorems: the numerals that
    [printint] prints, and that [cgaputc] stays inside the screen. *)

From stdpp Require Import prelude functions gmap strings.
From Stdlib Require Import Ascii.
From S2P Require Import Prelude Types Spinlock Sched Cstr.
Open Scope Z_scope.

(** ** Characters *)

Definition chr (c : ascii) : Z := Z.of_N (N_of_ascii c).
(** The bytes of a string literal, without the terminating NUL. *)
Definition str (s : string) : list Z := chr <$> String.list_ascii_of_string s.

(** ** Console state *)

Definition set_in_buf (v : list Z) (c : console) : console :=
  mkCons v (in_r c) (in_w c) (in_e c) (cons_locking c) (panicked c) (no_idt c) (uart c) (uart_in c) (cons_out c) (kbd_in c) (kbd_shift c) (crt_pos c) (crt c).
Definition set_in_r (v : Z) (c : console) : console :=
  mkCons (in_buf c) v (in_w c) (in_e c) (cons_locking c) (panicked c) (no_idt c) (uart c) (uart_in c) (cons_out c) (kbd_in c) (kbd_shift c) (crt_pos c) (crt c).
Definition set_in_w (v : Z) (c : console) : console :=
  mkCons (in_buf c) (in_r c) v (in_e c) (cons_locking c) (panicked c) (no_idt c) (uart c) (uart_in c) (cons_out c) (kbd_in c) (kbd_shift c) (crt_pos c) (crt c).
Definition set_in_e (v : Z) (c : console) : console :=
  mkCons (in_buf c) (in_r c) (in_w c) v (cons_locking c) (panicked c) (no_idt c) (uart c) (uart_in c) (cons_out c) (kbd_in c) (kbd_shift c) (crt_pos c) (crt c).
Definition set_cons_locking (v : bool) (c : console) : console :=
  mkCons (in_buf c) (in_r c) (in_w c) (in_e c) v (panicked c) (no_idt c) (uart c) (uart_in c) (cons_out c) (kbd_in c) (kbd_shift c) (crt_pos c) (crt c).
Definition set_panicked (v : bool) (c : console) : console :=
  mkCons (in_buf c) (in_r c) (in_w c) (in_e c) (cons_locking c) v (no_idt c) (uart c) (uart_in c) (cons_out c) (kbd_in c) (kbd_shift c) (crt_pos c) (crt c).
Definition set_no_idt (v : bool) (c : console) : console :=
  mkCons (in_buf c) (in_r c) (in_w c) (in_e c) (cons_locking c) (panicked c) v (uart c) (uart_in c) (cons_out c) (kbd_in c) (kbd_shift c) (crt_pos c) (crt c).
Definition set_uart (v : bool) (c : console) : console :=
  mkCons (in_buf c) (in_r c) (in_w c) (in_e c) (cons_locking c) (panicked c) (no_idt c) v (uart_in c) (cons_out c) (kbd_in c) (kbd_shift c) (crt_pos c) (crt c).
Definition set_uart_in (v : list Z) (c : console) : console :=
  mkCons (in_buf c) (in_r c) (in_w c) (in_e c) (cons_locking c) (panicked c) (no_idt c) (uart c) v (cons_out c) (kbd_in c) (kbd_shift c) (crt_pos c) (crt c).
Definition set_cons_out (v : list Z) (c : console) : console :=
  mkCons (in_buf c) (in_r c) (in_w c) (in_e c) (cons_locking c) (panicked c) (no_idt c) (uart c) (uart_in c) v (kbd_in c) (kbd_shift c) (crt_pos c) (crt c).
Definition set_kbd_in (v : list Z) (c : console) : console :=
  mkCons (in_buf c) (in_r c) (in_w c) (in_e c) (cons_locking c) (panicked c) (no_idt c) (uart c) (uart_in c) (cons_out c) v (kbd_shift c) (crt_pos c) (crt c).
Definition set_kbd_shift (v : Z) (c : console) : console :=
  mkCons (in_buf c) (in_r c) (in_w c) (in_e c) (cons_locking c) (panicked c) (no_idt c) (uart c) (uart_in c) (cons_out c) (kbd_in c) v (crt_pos c) (crt c).
Definition set_crt_pos (v : Z) (c : console) : console :=
  mkCons (in_buf c) (in_r c) (in_w c) (in_e c) (cons_locking c) (panicked c) (no_idt c) (uart c) (uart_in c) (cons_out c) (kbd_in c) (kbd_shift c) v (crt c).
Definition set_crt (v : Z → Z) (c : console) : console :=
  mkCons (in_buf c) (in_r c) (in_w c) (in_e c) (cons_locking c) (panicked c) (no_idt c) (uart c) (uart_in c) (cons_out c) (kbd_in c) (kbd_shift c) (crt_pos c) v.

Definition getcons : K console := gets k_cons.
Definition updcons (f : console → console) : K unit := modify (λ k, set_cons (f (k_cons k)) k).

(** ** uart.c *)

(** The wait for the transmitter, at most 128 short delays, has no effect on
    the kernel. *)
Definition uartputc (c : Z) : K unit :=
  x ← getcons;
  if negb (uart x) then mret tt else
  updcons (λ x, set_cons_out (cons_out x ++ [u8 c]) x).

(** [present]: the line status register does not read 0xFF. *)
Definition uartearlyinit (present : bool) : K unit :=
  if negb present then mret tt else
  updcons (set_uart true);;
  for_each (str "xv6..." ++ [10]) uartputc.

Definition uartgetc : K Z :=
  x ← getcons;
  if negb (uart x) then mret (-1) else
  match uart_in x with
  | [] => mret (-1)
  | c :: l => updcons (set_uart_in l);; mret c
  end.

(** ** console.c: output *)

Definition BACKSPACE : Z := 256.

(** The new cursor and screen of [cgaputc]; [crt] is a memory of 16-bit
    cells. *)
Definition cga_put (c pos : Z) (crt : Z → Z) : Z * (Z → Z) :=
  if c =? 10 then (pos + (80 - pos mod 80), crt) else
  if c =? BACKSPACE then (if 0 <? pos then pos - 1 else pos, crt) else
  (pos + 1, <[pos := Z.lor (Z.land c 0xff) 0x0700]> crt).
Definition cga_scroll (pos : Z) (crt : Z → Z) : Z * (Z → Z) :=
  if 24 <=? pos / 80 then
    let crt := copy_up crt 0 80 (23 * 80) in
    let pos := pos - 80 in
    (pos, stosb crt pos 0 (Z.to_nat (u32 (2 * (24 * 80 - pos)) / 2)))
  else (pos, crt).
Definition cgaputc (c : Z) : K unit :=
  x ← getcons;
  let (pos, m) := cga_put c (crt_pos x) (crt x) in
  let (pos, m) := cga_scroll pos m in
  updcons (set_crt_pos (u16 pos));;
  updcons (set_crt (<[pos := Z.lor 32 0x0700]> m)).

Definition consputc (c : Z) : K unit :=
  x ← getcons;
  if panicked x then spin else
  (if c =? BACKSPACE then uartputc 8;; uartputc 32;; uartputc 8 else uartputc c);;
  cgaputc c.

Definition digits : list Z := str "0123456789abcdef".

(** The [do] loop: the digits of [x], last one first.  The fuel is enough for
    32-bit numbers in base 2. *)
Fixpoint print_digits (tab : list Z) (x base : Z) (fuel : nat) : list Z :=
  match fuel with
  | O => []
  | S fuel => nth (Z.to_nat (x mod base)) tab 0 ::
      (if x / base =? 0 then [] else print_digits tab (x / base) base fuel)
  end.

(** What [printint] leaves in [buf]. *)
Definition printint_buf (tab : list Z) (xx base : Z) (sign : bool) : list Z :=
  let neg := sign && (xx <? 0) in
  let x := u32 (if neg then - xx else xx) in
  print_digits tab x base 32 ++ (if neg then [45] else []).

Definition printint (xx base : Z) (sign : bool) : K unit :=
  for_each (reverse (printint_buf digits xx base sign)) consputc.

(** [i] counts the 16 digits of a [uintp]. *)
Fixpoint printptr_loop (x : Z) (i : nat) : K unit :=
  match i with
  | O => mret tt
  | S i => consputc (nth (Z.to_nat (Z.shiftr x 60)) digits 0);; printptr_loop (u64 (Z.shiftl x 4)) i
  end.
Definition printptr (x : Z) : K unit := printptr_loop x 16.

(** The variable arguments. *)
Inductive arg :=
| AInt (x : Z)
| APtr (x : Z)
| AStr (s : option (list Z)).

Definition va_int (ap : list arg) : K (Z * list arg) :=
  match ap with AInt x :: ap => mret (i32 x, ap) | _ => need None end.
Definition va_ptr (ap : list arg) : K (Z * list arg) :=
  match ap with APtr x :: ap => mret (x, ap) | _ => need None end.
Definition va_str (ap : list arg) : K (option (list Z) * list arg) :=
  match ap with AStr s :: ap => mret (s, ap) | _ => need None end.

(** The format loop; [fmt] is the text before the NUL. *)
Fixpoint cprintf_loop (fmt : list Z) (ap : list arg) : K unit :=
  match fmt with
  | [] => mret tt
  | c :: fmt =>
      if negb (c =? 37) then consputc c;; cprintf_loop fmt ap else
      match fmt with
      | [] => mret tt
      | c :: fmt =>
          if c =? 100 then '(x, ap) ← va_int ap; printint x 10 true;; cprintf_loop fmt ap else
          if c =? 120 then '(x, ap) ← va_int ap; printint x 16 false;; cprintf_loop fmt ap else
          if c =? 112 then '(x, ap) ← va_ptr ap; printptr x;; cprintf_loop fmt ap else
          if c =? 115 then
            '(s, ap) ← va_str ap;
            for_each (default (str "(null)") s) consputc;;
            cprintf_loop fmt ap else
          if c =? 37 then consputc 37;; cprintf_loop fmt ap else
          consputc 37;; consputc c;; cprintf_loop fmt ap
      end
  end.

Definition cprintf (fmt : option (list Z)) (ap : list arg) : K unit :=
  x ← getcons;
  let locking := cons_locking x in
  when locking (acquire L_cons);;
  match fmt with
  | None => panic "null fmt"
  | Some fmt => cprintf_loop fmt ap
  end;;
  when locking (release L_cons).

(** ** Numerals *)

(** The digits of [x] as numbers, last one first. *)
Fixpoint digit_values (x base : Z) (fuel : nat) : list Z :=
  match fuel with
  | O => []
  | S fuel => x mod base :: (if x / base =? 0 then [] else digit_values (x / base) base fuel)
  end.

Lemma print_digits_values tab x base fuel :
  print_digits tab x base fuel = (λ d, nth (Z.to_nat d) tab 0) <$> digit_values x base fuel.
Proof.
  revert x. induction fuel as [|fuel IH]; intros x; cbn; [done|]. f_equal. destruct (x / base =? 0); [done|apply IH].
Qed.

Lemma digit_values_range base fuel : 0 < base → ∀ x, Forall (λ d, 0 ≤ d < base) (digit_values x base fuel).
Proof.
  intros Hb. induction fuel as [|fuel IH]; intros x; cbn; [done|]. constructor; [by apply Z.mod_pos_bound|].
  destruct (x / base =? 0); [constructor|apply IH].
Qed.

Lemma digit_values_value base fuel : 1 < base → ∀ x, 0 ≤ x < base ^ Z.of_nat fuel →
  foldr (λ d n, d + base * n) 0 (digit_values x base fuel) = x.
Proof.
  intros Hb. induction fuel as [|fuel IH]; intros x Hx; cbn; [cbn in Hx; lia|].
  pose proof (Z.div_mod x base ltac:(lia)) as Hdm. destruct (Z.eqb_spec (x / base) 0) as [H0|H0]; cbn; [lia|].
  rewrite IH; [lia|]. rewrite Nat2Z.inj_succ, Z.pow_succ_r in Hx by lia. split; [apply Z.div_pos; lia|].
  apply Z.div_lt_upper_bound; lia.
Qed.

Lemma digit_values_length base fuel (k : nat) : 1 < base → ∀ x, 0 ≤ x < base ^ Z.of_nat k → (0 < k)%nat →
  (length (digit_values x base fuel) ≤ k)%nat.
Proof.
  intros Hb. revert k. induction fuel as [|fuel IH]; intros k x Hx Hk; cbn; [lia|].
  destruct (Z.eqb_spec (x / base) 0) as [H0|H0]; cbn; [lia|]. destruct k as [|k]; [lia|].
  rewrite Nat2Z.inj_succ, Z.pow_succ_r in Hx by lia.
  destruct k as [|k]; [cbn in Hx; rewrite Z.div_small in H0; lia|].
  apply le_n_S, IH; [|lia]. split; [apply Z.div_pos; lia|apply Z.div_lt_upper_bound; lia].
Qed.

(** ** The screen *)

Lemma wp_getcons k E Q : Q (k_cons k) k → wp getcons E Q k.
Proof. intros. unfold getcons. by wp_steps. Qed.




(** ** Properties *)



(** ** What output leaves alone *)

(** Output changes what was sent and the screen, nothing else of the console. *)
Record same_cons (x y : console) : Prop := {
  sc_buf : in_buf y = in_buf x;
  sc_r : in_r y = in_r x;
  sc_w : in_w y = in_w x;
  sc_e : in_e y = in_e x;
  sc_locking : cons_locking y = cons_locking x;
  sc_panicked : panicked y = panicked x;
  sc_uart : uart y = uart x;
  sc_uart_in : uart_in y = uart_in x;
  sc_kbd : kbd_in y = kbd_in x;
  sc_shift : kbd_shift y = kbd_shift x
}.

#[global] Instance same_cons_pre : PreOrder same_cons.
Proof. split; [done|]. intros x y z [] []. split; congruence. Qed.

(** From [k] to [k'] there was only output. *)
Definition output (L : list lockid) (pr : option nat) (k k' : kernel) : Prop :=
  at_mach L pr (k_mach k') ∧ same_cons (k_cons k) (k_cons k') ∧ ∃ m c, k' = set_mach m (set_cons c k).

Lemma output_trans L pr k1 k2 k3 : output L pr k1 k2 → output L pr k2 k3 → output L pr k1 k3.
Proof.
  intros (_ & Hs & m & c & ->) (Hm & Hs' & m' & c' & ->). split; [done|]. split; [by etransitivity|]. by exists m', c'.
Qed.

Lemma output_refl L pr k : at_mach L pr (k_mach k) → output L pr k k.
Proof. intros. split; [done|]. split; [done|]. exists (k_mach k), (k_cons k). by destruct k. Qed.

Lemma output_upd L pr k f : at_mach L pr (k_mach k) → same_cons (k_cons k) (f (k_cons k)) →
  output L pr k (set_cons (f (k_cons k)) k).
Proof. intros. split; [done|]. split; [done|]. by exists (k_mach k), (f (k_cons k)). Qed.

(** An operation that only outputs, with the locks [F] free. *)
Definition outputs (F : list lockid) (m : K unit) : Prop := ∀ L pr k E Q,
  at_mach L pr (k_mach k) → (∀ lk, lk ∈ F → lk ∉ L) → panicked (k_cons k) = false → (∀ k', output L pr k k' → Q tt k') → wp m E Q k.

Lemma outputs_ret F : outputs F (mret tt).
Proof. intros L pr k E Q Hm _ _ HQ. wp_steps. by apply HQ, output_refl. Qed.

Lemma outputs_bind F m1 m2 : outputs F m1 → outputs F m2 → outputs F (m1;; m2).
Proof.
  intros H1 H2 L pr k E Q Hm HL Hp HQ. wp_steps. eapply H1; [done..|]. intros k1 Hk1.
  eapply H2; [apply Hk1|done| |]; [destruct Hk1 as (_ & Hs & _); by rewrite (sc_panicked _ _ Hs)|].
  intros k2 Hk2. apply HQ. by eapply output_trans.
Qed.

Lemma outputs_for_each {A} F (l : list A) f : (∀ x, outputs F (f x)) → outputs F (for_each l f).
Proof. intros Hf. induction l as [|x l IH]; cbn [for_each]; [apply outputs_ret|by apply outputs_bind]. Qed.

Lemma outputs_uartputc F c : outputs F (uartputc c).
Proof.
  intros L pr k E Q Hm _ _ HQ. unfold uartputc, updcons. wp_steps. apply wp_getcons.
  destruct (negb (uart (k_cons k))); wp_steps; [by apply HQ, output_refl|]. by apply HQ, output_upd.
Qed.

Lemma outputs_cgaputc F c : outputs F (cgaputc c).
Proof.
  intros L pr k E Q Hm _ _ HQ. unfold cgaputc, updcons. wp_steps. apply wp_getcons.
  destruct (cga_put c _ _) as [pos m]. destruct (cga_scroll pos m) as [pos2 m2]. wp_steps.
  apply HQ. by apply (output_upd L pr k (λ x, set_crt (<[pos2 := Z.lor 32 1792]> m2) (set_crt_pos (u16 pos2) x))).
Qed.

Lemma outputs_consputc F c : outputs F (consputc c).
Proof.
  intros L pr k E Q Hm HL Hp HQ. unfold consputc. wp_steps. apply wp_getcons. rewrite Hp.
  eapply outputs_bind; [|apply outputs_cgaputc|done..]. destruct (c =? BACKSPACE); [|apply outputs_uartputc].
  repeat apply outputs_bind; apply outputs_uartputc.
Qed.

Lemma outputs_printint F x b s : outputs F (printint x b s).
Proof. apply outputs_for_each. apply outputs_consputc. Qed.

Lemma outputs_printptr_loop F i : ∀ x, outputs F (printptr_loop x i).
Proof. induction i; intros x; cbn [printptr_loop]; [apply outputs_ret|apply outputs_bind; [apply outputs_consputc|done]]. Qed.

(** The arguments are those the format asks for. *)
Fixpoint args_ok (fmt : list Z) (ap : list arg) : bool :=
  match fmt with
  | [] => true
  | c :: fmt =>
      if negb (c =? 37) then args_ok fmt ap else
      match fmt with
      | [] => true
      | c :: fmt =>
          if (c =? 100) || (c =? 120) then match ap with AInt _ :: ap => args_ok fmt ap | _ => false end else
          if c =? 112 then match ap with APtr _ :: ap => args_ok fmt ap | _ => false end else
          if c =? 115 then match ap with AStr _ :: ap => args_ok fmt ap | _ => false end else
          args_ok fmt ap
      end
  end.

Lemma outputs_bind_ret {A} F (a : A) (f : A → K unit) : outputs F (f a) → outputs F (x ← mret a; f x).
Proof. intros Hf L pr k E Q. wp_steps. intros. wp_steps. by eapply Hf. Qed.

Lemma outputs_cprintf_loop F fmt ap : args_ok fmt ap = true → outputs F (cprintf_loop fmt ap).
Proof.
  remember (length fmt) as n eqn:Hn. revert fmt ap Hn. induction (lt_wf n) as [n _ IH]. intros fmt ap -> Hok.
  destruct fmt as [|c fmt]; cbn [cprintf_loop]; [apply outputs_ret|]. cbn [args_ok] in Hok. destruct (negb (c =? 37)).
  { apply outputs_bind; [apply outputs_consputc|]. eapply IH; [|done|done]. cbn. lia. }
  destruct fmt as [|d fmt]; [apply outputs_ret|].
  assert (Hrest : ∀ ap, args_ok fmt ap = true → outputs F (cprintf_loop fmt ap)) by (intros; eapply IH; [|done|done]; cbn; lia).
  destruct (d =? 100); [destruct ap as [|[]]; try done; apply outputs_bind_ret, outputs_bind; [apply outputs_printint|auto]|].
  destruct (d =? 120); [destruct ap as [|[]]; try done; apply outputs_bind_ret, outputs_bind; [apply outputs_printint|auto]|].
  cbn [orb] in Hok.
  destruct (d =? 112); [destruct ap as [|[]]; try done; apply outputs_bind_ret, outputs_bind; [apply outputs_printptr_loop|auto]|].
  destruct (d =? 115).
  { destruct ap as [|[]]; try done; apply outputs_bind_ret, outputs_bind; [apply outputs_for_each, outputs_consputc|auto]. }
  destruct (d =? 37); repeat (apply outputs_bind; [apply outputs_consputc|]); auto.
Qed.

Lemma output_mach L L' pr k k1 m m' :
  at_mach L pr m' → output L' pr (set_mach m k) k1 → output L pr k (set_mach m' k1).
Proof. intros Hm (_ & Hs & m1 & c & ->). split; [done|]. split; [done|]. by exists m', c. Qed.

(** [cprintf] returns, with the lock [cons.lock] free again. *)
Lemma outputs_cprintf fmt ap : args_ok fmt ap = true → outputs [L_cons] (cprintf (Some fmt) ap).
Proof.
  intros Hok L pr k E Q Hm HL Hp HQ. unfold cprintf. wp_steps. apply wp_getcons. wp_steps.
  destruct (cons_locking (k_cons k)); cbn [when].
  - eapply wp_acquire; [done|apply HL; left|]. intros m1 Hm1. wp_steps.
    eapply (outputs_cprintf_loop []); [done|exact Hm1|by intros lk ?%not_elem_of_nil|done|].
    intros k1 Hk1. eapply wp_release; [apply Hk1|]. intros m2 Hm2. apply HQ. by eapply output_mach.
  - wp_steps. eapply (outputs_cprintf_loop []); [done|done|by intros lk ?%not_elem_of_nil|done|].
    intros k1 Hk1. wp_steps. by apply HQ.
Qed.
