(* ===== verification/Intr.v ===== *)
(** * Intr: the interrupt controllers and the timer

    kernel/lapic.c, kernel/ioapic.c, kernel/picirq.c and kernel/timer.c.  A
    register of a local or I/O APIC holds the last value written to it, and
    interprocessor interrupts are delivered at once; the 8259A controllers and
    the timer see the bytes in [ports].  The theorem is about routing: which
    interrupt lines the controllers pass on once they are set up. *)

From stdpp Require Import prelude functions gmap strings.
From S2P Require Import Prelude Types Spinlock Sched Cstr Kalloc Cprintf.
Open Scope Z_scope.

(** ** Fields *)

Definition set_cpus (v : list (Z * Z)) (p : platform) : platform :=
  mkPlat v (ncpu p) (bcpu p) (ismp p) (ioapicid p) (lapic p) (lapic_reg p) (ioapic p) (ioapic_sel p) (ioapic_reg p) (irqmask p) (cpunum_n p) (ports p) (started p).
Definition set_ncpu (v : Z) (p : platform) : platform :=
  mkPlat (cpus p) v (bcpu p) (ismp p) (ioapicid p) (lapic p) (lapic_reg p) (ioapic p) (ioapic_sel p) (ioapic_reg p) (irqmask p) (cpunum_n p) (ports p) (started p).
Definition set_bcpu (v : Z) (p : platform) : platform :=
  mkPlat (cpus p) (ncpu p) v (ismp p) (ioapicid p) (lapic p) (lapic_reg p) (ioapic p) (ioapic_sel p) (ioapic_reg p) (irqmask p) (cpunum_n p) (ports p) (started p).
Definition set_ismp (v : bool) (p : platform) : platform :=
  mkPlat (cpus p) (ncpu p) (bcpu p) v (ioapicid p) (lapic p) (lapic_reg p) (ioapic p) (ioapic_sel p) (ioapic_reg p) (irqmask p) (cpunum_n p) (ports p) (started p).
Definition set_ioapicid (v : Z) (p : platform) : platform :=
  mkPlat (cpus p) (ncpu p) (bcpu p) (ismp p) v (lapic p) (lapic_reg p) (ioapic p) (ioapic_sel p) (ioapic_reg p) (irqmask p) (cpunum_n p) (ports p) (started p).
Definition set_lapic (v : Z) (p : platform) : platform :=
  mkPlat (cpus p) (ncpu p) (bcpu p) (ismp p) (ioapicid p) v (lapic_reg p) (ioapic p) (ioapic_sel p) (ioapic_reg p) (irqmask p) (cpunum_n p) (ports p) (started p).
Definition set_lapic_reg (v : nat → Z → Z) (p : platform) : platform :=
  mkPlat (cpus p) (ncpu p) (bcpu p) (ismp p) (ioapicid p) (lapic p) v (ioapic p) (ioapic_sel p) (ioapic_reg p) (irqmask p) (cpunum_n p) (ports p) (started p).
Definition set_ioapic (v : bool) (p : platform) : platform :=
  mkPlat (cpus p) (ncpu p) (bcpu p) (ismp p) (ioapicid p) (lapic p) (lapic_reg p) v (ioapic_sel p) (ioapic_reg p) (irqmask p) (cpunum_n p) (ports p) (started p).
Definition set_ioapic_sel (v : Z) (p : platform) : platform :=
  mkPlat (cpus p) (ncpu p) (bcpu p) (ismp p) (ioapicid p) (lapic p) (lapic_reg p) (ioapic p) v (ioapic_reg p) (irqmask p) (cpunum_n p) (ports p) (started p).
Definition set_ioapic_reg (v : Z → Z) (p : platform) : platform :=
  mkPlat (cpus p) (ncpu p) (bcpu p) (ismp p) (ioapicid p) (lapic p) (lapic_reg p) (ioapic p) (ioapic_sel p) v (irqmask p) (cpunum_n p) (ports p) (started p).
Definition set_irqmask (v : Z) (p : platform) : platform :=
  mkPlat (cpus p) (ncpu p) (bcpu p) (ismp p) (ioapicid p) (lapic p) (lapic_reg p) (ioapic p) (ioapic_sel p) (ioapic_reg p) v (cpunum_n p) (ports p) (started p).
Definition set_cpunum_n (v : Z) (p : platform) : platform :=
  mkPlat (cpus p) (ncpu p) (bcpu p) (ismp p) (ioapicid p) (lapic p) (lapic_reg p) (ioapic p) (ioapic_sel p) (ioapic_reg p) (irqmask p) v (ports p) (started p).
Definition set_ports (v : list (Z * Z)) (p : platform) : platform :=
  mkPlat (cpus p) (ncpu p) (bcpu p) (ismp p) (ioapicid p) (lapic p) (lapic_reg p) (ioapic p) (ioapic_sel p) (ioapic_reg p) (irqmask p) (cpunum_n p) v (started p).
Definition set_started (v : list Z) (p : platform) : platform :=
  mkPlat (cpus p) (ncpu p) (bcpu p) (ismp p) (ioapicid p) (lapic p) (lapic_reg p) (ioapic p) (ioapic_sel p) (ioapic_reg p) (irqmask p) (cpunum_n p) (ports p) v.

Definition getplat : K platform := gets k_plat.
Definition updplat (f : platform → platform) : K unit := modify (λ k, set_plat (f (k_plat k)) k).

(** [outb] to the controllers and the timer. *)
Definition port_out (port v : Z) : K unit := updplat (λ p, set_ports ((port, u8 v) :: ports p) p).

(** ** traps.h *)

Definition T_SYSCALL : Z := 64.
Definition T_IRQ0 : Z := 32.
Definition IRQ_TIMER : Z := 0.
Definition IRQ_KBD : Z := 1.
Definition IRQ_COM1 : Z := 4.
Definition IRQ_IDE : Z := 14.
Definition IRQ_ERROR : Z := 19.
Definition IRQ_SPURIOUS : Z := 31.

(** ** picirq.c *)

Definition IO_PIC1 : Z := 0x20.
Definition IO_PIC2 : Z := 0xA0.
Definition IRQ_SLAVE : Z := 2.

Definition picsetmask (mask : Z) : K unit :=
  updplat (set_irqmask mask);;
  port_out (IO_PIC1 + 1) mask;;
  port_out (IO_PIC2 + 1) (Z.shiftr mask 8).

Definition picenable (irq : Z) : K unit :=
  p ← getplat;
  picsetmask (u16 (Z.land (irqmask p) (Z.lnot (Z.shiftl 1 irq)))).

Definition picinit : K unit :=
  port_out (IO_PIC1 + 1) 0xFF;;
  port_out (IO_PIC2 + 1) 0xFF;;
  port_out IO_PIC1 0x11;;
  port_out (IO_PIC1 + 1) T_IRQ0;;
  port_out (IO_PIC1 + 1) (Z.shiftl 1 IRQ_SLAVE);;
  port_out (IO_PIC1 + 1) 0x3;;
  port_out IO_PIC2 0x11;;
  port_out (IO_PIC2 + 1) (T_IRQ0 + 8);;
  port_out (IO_PIC2 + 1) IRQ_SLAVE;;
  port_out (IO_PIC2 + 1) 0x3;;
  port_out IO_PIC1 0x68;;
  port_out IO_PIC1 0x0a;;
  port_out IO_PIC2 0x68;;
  port_out IO_PIC2 0x0a;;
  p ← getplat;
  when (negb (irqmask p =? 0xFFFF)) (picsetmask (irqmask p)).

(** ** ioapic.c *)

Definition REG_ID : Z := 0x00.
Definition REG_VER : Z := 0x01.
Definition REG_TABLE : Z := 0x10.
Definition INT_DISABLED : Z := 0x00010000.

(** A null [ioapic] faults. *)
Definition ioapicread (reg : Z) : K Z :=
  p ← getplat;
  if negb (ioapic p) then need None else
  updplat (set_ioapic_sel (u32 reg));;
  mret (ioapic_reg p (u32 reg)).

Definition ioapicwrite (reg data : Z) : K unit :=
  p ← getplat;
  if negb (ioapic p) then need None else
  updplat (set_ioapic_sel (u32 reg));;
  updplat (λ p, set_ioapic_reg (<[ioapic_sel p := u32 data]> (ioapic_reg p)) p).

Definition ioapic_mask (i : Z) : K unit :=
  ioapicwrite (REG_TABLE + 2 * i) (Z.lor INT_DISABLED (T_IRQ0 + i));;
  ioapicwrite (REG_TABLE + 2 * i + 1) 0.

Definition ioapicinit : K unit :=
  p ← getplat;
  if negb (ismp p) then mret tt else
  updplat (set_ioapic true);;
  v ← ioapicread REG_VER;
  let maxintr := Z.land (Z.shiftr v 16) 0xFF in
  r ← ioapicread REG_ID;
  let id := Z.shiftr r 24 in
  when (negb (id =? ioapicid p)) (
    cprintf (Some (str "ioapicinit: id isn't equal to ioapicid; not a MP" ++ [10])) []);;
  for_each (seqZ 0 (maxintr + 1)) ioapic_mask.

Definition ioapicenable (irq cpunum : Z) : K unit :=
  p ← getplat;
  if negb (ismp p) then mret tt else
  ioapicwrite (REG_TABLE + 2 * irq) (T_IRQ0 + irq);;
  ioapicwrite (REG_TABLE + 2 * irq + 1) (Z.shiftl cpunum 24).

(** ** lapic.c *)

(** Local APIC registers, divided by 4 for use as uint[] indices. *)
Definition LAPIC_ID : Z := 0x0020 / 4.
Definition LAPIC_VER : Z := 0x0030 / 4.
Definition TPR : Z := 0x0080 / 4.
Definition EOI : Z := 0x00B0 / 4.
Definition SVR : Z := 0x00F0 / 4.
Definition ENABLE : Z := 0x00000100.
Definition ESR : Z := 0x0280 / 4.
Definition ICRLO : Z := 0x0300 / 4.
Definition INIT : Z := 0x00000500.
Definition STARTUP : Z := 0x00000600.
Definition DELIVS : Z := 0x00001000.
Definition ASSERT : Z := 0x00004000.
Definition LEVEL : Z := 0x00008000.
Definition BCAST : Z := 0x00080000.
Definition ICRHI : Z := 0x0310 / 4.
Definition TIMER : Z := 0x0320 / 4.
Definition X1 : Z := 0x0000000B.
Definition PERIODIC : Z := 0x00020000.
Definition PCINT : Z := 0x0340 / 4.
Definition LINT0 : Z := 0x0350 / 4.
Definition LINT1 : Z := 0x0360 / 4.
Definition LAPIC_ERROR : Z := 0x0370 / 4.
Definition MASKED : Z := 0x00010000.
Definition TICR : Z := 0x0380 / 4.
Definition TDCR : Z := 0x03E0 / 4.

(** The running CPU's register; a null [lapic] faults. *)
Definition lapicr (index : Z) : K Z :=
  k ← get;
  if lapic (k_plat k) =? 0 then need None else mret (lapic_reg (k_plat k) (m_me (k_mach k)) index).
Definition lapicw (index value : Z) : K unit :=
  k ← get;
  if lapic (k_plat k) =? 0 then need None else
  let me := m_me (k_mach k) in
  updplat (λ p, set_lapic_reg (<[me := <[index := u32 value]> (lapic_reg p me)]> (lapic_reg p)) p);;
  lapicr LAPIC_ID;;
  mret tt.

(** The wait for the delivery status to clear: delivery is immediate, so a
    status that is set stays set. *)
Definition lapicinit : K unit :=
  p ← getplat;
  if lapic p =? 0 then mret tt else
  lapicw SVR (Z.lor ENABLE (T_IRQ0 + IRQ_SPURIOUS));;
  lapicw TDCR X1;;
  lapicw TIMER (Z.lor PERIODIC (T_IRQ0 + IRQ_TIMER));;
  lapicw TICR 10000000;;
  lapicw LINT0 MASKED;;
  lapicw LINT1 MASKED;;
  v ← lapicr LAPIC_VER;
  when (4 <=? Z.land (Z.shiftr v 16) 0xFF) (lapicw PCINT MASKED);;
  lapicw LAPIC_ERROR (T_IRQ0 + IRQ_ERROR);;
  lapicw ESR 0;;
  lapicw ESR 0;;
  lapicw EOI 0;;
  lapicw ICRHI 0;;
  lapicw ICRLO (Z.lor (Z.lor BCAST INIT) LEVEL);;
  s ← lapicr ICRLO;
  if negb (Z.land s DELIVS =? 0) then spin else
  lapicw TPR 0.

(** The first of the [ncpu] CPUs with the local APIC id. *)
Fixpoint cpunum_scan (id : Z) (l : list (Z * Z)) (n : Z) : Z :=
  match l with
  | [] => 0
  | (_, apicid) :: l => if id =? apicid then n else cpunum_scan id l (n + 1)
  end.
(** [ra] is the return address of the call. *)
Definition cpunum (ra : Z) : K Z :=
  f ← on_mach readeflags_if;
  p ← getplat;
  when f (
    updplat (set_cpunum_n (i32 (cpunum_n p + 1)));;
    when (cpunum_n p =? 0) (cprintf (Some (str "cpu called from %x with interrupts enabled" ++ [10])) [AInt ra]));;
  if lapic p =? 0 then mret 0 else
  r ← lapicr LAPIC_ID;
  mret (cpunum_scan (Z.shiftr r 24) (take (Z.to_nat (ncpu p)) (cpus p)) 0).

Definition lapiceoi : K unit :=
  p ← getplat;
  when (negb (lapic p =? 0)) (lapicw EOI 0).

Definition CMOS_PORT : Z := 0x70.

(** One startup interrupt. *)
Definition startup_ipi (apicid addr : Z) : K unit :=
  lapicw ICRHI (Z.shiftl apicid 24);;
  lapicw ICRLO (Z.lor STARTUP (Z.shiftr addr 12)).
Definition lapicstartap (apicid addr : Z) : K unit :=
  port_out CMOS_PORT 0xF;;
  port_out (CMOS_PORT + 1) 0x0A;;
  let wrv := p2v (Z.lor (Z.shiftl 0x40 4) 0x67) in
  updkm (λ x, set_km_mem (mput_bytes (km_mem x) wrv (le_put 2 0)) x);;
  updkm (λ x, set_km_mem (mput_bytes (km_mem x) (wrv + 2) (le_put 2 (Z.shiftr addr 4))) x);;
  lapicw ICRHI (Z.shiftl apicid 24);;
  lapicw ICRLO (Z.lor (Z.lor INIT LEVEL) ASSERT);;
  lapicw ICRLO (Z.lor INIT LEVEL);;
  for_each [0; 1] (λ _, startup_ipi apicid addr).

(** ** lapic.c: the real-time clock *)

Definition CMOS_STATA : Z := 0x0a.
Definition CMOS_STATB : Z := 0x0b.
Definition CMOS_UIP : Z := Z.shiftl 1 7.
Definition SECS : Z := 0x00.
Definition MINS : Z := 0x02.
Definition HOURS : Z := 0x04.
Definition DAY : Z := 0x07.
Definition MONTH : Z := 0x08.
Definition YEAR : Z := 0x09.

(** date.h *)
Record rtcdate := mkDate { second : Z; minute : Z; hour : Z; day : Z; month : Z; year : Z }.
#[global] Instance rtcdate_eq_dec : EqDecision rtcdate.
Proof. solve_decision. Defined.

Section with_cmos.
(** What the clock answers, after the port writes so far. *)
Variable cmos : list (Z * Z) → Z.

Definition cmos_read (reg : Z) : K Z :=
  port_out CMOS_PORT reg;;
  p ← getplat;
  mret (u8 (cmos (ports p))).

Definition fill_rtcdate : K rtcdate :=
  s ← cmos_read SECS;
  m ← cmos_read MINS;
  h ← cmos_read HOURS;
  d ← cmos_read DAY;
  mo ← cmos_read MONTH;
  y ← cmos_read YEAR;
  mret (mkDate s m h d mo y).

(** Two readings that agree. *)
Fixpoint cmostime_loop (fuel : nat) : K rtcdate :=
  match fuel with
  | O => spin
  | S fuel =>
      t1 ← fill_rtcdate;
      a ← cmos_read CMOS_STATA;
      if negb (Z.land a CMOS_UIP =? 0) then cmostime_loop fuel else
      t2 ← fill_rtcdate;
      if decide (t1 = t2) then mret t1 else cmostime_loop fuel
  end.

Definition CONV (x : Z) : Z := Z.shiftr x 4 * 10 + Z.land x 0xf.

Definition cmostime (fuel : nat) : K rtcdate :=
  sb ← cmos_read CMOS_STATB;
  let bcd := Z.land sb (Z.shiftl 1 2) =? 0 in
  t1 ← cmostime_loop fuel;
  let t1 := if bcd then mkDate (CONV (second t1)) (CONV (minute t1)) (CONV (hour t1)) (CONV (day t1))
                               (CONV (month t1)) (CONV (year t1)) else t1 in
  mret (mkDate (second t1) (minute t1) (hour t1) (day t1) (month t1) (year t1 + 2000)).
End with_cmos.

(** ** timer.c *)

Definition IO_TIMER1 : Z := 0x040.
Definition TIMER_FREQ : Z := 1193182.
Definition TIMER_DIV (x : Z) : Z := (TIMER_FREQ + x / 2) / x.
Definition TIMER_MODE : Z := IO_TIMER1 + 3.
Definition TIMER_SEL0 : Z := 0x00.
Definition TIMER_RATEGEN : Z := 0x04.
Definition TIMER_16BIT : Z := 0x30.

Definition timerinit : K unit :=
  port_out TIMER_MODE (Z.lor (Z.lor TIMER_SEL0 TIMER_RATEGEN) TIMER_16BIT);;
  port_out IO_TIMER1 (TIMER_DIV 100 mod 256);;
  port_out IO_TIMER1 (TIMER_DIV 100 / 256);;
  picenable IRQ_TIMER.

(** ** Routing *)

(** The last byte written to a port. *)
Fixpoint port_last (port : Z) (l : list (Z * Z)) : option Z :=
  match l with
  | [] => None
  | (q, v) :: l => if q =? port then Some v else port_last port l
  end.

(** Line [i] may interrupt, by the masks that the two 8259A hold: the slave
    is behind line 2 of the master. *)
Definition pic_passes (p : platform) (i : Z) : Prop :=
  ∃ lo hi, port_last (IO_PIC1 + 1) (ports p) = Some lo ∧ port_last (IO_PIC2 + 1) (ports p) = Some hi ∧
    Z.testbit lo IRQ_SLAVE = false ∧ (if i <? 8 then Z.testbit lo i else Z.testbit hi (i - 8)) = false.

(** The I/O APIC passes line [i] on, to vector [T_IRQ0 + i] of the CPU with
    APIC id [c]. *)
Definition ioapic_passes (p : platform) (i c : Z) : Prop :=
  ioapic_reg p (REG_TABLE + 2 * i) = T_IRQ0 + i ∧ ioapic_reg p (REG_TABLE + 2 * i + 1) = Z.shiftl c 24.
Definition ioapic_masked (p : platform) (i : Z) : Prop :=
  Z.land (ioapic_reg p (REG_TABLE + 2 * i)) INT_DISABLED ≠ 0.

(** What the drivers do when they start. *)
Definition enable_irq (irq_cpu : Z * Z) : K unit := picenable irq_cpu.1;; ioapicenable irq_cpu.1 irq_cpu.2.

Definition with_mask (m : Z) (p : platform) : platform :=
  set_ports ((IO_PIC2 + 1, u8 (Z.shiftr m 8)) :: (IO_PIC1 + 1, u8 m) :: ports p) (set_irqmask m p).
Definition with_reg (r v : Z) (p : platform) : platform :=
  set_ioapic_reg (<[u32 r := u32 v]> (ioapic_reg p)) (set_ioapic_sel (u32 r) p).

Lemma picsetmask_run m k : picsetmask m k = Ok tt (set_plat (with_mask m (k_plat k)) k).
Proof. reflexivity. Qed.
Lemma ioapicwrite_run r v k : ioapic (k_plat k) = true →
  ioapicwrite r v k = Ok tt (set_plat (with_reg r v (k_plat k)) k).
Proof.
  intros Hi. unfold ioapicwrite, getplat. rewrite (bind_run _ _ (k_plat k) k k) by done. rewrite Hi. reflexivity.
Qed.

(** The controllers with the lines [on] enabled, [n] of them in the I/O APIC. *)
Record routed (n : Z) (on : list (Z * Z)) (p : platform) : Prop := {
  ro_mp : ismp p = true;
  ro_io : ioapic p = true;
  ro_mask : 0 ≤ irqmask p < 2 ^ 16 ∧ ∀ i, 0 ≤ i < 16 → Z.testbit (irqmask p) i = negb ((i =? IRQ_SLAVE) || bool_decide (i ∈ on.*1));
  ro_out : port_last (IO_PIC1 + 1) (ports p) = Some (u8 (irqmask p)) ∧
    port_last (IO_PIC2 + 1) (ports p) = Some (u8 (Z.shiftr (irqmask p) 8));
  ro_on : ∀ i c, (i, c) ∈ on → ioapic_passes p i c;
  ro_off : ∀ i, 0 ≤ i < n → i ∉ on.*1 → ioapic_masked p i
}.

Lemma pic_passes_mask n on p i : routed n on p → 0 ≤ i < 16 → pic_passes p i ↔ i = IRQ_SLAVE ∨ i ∈ on.*1.
Proof.
  intros [_ _ [Hm Hb] [Ho1 Ho2] _ _] Hi. unfold pic_passes. rewrite Ho1, Ho2.
  assert (Hlo : ∀ j, 0 ≤ j < 8 → Z.testbit (u8 (irqmask p)) j = Z.testbit (irqmask p) j).
  { intros j Hj. unfold u8. by rewrite Z.mod_pow2_bits_low by lia. }
  assert (Hhi : ∀ j, 0 ≤ j < 8 → Z.testbit (u8 (Z.shiftr (irqmask p) 8)) j = Z.testbit (irqmask p) (j + 8)).
  { intros j Hj. unfold u8. rewrite Z.mod_pow2_bits_low by lia. by rewrite Z.shiftr_spec by lia. }
  assert (Hd : (if i <? 8 then Z.testbit (u8 (irqmask p)) i else Z.testbit (u8 (Z.shiftr (irqmask p) 8)) (i - 8))
    = Z.testbit (irqmask p) i).
  { destruct (Z.ltb_spec i 8); [apply Hlo; lia|]. rewrite Hhi by lia. f_equal. lia. }
  assert (Hs : Z.testbit (u8 (irqmask p)) IRQ_SLAVE = false) by (rewrite Hlo by done; by rewrite Hb).
  transitivity (Z.testbit (irqmask p) i = false).
  { split; [intros (lo & hi & [= <-] & [= <-] & _ & Hf); congruence|]. intros Hf. do 2 eexists. split_and!; try done. by rewrite Hd. }
  rewrite Hb, negb_false_iff, orb_true_iff, Z.eqb_eq, bool_decide_eq_true by done. done.
Qed.

Lemma u32_reg i : 0 ≤ i < 512 → u32 (REG_TABLE + 2 * i) = REG_TABLE + 2 * i ∧ u32 (REG_TABLE + 2 * i + 1) = REG_TABLE + 2 * i + 1.
Proof. intros Hi. unfold u32, REG_TABLE. rewrite !Z.mod_small by lia. done. Qed.

Lemma mask_clear m irq i : 0 ≤ irq < 16 → 0 ≤ i < 16 →
  Z.testbit (u16 (Z.land m (Z.lnot (Z.shiftl 1 irq)))) i = Z.testbit m i && negb (i =? irq).
Proof.
  intros Hq Hi. unfold u16. rewrite Z.mod_pow2_bits_low, Z.land_spec, Z.lnot_spec, Z.shiftl_spec by lia.
  destruct (Z.eqb_spec i irq) as [->|Hne]; [by rewrite Z.sub_diag|]. f_equal. f_equal.
  destruct (decide (i < irq)); [by rewrite Z.testbit_neg_r by lia|]. apply Z.bits_above_log2; cbn; lia.
Qed.

(** The registers of a line, after those of another. *)
Lemma with_reg_ne r v p i : 0 ≤ r < 2 ^ 32 → i ≠ r → ioapic_reg (with_reg r v p) i = ioapic_reg p i.
Proof. intros Hr Hi. cbn. unfold u32. rewrite Z.mod_small by lia. by rewrite fn_lookup_insert_ne. Qed.
Lemma with_reg_eq r v p : 0 ≤ r < 2 ^ 32 → ioapic_reg (with_reg r v p) r = u32 v.
Proof. intros Hr. cbn. unfold u32 at 1. rewrite Z.mod_small by lia. by rewrite fn_lookup_insert. Qed.

Definition route (irq c : Z) (p : platform) : platform :=
  with_reg (REG_TABLE + 2 * irq + 1) (Z.shiftl c 24) (with_reg (REG_TABLE + 2 * irq) (T_IRQ0 + irq)
    (with_mask (u16 (Z.land (irqmask p) (Z.lnot (Z.shiftl 1 irq)))) p)).

Lemma route_same irq c p i : 0 ≤ irq < 16 → i ≠ irq →
  ioapic_reg (route irq c p) (REG_TABLE + 2 * i) = ioapic_reg p (REG_TABLE + 2 * i) ∧
  ioapic_reg (route irq c p) (REG_TABLE + 2 * i + 1) = ioapic_reg p (REG_TABLE + 2 * i + 1).
Proof. intros Hq Hi. unfold route. rewrite !with_reg_ne by (unfold REG_TABLE; lia). done. Qed.
Lemma route_passes irq c p : 0 ≤ irq < 16 → 0 ≤ c < 256 → ioapic_passes (route irq c p) irq c.
Proof.
  intros Hq Hc. unfold route. split.
  - rewrite with_reg_ne, with_reg_eq by (unfold REG_TABLE; lia). unfold u32, T_IRQ0. by rewrite Z.mod_small by lia.
  - rewrite with_reg_eq by (unfold REG_TABLE; lia). rewrite Z.shiftl_mul_pow2 by lia. unfold u32. by rewrite Z.mod_small by lia.
Qed.

Lemma routed_route n on p irq c : routed n on p → 0 ≤ irq < 16 → 0 ≤ c < 256 → irq ∉ on.*1 →
  routed n ((irq, c) :: on) (route irq c p).
Proof.
  intros [Hmp Hio [Hm Hb] _ Hon Hoff] Hq Hc Hni. split; try done; cbn [fmap list_fmap fst].
  - cbn [irqmask route with_reg set_ioapic_reg set_ioapic_sel with_mask set_ports set_irqmask]. split.
    + apply Z.mod_pos_bound. lia.
    + intros i Hi. rewrite mask_clear, Hb by done. rewrite <-negb_orb. f_equal.
      destruct (Z.eqb_spec i irq) as [->|Hne]; [rewrite (bool_decide_true (irq ∈ irq :: _)) by left; by rewrite !orb_true_r|].
      rewrite orb_false_r. f_equal. apply bool_decide_ext. rewrite elem_of_cons. naive_solver.
  - intros i c' [[= -> ->]|Hin]%elem_of_cons; [by apply route_passes|].
    assert (i ≠ irq) by (intros ->; apply Hni; apply list_elem_of_fmap; by exists (irq, c')).
    unfold ioapic_passes. destruct (route_same irq c p i) as [-> ->]; [done..|]. by apply Hon.
  - intros i Hi [Hne Hin]%not_elem_of_cons. unfold ioapic_masked. destruct (route_same irq c p i) as [-> _]; [done..|]. by apply Hoff.
Qed.

Lemma enable_irq_run n on irq c k : routed n on (k_plat k) →
  enable_irq (irq, c) k = Ok tt (set_plat (route irq c (k_plat k)) k).
Proof.
  intros [Hmp Hio _ _ _ _]. unfold enable_irq, picenable, ioapicenable, getplat. cbn [fst snd].
  erewrite bind_run; [|rewrite (bind_run _ _ (k_plat k) k k) by done; apply picsetmask_run].
  erewrite bind_run; [|done]. cbn [k_plat set_plat ismp with_mask set_ports set_irqmask]. rewrite Hmp. cbn [negb].
  erewrite bind_run; [|by apply ioapicwrite_run]. by rewrite ioapicwrite_run.
Qed.

Lemma enable_irqs_run n l : ∀ on k, routed n on (k_plat k) → Forall (λ x, 0 ≤ x.1 < 16 ∧ 0 ≤ x.2 < 256) l →
  NoDup ((l ++ on).*1) → ∃ p, for_each l enable_irq k = Ok tt (set_plat p k) ∧ routed n (reverse l ++ on) p.
Proof.
  induction l as [|[irq c] l IH]; intros on k Hr Hl Hnd; cbn [for_each].
  { exists (k_plat k). split; [by destruct k|done]. }
  apply Forall_cons in Hl as [[Hq Hc] Hl]. cbn [app fmap list_fmap fst] in Hnd. apply NoDup_cons in Hnd as [Hni Hnd].
  rewrite fmap_app in Hni, Hnd. destruct (IH ((irq, c) :: on) (set_plat (route irq c (k_plat k)) k)) as (p & Hp & Hrp).
  - apply routed_route; try done. intros Hin. apply Hni, elem_of_app. by right.
  - done.
  - rewrite fmap_app. cbn [fmap list_fmap fst]. rewrite <-Permutation_middle. by apply NoDup_cons.
  - exists p. split; [by erewrite bind_run; [exact Hp|by eapply enable_irq_run]|]. by rewrite reverse_cons, <-app_assoc.
Qed.

(** ** The theorem *)

Lemma reg_masked i : 0 ≤ i < 256 → Z.land (u32 (Z.lor INT_DISABLED (T_IRQ0 + i))) INT_DISABLED ≠ 0.
Proof.
  intros Hi Hz. assert (Hb : Z.testbit (Z.land (u32 (Z.lor INT_DISABLED (T_IRQ0 + i))) INT_DISABLED) 16 = true).
  { unfold u32. by rewrite Z.land_spec, Z.mod_pow2_bits_low, Z.lor_spec by lia. }
  by rewrite Hz in Hb.
Qed.

Definition mask_line (i : Z) (p : platform) : platform :=
  with_reg (REG_TABLE + 2 * i + 1) 0 (with_reg (REG_TABLE + 2 * i) (Z.lor INT_DISABLED (T_IRQ0 + i)) p).

(** The loop of [ioapicinit] masks every line. *)
Lemma ioapic_mask_run l : ∀ k, ioapic (k_plat k) = true → Forall (λ i, 0 ≤ i < 256) l →
  ∃ p, for_each l ioapic_mask k = Ok tt (set_plat p k) ∧ (∀ i, i ∈ l → ioapic_masked p i) ∧
    (∀ i, 0 ≤ i < 256 → ioapic_masked (k_plat k) i → ioapic_masked p i) ∧
    ismp p = ismp (k_plat k) ∧ ioapic p = true ∧ irqmask p = irqmask (k_plat k) ∧ ports p = ports (k_plat k).
Proof.
  induction l as [|j l IH]; intros k Hio Hl; cbn [for_each].
  { exists (k_plat k). split; [by destruct k|]. split; [by intros i ?%not_elem_of_nil|done]. }
  apply Forall_cons in Hl as [Hj Hl].
  destruct (IH (set_plat (mask_line j (k_plat k)) k)) as (p & Hp & Hin & Hkeep & Hmp & Hio' & Hmk & Hpt); [done..|].
  exists p. split; [|split_and!; try done].
  - erewrite bind_run; [exact Hp|]. unfold ioapic_mask. erewrite bind_run; [|by apply ioapicwrite_run]. by rewrite ioapicwrite_run.
  - intros i [->|Hi]%elem_of_cons; [|by apply Hin]. apply Hkeep; [done|]. unfold ioapic_masked. cbn [k_plat set_plat].
    unfold mask_line. rewrite with_reg_ne, with_reg_eq by (unfold REG_TABLE; lia). by apply reg_masked.
  - intros i Hi Hm. apply Hkeep; [done|]. cbn [k_plat set_plat]. unfold ioapic_masked, mask_line.
    destruct (decide (i = j)) as [->|Hne].
    + rewrite with_reg_ne, with_reg_eq by (unfold REG_TABLE; lia). by apply reg_masked.
    + rewrite !with_reg_ne by (unfold REG_TABLE; lia). exact Hm.
Qed.

(** The lines of the I/O APIC, from its version register. *)
Definition io_lines (p : platform) : Z := Z.land (Z.shiftr (ioapic_reg p REG_VER) 16) 0xFF + 1.

(** [m] sets the mask [c], whatever was written before. *)
Definition sets_mask (c : Z) (m : K unit) (k : kernel) : Prop :=
  ∀ l, ∃ l', m (set_plat (set_ports l (k_plat k)) k) = Ok tt (set_plat (with_mask c (set_ports l' (k_plat k))) k).
Lemma sets_mask_out c port v m k : sets_mask c m k → sets_mask c (port_out port v;; m) k.
Proof. intros Hm l. exact (Hm ((port, u8 v) :: l)). Qed.

Lemma picinit_run k : irqmask (k_plat k) = 0xFFFB →
  ∃ l, picinit k = Ok tt (set_plat (with_mask 0xFFFB (set_ports l (k_plat k))) k).
Proof.
  intros Hm. assert (Hs : sets_mask 0xFFFB picinit k).
  { do 14 apply sets_mask_out. intros l. exists l. unfold getplat. erewrite bind_run; [|done].
    cbn [k_plat set_plat irqmask set_ports]. by rewrite Hm. }
  destruct (Hs (ports (k_plat k))) as [l Hl]. exists l.
  replace (set_plat (set_ports (ports (k_plat k)) (k_plat k)) k) with k in Hl; [exact Hl|].
  by destruct k as [? ? ? ? ? ? ? ? ? ? ? [? ? ? ? ? ? ? ? ? ? ? ? ?]].
Qed.

(** The controllers as [picinit] and [ioapicinit] leave them. *)
Lemma inits_run k : ismp (k_plat k) = true → irqmask (k_plat k) = 0xFFFB →
  Z.shiftr (ioapic_reg (k_plat k) REG_ID) 24 = ioapicid (k_plat k) →
  ∃ p, (picinit;; ioapicinit) k = Ok tt (set_plat p k) ∧ routed (io_lines (k_plat k)) [] p.
Proof.
  intros Hmp Hm Hid. destruct (picinit_run k Hm) as [pl Hpic].
  set (p1 := with_mask 0xFFFB (set_ports pl (k_plat k))) in *.
  set (p2 := set_ioapic_sel 0 (set_ioapic_sel 1 (set_ioapic true p1))).
  assert (Hn : 0 ≤ io_lines (k_plat k) ≤ 256).
  { unfold io_lines. change 0xFF with (Z.ones 8). rewrite Z.land_ones by lia. pose proof (Z.mod_pos_bound (Z.shiftr (ioapic_reg (k_plat k) REG_VER) 16) (2 ^ 8)). lia. }
  destruct (ioapic_mask_run (seqZ 0 (io_lines (k_plat k))) (set_plat p2 k)) as (p & Hp & Hin & _ & Hmp' & Hio' & Hmk & Hpt); [done| |].
  { apply Forall_forall. intros i Hi%elem_of_seqZ. lia. }
  exists p. split.
  - erewrite bind_run; [|exact Hpic]. unfold ioapicinit, getplat, ioapicread.
    erewrite bind_run; [|done]. cbn [k_plat set_plat]. replace (ismp p1) with true by done. cbn [negb].
    erewrite bind_run; [|done]. erewrite bind_run; [|done]. erewrite bind_run; [|done].
    change (ioapic_reg _ (u32 REG_ID)) with (ioapic_reg (k_plat k) REG_ID). rewrite Hid.
    change (ioapicid p1) with (ioapicid (k_plat k)). rewrite Z.eqb_refl. erewrite bind_run; [|done]. exact Hp.
  - split; rewrite ?Hmp', ?Hmk, ?Hpt; try done.
    + split; [done|]. intros i Hi. change (irqmask _) with 0xFFFB. rewrite bool_decide_false, orb_false_r by apply not_elem_of_nil.
      assert (Hall : forallb (λ i, Bool.eqb (Z.testbit 0xFFFB i) (negb (i =? IRQ_SLAVE))) (seqZ 0 16) = true) by done.
      rewrite forallb_forall in Hall. apply eqb_prop, Hall, list_elem_of_In, elem_of_seqZ. lia.
    + by intros i c ?%not_elem_of_nil.
    + intros i Hi _. apply Hin, elem_of_seqZ. lia.
Qed.

(** C35: interrupt routing.  After [picinit] and [ioapicinit] on a
    multiprocessor, and the [picenable]/[ioapicenable] calls of the drivers for
    different lines, the 8259A pair passes exactly the enabled lines and the
    cascade, and the I/O APIC passes exactly the enabled lines, each to its
    vector and to the CPU asked for, with every other line masked. *)
Theorem irqs_routed l k :
  ismp (k_plat k) = true → irqmask (k_plat k) = 0xFFFB →
  Z.shiftr (ioapic_reg (k_plat k) REG_ID) 24 = ioapicid (k_plat k) →
  NoDup l.*1 → Forall (λ x, 0 ≤ x.1 < 16 ∧ 0 ≤ x.2 < 256) l →
  ∃ p, (picinit;; ioapicinit;; for_each l enable_irq) k = Ok tt (set_plat p k) ∧
    (∀ i, 0 ≤ i < 16 → pic_passes p i ↔ i = IRQ_SLAVE ∨ i ∈ l.*1) ∧
    (∀ i c, (i, c) ∈ l → ioapic_passes p i c) ∧
    (∀ i, 0 ≤ i < io_lines (k_plat k) → i ∉ l.*1 → ioapic_masked p i).
Proof.
  intros Hmp Hm Hid Hnd Hl. destruct (inits_run k Hmp Hm Hid) as (p1 & H1 & Hr1).
  destruct (enable_irqs_run (io_lines (k_plat k)) l [] (set_plat p1 k)) as (p & Hp & Hr); [done|done|by rewrite app_nil_r|].
  rewrite app_nil_r in Hr. exists p. split.
  - apply bind_ok in H1 as (u & k1 & Ha & Hb). erewrite bind_run; [|exact Ha]. by erewrite bind_run; [|exact Hb].
  - assert (Hin : ∀ i, i ∈ (reverse l).*1 ↔ i ∈ l.*1) by (intros i; by rewrite fmap_reverse, elem_of_reverse).
    split_and!.
    + intros i Hi. rewrite (pic_passes_mask _ _ _ i Hr Hi). by rewrite Hin.
    + intros i c Hic. eapply (ro_on _ _ _ Hr), elem_of_reverse, Hic.
    + intros i Hi Hni. by apply (ro_off _ _ _ Hr); [|rewrite Hin].
Qed.

Definition mp_machine : kernel :=
  set_plat (set_ismp true (set_ioapic_reg (<[REG_VER := 0x170011]> (λ _, 0)) (k_plat (kernel0 ∅)))) (kernel0 ∅).
Lemma irqs_routed_witness :
  ∃ p, (picinit;; ioapicinit;; for_each [(IRQ_KBD, 0); (IRQ_COM1, 0); (IRQ_IDE, 1)] enable_irq) mp_machine =
    Ok tt (set_plat p mp_machine) ∧ pic_passes p IRQ_IDE ∧ ¬ pic_passes p 3 ∧ ioapic_passes p IRQ_KBD 0 ∧ ioapic_masked p 23.
Proof.
  destruct (irqs_routed [(IRQ_KBD, 0); (IRQ_COM1, 0); (IRQ_IDE, 1)] mp_machine) as (p & Hp & Hpic & Hon & Hoff);
    [reflexivity..| | |].
  - apply (bool_decide_unpack _). vm_compute. exact I.
  - by repeat constructor.
  - exists p. split; [exact Hp|]. split_and!.
    + apply Hpic; [done|]. right. apply (bool_decide_unpack _). vm_compute. exact I.
    + rewrite Hpic by done. intros [?|Hin]; [done|]. apply (bool_decide_pack _) in Hin. by vm_compute in Hin.
    + apply Hon. left.
    + apply Hoff; [done|]. intros Hin. apply (bool_decide_pack _) in Hin. by vm_compute in Hin.
Defined.
