(* ===== verification/Console.v ===== *)
(** * Console: keyboard and serial input, the console device

    The input half of kernel/console.c, the keyboard driver kernel/kbd.c with
    the tables of include/kbd.h, and [procdump] of kernel/proc.c, which the
    console calls.  The theorem refines the ring buffer with its three indices
    to a line editor: lines that can be read, and a line being edited. *)

From stdpp Require Import prelude functions gmap strings.
From S2P Require Import Prelude Types Ring Spinlock Sched Cstr Ide Bio Log Fs Kalloc Cprintf Intr.
Open Scope Z_scope.

(** ** kbd.h *)

Definition KSHIFT : Z := 1.
Definition CTL : Z := 2.
Definition ALT : Z := 4.
Definition CAPSLOCK : Z := 8.
Definition NUMLOCK : Z := 16.
Definition SCROLLLOCK : Z := 32.
Definition E0ESC : Z := 64.

(** A table with designated entries. *)
Definition designated (d : list (Z * Z)) (rest : Z → Z) : Z → Z :=
  foldr (λ p f, <[p.1 := p.2]> f) rest d.

Definition shiftcode : Z → Z :=
  designated [(0x1D, CTL); (0x2A, KSHIFT); (0x36, KSHIFT); (0x38, ALT); (0x9D, CTL); (0xB8, ALT)] (λ _, 0).
Definition togglecode : Z → Z :=
  designated [(0x3A, CAPSLOCK); (0x45, NUMLOCK); (0x46, SCROLLLOCK)] (λ _, 0).

(** The special keys at the end of all three maps. *)
Definition keypad : list (Z * Z) :=
  [(0xC8, 0xE2); (0xD0, 0xE3); (0xC9, 0xE6); (0xD1, 0xE7); (0xCB, 0xE4); (0xCD, 0xE5);
   (0x97, 0xE0); (0xCF, 0xE1); (0xD2, 0xE8); (0xD3, 0xE9)].

Definition normalmap : Z → Z := designated ([(0x9C, 10); (0xB5, 47)] ++ keypad) (cells (
  [0; 0x1B] ++ str "1234567890-=" ++ [8; 9] ++
  str "qwertyuiop[]" ++ [10; 0] ++ str "as" ++
  str "dfghjkl;'`" ++ [0; 92] ++ str "zxcv" ++
  str "bnm,./" ++ [0; 42] ++
  [0; 32; 0; 0; 0; 0; 0; 0] ++
  [0; 0; 0; 0; 0; 0; 0; 55] ++
  str "89-456+1" ++
  str "230." ++ [0; 0; 0; 0])).
Definition shiftmap : Z → Z := designated ([(0x9C, 10); (0xB5, 47)] ++ keypad) (cells (
  [0; 27] ++ str "!@#$%^&*()_+" ++ [8; 9] ++
  str "QWERTYUIOP{}" ++ [10; 0] ++ str "AS" ++
  str "DFGHJKL:" ++ [34] ++ str "~" ++ [0] ++ str "|ZXCV" ++
  str "BNM<>?" ++ [0; 42] ++
  [0; 32; 0; 0; 0; 0; 0; 0] ++
  [0; 0; 0; 0; 0; 0; 0; 55] ++
  str "89-456+1" ++
  str "230." ++ [0; 0; 0; 0])).

(** [C(x)] of the headers: the control character of a letter. *)
Definition ctl (s : string) : list Z := (λ c, u8 (c - 64)) <$> str s.

Definition ctlmap : Z → Z := designated ([(0x9C, 13)] ++ [(0xB5, u8 (47 - 64))] ++ keypad) (cells (
  replicate 16 0 ++
  ctl "QWERTYUIOP" ++ [0; 0; 13; 0] ++ ctl "AS" ++
  ctl "DFGHJKL" ++ [0; 0; 0; 0] ++ ctl "\ZXCV" ++
  ctl "BNM" ++ [0; 0] ++ ctl "/" ++ [0; 0])).

(** ** kbd.c *)

Definition charcode (i : Z) : Z → Z :=
  if i =? 0 then normalmap else if i =? 1 then shiftmap else ctlmap.

(** What [kbdgetc] does with a scan code: the new shift state and the
    result. *)
Definition kbd_step (shift data : Z) : Z * Z :=
  if data =? 0xE0 then (Z.lor shift E0ESC, 0) else
  if negb (Z.land data 0x80 =? 0) then
    let data := if negb (Z.land shift E0ESC =? 0) then data else Z.land data 0x7F in
    (Z.land shift (Z.lnot (Z.lor (shiftcode data) E0ESC)), 0)
  else
  let esc := negb (Z.land shift E0ESC =? 0) in
  let data := if esc then Z.lor data 0x80 else data in
  let shift := if esc then Z.land shift (Z.lnot E0ESC) else shift in
  let shift := Z.lxor (Z.lor shift (shiftcode data)) (togglecode data) in
  let c := charcode (Z.land shift (Z.lor CTL KSHIFT)) data in
  let c := if negb (Z.land shift CAPSLOCK =? 0) then
             if (97 <=? c) && (c <=? 122) then c + (65 - 97)
             else if (65 <=? c) && (c <=? 90) then c + (97 - 65) else c
           else c in
  (shift, c).

Definition kbdgetc : K Z :=
  x ← getcons;
  match kbd_in x with
  | [] => mret (-1)
  | data :: l =>
      updcons (set_kbd_in l);;
      let (shift, c) := kbd_step (kbd_shift x) data in
      updcons (set_kbd_shift shift);;
      mret c
  end.

(** ** proc.c: procdump *)

(** The return addresses found by following saved frame pointers. *)
Fixpoint getstackpcs (m : mem) (ebp : Z) (n : nat) : list Z :=
  match n with
  | O => []
  | S n =>
      if (ebp =? 0) || (ebp <? KERNBASE) || (ebp =? 0xffffffff) then replicate (S n) 0
      else mget64 m (ebp + 8) :: getstackpcs m (mget64 m ebp) n
  end.

Definition state_name (s : procstate) : list Z :=
  match s with
  | UNUSED => str "???"
  | EMBRYO => str "embryo"
  | SLEEPING => str "sleep "
  | RUNNABLE => str "runble"
  | RUNNING => str "run   "
  | ZOMBIE => str "zombie"
  end.

(** The leading part of a list. *)
Fixpoint take_while (f : Z → bool) (l : list Z) : list Z :=
  match l with
  | [] => []
  | x :: l => if f x then x :: take_while f l else []
  end.

Section with_stacks.
(** [context->ebp] of a process that is not running: a register value that
    [swtch] saved. *)
Variable saved_ebp : nat → Z.

Definition procdump_one (i : nat) : K unit :=
  p ← getproc i;
  if bool_decide (p_state p = UNUSED) then mret tt else
  cprintf (Some (str "%d %s %s")) [AInt (p_pid p); AStr (Some (state_name (p_state p))); AStr (Some (p_name p))];;
  when (bool_decide (p_state p = SLEEPING)) (
    km ← getkm;
    let pc := getstackpcs (km_mem km) (saved_ebp i) 10 in
    for_each (take_while (λ x, negb (x =? 0)) pc) (λ x, cprintf (Some (str " %p")) [APtr x]));;
  cprintf (Some [10]) [].
Definition procdump : K unit := for_each (seq 0 (Z.to_nat NPROC)) procdump_one.

(** ** console.c: panic *)

(** What [panic] does before it loops for ever: [id] is [cpu->id], and [ebp]
    the frame pointer from which [getcallerpcs] starts.  Everywhere else a
    panic is the outcome [Panic]. *)
Definition kpanic (id ebp : Z) (s : list Z) : K unit :=
  on_mach cli;;
  updcons (set_cons_locking false);;
  cprintf (Some (str "cpu%d: panic: ")) [AInt id];;
  cprintf (Some s) [];;
  cprintf (Some [10]) [];;
  km ← getkm;
  for_each (getstackpcs (km_mem km) ebp 10) (λ pc, cprintf (Some (str " %p")) [APtr pc]);;
  updcons (set_panicked true).

(** Afterwards no CPU prints: each one stops at its next character. *)
Lemma kpanic_freezes id ebp s k k' c : kpanic id ebp s k = Ok tt k' → consputc c k' = Spin.
Proof.
  unfold kpanic. intros H. inv_ok H as u1 k1 E1. inv_ok H as u2 k2 E2. inv_ok H as u3 k3 E3. inv_ok H as u4 k4 E4. inv_ok H as u5 k5 E5. inv_ok H as km k6 E6. inv_ok H as u7 k7 E7.
  injection H as <-. reflexivity.
Qed.

(** ** console.c: input *)

Definition INPUT_BUF : Z := 128.

(** The loop of control-U. *)
Fixpoint kill_line (fuel : nat) : K unit :=
  match fuel with
  | O => mret tt
  | S fuel =>
      x ← getcons;
      if negb (in_e x =? in_w x) &&
         negb (nth (Z.to_nat (u32 (in_e x - 1) mod INPUT_BUF)) (in_buf x) 0 =? 10) then
        updcons (λ x, set_in_e (u32 (in_e x - 1)) x);;
        consputc BACKSPACE;;
        kill_line fuel
      else mret tt
  end.

(** The [switch] of [consoleintr]. *)
Definition console_char (c : Z) : K unit :=
  x ← getcons;
  if c =? 26 then updcons (set_no_idt true) else
  if c =? 16 then procdump else
  if c =? 21 then kill_line (Z.to_nat (u32 (in_e x - in_w x))) else
  if (c =? 8) || (c =? 127) then
    when (negb (in_e x =? in_w x)) (
      updcons (λ x, set_in_e (u32 (in_e x - 1)) x);;
      consputc BACKSPACE)
  else
    when (negb (c =? 0) && (u32 (in_e x - in_r x) <? INPUT_BUF)) (
      let c := if c =? 13 then 10 else c in
      updcons (λ x, set_in_e (u32 (in_e x + 1)) (set_in_buf (<[Z.to_nat (in_e x mod INPUT_BUF) := c]> (in_buf x)) x));;
      consputc c;;
      x ← getcons;
      when ((c =? 10) || (c =? 4) || (in_e x =? u32 (in_r x + INPUT_BUF))) (
        updcons (λ x, set_in_w (in_e x) x);;
        wakeup ChInput)).

Fixpoint console_loop (getc : K Z) (fuel : nat) : K unit :=
  match fuel with
  | O => spin
  | S fuel =>
      c ← getc;
      if 0 <=? c then console_char c;; console_loop getc fuel else mret tt
  end.
Definition consoleintr (getc : K Z) (fuel : nat) : K unit :=
  acquire L_input;;
  console_loop getc fuel;;
  release L_input.

Definition kbdintr : K unit := x ← getcons; consoleintr kbdgetc (S (length (kbd_in x))).
Definition uartintr : K unit := x ← getcons; consoleintr uartgetc (S (length (uart_in x))).
End with_stacks.

(** ** The console device *)

(** The loop of [consoleread] with [n] bytes to go of [target]; [acc] was
    stored already. *)
Fixpoint consoleread_loop (ip : nat) (target n : Z) (acc : list Z) (fuel : nat) : K (Z * list Z) :=
  let finish n acc :=
    release L_input;;
    ilock (Some ip);;
    mret (target - n, acc) in
  match fuel with
  | O => spin
  | S fuel =>
      if 0 <? n then
        x ← getcons;
        if in_r x =? in_w x then
          kl ← killed;
          if (kl : bool) then
            release L_input;;
            ilock (Some ip);;
            mret (-1, acc)
          else
            sleep ChInput (Some L_input);;
            sleep_return L_input;;
            consoleread_loop ip target n acc fuel
        else
          let c := nth (Z.to_nat (in_r x mod INPUT_BUF)) (in_buf x) 0 in
          updcons (λ x, set_in_r (u32 (in_r x + 1)) x);;
          if c =? 4 then
            when (n <? target) (updcons (λ x, set_in_r (u32 (in_r x - 1)) x));;
            finish n acc
          else if c =? 10 then finish (n - 1) (acc ++ [c])
          else consoleread_loop ip target (n - 1) (acc ++ [c]) fuel
      else finish n acc
  end.
Definition consoleread (ip : nat) (n : Z) : K (Z * list Z) :=
  iunlock (Some ip);;
  acquire L_input;;
  consoleread_loop ip n n [] (Z.to_nat n + 1).

Definition consolewrite (ip : nat) (buf : list Z) (n : Z) : K Z :=
  iunlock (Some ip);;
  acquire L_cons;;
  for_each (take (Z.to_nat n) buf) consputc;;
  release L_cons;;
  ilock (Some ip);;
  mret n.

(** The device switch that [consoleinit] fills in is an instance of [Devsw]. *)
Definition consoleinit : K unit :=
  on_mach (initlock L_cons);;
  on_mach (initlock L_input);;
  updcons (set_cons_locking true);;
  picenable IRQ_KBD;;
  ioapicenable IRQ_KBD 0.

(** Reading the data register takes the byte that waits there, if any. *)
Definition uartinit : K unit :=
  x ← getcons;
  if negb (uart x) then mret tt else
  updcons (set_uart_in (tail (uart_in x)));;
  picenable IRQ_COM1;;
  ioapicenable IRQ_COM1 0.

(** ** The line editor *)

(** The lines that can be read, and the line being edited. *)
Definition typed (x : console) : list Z := ring_list INPUT_BUF (in_buf x) (in_r x) (u32 (in_e x - in_r x)).
Definition nready (x : console) : Z := u32 (in_w x - in_r x).
Definition ready_lines (x : console) : list Z := take (Z.to_nat (nready x)) (typed x).
Definition edit_line (x : console) : list Z := drop (Z.to_nat (nready x)) (typed x).

Record input_wf (x : console) : Prop := {
  iw_buf : length (in_buf x) = Z.to_nat INPUT_BUF;
  iw_r : 0 ≤ in_r x < 2 ^ 32;
  iw_w : 0 ≤ in_w x < 2 ^ 32;
  iw_e : 0 ≤ in_e x < 2 ^ 32;
  iw_order : nready x ≤ u32 (in_e x - in_r x);
  iw_len : u32 (in_e x - in_r x) ≤ INPUT_BUF;
  iw_line : 10 ∉ edit_line x
}.

(** What one character does. *)
Definition line_step (pe : list Z * list Z) (c : Z) : list Z * list Z :=
  let (p, e) := pe in
  if c =? 21 then (p, []) else
  if (c =? 8) || (c =? 127) then (p, removelast e) else
  if (c =? 26) || (c =? 16) || (c =? 0) || (Z.of_nat (length p + length e) =? INPUT_BUF) then (p, e) else
  let c := if c =? 13 then 10 else c in
  let e := e ++ [c] in
  if (c =? 10) || (c =? 4) || (Z.of_nat (length p + length e) =? INPUT_BUF) then (p ++ e, []) else (p, e).

Lemma input_buf_div : (INPUT_BUF | 2 ^ 32).
Proof. by exists 33554432. Qed.

Lemma length_typed x : Z.of_nat (length (typed x)) = u32 (in_e x - in_r x).
Proof. apply ring_list_length. by apply Z.mod_pos_bound. Qed.

Lemma typed_split x : typed x = ready_lines x ++ edit_line x.
Proof. symmetry. apply take_drop. Qed.

Lemma nready_nonneg x : 0 ≤ nready x.
Proof. by apply Z.mod_pos_bound. Qed.

Lemma length_ready x : input_wf x → Z.of_nat (length (ready_lines x)) = nready x.
Proof.
  intros H. pose proof (length_typed x). pose proof (iw_order _ H). pose proof (nready_nonneg x).
  unfold ready_lines. rewrite length_take. lia.
Qed.

(** Being equal in the input part. *)
Lemma input_same x y : in_buf y = in_buf x → in_r y = in_r x → in_w y = in_w x → in_e y = in_e x → input_wf x →
  input_wf y ∧ ready_lines y = ready_lines x ∧ edit_line y = edit_line x.
Proof.
  intros Hb Hr Hw He Hx.
  assert (Ht : typed y = typed x) by (unfold typed; by rewrite Hb, Hr, He).
  assert (Hn : nready y = nready x) by (unfold nready; by rewrite Hr, Hw).
  assert (Hl : edit_line y = edit_line x) by (unfold edit_line; by rewrite Ht, Hn).
  split; [|split; [unfold ready_lines; by rewrite Ht, Hn|done]]. destruct Hx. split; congruence.
Qed.

Lemma same_cons_input x y : same_cons x y → input_wf x →
  input_wf y ∧ ready_lines y = ready_lines x ∧ edit_line y = edit_line x.
Proof. intros []. by apply input_same. Qed.

(** Typing a character. *)
Definition type_char (c : Z) (x : console) : console :=
  set_in_e (u32 (in_e x + 1)) (set_in_buf (<[Z.to_nat (in_e x mod INPUT_BUF) := c]> (in_buf x)) x).

Lemma typed_type_char c x : input_wf x → u32 (in_e x - in_r x) < INPUT_BUF →
  u32 (in_e (type_char c x) - in_r x) = u32 (in_e x - in_r x) + 1 ∧ typed (type_char c x) = typed x ++ [c].
Proof.
  intros Hx Hlt.
  assert (Hlen : u32 (u32 (in_e x + 1) - in_r x) = u32 (in_e x - in_r x) + 1)
    by (apply u32_dist_succ; by etransitivity; [exact Hlt|]).
  split; [done|]. unfold typed. cbn [in_e in_r in_buf type_char set_in_e set_in_buf]. rewrite Hlen.
  apply ring_list_push; [done|apply Hx|split; [by apply Z.mod_pos_bound|done]|]. apply u32_slot; [done|apply input_buf_div].
Qed.

(** The line goes on... *)
Lemma type_char_edit c x : input_wf x → u32 (in_e x - in_r x) < INPUT_BUF → c ≠ 10 →
  input_wf (type_char c x) ∧ ready_lines (type_char c x) = ready_lines x ∧ edit_line (type_char c x) = edit_line x ++ [c].
Proof.
  intros Hx Hlt Hc. destruct (typed_type_char c x Hx Hlt) as [Hlen Ht].
  pose proof (length_typed x). pose proof (iw_order _ Hx). pose proof (nready_nonneg x).
  assert (He : edit_line (type_char c x) = edit_line x ++ [c]).
  { unfold edit_line. rewrite Ht. change (nready (type_char c x)) with (nready x). apply drop_app_le. lia. }
  split; [|split; [|done]].
  - destruct Hx. split; try done.
    + cbn. by rewrite length_insert.
    + by apply Z.mod_pos_bound.
    + change (nready (type_char c x)) with (nready x). change (in_r (type_char c x)) with (in_r x). lia.
    + change (in_r (type_char c x)) with (in_r x). lia.
    + rewrite He. intros [?|?%list_elem_of_singleton]%elem_of_app; congruence.
  - unfold ready_lines. rewrite Ht. change (nready (type_char c x)) with (nready x). apply take_app_le. lia.
Qed.

(** ... or is finished. *)
Lemma commit_line c x y : input_wf x → u32 (in_e x - in_r x) < INPUT_BUF → same_cons (type_char c x) y →
  input_wf (set_in_w (in_e y) y) ∧ ready_lines (set_in_w (in_e y) y) = ready_lines x ++ edit_line x ++ [c] ∧
  edit_line (set_in_w (in_e y) y) = [].
Proof.
  intros Hx Hlt Hs. destruct (typed_type_char c x Hx Hlt) as [Hlen Ht]. destruct Hs as [Hbuf Hsr _ Hse _ _ _ _ _ _].
  set (z := set_in_w (in_e y) y).
  assert (Htz : typed z = typed x ++ [c]) by (rewrite <-Ht; unfold typed, z; cbn; by rewrite Hbuf, Hsr, Hse).
  assert (Hn : nready z = u32 (in_e z - in_r z)) by done.
  assert (Hl : u32 (in_e z - in_r z) = u32 (in_e x - in_r x) + 1).
  { rewrite <-Hlen. unfold z. cbn [in_e in_r set_in_w]. by rewrite Hse, Hsr. }
  pose proof (length_typed z) as Hlz.
  assert (He : edit_line z = []) by (unfold edit_line; apply drop_ge; lia).
  split; [|split; [|done]].
  - destruct Hx. split; unfold z in *; cbn [in_buf in_r in_w in_e set_in_w] in *.
    + rewrite Hbuf. cbn. by rewrite length_insert.
    + by rewrite Hsr.
    + rewrite Hse. by apply Z.mod_pos_bound.
    + rewrite Hse. by apply Z.mod_pos_bound.
    + lia.
    + lia.
    + rewrite He. apply not_elem_of_nil.
  - transitivity (typed z); [unfold ready_lines; apply take_ge; lia|]. by rewrite Htz, typed_split, <-app_assoc.
Qed.

(** Removing the last character of the line. *)
Definition erase (x : console) : console := set_in_e (u32 (in_e x - 1)) x.

Lemma erase_spec x : input_wf x → nready x < u32 (in_e x - in_r x) →
  input_wf (erase x) ∧ ready_lines (erase x) = ready_lines x ∧ edit_line (erase x) = removelast (edit_line x) ∧
  nready (erase x) = nready x ∧ u32 (in_e (erase x) - in_r (erase x)) = u32 (in_e x - in_r x) - 1.
Proof.
  intros Hx Hlt. pose proof (nready_nonneg x) as H0.
  assert (Hlen : u32 (u32 (in_e x - 1) - in_r x) = u32 (in_e x - in_r x) - 1) by (apply u32_dist_back; lia).
  assert (Htyped : typed (erase x) = take (Z.to_nat (u32 (in_e x - in_r x) - 1)) (typed x)).
  { unfold typed. cbn [in_e in_r in_buf erase set_in_e]. rewrite Hlen. symmetry. apply ring_list_take. lia. }
  pose proof (length_typed x) as Hlt2.
  assert (Hr : ready_lines (erase x) = ready_lines x).
  { unfold ready_lines. rewrite Htyped. change (nready (erase x)) with (nready x). rewrite take_take. f_equal. lia. }
  assert (He : edit_line (erase x) = removelast (edit_line x)).
  { rewrite removelast_firstn_len. unfold edit_line. rewrite Htyped. change (nready (erase x)) with (nready x).
    rewrite length_drop, take_drop_commute. do 2 f_equal. lia. }
  split; [|done]. destruct Hx. split; try done.
  - by apply Z.mod_pos_bound.
  - change (nready (erase x)) with (nready x). cbn. cbn in Hlen. lia.
  - cbn. lia.
  - rewrite He. intros Hin. apply iw_line0. rewrite (app_removelast_last 0); [apply elem_of_app; by left|].
    intros Hnil. rewrite Hnil in Hin. cbn in Hin. by apply not_elem_of_nil in Hin.
Qed.

Lemma edit_dist x : input_wf x → u32 (in_e x - in_w x) = u32 (in_e x - in_r x) - nready x.
Proof.
  intros Hx. pose proof (iw_order _ Hx). pose proof (iw_len _ Hx). pose proof (nready_nonneg x).
  unfold nready, u32 in *. replace (in_e x - in_w x) with ((in_e x - in_r x) - (in_w x - in_r x)) by lia.
  rewrite Zminus_mod. apply Z.mod_small. unfold INPUT_BUF in *. lia.
Qed.

Lemma length_edit x : input_wf x → Z.of_nat (length (edit_line x)) = u32 (in_e x - in_w x).
Proof.
  intros Hx. rewrite edit_dist by done. pose proof (length_typed x). pose proof (iw_order _ Hx).
  pose proof (nready_nonneg x). unfold edit_line. rewrite length_drop. lia.
Qed.

Lemma edit_empty x : input_wf x → (in_e x =? in_w x) = (Z.of_nat (length (edit_line x)) =? 0).
Proof.
  intros Hx. rewrite length_edit by done. rewrite Z.eqb_sym. apply u32_eq_dist; apply Hx.
Qed.

Lemma last_typed x : input_wf x → in_e x ≠ in_w x →
  nth (Z.to_nat (u32 (in_e x - 1) mod INPUT_BUF)) (in_buf x) 0 ∈ edit_line x.
Proof.
  intros Hx Hne. pose proof (edit_dist x Hx) as Hd. pose proof (nready_nonneg x). pose proof (length_typed x) as Hl.
  assert (0 < u32 (in_e x - in_w x)).
  { pose proof (Z.mod_pos_bound (in_e x - in_w x) (2 ^ 32) ltac:(lia)) as Hb. fold (u32 (in_e x - in_w x)) in Hb.
    destruct (Z.eqb_spec (in_e x) (in_w x)) as [|Hf]; [done|].
    apply Z.eqb_neq in Hf. rewrite edit_empty, length_edit in Hf by done. apply Z.eqb_neq in Hf. lia. }
  apply list_elem_of_lookup_2 with (i := Z.to_nat (u32 (in_e x - in_w x) - 1)).
  unfold edit_line. rewrite lookup_drop. unfold typed, ring_list. rewrite list_lookup_fmap, lookup_seqZ_lt by lia.
  cbn [fmap option_fmap option_map]. do 3 f_equal. apply (u32_mod_ring _ input_buf_div).
  replace (in_r x + (0 + Z.of_nat (Z.to_nat (nready x) + Z.to_nat (u32 (in_e x - in_w x) - 1))))
    with (u32 (in_e x - in_r x) + (in_r x - 1)) by lia.
  rewrite u32_u32, u32_add_l. f_equal. lia.
Qed.

(** ** Runs of consoleintr *)

Section runs.
Variable saved_ebp : nat → Z.

(** The input part of a state, the process table's size and the machine. *)
Record typing (L : list lockid) (pr : option nat) (u : list Z) (pe : list Z * list Z) (k : kernel) : Prop := {
  ty_mach : at_mach L pr (k_mach k);
  ty_wf : input_wf (k_cons k);
  ty_up : panicked (k_cons k) = false;
  ty_procs : length (pt_proc (k_pt k)) = Z.to_nat NPROC;
  ty_uart : uart (k_cons k) = true;
  ty_in : uart_in (k_cons k) = u;
  ty_ready : ready_lines (k_cons k) = pe.1;
  ty_edit : edit_line (k_cons k) = pe.2
}.

Lemma typing_cons L pr u u' pe k m y : typing L pr u pe k → at_mach L pr m →
  in_buf y = in_buf (k_cons k) → in_r y = in_r (k_cons k) → in_w y = in_w (k_cons k) → in_e y = in_e (k_cons k) →
  panicked y = panicked (k_cons k) → uart y = uart (k_cons k) → uart_in y = u' →
  typing L pr u' pe (set_mach m (set_cons y k)).
Proof.
  intros [] Hm Hb Hr Hw He Hp Hu Hui. destruct (input_same _ _ Hb Hr Hw He ty_wf0) as (? & ? & ?).
  split; cbn in *; congruence.
Qed.

Lemma outputs_typing F m L pr u pe k E Q : outputs F m → typing L pr u pe k → (∀ lk, lk ∈ F → lk ∉ L) →
  (∀ k', typing L pr u pe k' → Q tt k') → wp m E Q k.
Proof.
  intros Ho Ht HF HQ. eapply Ho; [apply Ht|done|apply Ht|]. intros k' (Hm & Hs & m' & c & ->). apply HQ.
  pose proof (ty_in _ _ _ _ _ Ht). destruct Hs. cbn in *. eapply typing_cons; [done..|]. congruence.
Qed.

Lemma wp_consputc_typing c L pr u pe k E Q : typing L pr u pe k →
  (∀ k', typing L pr u pe k' → Q tt k') → wp (consputc c) E Q k.
Proof. intros Ht. eapply (outputs_typing []); [apply outputs_consputc|done|]. by intros lk ?%not_elem_of_nil. Qed.

Lemma wp_procdump_one i L pr u pe k E Q : typing L pr u pe k → L_cons ∉ L → (i < Z.to_nat NPROC)%nat →
  (∀ k', typing L pr u pe k' → Q tt k') → wp (procdump_one saved_ebp i) E Q k.
Proof.
  intros Ht HL Hi HQ. unfold procdump_one. wp_steps.
  destruct (lookup_lt_is_Some_2 (pt_proc (k_pt k)) i) as [q Hq]; [by rewrite (ty_procs _ _ _ _ _ Ht)|].
  assert (HF : ∀ lk, lk ∈ [L_cons] → lk ∉ L) by (by intros lk ->%list_elem_of_singleton).
  eapply wp_getproc; [done|]. case_bool_decide; [wp_steps; by apply HQ|]. wp_steps.
  eapply (outputs_typing [L_cons]); [by apply outputs_cprintf|done|done|]. intros k1 Hk1. wp_steps.
  assert (Hend : ∀ k2, typing L pr u pe k2 → wp (cprintf (Some [10]) []) E Q k2).
  { intros k2 Hk2. eapply (outputs_typing [L_cons]); [by apply outputs_cprintf|done|done|done]. }
  case_bool_decide; cbn [when]; [|wp_steps; by apply Hend]. unfold getkm. wp_steps.
  eapply (outputs_typing [L_cons]); [|done|done|done]. apply outputs_for_each. intros x. by apply outputs_cprintf.
Qed.

Lemma wp_procdump L pr u pe k E Q : typing L pr u pe k → L_cons ∉ L →
  (∀ k', typing L pr u pe k' → Q tt k') → wp (procdump saved_ebp) E Q k.
Proof.
  intros Ht HL HQ. unfold procdump. eapply wp_post; [apply (wp_for_each _ _ _ (λ _, typing L pr u pe)); [|done]|by intros []].
  intros i l' k' Hi Ht'. apply elem_of_seq in Hi. eapply wp_procdump_one; [done|done|lia|done].
Qed.

(** Removing the last character typed. *)
Lemma typing_erase L pr u p e k : typing L pr u (p, e) k → in_e (k_cons k) ≠ in_w (k_cons k) →
  typing L pr u (p, removelast e) (set_cons (erase (k_cons k)) k).
Proof.
  intros [] Hne. cbn in *. destruct (erase_spec (k_cons k)) as (? & Hr & He & _); [done| |].
  - pose proof (edit_dist _ ty_wf0) as Hd. pose proof (length_edit _ ty_wf0).
    apply Z.eqb_neq in Hne. rewrite edit_empty in Hne by done. apply Z.eqb_neq in Hne. lia.
  - split; cbn in *; congruence.
Qed.

Lemma wp_erase L pr u p e k E Q : typing L pr u (p, e) k → in_e (k_cons k) ≠ in_w (k_cons k) →
  (∀ k', typing L pr u (p, removelast e) k' → Q tt k') →
  wp (updcons (λ x, set_in_e (u32 (in_e x - 1)) x);; consputc BACKSPACE) E Q k.
Proof.
  intros Ht Hne HQ. unfold updcons. wp_steps. eapply wp_consputc_typing; [by apply typing_erase|done].
Qed.

Lemma typing_edit_empty L pr u p e k : typing L pr u (p, e) k → (in_e (k_cons k) =? in_w (k_cons k)) = bool_decide (e = []).
Proof.
  intros [Hm Hw _ _ _ _ Hr He]. cbn in He. subst e. rewrite edit_empty by done.
  case_bool_decide as Hn; [by rewrite Hn|]. apply Z.eqb_neq. destruct (edit_line (k_cons k)); [done|cbn; lia].
Qed.

Lemma wp_kill_line L pr u fuel : ∀ p e k E Q, typing L pr u (p, e) k → (length e ≤ fuel)%nat →
  (∀ k', typing L pr u (p, []) k' → Q tt k') → wp (kill_line fuel) E Q k.
Proof.
  induction fuel as [|fuel IH]; intros p e k E Q Ht Hf HQ; cbn [kill_line].
  - destruct e; [|cbn in Hf; lia]. wp_steps. by apply HQ.
  - wp_steps. apply wp_getcons. pose proof (typing_edit_empty _ _ _ _ _ _ Ht) as Hem. rewrite Hem.
    case_bool_decide as Hn; cbn [negb andb]; [subst e; wp_steps; by apply HQ|].
    apply Z.eqb_neq in Hem. pose proof (last_typed _ (ty_wf _ _ _ _ _ Ht) Hem) as Hlast.
    destruct (Z.eqb_spec (nth (Z.to_nat (u32 (in_e (k_cons k) - 1) mod INPUT_BUF)) (in_buf (k_cons k)) 0) 10) as [Heq|].
    { rewrite Heq in Hlast. by destruct (iw_line _ (ty_wf _ _ _ _ _ Ht)). }
    cbn [negb]. wp_step. unfold updcons. wp_step. wp_step.
    eapply wp_consputc_typing; [by apply typing_erase|]. intros k' Hk'. eapply IH; [done| |done].
    rewrite removelast_firstn_len, length_take. destruct e; [done|cbn in *; lia].
Qed.

Lemma typing_length L pr u p e k : typing L pr u (p, e) k →
  u32 (in_e (k_cons k) - in_r (k_cons k)) = Z.of_nat (length p + length e).
Proof.
  intros [Hm Hw _ _ _ _ Hr He]. cbn in *. subst p e. rewrite <-length_typed, typed_split, length_app. done.
Qed.

(** The default case of the [switch]. *)
Lemma wp_type_char L pr u p e c k E Q : typing L pr u (p, e) k → L_ptable ∉ L → Z.of_nat (length p + length e) < INPUT_BUF →
  (∀ k', typing L pr u (if (c =? 10) || (c =? 4) || (Z.of_nat (length p + length (e ++ [c])) =? INPUT_BUF)
     then (p ++ e ++ [c], []) else (p, e ++ [c])) k' → Q tt k') →
  wp (updcons (type_char c);; consputc c;; x ← getcons;
      when ((c =? 10) || (c =? 4) || (in_e x =? u32 (in_r x + INPUT_BUF))) (
        updcons (λ x, set_in_w (in_e x) x);; wakeup ChInput)) E Q k.
Proof.
  intros Ht HL Hlt HQ. pose proof (typing_length _ _ _ _ _ _ Ht) as Hlen. destruct Ht as [Hm Hw Hup Hnp Hu Hui Hr He].
  cbn in Hr, He. unfold updcons. wp_steps. eapply (outputs_consputc []); [exact Hm|by intros lk ?%not_elem_of_nil|done|].
  intros k1 (Hm1 & Hs & m1 & x1 & ->). cbn [k_cons set_mach set_cons] in Hs. wp_steps. apply wp_getcons. cbn [k_cons set_mach set_cons].
  assert (0 ≤ in_e x1 < 2 ^ 32) by (rewrite (sc_e _ _ Hs); by apply Z.mod_pos_bound). rewrite u32_full_dist by done.
  rewrite (sc_e _ _ Hs), (sc_r _ _ Hs). change (in_r (type_char c (k_cons k))) with (in_r (k_cons k)).
  destruct (typed_type_char c (k_cons k)) as [Hlen' _]; [done|lia|]. rewrite Hlen', Hlen.
  replace (Z.of_nat (length p + length e) + 1) with (Z.of_nat (length p + length (e ++ [c]))) by (rewrite length_app; cbn; lia).
  destruct ((c =? 10) || (c =? 4) || _) eqn:Hcommit; cbn [when].
  - wp_steps. destruct (commit_line c _ _ Hw ltac:(lia) Hs) as (Hw2 & Hr2 & He2).
    eapply wp_wakeup; [exact Hm1|done|]. intros m2 Hm2. apply HQ. destruct Hs.
    split; cbn in *; [done|done|congruence|by rewrite length_fmap|congruence..].
  - wp_steps. apply HQ. destruct (type_char_edit c (k_cons k)) as (Hw2 & Hr2 & He2); [done|lia| |].
    { intros ->. done. }
    destruct (same_cons_input _ _ Hs Hw2) as (? & Hr3 & He3). destruct Hs. split; cbn in *; congruence.
Qed.

Lemma wp_console_char L pr u pe c k E Q : typing L pr u pe k → L_ptable ∉ L → L_cons ∉ L →
  (∀ k', typing L pr u (line_step pe c) k' → Q tt k') → wp (console_char saved_ebp c) E Q k.
Proof.
  intros Ht HL HL2 HQ. destruct pe as [p e]. unfold console_char, line_step in *. wp_steps. apply wp_getcons.
  pose proof (typing_edit_empty _ _ _ _ _ _ Ht) as Hem. pose proof (typing_length _ _ _ _ _ _ Ht) as Hlen.
  destruct (Z.eqb_spec c 26) as [->|H26]; cbn [Z.eqb Pos.eqb orb] in *.
  { unfold updcons. wp_steps. apply HQ. rewrite <-(set_mach_id (set_cons _ k)). eapply typing_cons; [done|apply Ht|done..|apply Ht]. }
  destruct (Z.eqb_spec c 16) as [->|H16]; cbn [Z.eqb Pos.eqb orb] in *; [by eapply wp_procdump|].
  destruct (Z.eqb_spec c 21) as [->|H21].
  { eapply wp_kill_line; [done| |done]. rewrite <-length_edit by apply Ht. rewrite (ty_edit _ _ _ _ _ Ht). cbn. lia. }
  destruct ((c =? 8) || (c =? 127)).
  { rewrite Hem. case_bool_decide as Hn; cbn [negb when]; [wp_steps; apply HQ; by subst e|].
    apply Z.eqb_neq in Hem. by eapply wp_erase. }
  rewrite Hlen. destruct (c =? 0); cbn [negb andb orb when] in *; [wp_steps; by apply HQ|].
  pose proof (iw_len _ (ty_wf _ _ _ _ _ Ht)) as Hmax. rewrite Hlen in Hmax.
  destruct (Z.ltb_spec (Z.of_nat (length p + length e)) INPUT_BUF) as [Hlt|Hge]; cbn [when].
  - rewrite (proj2 (Z.eqb_neq (Z.of_nat (length p + length e)) _)) in HQ by lia. by eapply wp_type_char.
  - rewrite (proj2 (Z.eqb_eq (Z.of_nat (length p + length e)) _)) in HQ by lia. wp_steps. by apply HQ.
Qed.

Lemma wp_uartgetc L pr u pe k E Q : typing L pr u pe k →
  match u with [] => Q (-1) k | c :: u => ∀ k', typing L pr u pe k' → Q c k' end → wp uartgetc E Q k.
Proof.
  intros Ht HQ. unfold uartgetc, updcons. wp_steps. apply wp_getcons. rewrite (ty_uart _ _ _ _ _ Ht), (ty_in _ _ _ _ _ Ht).
  cbn [negb]. destruct u as [|c u]; wp_steps; [done|]. apply HQ. rewrite <-(set_mach_id (set_cons _ k)).
  eapply typing_cons; [done|apply Ht|done..].
Qed.

Lemma wp_console_loop L pr u : ∀ pe k E Q fuel, typing L pr u pe k → L_ptable ∉ L → L_cons ∉ L → Forall is_byte u →
  (length u < fuel)%nat → (∀ k', typing L pr [] (foldl line_step pe u) k' → Q tt k') →
  wp (console_loop saved_ebp uartgetc fuel) E Q k.
Proof.
  induction u as [|c u IH]; intros pe k E Q [|fuel] Ht HL HL2 Hb Hf HQ; cbn [length] in *; try lia; cbn [console_loop].
  - wp_step. eapply wp_uartgetc; [done|]. cbn. wp_steps. by apply HQ.
  - apply Forall_cons in Hb as [Hc Hb]. wp_step. eapply wp_uartgetc; [done|]. intros k0 Hk0.
    rewrite (proj2 (Z.leb_le 0 c)) by apply Hc. wp_steps. eapply (wp_console_char L pr u pe); [done..|].
    intros k1 Hk1. by eapply IH; [..|lia|].
Qed.
End runs.

(** ** Properties *)

(** C22: [uartintr] is a line editor over the characters that arrived: each of
    them acts as [line_step] says.  An ordinary character extends the current
    line, a carriage return counts as a newline, backspace and control-U
    remove the last character or the line, a newline, a control-D or the
    128th character makes the line readable, and characters that do not fit
    are dropped.  This holds whatever the values of the three wrapping
    indices; the interrupt returns with all input consumed and its locks
    free. *)
Theorem console_edits (saved_ebp : nat → Z) (pr : option nat) (k : kernel)
  (Hm : at_mach [] pr (k_mach k)) (Hw : input_wf (k_cons k)) (Hup : panicked (k_cons k) = false)
  (Hn : length (pt_proc (k_pt k)) = Z.to_nat NPROC) (Hu : uart (k_cons k) = true)
  (Hb : Forall is_byte (uart_in (k_cons k))) :
  ∃ k', uartintr saved_ebp k = Ok tt k' ∧ at_mach [] pr (k_mach k') ∧ uart_in (k_cons k') = [] ∧
    input_wf (k_cons k') ∧
    (ready_lines (k_cons k'), edit_line (k_cons k')) =
      foldl line_step (ready_lines (k_cons k), edit_line (k_cons k)) (uart_in (k_cons k)).
Proof.
  set (pe := (ready_lines (k_cons k), edit_line (k_cons k))). set (u := uart_in (k_cons k)) in *.
  destruct (wp_ok (uartintr saved_ebp) (λ _ k', typing [] pr [] (foldl line_step pe u) k') k) as ([] & k' & Hr & Ht').
  - unfold uartintr, consoleintr. wp_steps. apply wp_getcons. wp_steps. eapply wp_acquire; [done|nolock|].
    intros m1 Hm1. wp_steps. eapply (wp_console_loop saved_ebp [L_input] pr u pe); [by split|nolock|nolock|done|apply Nat.lt_succ_diag_r|].
    intros k1 Hk1. eapply wp_release; [apply Hk1|]. intros m2 Hm2. destruct Hk1. by split.
  - exists k'. destruct Ht'. split_and!; [done..|]. by rewrite ty_ready0, ty_edit0, <-surjective_pairing.
Qed.

(** "ls", a typing error erased, and a carriage return, the indices near
    their wrap-around. *)
Definition demo_typing : kernel :=
  set_cons (set_uart_in (str "lx" ++ [127] ++ str "s" ++ [13])
    (set_in_r (2 ^ 32 - 1) (set_in_w (2 ^ 32 - 1) (set_in_e (2 ^ 32 - 1) (k_cons (kernel0 ∅)))))) (kernel0 ∅).

Lemma console_edits_witness :
  ∃ k', uartintr (λ _, 0) demo_typing = Ok tt k' ∧ ready_lines (k_cons k') = str "ls" ++ [10].
Proof.
  destruct (console_edits (λ _, 0) (Some 0%nat) demo_typing) as (k' & Hr & _ & _ & _ & Hpe).
  - apply kernel0_at_mach.
  - split; [reflexivity|cbn; lia|cbn; lia|cbn; lia|reflexivity || (cbn; lia)|vm_compute; discriminate|].
    change (edit_line (k_cons demo_typing)) with (@nil Z). apply not_elem_of_nil.
  - reflexivity.
  - reflexivity.
  - reflexivity.
  - apply (bool_decide_unpack _). vm_compute. reflexivity.
  - exists k'. split; [exact Hr|]. apply (f_equal fst) in Hpe. cbn [fst] in Hpe. rewrite Hpe. vm_compute. reflexivity.
Defined.
