(* ===== verification/Cpuid.v ===== *)
(** * Cpuid: the processor information device, kernel/cpuid.c

    The [cpuid] instruction is a parameter.  Reading the device prints the
    features; the masks are those of include/cpuid.h as they are written
    there. *)

From stdpp Require Import prelude functions gmap strings.
From S2P Require Import Prelude Types Ring Spinlock Sched Cstr Ide Bio Log Fs Kalloc Cprintf Console.
Open Scope Z_scope.

(** ** cpuid.h: the feature masks, with the names that are printed *)

Definition leaf1_features : list (Z * string) :=
  [(Z.shiftl 1 0, "FPU"); (Z.shiftl 1 1, "VME"); (Z.shiftl 1 2, "DE"); (Z.shiftl 1 3, "PSE");
   (Z.shiftl 1 4, "TSC"); (Z.shiftl 1 5, "MSR"); (Z.shiftl 1 6, "PAE"); (Z.shiftl 1 7, "MCE");
   (Z.shiftl 1 8, "CX8"); (Z.shiftl 1 9, "APIC"); (Z.shiftl 1 11, "SEP"); (Z.shiftl 1 12, "MTRR");
   (Z.shiftl 1 13, "PGE"); (Z.shiftl 1 14, "MCA"); (Z.shiftl 1 15, "CMOV"); (Z.shiftl 1 16, "PAT");
   (Z.shiftl 1 17, "PSE36"); (Z.shiftl 1 18, "PSN"); (Z.shiftl 1 19, "CLFSH"); (Z.shiftl 1 21, "DS");
   (Z.shiftl 1 22, "ACPI"); (Z.shiftl 1 23, "MMX"); (Z.shiftl 1 24, "FXSR"); (Z.shiftl 1 25, "SSE");
   (Z.shiftl 1 26, "SSE2"); (Z.shiftl 1 27, "SS"); (Z.shiftl 1 28, "HTT"); (Z.shiftl 1 29, "TM");
   (Z.shiftl 1 31, "PBE")].
Definition leaf1_features_ext : list (Z * string) :=
  [(Z.shiftl 1 0, "SSE3"); (Z.shiftl 1 1, "PCLMULQDQ"); (Z.shiftl 1 2, "DTES64"); (Z.shiftl 1 3, "MONITOR");
   (Z.shiftl 1 4, "DS_CPL"); (Z.shiftl 1 5, "VMX"); (Z.shiftl 1 6, "SMX"); (Z.shiftl 1 7, "EIST");
   (Z.shiftl 1 8, "TM2"); (Z.shiftl 1 9, "SSSE3"); (Z.shiftl 1 10, "CNXT_ID"); (Z.shiftl 1 12, "FMA");
   (Z.shiftl 1 13, "CMPXCHG16B"); (Z.shiftl 1 14, "xTPR"); (Z.shiftl 1 15, "PDCM"); (Z.shiftl 1 17, "PCID");
   (Z.shiftl 1 18, "DCA"); (Z.shiftl 1 19, "SSE4_1"); (Z.shiftl 1 20, "SSE4_2"); (Z.shiftl 1 21, "x2APIC");
   (Z.shiftl 1 22, "MOVBE"); (Z.shiftl 1 23, "POPCNT"); (Z.shiftl 1 24, "TSCD"); (Z.shiftl 1 25, "AESNI");
   (Z.shiftl 1 26, "XSAVE"); (Z.shiftl 1 27, "OSXSAVE"); (Z.shiftl 1 28, "AVX"); (Z.shiftl 1 29, "F16C");
   (Z.shiftl 1 30, "RDRAND")].
(** The mask of QM is written [(1<12)] in the header: a comparison, whose
    value is 1. *)
Definition leaf7_features : list (Z * string) :=
  [(Z.shiftl 1 0, "FSGSBASE"); (Z.shiftl 1 1, "TAM"); (Z.shiftl 1 7, "SMEP"); (Z.shiftl 1 9, "EREP");
   (Z.shiftl 1 10, "INVPCID"); (Z.b2z (1 <? 12), "QM"); (Z.shiftl 1 13, "FPUCS")].

(** ** cpuid.c *)

Record cpuid_vars := mkCpuid {
  maxleaf : Z;
  vendor : list Z;
  version : Z; processor : Z; featuresExt : Z; features : Z;
  sef_flags : Z
}.

(** [PRINT_FEATURE] and [PRINT_SEFEATURE] *)
Definition print_feature (flags : Z) (f : Z * string) : K unit :=
  when (negb (Z.land flags f.1 =? 0)) (cprintf (Some (str f.2 ++ [32])) []).

Definition cpu_printfeatures (v : cpuid_vars) : K unit :=
  let vendorStr := mjoin (le_put 4 <$> vendor v) in
  cprintf (Some (str "CPU vendor: %s" ++ [10])) [AStr (Some (take_while (λ c, negb (c =? 0)) vendorStr))];;
  cprintf (Some (str "Max leaf: 0x%x" ++ [10])) [AInt (maxleaf v)];;
  when (1 <=? maxleaf v) (
    cprintf (Some (str "Features: ")) [];;
    for_each leaf1_features (print_feature (features v));;
    cprintf (Some ([10] ++ str "Ext Features: ")) [];;
    for_each leaf1_features_ext (print_feature (featuresExt v));;
    cprintf (Some [10]) []);;
  when (7 <=? maxleaf v) (
    cprintf (Some (str "Structured Extended Features: ")) [];;
    for_each leaf7_features (print_feature (sef_flags v));;
    cprintf (Some [10]) []).

(** [cpuid eax ecx] gives eax, ebx, ecx and edx; the variables are zero
    before. *)
Definition cpuinfo (cpuid : Z → Z → Z * Z * Z * Z) : cpuid_vars :=
  let '(max, b, c, d) := cpuid 0 0 in
  let '(ver, proc, ext, feat) := if 1 <=? max then cpuid 1 0 else (0, 0, 0, 0) in
  let sef := if 7 <=? max then let '(_, b7, _, _) := cpuid 7 0 in b7 else 0 in
  mkCpuid max [b; d; c] ver proc ext feat sef.

Definition cpuid_read (v : cpuid_vars) (i : nat) (count : Z) : K (Z * list Z) :=
  cpu_printfeatures v;; mret (0, []).
Definition cpuid_write (i : nat) (buf : list Z) (count : Z) : K Z :=
  cprintf (Some (str "cpuid_write" ++ [10])) [];; mret 0.

(** ** The device switch after [consoleinit] and [cpuidinit] *)

Definition devsw (v : cpuid_vars) : Devsw := {|
  dev_read := λ major, if major =? CONSOLE then Some consoleread else
                       if major =? CPUID then Some (cpuid_read v) else None;
  dev_write := λ major, if major =? CONSOLE then Some consolewrite else
                        if major =? CPUID then Some cpuid_write else None
|}.
(** The table is global; its new value and that of the variables. *)
Definition cpuidinit (cpuid : Z → Z → Z * Z * Z * Z) : cpuid_vars * Devsw := let v := cpuinfo cpuid in (v, devsw v).

(** ** Properties *)

(** The text that reading the device sends to the serial port. *)
Definition printed (m : K unit) (k : kernel) : option (list Z) :=
  match m k with Ok _ k' => Some (cons_out (k_cons k')) | _ => None end.

(** The line of structured extended features names QM exactly when the
    processor reports FSGSBASE, and not when it reports QM, bit 12: the mask
    in the header is the comparison 1<12. *)
Theorem cpuid_qm_mask :
  printed (for_each leaf7_features (print_feature (Z.shiftl 1 12))) (kernel0 ∅) = Some [] ∧
  printed (for_each leaf7_features (print_feature (Z.shiftl 1 0))) (kernel0 ∅) = Some (str "FSGSBASE QM ").
Proof. split; vm_compute; reflexivity. Qed.
