(* ===== verification/Uprintf.v ===== *)
(** * Uprintf: formatted output of user programs, ulib/printf.c

    [putc] is a [write] of one byte; a run of [printf] is the list of the bytes
    written, [None] when an argument is missing or has another type. *)

From stdpp Require Import prelude functions gmap strings.
From S2P Require Import Prelude Types Cstr Ulib Cprintf.
Open Scope Z_scope.

Definition udigits : list Z := str "0123456789ABCDEF".

(** The bytes that [printint] passes to [putc]. *)
Definition uprintint (xx base : Z) (sgn : bool) : list Z := reverse (printint_buf udigits xx base sgn).

(** The format loop; [state] tells whether the last character was a percent
    sign. *)
Fixpoint printf_loop (state : bool) (fmt : list Z) (ap : list arg) : option (list Z) :=
  match fmt with
  | [] => Some []
  | c :: fmt =>
      if negb state then
        if c =? 37 then printf_loop true fmt ap else cons c <$> printf_loop false fmt ap
      else if c =? 100 then
        match ap with AInt x :: ap => app (uprintint (i32 x) 10 true) <$> printf_loop false fmt ap | _ => None end
      else if (c =? 120) || (c =? 112) then
        match ap with AInt x :: ap => app (uprintint (i32 x) 16 false) <$> printf_loop false fmt ap | _ => None end
      else if c =? 115 then
        match ap with AStr s :: ap => app (default (str "(null)") s) <$> printf_loop false fmt ap | _ => None end
      else if c =? 99 then
        match ap with AInt x :: ap => cons (u8 x) <$> printf_loop false fmt ap | _ => None end
      else if c =? 37 then cons c <$> printf_loop false fmt ap
      else app [37; c] <$> printf_loop false fmt ap
  end.
Definition printf (fmt : list Z) (ap : list arg) : option (list Z) := printf_loop false fmt ap.

(** ** Numerals *)

Lemma digit_char d : 0 ≤ d < 10 → nth (Z.to_nat d) udigits 0 = 48 + d.
Proof. intros Hd. assert (Hc : d ∈ seqZ 0 10) by (apply elem_of_seqZ; lia). revert Hc. clear Hd.
  intros Hc. revert d Hc. apply Forall_forall. vm_compute. repeat constructor.
Qed.

(** The decimal digits of [x], most significant first, have the value [x]. *)
Lemma dec_value_reverse ds : Forall (λ d, 0 ≤ d < 10) ds →
  dec_value (reverse ((λ d, nth (Z.to_nat d) udigits 0) <$> ds)) = foldr (λ d n, d + 10 * n) 0 ds.
Proof.
  unfold dec_value. induction 1 as [|d ds Hd _ IH]; [done|]. cbn [fmap list_fmap foldr]. rewrite reverse_cons, foldl_snoc, IH.
  rewrite digit_char by done. lia.
Qed.

Lemma printint_dec xx : -2 ^ 31 ≤ xx < 2 ^ 31 → ∃ ds,
  printint_buf udigits xx 10 true = ds ++ (if xx <? 0 then [45] else []) ∧
  Forall (λ c, is_digit c = true) (reverse ds) ∧ dec_value (reverse ds) = Z.abs xx ∧ (length ds ≤ 10)%nat.
Proof.
  intros Hxx. unfold printint_buf. cbn [andb]. rewrite print_digits_values. eexists. split; [done|].
  replace (u32 (if xx <? 0 then - xx else xx)) with (Z.abs xx)
    by (destruct (Z.ltb_spec xx 0); rewrite u32_small; lia).
  pose proof (digit_values_range 10 32 ltac:(done) (Z.abs xx)) as Hr. split_and!.
  - apply Forall_reverse, Forall_fmap. eapply Forall_impl; [exact Hr|]. intros d Hd. cbn beta in Hd. unfold compose.
    rewrite digit_char by done. unfold is_digit. apply andb_true_iff. lia.
  - rewrite dec_value_reverse by done. apply digit_values_value; [done|]. change (10 ^ Z.of_nat 32) with (10 ^ 32). lia.
  - rewrite length_fmap. apply (digit_values_length 10 32 10); [done| |lia]. change (10 ^ Z.of_nat 10) with (10 ^ 10). lia.
Qed.

(** ** Properties *)

(** What [printf] writes for a percent-d, [atoi] reads back: the output is
    a numeral of at most 11 characters, which fits the 16-byte buffer of
    [printint], with a minus sign exactly for the negative numbers, and [atoi]
    of the digits gives the magnitude, also for the smallest [int], whose
    magnitude wraps to itself. *)
Theorem printf_atoi (xx : Z) (Hxx : -2 ^ 31 ≤ xx < 2 ^ 31) :
  ∃ ds, printf (str "%d") [AInt xx] = Some ((if xx <? 0 then [45] else []) ++ ds) ∧ (length ds ≤ 10)%nat ∧
    atoi (cells (ds ++ [0])) 11 = Some (i32 (Z.abs xx)).
Proof.
  destruct (printint_dec xx Hxx) as (ds & Hbuf & Hd & Hv & Hl). exists (reverse ds).
  change (printf (str "%d") [AInt xx]) with (Some (uprintint (i32 xx) 10 true ++ [])).
  rewrite i32_small by lia. unfold uprintint. rewrite Hbuf, reverse_app, app_nil_r, length_reverse.
  split; [by destruct (xx <? 0)|]. split; [done|]. rewrite <-Hv. apply atoi_ok; [done| | |].
  - intros j c Hj. unfold cells. rewrite Nat2Z.id, nth_lookup, lookup_app_l by (by eapply lookup_lt_Some). by rewrite Hj.
  - unfold cells. rewrite Nat2Z.id, nth_lookup, list_lookup_middle by done. done.
  - rewrite length_reverse. lia.
Qed.

Lemma printf_atoi_witness :
  ∃ ds, printf (str "%d") [AInt (-2147483648)] = Some (45 :: ds) ∧ ds = str "2147483648" ∧
    atoi (cells (ds ++ [0])) 11 = Some (-2147483648).
Proof.
  destruct (printf_atoi (-2147483648) ltac:(lia)) as (ds & Hp & _ & Ha). exists ds. split; [exact Hp|].
  split; [|exact Ha]. vm_compute in Hp. injection Hp as <-. vm_compute. reflexivity.
Defined.
