(* ===== verification/Vm.v ===== *)
(** * Vm: page tables, kernel/vm.c and kernel/vm64.c (64-bit build)

    Page directories and page tables are pages of the memory [km_mem], arrays
    of 64-bit words.  A null pointer that the code does not check makes the
    model fault at the access. *)

From stdpp Require Import prelude functions gmap strings.
From S2P Require Import Prelude Types Ring Spinlock Sched Cstr Ide Bio Log Fs Kalloc Cprintf.
Open Scope Z_scope.

(** ** mmu.h *)

Definition NPDENTRIES : Z := 512.
Definition NPTENTRIES : Z := 512.
Definition PTXSHIFT : Z := 12.
Definition PDXSHIFT : Z := 21.
Definition PXMASK : Z := 0x1FF.
Definition PDX (va : Z) : Z := Z.land (Z.shiftr va PDXSHIFT) PXMASK.
Definition PTX (va : Z) : Z := Z.land (Z.shiftr va PTXSHIFT) PXMASK.

Definition PTE_P : Z := 0x001.
Definition PTE_W : Z := 0x002.
Definition PTE_U : Z := 0x004.
Definition PTE_PWT : Z := 0x008.
Definition PTE_PCD : Z := 0x010.
Definition PTE_PS : Z := 0x080.
Definition PTE_ADDR (pte : Z) : Z := Z.land pte (Z.lnot 0xFFF).
Definition PTE_FLAGS (pte : Z) : Z := Z.land pte 0xFFF.
Definition DEVSPACE : Z := 0xFE000000.

(** ** Memory accesses of the kernel *)

(** The kernel maps physical memory from [KERNBASE] up ([kpgdir0], [kpgdir1]).
    The back pointers in a directory are no physical addresses: a page table
    entry that is looked for behind them is at an address that is not mapped,
    and the access faults. *)
Definition kread64 (a : Z) : K Z :=
  if (a <? KERNBASE) || (2 ^ 64 <=? a) then need None else
  km ← getkm; mret (mget64 (km_mem km) a).
Definition kwrite64 (a v : Z) : K unit := updkm (λ x, set_km_mem (mput64 (km_mem x) a v) x).
(** [memset] and [memmove] of the kernel; not at a null pointer. *)
Definition kmemset (dst c n : Z) : K unit :=
  if dst =? 0 then need None else updkm (λ x, set_km_mem (memset (km_mem x) dst c n) x).
Definition kmemmove (dst src n : Z) : K unit :=
  if dst =? 0 then need None else updkm (λ x, set_km_mem (memmove (km_mem x) dst src n) x).
(** Bytes from outside the kernel's memory. *)
Definition kstore (dst : Z) (l : list Z) : K unit :=
  if dst =? 0 then need None else updkm (λ x, set_km_mem (mput_bytes (km_mem x) dst l) x).

Definition has (x flag : Z) : bool := negb (Z.land x flag =? 0).

(** ** vm.c *)

(** The address of the PTE, or 0. *)
Definition walkpgdir (pgdir va : Z) (alloc : bool) : K Z :=
  let pde := pgdir + 8 * PDX va in
  e ← kread64 pde;
  if has e PTE_P then mret (p2v (PTE_ADDR e) + 8 * PTX va) else
  if negb alloc then mret 0 else
  pgtab ← kalloc;
  if pgtab =? 0 then mret 0 else
  kmemset pgtab 0 PGSIZE;;
  kwrite64 pde (Z.lor (Z.lor (Z.lor (v2p pgtab) PTE_P) PTE_W) PTE_U);;
  mret (pgtab + 8 * PTX va).

(** The loop of [mappages] over [n] pages. *)
Fixpoint mappages_loop (pgdir a pa perm : Z) (n : nat) : K Z :=
  match n with
  | O => mret 0
  | S n =>
      pte ← walkpgdir pgdir a true;
      if pte =? 0 then mret (-1) else
      e ← kread64 pte;
      if has e PTE_P then panic "remap" else
      kwrite64 pte (Z.lor (Z.lor pa perm) PTE_P);;
      mappages_loop pgdir (u64 (a + PGSIZE)) (u64 (pa + PGSIZE)) perm n
  end.
Definition mappages (pgdir va size pa perm : Z) : K Z :=
  let a := PGROUNDDOWN va in
  let last := PGROUNDDOWN (u64 (va + size - 1)) in
  mappages_loop pgdir a pa perm (Z.to_nat (u64 (last - a) / PGSIZE + 1)).

Definition inituvm (pgdir : Z) (init : list Z) (sz : Z) : K unit :=
  if PGSIZE <=? sz then panic "inituvm: more than a page" else
  mem ← kalloc;
  kmemset mem 0 PGSIZE;;
  mappages pgdir 0 PGSIZE (v2p mem) (Z.lor PTE_W PTE_U);;
  kstore mem (take (Z.to_nat sz) init).

Fixpoint deallocuvm_loop (pgdir oldsz a : Z) (fuel : nat) : K unit :=
  if a <? oldsz then
    match fuel with
    | O => spin
    | S fuel =>
        pte ← walkpgdir pgdir a false;
        if pte =? 0 then deallocuvm_loop pgdir oldsz (a + (NPTENTRIES - 1) * PGSIZE + PGSIZE) fuel else
        e ← kread64 pte;
        when (has e PTE_P) (
          let pa := PTE_ADDR e in
          if pa =? 0 then panic "kfree" else
          kfree (p2v pa);;
          kwrite64 pte 0);;
        deallocuvm_loop pgdir oldsz (a + PGSIZE) fuel
    end
  else mret tt.
Definition deallocuvm (pgdir oldsz newsz : Z) : K Z :=
  if oldsz <=? newsz then mret (i32 oldsz) else
  let a := PGROUNDUP newsz in
  deallocuvm_loop pgdir oldsz a (Z.to_nat ((oldsz - a) / PGSIZE + 1));;
  mret (i32 newsz).

(** The loop of [allocuvm] over [n] pages. *)
Fixpoint allocuvm_loop (pgdir oldsz newsz a : Z) (n : nat) : K Z :=
  match n with
  | O => mret (i32 newsz)
  | S n =>
      mem ← kalloc;
      if mem =? 0 then
        cprintf (Some (str "allocuvm out of memory" ++ [10])) [];;
        deallocuvm pgdir newsz oldsz;;
        mret 0
      else
        kmemset mem 0 PGSIZE;;
        mappages pgdir a PGSIZE (v2p mem) (Z.lor PTE_W PTE_U);;
        allocuvm_loop pgdir oldsz newsz (a + PGSIZE) n
  end.
(** The number of pages from [a] below [b]. *)
Definition npages (a b : Z) : nat := Z.to_nat ((b - a + (PGSIZE - 1)) / PGSIZE).
Definition allocuvm (pgdir oldsz newsz : Z) : K Z :=
  if newsz <? oldsz then mret (i32 oldsz) else
  let a := PGROUNDUP oldsz in
  allocuvm_loop pgdir oldsz newsz a (npages a newsz).

(** The page tables of entries 0 to 509. *)
Definition freevm_table (pgdir i : Z) : K unit :=
  e ← kread64 (pgdir + 8 * i);
  when (has e PTE_P) (kfree (p2v (PTE_ADDR e))).
Definition freevm (pgdir : Z) : K unit :=
  if pgdir =? 0 then panic "freevm: no pgdir" else
  deallocuvm pgdir 0x3fa00000 0;;
  for_each (seqZ 0 (NPDENTRIES - 2)) (freevm_table pgdir);;
  kfree pgdir.

Definition clearpteu (pgdir uva : Z) : K unit :=
  pte ← walkpgdir pgdir uva false;
  if pte =? 0 then panic "clearpteu" else
  e ← kread64 pte;
  kwrite64 pte (Z.land e (Z.lnot PTE_U)).

(** [*pte] with a null [pte] faults. *)
Definition uva2ka (pgdir uva : Z) : K Z :=
  pte ← walkpgdir pgdir uva false;
  if pte =? 0 then need None else
  e ← kread64 pte;
  if negb (has e PTE_P) then mret 0 else
  if negb (has e PTE_U) then mret 0 else
  mret (p2v (PTE_ADDR e)).

(** [va] is a [uint]: it wraps around at 2^32. *)
Fixpoint copyout_loop (pgdir va : Z) (buf : list Z) (len : Z) (fuel : nat) : K Z :=
  if 0 <? len then
    match fuel with
    | O => spin
    | S fuel =>
        let va0 := u32 (PGROUNDDOWN va) in
        pa0 ← uva2ka pgdir va0;
        if pa0 =? 0 then mret (-1) else
        let n := Z.min (PGSIZE - (va - va0)) len in
        kstore (pa0 + (va - va0)) (take (Z.to_nat n) buf);;
        copyout_loop pgdir (u32 (va0 + PGSIZE)) (drop (Z.to_nat n) buf) (len - n) fuel
    end
  else mret 0.
Definition copyout (pgdir va : Z) (p : list Z) (len : Z) : K Z :=
  copyout_loop pgdir va p len (Z.to_nat (len / PGSIZE + 2)).

(** The statics of vm64.c. *)
Record kvm := mkKvm { kpml4 : Z; kpdpt : Z; iopgdir : Z; kpgdir0 : Z; kpgdir1 : Z }.

Section with_kvm.
Variable kv : kvm.

(** [pml4[511] = ...] and the like, on a page that was just allocated. *)
Definition setupkvm : K Z :=
  pml4 ← kalloc;
  pdpt ← kalloc;
  pgdir ← kalloc;
  kmemset pml4 0 PGSIZE;;
  kmemset pdpt 0 PGSIZE;;
  kmemset pgdir 0 PGSIZE;;
  kwrite64 (pml4 + 8 * 511) (Z.lor (Z.lor (Z.lor (v2p (kpdpt kv)) PTE_P) PTE_W) PTE_U);;
  kwrite64 (pml4 + 8 * 0) (Z.lor (Z.lor (Z.lor (v2p pdpt) PTE_P) PTE_W) PTE_U);;
  kwrite64 (pdpt + 8 * 0) (Z.lor (Z.lor (Z.lor (v2p pgdir) PTE_P) PTE_W) PTE_U);;
  kwrite64 (pgdir + 8 * 511) (Z.lor pml4 PTE_P);;
  kwrite64 (pgdir + 8 * 510) (Z.lor pdpt PTE_P);;
  mret pgdir.

(** The loop of [copyuvm] over [n] pages; false for [goto bad]. *)
Fixpoint copyuvm_loop (pgdir d i : Z) (n : nat) : K bool :=
  match n with
  | O => mret true
  | S n =>
      pte ← walkpgdir pgdir i false;
      if pte =? 0 then panic "copyuvm: pte should exist" else
      e ← kread64 pte;
      if negb (has e PTE_P) then panic "copyuvm: page not present" else
      mem ← kalloc;
      if mem =? 0 then mret false else
      kmemmove mem (p2v (PTE_ADDR e)) PGSIZE;;
      r ← mappages d i PGSIZE (v2p mem) (PTE_FLAGS e);
      if r <? 0 then mret false else
      copyuvm_loop pgdir d (i + PGSIZE) n
  end.
Definition copyuvm (pgdir sz : Z) : K Z :=
  d ← setupkvm;
  if d =? 0 then mret 0 else
  ok ← copyuvm_loop pgdir d 0 (npages 0 sz);
  if (ok : bool) then mret d else
  freevm d;;
  mret 0.
End with_kvm.

(** The kernel's own tables.  [kpgdir0] and [kpgdir1] map the low 2GB with
    large pages. *)
Definition kvm_entry (g0 g1 n : Z) : K unit :=
  kwrite64 (g0 + 8 * n) (Z.lor (Z.lor (Z.lor (Z.shiftl n PDXSHIFT) PTE_PS) PTE_P) PTE_W);;
  kwrite64 (g1 + 8 * n) (Z.lor (Z.lor (Z.lor (Z.shiftl (n + 512) PDXSHIFT) PTE_PS) PTE_P) PTE_W).
Definition kvm_io_entry (io n : Z) : K unit :=
  kwrite64 (io + 8 * n) (Z.lor (Z.lor (Z.lor (Z.lor (Z.lor (DEVSPACE + Z.shiftl n PDXSHIFT) PTE_PS) PTE_P) PTE_W) PTE_PWT) PTE_PCD).
Definition kvmalloc : K kvm :=
  ml4 ← kalloc;
  dpt ← kalloc;
  g0 ← kalloc;
  g1 ← kalloc;
  io ← kalloc;
  kmemset ml4 0 PGSIZE;;
  kmemset dpt 0 PGSIZE;;
  kmemset io 0 PGSIZE;;
  kwrite64 (ml4 + 8 * 511) (Z.lor (Z.lor (v2p dpt) PTE_P) PTE_W);;
  kwrite64 (dpt + 8 * 511) (Z.lor (Z.lor (v2p g1) PTE_P) PTE_W);;
  kwrite64 (dpt + 8 * 510) (Z.lor (Z.lor (v2p g0) PTE_P) PTE_W);;
  kwrite64 (dpt + 8 * 509) (Z.lor (Z.lor (v2p io) PTE_P) PTE_W);;
  for_each (seqZ 0 NPDENTRIES) (kvm_entry g0 g1);;
  for_each (seqZ 0 16) (kvm_io_entry io);;
  mret (mkKvm ml4 dpt io g0 g1).

Section with_devsw.
Context `{Devsw}.

(** [pa] is a [uint]. *)
Fixpoint loaduvm_loop (pgdir addr : Z) (ip : nat) (offset sz i : Z) (fuel : nat) : K Z :=
  if i <? sz then
    match fuel with
    | O => spin
    | S fuel =>
        pte ← walkpgdir pgdir (u64 (addr + i)) false;
        if pte =? 0 then panic "loaduvm: address should exist" else
        e ← kread64 pte;
        let pa := u32 (PTE_ADDR e) in
        let n := if sz - i <? PGSIZE then sz - i else PGSIZE in
        rl ← readi ip (u32 (offset + i)) n;
        kstore (p2v pa) rl.2;;
        if negb (u32 rl.1 =? n) then mret (-1) else
        loaduvm_loop pgdir addr ip offset sz (u32 (i + PGSIZE)) fuel
    end
  else mret 0.
Definition loaduvm (pgdir addr : Z) (ip : nat) (offset sz : Z) : K Z :=
  if negb (addr mod PGSIZE =? 0) then panic "loaduvm: addr must be page aligned" else
  loaduvm_loop pgdir addr ip offset sz 0 (Z.to_nat (sz / PGSIZE + 1)).
End with_devsw.
