(* ===== verification/VmPages.v ===== *)
(** * VmPages: what the page table operations of Vm do

    [pte_of m d n] walks the page directory [d] in memory [m] for user page
    number [n].  [vm_inv] says that a directory and its page tables are pages
    in use, all different; under it, [walkpgdir] and [mappages] change one
    translation and nothing else, and [allocuvm] adds fresh zeroed pages. *)

From stdpp Require Import prelude functions gmap strings.
From S2P Require Import Prelude Types Ring Spinlock Sched Cstr Ide Bio Log Fs Kalloc Cprintf Vm.
Open Scope Z_scope.

(** ** Words and entries *)

Lemma mget64_put_ne m a b x : a mod 8 = 0 → b mod 8 = 0 → a ≠ b → mget64 (mput64 m a x) b = mget64 m b.
Proof.
  intros Ha Hb Hne. apply mget64_ext. intros c Hc. apply mput64_other. Z.to_euclidean_division_equations. lia.
Qed.

Lemma mget64_range m a : (∀ b, is_byte (m b)) → 0 ≤ mget64 m a < 2 ^ 64.
Proof.
  intros Hm. unfold mget64. pose proof (le_get_range (mget_bytes m a 8)) as H.
  unfold mget_bytes in *. rewrite length_fmap, length_seqZ in H. apply H.
  apply Forall_fmap, Forall_forall. intros x _. apply Hm.
Qed.

Lemma lor_low x f : x mod PGSIZE = 0 → 0 ≤ f < PGSIZE → Z.lor x f = x + f.
Proof.
  intros Hx Hf. unfold PGSIZE in *. symmetry. apply Z.add_nocarry_lor.
  apply Z.mod_divide in Hx as [q ->]; [|lia]. apply Z.bits_inj'. intros i Hi.
  rewrite Z.land_spec, Z.bits_0. change 4096 with (2 ^ 12). rewrite <-Z.shiftl_mul_pow2 by lia.
  destruct (decide (i < 12)).
  - by rewrite Z.shiftl_spec_low by lia.
  - rewrite <-(Z.mod_small f (2 ^ 12)) by done. rewrite Z.mod_pow2_bits_high by lia. by rewrite andb_false_r.
Qed.

Lemma PTE_ADDR_val x : PTE_ADDR x = x / PGSIZE * PGSIZE.
Proof.
  unfold PTE_ADDR. change 0xFFF with (Z.ones 12). rewrite <-Z.ldiff_land, Z.ldiff_ones_r by lia.
  by rewrite Z.shiftr_div_pow2, Z.shiftl_mul_pow2 by lia.
Qed.

Lemma has_P e : has e PTE_P = Z.odd e.
Proof.
  unfold has, PTE_P. change 1 with (Z.ones 1). rewrite Z.land_ones by lia. change (2 ^ 1) with 2.
  rewrite Zmod_odd. by destruct (Z.odd e).
Qed.

(** An entry for a page. *)
Lemma entry_addr x f : x mod PGSIZE = 0 → 0 ≤ f < PGSIZE → PTE_ADDR (Z.lor x f) = x.
Proof.
  intros Hx Hf. rewrite PTE_ADDR_val, lor_low by done. unfold PGSIZE in *. Z.to_euclidean_division_equations. lia.
Qed.

Lemma entry_P x f : x mod PGSIZE = 0 → 0 ≤ f < PGSIZE → has (Z.lor x f) PTE_P = Z.odd f.
Proof.
  intros Hx Hf. rewrite has_P, lor_low by done. apply Z.mod_divide in Hx as [q ->]; [|done].
  rewrite Z.odd_add, Z.odd_mul. unfold PGSIZE. cbn. rewrite andb_false_r. by destruct (Z.odd f).
Qed.

Lemma p2v_v2p t : 0 ≤ t < 2 ^ 64 → p2v (v2p t) = t.
Proof. intros. unfold p2v, v2p, u64. rewrite Zplus_mod_idemp_l. rewrite Z.sub_add. by apply Z.mod_small. Qed.

Lemma v2p_page e t : page_ok e t → v2p t mod PGSIZE = 0 ∧ 0 ≤ v2p t < PHYSTOP.
Proof.
  intros Ht. pose proof (page_ok_base _ _ Ht) as Hb. destruct Ht as (Hm & _ & Hp & _). unfold v2p, u64 in *.
  unfold KERNBASE, PGSIZE, PHYSTOP in *. rewrite (Z.mod_small (t - _)) in * by lia. split; [|lia].
  Z.to_euclidean_division_equations. lia.
Qed.

(** ** Page numbers *)

Lemma PDX_page n : 0 ≤ n → PDX (n * PGSIZE) = n / 512 mod 512.
Proof.
  intros Hn. unfold PDX, PDXSHIFT, PXMASK, PGSIZE. change 0x1FF with (Z.ones 9). rewrite Z.land_ones, Z.shiftr_div_pow2 by lia.
  change (2 ^ 9) with 512. f_equal. change (2 ^ 21) with (4096 * 512). rewrite <-Z.div_div by lia. by rewrite Z.div_mul.
Qed.

Lemma PTX_page n : 0 ≤ n → PTX (n * PGSIZE) = n mod 512.
Proof.
  intros Hn. unfold PTX, PTXSHIFT, PXMASK, PGSIZE. change 0x1FF with (Z.ones 9). rewrite Z.land_ones, Z.shiftr_div_pow2 by lia.
  change (2 ^ 9) with 512. f_equal. by rewrite Z.div_mul.
Qed.

(** The number of user pages: the last two entries of a directory are its
    back pointers. *)
Definition NUSER : Z := 510 * 512.

(** The entry for user page [n], if present. *)
Definition pte_of (m : mem) (d n : Z) : option Z :=
  let e := mget64 m (d + 8 * (n / 512)) in
  if has e PTE_P then
    let x := mget64 m (p2v (PTE_ADDR e) + 8 * (n mod 512)) in
    if has x PTE_P then Some x else None
  else None.

Lemma memset_page_zero m p i : 0 ≤ i < 512 → mget64 (memset m p 0 PGSIZE) (p + 8 * i) = 0.
Proof.
  intros Hi. unfold mget64.
  replace (mget_bytes (memset m p 0 PGSIZE) (p + 8 * i) 8) with (replicate 8 0); [done|].
  symmetry. unfold mget_bytes. apply list_eq. intros j. rewrite list_lookup_fmap.
  destruct (decide (j < 8)%nat).
  - rewrite lookup_seqZ_lt by lia. cbn [fmap option_fmap option_map]. rewrite memset_correct by done.
    rewrite bool_decide_eq_true_2 by (unfold PGSIZE; lia). by rewrite lookup_replicate_2 by lia.
  - rewrite lookup_seqZ_ge by lia. symmetry. apply lookup_replicate_None. lia.
Qed.

#[local] Opaque memset mput64 mget64.

(** ** The invariant *)

(** The directory [d] has the page tables [T], by index. *)
Definition pgdir_ok (m : mem) (d : Z) (T : gmap Z Z) : Prop :=
  ∀ i, 0 ≤ i < 510 →
    match T !! i with
    | Some t => has (mget64 m (d + 8 * i)) PTE_P = true ∧ p2v (PTE_ADDR (mget64 m (d + 8 * i))) = t
    | None => has (mget64 m (d + 8 * i)) PTE_P = false
    end.

(** The pages of the address space itself. *)
Definition table_pages (d : Z) (T : gmap Z Z) : list Z := d :: (map_to_list T).*2.

(** [all] are the allocator's pages, [used] the ones in use, among them the
    directory and its tables, each used once. *)
Record vm_inv (all used : list Z) (d : Z) (T : gmap Z Z) (km : kmem) : Prop := {
  vi_km : kmem_inv all used km;
  vi_dir : pgdir_ok (km_mem km) d T;
  vi_dom : ∀ i t, T !! i = Some t → 0 ≤ i < 510;
  vi_used : table_pages d T ⊆ used;
  vi_nodup : NoDup (table_pages d T)
}.

Implicit Types T : gmap Z Z.

Lemma vi_page all used d T km p : vm_inv all used d T km → p ∈ table_pages d T → page_ok (km_end km) p.
Proof. intros H Hp. eapply kmem_inv_ok; [apply H|]. by apply (vi_used _ _ _ _ _ H). Qed.

Lemma elem_of_table T i (t : Z) : T !! i = Some t → t ∈ (map_to_list T).*2.
Proof. intros H. apply list_elem_of_fmap. exists (i, t). split; [done|]. by apply elem_of_map_to_list. Qed.

Lemma table_in d T i t : T !! i = Some t → t ∈ table_pages d T.
Proof. intros H. right. by eapply elem_of_table. Qed.

Lemma table_inj all used d T km i j t : vm_inv all used d T km → T !! i = Some t → T !! j = Some t → i = j.
Proof.
  intros Hv Hi Hj. pose proof (vi_nodup _ _ _ _ _ Hv) as Hnd. apply NoDup_cons in Hnd as [_ Hnd].
  apply elem_of_map_to_list in Hi, Hj. apply list_elem_of_lookup in Hi as [a Ha], Hj as [b Hb].
  assert (a = b) as ->; [|congruence]. eapply NoDup_lookup; [exact Hnd|..]; rewrite list_lookup_fmap; [by rewrite Ha|by rewrite Hb].
Qed.

Lemma table_ne_dir all used d T km i t : vm_inv all used d T km → T !! i = Some t → t ≠ d.
Proof.
  intros Hv Hi ->. pose proof (vi_nodup _ _ _ _ _ Hv) as Hnd. apply NoDup_cons in Hnd as [Hn _]. by apply Hn, (elem_of_table T i).
Qed.

(** An address inside a page of the allocator. *)
Definition in_page (p a : Z) : Prop := p ≤ a < p + PGSIZE.

Lemma word_in_page e p i : page_ok e p → 0 ≤ i < 512 → (p + 8 * i) mod 8 = 0 ∧ in_page p (p + 8 * i).
Proof.
  intros (Hm & _) Hi. unfold in_page, PGSIZE in *. split; [|lia]. Z.to_euclidean_division_equations. lia.
Qed.

(** Entries of different pages, or different entries of a page, are different
    words. *)
Lemma word_ne e p q i j : page_ok e p → page_ok e q → 0 ≤ i < 512 → 0 ≤ j < 512 → p ≠ q ∨ i ≠ j →
  p + 8 * i ≠ q + 8 * j.
Proof.
  intros Hp Hq Hi Hj Hne Heq. destruct (decide (p = q)) as [->|Hpq]; [lia|].
  destruct (word_in_page e p i Hp Hi) as [_ H1]. destruct (word_in_page e q j Hq Hj) as [_ H2].
  by eapply (pages_apart e p q (p + 8 * i) (q + 8 * j)).
Qed.

(** The walk in terms of the tables. *)
Lemma pte_of_table all used d T km n : vm_inv all used d T km → 0 ≤ n < NUSER →
  pte_of (km_mem km) d n =
    t ← T !! (n / 512); let x := mget64 (km_mem km) (t + 8 * (n mod 512)) in if has x PTE_P then Some x else None.
Proof.
  intros Hv Hn. unfold pte_of. assert (Hi : 0 ≤ n / 512 < 510) by (unfold NUSER in Hn; Z.to_euclidean_division_equations; lia).
  pose proof (vi_dir _ _ _ _ _ Hv _ Hi) as Hd. destruct (T !! (n / 512)) as [t|]; [by destruct Hd as [-> ->]|by rewrite Hd].
Qed.

(** ** walkpgdir *)

Lemma wp_kread64 e p i k E Q : page_ok e p → 0 ≤ i < 512 →
  Q (mget64 (km_mem (k_kmem k)) (p + 8 * i)) k → wp (kread64 (p + 8 * i)) E Q k.
Proof.
  intros Hp%page_ok_base Hi HQ. unfold kread64, getkm. unfold KERNBASE, PHYSTOP in *.
  rewrite (proj2 (Z.ltb_ge _ _)), (proj2 (Z.leb_gt _ _)) by lia. by wp_steps.
Qed.

Lemma wp_kwrite64 a v k E Q :
  Q tt (set_kmem (set_km_mem (mput64 (km_mem (k_kmem k)) a v) (k_kmem k)) k) → wp (kwrite64 a v) E Q k.
Proof. intros. unfold kwrite64, updkm. by wp_steps. Qed.

Lemma wp_kmemset a c n k E Q : a ≠ 0 →
  Q tt (set_kmem (set_km_mem (memset (km_mem (k_kmem k)) a c n) (k_kmem k)) k) → wp (kmemset a c n) E Q k.
Proof. intros Ha HQ. unfold kmemset. rewrite (proj2 (Z.eqb_neq a 0) Ha). unfold updkm. by wp_steps. Qed.

Lemma page_split n : 0 ≤ n < NUSER → 0 ≤ n / 512 < 510 ∧ 0 ≤ n mod 512 < 512 ∧ PDX (n * PGSIZE) = n / 512 ∧ PTX (n * PGSIZE) = n mod 512.
Proof.
  intros Hn. rewrite PDX_page, PTX_page by lia. unfold NUSER in Hn.
  assert (0 ≤ n / 512 < 510) by (Z.to_euclidean_division_equations; lia).
  rewrite (Z.mod_small (n / 512)) by lia. split_and!; try lia; by apply Z.mod_pos_bound.
Qed.

Lemma wp_read_dir all used d T i k E Q : vm_inv all used d T (k_kmem k) → 0 ≤ i < 510 →
  Q (mget64 (km_mem (k_kmem k)) (d + 8 * i)) k → wp (kread64 (d + 8 * i)) E Q k.
Proof. intros Hv Hi. eapply wp_kread64; [eapply vi_page; [exact Hv|left]|lia]. Qed.

(** The page table is there. *)
Lemma wp_walk_found all used d T n t alloc k E Q : vm_inv all used d T (k_kmem k) → 0 ≤ n < NUSER →
  T !! (n / 512) = Some t → Q (t + 8 * (n mod 512)) k → wp (walkpgdir d (n * PGSIZE) alloc) E Q k.
Proof.
  intros Hv Hn Ht HQ. destruct (page_split n Hn) as (Hi & Hj & Hpdx & Hptx). unfold walkpgdir. rewrite Hptx, Hpdx.
  pose proof (vi_dir _ _ _ _ _ Hv _ Hi) as Hd. rewrite Ht in Hd. destruct Hd as [Hp Ha].
  wp_steps. eapply wp_read_dir; [done..|]. rewrite Hp. wp_steps. by rewrite Ha.
Qed.

(** No page table, and none is made. *)
Lemma wp_walk_none all used d T n k E Q : vm_inv all used d T (k_kmem k) → 0 ≤ n < NUSER →
  T !! (n / 512) = None → Q 0 k → wp (walkpgdir d (n * PGSIZE) false) E Q k.
Proof.
  intros Hv Hn Ht HQ. destruct (page_split n Hn) as (Hi & Hj & Hpdx & Hptx). unfold walkpgdir. rewrite Hptx, Hpdx.
  pose proof (vi_dir _ _ _ _ _ Hv _ Hi) as Hd. rewrite Ht in Hd. wp_steps. eapply wp_read_dir; [done..|]. rewrite Hd. by wp_steps.
Qed.

(** A memory that differs inside the pages [ps] only. *)
Definition same_but (ps : list Z) (m m' : mem) : Prop := ∀ a, (∀ p, p ∈ ps → ¬ in_page p a) → m' a = m a.

Lemma same_but_word ps e m m' p i : same_but ps m m' → (∀ q, q ∈ ps → page_ok e q) → page_ok e p → p ∉ ps → 0 ≤ i < 512 →
  mget64 m' (p + 8 * i) = mget64 m (p + 8 * i).
Proof.
  intros Hs Hps Hp Hn Hi. apply mget64_ext. intros a Ha. apply Hs. intros q Hq Hin.
  eapply (pages_apart e p q a a); [done|by apply Hps|by intros ->| |exact Hin|done].
  destruct (word_in_page e p i Hp Hi) as [H8 Hpg]. unfold in_page, PGSIZE in *. lia.
Qed.

(** What the walk changes when it makes a page table [t] for index [i]. *)
Definition with_table (d i t : Z) (km : kmem) : kmem :=
  set_km_mem (mput64 (memset (km_mem (taken km)) t 0 PGSIZE) (d + 8 * i) (Z.lor (Z.lor (Z.lor (v2p t) PTE_P) PTE_W) PTE_U)) (taken km).

Lemma taken_mem km : km_mem (taken km) = km_mem km.
Proof. unfold taken. by destruct (km_freelist km =? 0). Qed.

Lemma taken_end km : km_end (taken km) = km_end km.
Proof. unfold taken. by destruct (km_freelist km =? 0). Qed.

(** Writing inside pages in use leaves the free list alone. *)
Lemma kmem_inv_same all used km m' ps : kmem_inv all used km → ps ⊆ used → same_but ps (km_mem km) m' →
  kmem_inv all used (set_km_mem m' km).
Proof.
  intros (l & Hc & Hp & Hnd & Hall) Hps Hs. exists l. split; [|done]. cbn. eapply chain_ext; [|exact Hc].
  intros q y Hq Hy. apply Hs. intros p Hpin Hin. rewrite Forall_forall in Hall. rewrite <-Hp in Hnd.
  apply NoDup_app in Hnd as (_ & Hd & _).
  eapply (pages_apart (km_end km) p q y y); [| |by intros ->; apply (Hd q), Hps|exact Hin|unfold PGSIZE; lia|done];
    apply Hall; rewrite <-Hp; apply elem_of_app; [right; by apply Hps|by left].
Qed.

Lemma same_but_refl ps m : same_but ps m m.
Proof. done. Qed.

Lemma same_but_trans ps m1 m2 m3 : same_but ps m1 m2 → same_but ps m2 m3 → same_but ps m1 m3.
Proof. intros H1 H2 a Ha. by rewrite H2, H1. Qed.

Lemma same_but_mono ps qs m m' : ps ⊆ qs → same_but ps m m' → same_but qs m m'.
Proof. intros H Hs a Ha. apply Hs. intros p Hp. by apply Ha, H. Qed.

Lemma same_but_memset p m c : same_but [p] m (memset m p c PGSIZE).
Proof.
  intros a Ha. rewrite memset_correct by done. rewrite bool_decide_eq_false_2; [done|]. apply Ha. left.
Qed.

Lemma same_but_put64 e p i m x : page_ok e p → 0 ≤ i < 512 → same_but [p] m (mput64 m (p + 8 * i) x).
Proof.
  intros Hp Hi a Ha. apply mput64_other. intros Hin. apply (Ha p); [left|].
  destruct (word_in_page e p i Hp Hi). unfold in_page, PGSIZE in *. lia.
Qed.

Lemma with_table_mem e d i t km : page_ok e d → 0 ≤ i < 512 → same_but [d; t] (km_mem km) (km_mem (with_table d i t km)).
Proof.
  intros Hd Hi. unfold with_table. cbn [km_mem set_km_mem]. rewrite taken_mem.
  eapply same_but_trans; [eapply (same_but_mono [t]); [set_solver|apply same_but_memset]|].
  eapply (same_but_mono [d]); [set_solver|by eapply same_but_put64].
Qed.

Lemma table_pages_insert d T i t : T !! i = None → table_pages d (<[i := t]> T) ≡ₚ t :: table_pages d T.
Proof. intros H. unfold table_pages. rewrite map_to_list_insert by done. cbn. apply Permutation_swap. Qed.

Section new_table.
Context (all used : list Z) (d : Z) (T : gmap Z Z) (km : kmem) (i : Z).
Context (Hv : vm_inv all used d T km) (Hi : 0 ≤ i < 510) (Hnone : T !! i = None) (Hfree : km_freelist km ≠ 0).
Let t := km_freelist km.
Let km' := with_table d i t km.

Lemma new_table_fresh : (t ∉ used) ∧ page_ok (km_end km) t ∧ kmem_inv all (t :: used) (taken km).
Proof.
  destruct (kmem_inv_take _ _ _ (vi_km _ _ _ _ _ Hv)) as [[? _]|(Hin & Hnu & Hk)]; [done|]. split; [done|]. split; [|done].
  rewrite <-taken_end. eapply kmem_inv_ok; [done|left].
Qed.

Lemma new_table_d : page_ok (km_end km) d ∧ d ≠ t.
Proof.
  assert (Hd : d ∈ used) by (apply (vi_used _ _ _ _ _ Hv); left). split; [by eapply vi_page; [|left]|].
  intros Heq. destruct new_table_fresh as [Hn _]. apply Hn. by rewrite <-Heq.
Qed.

Lemma new_table_entry : mget64 (km_mem km') (d + 8 * i) = Z.lor (Z.lor (Z.lor (v2p t) PTE_P) PTE_W) PTE_U.
Proof.
  unfold km', with_table. cbn [km_mem set_km_mem]. apply mget_put64.
  destruct new_table_fresh as (_ & Ht & _). destruct (v2p_page _ _ Ht) as [Hm Hr].
  rewrite <-!Z.lor_assoc. rewrite lor_low by (done || unfold PHYSTOP in *; done). unfold PHYSTOP in *. change (Z.lor PTE_P (Z.lor PTE_W PTE_U)) with 7. lia.
Qed.

Lemma new_table_zero j : 0 ≤ j < 512 → mget64 (km_mem km') (t + 8 * j) = 0.
Proof.
  intros Hj. destruct new_table_fresh as (_ & Ht & _). destruct new_table_d as [Hd Hne].
  unfold km', with_table. cbn [km_mem set_km_mem].
  destruct (word_in_page _ d i Hd) as [? _]; [lia|]. destruct (word_in_page _ t j Ht Hj) as [? _].
  rewrite mget64_put_ne; [by apply memset_page_zero|done|done|]. eapply (word_ne (km_end km)); auto; lia.
Qed.

Lemma new_table_other p j : p ∈ used → 0 ≤ j < 512 → p ≠ d ∨ j ≠ i → mget64 (km_mem km') (p + 8 * j) = mget64 (km_mem km) (p + 8 * j).
Proof.
  intros Hp Hj Hne. destruct new_table_fresh as (Htu & Ht & _). destruct new_table_d as [Hd Hdt].
  assert (Hpok : page_ok (km_end km) p) by (eapply kmem_inv_ok; [apply (vi_km _ _ _ _ _ Hv)|done]).
  unfold km', with_table. cbn [km_mem set_km_mem]. rewrite taken_mem.
  destruct (word_in_page _ d i Hd) as [? _]; [lia|]. destruct (word_in_page _ p j Hpok Hj) as [? _].
  rewrite mget64_put_ne; [|done..|eapply (word_ne (km_end km)); [done..|lia|done|]; destruct Hne; auto].
  eapply (same_but_word [t]); [apply same_but_memset|by intros q ->%list_elem_of_singleton|exact Hpok| |done].
  intros ->%list_elem_of_singleton. done.
Qed.

Lemma new_table_inv : vm_inv all (t :: used) d (<[i := t]> T) km'.
Proof.
  destruct new_table_fresh as (Htu & Ht & Hkm). destruct new_table_d as [Hd Hdt].
  assert (Hdu : d ∈ used) by (apply (vi_used _ _ _ _ _ Hv); left). split.
  - apply (kmem_inv_same all (t :: used) (taken km) _ [d; t]); [exact Hkm|clear -Hdu; set_solver|].
    pose proof (with_table_mem (km_end km) d i t km Hd ltac:(lia)) as Hw. rewrite <-(taken_mem km) in Hw at 1. exact Hw.
  - intros j Hj. destruct (decide (i = j)) as [<-|Hne].
    + rewrite lookup_insert_eq, new_table_entry. destruct (v2p_page _ _ Ht) as [Hm _].
      rewrite <-!Z.lor_assoc. rewrite entry_P, entry_addr by done. split; [done|]. apply p2v_v2p. by destruct Ht as (_ & _ & _ & ?).
    + rewrite lookup_insert_ne by done. rewrite new_table_other by (done || lia || auto). by apply (vi_dir _ _ _ _ _ Hv).
  - intros j x [[<- _]|[_ ?]]%lookup_insert_Some; [lia|by eapply (vi_dom _ _ _ _ _ Hv)].
  - rewrite table_pages_insert by done. pose proof (vi_used _ _ _ _ _ Hv) as Hu. clear -Hu. set_solver.
  - rewrite table_pages_insert by done. constructor; [|apply Hv]. intros Hin. by apply Htu, (vi_used _ _ _ _ _ Hv).
Qed.

(** No translation changes. *)
Lemma new_table_pte n : 0 ≤ n < NUSER → pte_of (km_mem km') d n = pte_of (km_mem km) d n.
Proof.
  intros Hn. rewrite (pte_of_table _ _ _ _ _ _ new_table_inv), (pte_of_table _ _ _ _ _ _ Hv) by done.
  destruct (page_split n Hn) as (Hin & Hjn & _). destruct (decide (i = n / 512)) as [<-|Hne].
  - rewrite lookup_insert_eq, Hnone. cbn. by rewrite new_table_zero.
  - rewrite lookup_insert_ne by done. destruct (T !! (n / 512)) as [x|] eqn:Hx; [|done]. cbn.
    rewrite new_table_other; [done| |done|left; by eapply table_ne_dir]. apply (vi_used _ _ _ _ _ Hv). by eapply table_in.
Qed.
End new_table.

(** There is a free page while not all are in use. *)
Lemma kmem_inv_free_page all used km : kmem_inv all used km → (length used < length all)%nat → km_freelist km ≠ 0.
Proof.
  intros Hk Hlt H0. destruct (kmem_inv_take _ _ _ Hk) as [(_ & Hp & _)|(Hin & _)].
  - rewrite (Permutation_length Hp) in Hlt. lia.
  - destruct Hk as (l & _ & _ & _ & Hall). rewrite Forall_forall in Hall. by apply (page_ok_nonzero _ _ (Hall _ Hin)).
Qed.

(** The state changes of the paging operations. *)
Definition kmem_step (L : list lockid) (pr : option nat) (k k' : kernel) : Prop :=
  at_mach L pr (k_mach k') ∧ ∃ m km, k' = set_mach m (set_kmem km k).

Lemma kmem_step_refl L pr k : at_mach L pr (k_mach k) → kmem_step L pr k k.
Proof. intros. split; [done|]. exists (k_mach k), (k_kmem k). by destruct k. Qed.

Lemma kmem_step_trans L pr k1 k2 k3 : kmem_step L pr k1 k2 → kmem_step L pr k2 k3 → kmem_step L pr k1 k3.
Proof. intros (_ & m & km & ->) (Hm & m' & km' & ->). split; [done|]. by exists m', km'. Qed.

Lemma kmem_step_set L pr k km : at_mach L pr (k_mach k) → kmem_step L pr k (set_kmem km k).
Proof. intros. split; [done|]. by exists (k_mach k), km. Qed.

(** The walk with [alloc] set: the tables afterwards are [T'], the pages in
    use [used']. *)
Record walked (all used : list Z) (d : Z) (T : gmap Z Z) (n t : Z) (km : kmem) (used' : list Z) (T' : gmap Z Z) (km' : kmem) : Prop := {
  wk_inv : vm_inv all used' d T' km';
  wk_table : T' !! (n / 512) = Some t;
  wk_used : used' = used ∧ T' = T ∨ (t ∉ used) ∧ used' = t :: used ∧ T' = <[n / 512 := t]> T ∧ T !! (n / 512) = None;
  wk_pte : ∀ n', 0 ≤ n' < NUSER → pte_of (km_mem km') d n' = pte_of (km_mem km) d n';
  wk_mem : same_but [d; t] (km_mem km) (km_mem km');
  wk_end : km_end km' = km_end km
}.

Lemma wp_walk_alloc L pr all used d T n k E Q :
  vm_inv all used d T (k_kmem k) → at_mach L pr (k_mach k) → L_kmem ∉ L → 0 ≤ n < NUSER → (length used < length all)%nat →
  (∀ t used' T' k', walked all used d T n t (k_kmem k) used' T' (k_kmem k') → kmem_step L pr k k' →
     Q (t + 8 * (n mod 512)) k') →
  wp (walkpgdir d (n * PGSIZE) true) E Q k.
Proof.
  intros Hv Hm HL Hn Hlt HQ. destruct (T !! (n / 512)) as [t|] eqn:Ht.
  { eapply wp_walk_found; [done..|]. eapply (HQ t used T); [|by apply kmem_step_refl]. split; [done|done|by left|done..]. }
  assert (Hfree : km_freelist (k_kmem k) ≠ 0) by (eapply kmem_inv_free_page; [apply Hv|done]).
  destruct (page_split n Hn) as (Hi & Hj & Hpdx & Hptx).
  destruct (new_table_fresh _ _ _ _ _ Hv Hfree) as (Htu & Htok & _).
  destruct (new_table_d _ _ _ _ _ Hv Hfree) as (Hd & _).
  unfold walkpgdir. rewrite Hptx, Hpdx. pose proof (vi_dir _ _ _ _ _ Hv _ Hi) as Hdir. rewrite Ht in Hdir.
  wp_steps. eapply wp_read_dir; [done..|]. rewrite Hdir. cbn [negb]. wp_steps. eapply wp_kalloc; [done..|]. intros m1 Hm1.
  rewrite (proj2 (Z.eqb_neq _ _) Hfree). wp_steps. apply wp_kmemset; [done|]. wp_steps. apply wp_kwrite64. wp_steps.
  eapply (HQ (km_freelist (k_kmem k)) (km_freelist (k_kmem k) :: used) (<[n / 512 := km_freelist (k_kmem k)]> T)).
  - split; [by apply new_table_inv|apply lookup_insert_eq|by right| | |].
    + intros n' Hn'. by apply (new_table_pte all used d T).
    + apply (with_table_mem (km_end (k_kmem k))); [done|lia].
    + apply taken_end.
  - split; [done|]. by eexists m1, _.
Qed.

(** ** Setting an entry *)

Section set_entry.
Context (all used : list Z) (d : Z) (T : gmap Z Z) (km : kmem) (n t x : Z).
Context (Hv : vm_inv all used d T km) (Hn : 0 ≤ n < NUSER) (Ht : T !! (n / 512) = Some t) (Hx : 0 ≤ x < 2 ^ 64).
Let km' := set_km_mem (mput64 (km_mem km) (t + 8 * (n mod 512)) x) km.

Lemma set_entry_pages : page_ok (km_end km) t ∧ 0 ≤ n mod 512 < 512 ∧ t ∈ used.
Proof.
  assert (t ∈ table_pages d T) by (by eapply table_in). split; [by eapply vi_page|]. split; [by apply Z.mod_pos_bound|].
  by apply (vi_used _ _ _ _ _ Hv).
Qed.

Lemma set_entry_word p j : p ∈ used → 0 ≤ j < 512 → p ≠ t ∨ j ≠ n mod 512 →
  mget64 (km_mem km') (p + 8 * j) = mget64 (km_mem km) (p + 8 * j).
Proof.
  intros Hp Hj Hne. destruct set_entry_pages as (Htok & Hm & Htu).
  assert (Hpok : page_ok (km_end km) p) by (eapply kmem_inv_ok; [apply (vi_km _ _ _ _ _ Hv)|done]).
  destruct (word_in_page _ t _ Htok Hm) as [? _]. destruct (word_in_page _ p _ Hpok Hj) as [? _].
  unfold km'. cbn [km_mem set_km_mem]. apply mget64_put_ne; [done..|]. eapply (word_ne (km_end km)); [done..|].
  destruct Hne; auto.
Qed.

Lemma set_entry_inv : vm_inv all used d T km'.
Proof.
  destruct set_entry_pages as (Htok & Hm & Htu). split; [| |apply Hv|apply Hv|apply Hv].
  - eapply (kmem_inv_same _ _ _ _ [t]); [apply Hv|by intros y ->%list_elem_of_singleton|].
    by apply (same_but_put64 (km_end km)).
  - intros i Hi. rewrite set_entry_word; [by apply (vi_dir _ _ _ _ _ Hv)|apply (vi_used _ _ _ _ _ Hv); left|lia|].
    left. intros ->. by apply (table_ne_dir _ _ _ _ _ _ _ Hv Ht).
Qed.

Lemma set_entry_pte n' : 0 ≤ n' < NUSER →
  pte_of (km_mem km') d n' = if n' =? n then (if has x PTE_P then Some x else None) else pte_of (km_mem km) d n'.
Proof.
  intros Hn'. rewrite (pte_of_table _ _ _ _ _ _ set_entry_inv), (pte_of_table _ _ _ _ _ _ Hv) by done.
  destruct (Z.eqb_spec n' n) as [->|Hne].
  - rewrite Ht. cbn. by rewrite mget_put64.
  - destruct (T !! (n' / 512)) as [t'|] eqn:Ht'; [|done]. cbn. rewrite set_entry_word; [done| |by apply Z.mod_pos_bound|].
    + apply (vi_used _ _ _ _ _ Hv). by eapply table_in.
    + destruct (decide (t' = t)) as [->|]; [|by left]. right.
      pose proof (table_inj _ _ _ _ _ _ _ _ Hv Ht' Ht) as Hq. intros Hmod. apply Hne.
      pose proof (Z.div_mod n' 512 ltac:(lia)). pose proof (Z.div_mod n 512 ltac:(lia)). lia.
Qed.
End set_entry.

(** ** mappages, one page *)

(** The entry for page [p] with permissions [perm]. *)
Definition entry (p perm : Z) : Z := Z.lor (Z.lor (v2p p) perm) PTE_P.

Lemma entry_range e p perm : page_ok e p → 0 ≤ perm < PGSIZE → 0 ≤ entry p perm < 2 ^ 64 ∧ has (entry p perm) PTE_P = true ∧
  p2v (PTE_ADDR (entry p perm)) = p.
Proof.
  intros Hp Hperm. destruct (v2p_page _ _ Hp) as [Hm Hr].
  assert (Hf : 0 ≤ Z.lor perm PTE_P < PGSIZE).
  { unfold PGSIZE, PTE_P in *. split; [apply Z.lor_nonneg; lia|]. destruct (decide (perm = 0)) as [->|]; [done|].
    apply Z.log2_lt_cancel. rewrite Z.log2_lor by lia. change (Z.log2 1) with 0. rewrite Z.max_l by apply Z.log2_nonneg.
    change (Z.log2 4096) with 12. apply Z.log2_lt_pow2; lia. }
  unfold entry. rewrite <-Z.lor_assoc. rewrite entry_P, entry_addr, lor_low by done.
  unfold PGSIZE, PHYSTOP in *. split; [lia|]. split; [|apply p2v_v2p; by destruct Hp as (_ & _ & _ & ?)].
  rewrite <-has_P. unfold has. apply negb_true_iff, Z.eqb_neq. unfold PTE_P. rewrite Z.land_lor_distr_l. change (Z.land 1 1) with 1.
  intros H0. apply (f_equal (λ z, Z.testbit z 0)) in H0. rewrite Z.lor_spec in H0. cbn in H0. by rewrite orb_true_r in H0.
Qed.

Lemma mappages_one d n pa perm : 0 ≤ n < NUSER → mappages d (n * PGSIZE) PGSIZE pa perm = mappages_loop d (n * PGSIZE) pa perm 1.
Proof.
  intros Hn. unfold mappages. unfold NUSER in Hn.
  assert (Ha : PGROUNDDOWN (n * PGSIZE) = n * PGSIZE).
  { change PGROUNDDOWN with PTE_ADDR. rewrite PTE_ADDR_val. unfold PGSIZE. Z.to_euclidean_division_equations. lia. }
  assert (Hl : PGROUNDDOWN (u64 (n * PGSIZE + PGSIZE - 1)) = n * PGSIZE).
  { change PGROUNDDOWN with PTE_ADDR. rewrite PTE_ADDR_val. unfold u64, PGSIZE. rewrite Z.mod_small by lia.
    Z.to_euclidean_division_equations. lia. }
  rewrite Ha, Hl, Z.sub_diag. done.
Qed.

Lemma wp_mappages L pr all used d T n p perm k E Q :
  vm_inv all used d T (k_kmem k) → at_mach L pr (k_mach k) → L_kmem ∉ L → 0 ≤ n < NUSER → (length used < length all)%nat →
  page_ok (km_end (k_kmem k)) p → 0 ≤ perm < PGSIZE → pte_of (km_mem (k_kmem k)) d n = None →
  (∀ t used' T' km1 k', walked all used d T n t (k_kmem k) used' T' km1 → vm_inv all used' d T' (k_kmem k') →
     k_kmem k' = set_km_mem (mput64 (km_mem km1) (t + 8 * (n mod 512)) (entry p perm)) km1 → kmem_step L pr k k' → Q 0 k') →
  wp (mappages d (n * PGSIZE) PGSIZE (v2p p) perm) E Q k.
Proof.
  intros Hv Hm HL Hn Hlt Hp Hperm Hnone HQ. rewrite mappages_one by done. cbn [mappages_loop]. wp_steps.
  eapply wp_walk_alloc; [done..|]. intros t used' T' k1 Hw Hk1. destruct (entry_range _ _ perm Hp Hperm) as (Hr & _ & _).
  pose proof (wk_inv _ _ _ _ _ _ _ _ _ _ Hw) as Hv1. pose proof (wk_table _ _ _ _ _ _ _ _ _ _ Hw) as Ht.
  destruct (set_entry_pages _ _ _ _ _ _ _ Hv1 Ht) as (Htok & Hm512 & _).
  rewrite (proj2 (Z.eqb_neq _ 0)) by (apply page_ok_base in Htok; unfold KERNBASE in Htok; lia).
  wp_steps. eapply wp_kread64; [done..|]. rewrite <-(wk_pte _ _ _ _ _ _ _ _ _ _ Hw n Hn), (pte_of_table _ _ _ _ _ _ Hv1), Ht in Hnone by done.
  cbn in Hnone. destruct (has (mget64 (km_mem (k_kmem k1)) (t + 8 * (n mod 512))) PTE_P) eqn:Hh; [done|].
  wp_steps. apply wp_kwrite64. wp_steps. eapply (HQ t used' T' (k_kmem k1)); [done| |done|].
  - by apply (set_entry_inv all used' d T' (k_kmem k1) n t).
  - eapply kmem_step_trans; [done|]. apply kmem_step_set. by apply Hk1.
Qed.

(** ** allocuvm *)

(** A page [p] was added to the address space as page [n], zeroed, and
    perhaps a page table for it. *)
Record added (all used : list Z) (d : Z) (T : gmap Z Z) (n p : Z) (km : kmem) (used' : list Z) (T' : gmap Z Z) (km' : kmem) : Prop := {
  ad_inv : vm_inv all used' d T' km';
  ad_used : used ⊆ used';
  ad_in : p ∈ used';
  ad_new : p ∉ used;
  ad_len : (length used' ≤ length used + 2)%nat;
  ad_tables : ∀ q, q ∈ used ∨ q = p → q ∈ table_pages d T' → q ∈ table_pages d T;
  ad_pte : ∀ n', 0 ≤ n' < NUSER →
    pte_of (km_mem km') d n' = if n' =? n then Some (entry p (Z.lor PTE_W PTE_U)) else pte_of (km_mem km) d n';
  ad_zero : ∀ a, in_page p a → km_mem km' a = 0;
  ad_mem : ∀ q a, q ∈ used → q ∉ table_pages d T → in_page q a → km_mem km' a = km_mem km a;
  ad_end : km_end km' = km_end km
}.

(** The memory after [kalloc] and [memset]. *)
Definition zeroed (p : Z) (km : kmem) : kmem := set_km_mem (memset (km_mem (taken km)) p 0 PGSIZE) (taken km).

Lemma zeroed_inv all used d T km : vm_inv all used d T km → km_freelist km ≠ 0 →
  let p := km_freelist km in
  vm_inv all (p :: used) d T (zeroed p km) ∧ (p ∉ used) ∧ page_ok (km_end km) p ∧
  same_but [p] (km_mem km) (km_mem (zeroed p km)) ∧ (∀ a, in_page p a → km_mem (zeroed p km) a = 0) ∧
  ∀ n, 0 ≤ n < NUSER → pte_of (km_mem (zeroed p km)) d n = pte_of (km_mem km) d n.
Proof.
  intros Hv Hfree p. destruct (new_table_fresh _ _ _ _ _ Hv Hfree) as (Hpu & Hpok & Hkm). fold p in Hpu, Hpok, Hkm.
  assert (Hs : same_but [p] (km_mem km) (km_mem (zeroed p km))) by (unfold zeroed; cbn; rewrite taken_mem; apply same_but_memset).
  assert (Hw : ∀ q i, q ∈ used → 0 ≤ i < 512 → mget64 (km_mem (zeroed p km)) (q + 8 * i) = mget64 (km_mem km) (q + 8 * i)).
  { intros q i Hq Hi. eapply (same_but_word [p]); [done|by intros r ->%list_elem_of_singleton| | |done].
    - eapply kmem_inv_ok; [apply (vi_km _ _ _ _ _ Hv)|done].
    - by intros ->%list_elem_of_singleton. }
  assert (Hinv : vm_inv all (p :: used) d T (zeroed p km)).
  { pose proof (vi_used _ _ _ _ _ Hv) as Hu. split; [| |apply Hv| |apply Hv].
    - apply (kmem_inv_same all (p :: used) (taken km) _ [p]); [done|clear; set_solver|]. rewrite taken_mem at 1. exact Hs.
    - intros i Hi. rewrite Hw; [by apply (vi_dir _ _ _ _ _ Hv)|apply Hu; left|lia].
    - clear -Hu. set_solver. }
  split_and!; [done..| |].
  - intros a Ha. unfold zeroed. cbn [km_mem set_km_mem]. rewrite memset_correct by done. by rewrite bool_decide_eq_true_2.
  - intros n Hn. rewrite (pte_of_table _ _ _ _ _ _ Hinv), (pte_of_table _ _ _ _ _ _ Hv) by done.
    destruct (T !! (n / 512)) as [t|] eqn:Ht; [|done]. cbn. rewrite Hw; [done| |by apply Z.mod_pos_bound].
    apply (vi_used _ _ _ _ _ Hv). by eapply table_in.
Qed.

Section add_page.
Context (all used : list Z) (d : Z) (T : gmap Z Z) (n : Z) (km : kmem).
Context (Hv : vm_inv all used d T km) (Hfree : km_freelist km ≠ 0).
Let p := km_freelist km.
Context (t : Z) (used' : list Z) (T' : gmap Z Z) (km1 : kmem).
Context (Hw : walked all (p :: used) d T n t (zeroed p km) used' T' km1).
Let km2 := set_km_mem (mput64 (km_mem km1) (t + 8 * (n mod 512)) (entry p (Z.lor PTE_W PTE_U))) km1.

(** The page table is neither the new page nor one of the pages in use that
    are no tables. *)
Lemma add_page_table q : q ∈ used ∨ q = p → q ∉ table_pages d T → q ≠ t ∧ q ≠ d.
Proof.
  intros Hq Hnt. destruct (zeroed_inv _ _ _ _ _ Hv Hfree) as (_ & Hpu & _). split.
  - intros ->. destruct (wk_used _ _ _ _ _ _ _ _ _ _ Hw) as [[_ ->]|(Htu & _)].
    + apply Hnt. eapply table_in, (wk_table _ _ _ _ _ _ _ _ _ _ Hw).
    + apply Htu. destruct Hq as [Hq| ->]; [by right|left].
  - intros ->. apply Hnt. left.
Qed.

Lemma add_page_mem q a : q ∈ used ∨ q = p → q ∉ table_pages d T → in_page q a → km_mem km2 a = km_mem (zeroed p km) a.
Proof.
  intros Hq Hnt Ha. destruct (add_page_table q Hq Hnt) as [Hqt Hqd].
  destruct (zeroed_inv _ _ _ _ _ Hv Hfree) as (_ & _ & Hpok & _). pose proof (wk_inv _ _ _ _ _ _ _ _ _ _ Hw) as Hv1.
  pose proof (wk_table _ _ _ _ _ _ _ _ _ _ Hw) as Ht. destruct (set_entry_pages _ _ _ _ _ _ _ Hv1 Ht) as (Htok & Hm & _).
  assert (He : km_end km1 = km_end km) by (rewrite (wk_end _ _ _ _ _ _ _ _ _ _ Hw); apply taken_end).
  assert (Hqok : page_ok (km_end km) q).
  { destruct Hq as [Hq| ->]; [|done]. eapply kmem_inv_ok; [apply (vi_km _ _ _ _ _ Hv)|done]. }
  assert (Hdok : page_ok (km_end km) d) by (eapply vi_page; [exact Hv|left]). rewrite He in Htok.
  assert (Happ : ∀ r, r = t ∨ r = d → ¬ in_page r a).
  { intros r Hr Hin. eapply (pages_apart (km_end km) r q a a); [|done| |exact Hin|exact Ha|done];
      destruct Hr as [-> | ->]; auto. }
  unfold km2. cbn [km_mem set_km_mem]. rewrite (same_but_put64 (km_end km) t (n mod 512)) by (try done; intros r ->%list_elem_of_singleton; auto).
  apply (wk_mem _ _ _ _ _ _ _ _ _ _ Hw). intros r [->|[->|[]%not_elem_of_nil]%elem_of_cons]%elem_of_cons; auto.
Qed.

Lemma add_page : added all used d T n p km used' T' km2.
Proof.
  destruct (zeroed_inv _ _ _ _ _ Hv Hfree) as (Hv0 & Hpu & Hpok & Hs & Hz & Hpte0). fold p in Hv0, Hpu, Hpok, Hs, Hz, Hpte0.
  pose proof (wk_inv _ _ _ _ _ _ _ _ _ _ Hw) as Hv1. pose proof (wk_table _ _ _ _ _ _ _ _ _ _ Hw) as Ht.
  destruct (entry_range _ _ (Z.lor PTE_W PTE_U) Hpok) as (Her & Hep & _); [done|].
  assert (Hpt : p ∉ table_pages d T) by (intros Hin; by apply Hpu, (vi_used _ _ _ _ _ Hv)).
  assert (Hu : used' = p :: used ∨ used' = t :: p :: used) by (destruct (wk_used _ _ _ _ _ _ _ _ _ _ Hw) as [[-> _]|(_ & -> & _)]; auto).
  split.
  - by apply set_entry_inv.
  - destruct Hu as [-> | ->]; intros x Hx; repeat (first [exact Hx|right]).
  - destruct Hu as [-> | ->]; repeat constructor.
  - done.
  - destruct Hu as [-> | ->]; cbn; lia.
  - intros q Hq Hin. destruct (wk_used _ _ _ _ _ _ _ _ _ _ Hw) as [[_ ->]|(Htu & _ & -> & Hnone)]; [done|].
    rewrite table_pages_insert in Hin by done. apply elem_of_cons in Hin as [->|?]; [|done]. destruct Htu.
    destruct Hq as [Hq| ->]; [by right|left].
  - intros n' Hn'. unfold km2. rewrite (set_entry_pte all used' d T' km1 n t) by done. rewrite Hep.
    destruct (n' =? n); [done|]. by rewrite (wk_pte _ _ _ _ _ _ _ _ _ _ Hw), Hpte0.
  - intros a Ha. rewrite (add_page_mem p) by auto. by apply Hz.
  - intros q a Hq Hqt Ha. rewrite (add_page_mem q) by auto. apply Hs. intros r ->%list_elem_of_singleton Hin.
    assert (Hqok : page_ok (km_end km) q) by (eapply kmem_inv_ok; [apply (vi_km _ _ _ _ _ Hv)|done]).
    eapply (pages_apart (km_end km) p q a a); [done|done|by intros ->|done..].
  - unfold km2. cbn. rewrite (wk_end _ _ _ _ _ _ _ _ _ _ Hw). apply taken_end.
Qed.
End add_page.

(** The pages [ps] were added as pages [n0], [n0 + 1], ... *)
Record grown (all used : list Z) (d : Z) (T : gmap Z Z) (n0 : Z) (ps : list Z) (km : kmem) (used' : list Z) (T' : gmap Z Z) (km' : kmem) : Prop := {
  gr_inv : vm_inv all used' d T' km';
  gr_used : used ⊆ used';
  gr_in : ps ⊆ used';
  gr_nodup : NoDup ps;
  gr_new : ∀ p, p ∈ ps → p ∉ used;
  gr_tables : ∀ q, q ∈ used ∨ q ∈ ps → q ∈ table_pages d T' → q ∈ table_pages d T;
  gr_pte : ∀ n, 0 ≤ n < NUSER → pte_of (km_mem km') d n =
    match (if n0 <=? n then ps !! Z.to_nat (n - n0) else None) with
    | Some p => Some (entry p (Z.lor PTE_W PTE_U))
    | None => pte_of (km_mem km) d n
    end;
  gr_zero : ∀ p a, p ∈ ps → in_page p a → km_mem km' a = 0;
  gr_mem : ∀ q a, q ∈ used → q ∉ table_pages d T → in_page q a → km_mem km' a = km_mem km a;
  gr_end : km_end km' = km_end km
}.

Lemma grown_nil all used d T n0 km : vm_inv all used d T km → grown all used d T n0 [] km used T km.
Proof.
  intros Hv. split; try done.
  - intros p Hp. by apply not_elem_of_nil in Hp.
  - constructor.
  - intros p Hp. by apply not_elem_of_nil in Hp.
  - intros n Hn. by destruct (n0 <=? n); [rewrite lookup_nil|].
  - intros p a Hp. by apply not_elem_of_nil in Hp.
Qed.

Lemma grown_cons all used d T n0 p ps km used1 T1 km1 used' T' km' : vm_inv all used d T km →
  added all used d T n0 p km used1 T1 km1 → grown all used1 d T1 (n0 + 1) ps km1 used' T' km' →
  grown all used d T n0 (p :: ps) km used' T' km'.
Proof.
  intros Hv Ha Hg. pose proof (ad_in _ _ _ _ _ _ _ _ _ _ Ha) as Hp1. pose proof (ad_used _ _ _ _ _ _ _ _ _ _ Ha) as Hu1.
  pose proof (gr_used _ _ _ _ _ _ _ _ _ _ Hg) as Hu2.
  assert (Hpt : p ∉ table_pages d T).
  { intros Hin. by apply (ad_new _ _ _ _ _ _ _ _ _ _ Ha), (vi_used _ _ _ _ _ Hv). }
  assert (Hpt1 : p ∉ table_pages d T1) by (intros Hin; apply Hpt, (ad_tables _ _ _ _ _ _ _ _ _ _ Ha); auto).
  assert (Hqt1 : ∀ q, q ∈ used → q ∉ table_pages d T → q ∉ table_pages d T1).
  { intros q Hq Hn Hin. apply Hn, (ad_tables _ _ _ _ _ _ _ _ _ _ Ha); auto. }
  split.
  - apply Hg.
  - by etransitivity.
  - intros q [->|Hq]%elem_of_cons; [by apply Hu2|by apply (gr_in _ _ _ _ _ _ _ _ _ _ Hg)].
  - constructor; [|apply Hg]. intros Hin. by apply (gr_new _ _ _ _ _ _ _ _ _ _ Hg p Hin).
  - intros q [->|Hq]%elem_of_cons; [apply Ha|]. intros Hin. by apply (gr_new _ _ _ _ _ _ _ _ _ _ Hg q Hq), Hu1.
  - intros q Hq Hin. assert (Hin1 : q ∈ table_pages d T1).
    { apply (gr_tables _ _ _ _ _ _ _ _ _ _ Hg); [|done]. destruct Hq as [Hq|[->|Hq]%elem_of_cons]; auto. }
    destruct Hq as [Hq|[->|Hq]%elem_of_cons]; [apply (ad_tables _ _ _ _ _ _ _ _ _ _ Ha); auto|done|].
    destruct (gr_new _ _ _ _ _ _ _ _ _ _ Hg q Hq). by apply (vi_used _ _ _ _ _ (ad_inv _ _ _ _ _ _ _ _ _ _ Ha)).
  - intros n Hn. rewrite (gr_pte _ _ _ _ _ _ _ _ _ _ Hg), (ad_pte _ _ _ _ _ _ _ _ _ _ Ha) by done.
    destruct (Z.leb_spec (n0 + 1) n) as [Hle|Hgt].
    + rewrite (proj2 (Z.leb_le n0 n)) by lia. replace (Z.to_nat (n - n0)) with (S (Z.to_nat (n - (n0 + 1)))) by lia.
      cbn [lookup list_lookup]. by rewrite (proj2 (Z.eqb_neq n n0)) by lia.
    + destruct (Z.eqb_spec n n0) as [->|Hne]; [by rewrite Z.leb_refl, Z.sub_diag|].
      by rewrite (proj2 (Z.leb_gt n0 n)) by lia.
  - intros q a [->|Hq]%elem_of_cons Hin; [|by eapply (gr_zero _ _ _ _ _ _ _ _ _ _ Hg)].
    rewrite (gr_mem _ _ _ _ _ _ _ _ _ _ Hg p) by done. by apply (ad_zero _ _ _ _ _ _ _ _ _ _ Ha).
  - intros q a Hq Hqt Hin. rewrite (gr_mem _ _ _ _ _ _ _ _ _ _ Hg q) by auto. by apply (ad_mem _ _ _ _ _ _ _ _ _ _ Ha q).
  - by rewrite (gr_end _ _ _ _ _ _ _ _ _ _ Hg), (ad_end _ _ _ _ _ _ _ _ _ _ Ha).
Qed.

Lemma wp_allocuvm_loop L pr all d oldsz newsz cnt : ∀ n0 used T k E Q,
  vm_inv all used d T (k_kmem k) → at_mach L pr (k_mach k) → L_kmem ∉ L → 0 ≤ n0 → n0 + Z.of_nat cnt ≤ NUSER →
  (length used + 2 * cnt ≤ length all)%nat →
  (∀ n, n0 ≤ n < n0 + Z.of_nat cnt → pte_of (km_mem (k_kmem k)) d n = None) →
  (∀ ps used' T' k', grown all used d T n0 ps (k_kmem k) used' T' (k_kmem k') → length ps = cnt → kmem_step L pr k k' →
     Q (i32 newsz) k') →
  wp (allocuvm_loop d oldsz newsz (n0 * PGSIZE) cnt) E Q k.
Proof.
  induction cnt as [|cnt IH]; intros n0 used T k E Q Hv Hm HL H0 Hmax Hlen Hnone HQ; cbn [allocuvm_loop].
  { wp_steps. apply (HQ [] used T); [by apply grown_nil|done|by apply kmem_step_refl]. }
  assert (Hfree : km_freelist (k_kmem k) ≠ 0) by (eapply kmem_inv_free_page; [apply Hv|lia]).
  destruct (zeroed_inv _ _ _ _ _ Hv Hfree) as (Hv1 & Hpu & Hpok & _ & _ & Hpte).
  wp_steps. eapply wp_kalloc; [done..|]. intros m1 Hm1. rewrite (proj2 (Z.eqb_neq _ _) Hfree). wp_steps.
  apply wp_kmemset; [done|]. wp_steps.
  eapply (wp_mappages L pr all (km_freelist (k_kmem k) :: used) d T); [exact Hv1|exact Hm1|done|lia|cbn; lia| |done| |].
  { cbn [k_kmem set_kmem set_mach]. change (km_end (set_km_mem _ _)) with (km_end (taken (k_kmem k))). by rewrite taken_end. }
  { etransitivity; [apply Hpte; lia|]. apply Hnone. lia. }
  intros t used' T' km1 k2 Hw Hv2 Hk2 Hstep. wp_steps.
  pose proof (add_page all used d T n0 (k_kmem k) Hv Hfree t used' T' km1 Hw) as Ha. rewrite <-Hk2 in Ha.
  replace (n0 * PGSIZE + PGSIZE) with ((n0 + 1) * PGSIZE) by lia.
  apply (IH (n0 + 1) used' T'); [done|apply Hstep|done|lia|lia| | |].
  - pose proof (ad_len _ _ _ _ _ _ _ _ _ _ Ha). lia.
  - intros n Hnn. rewrite (ad_pte _ _ _ _ _ _ _ _ _ _ Ha) by lia. rewrite (proj2 (Z.eqb_neq n n0)) by lia. apply Hnone. lia.
  - intros ps used2 T2 k3 Hg Hl Hk3. apply (HQ (km_freelist (k_kmem k) :: ps) used2 T2); [by eapply grown_cons|cbn; lia|].
    eapply kmem_step_trans; [|exact Hk3]. eapply kmem_step_trans; [|exact Hstep]. split; [done|]. by eexists m1, _.
Qed.

(** A new directory. *)
Lemma fresh_dir all used km : kmem_inv all used km → km_freelist km ≠ 0 →
  vm_inv all (km_freelist km :: used) (km_freelist km) ∅ (zeroed (km_freelist km) km).
Proof.
  intros Hk Hfree. destruct (kmem_inv_take _ _ _ Hk) as [[? _]|(_ & Hnu & Hk')]; [done|]. split.
  - apply (kmem_inv_same all _ (taken km) _ [km_freelist km]); [done|clear; set_solver|]. apply same_but_memset.
  - intros i Hi. rewrite lookup_empty. unfold zeroed. cbn [km_mem set_km_mem]. by rewrite memset_page_zero by lia.
  - intros i t Ht. by rewrite lookup_empty in Ht.
  - intros x. by rewrite (list_elem_of_singleton x (km_freelist km)); intros ->; left.
  - apply NoDup_singleton.
Qed.

(** The example: the pages from 1MB to 1MB + 32KB, one of them an empty
    directory. *)
Definition demo_start : Z := KERNBASE + 0x100000.
Definition demo_end : Z := KERNBASE + 0x108000.
Lemma demo_space : ∃ k d, at_mach [] (Some 0%nat) (k_mach k) ∧ vm_inv (range_pages demo_start demo_end) [d] d ∅ (k_kmem k).
Proof.
  destruct (kinit1_inv demo_start demo_end (Some 0%nat) (kernel0 ∅)) as (k1 & _ & [[pr Hm] Hk]).
  - apply kernel0_at_mach.
  - done.
  - cbn. unfold demo_start, KERNBASE, PGSIZE. lia.
  - unfold demo_end, KERNBASE, PHYSTOP. lia.
  - cbn in Hm, Hk. exists (set_mach (k_mach (kernel0 ∅)) (set_kmem (zeroed (km_freelist (k_kmem k1)) (k_kmem k1)) k1)).
    eexists. split; [apply kernel0_at_mach|]. apply (fresh_dir _ []); [exact Hk|].
    eapply kmem_inv_free_page; [exact Hk|]. change (length (range_pages demo_start demo_end)) with 8%nat. cbn. lia.
Qed.

(** ** Properties *)

(** C14: growing a process from [oldsz] to [newsz] with enough free pages gives
    it one new page for each page number between the two sizes: writable, for
    the user, zero-filled, taken from the allocator, used for nothing else.
    The directory's other translations and the contents of all pages in use
    (other than its page tables) stay as they are. *)
Theorem allocuvm_grows (L : list lockid) (pr : option nat) (all used : list Z) (d : Z) (T : gmap Z Z) (oldsz newsz : Z) (k : kernel)
  (Hv : vm_inv all used d T (k_kmem k)) (Hm : at_mach L pr (k_mach k)) (HL : L_kmem ∉ L)
  (Hsz : 0 ≤ oldsz ≤ newsz) (Hmax : newsz ≤ NUSER * PGSIZE)
  (Hfree : (length used + 2 * npages (PGROUNDUP oldsz) newsz ≤ length all)%nat)
  (Hnone : ∀ n, PGROUNDUP oldsz ≤ n * PGSIZE < newsz → pte_of (km_mem (k_kmem k)) d n = None) :
  ∃ k' ps used' T', allocuvm d oldsz newsz k = Ok newsz k' ∧ length ps = npages (PGROUNDUP oldsz) newsz ∧
    vm_inv all used' d T' (k_kmem k') ∧ used ⊆ used' ∧ ps ⊆ used' ∧ NoDup ps ∧
    (∀ p, p ∈ ps → (p ∉ used) ∧ (p ∉ table_pages d T') ∧ ∀ a, in_page p a → km_mem (k_kmem k') a = 0) ∧
    (∀ i p, ps !! i = Some p → pte_of (km_mem (k_kmem k')) d (PGROUNDUP oldsz / PGSIZE + Z.of_nat i) = Some (entry p (Z.lor PTE_W PTE_U))) ∧
    (∀ n, 0 ≤ n < NUSER → n * PGSIZE < PGROUNDUP oldsz ∨ newsz ≤ n * PGSIZE →
       pte_of (km_mem (k_kmem k')) d n = pte_of (km_mem (k_kmem k)) d n) ∧
    (∀ q a, q ∈ used → q ∉ table_pages d T → in_page q a → km_mem (k_kmem k') a = km_mem (k_kmem k) a).
Proof.
  set (n0 := PGROUNDUP oldsz / PGSIZE).
  assert (Hn0 : PGROUNDUP oldsz = n0 * PGSIZE ∧ 0 ≤ n0 ≤ NUSER).
  { unfold n0. rewrite PGROUNDUP_val by (unfold NUSER, PGSIZE in *; lia). unfold NUSER, PGSIZE in *.
    Z.to_euclidean_division_equations. lia. }
  destruct Hn0 as [Hr Hn0]. rewrite Hr in *. unfold allocuvm. rewrite (proj2 (Z.ltb_ge newsz oldsz)) by lia. rewrite Hr.
  set (cnt := npages (n0 * PGSIZE) newsz) in *.
  assert (Hcnt : ∀ n, n0 ≤ n → n < n0 + Z.of_nat cnt ↔ n * PGSIZE < newsz).
  { intros n Hn. unfold cnt, npages, PGSIZE. Z.to_euclidean_division_equations. lia. }
  assert (Hcm : n0 + Z.of_nat cnt ≤ NUSER).
  { unfold cnt, npages, NUSER, PGSIZE in *. Z.to_euclidean_division_equations. lia. }
  destruct (wp_ok (allocuvm_loop d oldsz newsz (n0 * PGSIZE) cnt) (λ r k', r = i32 newsz ∧ ∃ ps used' T',
    grown all used d T n0 ps (k_kmem k) used' T' (k_kmem k') ∧ length ps = cnt) k) as (r & k' & Hrun & -> & ps & used' & T' & Hg & Hl).
  { eapply wp_allocuvm_loop; [done..|lia|done|lia| |].
    - intros n Hn. apply Hnone. split; [unfold PGSIZE; lia|]. apply Hcnt; lia.
    - intros ps used' T' k' Hg Hl _. split; [done|]. by exists ps, used', T'. }
  exists k', ps, used', T'. rewrite i32_small in Hrun by (unfold NUSER, PGSIZE in *; lia).
  pose proof (gr_new _ _ _ _ _ _ _ _ _ _ Hg) as Hnew.
  split_and!; [done|done|apply Hg|apply Hg|apply Hg|apply Hg| | | |apply Hg].
  - intros p Hp. split; [by apply Hnew|]. split; [|intros a; by apply (gr_zero _ _ _ _ _ _ _ _ _ _ Hg)].
    intros Hin. apply (Hnew p Hp), (vi_used _ _ _ _ _ Hv), (gr_tables _ _ _ _ _ _ _ _ _ _ Hg); auto.
  - intros i p Hp. pose proof (lookup_lt_Some _ _ _ Hp). rewrite (gr_pte _ _ _ _ _ _ _ _ _ _ Hg) by lia.
    rewrite (proj2 (Z.leb_le _ _)) by lia. replace (Z.to_nat (n0 + Z.of_nat i - n0)) with i by lia. by rewrite Hp.
  - intros n Hn Hout. rewrite (gr_pte _ _ _ _ _ _ _ _ _ _ Hg) by done. destruct (Z.leb_spec n0 n) as [Hle|]; [|done].
    rewrite lookup_ge_None_2; [done|]. destruct (decide (n < n0 + Z.of_nat cnt)) as [Hlt|]; [|lia].
    apply Hcnt in Hlt; [|done]. unfold PGSIZE in *. lia.
Qed.

Lemma allocuvm_grows_witness :
  ∃ k d k', allocuvm d 0 10000 k = Ok 10000 k' ∧
    ∃ ps, length ps = 3%nat ∧ NoDup ps ∧ ∀ p a, p ∈ ps → in_page p a → km_mem (k_kmem k') a = 0.
Proof.
  destruct demo_space as (k & d & Hm & Hv). exists k, d.
  destruct (allocuvm_grows [] (Some 0%nat) (range_pages demo_start demo_end) [d] d ∅ 0 10000 k)
    as (k' & ps & used' & T' & Hr & Hl & _ & _ & _ & Hnd & Hz & _).
  - exact Hv.
  - exact Hm.
  - apply not_elem_of_nil.
  - lia.
  - unfold NUSER, PGSIZE. lia.
  - vm_compute. lia.
  - intros n Hn. change (PGROUNDUP 0) with 0 in Hn. unfold PGSIZE in Hn.
    rewrite (pte_of_table _ _ _ _ _ _ Hv), lookup_empty by (unfold NUSER; lia). reflexivity.
  - exists k'. split; [exact Hr|]. exists ps. split; [exact Hl|]. split; [exact Hnd|]. intros p a Hp. by apply Hz.
Defined.
