(* ===== verification/Footprint.v ===== *)
(** * Footprint: what file system calls, memory management and output leave alone

    [InertC f] says that the part [f] of the kernel's globals depends neither
    on what [Inert] excludes nor on the log, the inode cache, the pipes or the
    console, [InertS f] that it does not depend on the memory either.  The file
    descriptors of the processes and the table of open files are such parts,
    and the memory is one of the first kind.  [DevKeeps] is what a device driver
    promises. *)

From stdpp Require Import prelude functions gmap strings.
From S2P Require Import Prelude Types Ring Spinlock Sched Cstr Ide Bio Block Frame Log Fs FsInode Kalloc Pipe File Cprintf Intr Console Cpuid Vm.
Open Scope Z_scope.

Class InertC {B} (f : kernel → B) : Prop := {
  inertc :: InertF f;
  inert_setcons : ∀ x k, f (set_cons x k) = f k;
  inert_setpipes : ∀ x k, f (set_pipes x k) = f k
}.
Class InertS {B} (f : kernel → B) : Prop := {
  inerts :: InertC f;
  inert_setkm : ∀ x k, f (set_kmem x k) = f k
}.
#[export] Hint Extern 1 (InertC _) => typeclasses eauto : keeps.
#[export] Hint Extern 1 (InertS _) => typeclasses eauto : keeps.

(** The open files of the processes. *)
Definition ofiles (k : kernel) : list (list (option nat)) := p_ofile <$> pt_proc (k_pt k).

Lemma images_proj {C} (g : proc → C) t t' : (∀ p, g (image p) = g p) → same_images t t' → g <$> pt_proc t = g <$> pt_proc t'.
Proof.
  intros Hg [Heq _]. apply (f_equal (fmap g)) in Heq. rewrite <-!list_fmap_compose in Heq.
  transitivity ((g ∘ image) <$> pt_proc t); [|rewrite Heq]; apply list_fmap_ext; intros; cbn; by rewrite Hg.
Qed.

#[global] Instance inerts_ofiles : InertS ofiles.
Proof. repeat split; try done. intros t k Ht. by apply (images_proj p_ofile). Qed.
#[global] Instance inerts_ft : InertS k_ft.
Proof. by repeat split. Qed.
#[global] Instance inertc_kmem : InertC k_kmem.
Proof. by repeat split. Qed.

(** ** Memory and output *)

Section memory.
Context {B : Type} (f : kernel → B) `{!InertS f}.

Lemma skeeps_updkm g : keeps f (updkm g).
Proof. apply keeps_modify. intros. apply inert_setkm. Qed.
#[local] Hint Resolve skeeps_updkm : keeps.
Lemma skeeps_kalloc : keeps f kalloc.
Proof. unfold kalloc, getkm. keeps_tac. Qed.
Lemma skeeps_kfree v : keeps f (kfree v).
Proof. unfold kfree, getkm. keeps_tac. Qed.
End memory.
Section output.
Context {B : Type} (f : kernel → B) `{!InertC f}.

Lemma skeeps_updcons g : keeps f (updcons g).
Proof. apply keeps_modify. intros. apply inert_setcons. Qed.
#[local] Hint Resolve skeeps_updcons : keeps.
Lemma skeeps_consputc c : keeps f (consputc c).
Proof. unfold consputc, cgaputc, uartputc, getcons. keeps_tac. Qed.
#[local] Hint Resolve skeeps_consputc : keeps.
Lemma skeeps_printint x b s : keeps f (printint x b s).
Proof. unfold printint. keeps_tac. Qed.
Lemma skeeps_printptr_loop n : ∀ x, keeps f (printptr_loop x n).
Proof. induction n; intros x; cbn [printptr_loop]; keeps_tac. Qed.
#[local] Hint Resolve skeeps_printint skeeps_printptr_loop : keeps.
Lemma skeeps_printptr x : keeps f (printptr x).
Proof. unfold printptr. keeps_tac. Qed.
#[local] Hint Resolve skeeps_printptr : keeps.
Lemma skeeps_cprintf_loop n : ∀ fmt ap, (length fmt ≤ n)%nat → keeps f (cprintf_loop fmt ap).
Proof.
  induction n as [|n IH]; intros [|c fmt] ap Hn; cbn [cprintf_loop]; cbn in Hn; try (apply keeps_ret); [lia|].
  assert (Hr : ∀ l ap, (length l ≤ length fmt)%nat → keeps f (cprintf_loop l ap)) by (intros; apply IH; lia).
  destruct (negb (c =? 37)); [keeps_tac; by apply Hr|]. destruct fmt as [|d fmt]; [apply keeps_ret|]. cbn in Hn, Hr.
  assert (Hr' : ∀ ap, keeps f (cprintf_loop fmt ap)) by (intros; apply Hr; lia). clear IH Hr.
  unfold va_int, va_ptr, va_str. keeps_tac.
Qed.
Lemma skeeps_cprintf fmt ap : keeps f (cprintf fmt ap).
Proof.
  assert (Hl : ∀ l, keeps f (cprintf_loop l ap)) by (intros; by eapply skeeps_cprintf_loop).
  unfold cprintf, getcons. keeps_tac.
Qed.
End output.
#[export] Hint Resolve skeeps_updkm skeeps_updcons skeeps_kalloc skeeps_kfree skeeps_consputc skeeps_cprintf : keeps.

(** ** The file system *)

(** What the drivers in the switch promise: they leave [f] alone. *)
Class DevKeeps {B} (f : kernel → B) (D : Devsw) : Prop := {
  dev_read_keeps : ∀ major g, dev_read major = Some g → ∀ i n, keeps f (g i n);
  dev_write_keeps : ∀ major g, dev_write major = Some g → ∀ i l n, keeps f (g i l n)
}.

Section inodes.
Context {B : Type} (f : kernel → B) `{!InertF f}.

#[local] Hint Resolve fkeeps_updinode fkeeps_setaddr fkeeps_getaddr fkeeps_iupdate fkeeps_itrunc : keeps.
Lemma fkeeps_idup i : keeps f (idup i).
Proof. unfold idup. keeps_tac. Qed.
Lemma fkeeps_iget dev inum : keeps f (iget dev inum).
Proof. unfold iget. keeps_tac. Qed.
#[local] Hint Resolve fkeeps_iget : keeps.
Lemma fkeeps_ialloc dev type : keeps f (ialloc dev type).
Proof.
  unfold ialloc. assert (Hl : ∀ l, keeps f (ialloc_loop dev type l)) by (induction l; cbn [ialloc_loop]; keeps_tac).
  keeps_tac.
Qed.
Lemma fkeeps_ilock_wait i n : keeps f (ilock_wait i n).
Proof. induction n; cbn [ilock_wait]; keeps_tac. Qed.
#[local] Hint Resolve fkeeps_ilock_wait : keeps.
Lemma fkeeps_ilock i : keeps f (ilock i).
Proof. unfold ilock. keeps_tac. Qed.
Lemma fkeeps_iunlock i : keeps f (iunlock i).
Proof. unfold iunlock. keeps_tac. Qed.
#[local] Hint Resolve fkeeps_ilock fkeeps_iunlock : keeps.
Lemma fkeeps_iunlockput i : keeps f (iunlockput i).
Proof. unfold iunlockput. keeps_tac. Qed.
Lemma fkeeps_bmap i n : keeps f (bmap i n).
Proof. unfold bmap. keeps_tac. Qed.
Lemma fkeeps_stati i : keeps f (stati i).
Proof. unfold stati. keeps_tac. Qed.
End inodes.
#[export] Hint Resolve fkeeps_updinode fkeeps_iupdate fkeeps_idup fkeeps_iget fkeeps_ialloc fkeeps_ilock fkeeps_iunlock
  fkeeps_iunlockput fkeeps_bmap fkeeps_stati : keeps.

Section files.
Context {B : Type} (f : kernel → B) `{!InertF f} `{D : Devsw} `{!DevKeeps f D}.

Lemma dev_lookup_some {A} (sw : Z → option A) major g : dev_lookup sw major = Some g → sw major = Some g.
Proof. unfold dev_lookup. destruct (_ || _); [done|]. done. Qed.

Lemma fkeeps_readi i off n : keeps f (readi i off n).
Proof.
  unfold readi. apply keeps_bind; [keeps_tac|]. intros ip. destruct (i_type ip =? T_DEV).
  - destruct (dev_lookup dev_read (i_major ip)) eqn:E; [|keeps_tac]. apply dev_lookup_some in E. by eapply dev_read_keeps.
  - assert (Hl : ∀ n0 m off tot acc, keeps f (readi_loop i off n0 tot acc m)).
    { intros n0. induction m; intros; cbn [readi_loop]; keeps_tac. }
    keeps_tac.
Qed.
Lemma fkeeps_writei i src off n : keeps f (writei i src off n).
Proof.
  unfold writei. apply keeps_bind; [keeps_tac|]. intros ip. destruct (i_type ip =? T_DEV).
  - destruct (dev_lookup dev_write (i_major ip)) eqn:E; [|keeps_tac]. apply dev_lookup_some in E. by eapply dev_write_keeps.
  - assert (Hl : ∀ m off tot, keeps f (writei_loop i src off n tot m)).
    { induction m; intros; cbn [writei_loop]; keeps_tac. }
    keeps_tac.
Qed.
#[local] Hint Resolve fkeeps_readi fkeeps_writei : keeps.
Lemma fkeeps_dirlookup dp name : keeps f (dirlookup dp name).
Proof.
  unfold dirlookup. assert (Hl : ∀ m off, keeps f (dirlookup_loop dp name off m)).
  { induction m; intros; cbn [dirlookup_loop]; keeps_tac. }
  keeps_tac.
Qed.
#[local] Hint Resolve fkeeps_dirlookup : keeps.
Lemma fkeeps_dirlink dp name inum : keeps f (dirlink dp name inum).
Proof.
  unfold dirlink. assert (Hl : ∀ m off, keeps f (dirlink_loop dp off m)).
  { induction m; intros; cbn [dirlink_loop]; keeps_tac. }
  keeps_tac.
Qed.
Lemma fkeeps_namex path par name : keeps f (namex path par name).
Proof.
  unfold namex. assert (Hl : ∀ m ip path name, keeps f (namex_loop ip path par name m)).
  { induction m; intros; cbn [namex_loop]; keeps_tac. }
  keeps_tac.
Qed.
#[local] Hint Resolve fkeeps_namex : keeps.
Lemma fkeeps_namei path : keeps f (namei path).
Proof. unfold namei. keeps_tac. Qed.
Lemma fkeeps_nameiparent path name : keeps f (nameiparent path name).
Proof. unfold nameiparent. keeps_tac. Qed.
End files.
#[export] Hint Resolve fkeeps_readi fkeeps_writei fkeeps_dirlookup fkeeps_dirlink fkeeps_namei fkeeps_nameiparent : keeps.
#[export] Hint Extern 1 (DevKeeps _ _) => typeclasses eauto : keeps.

(** ** Page tables *)

Section pages.
Context {B : Type} (f : kernel → B) `{!InertS f}.

Lemma skeeps_kread64 a : keeps f (kread64 a).
Proof. unfold kread64, getkm. keeps_tac. Qed.
Lemma skeeps_kwrite64 a v : keeps f (kwrite64 a v).
Proof. unfold kwrite64. keeps_tac. Qed.
Lemma skeeps_kmemset d c n : keeps f (kmemset d c n).
Proof. unfold kmemset. keeps_tac. Qed.
Lemma skeeps_kmemmove d s n : keeps f (kmemmove d s n).
Proof. unfold kmemmove. keeps_tac. Qed.
Lemma skeeps_kstore d l : keeps f (kstore d l).
Proof. unfold kstore. keeps_tac. Qed.
#[local] Hint Resolve skeeps_kread64 skeeps_kwrite64 skeeps_kmemset skeeps_kmemmove skeeps_kstore : keeps.
Lemma skeeps_walkpgdir d va b : keeps f (walkpgdir d va b).
Proof. unfold walkpgdir. keeps_tac. Qed.
#[local] Hint Resolve skeeps_walkpgdir : keeps.
Lemma skeeps_mappages d va sz pa perm : keeps f (mappages d va sz pa perm).
Proof.
  unfold mappages. cbv zeta. generalize (PGROUNDDOWN va) at 1. intros a. revert a pa.
  induction (Z.to_nat _); intros a pa; cbn [mappages_loop]; keeps_tac.
Qed.
#[local] Hint Resolve skeeps_mappages : keeps.
Lemma skeeps_deallocuvm d o n : keeps f (deallocuvm d o n).
Proof.
  unfold deallocuvm. assert (Hl : ∀ m a, keeps f (deallocuvm_loop d o a m)).
  { induction m; intros; cbn [deallocuvm_loop]; keeps_tac. }
  keeps_tac.
Qed.
#[local] Hint Resolve skeeps_deallocuvm : keeps.
Lemma skeeps_allocuvm d o n : keeps f (allocuvm d o n).
Proof.
  unfold allocuvm. assert (Hl : ∀ m a, keeps f (allocuvm_loop d o n a m)).
  { induction m; intros; cbn [allocuvm_loop]; keeps_tac. }
  keeps_tac.
Qed.
Lemma skeeps_freevm d : keeps f (freevm d).
Proof. unfold freevm, freevm_table. keeps_tac. Qed.
Lemma skeeps_clearpteu d va : keeps f (clearpteu d va).
Proof. unfold clearpteu. keeps_tac. Qed.
Lemma skeeps_copyout d va p n : keeps f (copyout d va p n).
Proof.
  unfold copyout. assert (Hl : ∀ m va p n, keeps f (copyout_loop d va p n m)).
  { induction m; intros; cbn [copyout_loop]; unfold uva2ka; keeps_tac. }
  keeps_tac.
Qed.
Lemma skeeps_setupkvm kv : keeps f (setupkvm kv).
Proof. unfold setupkvm. keeps_tac. Qed.
#[local] Hint Resolve skeeps_freevm skeeps_setupkvm : keeps.
Lemma skeeps_copyuvm kv d sz : keeps f (copyuvm kv d sz).
Proof.
  unfold copyuvm. assert (Hl : ∀ m d' i, keeps f (copyuvm_loop d d' i m)).
  { induction m; intros; cbn [copyuvm_loop]; keeps_tac. }
  keeps_tac.
Qed.
Lemma skeeps_loaduvm `{D : Devsw} `{!DevKeeps f D} d a ip off sz : keeps f (loaduvm d a ip off sz).
Proof.
  unfold loaduvm. assert (Hl : ∀ m i, keeps f (loaduvm_loop d a ip off sz i m)).
  { induction m; intros; cbn [loaduvm_loop]; keeps_tac. }
  keeps_tac.
Qed.
End pages.
#[export] Hint Resolve skeeps_kread64 skeeps_kwrite64 skeeps_kmemset skeeps_kstore skeeps_walkpgdir skeeps_allocuvm skeeps_deallocuvm
  skeeps_freevm skeeps_clearpteu skeeps_copyout skeeps_setupkvm skeeps_copyuvm skeeps_loaduvm : keeps.

(** ** Pipes and the drivers *)

Section drivers.
Context {B : Type} (f : kernel → B) `{!InertC f}.

Lemma skeeps_updpipe p g : keeps f (updpipe p g).
Proof. apply keeps_modify. intros. apply inert_setpipes. Qed.
Lemma skeeps_getpipe p : keeps f (getpipe p).
Proof. unfold getpipe. keeps_tac. Qed.
#[local] Hint Resolve skeeps_updpipe skeeps_getpipe : keeps.
Lemma skeeps_killed : keeps f killed.
Proof. unfold killed. keeps_tac. Qed.
#[local] Hint Resolve skeeps_killed : keeps.
Lemma skeeps_pipewrite p l n : keeps f (pipewrite p l n).
Proof.
  unfold pipewrite. assert (Hl : ∀ m i, keeps f (pipewrite_loop p l n i m)).
  { induction m; intros; cbn [pipewrite_loop]; unfold pipe_put; keeps_tac. }
  keeps_tac.
Qed.
Lemma skeeps_piperead p n : keeps f (piperead p n).
Proof.
  unfold piperead, piperead_rest. assert (Hw : ∀ m, keeps f (piperead_wait p m)).
  { induction m; intros; cbn [piperead_wait]; keeps_tac. }
  assert (Hl : ∀ m acc, keeps f (piperead_copy p acc m)).
  { induction m; intros; cbn [piperead_copy]; keeps_tac. }
  keeps_tac.
Qed.
Lemma skeeps_consoleread i n : keeps f (consoleread i n).
Proof.
  unfold consoleread, getcons. assert (Hl : ∀ m i t n acc, keeps f (consoleread_loop i t n acc m)).
  { induction m; intros; cbn [consoleread_loop]; unfold getcons; keeps_tac. }
  keeps_tac.
Qed.
Lemma skeeps_consolewrite i l n : keeps f (consolewrite i l n).
Proof. unfold consolewrite. keeps_tac. Qed.
Lemma skeeps_cpuid_read v i n : keeps f (cpuid_read v i n).
Proof. unfold cpuid_read, cpu_printfeatures, print_feature. keeps_tac. Qed.
Lemma skeeps_cpuid_write i l n : keeps f (cpuid_write i l n).
Proof. unfold cpuid_write. keeps_tac. Qed.

#[global] Instance devsw_keeps v : DevKeeps f (devsw v).
Proof.
  split; cbn; intros major g; repeat case_match; intros [= <-];
    eauto using skeeps_consoleread, skeeps_consolewrite, skeeps_cpuid_read, skeeps_cpuid_write.
Qed.
End drivers.
Lemma skeeps_pipeclose {B} (f : kernel → B) `{!InertS f} p w : keeps f (pipeclose p w).
Proof.
  pose proof (skeeps_updpipe f). pose proof (skeeps_getpipe f). unfold pipeclose, kfree_pipe. keeps_tac.
  apply keeps_modify. intros. apply inert_setpipes.
Qed.
#[export] Hint Resolve skeeps_killed skeeps_pipeclose skeeps_pipewrite skeeps_piperead : keeps.
