(* ===== verification/Space.v ===== *)
(** * Space: an address space in the making

    What the functions of [Vm] do to memory while they build a new address space
    and take it down again, on every path, failures included.  [mlp] is a
    logic for the memory alone: it speaks of the runs that return.  Each page
    that matters has a role: a page in use before ([O_old]), the new directory
    ([O_dir]), its page tables ([O_table]), the pages that they map ([O_user]),
    and pages held by running code ([O_loose]).  As a page has one role, no
    page is mapped twice or freed twice, and the old pages are neither freed
    nor written. *)

From stdpp Require Import prelude functions gmap strings.
From S2P Require Import Prelude Types Ring Spinlock Sched Cstr Ide Bio Block Frame Log Fs FsInode Kalloc Pipe File Cprintf Console Cpuid Vm VmPages Footprint.
Open Scope Z_scope.

(** ** Runs, seen from the memory *)

Definition mlp {A} (m : K A) (Q : A → kmem → Prop) (km : kmem) : Prop :=
  ∀ k a k', k_kmem k = km → m k = Ok a k' → Q a (k_kmem k').

Lemma mlp_ret {A} (a : A) (Q : A → kmem → Prop) km : Q a km → mlp (mret a) Q km.
Proof. intros HQ k b k' <-. unfold mret, M_ret. by intros [= <- <-]. Qed.
Lemma mlp_bind {A B} (m : K A) (f : A → K B) Q km : mlp m (λ a, mlp (f a) Q) km → mlp (m ≫= f) Q km.
Proof. intros Hm k b k' Hk H. inv_ok H as a k1 H1. by eapply Hm. Qed.
Lemma mlp_mono {A} (m : K A) (Q Q' : A → kmem → Prop) km : mlp m Q km → (∀ a x, Q a x → Q' a x) → mlp m Q' km.
Proof. intros Hm HQ k a k' Hk H. by eapply HQ, Hm. Qed.
Lemma mlp_keep {A} (m : K A) (Q : A → kmem → Prop) km : keeps k_kmem m → (∀ a, Q a km) → mlp m Q km.
Proof. intros Hm HQ k a k' <- H. rewrite (keeps_ok _ _ _ _ _ Hm H). apply HQ. Qed.
Lemma mlp_keep_bind {A B} (m : K A) (f : A → K B) Q km : keeps k_kmem m → (∀ a, mlp (f a) Q km) → mlp (m ≫= f) Q km.
Proof. intros Hm Hf. by apply mlp_bind, mlp_keep. Qed.
Lemma mlp_panic {A} msg (Q : A → kmem → Prop) km : mlp (panic msg) Q km.
Proof. by intros k a k' _. Qed.
Lemma mlp_fault {A} (Q : A → kmem → Prop) km : mlp (need None) Q km.
Proof. by intros k a k' _. Qed.
Lemma mlp_spin {A} (Q : A → kmem → Prop) km : mlp spin Q km.
Proof. by intros k a k' _. Qed.
Lemma mlp_upd f (Q : unit → kmem → Prop) km : Q tt (f km) → mlp (updkm f) Q km.
Proof. intros HQ k a k' <-. unfold updkm, modify. by intros [= <- <-]. Qed.
Lemma mlp_getkm (Q : kmem → kmem → Prop) km : Q km km → mlp getkm Q km.
Proof. intros HQ k a k' <-. unfold getkm, gets. by intros [= <- <-]. Qed.
Lemma mlp_get_bind {B} (f : kmem → K B) Q km : mlp (f km) Q km → mlp (getkm ≫= f) Q km.
Proof. intros. by apply mlp_bind, mlp_getkm. Qed.
Lemma mlp_upd_bind {B} g (f : unit → K B) Q km : mlp (f tt) Q (g km) → mlp (updkm g ≫= f) Q km.
Proof. intros. by apply mlp_bind, mlp_upd. Qed.

Lemma keeps_when_acquire (b : bool) lk : keeps k_kmem (when b (acquire lk)).
Proof. keeps_tac. Qed.
Lemma keeps_when_release (b : bool) lk : keeps k_kmem (when b (release lk)).
Proof. keeps_tac. Qed.

Lemma mlp_kalloc (Q : Z → kmem → Prop) km : Q (km_freelist km) (taken km) → mlp kalloc Q km.
Proof.
  intros HQ. unfold kalloc. apply mlp_get_bind, mlp_keep_bind; [apply keeps_when_acquire|]. intros _. apply mlp_get_bind. cbv zeta.
  unfold taken in HQ. destruct (km_freelist km =? 0); cbn [negb when].
  - apply mlp_bind, mlp_ret, mlp_get_bind, mlp_keep_bind; [apply keeps_when_release|]. intros _. by apply mlp_ret.
  - apply mlp_upd_bind, mlp_get_bind, mlp_keep_bind; [apply keeps_when_release|]. intros _. by apply mlp_ret.
Qed.
Lemma mlp_kfree v (Q : unit → kmem → Prop) km : Q tt (freed v km) → mlp (kfree v) Q km.
Proof.
  intros HQ. unfold kfree. apply mlp_get_bind. destruct (_ || _); [apply mlp_panic|].
  apply mlp_upd_bind, mlp_get_bind, mlp_keep_bind; [apply keeps_when_acquire|]. intros _. apply mlp_upd_bind, mlp_upd_bind, mlp_get_bind.
  apply mlp_keep; [apply keeps_when_release|]. by intros [].
Qed.
Lemma mlp_read a (Q : Z → kmem → Prop) km : (KERNBASE ≤ a → Q (mget64 (km_mem km) a) km) → mlp (kread64 a) Q km.
Proof.
  intros HQ. unfold kread64. destruct (Z.ltb_spec a KERNBASE); [apply mlp_fault|]. destruct (2 ^ 64 <=? a); [apply mlp_fault|].
  apply mlp_get_bind, mlp_ret. by apply HQ.
Qed.
Lemma mlp_write a v (Q : unit → kmem → Prop) km : Q tt (set_km_mem (mput64 (km_mem km) a v) km) → mlp (kwrite64 a v) Q km.
Proof. intros HQ. unfold kwrite64. by apply mlp_upd. Qed.
Lemma mlp_memset a c n (Q : unit → kmem → Prop) km : (a ≠ 0 → Q tt (set_km_mem (memset (km_mem km) a c n) km)) → mlp (kmemset a c n) Q km.
Proof. intros HQ. unfold kmemset. destruct (Z.eqb_spec a 0); [apply mlp_fault|]. by apply mlp_upd, HQ. Qed.
Lemma mlp_store a l (Q : unit → kmem → Prop) km : Q tt (set_km_mem (mput_bytes (km_mem km) a l) km) → mlp (kstore a l) Q km.
Proof. intros HQ. unfold kstore. destruct (a =? 0); [apply mlp_fault|]. by apply mlp_upd. Qed.
Lemma mlp_when (b : bool) m (Q : unit → kmem → Prop) km : (b = true → mlp m Q km) → (b = false → Q tt km) → mlp (when b m) Q km.
Proof. intros H1 H2. destruct b; [by apply H1|by apply mlp_ret, H2]. Qed.

(** ** Roles of pages *)

Inductive owner := O_old | O_loose | O_dir | O_table (i : Z) | O_user (t j : Z).

(** Entry [x] is one for page [p]. *)
Definition points (x p : Z) : Prop := 0 ≤ x < 2 ^ 64 ∧ has x PTE_P = true ∧ PTE_ADDR x = v2p p.
(** An entry of which the page has role [r], or an empty one. *)
Definition slot_ok (R : gmap Z owner) (r : owner) (x : Z) : Prop := x = 0 ∨ ∃ p, R !! p = Some r ∧ points x p.

Section space.
Context (all old : list Z) (m0 : mem) (e0 : Z) (He0 : KERNBASE + PGSIZE ≤ e0).
Implicit Types R : gmap Z owner.

(** The pages with roles are in use, and the old ones are as they were. *)
Record base (R : gmap Z owner) (used : list Z) (km : kmem) : Prop := {
  bs_km : kmem_inv all used km;
  bs_end : km_end km = e0;
  bs_used : ∀ p r, R !! p = Some r → p ∈ used;
  bs_old : ∀ p, p ∈ old → R !! p = Some O_old;
  bs_mem : ∀ p a, R !! p = Some O_old → in_page p a → km_mem km a = m0 a
}.
(** The entries of directory [d] and of its page tables, as far as [V] goes. *)
Record space (d : Z) (V : Z → Z → Prop) (R : gmap Z owner) (used : list Z) (km : kmem) : Prop := {
  sp_base : base R used km;
  sp_dir : R !! d = Some O_dir;
  sp_tables : ∀ i, 0 ≤ i < 510 → V d i → slot_ok R (O_table i) (mget64 (km_mem km) (d + 8 * i));
  sp_back : ∀ i, 510 ≤ i < 512 → ∃ q, page_ok e0 q ∧ mget64 (km_mem km) (d + 8 * i) = Z.lor q PTE_P;
  sp_users : ∀ t i j, R !! t = Some (O_table i) → 0 ≤ j < 512 → V t j → slot_ok R (O_user t j) (mget64 (km_mem km) (t + 8 * j))
}.

Lemma base_page R used km p r : base R used km → R !! p = Some r → page_ok e0 p.
Proof. intros Hb Hp. rewrite <-(bs_end _ _ _ Hb). eapply kmem_inv_ok; [apply Hb|]. by eapply bs_used. Qed.
Lemma base_all R used km p : base R used km → p ∈ all → page_ok e0 p.
Proof. intros Hb Hp. destruct (bs_km _ _ _ Hb) as (l & _ & _ & _ & Hall). rewrite (bs_end _ _ _ Hb) in Hall. rewrite Forall_forall in Hall. by apply Hall. Qed.
Lemma base_in R used km p r : base R used km → R !! p = Some r → p ∈ all.
Proof.
  intros Hb Hp. destruct (bs_km _ _ _ Hb) as (l & _ & Hperm & _). rewrite <-Hperm. apply elem_of_app. right. by eapply bs_used.
Qed.

(** Words of a page on which the memory does not change. *)
Lemma word_same p i (m m' : mem) : page_ok e0 p → 0 ≤ i < 512 → (∀ a, in_page p a → m' a = m a) → mget64 m' (p + 8 * i) = mget64 m (p + 8 * i).
Proof.
  intros Hp Hi Hm. apply mget64_ext. intros a Ha. apply Hm. destruct (word_in_page e0 p i Hp Hi) as [H8 Hpg]. unfold in_page, PGSIZE in *.
  destruct Hp as (Hmod & _). unfold PGSIZE in Hmod. lia.
Qed.

(** The memory changes on pages that are in use and not old. *)
Lemma base_write R used km m' : base R used km →
  (∀ q a, q ∈ all → q ∉ used ∨ R !! q = Some O_old → in_page q a → m' a = km_mem km a) → base R used (set_km_mem m' km).
Proof.
  intros [Hk He Hu Ho Hm] Hw. split; [|done|done|done|].
  - destruct Hk as (l & Hc & Hp & Hnd & Hall). exists l. split; [|done]. cbn. eapply chain_ext; [|exact Hc]. intros q x Hq Hx.
    apply (Hw q); [rewrite <-Hp; apply elem_of_app; by left| |unfold in_page, PGSIZE; lia]. left. intros Hin. rewrite <-Hp in Hnd.
    apply NoDup_app in Hnd as (_ & Hd & _). by apply (Hd q).
  - intros p a Hp Ha. cbn. rewrite (Hw p); [by eapply Hm| |by right|done]. eapply base_in; [|exact Hp]. by split.
Qed.
(** Roles change, but not those of the old pages. *)
Lemma base_roles R R' used km : base R used km → (∀ p r, R' !! p = Some r → p ∈ used) → (∀ p, R' !! p = Some O_old ↔ R !! p = Some O_old) → base R' used km.
Proof.
  intros [Hk He Hu Ho Hm] Hu' Hold. split; [done|done|done| |].
  - intros p Hp. by apply Hold, Ho.
  - intros p a Hp. by apply Hm, Hold.
Qed.
Lemma base_take R used km : base R used km → km_freelist km ≠ 0 →
  R !! km_freelist km = None ∧ base (<[km_freelist km := O_loose]> R) (km_freelist km :: used) (taken km).
Proof.
  intros [Hk He Hu Ho Hm] Hf. destruct (kmem_inv_take _ _ _ Hk) as [[? _]|(Hin & Hn & Hk')]; [done|].
  assert (HR : R !! km_freelist km = None) by (apply eq_None_not_Some; intros [r Hr]; by eapply Hn, Hu). split; [done|]. split.
  - done.
  - by rewrite taken_end.
  - intros p r [[<- _]|[_ Hp]]%lookup_insert_Some; [left|right; by eapply Hu].
  - intros p Hp. rewrite lookup_insert_ne; [by apply Ho|]. intros <-. apply Ho in Hp. congruence.
  - intros p a [[_ ?]|[_ Hp]]%lookup_insert_Some Ha; [done|]. rewrite taken_mem. by eapply Hm.
Qed.
Lemma base_free R used km p r : base R used km → R !! p = Some r → r ≠ O_old → ∃ used', base (delete p R) used' (freed p km).
Proof.
  intros Hb Hp Hr. pose proof Hb as [Hk He Hu Ho Hm]. pose proof (Hu _ _ Hp) as Hin. apply elem_of_Permutation in Hin as [used' Hperm].
  exists used'. split.
  - pose proof Hk as (l & _ & Hl & Hnd & Hall). eapply (kmem_inv_free all all used used'); [done|done|done|by eapply base_in|].
    intros l' Hl'. by rewrite <-Hl', Hperm, Permutation_middle.
  - done.
  - intros q r' [Hne Hq]%lookup_delete_Some. apply Hu in Hq. rewrite Hperm in Hq. by apply elem_of_cons in Hq as [->|].
  - intros q Hq. rewrite lookup_delete_ne; [by apply Ho|]. intros <-. apply Ho in Hq. congruence.
  - intros q a [Hne Hq]%lookup_delete_Some Ha. rewrite (freed_other e0 p km q); [by eapply Hm|by eapply base_page..|done|done].
Qed.

(** ** Steps of an address space *)

Lemma space_mono d (V V' : Z → Z → Prop) R used km : (∀ q j, V' q j → V q j) → space d V R used km → space d V' R used km.
Proof. intros HV [Hb Hd Ht Hk Hu]. split; eauto. Qed.
Lemma slot_mono R R' r x : slot_ok R r x → (∀ q, R !! q = Some r → R' !! q = Some r) → slot_ok R' r x.
Proof. intros [->|(p & Hp & Hx)] HR; [by left|]. right. exists p. auto. Qed.

(** Roles other than [O_loose] stay, no table is new, and the directory and the
    tables keep their contents. *)
Lemma space_keep d V R R' used used' km km' : space d V R used km → base R' used' km' →
  (∀ q r, R !! q = Some r → r ≠ O_loose → R' !! q = Some r) →
  (∀ q i, R' !! q = Some (O_table i) → R !! q = Some (O_table i)) →
  (∀ q a, R !! q = Some O_dir ∨ (∃ i, R !! q = Some (O_table i)) → in_page q a → km_mem km' a = km_mem km a) →
  space d V R' used' km'.
Proof.
  intros [Hb Hd Ht Hk Hu] Hb' HR HT Hm. pose proof (base_page _ _ _ _ _ Hb Hd) as Hdp. split; [done|by apply HR| | |].
  - intros i Hi HV. rewrite (word_same d i (km_mem km)) by (done || lia || eauto). eapply slot_mono; [by apply Ht|]. intros q Hq. by apply HR.
  - intros i Hi. rewrite (word_same d i (km_mem km)) by (done || lia || eauto). by apply Hk.
  - intros t i j Htab Hj HV. apply HT in Htab. pose proof (base_page _ _ _ _ _ Hb Htab). rewrite (word_same t j (km_mem km)) by (done || lia || eauto).
    eapply slot_mono; [by eapply Hu|]. intros q Hq. by apply HR.
Qed.

Lemma space_take d V R used km : space d V R used km → km_freelist km ≠ 0 →
  R !! km_freelist km = None ∧ space d V (<[km_freelist km := O_loose]> R) (km_freelist km :: used) (taken km).
Proof.
  intros Hs Hf. destruct (base_take _ _ _ (sp_base _ _ _ _ _ Hs) Hf) as [HR Hb]. split; [done|].
  eapply space_keep; [exact Hs|exact Hb| | |intros; by rewrite taken_mem].
  - intros q r Hq _. rewrite lookup_insert_ne; [done|]. congruence.
  - intros q i [[_ ?]|[_ ?]]%lookup_insert_Some; done.
Qed.

(** A page whose contents the owner may change. *)
Definition priv R (q : Z) : Prop := R !! q = Some O_loose ∨ ∃ t j, R !! q = Some (O_user t j).
Lemma space_write d V R used km m' : space d V R used km →
  (∀ q a, q ∈ all → ¬ priv R q → in_page q a → m' a = km_mem km a) → space d V R used (set_km_mem m' km).
Proof.
  intros Hs Hm. pose proof (sp_base _ _ _ _ _ Hs) as Hb. eapply space_keep; [exact Hs| |done|done|].
  - apply base_write; [done|]. intros q a Hq Hno. apply Hm; [done|]. intros [Hp|(t & j & Hp)]; (destruct Hno as [Hno|Hno]; [by eapply Hno, bs_used|congruence]).
  - intros q a Hq. apply Hm.
    + destruct Hq as [Hq|[i Hq]]; by eapply base_in.
    + intros [Hp|(t & j & Hp)]; destruct Hq as [Hq|[i Hq]]; congruence.
Qed.
Lemma space_write_page d V R used km p m' : space d V R used km → priv R p → same_but [p] (km_mem km) m' → space d V R used (set_km_mem m' km).
Proof.
  intros Hs Hp Hm. apply space_write; [done|]. intros q a Hq Hnp Ha. apply Hm. intros p' ->%list_elem_of_singleton Hin.
  pose proof (sp_base _ _ _ _ _ Hs) as Hb.
  assert (Hok : page_ok e0 p) by (destruct Hp as [Hp|(t & j & Hp)]; by eapply base_page).
  eapply (pages_apart e0 p q a a); [done|by eapply base_all|by intros ->|exact Hin|exact Ha|done].
Qed.
(** Physical page 0 is not one of the allocator's. *)
Lemma space_write_0 d V R used km m' : space d V R used km → same_but [KERNBASE] (km_mem km) m' → space d V R used (set_km_mem m' km).
Proof.
  intros Hs Hm. apply space_write; [done|]. intros q a Hq _ Ha. apply Hm. intros p' ->%list_elem_of_singleton Hin.
  pose proof (base_all _ _ _ _ (sp_base _ _ _ _ _ Hs) Hq) as (_ & Hle & _). unfold in_page in *. lia.
Qed.

Lemma space_free d V R used km p : space d V R used km → R !! p = Some O_loose → ∃ used', space d V (delete p R) used' (freed p km).
Proof.
  intros Hs Hp. pose proof (sp_base _ _ _ _ _ Hs) as Hb. destruct (base_free _ _ _ _ _ Hb Hp) as [used' Hb']; [done|]. exists used'.
  eapply space_keep; [exact Hs|exact Hb'| | |].
  - intros q r Hq Hr. rewrite lookup_delete_ne; [done|]. congruence.
  - by intros q i [_ ?]%lookup_delete_Some.
  - intros q a Hq Ha. apply (freed_other e0 p km q); [by apply (base_page _ _ _ _ _ Hb Hp)| | |done].
    + destruct Hq as [Hq|[i Hq]]; by apply (base_page _ _ _ _ _ Hb Hq).
    + intros ->. destruct Hq as [Hq|[i Hq]]; congruence.
Qed.
Lemma space_claim d V R used km p t j : space d V R used km → R !! p = Some O_loose → space d V (<[p := O_user t j]> R) used km.
Proof.
  intros Hs Hp. eapply space_keep; [exact Hs| | | |done].
  - eapply base_roles; [apply Hs| |].
    + intros q r [[<- _]|[_ Hq]]%lookup_insert_Some; eapply bs_used; [apply Hs|exact Hp|apply Hs|exact Hq].
    + intros q. rewrite lookup_insert_Some. split; [by intros [[_ ?]|[_ ?]]|]. intros Hq. right. split; [|done]. congruence.
  - intros q r Hq Hr. rewrite lookup_insert_ne; [done|]. congruence.
  - by intros q i [[_ ?]|[_ ?]]%lookup_insert_Some.
Qed.

(** Setting an entry. *)
Lemma put_word p q i j m x : page_ok e0 p → page_ok e0 q → 0 ≤ i < 512 → 0 ≤ j < 512 → p ≠ q ∨ i ≠ j →
  mget64 (mput64 m (p + 8 * i) x) (q + 8 * j) = mget64 m (q + 8 * j).
Proof.
  intros Hp Hq Hi Hj Hne. destruct (word_in_page e0 p i Hp Hi), (word_in_page e0 q j Hq Hj). apply mget64_put_ne; [done..|].
  by eapply (word_ne e0).
Qed.
Lemma base_put R used km p r i x : base R used km → R !! p = Some r → r ≠ O_old → 0 ≤ i < 512 →
  base R used (set_km_mem (mput64 (km_mem km) (p + 8 * i) x) km).
Proof.
  intros Hb Hp Hr Hi. pose proof (base_page _ _ _ _ _ Hb Hp) as Hpp. apply base_write; [done|]. intros q a Hq Hno Ha.
  apply (same_but_put64 e0 p i _ x Hpp Hi). intros p' ->%list_elem_of_singleton Hin.
  eapply (pages_apart e0 p q a a); [done|by eapply base_all| |exact Hin|exact Ha|done].
  intros ->. destruct Hno as [Hno|Hno]; [by eapply Hno, bs_used|congruence].
Qed.
(** All slots but one. *)
Definition but (t j : Z) (V : Z → Z → Prop) (q j' : Z) : Prop := V q j' ∧ ¬ (q = t ∧ j' = j).
Lemma space_set d V R used km t i j x : space d (but t j V) R used km → R !! t = Some (O_table i) → 0 ≤ j < 512 →
  slot_ok R (O_user t j) x → space d V R used (set_km_mem (mput64 (km_mem km) (t + 8 * j) x) km).
Proof.
  intros [Hb Hd Ht Hk Hu] Htab Hj Hok.
  assert (Hx : 0 ≤ x < 2 ^ 64) by (destruct Hok as [->|(p & _ & Hx & _)]; [done|exact Hx]). pose proof (base_page _ _ _ _ _ Hb Hd) as Hdp. pose proof (base_page _ _ _ _ _ Hb Htab) as Htp.
  assert (Hne : t ≠ d) by congruence. split; [by eapply base_put|done| | |].
  - intros i' Hi' HV. cbn [km_mem set_km_mem]. rewrite put_word by (done || lia || auto). apply Ht; [done|]. split; [done|]. by intros [? _].
  - intros i' Hi'. cbn [km_mem set_km_mem]. rewrite put_word by (done || lia || auto). by apply Hk.
  - intros t' i' j' Ht' Hj' HV. cbn [km_mem set_km_mem]. destruct (decide (t' = t ∧ j' = j)) as [[-> ->]|Hn]; [by rewrite mget_put64|].
    pose proof (base_page _ _ _ _ _ Hb Ht'). rewrite put_word; [by eapply Hu|done..|]. destruct (decide (t = t')); [|by left]. right. naive_solver.
Qed.
(** A zeroed page becomes a page table. *)
Lemma space_link d V R used km t i x : space d V R used km → R !! t = Some O_loose → (∀ j, 0 ≤ j < 512 → mget64 (km_mem km) (t + 8 * j) = 0) →
  0 ≤ i < 510 → points x t → space d V (<[t := O_table i]> R) used (set_km_mem (mput64 (km_mem km) (d + 8 * i) x) km).
Proof.
  intros [Hb Hd Ht Hk Hu] Hloose Hz Hi Hpt. pose proof (proj1 Hpt) as Hx. pose proof (base_page _ _ _ _ _ Hb Hd) as Hdp. pose proof (base_page _ _ _ _ _ Hb Hloose) as Htp.
  assert (HR : ∀ q r, R !! q = Some r → r ≠ O_loose → <[t := O_table i]> R !! q = Some r) by (intros q r Hq Hr; rewrite lookup_insert_ne; [done|congruence]).
  split; [| by apply HR| | |].
  - eapply base_roles; [eapply base_put; [exact Hb|exact Hd|done|lia]| |].
    + intros q r [[<- _]|[_ Hq]]%lookup_insert_Some; by eapply bs_used.
    + intros q. rewrite lookup_insert_Some. split; [by intros [[_ ?]|[_ ?]]|]. intros Hq. right. split; [|done]. congruence.
  - intros i' Hi' HV. cbn [km_mem set_km_mem]. destruct (decide (i = i')) as [<-|Hne].
    + rewrite mget_put64 by done. right. exists t. by rewrite lookup_insert_eq.
    + rewrite put_word by (done || lia || auto). eapply slot_mono; [by apply Ht|]. intros q Hq. by apply HR.
  - intros i' Hi'. cbn [km_mem set_km_mem]. rewrite put_word by (done || lia). by apply Hk.
  - intros t' i' j [[<- _]|[Hne Ht']]%lookup_insert_Some Hj HV; cbn [km_mem set_km_mem].
    + rewrite put_word; [left; by apply Hz|done|done|lia|done|]. left. congruence.
    + pose proof (base_page _ _ _ _ _ Hb Ht'). rewrite put_word; [|done|done|lia|done|left; congruence].
      eapply slot_mono; [by eapply Hu|]. intros q Hq. by apply HR.
Qed.
(** A mapped page, or a page table, is taken out of the roles; its entry is not
    valid any more. *)
Lemma base_loosen R used km p r : base R used km → R !! p = Some r → r ≠ O_old → base (<[p := O_loose]> R) used km.
Proof.
  intros Hb Hp Hr. eapply base_roles; [exact Hb| |].
  - intros q r' [[<- _]|[_ Hq]]%lookup_insert_Some; by eapply bs_used.
  - intros q. rewrite lookup_insert_Some. split; [by intros [[_ ?]|[_ ?]]|]. intros Hq. right. split; [|done]. congruence.
Qed.
Lemma space_unmap d V R used km p t j : space d V R used km → R !! p = Some (O_user t j) → space d (but t j V) (<[p := O_loose]> R) used km.
Proof.
  intros [Hb Hd Ht Hk Hu] Hp.
  assert (HR : ∀ q r, R !! q = Some r → r ≠ O_user t j → <[p := O_loose]> R !! q = Some r) by (intros q r Hq Hr; rewrite lookup_insert_ne; [done|congruence]).
  split; [by eapply base_loosen|by apply HR| |done|].
  - intros i Hi [HV _]. eapply slot_mono; [by apply Ht|]. intros q Hq. by apply HR.
  - intros t' i' j' [[_ ?]|[Hne Ht']]%lookup_insert_Some Hj' [HV Hn]; [done|]. eapply slot_mono; [by eapply Hu|]. intros q Hq. apply HR; [done|].
    intros [= -> ->]. by apply Hn.
Qed.
Lemma space_untable d V R used km t i : space d V R used km → R !! t = Some (O_table i) → space d (but d i V) (<[t := O_loose]> R) used km.
Proof.
  intros [Hb Hd Ht Hk Hu] Hp.
  assert (HR : ∀ q r, R !! q = Some r → r ≠ O_table i → <[t := O_loose]> R !! q = Some r) by (intros q r Hq Hr; rewrite lookup_insert_ne; [done|congruence]).
  split; [by eapply base_loosen|by apply HR| |done|].
  - intros i' Hi' [HV Hn]. eapply slot_mono; [by apply Ht|]. intros q Hq. apply HR; [done|]. intros [= ->]. by apply Hn.
  - intros t' i' j' [[_ ?]|[Hne Ht']]%lookup_insert_Some Hj' [HV _]; [done|]. eapply slot_mono; [by eapply Hu|]. intros q Hq. by apply HR.
Qed.

(** ** The operations *)

(** The entry of a page, and that of a back pointer. *)
Lemma points_lor e p f : page_ok e p → 0 ≤ f < PGSIZE → Z.odd f = true → points (Z.lor (v2p p) f) p.
Proof.
  intros Hp Hf Ho. destruct (v2p_page _ _ Hp) as [Hm Hr]. split_and!.
  - rewrite lor_low by done. unfold PHYSTOP, PGSIZE in *. lia.
  - rewrite lor_low by done. unfold PHYSTOP, PGSIZE in *. lia.
  - by rewrite entry_P.
  - by rewrite entry_addr.
Qed.
Lemma points_p2v e x p : page_ok e p → points x p → p2v (PTE_ADDR x) = p.
Proof. intros (_ & _ & _ & Hr) (_ & _ & ->). by apply p2v_v2p. Qed.
Lemma back_unmapped e q : page_ok e q → has (Z.lor q PTE_P) PTE_P = true ∧ p2v (PTE_ADDR (Z.lor q PTE_P)) < KERNBASE - PGSIZE.
Proof.
  intros Hq. pose proof (page_ok_base _ _ Hq) as Hb. destruct Hq as (Hm & _). rewrite entry_P, entry_addr by done. split; [done|].
  unfold p2v, u64, KERNBASE, PHYSTOP, PGSIZE in *. replace (q + 0xFFFFFFFF80000000) with (q - 2147483648 + 1 * 2 ^ 64) by lia.
  rewrite Z_mod_plus_full, Z.mod_small by lia. lia.
Qed.
Lemma PDX_range va : 0 ≤ PDX va < 512.
Proof. unfold PDX, PXMASK. change 0x1FF with (Z.ones 9). rewrite Z.land_ones by lia. by apply Z.mod_pos_bound. Qed.
Lemma PTX_range va : 0 ≤ PTX va < 512.
Proof. unfold PTX, PXMASK. change 0x1FF with (Z.ones 9). rewrite Z.land_ones by lia. by apply Z.mod_pos_bound. Qed.

(** What [walkpgdir] returns: an entry of the directory's tables, or an address
    where there is none, the null pointer among them. *)
Definition target R (pte : Z) : Prop := pte < KERNBASE ∨ ∃ i t j, R !! t = Some (O_table i) ∧ 0 ≤ j < 512 ∧ pte = t + 8 * j.
Definition every (q j : Z) : Prop := True.

Lemma mlp_walk d va alloc R used km (Q : Z → kmem → Prop) : space d every R used km →
  (∀ pte R' used' km', space d every R' used' km' → (∀ q r, R !! q = Some r → R' !! q = Some r) → target R' pte → Q pte km') →
  mlp (walkpgdir d va alloc) Q km.
Proof.
  intros Hs HQ. pose proof (sp_base _ _ _ _ _ Hs) as Hb. pose proof (PDX_range va) as Hi. pose proof (PTX_range va) as Hj.
  assert (Hnull : target R 0) by (left; unfold KERNBASE; lia). unfold walkpgdir. apply mlp_bind, mlp_read. intros _.
  destruct (decide (PDX va < 510)) as [Hlt|Hge].
  - destruct (sp_tables _ _ _ _ _ Hs (PDX va)) as [Hz|(t & Ht & Hpt)]; [lia|done| |].
    + rewrite Hz. cbn [has]. change (has 0 PTE_P) with false. cbv iota. destruct alloc; cbn [negb]; [|apply mlp_ret; by eapply HQ].
      apply mlp_bind, mlp_kalloc. destruct (Z.eqb_spec (km_freelist km) 0) as [Hf|Hf].
      { apply mlp_ret. eapply (HQ 0 R used); [|auto|done]. unfold taken. by rewrite Hf. }
      destruct (space_take _ _ _ _ _ Hs Hf) as [Hnone Hs1]. pose proof (lookup_insert_eq R (km_freelist km) O_loose) as Hl.
      apply mlp_bind, mlp_memset. intros _. apply mlp_bind, mlp_write, mlp_ret.
      assert (Hs2 : space d every (<[km_freelist km := O_loose]> R) (km_freelist km :: used) (set_km_mem (memset (km_mem (taken km)) (km_freelist km) 0 PGSIZE) (taken km))).
      { eapply space_write_page; [exact Hs1|by left|apply same_but_memset]. }
      pose proof (points_lor e0 (km_freelist km) 7 (base_page _ _ _ _ _ (sp_base _ _ _ _ _ Hs1) Hl) ltac:(done) eq_refl) as Hpt.
      rewrite <-!Z.lor_assoc. change (Z.lor PTE_P (Z.lor PTE_W PTE_U)) with 7.
      pose proof (space_link _ _ _ _ _ _ (PDX va) (Z.lor (v2p (km_freelist km)) 7) Hs2 Hl) as Hs3.
      eapply HQ; [apply Hs3; [intros j Hj'; cbn; by apply memset_page_zero|lia|done]| |].
      * intros q r Hq. rewrite insert_insert_eq, lookup_insert_ne; [done|congruence].
      * right. exists (PDX va), (km_freelist km), (PTX va). by rewrite lookup_insert_eq.
    + pose proof (points_p2v e0 _ _ (base_page _ _ _ _ _ Hb Ht) Hpt) as Hp. destruct Hpt as (_ & -> & _). rewrite Hp. apply mlp_ret.
      eapply HQ; [exact Hs|auto|]. right. by exists (PDX va), t, (PTX va).
  - destruct (sp_back _ _ _ _ _ Hs (PDX va)) as (q & Hq & ->); [lia|]. destruct (back_unmapped _ _ Hq) as [-> Hlow]. apply mlp_ret.
    eapply HQ; [exact Hs|auto|]. left. unfold PGSIZE in Hlow. lia.
Qed.

(** The entry that a target has. *)
Lemma space_slot d V R used km t i j : space d V R used km → R !! t = Some (O_table i) → 0 ≤ j < 512 → V t j →
  let x := mget64 (km_mem km) (t + 8 * j) in
  x = 0 ∨ ∃ p, R !! p = Some (O_user t j) ∧ has x PTE_P = true ∧ PTE_ADDR x = v2p p ∧ p2v (PTE_ADDR x) = p ∧ page_ok e0 p.
Proof.
  intros Hs Ht Hj HV x. destruct (sp_users _ _ _ _ _ Hs t i j Ht Hj HV) as [Hz|(p & Hp & Hpt)]; [by left|]. right. exists p.
  pose proof (base_page _ _ _ _ _ (sp_base _ _ _ _ _ Hs) Hp) as Hok. pose proof (points_p2v _ _ _ Hok Hpt). by destruct Hpt as (_ & ? & ?).
Qed.

(** There is an address space at [d]. *)
Definition has_space (d : Z) (km : kmem) : Prop := ∃ R used, space d every R used km.

Lemma mappages_single d a pa perm : a mod PGSIZE = 0 → 0 ≤ a → a + PGSIZE ≤ 2 ^ 64 → mappages d a PGSIZE pa perm = mappages_loop d a pa perm 1.
Proof.
  intros Hm Ha Hle. unfold mappages. change PGROUNDDOWN with PTE_ADDR. rewrite !PTE_ADDR_val. unfold u64, PGSIZE in *.
  assert (H1 : a / 4096 * 4096 = a) by (Z.to_euclidean_division_equations; lia). rewrite H1.
  rewrite (Z.mod_small (a + 4096 - 1)) by lia.
  assert (H2 : (a + 4096 - 1) / 4096 * 4096 = a) by (Z.to_euclidean_division_equations; lia). rewrite H2. by rewrite Z.sub_diag.
Qed.
Lemma mlp_mappages d a p R used km : space d every R used km → R !! p = Some O_loose → a mod PGSIZE = 0 → 0 ≤ a → a + PGSIZE ≤ 2 ^ 64 →
  mlp (mappages d a PGSIZE (v2p p) (Z.lor PTE_W PTE_U)) (λ _, has_space d) km.
Proof.
  intros Hs Hp Hm Ha Hle. rewrite mappages_single by done. cbn [mappages_loop]. apply mlp_bind. eapply mlp_walk; [exact Hs|].
  intros pte R' used' km' Hs' HR Htgt. destruct (pte =? 0); [apply mlp_ret; by exists R', used'|].
  apply mlp_bind, mlp_read. intros Hk. destruct Htgt as [?|(i & t & j & Ht & Hj & ->)]; [lia|].
  destruct (has _ PTE_P); [apply mlp_panic|]. apply mlp_bind, mlp_write, mlp_ret. apply HR in Hp.
  pose proof (points_lor e0 p 7 (base_page _ _ _ _ _ (sp_base _ _ _ _ _ Hs') Hp) ltac:(done) eq_refl) as Hpt.
  rewrite <-!Z.lor_assoc. change (Z.lor PTE_W (Z.lor PTE_U PTE_P)) with 7.
  exists (<[p := O_user t j]> R'), used'. eapply (space_set _ _ _ _ _ t i); [|rewrite lookup_insert_ne; [exact Ht|congruence]|done|].
  - eapply (space_mono _ every); [done|]. by apply space_claim.
  - right. exists p. by rewrite lookup_insert_eq.
Qed.

Lemma mlp_deallocuvm_loop d oldsz fuel : ∀ a km, has_space d km → mlp (deallocuvm_loop d oldsz a fuel) (λ _, has_space d) km.
Proof.
  induction fuel as [|fuel IH]; intros a km (R & used & Hs); cbn [deallocuvm_loop];
    (destruct (a <? oldsz); [|apply mlp_ret; by exists R, used]); [apply mlp_spin|].
  apply mlp_bind. eapply mlp_walk; [exact Hs|]. intros pte R' used' km' Hs' _ Htgt.
  destruct (pte =? 0); [apply IH; by exists R', used'|]. apply mlp_bind, mlp_read. intros Hk.
  destruct Htgt as [?|(i & t & j & Ht & Hj & ->)]; [lia|]. apply mlp_bind.
  destruct (space_slot _ _ _ _ _ _ _ _ Hs' Ht Hj I) as [Hz|(p & Hp & Hx & Ha & Hv & Hok)].
  { rewrite Hz. cbn [when]. apply mlp_ret, IH. by exists R', used'. }
  rewrite Hx. cbn [when]. cbv zeta. destruct (PTE_ADDR _ =? 0); [apply mlp_panic|]. rewrite Hv. apply mlp_bind, mlp_kfree, mlp_write, IH.
  destruct (space_free _ _ _ _ _ p (space_unmap _ _ _ _ _ _ _ _ Hs' Hp)) as [used2 Hs2]; [apply lookup_insert_eq|].
  eexists _, used2. eapply space_set; [exact Hs2| |done|by left].
  assert (p ≠ t) by congruence. rewrite lookup_delete_ne, lookup_insert_ne by done. exact Ht.
Qed.
Lemma mlp_deallocuvm d oldsz newsz km : has_space d km → mlp (deallocuvm d oldsz newsz) (λ _, has_space d) km.
Proof.
  intros Hs. unfold deallocuvm. destruct (oldsz <=? newsz); [by apply mlp_ret|]. cbv zeta. apply mlp_bind.
  eapply mlp_mono; [by apply mlp_deallocuvm_loop|]. intros ? x Hx. by apply mlp_ret.
Qed.

Lemma mlp_allocuvm_loop d oldsz newsz n : ∀ a km, has_space d km → a mod PGSIZE = 0 → 0 ≤ a → a + Z.of_nat n * PGSIZE ≤ 2 ^ 64 →
  mlp (allocuvm_loop d oldsz newsz a n) (λ _, has_space d) km.
Proof.
  induction n as [|n IH]; intros a km (R & used & Hs) Hm Ha Hle; cbn [allocuvm_loop]; [apply mlp_ret; by exists R, used|].
  apply mlp_bind, mlp_kalloc. destruct (Z.eqb_spec (km_freelist km) 0) as [Hf|Hf].
  - apply mlp_keep_bind; [keeps_tac|]. intros _. apply mlp_bind. eapply mlp_mono; [apply mlp_deallocuvm|intros ? x Hx; by apply mlp_ret].
    exists R, used. unfold taken. by rewrite Hf.
  - destruct (space_take _ _ _ _ _ Hs Hf) as [_ Hs1]. pose proof (lookup_insert_eq R (km_freelist km) O_loose) as Hl.
    apply mlp_bind, mlp_memset. intros _. apply mlp_bind. unfold PGSIZE in *. eapply mlp_mono.
    + eapply mlp_mappages; [eapply space_write_page; [exact Hs1|by left|apply same_but_memset]|exact Hl|done|done|unfold PGSIZE; lia].
    + intros ? x Hx. apply IH; [done| |lia|lia]. rewrite Z.add_mod, Hm by done. done.
Qed.
Lemma mlp_allocuvm d oldsz newsz km : has_space d km → 0 ≤ oldsz < 2 ^ 32 → newsz < 2 ^ 32 → mlp (allocuvm d oldsz newsz) (λ _, has_space d) km.
Proof.
  intros Hs Ho Hn. unfold allocuvm. destruct (newsz <? oldsz); [by apply mlp_ret|]. cbv zeta. rewrite PGROUNDUP_val by (unfold PGSIZE; lia).
  apply mlp_allocuvm_loop; [done|unfold PGSIZE; by rewrite Z.mod_mul|unfold PGSIZE; Z.to_euclidean_division_equations; lia|].
  unfold npages, PGSIZE. Z.to_euclidean_division_equations. lia.
Qed.

(** [freevm] after the user pages: tables below [i] are freed. *)
Lemma mlp_freevm_tables d n : ∀ i R used km, 0 ≤ i → i + Z.of_nat n ≤ 510 → space d (λ q j, q ≠ d ∨ i ≤ j) R used km →
  mlp (for_each (seqZ i (Z.of_nat n)) (freevm_table d)) (λ _ km', ∃ R' used', base R' used' km' ∧ R' !! d = Some O_dir) km.
Proof.
  induction n as [|n IH]; intros i R used km Hi Hle Hs.
  { apply mlp_ret. exists R, used. split; apply Hs. }
  rewrite seqZ_cons by lia. cbn [for_each]. replace (Z.pred (Z.of_nat (S n))) with (Z.of_nat n) by lia.
  change (Z.succ i) with (i + 1) || replace (Z.succ i) with (i + 1) by lia.
  assert (Hnext : ∀ q j, q ≠ d ∨ i + 1 ≤ j → but d i (λ q j, q ≠ d ∨ i ≤ j) q j) by (intros q j; unfold but; naive_solver lia).
  apply mlp_bind. unfold freevm_table. apply mlp_bind, mlp_read. intros _.
  destruct (sp_tables _ _ _ _ _ Hs i) as [Hz|(t & Ht & Hpt)]; [lia|by right| |].
  - rewrite Hz. cbn [when]. apply mlp_ret. eapply (IH _ R used); [lia|lia|]. eapply space_mono; [|exact Hs]. naive_solver lia.
  - pose proof (points_p2v e0 _ _ (base_page _ _ _ _ _ (sp_base _ _ _ _ _ Hs) Ht) Hpt) as Hv. destruct Hpt as (_ & -> & _). cbn [when]. rewrite Hv.
    apply mlp_kfree. destruct (space_free _ _ _ _ _ t (space_untable _ _ _ _ _ _ _ Hs Ht)) as [used2 Hs2]; [apply lookup_insert_eq|].
    eapply IH; [lia|lia|]. eapply space_mono; [exact Hnext|exact Hs2].
Qed.
Lemma mlp_freevm d km : has_space d km → mlp (freevm d) (λ _ km', ∃ R used, base R used km') km.
Proof.
  intros Hs. unfold freevm. destruct (d =? 0); [apply mlp_panic|]. apply mlp_bind. eapply mlp_mono; [by apply mlp_deallocuvm|].
  intros ? x (R & used & Hs1). apply mlp_bind. change (NPDENTRIES - 2) with (Z.of_nat 510). eapply mlp_mono.
  - eapply (mlp_freevm_tables d 510); [lia|lia|]. eapply space_mono; [|exact Hs1]. done.
  - intros ? y (R1 & used1 & Hb & Hd). apply mlp_kfree. destruct (base_free _ _ _ _ _ Hb Hd) as [used2 Hb2]; [done|]. by eexists _, _.
Qed.

Lemma mlp_clearpteu d va km : has_space d km → mlp (clearpteu d va) (λ _, has_space d) km.
Proof.
  intros (R & used & Hs). unfold clearpteu. apply mlp_bind. eapply mlp_walk; [exact Hs|]. intros pte R' used' km' Hs' _ Htgt.
  destruct (pte =? 0); [apply mlp_panic|]. apply mlp_bind, mlp_read. intros Hk. destruct Htgt as [?|(i & t & j & Ht & Hj & ->)]; [lia|].
  apply mlp_write. exists R', used'. eapply space_set; [eapply (space_mono _ every); [done|exact Hs']|exact Ht|done|].
  destruct (sp_users _ _ _ _ _ Hs' t i j Ht Hj I) as [->|(p & Hp & Hx & Hh & Ha)]; [by left|]. right. exists p. split; [done|].
  set (x := mget64 _ _) in *. split_and!.
  - apply Z.land_nonneg. lia.
  - rewrite <-(Z.mod_small x (2 ^ 64)), <-Z.land_ones, <-Z.land_assoc, (Z.land_comm (Z.ones 64)), Z.land_assoc, Z.land_ones by lia.
    by apply Z.mod_pos_bound.
  - unfold has in *. by rewrite <-Z.land_assoc.
  - unfold PTE_ADDR in *. by rewrite <-Z.land_assoc.
Qed.

(** Bytes inside a page. *)
Lemma same_but_bytes p a l m : p ≤ a → a + Z.of_nat (length l) ≤ p + PGSIZE → same_but [p] m (mput_bytes m a l).
Proof.
  intros Ha Hl x Hx. rewrite mput_bytes_at. rewrite bool_decide_eq_false_2; [done|]. intros Hin. apply (Hx p); [left|]. unfold in_page. lia.
Qed.

Lemma mlp_uva2ka d va km (Q : Z → kmem → Prop) : has_space d km →
  (∀ pa R used km', space d every R used km' → pa = 0 ∨ priv R pa → Q pa km') → mlp (uva2ka d va) Q km.
Proof.
  intros (R & used & Hs) HQ. unfold uva2ka. apply mlp_bind. eapply mlp_walk; [exact Hs|]. intros pte R' used' km' Hs' _ Htgt.
  destruct (pte =? 0); [apply mlp_fault|]. apply mlp_bind, mlp_read. intros Hk. destruct Htgt as [?|(i & t & j & Ht & Hj & ->)]; [lia|].
  destruct (space_slot _ _ _ _ _ _ _ _ Hs' Ht Hj I) as [Hz|(p & Hp & Hx & Ha & Hv & Hok)].
  { rewrite Hz. apply mlp_ret. eapply HQ; [exact Hs'|by left]. }
  rewrite Hx. cbn [negb]. destruct (negb _); apply mlp_ret; (eapply HQ; [exact Hs'|]); [by left|]. right. rewrite Hv. right. by exists t, j.
Qed.
Lemma mlp_copyout_loop d fuel : ∀ va buf len km, has_space d km → 0 ≤ va < 2 ^ 32 → mlp (copyout_loop d va buf len fuel) (λ _, has_space d) km.
Proof.
  induction fuel as [|fuel IH]; intros va buf len km Hs Hva; cbn [copyout_loop]; (destruct (0 <? len); [|by apply mlp_ret]); [apply mlp_spin|].
  change PGROUNDDOWN with PTE_ADDR. rewrite PTE_ADDR_val. cbv zeta. set (va0 := u32 (va / PGSIZE * PGSIZE)).
  assert (Hva0 : va0 ≤ va < va0 + PGSIZE).
  { unfold va0, u32, PGSIZE. rewrite Z.mod_small by (Z.to_euclidean_division_equations; lia). Z.to_euclidean_division_equations. lia. }
  apply mlp_bind, mlp_uva2ka; [done|]. intros pa R used km' Hs' Hpa. destruct (Z.eqb_spec pa 0); [apply mlp_ret; by exists R, used|].
  destruct Hpa as [?|Hpa]; [done|]. set (n1 := Z.min _ len). apply mlp_bind, mlp_store, IH; [|unfold u32; by apply Z.mod_pos_bound].
  exists R, used. eapply space_write_page; [exact Hs'|exact Hpa|]. apply same_but_bytes; [lia|]. rewrite length_take. lia.
Qed.
Lemma mlp_copyout d va p len km : has_space d km → 0 ≤ va < 2 ^ 32 → mlp (copyout d va p len) (λ _, has_space d) km.
Proof. intros. by apply mlp_copyout_loop. Qed.

(** ** Reading a segment *)

(** What [readi] stores is not longer than it is asked for. *)
Definition reads_short `{Devsw} (ip : nat) : Prop :=
  ∀ off n k r k', 0 ≤ off → 0 ≤ n ≤ PGSIZE → readi ip off n k = Ok r k' → Z.of_nat (length r.2) ≤ n.
Lemma mlp_loaduvm_loop `{D : Devsw} `{!DevKeeps k_kmem D} d addr ip offset sz fuel : reads_short ip → ∀ i km, has_space d km → 0 ≤ i →
  mlp (loaduvm_loop d addr ip offset sz i fuel) (λ _, has_space d) km.
Proof.
  intros Hshort. induction fuel as [|fuel IH]; intros i km Hs Hi; cbn [loaduvm_loop]; (destruct (Z.ltb_spec i sz); [|by apply mlp_ret]); [apply mlp_spin|].
  apply mlp_bind. destruct Hs as (R & used & Hs). eapply mlp_walk; [exact Hs|]. intros pte R' used' km' Hs' _ Htgt.
  destruct (pte =? 0); [apply mlp_panic|]. apply mlp_bind, mlp_read. intros Hk. destruct Htgt as [?|(i' & t & j & Ht & Hj & ->)]; [lia|].
  cbv zeta. set (x := mget64 _ _). set (n := if sz - i <? PGSIZE then sz - i else PGSIZE).
  assert (Hn : 0 ≤ n ≤ PGSIZE) by (unfold n, PGSIZE; destruct (Z.ltb_spec (sz - i) 4096); lia).
  assert (Hoff : 0 ≤ u32 (offset + i)) by (unfold u32; by apply Z.mod_pos_bound).
  apply mlp_bind. intros k rl k' Hkk Hread. pose proof (Hshort _ _ _ _ _ Hoff Hn Hread) as Hlen.
  rewrite (keeps_ok _ _ _ _ _ (fkeeps_readi k_kmem _ _ _) Hread), Hkk.
  apply mlp_bind, mlp_store. assert (Hsp : has_space d (set_km_mem (mput_bytes (km_mem km') (p2v (u32 (PTE_ADDR x))) rl.2) km')).
  { destruct (space_slot _ _ _ _ _ _ _ _ Hs' Ht Hj I) as [Hz|(p & Hp & _ & Ha & Hv & Hok)].
    - fold x in Hz. rewrite Hz. change (p2v (u32 (PTE_ADDR 0))) with KERNBASE. exists R', used'. eapply space_write_0; [exact Hs'|]. apply same_but_bytes; lia.
    - fold x in Ha, Hv. destruct (v2p_page _ _ Hok) as [_ Hr]. unfold PHYSTOP in Hr. rewrite Ha in Hv |- *. unfold u32. rewrite Z.mod_small, Hv by lia.
      exists R', used'. eapply space_write_page; [exact Hs'|right; by exists t, j|]. apply same_but_bytes; lia. }
  destruct (negb _); [by apply mlp_ret|]. apply IH; [done|]. unfold u32. by apply Z.mod_pos_bound.
Qed.
Lemma mlp_loaduvm `{D : Devsw} `{!DevKeeps k_kmem D} d addr ip offset sz km : reads_short ip → has_space d km → mlp (loaduvm d addr ip offset sz) (λ _, has_space d) km.
Proof. intros Hr Hs. unfold loaduvm. destruct (negb _); [apply mlp_panic|]. by apply mlp_loaduvm_loop. Qed.

(** ** setupkvm *)

Lemma mlp_kalloc_base R used km (Q : Z → kmem → Prop) : base R used km →
  (∀ p R' used' km', base R' used' km' → (∀ q r, R !! q = Some r → R' !! q = Some r) → (∀ q i, R' !! q = Some (O_table i) → R !! q = Some (O_table i)) →
     (p ≠ 0 → R !! p = None ∧ R' !! p = Some O_loose) → Q p km') →
  mlp kalloc Q km.
Proof.
  intros Hb HQ. apply mlp_kalloc. destruct (decide (km_freelist km = 0)) as [Hf|Hf].
  - eapply (HQ _ R used); [|auto|auto|done]. unfold taken. by rewrite Hf.
  - destruct (base_take _ _ _ Hb Hf) as [HR Hb']. eapply HQ; [exact Hb'| | |intros _; split; [done|apply lookup_insert_eq]].
    + intros q r Hq. rewrite lookup_insert_ne; [done|congruence].
    + by intros q i [[_ ?]|[_ ?]]%lookup_insert_Some.
Qed.
Lemma base_memset R used km p r : base R used km → R !! p = Some r → r ≠ O_old → base R used (set_km_mem (memset (km_mem km) p 0 PGSIZE) km).
Proof.
  intros Hb Hp Hr. apply base_write; [done|]. intros q a Hq Hno Ha. apply same_but_memset. intros p' ->%list_elem_of_singleton Hin.
  eapply (pages_apart e0 p q a a); [by eapply base_page|by eapply base_all| |exact Hin|exact Ha|done].
  intros ->. destruct Hno as [Hno|Hno]; [by eapply Hno, bs_used|congruence].
Qed.
(** A zeroed page and the writes beside it. *)
Definition blank R used (d : Z) (km : kmem) : Prop := base R used km ∧ ∀ j, 0 ≤ j < 512 → mget64 (km_mem km) (d + 8 * j) = 0.
Lemma blank_put R used d p i x km : blank R used d km → R !! d = Some O_loose → R !! p = Some O_loose → p ≠ d → 0 ≤ i < 512 →
  blank R used d (set_km_mem (mput64 (km_mem km) (p + 8 * i) x) km).
Proof.
  intros [Hb Hz] Hd Hp Hne Hi. split; [by eapply base_put|]. intros j Hj. cbn [km_mem set_km_mem].
  rewrite put_word; [by apply Hz|by eapply base_page|by eapply base_page|done|done|by left].
Qed.
Lemma blank_dir R used d km q1 q2 : blank R used d km → R !! d = Some O_loose → (∀ t i, R !! t ≠ Some (O_table i)) → page_ok e0 q1 → page_ok e0 q2 →
  has_space d (set_km_mem (mput64 (mput64 (km_mem km) (d + 8 * 511) (Z.lor q1 PTE_P)) (d + 8 * 510) (Z.lor q2 PTE_P)) km).
Proof.
  intros [Hb Hz] Hd Hnt Hq1 Hq2. pose proof (base_page _ _ _ _ _ Hb Hd) as Hdp.
  assert (Hr : ∀ q, page_ok e0 q → 0 ≤ Z.lor q PTE_P < 2 ^ 64).
  { intros q Hq. pose proof (page_ok_base _ _ Hq) as Hqb. destruct Hq as (Hm & _). rewrite lor_low by done. unfold KERNBASE, PHYSTOP, PTE_P in *. lia. }
  assert (Hb2 : base R used (set_km_mem (mput64 (mput64 (km_mem km) (d + 8 * 511) (Z.lor q1 PTE_P)) (d + 8 * 510) (Z.lor q2 PTE_P)) km)).
  { apply (base_put R used (set_km_mem (mput64 (km_mem km) (d + 8 * 511) (Z.lor q1 PTE_P)) km) d O_loose); [|done|done|lia]. by eapply base_put. }
  exists (<[d := O_dir]> R), used. split.
  - eapply base_roles; [exact Hb2| |].
    + intros q r [[<- _]|[_ Hq]]%lookup_insert_Some; by eapply bs_used.
    + intros q. rewrite lookup_insert_Some. split; [by intros [[_ ?]|[_ ?]]|]. intros Hq. right. split; [|done]. congruence.
  - apply lookup_insert_eq.
  - intros i Hi _. left. cbn [km_mem set_km_mem]. rewrite !put_word by (done || lia). apply Hz. lia.
  - intros i Hi. cbn [km_mem set_km_mem]. destruct (decide (i = 510)) as [->|Hne].
    + exists q2. split; [done|]. apply mget_put64. auto.
    + replace i with 511 by lia. exists q1. split; [done|]. rewrite put_word by (done || lia). apply mget_put64. auto.
  - intros t i j [[_ ?]|[_ Ht]]%lookup_insert_Some; [done|]. by destruct (Hnt t i).
Qed.

Lemma mlp_setupkvm kv R used km : base R used km → (∀ t i, R !! t ≠ Some (O_table i)) → mlp (setupkvm kv) has_space km.
Proof.
  intros Hb Hnt. unfold setupkvm. apply mlp_bind. eapply mlp_kalloc_base; [exact Hb|]. intros p1 R1 used1 km1 Hb1 HR1 Ht1 Hp1.
  apply mlp_bind. eapply mlp_kalloc_base; [exact Hb1|]. intros p2 R2 used2 km2 Hb2 HR2 Ht2 Hp2.
  apply mlp_bind. eapply mlp_kalloc_base; [exact Hb2|]. intros d R3 used3 km3 Hb3 HR3 Ht3 Hd.
  apply mlp_bind, mlp_memset. intros H1. apply mlp_bind, mlp_memset. intros H2. apply mlp_bind, mlp_memset. intros H3.
  destruct (Hp1 H1) as [_ Hl1], (Hp2 H2) as [_ Hl2], (Hd H3) as [Hnd Hld]. apply HR2 in Hl1.
  assert (Hne1 : p1 ≠ d) by congruence. assert (Hne2 : p2 ≠ d) by congruence. apply HR3 in Hl1, Hl2.
  do 5 apply mlp_bind, mlp_write. apply mlp_ret.
  set (km4 := set_km_mem (memset _ d 0 PGSIZE) _).
  assert (Hbl : blank R3 used3 d km4).
  { split; [|intros j Hj; by apply memset_page_zero]. eapply base_memset; [|exact Hld|done]. eapply base_memset; [|exact Hl2|done]. by eapply base_memset. }
  apply (blank_put _ _ _ p1 511 (Z.lor (Z.lor (Z.lor (v2p (kpdpt kv)) PTE_P) PTE_W) PTE_U)) in Hbl; [|done..|lia].
  apply (blank_put _ _ _ p1 0 (Z.lor (Z.lor (Z.lor (v2p p2) PTE_P) PTE_W) PTE_U)) in Hbl; [|done..|lia].
  apply (blank_put _ _ _ p2 0 (Z.lor (Z.lor (Z.lor (v2p d) PTE_P) PTE_W) PTE_U)) in Hbl; [|done..|lia].
  eapply (blank_dir _ _ _ _ p1 p2) in Hbl; [exact Hbl|done| |by eapply base_page..]. intros t i Ht. by eapply Hnt, Ht1, Ht2, Ht3.
Qed.
End space.

(** Everything in use is old. *)
Lemma base_start all used km : kmem_inv all used km →
  let R := gset_to_gmap O_old (list_to_set used) in
  base all used (km_mem km) (km_end km) R used km ∧ ∀ t i, R !! t ≠ Some (O_table i).
Proof.
  intros Hk R. assert (HR : ∀ p r, R !! p = Some r ↔ p ∈ used ∧ r = O_old).
  { intros p r. unfold R. rewrite lookup_gset_to_gmap_Some, elem_of_list_to_set. naive_solver. }
  split; [split|]; [done|done|intros p r Hp; by apply HR in Hp as [? _]|intros p Hp; by apply HR|done|].
  intros t i Ht. by apply HR in Ht as [_ ?].
Qed.

(** ** The lengths of what is read *)

Definition yields {A} (m : K A) (P : A → Prop) : Prop := ∀ k a k', m k = Ok a k' → P a.
Lemma yields_ret {A} (a : A) (P : A → Prop) : P a → yields (mret a) P.
Proof. intros HP k b k'. unfold mret, M_ret. by intros [= <- _]. Qed.
Lemma yields_bind {A B} (m : K A) (f : A → K B) P : (∀ a, yields (f a) P) → yields (m ≫= f) P.
Proof. intros Hf k b k' H. inv_ok H as a k1 H1. by eapply Hf. Qed.
Lemma yields_bind_with {A B} (m : K A) (f : A → K B) P P' : yields m P' → (∀ a, P' a → yields (f a) P) → yields (m ≫= f) P.
Proof. intros Hm Hf k b k' H. inv_ok H as a k1 H1. eapply Hf; [by eapply Hm|exact H]. Qed.

Lemma consoleread_loop_short ip target fuel : ∀ n acc, yields (consoleread_loop ip target n acc fuel) (λ r, Z.of_nat (length r.2) ≤ Z.of_nat (length acc) + Z.max 0 n).
Proof.
  induction fuel as [|fuel IH]; intros n acc; cbn [consoleread_loop]; [by intros k a k'|].
  assert (Hfin : ∀ z n' (l : list Z), Z.of_nat (length l) ≤ Z.of_nat (length acc) + Z.max 0 n → yields (release L_input;; ilock (Some ip);; mret (z - n', l)) (λ r, Z.of_nat (length r.2) ≤ Z.of_nat (length acc) + Z.max 0 n)).
  { intros z n' l Hl. do 2 (apply yields_bind; intros _). by apply yields_ret. }
  destruct (Z.ltb_spec 0 n) as [Hn|Hn]; [|apply Hfin; lia]. apply yields_bind. intros x. destruct (in_r x =? in_w x).
  - apply yields_bind. intros b. destruct b; [do 2 (apply yields_bind; intros _); apply yields_ret; cbn [snd]; lia|]. do 2 (apply yields_bind; intros _). apply IH.
  - cbv zeta. apply yields_bind. intros _. destruct (_ =? 4); [apply yields_bind; intros _; apply Hfin; lia|].
    destruct (_ =? 10); [apply Hfin; rewrite length_app; cbn; lia|]. intros k a k' H. apply IH in H. rewrite length_app in H. cbn in H. lia.
Qed.

Lemma readi_loop_short i n fuel : ∀ off tot acc, yields (readi_loop i off n tot acc fuel) (λ l, Z.of_nat (length l) ≤ Z.of_nat (length acc) + Z.max 0 (n - tot)).
Proof.
  induction fuel as [|fuel IH]; intros off tot acc; cbn [readi_loop]; (destruct (Z.ltb_spec tot n) as [Hn|Hn]; [|apply yields_ret; lia]); [by intros k a k'|].
  do 3 (apply yields_bind; intros ?). cbv zeta. set (m := Z.min _ _). apply yields_bind. intros bf. apply yields_bind. intros _ k l k' H. apply IH in H.
  rewrite length_app in H. unfold bslice in H. rewrite length_take in H. pose proof (Z.mod_pos_bound off BSIZE ltac:(done)). unfold m in *. lia.
Qed.

Lemma devsw_short v ip : @reads_short (devsw v) ip.
Proof.
  intros off n k r k' Hoff Hn. revert k r k'. change (yields (@readi (devsw v) ip off n) (λ r, Z.of_nat (length r.2) ≤ n)). unfold readi.
  apply yields_bind. intros x. destruct (i_type x =? T_DEV).
  - destruct (dev_lookup dev_read (i_major x)) as [g|] eqn:Hg; [|apply yields_ret; cbn; lia].
    apply dev_lookup_some in Hg. cbn in Hg. rewrite i32_small by (unfold PGSIZE in Hn; lia). revert Hg. repeat case_match; intros [= <-].
    + unfold consoleread. do 2 (apply yields_bind; intros _). intros k r k' Hr. apply consoleread_loop_short in Hr. cbn in Hr. lia.
    + unfold cpuid_read. apply yields_bind. intros _. apply yields_ret. cbn. lia.
  - destruct (_ || _); [apply yields_ret; cbn; lia|]. cbv zeta. set (n1 := if _ <? _ then _ else n).
    assert (Hn1 : n1 ≤ n).
    { unfold n1. destruct (Z.ltb_spec (i_size x) (u32 (off + n))) as [Hlt|]; [|lia].
      assert (u32 (off + n) ≤ off + n) by (unfold u32; apply Z.mod_le; lia). lia. }
    eapply yields_bind_with; [apply readi_loop_short|]. intros l Hl. apply yields_ret. cbn in Hl |- *. lia.
Qed.
