(* ===== verification/Proc.v ===== *)
(** * Proc: the life of processes, kernel/proc.c

    Creation, growth, exit, wait and kill.  The contents of a kernel stack are
    the fields [p_tf] and [p_context] of its process; the trap frame of a new
    process has no meaning until it is assigned.  [allocproc] and [fork] are
    made of the pieces between which other CPUs may use the process table.

    The lemmas are about the parent's sleep in [wait]: each piece of code that
    changes the process table keeps [pt_inv], by which a process that sleeps in
    [wait] has no zombie child.  The theorem about the whole system is in
    [Scheduler]. *)

From stdpp Require Import prelude functions gmap strings.
From S2P Require Import Prelude Types Ring Spinlock Sched Cstr Ide Bio Block Frame Log Fs FsInode Kalloc Pipe File Cprintf Vm.
Open Scope Z_scope.

(** ** Fields *)

Definition set_p_sz (v : Z) (p : proc) : proc :=
  mkProc v (p_pgdir p) (p_kstack p) (p_state p) (p_pid p) (p_parent p) (p_tf p) (p_context p) (p_chan p) (p_killed p) (p_ofile p) (p_cwd p) (p_name p).
Definition set_p_pgdir (v : Z) (p : proc) : proc :=
  mkProc (p_sz p) v (p_kstack p) (p_state p) (p_pid p) (p_parent p) (p_tf p) (p_context p) (p_chan p) (p_killed p) (p_ofile p) (p_cwd p) (p_name p).
Definition set_p_kstack (v : Z) (p : proc) : proc :=
  mkProc (p_sz p) (p_pgdir p) v (p_state p) (p_pid p) (p_parent p) (p_tf p) (p_context p) (p_chan p) (p_killed p) (p_ofile p) (p_cwd p) (p_name p).
Definition set_p_pid (v : Z) (p : proc) : proc :=
  mkProc (p_sz p) (p_pgdir p) (p_kstack p) (p_state p) v (p_parent p) (p_tf p) (p_context p) (p_chan p) (p_killed p) (p_ofile p) (p_cwd p) (p_name p).
Definition set_p_parent (v : option nat) (p : proc) : proc :=
  mkProc (p_sz p) (p_pgdir p) (p_kstack p) (p_state p) (p_pid p) v (p_tf p) (p_context p) (p_chan p) (p_killed p) (p_ofile p) (p_cwd p) (p_name p).
Definition set_p_tf (v : trapframe) (p : proc) : proc :=
  mkProc (p_sz p) (p_pgdir p) (p_kstack p) (p_state p) (p_pid p) (p_parent p) v (p_context p) (p_chan p) (p_killed p) (p_ofile p) (p_cwd p) (p_name p).
Definition set_p_killed (v : bool) (p : proc) : proc :=
  mkProc (p_sz p) (p_pgdir p) (p_kstack p) (p_state p) (p_pid p) (p_parent p) (p_tf p) (p_context p) (p_chan p) v (p_ofile p) (p_cwd p) (p_name p).
Definition set_p_ofile (v : list (option nat)) (p : proc) : proc :=
  mkProc (p_sz p) (p_pgdir p) (p_kstack p) (p_state p) (p_pid p) (p_parent p) (p_tf p) (p_context p) (p_chan p) (p_killed p) v (p_cwd p) (p_name p).
Definition set_p_cwd (v : option nat) (p : proc) : proc :=
  mkProc (p_sz p) (p_pgdir p) (p_kstack p) (p_state p) (p_pid p) (p_parent p) (p_tf p) (p_context p) (p_chan p) (p_killed p) (p_ofile p) v (p_name p).
Definition set_p_name (v : list Z) (p : proc) : proc :=
  mkProc (p_sz p) (p_pgdir p) (p_kstack p) (p_state p) (p_pid p) (p_parent p) (p_tf p) (p_context p) (p_chan p) (p_killed p) (p_ofile p) (p_cwd p) v.

Definition set_tf_eax (v : Z) (t : trapframe) : trapframe :=
  mkTf v (tf_rbx t) (tf_rcx t) (tf_rdx t) (tf_rbp t) (tf_rsi t) (tf_rdi t) (tf_r8 t) (tf_r9 t) (tf_r10 t) (tf_r11 t) (tf_r12 t) (tf_r13 t) (tf_r14 t) (tf_r15 t) (tf_trapno t) (tf_err t) (tf_eip t) (tf_cs t) (tf_eflags t) (tf_esp t) (tf_ds t).
Definition set_tf_rsi (v : Z) (t : trapframe) : trapframe :=
  mkTf (tf_eax t) (tf_rbx t) (tf_rcx t) (tf_rdx t) (tf_rbp t) v (tf_rdi t) (tf_r8 t) (tf_r9 t) (tf_r10 t) (tf_r11 t) (tf_r12 t) (tf_r13 t) (tf_r14 t) (tf_r15 t) (tf_trapno t) (tf_err t) (tf_eip t) (tf_cs t) (tf_eflags t) (tf_esp t) (tf_ds t).
Definition set_tf_rdi (v : Z) (t : trapframe) : trapframe :=
  mkTf (tf_eax t) (tf_rbx t) (tf_rcx t) (tf_rdx t) (tf_rbp t) (tf_rsi t) v (tf_r8 t) (tf_r9 t) (tf_r10 t) (tf_r11 t) (tf_r12 t) (tf_r13 t) (tf_r14 t) (tf_r15 t) (tf_trapno t) (tf_err t) (tf_eip t) (tf_cs t) (tf_eflags t) (tf_esp t) (tf_ds t).
Definition set_tf_eip (v : Z) (t : trapframe) : trapframe :=
  mkTf (tf_eax t) (tf_rbx t) (tf_rcx t) (tf_rdx t) (tf_rbp t) (tf_rsi t) (tf_rdi t) (tf_r8 t) (tf_r9 t) (tf_r10 t) (tf_r11 t) (tf_r12 t) (tf_r13 t) (tf_r14 t) (tf_r15 t) (tf_trapno t) (tf_err t) v (tf_cs t) (tf_eflags t) (tf_esp t) (tf_ds t).
Definition set_tf_esp (v : Z) (t : trapframe) : trapframe :=
  mkTf (tf_eax t) (tf_rbx t) (tf_rcx t) (tf_rdx t) (tf_rbp t) (tf_rsi t) (tf_rdi t) (tf_r8 t) (tf_r9 t) (tf_r10 t) (tf_r11 t) (tf_r12 t) (tf_r13 t) (tf_r14 t) (tf_r15 t) (tf_trapno t) (tf_err t) (tf_eip t) (tf_cs t) (tf_eflags t) v (tf_ds t).

Definition setnextpid (v : Z) (t : ptable) : ptable := mkPtable (pt_proc t) (pt_initproc t) v.
Definition setinitproc (v : option nat) (t : ptable) : ptable := mkPtable (pt_proc t) v (pt_nextpid t).
Definition updpt (f : ptable → ptable) : K unit := modify (λ k, set_pt (f (k_pt k)) k).

(** mmu.h and x86.h: selectors and flags of a user trap frame. *)
Definition SEG_UCODE : Z := 4.
Definition SEG_UDATA : Z := 5.
Definition DPL_USER : Z := 3.
Definition FL_IF : Z := 0x200.

(** [safestrcpy(dst, s, 16)] into a name buffer: the string it leaves. *)
Definition strname (s : list Z) : list Z := cstr (safestrcpy (cells []) 0 (cells (s ++ [0])) 16) 16.

(** ** proc.c *)

Definition pinit : K unit := on_mach (initlock L_ptable).

(** The first unused entry. *)
Fixpoint unused_scan (ps : list proc) (i : nat) : option nat :=
  match ps with
  | [] => None
  | p :: ps => if bool_decide (p_state p = UNUSED) then Some i else unused_scan ps (S i)
  end.

(** [allocproc] up to the release of the process table, and from there on. *)
Definition alloc_slot : K (option nat) :=
  acquire L_ptable;;
  k ← get;
  match unused_scan (pt_proc (k_pt k)) 0 with
  | None => release L_ptable;; mret None
  | Some i =>
      updproc i (set_p_state EMBRYO);;
      updproc i (set_p_pid (pt_nextpid (k_pt k)));;
      updpt (setnextpid (i32 (pt_nextpid (k_pt k) + 1)));;
      release L_ptable;;
      mret (Some i)
  end.
Definition alloc_stack (i : nat) : K (option nat) :=
  ks ← kalloc;
  updproc i (set_p_kstack ks);;
  if ks =? 0 then
    updproc i (set_p_state UNUSED);;
    mret None
  else
    updproc i (set_p_context CtxForkret);;
    mret (Some i).
Definition allocproc : K (option nat) :=
  o ← alloc_slot;
  match o with
  | None => mret None
  | Some i => alloc_stack i
  end.

Section with_kvm.
Variable kv : kvm.
(** The embedded program: [_binary_out_initcode_start] and its size. *)
Variable initcode : list Z.
Context `{Devsw}.

Definition user_tf : trapframe :=
  mkTf 0 0 0 0 0 0 0 0 0 0 0 0 0 0 0 0 0 0 (Z.lor (Z.shiftl SEG_UCODE 3) DPL_USER) FL_IF PGSIZE
    (Z.lor (Z.shiftl SEG_UDATA 3) DPL_USER).

Definition userinit : K unit :=
  o ← allocproc;
  updpt (setinitproc o);;
  p ← need o;
  pgdir ← setupkvm kv;
  updproc p (set_p_pgdir pgdir);;
  if pgdir =? 0 then panic "userinit: out of memory?" else
  inituvm pgdir initcode (u32 (Z.of_nat (length initcode)));;
  updproc p (set_p_sz PGSIZE);;
  updproc p (set_p_tf user_tf);;
  updproc p (set_p_name (strname (str "initcode")));;
  cwd ← namei (str "/");
  updproc p (set_p_cwd cwd);;
  updproc p (set_p_state RUNNABLE).

(** [sz] is a [uint]. *)
Definition growproc (n : Z) : K Z :=
  me ← myproc;
  p ← getproc me;
  let sz := u32 (p_sz p) in
  r ← (if 0 <? n then
         r ← allocuvm (p_pgdir p) sz (u32 (sz + n));
         mret (u32 r)
       else if n <? 0 then
         r ← deallocuvm (p_pgdir p) sz (u32 (sz + n));
         mret (u32 r)
       else mret sz);
  if negb (n =? 0) && (r =? 0) then mret (-1) else
  updproc me (set_p_sz r);;
  switchuvm me;;
  mret 0.

(** The descriptors of the child. *)
Definition fork_file (me np fd : nat) : K unit :=
  p ← getproc me;
  match p_ofile p !! fd with
  | Some (Some f) =>
      g ← filedup f;
      updproc np (λ q, set_p_ofile (<[fd := Some g]> (p_ofile q)) q)
  | _ => mret tt
  end.

(** The pieces of [fork]: no memory for the child, its image, and the child
    made runnable. *)
Definition fork_undo (np : nat) : K unit :=
  q ← getproc np;
  kfree (p_kstack q);;
  updproc np (set_p_kstack 0);;
  updproc np (set_p_state UNUSED).
Definition fork_image (me : nat) (p : proc) (np : nat) : K unit :=
  updproc np (set_p_sz (p_sz p));;
  updproc np (set_p_parent (Some me));;
  updproc np (set_p_tf (p_tf p));;
  updproc np (λ q, set_p_tf (set_tf_eax 0 (p_tf q)) q).
Definition fork_start (np : nat) : K unit :=
  acquire L_ptable;;
  updproc np (set_p_state RUNNABLE);;
  release L_ptable.

Definition fork : K Z :=
  o ← allocproc;
  match o with
  | None => mret (-1)
  | Some np =>
      me ← myproc;
      p ← getproc me;
      pgdir ← copyuvm kv (p_pgdir p) (u32 (p_sz p));
      updproc np (set_p_pgdir pgdir);;
      if pgdir =? 0 then
        fork_undo np;;
        mret (-1)
      else
        fork_image me p np;;
        for_each (seq 0 (Z.to_nat NOFILE)) (fork_file me np);;
        cwd ← need (p_cwd p);
        cwd ← idup cwd;
        updproc np (set_p_cwd (Some cwd));;
        updproc np (set_p_name (strname (p_name p)));;
        q ← getproc np;
        fork_start np;;
        mret (p_pid q)
  end.

End with_kvm.

(** [wakeup1(0)] *)
Definition wakeup1_null : K unit :=
  modify (λ k, set_pt (set_procs (map (λ p, if bool_decide (p_state p = SLEEPING ∧ p_chan p = None)
    then set_p_state RUNNABLE p else p)) (k_pt k)) k).
Definition wakeup1_proc_ptr (o : option nat) : K unit :=
  match o with Some i => wakeup1 (ChProc i) | None => wakeup1_null end.

(** One round of the loop that passes children to init. *)
Definition reparent (me i : nat) : K unit :=
  q ← getproc i;
  when (bool_decide (p_parent q = Some me)) (
    k ← get;
    updproc i (set_p_parent (pt_initproc (k_pt k)));;
    when (bool_decide (p_state q = ZOMBIE)) (wakeup1_proc_ptr (pt_initproc (k_pt k)))).

(** The end of [exit], from [acquire(&ptable.lock)] on. *)
Definition exit_locked (me : nat) : K unit :=
  acquire L_ptable;;
  p ← getproc me;
  wakeup1_proc_ptr (p_parent p);;
  for_each (seq 0 (Z.to_nat NPROC)) (reparent me);;
  updproc me (set_p_state ZOMBIE);;
  sched;;
  panic "zombie exit".

Definition exit_file (me fd : nat) : K unit :=
  p ← getproc me;
  match p_ofile p !! fd with
  | Some (Some f) =>
      fileclose f;;
      updproc me (λ q, set_p_ofile (<[fd := None]> (p_ofile q)) q)
  | _ => mret tt
  end.

Definition exit : K unit :=
  me ← myproc;
  k ← get;
  if bool_decide (pt_initproc (k_pt k) = Some me) then panic "init exiting" else
  for_each (seq 0 (Z.to_nat NOFILE)) (exit_file me);;
  begin_op;;
  p ← getproc me;
  cwd ← need (p_cwd p);
  iput cwd;;
  end_op;;
  updproc me (set_p_cwd None);;
  exit_locked me.

(** The scan of [wait]: the first zombie child, and whether there are
    children. *)
Fixpoint wait_scan (me : nat) (ps : list proc) (i : nat) : option nat * bool :=
  match ps with
  | [] => (None, false)
  | p :: ps =>
      if negb (bool_decide (p_parent p = Some me)) then wait_scan me ps (S i) else
      if bool_decide (p_state p = ZOMBIE) then (Some i, true) else
      let (z, _) := wait_scan me ps (S i) in (z, true)
  end.

Definition reap (i : nat) : K Z :=
  p ← getproc i;
  kfree (p_kstack p);;
  updproc i (set_p_kstack 0);;
  freevm (p_pgdir p);;
  updproc i (set_p_state UNUSED);;
  updproc i (set_p_pid 0);;
  updproc i (set_p_parent None);;
  updproc i (set_p_name []);;
  updproc i (set_p_killed false);;
  release L_ptable;;
  mret (p_pid p).

Fixpoint wait_loop (me : nat) (rounds : nat) : K Z :=
  k ← get;
  let (z, havekids) := wait_scan me (pt_proc (k_pt k)) 0 in
  match z with
  | Some i => reap i
  | None =>
      p ← getproc me;
      if negb havekids || p_killed p then
        release L_ptable;;
        mret (-1)
      else
        sleep (ChProc me) (Some L_ptable);;
        sleep_return L_ptable;;
        match rounds with O => spin | S rounds => wait_loop me rounds end
  end.
Definition wait : K Z :=
  acquire L_ptable;;
  me ← myproc;
  wait_loop me 0.

(** The scan of [kill]. *)
Fixpoint pid_scan (pid : Z) (ps : list proc) (i : nat) : option nat :=
  match ps with
  | [] => None
  | p :: ps => if p_pid p =? pid then Some i else pid_scan pid ps (S i)
  end.
Definition kill (pid : Z) : K Z :=
  acquire L_ptable;;
  k ← get;
  match pid_scan pid (pt_proc (k_pt k)) 0 with
  | Some i =>
      updproc i (set_p_killed true);;
      p ← getproc i;
      when (bool_decide (p_state p = SLEEPING)) (updproc i (set_p_state RUNNABLE));;
      release L_ptable;;
      mret 0
  | None =>
      release L_ptable;;
      mret (-1)
  end.

(** [first] is the static variable; the result is its new value. *)
Definition forkret (first : bool) : K bool :=
  release L_ptable;;
  when first initlog;;
  mret false.

(** ** Runs, whatever their outcome *)

(** A run of [m] from [P] that returns ends in [Q], one that sleeps in [W]. *)
Definition runs {A} (P : kernel → Prop) (m : K A) (Q : A → kernel → Prop) (W : kernel → Prop) : Prop :=
  ∀ k, P k → match m k with Ok a k' => Q a k' | Sleeps k' => W k' | _ => True end.

Lemma runs_bind {A B} P (m : K A) (f : A → K B) R Q W :
  runs P m R W → (∀ a, runs (R a) (f a) Q W) → runs P (m ≫= f) Q W.
Proof.
  intros Hm Hf k Hk. specialize (Hm k Hk). unfold mbind, M_bind. destruct (m k) as [a k'| | | |]; try done. by apply Hf.
Qed.
Lemma runs_ret {A} (a : A) P W : runs P (mret a) (λ b k, b = a ∧ P k) W.
Proof. by intros k Hk. Qed.
Lemma runs_post {A} P P' (m : K A) (Q Q' : A → kernel → Prop) (W W' : kernel → Prop) : runs P m Q W →
  (∀ k, P' k → P k) → (∀ a k, Q a k → Q' a k) → (∀ k, W k → W' k) → runs P' m Q' W'.
Proof. intros Hm HP HQ HW k Hk. specialize (Hm k (HP k Hk)). destruct (m k); auto. Qed.
Lemma runs_modify P f Q W : (∀ k, P k → Q tt (f k)) → runs P (modify f) Q W.
Proof. intros H k. apply H. Qed.
Lemma runs_get P Q W : (∀ k, P k → Q k k) → runs P get Q W.
Proof. intros H k. apply H. Qed.
Lemma runs_panic {A} P msg (Q : A → kernel → Prop) W : runs P (panic msg) Q W.
Proof. by intros k _. Qed.
Lemma runs_for_each {A} (l : list A) f (I : kernel → Prop) W : (∀ x, x ∈ l → runs I (f x) (λ _, I) W) →
  runs I (for_each l f) (λ _, I) W.
Proof.
  induction l as [|x l IH]; cbn [for_each]; intros Hf; [by intros k|].
  eapply runs_bind; [apply Hf; left|]. intros []. apply IH. intros y Hy. apply Hf. by right.
Qed.
(** An operation that leaves the process table alone. *)
Lemma runs_keeps {A} (m : K A) (P : ptable → Prop) : keeps k_pt m →
  runs (λ k, P (k_pt k)) m (λ _ k, P (k_pt k)) (λ k, P (k_pt k)).
Proof. intros Hm k Hk. specialize (Hm k). destruct (m k); try done; by rewrite Hm. Qed.

Lemma keeps_on_mach_pt {A} (m : M machine A) : keeps k_pt (on_mach m).
Proof. intros k. unfold on_mach. by destruct (m (k_mach k)). Qed.
#[local] Hint Resolve keeps_on_mach_pt : keeps.
Lemma keeps_acquire_pt lk : keeps k_pt (acquire lk).
Proof. unfold acquire. keeps_tac. Qed.
Lemma keeps_release_pt lk : keeps k_pt (release lk).
Proof. unfold release. keeps_tac. Qed.
#[local] Hint Resolve keeps_acquire_pt keeps_release_pt : keeps.
Lemma keeps_updkm_pt f : keeps k_pt (updkm f).
Proof. by apply keeps_modify. Qed.
#[local] Hint Resolve keeps_updkm_pt : keeps.
Lemma keeps_kfree_pt v : keeps k_pt (kfree v).
Proof. unfold kfree, getkm. keeps_tac. Qed.
Lemma keeps_walkpgdir_pt d va : keeps k_pt (walkpgdir d va false).
Proof. unfold walkpgdir, kread64, getkm. cbn [negb]. keeps_tac. Qed.
#[local] Hint Resolve keeps_kfree_pt keeps_walkpgdir_pt : keeps.
Lemma keeps_dealloc_pt d o fuel : ∀ a, keeps k_pt (deallocuvm_loop d o a fuel).
Proof. induction fuel; intros a; cbn [deallocuvm_loop]; unfold kread64, kwrite64, getkm; keeps_tac. Qed.
#[local] Hint Resolve keeps_dealloc_pt : keeps.
Lemma keeps_freevm_pt d : keeps k_pt (freevm d).
Proof. unfold freevm, deallocuvm, freevm_table, kread64, getkm. keeps_tac. Qed.
#[local] Hint Resolve keeps_freevm_pt : keeps.

(** ** Parents, children and the sleep in wait *)

(** Process [i] sleeps in [wait]. *)
Definition waiter (ps : list proc) (i : nat) : Prop :=
  ∃ p, ps !! i = Some p ∧ p_state p = SLEEPING ∧ p_chan p = Some (ChProc i).

(** [j] is a zombie whose parent is [i]. *)
Definition zombie_of (ps : list proc) (i j : nat) : Prop :=
  ∃ c, ps !! j = Some c ∧ p_parent c = Some i ∧ p_state c = ZOMBIE.

Record pt_inv (t : ptable) : Prop := {
  pi_wait : ∀ i j, waiter (pt_proc t) i → ¬ zombie_of (pt_proc t) i j;
  pi_self : ∀ i p, pt_proc t !! i = Some p → p_parent p ≠ Some i;
  pi_init : ∀ i p, pt_initproc t = Some i → pt_proc t !! i = Some p → p_parent p = None
}.

(** A change of the table that makes no waiter, no zombie and no parent. *)
Record calm (t t' : ptable) : Prop := {
  cm_len : length (pt_proc t') = length (pt_proc t);
  cm_init : pt_initproc t' = pt_initproc t;
  cm_proc : ∀ i p', pt_proc t' !! i = Some p' → ∃ p, pt_proc t !! i = Some p ∧
    (p_state p' = ZOMBIE → p_state p = ZOMBIE) ∧ (p_parent p' = p_parent p ∨ p_parent p' = None) ∧
    (p_state p' = SLEEPING ∧ p_chan p' = Some (ChProc i) → p_state p = SLEEPING ∧ p_chan p = Some (ChProc i))
}.

#[global] Instance calm_pre : PreOrder calm.
Proof.
  split.
  - intros t. split; [done|done|]. intros i p' Hp'. exists p'. auto.
  - intros t1 t2 t3 [Hl1 Hi1 Hp1] [Hl2 Hi2 Hp2]. split; [congruence..|]. intros i p3 Hp3.
    destruct (Hp2 i p3 Hp3) as (p2 & H2 & Hz2 & Hpar2 & Hw2). destruct (Hp1 i p2 H2) as (p1 & H1 & Hz1 & Hpar1 & Hw1).
    exists p1. split; [done|]. split; [auto|]. split; [|auto].
    destruct Hpar2 as [->|]; [destruct Hpar1 as [->|]; auto|auto].
Qed.

Lemma calm_waiter t t' i : calm t t' → waiter (pt_proc t') i → waiter (pt_proc t) i.
Proof. intros Hc (p' & Hp' & Hs). destruct (cm_proc _ _ Hc _ _ Hp') as (p & Hp & _ & _ & Hw). exists p. naive_solver. Qed.

Lemma calm_zombie t t' i j : calm t t' → zombie_of (pt_proc t') i j → zombie_of (pt_proc t) i j.
Proof.
  intros Hc (c' & Hc' & Hpar & Hz). destruct (cm_proc _ _ Hc _ _ Hc') as (c & Hcc & Hz' & Hp & _). exists c.
  destruct Hp as [Hp|Hp]; [|congruence]. rewrite <-Hp. auto.
Qed.

Lemma pt_inv_calm t t' : calm t t' → pt_inv t → pt_inv t'.
Proof.
  intros Hc [Hw Hs Hi]. split.
  - intros i j Hwt Hz. by eapply (Hw i j); [eapply calm_waiter|eapply calm_zombie].
  - intros i p' Hp'. destruct (cm_proc _ _ Hc _ _ Hp') as (p & Hp & _ & [Heq|Heq] & _); rewrite Heq; [by eapply Hs|done].
  - intros i p' Hin Hp'. destruct (cm_proc _ _ Hc _ _ Hp') as (p & Hp & _ & [Heq|Heq] & _); rewrite Heq; [|done].
    rewrite (cm_init _ _ Hc) in Hin. by eapply Hi.
Qed.

(** Changing the processes one by one. *)
Lemma calm_set f t : (∀ i p, pt_proc t !! i = Some p →
    (p_state (f i p) = ZOMBIE → p_state p = ZOMBIE) ∧ (p_parent (f i p) = p_parent p ∨ p_parent (f i p) = None) ∧
    (p_state (f i p) = SLEEPING ∧ p_chan (f i p) = Some (ChProc i) → p_state p = SLEEPING ∧ p_chan p = Some (ChProc i))) →
  calm t (set_procs (imap f) t).
Proof.
  intros Hf. split; [by cbn; rewrite length_imap|done|]. intros i p'. cbn. rewrite list_lookup_imap. destruct (pt_proc t !! i) as [p|] eqn:Hp; [|done].
  intros [= <-]. exists p. split; [done|]. by apply Hf.
Qed.

Lemma imap_alter {A} (g : A → A) i (l : list A) : alter g i l = imap (λ j x, if decide (j = i) then g x else x) l.
Proof.
  apply list_eq. intros j. rewrite list_lookup_imap. destruct (decide (j = i)) as [->|Hne].
  - rewrite list_lookup_alter_eq. by destruct (l !! i).
  - rewrite list_lookup_alter_ne by done. by destruct (l !! j).
Qed.

Lemma calm_upd i g t : (∀ p, pt_proc t !! i = Some p →
    (p_state (g p) = ZOMBIE → p_state p = ZOMBIE) ∧ (p_parent (g p) = p_parent p ∨ p_parent (g p) = None) ∧
    (p_state (g p) = SLEEPING ∧ p_chan (g p) = Some (ChProc i) → p_state p = SLEEPING ∧ p_chan p = Some (ChProc i))) →
  calm t (set_procs (alter g i) t).
Proof.
  intros Hg. replace (set_procs (alter g i) t) with (set_procs (imap (λ j x, if decide (j = i) then g x else x)) t)
    by (unfold set_procs; by rewrite imap_alter).
  apply calm_set. intros j p Hp. destruct (decide (j = i)) as [->|]; [by apply Hg|auto].
Qed.

Lemma imap_map {A} (g : A → A) (l : list A) : map g l = imap (λ _, g) l.
Proof. apply list_eq. intros j. rewrite list_lookup_imap, list_lookup_fmap. done. Qed.

Lemma calm_wakeup1 ch t : calm t (set_procs (map (wakeup1_proc ch)) t).
Proof.
  replace (set_procs (map (wakeup1_proc ch)) t) with (set_procs (imap (λ _, wakeup1_proc ch)) t)
    by (unfold set_procs; by rewrite imap_map).
  apply calm_set. intros i p _. unfold wakeup1_proc. case_bool_decide; cbn; auto. split_and!; [done|by left|by intros []].
Qed.

Lemma wakeup1_not_waiter i ps : ¬ waiter (map (wakeup1_proc (ChProc i)) ps) i.
Proof. intros (p & Hp & Hs & Hc). by apply (wakeup1_awake (ChProc i) ps i p). Qed.

Lemma not_waiter_calm t t' i : calm t t' → ¬ waiter (pt_proc t) i → ¬ waiter (pt_proc t') i.
Proof. intros Hc Hn Hw. by eapply Hn, calm_waiter. Qed.

(** [wakeup1(p)] for a process pointer: nobody sleeps in [wait] there. *)
Lemma runs_wakeup1_ptr o (P : ptable → Prop) W : (∀ t t', calm t t' → P t → P t') →
  runs (λ k, P (k_pt k)) (wakeup1_proc_ptr o)
    (λ _ k, P (k_pt k) ∧ ∀ i, o = Some i → ¬ waiter (pt_proc (k_pt k)) i) W.
Proof.
  intros HP. destruct o as [i|]; cbn [wakeup1_proc_ptr].
  - apply runs_modify. intros k Hk. split; [eapply HP; [apply calm_wakeup1|done]|]. intros j [= <-]. apply wakeup1_not_waiter.
  - apply runs_modify. intros k Hk. split; [|done]. eapply HP; [|exact Hk].
    set (g := λ p, if bool_decide (p_state p = SLEEPING ∧ p_chan p = None) then set_p_state RUNNABLE p else p).
    replace (set_procs (map g) (k_pt k)) with (set_procs (imap (λ _, g)) (k_pt k)) by (unfold set_procs; by rewrite imap_map).
    apply calm_set. intros i p _. unfold g. case_bool_decide; cbn; auto. split_and!; [done|by left|by intros []].
Qed.

(** The invariant of the loop in [exit]: in addition, the exiting process'
    parent [par] does not sleep in [wait]. *)
Record exiting (me : nat) (par : option nat) (t : ptable) : Prop := {
  ex_inv : pt_inv t;
  ex_par : ∀ i, par = Some i → ¬ waiter (pt_proc t) i;
  ex_me : ∃ p, pt_proc t !! me = Some p ∧ (p_parent p = par ∨ p_parent p = None)
}.

Lemma exiting_calm me par t t' : calm t t' → exiting me par t → exiting me par t'.
Proof.
  intros Hc [Hi Hp (p & Hm & Hpar)]. split; [by eapply pt_inv_calm|intros i Hi'; eapply not_waiter_calm; eauto|].
  destruct (lookup_lt_is_Some_2 (pt_proc t') me) as [p' Hp']; [rewrite (cm_len _ _ Hc); by eapply lookup_lt_Some|].
  exists p'. split; [done|]. destruct (cm_proc _ _ Hc _ _ Hp') as (q & Hq & _ & Heq & _). rewrite Hm in Hq. injection Hq as <-.
  destruct Heq as [->|]; auto.
Qed.

(** A child [i] is passed to init. *)
Section reparent.
Context (me i : nat) (par : option nat) (t : ptable) (q : proc).
Context (He : exiting me par t) (Hq : pt_proc t !! i = Some q) (Hpar : p_parent q = Some me).
Let g := set_p_parent (pt_initproc t).
Let t1 := set_procs (alter g i) t.

Lemma reparent_ne : i ≠ me ∧ pt_initproc t ≠ Some i.
Proof.
  destruct He as [[_ Hs Hi] _ _]. split.
  - intros Heq. apply (Hs i q Hq). by rewrite Hpar, Heq.
  - intros Hin. rewrite (Hi i q Hin Hq) in Hpar. done.
Qed.

Lemma reparent_lookup j p' : pt_proc t1 !! j = Some p' →
  j = i ∧ p' = g q ∨ j ≠ i ∧ pt_proc t !! j = Some p'.
Proof.
  cbn. destruct (decide (j = i)) as [->|Hne].
  - rewrite list_lookup_alter_eq, Hq. intros [= <-]. by left.
  - rewrite list_lookup_alter_ne by done. by right.
Qed.

Lemma reparent_waiter j : waiter (pt_proc t1) j → waiter (pt_proc t) j.
Proof.
  intros (p' & Hp' & Hw). apply reparent_lookup in Hp' as [[-> ->]|[_ Hp']]; [exists q; by split|exists p'; by split].
Qed.

Lemma reparent_exiting t2 : calm t1 t2 →
  (p_state q = ZOMBIE → ∀ j, pt_initproc t = Some j → ¬ waiter (pt_proc t2) j) → exiting me par t2.
Proof.
  intros Hc Hwake. destruct reparent_ne as [Hne Hni]. pose proof He as [[Hw Hs Hi] Hp Hme].
  assert (Hwt : ∀ j, waiter (pt_proc t2) j → waiter (pt_proc t) j) by (intros j Hj; by eapply reparent_waiter, calm_waiter).
  split; [split| |].
  - intros a b Ha Hz. pose proof (calm_zombie _ _ _ _ Hc Hz) as (c & Hcl & Hcp & Hcs).
    apply reparent_lookup in Hcl as [[-> ->]|[_ Hcl]].
    + eapply (Hwake Hcs a); [|done]. by cbn in Hcp.
    + apply (Hw a b); [by apply Hwt|]. by exists c.
  - intros j p' Hp'. destruct (cm_proc _ _ Hc _ _ Hp') as (p & Hpl & _ & [Heq|Heq] & _); rewrite Heq; [|done].
    apply reparent_lookup in Hpl as [[-> ->]|[_ Hpl]]; [by cbn|by eapply Hs].
  - intros j p' Hin Hp'. rewrite (cm_init _ _ Hc) in Hin. destruct (cm_proc _ _ Hc _ _ Hp') as (p & Hpl & _ & [Heq|Heq] & _); rewrite Heq; [|done].
    apply reparent_lookup in Hpl as [[-> ->]|[_ Hpl]]; [done|by eapply Hi].
  - intros j Hj Hwj. by apply (Hp j Hj), Hwt.
  - destruct Hme as (p & Hm & Hpp). destruct (lookup_lt_is_Some_2 (pt_proc t2) me) as [p' Hp'].
    { rewrite (cm_len _ _ Hc). cbn. rewrite length_alter. by eapply lookup_lt_Some. }
    exists p'. split; [done|]. destruct (cm_proc _ _ Hc _ _ Hp') as (r & Hr & _ & Heq & _).
    apply reparent_lookup in Hr as [[? _]|[_ Hr]]; [by destruct Hne|]. rewrite Hm in Hr. injection Hr as <-.
    destruct Heq as [->|]; auto.
Qed.
End reparent.

(** Reading a process. *)
Lemma runs_getproc i (P : ptable → Prop) W :
  runs (λ k, P (k_pt k)) (getproc i) (λ p k, P (k_pt k) ∧ pt_proc (k_pt k) !! i = Some p) W.
Proof.
  intros k Hk. unfold getproc, get, need, mbind, M_bind.
  destruct (pt_proc (k_pt k) !! i) eqn:E; by rewrite ?E.
Qed.
Lemma runs_updproc i f (P P' : ptable → Prop) W : (∀ t, P t → P' (set_procs (alter f i) t)) →
  runs (λ k, P (k_pt k)) (updproc i f) (λ _ k, P' (k_pt k)) W.
Proof. intros H. apply runs_modify. intros k. apply H. Qed.

(** Weakening the precondition. *)
Lemma runs_pre {A} P P' (m : K A) Q W : (∀ k, P' k → P k) → runs P m Q W → runs P' m Q W.
Proof. intros H Hm. eapply runs_post; [exact Hm|done|done|done]. Qed.

Lemma runs_reparent me i par W : runs (λ k, exiting me par (k_pt k)) (reparent me i) (λ _ k, exiting me par (k_pt k)) W.
Proof.
  unfold reparent. eapply runs_bind; [apply runs_getproc|]. intros q. cbn beta.
  case_bool_decide as Hpar; cbn [when]; [|by intros k [? _]].
  eapply runs_bind; [by apply (runs_get _ (λ k0 k, k0 = k ∧ exiting me par (k_pt k) ∧ pt_proc (k_pt k) !! i = Some q))|].
  intros k0. eapply runs_bind.
  { apply (runs_modify _ _ (λ _ k, exiting me par (k_pt k0) ∧ pt_proc (k_pt k0) !! i = Some q ∧
      k_pt k = set_procs (alter (set_p_parent (pt_initproc (k_pt k0))) i) (k_pt k0))). by intros k (-> & He & Hq). }
  intros []. cbn beta. case_bool_decide as Hz; cbn [when].
  - intros k (He & Hq & Hk).
    pose proof (runs_wakeup1_ptr (pt_initproc (k_pt k0)) (calm (k_pt k)) W) as Hr.
    specialize (Hr ltac:(intros t t' ? ?; by etransitivity) k ltac:(cbn beta; reflexivity)).
    destruct (wakeup1_proc_ptr (pt_initproc (k_pt k0)) k) as [u k'| | | |]; try done. destruct Hr as [Hc Hnw].
    rewrite Hk in Hc. eapply (reparent_exiting me i par (k_pt k0) q); [done..|]. intros _ j Hj. by apply Hnw.
  - intros k (He & Hq & Hk). unfold mret, M_ret. rewrite Hk. by eapply (reparent_exiting me i par (k_pt k0) q).
Qed.

Lemma runs_sched (P : ptable → Prop) (Q : unit → kernel → Prop) :
  (∀ i t, P t → P (set_procs (alter (set_p_context CtxSched) i) t)) → runs (λ k, P (k_pt k)) sched Q (λ k, P (k_pt k)).
Proof.
  intros HP. unfold sched. eapply runs_bind; [apply (runs_keeps _ P), keeps_on_mach_pt|]. intros h. cbn beta.
  destruct (negb h); [apply runs_panic|]. eapply runs_bind; [apply (runs_keeps _ P), keeps_on_mach_pt|]. intros c. cbn beta.
  destruct (negb (c_ncli c =? 1)); [apply runs_panic|].
  eapply runs_bind; [apply (runs_keeps _ P); unfold myproc; keeps_tac|]. intros i. cbn beta.
  eapply runs_bind; [apply (runs_keeps _ P); unfold getproc; keeps_tac|]. intros p. cbn beta.
  case_bool_decide; [apply runs_panic|]. destruct (c_if c); [apply runs_panic|].
  eapply runs_bind; [apply (runs_updproc i _ P P), HP|]. intros []. by intros k Hk.
Qed.

Lemma calm_context i t : calm t (set_procs (alter (set_p_context CtxSched) i) t).
Proof. apply calm_upd. intros p _. auto. Qed.

(** The last step of [exit]. *)
Lemma exiting_zombie me par t : exiting me par t → pt_inv (set_procs (alter (set_p_state ZOMBIE) me) t).
Proof.
  intros [[Hw Hs Hi] Hp (p & Hm & Hpp)].
  assert (Hl : ∀ j p', alter (set_p_state ZOMBIE) me (pt_proc t) !! j = Some p' →
    j = me ∧ p' = set_p_state ZOMBIE p ∨ pt_proc t !! j = Some p').
  { intros j p'. destruct (decide (j = me)) as [->|Hne].
    - rewrite list_lookup_alter_eq, Hm. intros [= <-]. by left.
    - rewrite list_lookup_alter_ne by done. by right. }
  assert (Hwt : ∀ i, waiter (alter (set_p_state ZOMBIE) me (pt_proc t)) i → waiter (pt_proc t) i).
  { intros i (p' & Hp' & Hst). apply Hl in Hp' as [[-> ->]|Hp']; [by destruct Hst|by exists p']. }
  split; cbn.
  - intros i j Hwi (c & Hc & Hcp & Hcs). apply Hwt in Hwi. apply Hl in Hc as [[-> ->]|Hc].
    + cbn in Hcp. destruct Hpp as [Hpp|Hpp]; [|congruence]. by apply (Hp i); [congruence|].
    + apply (Hw i j Hwi). by exists c.
  - intros i p' [[-> ->]|Hp']%Hl; [by apply (Hs me p)|by apply (Hs i p')].
  - intros i p' Hin [[-> ->]|Hp']%Hl; [by apply (Hi me p)|by apply (Hi i p')].
Qed.

Lemma runs_exit_locked me (Q : unit → kernel → Prop) :
  runs (λ k, pt_inv (k_pt k)) (exit_locked me) Q (λ k, pt_inv (k_pt k)).
Proof.
  unfold exit_locked. eapply runs_bind; [apply (runs_keeps _ pt_inv), keeps_acquire_pt|]. intros []. cbn beta.
  eapply runs_bind; [apply runs_getproc|]. intros p. cbn beta.
  eapply runs_bind.
  { eapply runs_post; [apply (runs_wakeup1_ptr (p_parent p) (λ t, pt_inv t ∧ ∃ q, pt_proc t !! me = Some q ∧
      (p_parent q = p_parent p ∨ p_parent q = None)))| | |].
    - intros t t' Hc [Hi (q & Hq & Hpq)]. split; [by eapply pt_inv_calm|].
      destruct (lookup_lt_is_Some_2 (pt_proc t') me) as [q' Hq']; [rewrite (cm_len _ _ Hc); by eapply lookup_lt_Some|].
      exists q'. split; [done|]. destruct (cm_proc _ _ Hc _ _ Hq') as (r & Hr & _ & Heq & _). rewrite Hq in Hr. injection Hr as <-.
      destruct Heq as [->|]; auto.
    - intros k [Hi Hp]. split; [done|]. exists p. auto.
    - intros u k [[Hi Hq] Hn]. exact (Build_exiting me (p_parent p) (k_pt k) Hi Hn Hq).
    - intros k Hk. exact Hk. }
  intros []. cbn beta. eapply runs_bind; [apply runs_for_each; intros i _; apply runs_reparent|]. intros []. cbn beta.
  eapply runs_bind; [apply (runs_updproc me _ (exiting me (p_parent p)) pt_inv); apply exiting_zombie|]. intros []. cbn beta.
  eapply (runs_bind _ _ _ (λ _ _, True)); [apply (runs_sched pt_inv)|intros []; apply runs_panic].
  intros i t. apply pt_inv_calm, calm_context.
Qed.

(** The scan of [wait] misses no zombie child. *)
Lemma wait_scan_none me ps : ∀ i b, wait_scan me ps i = (None, b) →
  ∀ j c, ps !! j = Some c → p_parent c = Some me → p_state c ≠ ZOMBIE.
Proof.
  induction ps as [|p ps IH]; intros i b; cbn [wait_scan]; [done|].
  case_bool_decide as Hp; cbn [negb].
  - case_bool_decide as Hz; [done|]. destruct (wait_scan me ps (S i)) as [z b'] eqn:E. intros [= -> _] [|j] c Hc; cbn in Hc.
    + by injection Hc as <-.
    + by eapply IH.
  - intros H [|j] c Hc; cbn in Hc; [injection Hc as <-; congruence|by eapply IH].
Qed.

(** Going to sleep in [wait]. *)
Lemma pt_inv_wait me t : pt_inv t → (∀ j c, pt_proc t !! j = Some c → p_parent c = Some me → p_state c ≠ ZOMBIE) →
  pt_inv (set_procs (alter (set_p_state SLEEPING) me) (set_procs (alter (set_p_chan (Some (ChProc me))) me) t)).
Proof.
  intros [Hw Hs Hi] Hnz. set (g := λ p, set_p_state SLEEPING (set_p_chan (Some (ChProc me)) p)).
  assert (Hl : ∀ j p', alter (set_p_state SLEEPING) me (alter (set_p_chan (Some (ChProc me))) me (pt_proc t)) !! j = Some p' →
    ∃ p, pt_proc t !! j = Some p ∧ (j = me ∧ p' = g p ∨ j ≠ me ∧ p' = p)).
  { intros j p'. destruct (decide (j = me)) as [->|Hne].
    - rewrite !list_lookup_alter_eq. destruct (pt_proc t !! me) as [p|]; [|done]. intros [= <-]. exists p. auto.
    - rewrite !list_lookup_alter_ne by done. intros ?. exists p'. auto. }
  split; cbn.
  - intros i j (p' & Hp' & Hst & Hch) (c' & Hc' & Hcp & Hcs). apply Hl in Hp' as (p & Hp & Hpc), Hc' as (c & Hc & Hcc).
    assert (Hz : zombie_of (pt_proc t) i j) by (exists c; destruct Hcc as [[-> ->]|[_ ->]]; [by unfold g in Hcs|by split]).
    destruct Hpc as [[-> ->]|[_ ->]]; [destruct Hz as (c2 & ? & ? & ?); by eapply (Hnz j c2)|].
    apply (Hw i j); [by exists p|done].
  - intros i p' (p & Hp & [[-> ->]|[_ ->]])%Hl; [apply (Hs me p Hp)|apply (Hs i p Hp)].
  - intros i p' Hin (p & Hp & [[-> ->]|[_ ->]])%Hl; [apply (Hi me p Hin Hp)|apply (Hi i p Hin Hp)].
Qed.

(** ** Steps of the process table *)

Lemma calm_state i s t : s ≠ ZOMBIE → s ≠ SLEEPING → calm t (set_procs (alter (set_p_state s) i) t).
Proof. intros Hz Hs. apply calm_upd. intros p _. cbn. split_and!; [done|by left|by intros []]. Qed.

Lemma runs_upd_calm i f W : (∀ t, calm t (set_procs (alter f i) t)) →
  runs (λ k, pt_inv (k_pt k)) (updproc i f) (λ _ k, pt_inv (k_pt k)) W.
Proof. intros Hc. apply (runs_updproc i f pt_inv pt_inv). intros t. by apply pt_inv_calm. Qed.

Lemma runs_reap i : runs (λ k, pt_inv (k_pt k)) (reap i) (λ _ k, pt_inv (k_pt k)) (λ k, pt_inv (k_pt k)).
Proof.
  unfold reap. eapply runs_bind; [apply (runs_keeps _ pt_inv); unfold getproc; keeps_tac|]. intros p. cbn beta.
  eapply runs_bind; [apply (runs_keeps _ pt_inv), keeps_kfree_pt|]. intros []. cbn beta.
  eapply runs_bind; [apply runs_upd_calm; intros t; apply calm_upd; auto|]. intros []. cbn beta.
  eapply runs_bind; [apply (runs_keeps _ pt_inv), keeps_freevm_pt|]. intros []. cbn beta.
  eapply runs_bind; [by apply runs_upd_calm; intros t; apply calm_state|]. intros []. cbn beta.
  do 4 (eapply runs_bind; [apply runs_upd_calm; intros t; apply calm_upd; auto|]; intros []; cbn beta).
  eapply runs_bind; [apply (runs_keeps _ pt_inv), keeps_release_pt|]. intros []. cbn beta. by intros k Hk.
Qed.

Lemma keeps_sched_inv (Q : unit → kernel → Prop) : runs (λ k, pt_inv (k_pt k)) sched Q (λ k, pt_inv (k_pt k)).
Proof. apply runs_sched. intros i t. apply pt_inv_calm, calm_context. Qed.

(** [wait] from its scan on, for the process that runs. *)
Lemma runs_wait_loop me : runs (λ k, pt_inv (k_pt k) ∧ curproc (k_mach k) = Some me) (wait_loop me 0)
  (λ _ k, pt_inv (k_pt k)) (λ k, pt_inv (k_pt k)).
Proof.
  cbn [wait_loop]. eapply runs_bind.
  { by apply (runs_get _ (λ k0 k, k0 = k ∧ pt_inv (k_pt k) ∧ curproc (k_mach k) = Some me)). }
  intros k0. destruct (wait_scan me (pt_proc (k_pt k0)) 0) as [[i|] b] eqn:Hscan.
  { eapply runs_pre; [|apply runs_reap]. by intros k (-> & ? & _). }
  pose proof (wait_scan_none _ _ _ _ Hscan) as Hnz.
  eapply (runs_bind _ _ _ (λ _ k, k0 = k ∧ pt_inv (k_pt k) ∧ curproc (k_mach k) = Some me)).
  { intros k Hk. unfold getproc, get, need, mbind, M_bind. destruct (pt_proc (k_pt k) !! me) eqn:E; by rewrite ?E. }
  intros p. cbn beta. destruct (negb b || p_killed p).
  { eapply runs_pre; [|eapply runs_bind; [apply (runs_keeps _ pt_inv), keeps_release_pt|]]; [by intros k (_ & ? & _)|].
    intros []. by intros k Hk. }
  eapply (runs_bind _ _ _ (λ _ _, False)); [|by intros [] k []].
  intros k (-> & Hi & Hme). unfold sleep. rewrite (bind_run _ _ k _ k) by done. rewrite Hme, bool_decide_true by done. cbn [negb when].
  rewrite (bind_run _ _ tt _ k) by done. erewrite bind_run; [|done]. erewrite bind_run; [|done].
  apply (keeps_sched_inv (λ _ _, False)). by apply (pt_inv_wait me (k_pt k)).
Qed.

Definition pt_pres {A} (m : K A) : Prop :=
  runs (λ k, pt_inv (k_pt k)) m (λ _ k, pt_inv (k_pt k)) (λ k, pt_inv (k_pt k)).

Lemma pt_pres_keeps {A} (m : K A) : keeps k_pt m → pt_pres m.
Proof. apply (runs_keeps m pt_inv). Qed.
Lemma pt_pres_bind {A B} (m : K A) (f : A → K B) : pt_pres m → (∀ a, pt_pres (f a)) → pt_pres (m ≫= f).
Proof. intros Hm Hf. by eapply runs_bind. Qed.
Lemma pt_pres_upd i f : (∀ t, calm t (set_procs (alter f i) t)) → pt_pres (updproc i f).
Proof. apply runs_upd_calm. Qed.
Lemma pt_pres_when (b : bool) m : pt_pres m → pt_pres (when b m).
Proof. by destruct b; [|intros _ k]. Qed.

(** A sleep on anything but a process. *)
Lemma pt_pres_sleep ch lk : (∀ i, ch ≠ ChProc i) → pt_pres (sleep ch lk).
Proof.
  intros Hch. unfold sleep. apply pt_pres_bind; [apply pt_pres_keeps; keeps_tac|]. intros k0.
  destruct (curproc (k_mach k0)) as [i|]; [|apply runs_panic]. destruct lk as [l|]; [|apply runs_panic].
  apply pt_pres_bind; [apply pt_pres_keeps; keeps_tac|]. intros _.
  eapply (runs_bind _ _ _ (λ _ k, pt_inv (k_pt k) ∧ ∀ p, pt_proc (k_pt k) !! i = Some p → p_chan p = Some ch)).
  { apply runs_modify. intros k Hk. split.
    - eapply pt_inv_calm, Hk. apply calm_upd. intros p _. cbn. naive_solver.
    - intros p. cbn. rewrite list_lookup_alter_eq. destruct (pt_proc (k_pt k) !! i); [|done]. by intros [= <-]. }
  intros _. eapply (runs_bind _ _ _ (λ _ k, pt_inv (k_pt k))); [|intros _; apply (keeps_sched_inv (λ _ k, pt_inv (k_pt k)))].
  apply runs_modify. intros k [Hk Hc]. eapply pt_inv_calm, Hk. apply calm_upd. intros p Hp. cbn. rewrite (Hc p Hp). naive_solver.
Qed.

Lemma pt_pres_kill pid : pt_pres (kill pid).
Proof.
  unfold kill. apply pt_pres_bind; [apply pt_pres_keeps; keeps_tac|]. intros _.
  apply pt_pres_bind; [apply pt_pres_keeps; keeps_tac|]. intros k. destruct (pid_scan _ _ _) as [i|].
  - apply pt_pres_bind; [apply pt_pres_upd; intros t; apply calm_upd; auto|]. intros _.
    apply pt_pres_bind; [apply pt_pres_keeps; unfold getproc; keeps_tac|]. intros p.
    apply pt_pres_bind; [apply pt_pres_when, pt_pres_upd; intros t; by apply calm_state|]. intros _.
    apply pt_pres_keeps. keeps_tac.
  - apply pt_pres_keeps. keeps_tac.
Qed.

Lemma keeps_kalloc_pt : keeps k_pt kalloc.
Proof. unfold kalloc, getkm. keeps_tac. Qed.

Lemma pt_pres_slot : pt_pres alloc_slot.
Proof.
  unfold alloc_slot. apply pt_pres_bind; [apply pt_pres_keeps; keeps_tac|]. intros _.
  apply pt_pres_bind; [apply pt_pres_keeps; keeps_tac|]. intros k. destruct (unused_scan _ _) as [i|]; [|apply pt_pres_keeps; keeps_tac].
  apply pt_pres_bind; [apply pt_pres_upd; intros t; by apply calm_state|]. intros _.
  apply pt_pres_bind; [apply pt_pres_upd; intros t; apply calm_upd; auto|]. intros _.
  apply pt_pres_bind; [apply runs_modify; intros k' [Hw Hs Hi]; by split|]. intros _.
  apply pt_pres_keeps. keeps_tac.
Qed.
Lemma pt_pres_stack i : pt_pres (alloc_stack i).
Proof.
  unfold alloc_stack. apply pt_pres_bind; [apply pt_pres_keeps, keeps_kalloc_pt|]. intros ks.
  apply pt_pres_bind; [apply pt_pres_upd; intros t; apply calm_upd; auto|]. intros _.
  destruct (ks =? 0).
  - apply pt_pres_bind; [apply pt_pres_upd; intros t; by apply calm_state|]. intros _. by intros k' Hk'.
  - apply pt_pres_bind; [apply pt_pres_upd; intros t; apply calm_upd; auto|]. intros _. by intros k' Hk'.
Qed.

Lemma pt_pres_wakeup ch : pt_pres (wakeup ch).
Proof.
  unfold wakeup, wakeup1. apply pt_pres_bind; [apply pt_pres_keeps; keeps_tac|]. intros _.
  apply pt_pres_bind; [apply runs_modify; intros k Hk; by eapply pt_inv_calm, Hk; apply calm_wakeup1|]. intros _.
  apply pt_pres_keeps. keeps_tac.
Qed.

Lemma pt_pres_yield : pt_pres yield.
Proof.
  unfold yield, myproc. apply pt_pres_bind; [apply pt_pres_keeps; keeps_tac|]. intros _.
  apply pt_pres_bind; [apply pt_pres_keeps; keeps_tac|]. intros i.
  apply pt_pres_bind; [apply pt_pres_upd; intros t; by apply calm_state|]. intros _. apply (keeps_sched_inv (λ _ k, pt_inv (k_pt k))).
Qed.

Lemma keeps_switchuvm_pt i : keeps k_pt (switchuvm i).
Proof. unfold switchuvm, getproc. keeps_tac. Qed.

Lemma pt_pres_visit i : pt_pres (scheduler_visit i).
Proof.
  unfold scheduler_visit. apply pt_pres_bind; [apply pt_pres_keeps; unfold getproc; keeps_tac|]. intros p.
  destruct (negb _); [by intros k|]. apply pt_pres_bind; [apply pt_pres_keeps; unfold set_cpuproc; keeps_tac|]. intros _.
  apply pt_pres_bind; [apply pt_pres_keeps, keeps_switchuvm_pt|]. intros _.
  apply pt_pres_bind; [apply pt_pres_upd; intros t; by apply calm_state|]. intros _. by intros k.
Qed.

Lemma runs_elim {A} P (m : K A) k k' : runs P m (λ _ k, pt_inv (k_pt k)) (λ k, pt_inv (k_pt k)) → P k →
  (m k = Sleeps k' ∨ ∃ a, m k = Ok a k') → pt_inv (k_pt k').
Proof. intros Hr Hk Ho. specialize (Hr k Hk). by destruct Ho as [Ho|[a Ho]]; rewrite Ho in Hr. Qed.

Lemma runs_sleep_wake me W : runs (λ k, pt_inv (k_pt k) ∧ curproc (k_mach k) = Some me) (sleep_wake L_ptable)
  (λ _ k, pt_inv (k_pt k) ∧ curproc (k_mach k) = Some me) W.
Proof.
  intros k [Hk Hme]. unfold sleep_wake. rewrite (bind_run _ _ me k k) by (unfold myproc, get, need, mbind, M_bind; by rewrite Hme).
  rewrite bool_decide_true by done. cbn. split; [|done]. eapply pt_inv_calm, Hk. apply calm_upd. intros p _. cbn. naive_solver.
Qed.

Lemma pt_pres_wait : pt_pres wait.
Proof.
  unfold wait. apply pt_pres_bind; [apply pt_pres_keeps; keeps_tac|]. intros _.
  eapply (runs_bind _ _ _ (λ me k, pt_inv (k_pt k) ∧ curproc (k_mach k) = Some me)); [|apply runs_wait_loop].
  intros k Hk. unfold myproc, get, need, mbind, M_bind. by destruct (curproc (k_mach k)) eqn:E.
Qed.

(** A new process, not the first one, gets a parent. *)
Lemma pt_inv_parent np me q t : pt_proc t !! np = Some q → p_state q = EMBRYO → np ≠ me → pt_initproc t ≠ Some np →
  pt_inv t → pt_inv (set_procs (alter (set_p_parent (Some me)) np) t).
Proof.
  intros Hq Hs Hne Hni [Hw Hself Hi].
  assert (Hl : ∀ j p', alter (set_p_parent (Some me)) np (pt_proc t) !! j = Some p' →
    j = np ∧ p' = set_p_parent (Some me) q ∨ j ≠ np ∧ pt_proc t !! j = Some p').
  { intros j p'. destruct (decide (j = np)) as [->|?].
    - rewrite list_lookup_alter_eq, Hq. intros [= <-]. by left.
    - rewrite list_lookup_alter_ne by done. by right. }
  split; cbn.
  - intros i j (p & Hp & Hsl & Hc) (c & Hcl & Hpar & Hz).
    apply Hl in Hcl as [[-> ->]|[_ Hcl]]; [cbn in Hz; congruence|].
    apply Hl in Hp as [[-> ->]|[_ Hp]]; [cbn in Hsl; congruence|].
    apply (Hw i j); [by exists p|by exists c].
  - intros i p' [[-> ->]|[_ Hp']]%Hl; [cbn; congruence|by eapply Hself].
  - intros i p' Hin [[-> ->]|[_ Hp']]%Hl; [congruence|by eapply Hi].
Qed.
