(* ===== verification/Syscall.v ===== *)
(** * Syscall: system call arguments and the process system calls

    kernel/syscall.c (64-bit build) up to the dispatch, and kernel/sysproc.c.
    The kernel reads and writes user memory at user addresses, through the
    page table of the running process: [uaddr] is the kernel address of a user
    byte, and an address that is not mapped faults.  A pointer argument that
    passed its check is used here as the bytes it points to: no system call
    runs while another one of the same process does. *)

From stdpp Require Import prelude functions gmap strings.
From S2P Require Import Prelude Types Ring Spinlock Sched Cstr Ide Bio Block Frame Log Fs FsInode Kalloc Pipe File Cprintf Vm Proc.
Open Scope Z_scope.

(** ** User memory *)

(** A page directory maps the first gigabyte. *)
Definition uaddr (va : Z) : K Z :=
  me ← myproc;
  p ← getproc me;
  if 2 ^ 30 <=? va then need None else
  pte ← walkpgdir (p_pgdir p) va false;
  if pte =? 0 then need None else
  e ← kread64 pte;
  if has e PTE_P then mret (p2v (PTE_ADDR e) + va mod PGSIZE) else need None.

Definition uload (va : Z) : K Z := a ← uaddr va; km ← getkm; mret (km_mem km a).
Fixpoint ubytes (va : Z) (n : nat) : K (list Z) :=
  match n with
  | O => mret []
  | S n => b ← uload va; l ← ubytes (va + 1) n; mret (b :: l)
  end.
Fixpoint ustore (va : Z) (l : list Z) : K unit :=
  match l with
  | [] => mret tt
  | b :: l => a ← uaddr va; updkm (λ x, set_km_mem (<[a := b]> (km_mem x)) x);; ustore (va + 1) l
  end.

(** ** Arguments *)

(** The fetched value, or nothing for -1. *)
Definition fetchint (addr : Z) : K (option Z) :=
  me ← myproc;
  p ← getproc me;
  if (p_sz p <=? addr) || (p_sz p <? u64 (addr + 4)) then mret None else
  l ← ubytes addr 4;
  mret (Some (i32 (le_get l))).
Definition fetchuintp (addr : Z) : K (option Z) :=
  me ← myproc;
  p ← getproc me;
  if (p_sz p <=? addr) || (p_sz p <? u64 (addr + 8)) then mret None else
  l ← ubytes addr 8;
  mret (Some (le_get l)).

(** The bytes from [s] to the NUL, if it comes within [n] bytes. *)
Fixpoint fetchstr_loop (s : Z) (n : nat) : K (option (list Z)) :=
  match n with
  | O => mret None
  | S n =>
      c ← uload s;
      if c =? 0 then mret (Some []) else
      r ← fetchstr_loop (s + 1) n;
      mret (cons c <$> r)
  end.
(** The value returned and the string at [*pp]. *)
Definition fetchstr (addr : Z) : K (Z * list Z) :=
  me ← myproc;
  p ← getproc me;
  if p_sz p <=? addr then mret (-1, []) else
  r ← fetchstr_loop addr (Z.to_nat (p_sz p - addr));
  match r with
  | Some s => mret (i32 (Z.of_nat (length s)), s)
  | None => mret (-1, [])
  end.

(** Arguments passed in registers. *)
Definition fetcharg (n : Z) : K Z :=
  me ← myproc;
  p ← getproc me;
  let tf := p_tf p in
  mret (if n =? 0 then tf_rdi tf else if n =? 1 then tf_rsi tf else if n =? 2 then tf_rdx tf else
        if n =? 3 then tf_rcx tf else if n =? 4 then tf_r8 tf else if n =? 5 then tf_r9 tf else 0).

(** The value returned and the value stored at [*ip]. *)
Definition argint (n : Z) : K (Z * Z) := v ← fetcharg n; mret (0, i32 v).
Definition arguintp (n : Z) : K (Z * Z) := v ← fetcharg n; mret (0, v).

(** [i+size] adds the sign-extended [size]. *)
Definition argptr (n size : Z) : K (Z * Z) :=
  '(r, i) ← arguintp n;
  if r <? 0 then mret (-1, 0) else
  me ← myproc;
  p ← getproc me;
  if (p_sz p <=? i) || (p_sz p <? u64 (i + size)) then mret (-1, 0) else
  mret (0, i).

Definition argstr (n : Z) : K (Z * list Z) :=
  '(r, addr) ← arguintp n;
  if r <? 0 then mret (-1, []) else
  fetchstr addr.

(** ** sysproc.c *)

Section with_kvm.
Variable kv : kvm.
Context `{Devsw}.

Definition sys_fork : K Z := fork kv.
End with_kvm.

Definition sys_exit : K Z := exit;; mret 0.
Definition sys_wait : K Z := wait.
Definition sys_kill : K Z :=
  '(r, pid) ← argint 0;
  if r <? 0 then mret (-1) else kill pid.
Definition sys_getpid : K Z := me ← myproc; p ← getproc me; mret (p_pid p).

(** [growproc] takes an [int]. *)
Definition sys_sbrk : K Z :=
  '(r, n) ← arguintp 0;
  if r <? 0 then mret (u64 (-1)) else
  me ← myproc;
  p ← getproc me;
  let addr := p_sz p in
  g ← growproc (i32 n);
  if g <? 0 then mret (u64 (-1)) else mret addr.

(** [ticks - ticks0 < n] compares unsigned. *)
Fixpoint sys_sleep_loop (n ticks0 : Z) (rounds : nat) : K Z :=
  k ← get;
  if u32 (k_ticks k - ticks0) <? u32 n then
    b ← killed;
    if (b : bool) then release L_ticks;; mret (-1) else
    sleep ChTicks (Some L_ticks);;
    sleep_return L_ticks;;
    match rounds with O => spin | S rounds => sys_sleep_loop n ticks0 rounds end
  else
    release L_ticks;;
    mret 0.
Definition sys_sleep : K Z :=
  '(r, n) ← argint 0;
  if r <? 0 then mret (-1) else
  acquire L_ticks;;
  k ← get;
  sys_sleep_loop n (k_ticks k) 0.

Definition sys_uptime : K Z :=
  acquire L_ticks;;
  k ← get;
  release L_ticks;;
  mret (i32 (k_ticks k)).

(** ** Negative sizes *)

(** A negative size passes the check of [argptr] for every pointer that is not
    smaller than its absolute value, so that [read] with the count -1 reaches
    [readi], where the count is unsigned and is cut to the size of the file
    only. *)
Lemma argptr_negative k me p n size : curproc (k_mach k) = Some me → pt_proc (k_pt k) !! me = Some p →
  ∀ i, fetcharg n k = Ok i k → size < 0 → - size ≤ i < p_sz p → p_sz p ≤ 2 ^ 64 → argptr n size k = Ok (0, i) k.
Proof.
  intros Hme Hp i Hi Hs Hr Hz. unfold argptr, arguintp. rewrite (bind_run _ _ (0, i) k k) by (by rewrite (bind_run _ _ i k k)).
  cbn. rewrite (bind_run _ _ me k k) by (unfold myproc, get, need, mbind, M_bind; by rewrite Hme).
  rewrite (bind_run _ _ p k k) by (unfold getproc, get, need, mbind, M_bind; by rewrite Hp).
  unfold u64. rewrite Z.mod_small by lia. destruct (Z.leb_spec (p_sz p) i); [lia|]. destruct (Z.ltb_spec (p_sz p) (i + size)); [lia|]. done.
Qed.
