(* ===== verification/Exec.v ===== *)
(** * Exec: kernel/exec.c

    Replacing the image of a process.  The theorem is about failure: an
    [exec] that fails leaves the process its page table, its program counter and
    stack, its name and its files, and neither frees nor writes any page that
    was in use. *)

From stdpp Require Import prelude functions gmap strings.
From S2P Require Import Prelude Types Ring Spinlock Sched Cstr Ide Bio Block Frame Log Fs FsInode Kalloc Pipe File Cprintf Console Cpuid Vm VmPages Footprint Space Proc Syscall.
Open Scope Z_scope.

(** ** elf.h *)

Definition ELF_MAGIC : Z := 0x464C457F.
Definition ELF_PROG_LOAD : Z := 1.

Record elfhdr := mkElf {
  elf_magic : Z; elf_elf : list Z; elf_type : Z; elf_machine : Z; elf_version : Z;
  elf_entry : Z; elf_phoff : Z; elf_shoff : Z; elf_flags : Z;
  elf_ehsize : Z; elf_phentsize : Z; elf_phnum : Z; elf_shentsize : Z; elf_shnum : Z; elf_shstrndx : Z
}.
Definition ELFHDR_SIZE : Z := 64.
(** The bytes of a header, field by field. *)
Definition get64 (off : nat) (l : list Z) : Z := le_get (bslice off 8 l).
Definition elf_of_bytes (l : list Z) : elfhdr :=
  mkElf (get32 0 l) (bslice 4 12 l) (get16 16 l) (get16 18 l) (get32 20 l) (get64 24 l) (get64 32 l) (get64 40 l)
    (get32 48 l) (get16 52 l) (get16 54 l) (get16 56 l) (get16 58 l) (get16 60 l) (get16 62 l).

Record proghdr := mkPh {
  ph_type : Z; ph_flags : Z; ph_off : Z; ph_vaddr : Z; ph_paddr : Z; ph_filesz : Z; ph_memsz : Z; ph_align : Z
}.
Definition PROGHDR_SIZE : Z := 56.
Definition ph_of_bytes (l : list Z) : proghdr :=
  mkPh (get32 0 l) (get32 4 l) (get64 8 l) (get64 16 l) (get64 24 l) (get64 32 l) (get64 40 l) (get64 48 l).

(** ** exec.c *)

Section with_kvm.
Variable kv : kvm.
Context `{Devsw}.

(** The segments: the size of the image, or nothing for [goto bad]. *)
Fixpoint exec_load (ip : nat) (pgdir sz off : Z) (n : nat) : K (option Z) :=
  match n with
  | O => mret (Some sz)
  | S n =>
      rl ← readi ip (u32 off) PROGHDR_SIZE;
      if negb (rl.1 =? PROGHDR_SIZE) then mret None else
      let ph := ph_of_bytes rl.2 in
      if negb (ph_type ph =? ELF_PROG_LOAD) then exec_load ip pgdir sz (i32 (off + PROGHDR_SIZE)) n else
      if ph_memsz ph <? ph_filesz ph then mret None else
      r ← allocuvm pgdir (u32 sz) (u32 (ph_vaddr ph + ph_memsz ph));
      let sz := u64 r in
      if sz =? 0 then mret None else
      l ← loaduvm pgdir (ph_vaddr ph) ip (u32 (ph_off ph)) (u32 (ph_filesz ph));
      if l <? 0 then mret None else
      exec_load ip pgdir sz (i32 (off + PROGHDR_SIZE)) n
  end.

(** The argument strings: the stack pointer and the pointers to them, or
    nothing for [goto bad]. *)
Fixpoint exec_args (pgdir sp argc : Z) (argv : list (list Z)) (ustack : list Z) : K (option (Z * Z * list Z)) :=
  match argv with
  | [] => mret (Some (sp, argc, ustack))
  | s :: argv =>
      if MAXARG <=? argc then mret None else
      let len := Z.of_nat (length s) + 1 in
      let sp := Z.land (u64 (sp - len)) (Z.lnot 7) in
      r ← copyout pgdir (u32 sp) (s ++ [0]) len;
      if r <? 0 then mret None else
      exec_args pgdir sp (argc + 1) argv (ustack ++ [sp])
  end.

(** The last element of a path. *)
Fixpoint exec_name (last s : list Z) : list Z :=
  match s with
  | [] => last
  | c :: s => exec_name (if c =? slash then s else last) s
  end.

Definition exec_bad (pgdir : Z) (ip : option nat) : K Z :=
  when (negb (pgdir =? 0)) (freevm pgdir);;
  match ip with
  | Some ip => iunlockput ip;; end_op
  | None => mret tt
  end;;
  mret (-1).

(** From the user stack on. *)
Definition exec_stack (path : list Z) (argv : list (list Z)) (entry pgdir sz : Z) : K Z :=
  let sz := PGROUNDUP sz in
  r ← allocuvm pgdir (u32 sz) (u32 (sz + 2 * PGSIZE));
  let sz := u64 r in
  if sz =? 0 then exec_bad pgdir None else
  clearpteu pgdir (u64 (sz - 2 * PGSIZE));;
  a ← exec_args pgdir sz 0 argv [];
  match a with
  | None => exec_bad pgdir None
  | Some (sp, argc, ptrs) =>
      let uargv := u64 (sp - (argc + 1) * 8) in
      let ustack := [0xffffffff; argc; uargv] ++ ptrs ++ [0] in
      me ← myproc;
      updproc me (λ p, set_p_tf (set_tf_rdi argc (p_tf p)) p);;
      updproc me (λ p, set_p_tf (set_tf_rsi uargv (p_tf p)) p);;
      let sp := u64 (sp - (3 + argc + 1) * 8) in
      r ← copyout pgdir (u32 sp) (concat (le_put 8 <$> ustack)) ((3 + argc + 1) * 8);
      if r <? 0 then exec_bad pgdir None else
      updproc me (set_p_name (strname (exec_name path path)));;
      p ← getproc me;
      let oldpgdir := p_pgdir p in
      updproc me (set_p_pgdir pgdir);;
      updproc me (set_p_sz sz);;
      updproc me (λ p, set_p_tf (set_tf_eip entry (p_tf p)) p);;
      updproc me (λ p, set_p_tf (set_tf_esp sp (p_tf p)) p);;
      switchuvm me;;
      freevm oldpgdir;;
      mret 0
  end.

(** The comparison of [readi]'s result with [sizeof(elf)] is unsigned, so
    that -1 passes it; the header is then read without having been stored,
    which is undefined. *)
Definition exec (path : list Z) (argv : list (list Z)) : K Z :=
  begin_op;;
  o ← namei path;
  match o with
  | None => end_op;; mret (-1)
  | Some ip =>
      ilock (Some ip);;
      rl ← readi ip 0 ELFHDR_SIZE;
      if u64 rl.1 <? ELFHDR_SIZE then exec_bad 0 (Some ip) else
      if rl.1 <? 0 then need None else
      let elf := elf_of_bytes rl.2 in
      if negb (elf_magic elf =? ELF_MAGIC) then exec_bad 0 (Some ip) else
      pgdir ← setupkvm kv;
      if pgdir =? 0 then exec_bad 0 (Some ip) else
      r ← exec_load ip pgdir 0 (i32 (elf_phoff elf)) (Z.to_nat (elf_phnum elf));
      match r with
      | None => exec_bad pgdir (Some ip)
      | Some sz =>
          iunlockput ip;;
          end_op;;
          exec_stack path argv (elf_entry elf) pgdir sz
      end
  end.
End with_kvm.

(** ** Failure *)

(** What [exec] must leave alone until it commits: everything of the
    processes but what scheduling changes, and but the two registers that
    carry the arguments of the new program. *)
Definition settled (p : proc) : proc := set_p_tf (set_tf_rdi 0 (set_tf_rsi 0 (p_tf p))) (image p).
Definition settled_procs (k : kernel) : list proc := settled <$> pt_proc (k_pt k).

#[global] Instance inerts_settled : InertS settled_procs.
Proof. repeat split; try done. intros t k Ht. by apply (images_proj settled). Qed.

Section failure.
Variable kv : kvm.
Context `{D : Devsw} `{!DevKeeps settled_procs D}.

Lemma exec_bad_keeps pgdir ip : keeps settled_procs (exec_bad pgdir ip).
Proof. unfold exec_bad. keeps_tac. Qed.
Lemma exec_load_keeps ip pgdir n : ∀ sz off, keeps settled_procs (exec_load ip pgdir sz off n).
Proof. induction n; intros; cbn [exec_load]; keeps_tac. Qed.
Lemma exec_args_keeps pgdir argv : ∀ sp argc us, keeps settled_procs (exec_args pgdir sp argc argv us).
Proof. induction argv; intros; cbn [exec_args]; keeps_tac. Qed.
#[local] Hint Resolve exec_bad_keeps exec_load_keeps exec_args_keeps : keeps.
Lemma settled_tf i g : (∀ p, settled (g p) = settled p) → keeps settled_procs (updproc i g).
Proof. intros Hg. apply keeps_modify. intros k. by apply fmap_alter_same. Qed.

(** The runs that do not succeed. *)
Definition fails_clean (m : K Z) : Prop :=
  ∀ k r k', m k = Ok r k' → r = 0 ∨ r = -1 ∧ settled_procs k' = settled_procs k.
Definition succeeds (m : K Z) : Prop := ∀ k r k', m k = Ok r k' → r = 0.

Lemma fails_clean_bad pgdir ip : fails_clean (exec_bad pgdir ip).
Proof.
  intros k r k' H. right. split; [|by eapply keeps_ok; [apply exec_bad_keeps|]].
  unfold exec_bad in H. inv_ok H as u k1 H1. inv_ok H as v k2 H2. unfold mret, M_ret in H. by simplify_eq.
Qed.
Lemma fails_clean_end : fails_clean (end_op;; mret (-1)).
Proof.
  intros k r k' H. right. inv_ok H as u k1 H1. unfold mret, M_ret in H. simplify_eq. split; [done|].
  eapply keeps_ok; [|exact H1]. keeps_tac.
Qed.
Lemma fails_clean_bind {A} (m : K A) (g : A → K Z) :
  keeps settled_procs m → (∀ a, fails_clean (g a)) → fails_clean (m ≫= g).
Proof.
  intros Hm Hg k r k' H. inv_ok H as a k1 H1. apply (keeps_ok _ _ _ _ _ Hm) in H1.
  destruct (Hg a _ _ _ H) as [|[? He]]; [by left|right; split; congruence].
Qed.
Lemma fails_clean_succeeds m : succeeds m → fails_clean m.
Proof. intros Hs k r k' H. left. by eapply Hs. Qed.
Lemma succeeds_ret : succeeds (mret 0).
Proof. intros k r k' H. unfold mret, M_ret in H. by simplify_eq. Qed.
Lemma succeeds_bind {A} (m : K A) (g : A → K Z) : (∀ a, succeeds (g a)) → succeeds (m ≫= g).
Proof. intros Hg k r k' H. inv_ok H as a k1 H1. by eapply Hg. Qed.

Lemma fails_clean_stack path argv entry pgdir sz : fails_clean (exec_stack path argv entry pgdir sz).
Proof.
  unfold exec_stack. apply fails_clean_bind; [keeps_tac|]. intros r. cbv zeta. destruct (u64 r =? 0); [apply fails_clean_bad|].
  apply fails_clean_bind; [keeps_tac|]. intros _. apply fails_clean_bind; [keeps_tac|]. intros [[[sp argc] ptrs]|]; [|apply fails_clean_bad].
  apply fails_clean_bind; [keeps_tac|]. intros me. do 2 (apply fails_clean_bind; [by apply settled_tf|]; intros _).
  apply fails_clean_bind; [keeps_tac|]. intros r2. destruct (r2 <? 0); [apply fails_clean_bad|].
  apply fails_clean_succeeds. repeat (apply succeeds_bind; intros). apply succeeds_ret.
Qed.

Lemma fails_clean_exec path argv : fails_clean (exec kv path argv).
Proof.
  unfold exec. apply fails_clean_bind; [keeps_tac|]. intros _. apply fails_clean_bind; [keeps_tac|].
  intros [ip|]; [|apply fails_clean_end]. apply fails_clean_bind; [keeps_tac|]. intros _.
  apply fails_clean_bind; [keeps_tac|]. intros rl. destruct (u64 rl.1 <? ELFHDR_SIZE); [apply fails_clean_bad|].
  destruct (rl.1 <? 0); [by intros k r k' H|]. cbv zeta. destruct (negb _); [apply fails_clean_bad|].
  apply fails_clean_bind; [keeps_tac|]. intros pgdir. destruct (pgdir =? 0); [apply fails_clean_bad|].
  apply fails_clean_bind; [keeps_tac|]. intros [sz|]; [|apply fails_clean_bad].
  do 2 (apply fails_clean_bind; [keeps_tac|]; intros _). apply fails_clean_stack.
Qed.
End failure.

(** ** Memory *)

Section memory.
Context (all old : list Z) (m0 : mem) (e0 : Z) (He0 : KERNBASE + PGSIZE ≤ e0).
Variable kv : kvm.
Context `{D : Devsw} `{!DevKeeps k_kmem D} (Hshort : ∀ ip, reads_short ip).

(** The pages in use at the beginning still are, with what was in them. *)
Definition intact (km : kmem) : Prop := ∃ R used, base all old m0 e0 R used km.
Definition intact_or_0 (r : Z) (km : kmem) : Prop := r = 0 ∨ intact km.

Lemma mlp_bad_end ip km : intact km → mlp (match ip with Some ip => iunlockput ip;; end_op | None => mret tt end;; mret (-1)) intact_or_0 km.
Proof. intros Hi. apply mlp_keep_bind; [destruct ip; keeps_tac|]. intros _. apply mlp_ret. by right. Qed.
Lemma mlp_bad_0 ip km : intact km → mlp (exec_bad 0 ip) intact_or_0 km.
Proof. intros Hi. unfold exec_bad. cbn [when]. apply mlp_bind, mlp_ret. by apply mlp_bad_end. Qed.
Lemma mlp_bad pgdir ip km : pgdir ≠ 0 → has_space all old m0 e0 pgdir km → mlp (exec_bad pgdir ip) intact_or_0 km.
Proof.
  intros Hne Hs. unfold exec_bad. rewrite (proj2 (Z.eqb_neq _ _) Hne). cbn [negb when]. apply mlp_bind.
  eapply mlp_mono; [by eapply mlp_freevm|]. intros ? x Hx. by apply mlp_bad_end.
Qed.

Lemma mlp_load ip pgdir n : ∀ sz off km, has_space all old m0 e0 pgdir km → mlp (exec_load ip pgdir sz off n) (λ _, has_space all old m0 e0 pgdir) km.
Proof.
  induction n as [|n IH]; intros sz off km Hs; cbn [exec_load]; [by apply mlp_ret|].
  apply mlp_keep_bind; [keeps_tac|]. intros rl. destruct (negb _); [by apply mlp_ret|]. cbv zeta. destruct (negb _); [by apply IH|].
  destruct (_ <? _); [by apply mlp_ret|]. apply mlp_bind. eapply mlp_mono; [apply mlp_allocuvm; [exact Hs|apply u32_range|apply u32_range]|].
  intros r x Hx. destruct (_ =? 0); [by apply mlp_ret|]. apply mlp_bind. eapply mlp_mono; [by apply (mlp_loaduvm all old m0 e0 He0)|].
  intros l y Hy. destruct (l <? 0); [by apply mlp_ret|]. by apply IH.
Qed.
Lemma mlp_args pgdir argv : ∀ sp argc us km, has_space all old m0 e0 pgdir km → mlp (exec_args pgdir sp argc argv us) (λ _, has_space all old m0 e0 pgdir) km.
Proof.
  induction argv as [|s argv IH]; intros sp argc us km Hs; cbn [exec_args]; [by apply mlp_ret|]. destruct (_ <=? _); [by apply mlp_ret|]. cbv zeta.
  apply mlp_bind. eapply mlp_mono; [apply mlp_copyout; [exact Hs|apply u32_range]|]. intros r x Hx. destruct (r <? 0); [by apply mlp_ret|]. by apply IH.
Qed.
Lemma mlp_succeeds m km : succeeds m → mlp m intact_or_0 km.
Proof. intros Hm k r k' _ H. left. by eapply Hm. Qed.
Lemma keeps_kmem_proc i g : keeps k_kmem (updproc i g).
Proof. by apply keeps_modify. Qed.

Lemma mlp_stack path argv entry pgdir sz km : pgdir ≠ 0 → has_space all old m0 e0 pgdir km → mlp (exec_stack path argv entry pgdir sz) intact_or_0 km.
Proof.
  intros Hne Hs. unfold exec_stack. cbv zeta. apply mlp_bind. eapply mlp_mono; [apply mlp_allocuvm; [exact Hs|apply u32_range|apply u32_range]|].
  intros r x Hx. destruct (_ =? 0); [by apply mlp_bad|]. apply mlp_bind. eapply mlp_mono; [eapply mlp_clearpteu, Hx|]. intros ? x1 Hx1.
  apply mlp_bind. eapply mlp_mono; [by apply mlp_args|]. intros [[[sp argc] ptrs]|] x2 Hx2; [|by apply mlp_bad].
  apply mlp_keep_bind; [keeps_tac|]. intros me. do 2 (apply mlp_keep_bind; [apply keeps_kmem_proc|]; intros _).
  apply mlp_bind. eapply mlp_mono; [apply mlp_copyout; [exact Hx2|apply u32_range]|]. intros r2 x3 Hx3. destruct (r2 <? 0); [by apply mlp_bad|].
  apply mlp_succeeds. repeat (apply succeeds_bind; intros). apply succeeds_ret.
Qed.

Lemma mlp_exec path argv R used km : base all old m0 e0 R used km → (∀ t i, R !! t ≠ Some (O_table i)) → mlp (exec kv path argv) intact_or_0 km.
Proof.
  intros Hb Hnt. assert (Hi : intact km) by (by exists R, used). unfold exec. apply mlp_keep_bind; [keeps_tac|]. intros _.
  apply mlp_keep_bind; [keeps_tac|]. intros [ip|]; [|apply mlp_keep_bind; [keeps_tac|]; intros _; apply mlp_ret; by right].
  apply mlp_keep_bind; [keeps_tac|]. intros _. apply mlp_keep_bind; [keeps_tac|]. intros rl. destruct (_ <? ELFHDR_SIZE); [by apply mlp_bad_0|].
  destruct (rl.1 <? 0); [apply mlp_fault|]. cbv zeta. destruct (negb _); [by apply mlp_bad_0|].
  apply mlp_bind. eapply mlp_mono; [by eapply mlp_setupkvm|]. intros pgdir x Hx.
  destruct (Z.eqb_spec pgdir 0) as [_|Hne]; [apply mlp_bad_0; destruct Hx as (R1 & used1 & Hs1); exists R1, used1; apply Hs1|].
  apply mlp_bind. eapply mlp_mono; [by apply mlp_load|]. intros [sz|] y Hy; [|by apply mlp_bad].
  do 2 (apply mlp_keep_bind; [keeps_tac|]; intros _). by apply mlp_stack.
Qed.
End memory.

(** C18: a failing [exec] is harmless.  With the console and cpuid drivers, an
    [exec] that returns returns 0 or -1.  When it returns -1, every process has
    the memory size, page table, kernel stack, program counter, stack pointer,
    files, directory and name it had: of the caller at most the two argument
    registers have changed.  And when the allocator was in order, it still is,
    and every page that was in use - those of the caller's memory and page
    tables are such pages - is still in use and has the contents it had.  The
    allocator's pages lie above physical page 0, as [end] does. *)
Theorem exec_fails_clean kv v path argv k r k' : @exec kv (devsw v) path argv k = Ok r k' →
  r = 0 ∨ r = -1 ∧ settled_procs k' = settled_procs k ∧
    ∀ all used, kmem_inv all used (k_kmem k) → KERNBASE + PGSIZE ≤ km_end (k_kmem k) →
      ∃ used', kmem_inv all used' (k_kmem k') ∧ used ⊆ used' ∧
        ∀ p a, p ∈ used → in_page p a → km_mem (k_kmem k') a = km_mem (k_kmem k) a.
Proof.
  intros H. destruct (@fails_clean_exec kv (devsw v) _ path argv k r k' H) as [|[-> Hs]]; [by left|]. right. split; [done|]. split; [done|].
  intros all used Hk He. destruct (base_start all used _ Hk) as [Hb Hnt].
  destruct (@mlp_exec _ _ _ _ He kv (devsw v) _ (devsw_short v) path argv _ _ _ Hb Hnt k _ _ eq_refl H) as [|(R & used' & Hb')]; [done|].
  exists used'. split; [apply Hb'|]. split.
  - intros p Hp. by eapply bs_used, (bs_old _ _ _ _ _ _ _ Hb').
  - intros p a Hp. by apply (bs_mem _ _ _ _ _ _ _ Hb'), (bs_old _ _ _ _ _ _ _ Hb').
Qed.

(** A process whose directory is an empty one, and a page in use; the path does
    not exist. *)
Definition exec_page : Z := KERNBASE + 0x200000.
Definition exec_demo : kernel :=
  set_kmem (mkKmem false 0 (KERNBASE + 0x100000) (λ a, a mod 256))
  (set_ic (<[0%nat := mkInode 1 1 1 I_VALID T_DIR 0 0 1 0 0 0 0 (replicate 11 0)]> (k_ic (kernel0 ∅)))
    (set_pt (set_procs (alter (set_p_cwd (Some 0%nat)) 0%nat) (k_pt (kernel0 ∅))) (kernel0 ∅))).
Definition exec_demo' : kernel :=
  match @exec (mkKvm 0 0 0 0 0) (devsw (mkCpuid 0 [] 0 0 0 0 0)) (str "x") [] exec_demo with Ok _ k => k | _ => exec_demo end.
Lemma exec_fails_clean_witness : settled_procs exec_demo' = settled_procs exec_demo ∧
  ∃ used', kmem_inv [exec_page] used' (k_kmem exec_demo') ∧ exec_page ∈ used' ∧ km_mem (k_kmem exec_demo') (exec_page + 100) = 100.
Proof.
  destruct (exec_fails_clean (mkKvm 0 0 0 0 0) (mkCpuid 0 [] 0 0 0 0 0) (str "x") [] exec_demo (-1) exec_demo')
    as [H|[_ [H Hm]]]; [vm_compute; reflexivity|discriminate H|]. split; [exact H|].
  destruct (Hm [exec_page] [exec_page]) as (used' & Hk & Hu & Hc).
  - exists []. split; [reflexivity|]. split; [reflexivity|]. split; [apply NoDup_singleton|]. apply Forall_singleton. split_and!; vm_compute; congruence.
  - vm_compute. congruence.
  - exists used'. split; [exact Hk|]. split; [apply Hu; left|]. rewrite (Hc exec_page); [reflexivity|left|]. unfold in_page, PGSIZE. lia.
Defined.
