(* ===== verification/Sysfile.v ===== *)
(** * Sysfile: the file system calls, kernel/sysfile.c

    Descriptors, reading and writing, and the calls on names.  The theorem
    about them is in Descr. *)

From stdpp Require Import prelude functions gmap strings.
From S2P Require Import Prelude Types Ring Spinlock Sched Cstr Ide Bio Block Frame Log Fs FsInode Kalloc Pipe File Cprintf Console Cpuid Vm Footprint Proc Syscall Exec.
Open Scope Z_scope.

(** ** fcntl.h *)

Definition O_RDONLY : Z := 0x000.
Definition O_WRONLY : Z := 0x001.
Definition O_RDWR : Z := 0x002.
Definition O_CREATE : Z := 0x200.

(** ** Descriptors *)

(** The descriptor and the file, or nothing for -1. *)
Definition argfd (n : Z) : K (option (nat * nat)) :=
  '(r, fd) ← argint n;
  if r <? 0 then mret None else
  me ← myproc;
  p ← getproc me;
  if (fd <? 0) || (NOFILE <=? fd) then mret None else
  mret (match p_ofile p !! Z.to_nat fd with
        | Some (Some f) => Some (Z.to_nat fd, f)
        | _ => None
        end).

(** The first free descriptor. *)
Fixpoint fd_scan (ofile : list (option nat)) (fd : nat) : option nat :=
  match ofile with
  | [] => None
  | None :: _ => Some fd
  | Some _ :: ofile => fd_scan ofile (S fd)
  end.
Definition fdalloc (f : nat) : K Z :=
  me ← myproc;
  p ← getproc me;
  match fd_scan (p_ofile p) 0 with
  | Some fd =>
      updproc me (λ q, set_p_ofile (<[fd := Some f]> (p_ofile q)) q);;
      mret (Z.of_nat fd)
  | None => mret (-1)
  end.
(** [proc->ofile[fd] = 0] *)
Definition fdclear (fd : nat) : K unit :=
  me ← myproc;
  updproc me (λ q, set_p_ofile (<[fd := None]> (p_ofile q)) q).

Definition sys_dup : K Z :=
  o ← argfd 0;
  match o with
  | None => mret (-1)
  | Some (_, f) =>
      fd ← fdalloc f;
      if fd <? 0 then mret (-1) else
      filedup f;;
      mret fd
  end.

Definition sys_close : K Z :=
  o ← argfd 0;
  match o with
  | None => mret (-1)
  | Some (fd, f) =>
      fdclear fd;;
      fileclose f;;
      mret 0
  end.

(** [struct stat] in memory: its fields at their offsets; the padding is not
    stored. *)
Definition STAT_SIZE : Z := 28.
Definition ustore_stat (a : Z) (st : stat) : K unit :=
  ustore a (le_put 2 (u16 (st_type st)));;
  ustore (a + 4) (le_put 4 (u32 (st_dev st)));;
  ustore (a + 8) (le_put 4 (u32 (st_ino st)));;
  ustore (a + 12) (le_put 2 (u16 (st_nlink st)));;
  ustore (a + 14) (le_put 2 (u16 (st_ownerid st)));;
  ustore (a + 16) (le_put 2 (u16 (st_groupid st)));;
  ustore (a + 20) (le_put 4 (u32 (st_mode st)));;
  ustore (a + 24) (le_put 4 (u32 (st_size st))).

Definition sys_fstat : K Z :=
  o ← argfd 0;
  match o with
  | None => mret (-1)
  | Some (_, f) =>
      '(r, a) ← argptr 1 STAT_SIZE;
      if r <? 0 then mret (-1) else
      rs ← filestat f;
      match rs.2 with Some st => ustore_stat a st | None => mret tt end;;
      mret rs.1
  end.

Definition sys_pipe : K Z :=
  '(r, fd) ← argptr 0 8;
  if r <? 0 then mret (-1) else
  '(r, orf, owf) ← pipealloc;
  if r <? 0 then mret (-1) else
  rf ← need orf;
  wf ← need owf;
  fd0 ← fdalloc rf;
  fd1 ← (if fd0 <? 0 then mret (-1) else fdalloc wf);
  if (fd0 <? 0) || (fd1 <? 0) then
    when (0 <=? fd0) (fdclear (Z.to_nat fd0));;
    fileclose rf;;
    fileclose wf;;
    mret (-1)
  else
    ustore fd (le_put 4 (u32 fd0));;
    ustore (fd + 4) (le_put 4 (u32 fd1));;
    mret 0.

Definition noname : list Z := replicate (Z.to_nat DIRSIZ) 0.

Section with_devsw.
Context `{Devsw}.

(** ** Reading and writing *)

Definition sys_read : K Z :=
  o ← argfd 0;
  match o with
  | None => mret (-1)
  | Some (_, f) =>
      '(r, n) ← argint 2;
      if r <? 0 then mret (-1) else
      '(r, p) ← argptr 1 n;
      if r <? 0 then mret (-1) else
      rl ← fileread f n;
      ustore p rl.2;;
      mret rl.1
  end.

Definition sys_write : K Z :=
  o ← argfd 0;
  match o with
  | None => mret (-1)
  | Some (_, f) =>
      '(r, n) ← argint 2;
      if r <? 0 then mret (-1) else
      '(r, p) ← argptr 1 n;
      if r <? 0 then mret (-1) else
      l ← ubytes p (Z.to_nat n);
      filewrite f l n
  end.

(** ** Names *)

(** [bad:] of [sys_link]. *)
Definition sys_link_bad (ip : nat) : K Z :=
  ilock (Some ip);;
  updinode ip (λ x, set_i_nlink (i16 (i_nlink x - 1)) x);;
  iupdate ip;;
  iunlockput ip;;
  end_op;;
  mret (-1).
Definition sys_link : K Z :=
  '(r, old) ← argstr 0;
  if r <? 0 then mret (-1) else
  '(r, new) ← argstr 1;
  if r <? 0 then mret (-1) else
  begin_op;;
  o ← namei old;
  match o with
  | None => end_op;; mret (-1)
  | Some ip =>
      ilock (Some ip);;
      x ← getinode ip;
      if i_type x =? T_DIR then
        iunlockput ip;;
        end_op;;
        mret (-1)
      else
        updinode ip (λ x, set_i_nlink (i16 (i_nlink x + 1)) x);;
        iupdate ip;;
        iunlock (Some ip);;
        '(o, name) ← nameiparent new noname;
        match o with
        | None => sys_link_bad ip
        | Some dp =>
            ilock (Some dp);;
            d ← getinode dp;
            x ← getinode ip;
            r ← (if negb (i_dev d =? i_dev x) then mret (-1) else dirlink dp name (i_inum x));
            if r <? 0 then
              iunlockput dp;;
              sys_link_bad ip
            else
              iunlockput dp;;
              iput ip;;
              end_op;;
              mret 0
        end
  end.

Fixpoint isdirempty_loop (dp : nat) (off : Z) (fuel : nat) : K bool :=
  d ← getinode dp;
  if off <? i_size d then
    match fuel with
    | O => spin
    | S fuel =>
        rl ← readi dp off DIRENT_SIZE;
        if negb (rl.1 =? DIRENT_SIZE) then panic "isdirempty: readi" else
        if negb (de_inum (de_of_bytes rl.2) =? 0) then mret false else
        isdirempty_loop dp (off + DIRENT_SIZE) fuel
    end
  else mret true.
Definition isdirempty (dp : nat) : K bool :=
  d ← getinode dp;
  isdirempty_loop dp (2 * DIRENT_SIZE) (dir_fuel (i_size d)).

Definition sys_unlink_bad (dp : nat) : K Z :=
  iunlockput dp;;
  end_op;;
  mret (-1).
Definition sys_unlink : K Z :=
  '(r, path) ← argstr 0;
  if r <? 0 then mret (-1) else
  begin_op;;
  '(o, name) ← nameiparent path noname;
  match o with
  | None => end_op;; mret (-1)
  | Some dp =>
      ilock (Some dp);;
      if (namecmp (cells name) (cells (str "." ++ [0])) =? 0) || (namecmp (cells name) (cells (str ".." ++ [0])) =? 0)
      then sys_unlink_bad dp else
      o ← dirlookup dp name;
      match o with
      | None => sys_unlink_bad dp
      | Some (ip, off) =>
          ilock (Some ip);;
          x ← getinode ip;
          if i_nlink x <? 1 then panic "unlink: nlink < 1" else
          empty ← (if i_type x =? T_DIR then isdirempty ip else mret true);
          if negb empty then
            iunlockput ip;;
            sys_unlink_bad dp
          else
            r ← writei dp (replicate (Z.to_nat DIRENT_SIZE) 0) off DIRENT_SIZE;
            if negb (r =? DIRENT_SIZE) then panic "unlink: writei" else
            when (i_type x =? T_DIR) (
              updinode dp (λ d, set_i_nlink (i16 (i_nlink d - 1)) d);;
              iupdate dp);;
            iunlockput dp;;
            updinode ip (λ x, set_i_nlink (i16 (i_nlink x - 1)) x);;
            iupdate ip;;
            iunlockput ip;;
            end_op;;
            mret 0
      end
  end.

Definition create (path : list Z) (type major minor : Z) : K (option nat) :=
  '(o, name) ← nameiparent path noname;
  match o with
  | None => mret None
  | Some dp =>
      ilock (Some dp);;
      o ← dirlookup dp name;
      match o with
      | Some (ip, _) =>
          iunlockput dp;;
          ilock (Some ip);;
          x ← getinode ip;
          if (type =? T_FILE) && (i_type x =? T_FILE) then mret (Some ip) else
          iunlockput ip;;
          mret None
      | None =>
          d ← getinode dp;
          ip ← ialloc (i_dev d) type;
          ilock (Some ip);;
          updinode ip (set_i_major_minor major minor);;
          updinode ip (set_i_nlink 1);;
          iupdate ip;;
          when (type =? T_DIR) (
            updinode dp (λ d, set_i_nlink (i16 (i_nlink d + 1)) d);;
            iupdate dp;;
            x ← getinode ip;
            r ← dirlink ip (str "." ++ [0]) (i_inum x);
            r ← (if r <? 0 then mret r else dirlink ip (str ".." ++ [0]) (i_inum d));
            if r <? 0 then panic "create dots" else mret tt);;
          x ← getinode ip;
          r ← dirlink dp name (i_inum x);
          if r <? 0 then panic "create: dirlink" else
          iunlockput dp;;
          mret (Some ip)
      end
  end.

Definition sys_open : K Z :=
  '(r, path) ← argstr 0;
  if r <? 0 then mret (-1) else
  '(r, omode) ← argint 1;
  if r <? 0 then mret (-1) else
  begin_op;;
  o ← (if has omode O_CREATE then create path T_FILE 0 0 else
       o ← namei path;
       match o with
       | None => mret None
       | Some ip =>
           ilock (Some ip);;
           x ← getinode ip;
           if (i_type x =? T_DIR) && negb (omode =? O_RDONLY) then
             iunlockput ip;;
             mret None
           else mret (Some ip)
       end);
  match o with
  | None => end_op;; mret (-1)
  | Some ip =>
      o ← filealloc;
      fd ← match o with None => mret (-1) | Some f => fdalloc f end;
      match o with
      | Some f =>
          if fd <? 0 then
            fileclose f;;
            iunlockput ip;;
            end_op;;
            mret (-1)
          else
            iunlock (Some ip);;
            end_op;;
            updfile f (set_f_type FD_INODE);;
            updfile f (set_f_ip (Some ip));;
            updfile f (set_f_off 0);;
            updfile f (set_f_mode (negb (has omode O_WRONLY)) (has omode O_WRONLY || has omode O_RDWR));;
            mret fd
      | None =>
          iunlockput ip;;
          end_op;;
          mret (-1)
      end
  end.

Definition sys_mkdir : K Z :=
  begin_op;;
  '(r, path) ← argstr 0;
  o ← (if r <? 0 then mret None else create path T_DIR 0 0);
  match o with
  | None => end_op;; mret (-1)
  | Some ip => iunlockput ip;; end_op;; mret 0
  end.

Definition sys_mknod : K Z :=
  begin_op;;
  '(len, path) ← argstr 0;
  '(r1, major) ← argint 1;
  '(r2, minor) ← argint 2;
  o ← (if (len <? 0) || (r1 <? 0) || (r2 <? 0) then mret None else create path T_DEV (i16 major) (i16 minor));
  match o with
  | None => end_op;; mret (-1)
  | Some ip => iunlockput ip;; end_op;; mret 0
  end.

Definition sys_chdir : K Z :=
  begin_op;;
  '(r, path) ← argstr 0;
  o ← (if r <? 0 then mret None else namei path);
  match o with
  | None => end_op;; mret (-1)
  | Some ip =>
      ilock (Some ip);;
      x ← getinode ip;
      if negb (i_type x =? T_DIR) then
        iunlockput ip;;
        end_op;;
        mret (-1)
      else
        iunlock (Some ip);;
        me ← myproc;
        p ← getproc me;
        cwd ← need (p_cwd p);
        iput cwd;;
        end_op;;
        updproc me (set_p_cwd (Some ip));;
        mret 0
  end.

Definition sys_chmod : K Z :=
  '(r, path) ← argstr 0;
  if r <? 0 then mret (-1) else
  '(r, mode) ← argint 1;
  if r <? 0 then mret (-1) else
  begin_op;;
  o ← namei path;
  match o with
  | None => end_op;; mret (-1)
  | Some ip =>
      ilock (Some ip);;
      updinode ip (set_i_mode (u32 mode));;
      iupdate ip;;
      iunlockput ip;;
      end_op;;
      mret 0
  end.

(** The argument strings, from the [i]-th on; nothing for -1. *)
Fixpoint exec_argv (uargv : Z) (i : Z) (n : nat) : K (option (list (list Z))) :=
  match n with
  | O => mret None
  | S n =>
      o ← fetchuintp (u64 (uargv + 8 * i));
      match o with
      | None => mret None
      | Some uarg =>
          if uarg =? 0 then mret (Some []) else
          '(r, s) ← fetchstr uarg;
          if r <? 0 then mret None else
          l ← exec_argv uargv (i + 1) n;
          mret (cons s <$> l)
      end
  end.
Definition sys_exec (kv : kvm) : K Z :=
  '(r, path) ← argstr 0;
  if r <? 0 then mret (-1) else
  '(r, uargv) ← arguintp 1;
  if r <? 0 then mret (-1) else
  o ← exec_argv uargv 0 (Z.to_nat MAXARG);
  match o with
  | None => mret (-1)
  | Some argv => exec kv path argv
  end.
End with_devsw.
