(* ===== verification/Descr.v ===== *)
(** * Descr: descriptors and the file table

    The composition of the system calls of Sysfile, [fork] and [exit] with the
    table of open files: the reference count of an open file is always the
    number of descriptors that name it, over all processes. *)

From stdpp Require Import prelude functions gmap strings.
From S2P Require Import Prelude Types Ring Spinlock Sched Cstr Ide Bio Block Frame Log Fs FsInode Kalloc Pipe File Cprintf Console Cpuid Vm Footprint Proc Syscall Exec Sysfile.
Open Scope Z_scope.

(** ** Counting descriptors *)

Definition names (f : nat) (o : option nat) : nat := if decide (o = Some f) then 1 else 0.
(** The descriptors, of all processes, that name file [f]. *)
Definition fdcount (f : nat) (ls : list (list (option nat))) : nat := sum_list_with (sum_list_with (names f)) ls.

Lemma sum_insert {A} (g : A → nat) i (x y : A) l : l !! i = Some x →
  (sum_list_with g (<[i := y]> l) + g x = sum_list_with g l + g y)%nat.
Proof.
  revert i. induction l as [|z l IH]; intros [|i] Hi; try done.
  - injection Hi as ->. cbn. lia.
  - change (<[S i := y]> (z :: l)) with (z :: <[i := y]> l). cbn [sum_list_with]. specialize (IH i Hi). lia.
Qed.
Lemma sum_le {A} (g h : A → nat) l : (∀ x, (g x ≤ h x)%nat) → (sum_list_with g l ≤ sum_list_with h l)%nat.
Proof. intros Hgh. induction l as [|x l IH]; cbn; [lia|]. specialize (Hgh x). lia. Qed.
Lemma fdcount_bound f ls : (fdcount f ls ≤ sum_list_with length ls)%nat.
Proof.
  apply sum_le. intros l. induction l as [|o l IH]; cbn; [lia|].
  assert (names f o ≤ 1)%nat by (unfold names; case_decide; lia). lia.
Qed.

(** Descriptor [fd] of process [i] changes from [o] to [o']. *)
Lemma fdcount_insert f ls i l fd o o' : ls !! i = Some l → l !! fd = Some o →
  (fdcount f (<[i := <[fd := o']> l]> ls) + names f o = fdcount f ls + names f o')%nat.
Proof.
  intros Hi Hfd. pose proof (sum_insert (sum_list_with (names f)) i l (<[fd := o']> l) ls Hi) as H1.
  pose proof (sum_insert (names f) fd o o' l Hfd) as H2. unfold fdcount. lia.
Qed.

(** [e f] references to [f] are held by the running call besides the
    descriptors; a negative number is a descriptor made before its reference. *)
Record fd_inv (e : nat → Z) (k : kernel) : Prop := {
  fi_shape : (sum_list_with length (ofiles k) ≤ 1024)%nat;
  fi_ref : ∀ f x, k_ft k !! f = Some x → f_ref x = Z.of_nat (fdcount f (ofiles k)) + e f
}.

Definition refs (k : kernel) : list Z := f_ref <$> k_ft k.
#[global] Instance inerts_refs : InertS refs.
Proof. by repeat split. Qed.

Lemma fd_inv_same e k k' : refs k' = refs k → ofiles k' = ofiles k → fd_inv e k → fd_inv e k'.
Proof.
  intros Hr Ho [Hs Hf]. split; rewrite Ho; [done|]. intros f x Hx.
  assert (Hl : refs k' !! f = Some (f_ref x)) by (unfold refs; by rewrite list_lookup_fmap, Hx).
  rewrite Hr in Hl. unfold refs in Hl. rewrite list_lookup_fmap in Hl. apply fmap_Some in Hl as (y & Hy & ->). by apply Hf.
Qed.

(** A step that runs [fd_inv e] into [fd_inv e'] when it returns. *)
Definition fd_runs {A} (e : nat → Z) (m : K A) (e' : A → nat → Z) : Prop :=
  ∀ k a k', fd_inv e k → m k = Ok a k' → fd_inv (e' a) k'.

Lemma fd_runs_bind {A B} e (m : K A) (g : A → K B) e1 e2 :
  fd_runs e m e1 → (∀ a, fd_runs (e1 a) (g a) e2) → fd_runs e (m ≫= g) e2.
Proof. intros Hm Hg k b k' Hk H. inv_ok H as a k1 H1. by eapply Hg; [eapply Hm|]. Qed.
Lemma fd_runs_ret {A} e (a : A) : fd_runs e (mret a) (λ _, e).
Proof. intros k b k' Hk H. unfold mret, M_ret in H. by simplify_eq. Qed.
Lemma fd_runs_keeps {A} e (m : K A) : keeps refs m → keeps ofiles m → fd_runs e m (λ _, e).
Proof.
  intros Hr Ho k a k' Hk H. eapply fd_inv_same, Hk; [by eapply (keeps_ok refs)|by eapply (keeps_ok ofiles)].
Qed.
(** The rest of a call after steps that neither count nor open. *)
Lemma fd_runs_skip {A B} e (m : K A) (g : A → K B) e2 :
  keeps refs m → keeps ofiles m → (∀ a, fd_runs e (g a) e2) → fd_runs e (m ≫= g) e2.
Proof. intros Hr Ho Hg. eapply fd_runs_bind; [by apply fd_runs_keeps|]. exact Hg. Qed.

(** *** The operations on the table *)

Lemma names_eq f : names f (Some f) = 1%nat.
Proof. unfold names. by rewrite decide_True. Qed.
Lemma names_none f : names f None = 0%nat.
Proof. done. Qed.
Lemma names_ne f g : f ≠ g → names f (Some g) = 0%nat.
Proof. intros Hne. unfold names. rewrite decide_False; [done|congruence]. Qed.

(** One entry of the table changes its count by [d]. *)
Lemma fd_inv_ref e k k' f x x' d : fd_inv e k → ofiles k' = ofiles k → k_ft k !! f = Some x →
  k_ft k' = <[f := x']> (k_ft k) → f_ref x' = f_ref x + d → fd_inv (<[f := e f + d]> e) k'.
Proof.
  intros [Hs Hf] Ho Hx Hk' Hd. split; rewrite Ho; [done|]. intros g y. rewrite Hk'.
  destruct (decide (g = f)) as [->|Hne].
  - rewrite list_lookup_insert_eq by (by eapply lookup_lt_Some). intros [= <-]. rewrite fn_lookup_insert, Hd, (Hf f x Hx). lia.
  - rewrite list_lookup_insert_ne by done. intros Hy. rewrite fn_lookup_insert_ne by done. by apply Hf.
Qed.

(** One descriptor changes from [o] to [o']. *)
Lemma fd_inv_fd e e' k k' i l fd o o' : fd_inv e k → k_ft k' = k_ft k → ofiles k !! i = Some l → l !! fd = Some o →
  ofiles k' = <[i := <[fd := o']> l]> (ofiles k) →
  (∀ f, e' f = e f + Z.of_nat (names f o) - Z.of_nat (names f o')) → fd_inv e' k'.
Proof.
  intros [Hs Hf] Hk' Hl Ho Hos He. split.
  - rewrite Hos. pose proof (sum_insert length i l (<[fd := o']> l) _ Hl) as H1. rewrite length_insert in H1. lia.
  - intros f x. rewrite Hk', Hos. intros Hx%Hf. pose proof (fdcount_insert f _ i l fd o o' Hl Ho). rewrite He. lia.
Qed.

Lemma ofiles_upd i fd o k p : pt_proc (k_pt k) !! i = Some p →
  ofiles (set_pt (set_procs (alter (λ q, set_p_ofile (<[fd := o]> (p_ofile q)) q) i) (k_pt k)) k) =
    <[i := <[fd := o]> (p_ofile p)]> (ofiles k).
Proof.
  intros Hp. unfold ofiles. cbn. rewrite (alter_to_insert _ _ _ p) by done. by rewrite list_fmap_insert.
Qed.
Lemma ofiles_lookup i k p : pt_proc (k_pt k) !! i = Some p → ofiles k !! i = Some (p_ofile p).
Proof. intros Hp. unfold ofiles. by rewrite list_lookup_fmap, Hp. Qed.

Lemma keeps_filealloc_ofiles : keeps ofiles filealloc.
Proof. unfold filealloc, updfile. keeps_tac. Qed.
Lemma keeps_filedup_ofiles f : keeps ofiles (filedup f).
Proof. unfold filedup, getfile, updfile. keeps_tac. Qed.
Lemma keeps_fileclose_ofiles f : keeps ofiles (fileclose f).
Proof. unfold fileclose, getfile, updfile. keeps_tac. Qed.

Lemma fd_runs_filealloc e : fd_runs e filealloc (λ o, match o with Some f => <[f := e f + 1]> e | None => e end).
Proof.
  intros k o k' Hk H. pose proof (keeps_ok _ _ _ _ _ keeps_filealloc_ofiles H) as Ho. apply filealloc_ft in H.
  destruct o as [f|].
  - destruct H as (x & Hx & H0 & Hk'). eapply fd_inv_ref; [done|done|done|exact Hk'|cbn; lia].
  - destruct H as [Hft _]. eapply fd_inv_same, Hk; [unfold refs; by rewrite Hft|done].
Qed.
Lemma fd_runs_fileclose e f : fd_runs e (fileclose f) (λ _, <[f := e f - 1]> e).
Proof.
  intros k u k' Hk H. pose proof (keeps_ok _ _ _ _ _ (keeps_fileclose_ofiles f) H) as Ho.
  apply fileclose_ft in H as (x & Hx & H1 & Hk'). eapply fd_inv_ref; [done|done|done|exact Hk'|].
  unfold closed. destruct (Z.ltb_spec 0 (f_ref x - 1)); cbn; lia.
Qed.
Lemma fd_runs_filedup e f : e f ≤ 1 → fd_runs e (filedup f) (λ _, <[f := e f + 1]> e).
Proof.
  intros He k u k' Hk H. pose proof (keeps_ok _ _ _ _ _ (keeps_filedup_ofiles f) H) as Ho.
  apply filedup_ft in H as (_ & x & Hx & H1 & Hk'). eapply fd_inv_ref; [done|done|done|exact Hk'|]. cbn.
  pose proof (fi_ref _ _ Hk f x Hx) as Hr. pose proof (fi_shape _ _ Hk). pose proof (fdcount_bound f (ofiles k)).
  unfold i32. rewrite Z.mod_small by lia. lia.
Qed.

Lemma fd_inv_ext e e' k : (∀ f, e f = e' f) → fd_inv e k → fd_inv e' k.
Proof. intros He [Hs Hf]. split; [done|]. intros f x Hx. rewrite <-He. by apply Hf. Qed.
Lemma fd_runs_ext {A} e e1 (m : K A) e2 : (∀ f, e f = e1 f) → fd_runs e1 m e2 → fd_runs e m e2.
Proof. intros He Hm k a k' Hk. apply Hm. by eapply fd_inv_ext. Qed.
Lemma fd_runs_fault {A} e (m : K A) e2 : (∀ k, ∀ a k', m k ≠ Ok a k') → fd_runs e m e2.
Proof. intros Hm k a k' _ H. by apply Hm in H. Qed.

Lemma fd_scan_free l : ∀ n j, fd_scan l n = Some j → ∃ d, j = (n + d)%nat ∧ l !! d = Some None.
Proof.
  induction l as [|o l IH]; intros n j H; cbn in H; [done|]. destruct o as [f|].
  - apply IH in H as (d & -> & Hd). exists (S d). split; [lia|done].
  - injection H as <-. exists 0%nat. split; [lia|done].
Qed.

Lemma myproc_getproc_ok {A} (g : nat → proc → K A) k a k' : (me ← myproc; p ← getproc me; g me p) k = Ok a k' →
  ∃ me p, pt_proc (k_pt k) !! me = Some p ∧ curproc (k_mach k) = Some me ∧ g me p k = Ok a k'.
Proof.
  unfold myproc, getproc, get, need, mbind, M_bind. destruct (curproc (k_mach k)) as [me|] eqn:Hme; [|done]. cbn.
  destruct (pt_proc (k_pt k) !! me) as [p|] eqn:Hp; [|done]. eauto.
Qed.

Lemma fd_runs_fdalloc e f : fd_runs e (fdalloc f) (λ fd, if fd <? 0 then e else <[f := e f - 1]> e).
Proof.
  intros k fd k' Hk H. apply myproc_getproc_ok in H as (me & p & Hp & _ & H).
  destruct (fd_scan (p_ofile p) 0) as [d|] eqn:Hs; [|unfold mret, M_ret in H; by simplify_eq].
  apply fd_scan_free in Hs as (d' & -> & Hd). cbn in Hd. inv_ok H as u k1 H1. unfold updproc, modify in H1.
  unfold mret, M_ret in H. simplify_eq. destruct (Z.ltb_spec (Z.of_nat d') 0); [lia|].
  eapply fd_inv_fd; [exact Hk|done|by apply ofiles_lookup|exact Hd|by apply ofiles_upd|]. intros g.
  destruct (decide (g = f)) as [->|Hne].
  - rewrite fn_lookup_insert, names_eq, names_none. lia.
  - rewrite fn_lookup_insert_ne, names_ne, names_none by done. lia.
Qed.

(** The reference that a descriptor held passes to the caller. *)
Lemma fd_inv_clear e k me p fd f : fd_inv e k → pt_proc (k_pt k) !! me = Some p → p_ofile p !! fd = Some (Some f) →
  fd_inv (<[f := e f + 1]> e)
    (set_pt (set_procs (alter (λ q, set_p_ofile (<[fd := None]> (p_ofile q)) q) me) (k_pt k)) k).
Proof.
  intros Hk Hp Hfd. eapply fd_inv_fd; [exact Hk|done|by apply ofiles_lookup|exact Hfd|by apply ofiles_upd|]. intros g.
  destruct (decide (g = f)) as [->|Hne].
  - rewrite fn_lookup_insert, names_eq, names_none. lia.
  - rewrite fn_lookup_insert_ne, names_ne, names_none by done. lia.
Qed.

(** The running process has descriptor [fd] for file [f]. *)
Definition has_fd (k : kernel) (fd f : nat) : Prop :=
  ∃ me p, curproc (k_mach k) = Some me ∧ pt_proc (k_pt k) !! me = Some p ∧ p_ofile p !! fd = Some (Some f).

Lemma fdclear_ok e k fd f u k' : fd_inv e k → has_fd k fd f → fdclear fd k = Ok u k' → fd_inv (<[f := e f + 1]> e) k'.
Proof.
  intros Hk (me & p & Hme & Hp & Hfd) H. unfold fdclear in H.
  rewrite (bind_run _ _ me k k) in H by (unfold myproc, get, need, mbind, M_bind; by rewrite Hme).
  unfold updproc, modify in H. injection H as _ <-. by eapply fd_inv_clear.
Qed.

Lemma fdalloc_ok f k fd k' : fdalloc f k = Ok fd k' → fd < 0 ∧ k' = k ∨ 0 ≤ fd ∧ has_fd k' (Z.to_nat fd) f.
Proof.
  intros H. apply myproc_getproc_ok in H as (me & p & Hp & Hme & H).
  destruct (fd_scan (p_ofile p) 0) as [d|] eqn:Hs; unfold mret, M_ret in H; [|simplify_eq; left; split; [lia|done]].
  apply fd_scan_free in Hs as (d' & -> & Hd). cbn in Hd. inv_ok H as u k1 H1. unfold updproc, modify in H1. simplify_eq.
  right. split; [lia|]. rewrite Nat2Z.id. exists me, (set_p_ofile (<[d' := Some f]> (p_ofile p)) p). split; [done|]. cbn.
  rewrite list_lookup_alter_eq, Hp. split; [done|]. apply list_lookup_insert_eq. by eapply lookup_lt_Some.
Qed.

Lemma argfd_ok n k o k' : argfd n k = Ok o k' → k' = k ∧
  match o with Some (fd, f) => has_fd k fd f | None => True end.
Proof.
  unfold argfd. intros H. inv_ok H as rv k1 H1. unfold argint, fetcharg in H1. inv_ok H1 as v k2 H2.
  apply myproc_getproc_ok in H2 as (me & p & Hp & Hme & H2). unfold mret, M_ret in H1, H2. simplify_eq. cbn in H.
  apply myproc_getproc_ok in H as (me' & p' & Hp' & Hme' & H). destruct (_ || _); unfold mret, M_ret in H; simplify_eq; [done|].
  split; [done|]. case_match eqn:Hf; [|done]. destruct (p_ofile _ !! _) as [[f|]|] eqn:Hl in Hf; simplify_eq. by do 2 eexists.
Qed.

(** *** What the rest of the calls leaves alone *)

Section user.
Context {B : Type} (f : kernel → B) `{!InertS f}.

Lemma skeeps_uaddr va : keeps f (uaddr va).
Proof. unfold uaddr. keeps_tac. Qed.
#[local] Hint Resolve skeeps_uaddr : keeps.
Lemma skeeps_uload va : keeps f (uload va).
Proof. unfold uload, getkm. keeps_tac. Qed.
#[local] Hint Resolve skeeps_uload : keeps.
Lemma skeeps_ubytes n : ∀ va, keeps f (ubytes va n).
Proof. induction n; intros; cbn [ubytes]; keeps_tac. Qed.
Lemma skeeps_ustore l : ∀ va, keeps f (ustore va l).
Proof. induction l; intros; cbn [ustore]; keeps_tac. Qed.
Lemma skeeps_fetchstr a : keeps f (fetchstr a).
Proof.
  unfold fetchstr. assert (Hl : ∀ n s, keeps f (fetchstr_loop s n)) by (induction n; intros; cbn [fetchstr_loop]; keeps_tac).
  keeps_tac.
Qed.
#[local] Hint Resolve skeeps_fetchstr : keeps.
Lemma skeeps_argint n : keeps f (argint n).
Proof. unfold argint, fetcharg. keeps_tac. Qed.
Lemma skeeps_argptr n s : keeps f (argptr n s).
Proof. unfold argptr, arguintp, fetcharg. keeps_tac. Qed.
Lemma skeeps_argstr n : keeps f (argstr n).
Proof. unfold argstr, arguintp, fetcharg. keeps_tac. Qed.
Lemma skeeps_create `{D : Devsw} `{!DevKeeps f D} path t ma mi : keeps f (create path t ma mi).
Proof. unfold create. keeps_tac. Qed.
Lemma skeeps_filestat g : keeps f (filestat g).
Proof. unfold filestat, getfile. keeps_tac. Qed.
End user.
#[export] Hint Resolve skeeps_ubytes skeeps_ustore skeeps_argint skeeps_argptr skeeps_argstr skeeps_create skeeps_filestat : keeps.

Lemma keeps_updfile_ofiles f g : keeps ofiles (updfile f g).
Proof. by apply keeps_modify. Qed.
Lemma keeps_updfile_refs f g : (∀ x, f_ref (g x) = f_ref x) → keeps refs (updfile f g).
Proof. intros Hg. apply keeps_modify. intros k. unfold refs. cbn. by apply fmap_alter_same. Qed.
#[local] Hint Resolve keeps_updfile_ofiles : keeps.
#[local] Hint Extern 1 (keeps refs (updfile _ _)) => apply keeps_updfile_refs; done : keeps.

Section rw.
Context `{D : Devsw} `{!DevKeeps refs D} `{!DevKeeps ofiles D}.
Lemma keeps_fileread_refs f n : keeps refs (fileread f n).
Proof. unfold fileread, getfile. keeps_tac. Qed.
Lemma keeps_fileread_ofiles f n : keeps ofiles (fileread f n).
Proof. unfold fileread, getfile. keeps_tac. Qed.
Lemma keeps_filewrite_refs f l n : keeps refs (filewrite f l n).
Proof.
  unfold filewrite, getfile. assert (Hl : ∀ m ip i, keeps refs (filewrite_loop f ip l n i m)).
  { induction m; intros; cbn [filewrite_loop]; unfold filewrite_piece, getfile; keeps_tac. }
  keeps_tac.
Qed.
Lemma keeps_filewrite_ofiles f l n : keeps ofiles (filewrite f l n).
Proof.
  unfold filewrite, getfile. assert (Hl : ∀ m ip i, keeps ofiles (filewrite_loop f ip l n i m)).
  { induction m; intros; cbn [filewrite_loop]; unfold filewrite_piece, getfile; keeps_tac. }
  keeps_tac.
Qed.
End rw.
#[local] Hint Resolve keeps_fileread_refs keeps_fileread_ofiles keeps_filewrite_refs keeps_filewrite_ofiles : keeps.

(** *** The calls *)

Definition none : nat → Z := λ _, 0.

Ltac fd_step :=
  lazymatch goal with
  | |- fd_runs _ (mret _) _ => apply fd_runs_ret
  | |- fd_runs _ (mbind _ _) _ => apply fd_runs_skip; [solve [keeps_tac]..|intros]
  | |- fd_runs _ (match ?x with _ => _ end) _ => destruct x
  end.

Section calls.
Context `{D : Devsw} `{!DevKeeps refs D} `{!DevKeeps ofiles D}.

Lemma keeps_argfd {B} (f : kernel → B) `{!InertS f} n : keeps f (argfd n).
Proof. unfold argfd. keeps_tac. Qed.
#[local] Hint Resolve keeps_argfd : keeps.

Lemma fd_runs_read : fd_runs none sys_read (λ _, none).
Proof. unfold sys_read. repeat fd_step. Qed.
Lemma fd_runs_write : fd_runs none sys_write (λ _, none).
Proof. unfold sys_write. apply fd_runs_keeps; keeps_tac. Qed.

(** The reference of a call and a descriptor cancel. *)
Lemma insert_back (e : nat → Z) f a b : a = e f → ∀ g, (<[f := a]> (<[f := b]> e)) g = e g.
Proof.
  intros -> g. destruct (decide (g = f)) as [->|Hne]; [by rewrite fn_lookup_insert|by rewrite !fn_lookup_insert_ne].
Qed.
Lemma fd_runs_done {A} e e' (a : A) : (∀ f, e f = e' f) → fd_runs e (mret a) (λ _, e').
Proof. intros He. eapply fd_runs_ext; [exact He|]. apply fd_runs_ret. Qed.

Lemma fd_runs_dup : fd_runs none sys_dup (λ _, none).
Proof.
  unfold sys_dup. fd_step. fd_step; [|apply fd_runs_ret]. destruct p as [fd0 f].
  eapply fd_runs_bind; [apply fd_runs_fdalloc|]. intros fd. cbn beta. destruct (fd <? 0); [apply fd_runs_ret|].
  eapply fd_runs_bind; [apply fd_runs_filedup; by rewrite fn_lookup_insert|]. intros r. cbn beta.
  apply fd_runs_done. apply insert_back. rewrite fn_lookup_insert. unfold none. lia.
Qed.

Lemma fd_runs_close : fd_runs none sys_close (λ _, none).
Proof.
  intros k r k' Hk H. unfold sys_close in H. inv_ok H as o k1 H1. apply argfd_ok in H1 as [-> Ho].
  destruct o as [[fd f]|]; [|unfold mret, M_ret in H; by simplify_eq].
  inv_ok H as u k2 H2. pose proof (fdclear_ok _ _ _ _ _ _ Hk Ho H2) as Hi. clear H2.
  revert H. eapply (fd_runs_bind _ _ _ (λ _, none) (λ _, none)); [|intros; apply fd_runs_ret|exact Hi].
  clear. intros k u k' Hk H. eapply fd_inv_ext; [|by eapply fd_runs_fileclose].
  apply insert_back. rewrite fn_lookup_insert. unfold none. lia.
Qed.

(** Two references are held in [orf] and [owf] when a pipe was made. *)
Definition held (o : option nat) (e : nat → Z) : nat → Z := match o with Some f => <[f := e f + 1]> e | None => e end.

Lemma fd_runs_close_opt o e : fd_runs (held o e) (close_opt o) (λ _, e).
Proof.
  destruct o as [f|]; cbn [close_opt held]; [|apply fd_runs_ret]. intros k u k' Hk H.
  eapply fd_inv_ext; [|by eapply fd_runs_fileclose]. apply insert_back. rewrite fn_lookup_insert. lia.
Qed.

Lemma held_swap a b e g : held a (held b e) g = held b (held a e) g.
Proof.
  destruct a as [a|], b as [b|]; cbn [held]; try done. destruct (decide (a = b)) as [->|Hne]; [done|].
  rewrite (fn_lookup_insert_ne e a b), (fn_lookup_insert_ne e b a) by done.
  destruct (decide (g = a)) as [->|Ha]; [by rewrite fn_lookup_insert, fn_lookup_insert_ne, fn_lookup_insert|].
  rewrite (fn_lookup_insert_ne _ a g) by done.
  destruct (decide (g = b)) as [->|Hb]; [by rewrite !fn_lookup_insert|by rewrite !fn_lookup_insert_ne].
Qed.

Lemma fd_runs_filealloc_held e : fd_runs e filealloc (λ o, held o e).
Proof. apply fd_runs_filealloc. Qed.

Lemma fd_runs_close_both a b e {A} (x : A) :
  fd_runs (held b (held a e)) (close_opt a;; close_opt b;; mret x) (λ _, e).
Proof.
  eapply fd_runs_ext; [apply held_swap|]. apply (fd_runs_bind _ _ _ (λ _, held b e)); [apply fd_runs_close_opt|]. intros _.
  apply (fd_runs_bind _ _ _ (λ _, e)); [apply fd_runs_close_opt|]. intros _. apply fd_runs_ret.
Qed.

Lemma fd_runs_pipealloc e :
  fd_runs e pipealloc (λ r, if r.1.1 <? 0 then e else held r.2 (held r.1.2 e)).
Proof.
  unfold pipealloc. eapply fd_runs_bind; [apply fd_runs_filealloc_held|]. intros f0.
  eapply (fd_runs_bind _ _ _ (λ o, held o (held f0 e))).
  { destruct f0; [apply fd_runs_filealloc_held|]. intros k a k' Hk H. unfold mret, M_ret in H. by simplify_eq. }
  intros f1. cbn beta. assert (Hbad : fd_runs (held f1 (held f0 e)) (close_opt f0;; close_opt f1;; mret (-1, f0, f1))
    (λ r, if r.1.1 <? 0 then e else held r.2 (held r.1.2 e))).
  { intros k a k' Hk H. pose proof (fd_runs_close_both f0 f1 e _ _ _ _ Hk H).
    inv_ok H as u k1 H1. inv_ok H as v k2 H2. unfold mret, M_ret in H. by simplify_eq. }
  destruct f0 as [a|]; [|exact Hbad]. destruct f1 as [b|]; [|exact Hbad].
  apply fd_runs_skip; [keeps_tac..|]. intros p. destruct (p =? 0); [exact Hbad|].
  do 4 (apply fd_runs_skip; [keeps_tac..|]; intros _). intros k r k' Hk H. unfold mret, M_ret in H. by simplify_eq.
Qed.

(** Both descriptors, or neither. *)
Lemma fd_inv_pipe rf wf k fd0 k1 fd1 k2 : fd_inv (held (Some wf) (held (Some rf) none)) k → fdalloc rf k = Ok fd0 k1 →
  (if fd0 <? 0 then mret (-1) else fdalloc wf) k1 = Ok fd1 k2 →
  if (fd0 <? 0) || (fd1 <? 0) then
    ∀ u k3, when (0 <=? fd0) (fdclear (Z.to_nat fd0)) k2 = Ok u k3 → fd_inv (held (Some wf) (held (Some rf) none)) k3
  else fd_inv none k2.
Proof.
  intros Hk H0 H1. set (e := held (Some wf) (held (Some rf) none)) in *. pose proof (fd_runs_fdalloc _ _ _ _ _ Hk H0) as Hk1.
  apply fdalloc_ok in H0 as [[Hlt ->]|[Hge Hfd]].
  - cbn beta in Hk1. destruct (Z.ltb_spec fd0 0); [|lia]. cbn [orb]. destruct (Z.leb_spec 0 fd0); [lia|].
    unfold mret, M_ret in H1. cbn. intros u k3 H3. unfold mret, M_ret in H3. by simplify_eq.
  - cbn beta in Hk1. destruct (Z.ltb_spec fd0 0); [lia|]. cbn [orb]. destruct (Z.leb_spec 0 fd0); [|lia]. cbn [when].
    pose proof (fd_runs_fdalloc _ _ _ _ _ Hk1 H1) as Hk2. cbn beta in Hk2.
    apply fdalloc_ok in H1 as [[Hlt ->]|[Hge1 _]].
    + destruct (Z.ltb_spec fd1 0); [|lia]. intros u k3 H3. eapply fd_inv_ext; [|by eapply fdclear_ok].
      apply insert_back. rewrite fn_lookup_insert. lia.
    + destruct (Z.ltb_spec fd1 0); [lia|]. eapply fd_inv_ext, Hk2. subst e. cbn [held]. intros g.
      destruct (decide (wf = rf)) as [->|Hne].
      * destruct (decide (g = rf)) as [->|]; [rewrite !fn_lookup_insert; unfold none; lia|by rewrite !fn_lookup_insert_ne].
      * destruct (decide (g = wf)) as [->|Hw].
        { rewrite !fn_lookup_insert, fn_lookup_insert_ne, fn_lookup_insert, fn_lookup_insert_ne by done. unfold none. lia. }
        rewrite (fn_lookup_insert_ne _ wf g) by done. destruct (decide (g = rf)) as [->|Hr].
        { rewrite fn_lookup_insert, fn_lookup_insert_ne, fn_lookup_insert by done. unfold none. lia. }
        by rewrite !fn_lookup_insert_ne.
Qed.

Lemma need_ok {A} (o : option A) (k : kernel) a k' : need o k = Ok a k' → o = Some a ∧ k' = k.
Proof. unfold need. destruct o; unfold mret, M_ret; [|done]. by intros [= -> ->]. Qed.

Lemma fd_runs_sys_pipe : fd_runs none sys_pipe (λ _, none).
Proof.
  unfold sys_pipe. apply fd_runs_skip; [keeps_tac..|]. intros [r fd]. destruct (r <? 0); [apply fd_runs_ret|].
  eapply fd_runs_bind; [apply fd_runs_pipealloc|]. intros [[r2 orf] owf]. cbn [fst snd].
  destruct (r2 <? 0); [apply fd_runs_ret|]. intros k a k' Hk H. inv_ok H as rf k1 H1. apply need_ok in H1 as [-> ->].
  inv_ok H as wf k2 H2. apply need_ok in H2 as [-> ->]. inv_ok H as fd0 k3 H3. inv_ok H as fd1 k4 H4.
  pose proof (fd_inv_pipe _ _ _ _ _ _ _ Hk H3 H4) as Hp. destruct (_ || _).
  - inv_ok H as u k5 H5. specialize (Hp _ _ H5). revert H. eapply (fd_runs_close_both (Some rf) (Some wf)). exact Hp.
  - refine ((_ : fd_runs none _ (λ _, none)) _ _ _ Hp H). repeat fd_step.
Qed.

Lemma fd_runs_open : fd_runs none sys_open (λ _, none).
Proof.
  unfold sys_open. fd_step. destruct a as [r path]. fd_step; [apply fd_runs_ret|]. fd_step. destruct a as [r2 omode].
  fd_step; [apply fd_runs_ret|]. do 2 fd_step. destruct a0 as [ip|]; [|fd_step; apply fd_runs_ret].
  eapply fd_runs_bind; [apply fd_runs_filealloc_held|]. intros [f|]; cbn beta.
  2:{ fd_step. do 2 fd_step. apply fd_runs_ret. }
  eapply fd_runs_bind; [apply fd_runs_fdalloc|]. intros fd. cbn beta. destruct (fd <? 0).
  - eapply fd_runs_bind; [apply (fd_runs_close_opt (Some f) none)|]. intros u. do 2 fd_step. apply fd_runs_ret.
  - eapply fd_runs_ext; [apply (insert_back none); cbn; rewrite fn_lookup_insert; unfold none; lia|]. repeat fd_step.
Qed.
End calls.

(** *** fork and exit *)

Lemma getproc_ok i k p k' : getproc i k = Ok p k' → k' = k ∧ pt_proc (k_pt k) !! i = Some p.
Proof. unfold getproc. intros H. inv_ok H as k1 k2 H1. unfold get in H1. simplify_eq. by apply need_ok in H as [H ->]. Qed.

Lemma ofiles_proc k i l : ofiles k !! i = Some l → ∃ p, pt_proc (k_pt k) !! i = Some p ∧ p_ofile p = l.
Proof. unfold ofiles. rewrite list_lookup_fmap. intros (p & Hp & ->)%fmap_Some. eauto. Qed.

Lemma fd_runs_exit_file me fd : fd_runs none (exit_file me fd) (λ _, none).
Proof.
  intros k u k' Hk H. unfold exit_file in H. inv_ok H as p k1 H1. apply getproc_ok in H1 as [-> Hp].
  destruct (p_ofile p !! fd) as [[f|]|] eqn:Hfd; [|unfold mret, M_ret in H; by simplify_eq..].
  inv_ok H as v k2 H2. pose proof (fd_runs_fileclose _ _ _ _ _ Hk H2) as Hk2. cbn beta in Hk2.
  pose proof (keeps_ok _ _ _ _ _ (keeps_fileclose_ofiles f) H2) as Ho. unfold updproc, modify in H. injection H as _ <-.
  destruct (ofiles_proc k2 me (p_ofile p)) as (q & Hq & Hqo); [rewrite Ho; by apply ofiles_lookup|].
  eapply fd_inv_ext; [|eapply fd_inv_clear; [exact Hk2|exact Hq|by rewrite Hqo]].
  apply insert_back. rewrite fn_lookup_insert. unfold none. lia.
Qed.

Lemma fd_runs_exit me l : fd_runs none (for_each l (exit_file me)) (λ _, none).
Proof.
  induction l as [|fd l IH]; cbn [for_each]; [apply fd_runs_ret|].
  eapply fd_runs_bind; [apply fd_runs_exit_file|]. intros u. exact IH.
Qed.

(** The descriptors of [np] from [fd] on are free. *)
Definition free_from (np fd : nat) (k : kernel) : Prop :=
  ∃ l, ofiles k !! np = Some l ∧ ∀ d, (fd ≤ d < Z.to_nat NOFILE)%nat → l !! d = Some None.

Lemma fork_file_ok me np fd k u k' : fd_inv none k → (fd < Z.to_nat NOFILE)%nat → free_from np fd k →
  fork_file me np fd k = Ok u k' → fd_inv none k' ∧ free_from np (S fd) k'.
Proof.
  intros Hk Hlt (l & Hl & Hfree) H. unfold fork_file in H. inv_ok H as p k1 H1. apply getproc_ok in H1 as [-> Hp].
  assert (Hskip : fd_inv none k ∧ free_from np (S fd) k) by (split; [done|]; exists l; split; [done|]; intros d Hd; apply Hfree; lia).
  destruct (p_ofile p !! fd) as [[f|]|]; [|unfold mret, M_ret in H; by simplify_eq..].
  inv_ok H as g k2 H2. pose proof (fd_runs_filedup none f ltac:(done) _ _ _ Hk H2) as Hk2. cbn beta in Hk2.
  pose proof (keeps_ok _ _ _ _ _ (keeps_filedup_ofiles f) H2) as Ho. apply filedup_ft in H2 as [-> _].
  unfold updproc, modify in H. injection H as _ <-. destruct (ofiles_proc k2 np l) as (q & Hq & Hqo); [by rewrite Ho|].
  pose proof (Hfree fd ltac:(lia)) as Hfd. split.
  - eapply (fd_inv_fd _ _ k2 _ np (p_ofile q) fd None (Some f)); [exact Hk2|done|by apply ofiles_lookup|by rewrite Hqo|by apply ofiles_upd|].
    intros x. destruct (decide (x = f)) as [->|Hne].
    + rewrite fn_lookup_insert, names_eq, names_none. unfold none. lia.
    + rewrite fn_lookup_insert_ne, names_ne, names_none by done. unfold none. lia.
  - exists (<[fd := Some f]> l). rewrite (ofiles_upd np fd (Some f) k2 q Hq), Hqo. split.
    + apply list_lookup_insert_eq. rewrite Ho. by eapply lookup_lt_Some.
    + intros d Hd. rewrite list_lookup_insert_ne by lia. apply Hfree. lia.
Qed.

Lemma fork_files_ok me np n : ∀ fd k u k', (fd + n ≤ Z.to_nat NOFILE)%nat → fd_inv none k → free_from np fd k →
  for_each (seq fd n) (fork_file me np) k = Ok u k' → fd_inv none k'.
Proof.
  induction n as [|n IH]; intros fd k u k' Hn Hk Hf H; cbn [seq for_each] in H; [unfold mret, M_ret in H; by simplify_eq|].
  inv_ok H as v k1 H1. apply fork_file_ok in H1 as [Hk1 Hf1]; [|done|lia|done]. by eapply (IH (S fd)); [lia|..].
Qed.

(** *** The theorem *)

(** System calls that run to their end, the descriptors that [fork] copies to
    a process without any and those that [exit] closes, and anything that
    changes neither the counts nor the descriptors. *)
Inductive fd_step (v : cpuid_vars) (k k' : kernel) : Prop :=
| SOpen r : @sys_open (devsw v) k = Ok r k' → fd_step v k k'
| SClose r : sys_close k = Ok r k' → fd_step v k k'
| SDup r : sys_dup k = Ok r k' → fd_step v k k'
| SPipe r : sys_pipe k = Ok r k' → fd_step v k k'
| SRead r : @sys_read (devsw v) k = Ok r k' → fd_step v k k'
| SWrite r : @sys_write (devsw v) k = Ok r k' → fd_step v k k'
| SFork me np u : free_from np 0 k → for_each (seq 0 (Z.to_nat NOFILE)) (fork_file me np) k = Ok u k' → fd_step v k k'
| SExit me u : for_each (seq 0 (Z.to_nat NOFILE)) (exit_file me) k = Ok u k' → fd_step v k k'
| SRest A (m : K A) a : keeps refs m → keeps ofiles m → m k = Ok a k' → fd_step v k k'.

Lemma fd_inv_step v k k' : fd_step v k k' → fd_inv none k → fd_inv none k'.
Proof.
  intros Hs Hk. destruct Hs as [r H|r H|r H|r H|r H|r H|me np u Hf H|me u H|A m a Hr Ho H].
  - exact (@fd_runs_open (devsw v) _ _ _ _ _ Hk H).
  - by eapply fd_runs_close.
  - by eapply fd_runs_dup.
  - by eapply fd_runs_sys_pipe.
  - exact (@fd_runs_read (devsw v) _ _ _ _ _ Hk H).
  - exact (@fd_runs_write (devsw v) _ _ _ _ _ Hk H).
  - by eapply (fork_files_ok me np (Z.to_nat NOFILE) 0).
  - by eapply fd_runs_exit.
  - by eapply (fd_runs_keeps none m).
Qed.

(** C17: open files are counted.  Take a state in which the reference count of
    every entry of the file table is the number of descriptors that name it,
    over all processes (at boot there are none of either).  Then it is so
    after any sequence of open, close, dup, pipe, read and write calls, forks
    and exits and calls that touch no descriptor, on every path through them,
    the failing ones included. *)
Theorem descriptors_counted v k k' f x :
  (sum_list_with length (ofiles k) ≤ Z.to_nat (NPROC * NOFILE))%nat →
  (∀ f x, k_ft k !! f = Some x → f_ref x = Z.of_nat (fdcount f (ofiles k))) →
  rtc (fd_step v) k k' → k_ft k' !! f = Some x → f_ref x = Z.of_nat (fdcount f (ofiles k')).
Proof.
  intros Hn Hk Hs Hx. assert (Hi : fd_inv none k).
  { split; [exact Hn|]. intros g y Hy. rewrite (Hk g y Hy). unfold none. lia. }
  clear Hn Hk. assert (Hi' : fd_inv none k').
  { induction Hs as [|k1 k2 k3 H1 _ IH]; [done|]. apply IH; [done|]. by eapply fd_inv_step. }
  rewrite (fi_ref _ _ Hi' f x Hx). unfold none. lia.
Qed.

(** A process with one open file; it duplicates descriptor 0. *)
Definition demo_fd : kernel :=
  set_ft (alter (λ x, set_f_ref 1 (set_f_type FD_INODE x)) 0%nat (k_ft (kernel0 ∅)))
    (set_pt (set_procs (alter (λ q, set_p_ofile (<[0%nat := Some 0%nat]> (p_ofile q)) q) 0%nat) (k_pt (kernel0 ∅))) (kernel0 ∅)).
Definition demo_fd' : kernel := match sys_dup demo_fd with Ok _ k => k | _ => demo_fd end.

Lemma descriptors_counted_witness :
  fdcount 0 (ofiles demo_fd') = 2%nat ∧ f_ref <$> k_ft demo_fd' !! 0%nat = Some (Z.of_nat (fdcount 0 (ofiles demo_fd'))).
Proof.
  split; [vm_compute; reflexivity|]. destruct (k_ft demo_fd' !! 0%nat) as [x|] eqn:Hx; [|by vm_compute in Hx].
  cbn [fmap option_fmap option_map]. f_equal.
  apply (descriptors_counted (mkCpuid 0 [] 0 0 0 0 0) demo_fd demo_fd' 0 x); [| | |exact Hx].
  - apply (bool_decide_unpack _). vm_compute. exact I.
  - intros f y Hy. destruct f as [|f].
    + vm_compute in Hy. injection Hy as <-. vm_compute. reflexivity.
    + assert (Hall : f_ref <$> drop 1 (k_ft demo_fd) = replicate 99 0) by (vm_compute; reflexivity).
      assert (H0 : f_ref <$> (drop 1 (k_ft demo_fd) !! f) = Some (f_ref y)) by (rewrite lookup_drop; cbn [Nat.add]; by rewrite Hy).
      rewrite <-list_lookup_fmap, Hall in H0. apply lookup_replicate in H0 as [-> _].
      assert (Hz : ∀ ls, Forall (Forall (λ o, names (S f) o = 0%nat)) ls → fdcount (S f) ls = 0%nat).
      { intros ls. induction 1 as [|l ls Hl _ IH]; [done|]. unfold fdcount in *. cbn. rewrite IH, Nat.add_0_r.
        induction Hl as [|o l Ho _ IHl]; [done|]. cbn. by rewrite Ho. }
      rewrite Hz; [done|]. repeat (constructor || apply names_none || (apply names_ne; discriminate)).
  - apply rtc_once, (SDup _ _ _ 1). vm_compute. reflexivity.
Defined.
