(* ===== verification/Trap.v ===== *)
(** * Trap: system call dispatch and traps

    The end of kernel/syscall.c, and kernel/trap.c.  The local APIC is in
    Intr, the drivers are in Ide and Console.  The process may lose the CPU in
    a trap, in [yield] or in a system call that sleeps; the body of [trap] is
    a function of these two, so that the theorem can be about a process that
    gets the CPU back. *)

From stdpp Require Import prelude functions gmap strings.
From S2P Require Import Prelude Types Ring Spinlock Sched Cstr Ide Bio Block Frame Log Fs FsInode Kalloc Pipe File Cprintf Intr Console Cpuid Vm Footprint Proc Syscall Exec Sysfile.
Open Scope Z_scope.

(** ** syscall.h *)

Definition SYS_fork : Z := 1.
Definition SYS_exit : Z := 2.
Definition SYS_wait : Z := 3.
Definition SYS_pipe : Z := 4.
Definition SYS_read : Z := 5.
Definition SYS_kill : Z := 6.
Definition SYS_exec : Z := 7.
Definition SYS_fstat : Z := 8.
Definition SYS_chdir : Z := 9.
Definition SYS_dup : Z := 10.
Definition SYS_getpid : Z := 11.
Definition SYS_sbrk : Z := 12.
Definition SYS_sleep : Z := 13.
Definition SYS_uptime : Z := 14.
Definition SYS_open : Z := 15.
Definition SYS_write : Z := 16.
Definition SYS_mknod : Z := 17.
Definition SYS_unlink : Z := 18.
Definition SYS_link : Z := 19.
Definition SYS_mkdir : Z := 20.
Definition SYS_close : Z := 21.
Definition SYS_chmod : Z := 22.

Section with_kernel.
Variable kv : kvm.
Context `{Devsw}.

(** ** syscall.c *)

(** The table is indexed by number; [NELEM(syscalls)] is 23. *)
Definition syscalls : list (Z * K Z) := [
  (SYS_fork, sys_fork kv);
  (SYS_exit, sys_exit);
  (SYS_wait, sys_wait);
  (SYS_pipe, sys_pipe);
  (SYS_read, sys_read);
  (SYS_kill, sys_kill);
  (SYS_exec, sys_exec kv);
  (SYS_fstat, sys_fstat);
  (SYS_chdir, sys_chdir);
  (SYS_dup, sys_dup);
  (SYS_getpid, sys_getpid);
  (SYS_sbrk, sys_sbrk);
  (SYS_sleep, sys_sleep);
  (SYS_uptime, sys_uptime);
  (SYS_open, sys_open);
  (SYS_write, sys_write);
  (SYS_mknod, sys_mknod);
  (SYS_unlink, sys_unlink);
  (SYS_link, sys_link);
  (SYS_mkdir, sys_mkdir);
  (SYS_close, sys_close);
  (SYS_chmod, sys_chmod)].
Definition syscall_lookup (num : Z) : option (K Z) := snd <$> (list_find (λ e, e.1 = num) syscalls ≫= λ x, Some x.2).

Definition set_eax (v : Z) : K unit :=
  me ← myproc;
  updproc me (λ p, set_p_tf (set_tf_eax v (p_tf p)) p).

(** The result is an [int], also that of [sys_sbrk]; it is sign-extended. *)
Definition syscall : K unit :=
  me ← myproc;
  p ← getproc me;
  let num := i32 (tf_eax (p_tf p)) in
  match (if 0 <? num then syscall_lookup num else None) with
  | Some f =>
      r ← f;
      set_eax (u64 (i32 r))
  | None =>
      cprintf (Some (str "%d %s: unknown sys call %d" ++ [10])) [AInt (p_pid p); AStr (Some (p_name p)); AInt num];;
      set_eax (u64 (-1))
  end.

(** ** trap.c *)

(** The frame pointers saved on the kernel stacks, for [procdump]. *)
Variable saved_ebp : nat → Z.

(** [cpu->id] *)
Definition cpuid_me : K Z := k ← get; mret (Z.of_nat (m_me (k_mach k))).

Definition timer_tick : K unit :=
  id ← cpuid_me;
  when (id =? 0) (
    acquire L_ticks;;
    modify (λ k, set_ticks (u32 (k_ticks k + 1)) k);;
    wakeup ChTicks;;
    release L_ticks);;
  lapiceoi.

(** [proc && proc->killed && (tf->cs&3) == DPL_USER] *)
Definition exit_if_killed (tf : trapframe) : K unit :=
  k ← get;
  match curproc (k_mach k) with
  | Some me =>
      p ← getproc me;
      when (p_killed p && (Z.land (tf_cs tf) 3 =? DPL_USER)) exit
  | None => mret tt
  end.

Definition yield_on_tick (yield : K unit) (tf : trapframe) : K unit :=
  k ← get;
  match curproc (k_mach k) with
  | Some me =>
      p ← getproc me;
      when (bool_decide (p_state p = RUNNING) && (tf_trapno tf =? T_IRQ0 + IRQ_TIMER)) yield
  | None => mret tt
  end.

(** [cr2] is the page fault address. *)
Definition trap_default (cr2 : Z) (tf : trapframe) : K unit :=
  k ← get;
  id ← cpuid_me;
  match curproc (k_mach k) with
  | Some me =>
      if Z.land (tf_cs tf) 3 =? 0 then
        cprintf (Some (str "unexpected trap %d from cpu %d eip %x (cr2=0x%x)" ++ [10]))
          [AInt (tf_trapno tf); AInt id; AInt (tf_eip tf); AInt cr2];;
        panic "trap"
      else
        p ← getproc me;
        cprintf (Some (str "pid %d %s: trap %d err %d on cpu %d eip 0x%x addr 0x%x--kill proc" ++ [10]))
          [AInt (p_pid p); AStr (Some (p_name p)); AInt (tf_trapno tf); AInt (tf_err tf); AInt id; AInt (tf_eip tf); AInt cr2];;
        updproc me (set_p_killed true)
  | None =>
      cprintf (Some (str "unexpected trap %d from cpu %d eip %x (cr2=0x%x)" ++ [10]))
        [AInt (tf_trapno tf); AInt id; AInt (tf_eip tf); AInt cr2];;
      panic "trap"
  end.

Definition trap_body (syscall yield : K unit) (cr2 : Z) (tf : trapframe) : K unit :=
  if tf_trapno tf =? T_SYSCALL then
    me ← myproc;
    b ← killed;
    when b exit;;
    updproc me (set_p_tf tf);;
    syscall;;
    b ← killed;
    when b exit
  else
    (if tf_trapno tf =? T_IRQ0 + IRQ_TIMER then timer_tick else
     if tf_trapno tf =? T_IRQ0 + IRQ_IDE then ideintr;; lapiceoi else
     if tf_trapno tf =? T_IRQ0 + IRQ_KBD then kbdintr saved_ebp;; lapiceoi else
     if tf_trapno tf =? T_IRQ0 + IRQ_COM1 then uartintr saved_ebp;; lapiceoi else
     if (tf_trapno tf =? T_IRQ0 + 7) || (tf_trapno tf =? T_IRQ0 + IRQ_SPURIOUS) then
       id ← cpuid_me;
       cprintf (Some (str "cpu%d: spurious interrupt at %x:%x" ++ [10])) [AInt id; AInt (tf_cs tf); AInt (tf_eip tf)];;
       lapiceoi
     else trap_default cr2 tf);;
    exit_if_killed tf;;
    yield_on_tick yield tf;;
    exit_if_killed tf.

(** Up to the point where the process loses the CPU. *)
Definition trap : Z → trapframe → K unit := trap_body syscall yield.

(** A system call that sleeps: [rest] is what runs until the call returns, its
    own code after the sleeps and that of the other processes. *)
Definition syscall_until (rest : K unit) : K unit := λ k, match syscall k with Sleeps k1 => rest k1 | r => r end.
(** A whole trap, [others] being what runs while the process has yielded. *)
Definition trap_until (rest others : K unit) : Z → trapframe → K unit := trap_body (syscall_until rest) (yield_until others).
End with_kernel.

(** ** Killed processes *)

Definition never {A} (m : K A) : Prop := ∀ k a k', m k ≠ Ok a k'.

Lemma never_bind_r {A B} (m : K A) (g : A → K B) : (∀ a, never (g a)) → never (m ≫= g).
Proof. intros Hg k b k' H. inv_ok H as a k1 H1. by eapply Hg. Qed.
Lemma never_panic {A} msg : never (panic msg : K A).
Proof. by intros k a k'. Qed.

(** [exit] does not return. *)
Lemma never_exit : never exit.
Proof.
  unfold exit, exit_locked. apply never_bind_r. intros me. apply never_bind_r. intros k. case_bool_decide; [apply never_panic|].
  repeat (apply never_bind_r; intros). apply never_panic.
Qed.

(** The running process is there and is not killed. *)
Definition alive (k : kernel) : Prop := ∀ me p, curproc (k_mach k) = Some me → pt_proc (k_pt k) !! me = Some p → p_killed p = false.

Lemma when_exit_ok (b : bool) k u k' : when b exit k = Ok u k' → b = false ∧ k' = k.
Proof. destruct b; cbn [when]; intros H; [by apply never_exit in H|]. unfold mret, M_ret in H. by simplify_eq. Qed.

Lemma exit_if_killed_ok tf k u k' : Z.land (tf_cs tf) 3 = DPL_USER → exit_if_killed tf k = Ok u k' → k' = k ∧ alive k.
Proof.
  intros Hcs H. unfold exit_if_killed in H. inv_ok H as k0 k1 H1. unfold get in H1. simplify_eq. unfold alive.
  destruct (curproc (k_mach k1)) as [me|] eqn:Hme.
  - inv_ok H as p k2 H2. unfold getproc in H2. inv_ok H2 as k3 k4 H3. unfold get in H3. simplify_eq.
    unfold need in H2. destruct (pt_proc (k_pt k4) !! me) as [q|] eqn:Hq; [|done]. unfold mret, M_ret in H2. simplify_eq.
    apply when_exit_ok in H as [Hb ->]. rewrite Hcs in Hb. split; [done|]. intros me' p' [= <-] Hp'. rewrite Hq in Hp'.
    simplify_eq. by destruct (p_killed p').
  - unfold mret, M_ret in H. simplify_eq. split; [done|]. congruence.
Qed.

Lemma killed_ok k b k' : killed k = Ok b k' → k' = k ∧ ∃ me p, curproc (k_mach k) = Some me ∧ pt_proc (k_pt k) !! me = Some p ∧ b = p_killed p.
Proof.
  unfold killed, myproc, getproc, get, need, mbind, M_bind. destruct (curproc (k_mach k)) as [me|] eqn:Hme; [|done]. cbn.
  destruct (pt_proc (k_pt k) !! me) as [p|] eqn:Hp; [|done]. cbn. intros [= <- <-]. eauto 10.
Qed.

(** C19: a killed process does not go back to user mode.  Whatever the trap is
    (a system call, an interrupt or a fault), if it came from user mode and
    [trap] returns to it, the running process is not marked killed at that
    moment: not when it was killed before, nor when the system call, the
    driver, the output or the fault itself killed it, nor when another process
    did while this one had yielded on a clock tick or was asleep in a system
    call, whatever the others did meanwhile.  Otherwise [trap] ends in
    [exit]. *)
Theorem killed_never_returns kv (D : Devsw) saved rest others cr2 tf k u k' :
  trap_until kv saved rest others cr2 tf k = Ok u k' → Z.land (tf_cs tf) 3 = DPL_USER → alive k'.
Proof.
  intros H Hcs. unfold trap_until, trap_body in H. destruct (tf_trapno tf =? T_SYSCALL).
  - inv_ok H as me k1 H1. inv_ok H as b k2 H2. inv_ok H as u3 k3 H3. inv_ok H as u4 k4 H4. inv_ok H as u5 k5 H5.
    inv_ok H as b6 k6 H6. apply killed_ok in H6 as [-> (me' & p & Hme & Hp & ->)]. apply when_exit_ok in H as [Hb ->].
    intros m q Hm Hq. congruence.
  - inv_ok H as u1 k1 H1. inv_ok H as u2 k2 H2. inv_ok H as u3 k3 H3.
    apply exit_if_killed_ok in H as [-> Ha]; done.
Qed.

(** A clock tick while process 0 is in user mode; while it waits for its turn
    nothing happens, or process 0 is killed.  The scheduler chooses it again in
    the same pass, with the lock held. *)
Definition clock_tick : trapframe := mkTf 0 0 0 0 0 0 0 0 0 0 0 0 0 0 0 (T_IRQ0 + IRQ_TIMER) 0 0x1000 0x23 0x200 0x4000 0x2B.
Definition chosen_again : K unit := scheduler_visit 0;; mret tt.
Definition killed_meanwhile : K unit := updproc 0 (set_p_killed true);; chosen_again.
Definition tick_end (others : K unit) : res kernel unit :=
  @trap_until (mkKvm 0 0 0 0 0) (devsw (mkCpuid 0 [] 0 0 0 0 0)) (λ _, 0) (mret tt) others 0 clock_tick (kernel0 ∅).
Definition after_tick : kernel := match tick_end chosen_again with Ok _ k => k | _ => kernel0 ∅ end.
Definition returned {A} (r : res kernel A) : bool := match r with Ok _ _ => true | _ => false end.
Lemma killed_never_returns_witness : alive after_tick ∧ k_ticks after_tick = 1 ∧ returned (tick_end killed_meanwhile) = false.
Proof.
  split; [|split; vm_compute; reflexivity].
  apply (killed_never_returns (mkKvm 0 0 0 0 0) (devsw (mkCpuid 0 [] 0 0 0 0 0)) (λ _, 0) (mret tt) chosen_again 0 clock_tick (kernel0 ∅) tt);
    vm_compute; reflexivity.
Defined.
