(* ===== verification/User.v ===== *)
(** * User: system calls as user programs see them, and the small programs

    include/user.h, the rest of ulib/ulib.c and the programs of src/user except
    the shell, grep and usertests.  [Sys] is the interface of the kernel to one
    process: the system calls act on a world [S].  [fork] returns in two
    processes; a run here is that of one of them, and what the others do in
    the meantime is part of the world.  A call of [exit] ends the run:
    [Sleeps s], with the world as the process leaves it.  Strings are the bytes
    before the NUL. *)

From stdpp Require Import prelude functions gmap strings.
From S2P Require Import Prelude Types Cstr Ulib Fs Cprintf Uprintf Sysfile.
Open Scope Z_scope.

(** ** user.h *)

(** [u_read] and [u_fstat] also return what is stored at the pointer, and
    [u_pipe] the two descriptors. *)
Class Sys (S : Type) := {
  u_fork : M S Z;
  u_wait : M S Z;
  u_pipe : M S (Z * Z * Z);
  u_write : Z → list Z → Z → M S Z;
  u_read : Z → Z → M S (Z * list Z);
  u_close : Z → M S Z;
  u_kill : Z → M S Z;
  u_exec : list Z → list (list Z) → M S Z;
  u_open : list Z → Z → M S Z;
  u_mknod : list Z → Z → Z → M S Z;
  u_unlink : list Z → M S Z;
  u_fstat : Z → M S (Z * stat);
  u_link : list Z → list Z → M S Z;
  u_mkdir : list Z → M S Z;
  u_chdir : list Z → M S Z;
  u_dup : Z → M S Z;
  u_getpid : M S Z;
  u_sbrk : Z → M S Z;
  u_sleep : Z → M S Z;
  u_uptime : M S Z;
  u_chmod : list Z → Z → M S Z
}.

Definition newline : list Z := [10].

Section programs.
Context {S : Type} `{Sys S}.

Definition uexit {A} : M S A := λ s, Sleeps s.

(** ** ulib *)

Definition putc (fd c : Z) : M S unit := u_write fd [c] 1;; mret tt.
Definition uprintf (fd : Z) (fmt : list Z) (ap : list arg) : M S unit :=
  l ← need (printf fmt ap);
  for_each l (putc fd).

Definition ustat (n : list Z) : M S (Z * option stat) :=
  fd ← u_open n O_RDONLY;
  if fd <? 0 then mret (-1, None) else
  r ← u_fstat fd;
  u_close fd;;
  mret (r.1, Some r.2).

(** The bytes up to the first newline or return, or as many as fit. *)
Fixpoint ugets_loop (room : nat) (buf : list Z) : M S (list Z) :=
  match room with
  | O => mret buf
  | Datatypes.S room =>
      r ← u_read 0 1;
      if r.1 <? 1 then mret buf else
      c ← need (r.2 !! 0%nat);
      let buf := buf ++ [c] in
      if (c =? 10) || (c =? 13) then mret buf else ugets_loop room buf
  end.
Definition ugets (max : Z) : M S (list Z) := ugets_loop (Z.to_nat (max - 1)) [].

(** ** cat.c *)

Fixpoint cat (fd : Z) (fuel : nat) : M S unit :=
  match fuel with
  | O => spin
  | Datatypes.S fuel =>
      r ← u_read fd 512;
      if 0 <? r.1 then
        u_write 1 r.2 r.1;;
        cat fd fuel
      else when (r.1 <? 0) (
        uprintf 1 (str "cat: read error" ++ newline) [];;
        uexit)
  end.
Definition cat_file (fuel : nat) (name : list Z) : M S unit :=
  fd ← u_open name 0;
  if fd <? 0 then
    uprintf 1 (str "cat: cannot open %s" ++ newline) [AStr (Some name)];;
    uexit
  else
    cat fd fuel;;
    u_close fd;;
    mret tt.
(** [argv] without the program's name, here and below. *)
Definition cat_main (fuel : nat) (argv : list (list Z)) : M S unit :=
  match argv with
  | [] => cat 0 fuel;; uexit
  | _ => for_each argv (cat_file fuel);; uexit
  end.

(** ** wc.c *)

Definition wc_spaces : list Z := [32; 13; 9; 10; 11].
(** [strchr(" \r\t\n\v", c)] is not null. *)
Definition wc_space (c : Z) : bool :=
  match strchr (cells (wc_spaces ++ [0])) c 6 with Some (Some _) => true | _ => false end.
Record wcs := mkWc { wc_l : Z; wc_w : Z; wc_c : Z; wc_inword : bool }.
Definition wc_char (x : wcs) (b : Z) : wcs :=
  let c := wc_c x + 1 in
  let l := if b =? 10 then wc_l x + 1 else wc_l x in
  if wc_space b then mkWc l (wc_w x) c false
  else if negb (wc_inword x) then mkWc l (wc_w x + 1) c true
  else mkWc l (wc_w x) c true.
Fixpoint wc_loop (fd : Z) (x : wcs) (fuel : nat) : M S (Z * wcs) :=
  match fuel with
  | O => spin
  | Datatypes.S fuel =>
      r ← u_read fd 512;
      if 0 <? r.1 then wc_loop fd (foldl wc_char x (take (Z.to_nat r.1) r.2)) fuel else mret (r.1, x)
  end.
Definition wc (fd : Z) (name : list Z) (fuel : nat) : M S unit :=
  '(n, x) ← wc_loop fd (mkWc 0 0 0 false) fuel;
  if n <? 0 then
    uprintf 1 (str "wc: read error" ++ newline) [];;
    uexit
  else uprintf 1 (str "%d %d %d %s" ++ newline) [AInt (wc_l x); AInt (wc_w x); AInt (wc_c x); AStr (Some name)].
Definition wc_file (fuel : nat) (name : list Z) : M S unit :=
  fd ← u_open name 0;
  if fd <? 0 then
    uprintf 1 (str "wc: cannot open %s" ++ newline) [AStr (Some name)];;
    uexit
  else
    wc fd name fuel;;
    u_close fd;;
    mret tt.
Definition wc_main (fuel : nat) (argv : list (list Z)) : M S unit :=
  match argv with
  | [] => wc 0 [] fuel;; uexit
  | _ => for_each argv (wc_file fuel);; uexit
  end.

(** ** echo.c, ln.c, kill.c, mkdir.c, rm.c, chmod.c *)

Fixpoint echo_loop (argv : list (list Z)) : M S unit :=
  match argv with
  | [] => mret tt
  | a :: argv =>
      uprintf 1 (str "%s%s") [AStr (Some a); AStr (Some (match argv with [] => newline | _ => [32] end))];;
      echo_loop argv
  end.
Definition echo_main (argv : list (list Z)) : M S unit := echo_loop argv;; uexit.

Definition ln_main (argv : list (list Z)) : M S unit :=
  match argv with
  | [old; new] =>
      r ← u_link old new;
      when (r <? 0) (uprintf 2 (str "link %s %s: failed" ++ newline) [AStr (Some old); AStr (Some new)]);;
      uexit
  | _ => uprintf 2 (str "Usage: ln old new" ++ newline) [];; uexit
  end.

Definition kill_one (a : list Z) : M S unit :=
  pid ← need (atoi (cells (a ++ [0])) (Datatypes.S (length a)));
  u_kill pid;;
  mret tt.
Definition kill_main (argv : list (list Z)) : M S unit :=
  match argv with
  | [] => uprintf 2 (str "usage: kill pid..." ++ newline) [];; uexit
  | _ => for_each argv kill_one;; uexit
  end.

Fixpoint mkdir_loop (argv : list (list Z)) : M S unit :=
  match argv with
  | [] => mret tt
  | a :: argv =>
      r ← u_mkdir a;
      if r <? 0 then uprintf 2 (str "mkdir: %s failed to create" ++ newline) [AStr (Some a)] else mkdir_loop argv
  end.
Definition mkdir_main (argv : list (list Z)) : M S unit :=
  match argv with
  | [] => uprintf 2 (str "Usage: mkdir files..." ++ newline) [];; uexit
  | _ => mkdir_loop argv;; uexit
  end.

Fixpoint rm_loop (argv : list (list Z)) : M S unit :=
  match argv with
  | [] => mret tt
  | a :: argv =>
      r ← u_unlink a;
      if r <? 0 then uprintf 2 (str "rm: %s failed to delete" ++ newline) [AStr (Some a)] else rm_loop argv
  end.
Definition rm_main (argv : list (list Z)) : M S unit :=
  match argv with
  | [] => uprintf 2 (str "Usage: rm files..." ++ newline) [];; uexit
  | _ => rm_loop argv;; uexit
  end.

(** The numbers are hexadecimal in the source. *)
Definition chmod_main (argv : list (list Z)) : M S unit :=
  match argv with
  | a :: path :: _ =>
      fd ← u_open path 0;
      if fd <? 0 then
        uprintf 2 (str "chmod: cannot open %s" ++ newline) [AStr (Some path)];;
        uexit
      else
      r ← u_fstat fd;
      if r.1 <? 0 then
        uprintf 2 (str "chmod: cannot stat %s" ++ newline) [AStr (Some path)];;
        u_close fd;;
        uexit
      else
        let mode := i32 (st_mode r.2) in
        u_close fd;;
        x ← need (strcmp (cells (a ++ [0])) (cells (str "-x" ++ [0])) 3);
        (if x =? 0 then u_chmod path (Z.land 0x677 mode);; mret tt else
         x ← need (strcmp (cells (a ++ [0])) (cells (str "+x" ++ [0])) 3);
         when (x =? 0) (u_chmod path (Z.land 0x777 mode);; mret tt));;
        uexit
  | _ => uexit
  end.

(** ** ls.c *)

(** The part of a path after the last slash. *)
Fixpoint after_slash (p s : list Z) : list Z :=
  match s with
  | [] => p
  | c :: s => after_slash (if c =? slash then s else p) s
  end.
Definition fmtname (path : list Z) : list Z :=
  let p := after_slash path path in
  if DIRSIZ <=? Z.of_nat (length p) then p else
  p ++ replicate (Z.to_nat DIRSIZ - length p) 32.

Definition ls_line (sep : list Z) (name : list Z) (st : stat) : M S unit :=
  uprintf 1 (str "%s" ++ sep ++ str "%d %d %d %x %d %d" ++ newline)
    [AStr (Some name); AInt (st_type st); AInt (st_ownerid st); AInt (st_groupid st); AInt (st_mode st); AInt (st_ino st); AInt (st_size st)].

(** The name in a directory entry, up to its NUL. *)
Definition de_string (d : dirent) : list Z := cstr (cells (de_name d)) DIRSIZ.

Fixpoint ls_dir (fd : Z) (path : list Z) (fuel : nat) : M S unit :=
  match fuel with
  | O => spin
  | Datatypes.S fuel =>
      r ← u_read fd DIRENT_SIZE;
      if negb (r.1 =? DIRENT_SIZE) then mret tt else
      let de := de_of_bytes r.2 in
      if de_inum de =? 0 then ls_dir fd path fuel else
      let buf := path ++ [slash] ++ de_string de in
      '(n, ost) ← ustat buf;
      (if n <? 0 then uprintf 1 (str "ls: cannot stat %s" ++ newline) [AStr (Some buf)] else
       st ← need ost;
       ls_line [32; 32] (fmtname buf) st);;
      ls_dir fd path fuel
  end.
Definition ls (fuel : nat) (path : list Z) : M S unit :=
  fd ← u_open path 0;
  if fd <? 0 then uprintf 2 (str "ls: cannot open %s" ++ newline) [AStr (Some path)] else
  r ← u_fstat fd;
  if r.1 <? 0 then
    uprintf 2 (str "ls: cannot stat %s" ++ newline) [AStr (Some path)];;
    u_close fd;;
    mret tt
  else
    (if st_type r.2 =? T_FILE then ls_line [32] (fmtname path) r.2
     else if st_type r.2 =? T_DIR then
       if 512 <? Z.of_nat (length path) + 1 + DIRSIZ + 1 then uprintf 1 (str "ls: path too long" ++ newline) []
       else ls_dir fd path fuel
     else mret tt);;
    u_close fd;;
    mret tt.
Definition ls_main (fuel : nat) (argv : list (list Z)) : M S unit :=
  match argv with
  | [] => ls fuel (str ".");; uexit
  | _ => for_each argv (ls fuel);; uexit
  end.

(** ** init.c *)

(** Waiting for the shell; other children are orphans it inherited. *)
Fixpoint init_wait (pid : Z) (fuel : nat) : M S unit :=
  match fuel with
  | O => spin
  | Datatypes.S fuel =>
      wpid ← u_wait;
      if (0 <=? wpid) && negb (wpid =? pid) then
        uprintf 1 (str "zombie!" ++ newline) [];;
        init_wait pid fuel
      else mret tt
  end.
Fixpoint init_loop (waits : nat) (fuel : nat) : M S unit :=
  match fuel with
  | O => spin
  | Datatypes.S fuel =>
      uprintf 1 (str "init: starting sh" ++ newline) [];;
      pid ← u_fork;
      if pid <? 0 then
        uprintf 1 (str "init: fork failed" ++ newline) [];;
        uexit
      else if pid =? 0 then
        u_exec (str "sh") [str "sh"];;
        uprintf 1 (str "init: exec sh failed" ++ newline) [];;
        uexit
      else
        init_wait pid waits;;
        init_loop waits fuel
  end.
Definition init_main (waits fuel : nat) : M S unit :=
  fd ← u_open (str "console") O_RDWR;
  when (fd <? 0) (
    u_mknod (str "console") 1 1;;
    u_open (str "console") O_RDWR;;
    mret tt);;
  u_dup 0;;
  u_dup 0;;
  u_mknod (str "cpuid") CPUID 1;;
  init_loop waits fuel.

(** ** zombie.c, forktest.c, stressfs.c *)

Definition zombie_main : M S unit :=
  pid ← u_fork;
  when (0 <? pid) (u_sleep 5;; mret tt);;
  uexit.

(** The [printf] of forktest.c. *)
Definition ftputs (fd : Z) (s : list Z) : M S unit := u_write fd s (Z.of_nat (length s));; mret tt.

(** The number of forks that worked. *)
Fixpoint forktest_forks (n : nat) (room : nat) : M S nat :=
  match room with
  | O => mret n
  | Datatypes.S room =>
      pid ← u_fork;
      if pid <? 0 then mret n else
      if pid =? 0 then uexit else
      forktest_forks (Datatypes.S n) room
  end.
Fixpoint forktest_waits (n : nat) : M S unit :=
  match n with
  | O => mret tt
  | Datatypes.S n =>
      r ← u_wait;
      if r <? 0 then
        ftputs 1 (str "wait stopped early" ++ newline);;
        uexit
      else forktest_waits n
  end.
Definition forktest : M S unit :=
  ftputs 1 (str "fork test" ++ newline);;
  n ← forktest_forks 0 (Z.to_nat 1000);
  if Z.of_nat n =? 1000 then
    ftputs 1 (str "fork claimed to work N times!" ++ newline);;
    uexit
  else
  forktest_waits n;;
  r ← u_wait;
  if negb (r =? -1) then
    ftputs 1 (str "wait got too many" ++ newline);;
    uexit
  else
  ftputs 1 (str "fork test OK" ++ newline).
Definition forktest_main : M S unit := forktest;; uexit.

(** How many forks this process came out of as the child. *)
Fixpoint stressfs_forks (i : nat) (room : nat) : M S nat :=
  match room with
  | O => mret i
  | Datatypes.S room =>
      pid ← u_fork;
      if 0 <? pid then mret i else stressfs_forks (Datatypes.S i) room
  end.
Definition stressfs_main : M S unit :=
  uprintf 1 (str "stressfs starting" ++ newline) [];;
  let data := replicate (Z.to_nat 512) 97 in
  i ← stressfs_forks 0 4;
  uprintf 1 (str "write %d" ++ newline) [AInt (Z.of_nat i)];;
  let path := str "stressfs" ++ [48 + Z.of_nat i] in
  fd ← u_open path (Z.lor O_CREATE O_RDWR);
  for_each (seq 0 20) (λ _, u_write fd data 512;; mret tt);;
  u_close fd;;
  uprintf 1 (str "read" ++ newline) [];;
  fd ← u_open path O_RDONLY;
  for_each (seq 0 20) (λ _, u_read fd 512;; mret tt);;
  u_close fd;;
  u_wait;;
  uexit.
End programs.
