(* ===== verification/Grep.v ===== *)
(** * Grep: user/grep.c

    The pattern matcher and the program.  The first theorem says that the
    matcher decides the language of the pattern, given by a denotation of
    patterns that does not mention the matcher; the second is about the loop
    that reads lines through a buffer. *)

From stdpp Require Import prelude functions gmap strings.
From S2P Require Import Prelude Types Cstr Ulib Fs Cprintf Uprintf Sysfile User.
Open Scope Z_scope.

(** ** The matcher *)

Definition caret : Z := 94.
Definition dollar : Z := 36.
Definition dot : Z := 46.
Definition star : Z := 42.

(** [matchstar(c, re, text)], where [here] is [matchhere(re, _)]. *)
Fixpoint matchstar (c : Z) (here : list Z → bool) (text : list Z) : bool :=
  if here text then true else
  match text with
  | [] => false
  | t :: text => if (t =? c) || (c =? dot) then matchstar c here text else false
  end.

Fixpoint matchhere (re text : list Z) : bool :=
  match re with
  | [] => true
  | c :: re1 =>
      match re1 with
      | d :: re2 =>
          if d =? star then matchstar c (matchhere re2) text else
          match text with
          | t :: text => if (c =? dot) || (c =? t) then matchhere re1 text else false
          | [] => false
          end
      | [] =>
          if c =? dollar then match text with [] => true | _ => false end else
          match text with
          | t :: text => if (c =? dot) || (c =? t) then matchhere re1 text else false
          | [] => false
          end
      end
  end.

(** The [do] loop of [match], from a position in the text. *)
Fixpoint match_loop (re text : list Z) : bool :=
  if matchhere re text then true else
  match text with
  | [] => false
  | _ :: text => match_loop re text
  end.
Definition match_ (re text : list Z) : bool :=
  match re with
  | c :: re1 => if c =? caret then matchhere re1 text else match_loop re text
  | [] => match_loop re text
  end.

(** ** The language of a pattern *)

Inductive atom := Any | Lit (c : Z).
Inductive item := One (a : atom) | Many (a : atom) | Eol.

Definition atom_of (c : Z) : atom := if c =? dot then Any else Lit c.
(** The text of a pattern as items: a star belongs to the character before
    it, and a dollar sign that ends the pattern is the end of the line. *)
Fixpoint items (re : list Z) : list item :=
  match re with
  | [] => []
  | c :: re1 =>
      match re1 with
      | d :: re2 => if d =? star then Many (atom_of c) :: items re2 else One (atom_of c) :: items re1
      | [] => if c =? dollar then [Eol] else [One (atom_of c)]
      end
  end.

Definition atom_ok (a : atom) (x : Z) : Prop := match a with Any => True | Lit c => x = c end.

(** The items match [w] when [rest] follows it. *)
Inductive den : list item → list Z → list Z → Prop :=
| den_nil rest : den [] [] rest
| den_one a p x w rest : atom_ok a x → den p w rest → den (One a :: p) (x :: w) rest
| den_many a p w1 w2 rest : Forall (atom_ok a) w1 → den p w2 rest → den (Many a :: p) (w1 ++ w2) rest
| den_eol p w : den p w [] → den (Eol :: p) w [].

(** The pattern matches somewhere in the text, at its start after a caret. *)
Definition matches (re text : list Z) : Prop :=
  match re with
  | c :: re1 =>
      if c =? caret then ∃ w rest, text = w ++ rest ∧ den (items re1) w rest
      else ∃ before w rest, text = before ++ w ++ rest ∧ den (items re) w rest
  | [] => ∃ before w rest, text = before ++ w ++ rest ∧ den (items re) w rest
  end.

(** ** The matcher decides the language *)

Lemma atom_ok_bool c t : (t =? c) || (c =? dot) = true ↔ atom_ok (atom_of c) t.
Proof. unfold atom_of. destruct (Z.eqb_spec c dot); cbn; [by rewrite orb_true_r|]. rewrite orb_false_r. apply Z.eqb_eq. Qed.
Lemma atom_ok_bool' c t : (c =? dot) || (c =? t) = true ↔ atom_ok (atom_of c) t.
Proof. rewrite orb_comm, (Z.eqb_sym c t). apply atom_ok_bool. Qed.

Lemma matchstar_spec c here (P : list Z → Prop) (HP : ∀ text, here text = true ↔ P text) text :
  matchstar c here text = true ↔ ∃ w1 t2, text = w1 ++ t2 ∧ Forall (atom_ok (atom_of c)) w1 ∧ P t2.
Proof.
  induction text as [|t text IH]; cbn [matchstar].
  - destruct (here []) eqn:Hh; split; try done.
    + intros _. exists [], []. by rewrite <-HP.
    + intros (w1 & t2 & He & _ & Hp). symmetry in He. apply app_eq_nil in He as [-> ->]. apply HP in Hp. congruence.
  - destruct (here (t :: text)) eqn:Hh; [split; [|done]; intros _; exists [], (t :: text); by rewrite <-HP|].
    assert (Hno : ¬ P (t :: text)) by (rewrite <-HP; congruence). split.
    + destruct ((t =? c) || (c =? dot)) eqn:Ha; [|done]. intros (w1 & t2 & -> & Hf & Hp)%IH.
      exists (t :: w1), t2. split; [done|]. split; [|done]. constructor; [by apply atom_ok_bool|done].
    + intros ([|x w1] & t2 & He & Hf & Hp); [by simplify_list_eq|]. injection He as -> ->. apply Forall_cons in Hf as [Ha Hf].
      apply atom_ok_bool in Ha. rewrite Ha. apply IH. eauto.
Qed.

(** The prefixes of the text that the items match. *)
Definition den_prefix (p : list item) (text : list Z) : Prop := ∃ w rest, text = w ++ rest ∧ den p w rest.

Lemma den_prefix_nil text : den_prefix [] text.
Proof. exists [], text. split; [done|constructor]. Qed.
Lemma den_prefix_one a p text : den_prefix (One a :: p) text ↔ ∃ t text', text = t :: text' ∧ atom_ok a t ∧ den_prefix p text'.
Proof.
  split.
  - intros (w & rest & -> & Hd). inversion Hd; subst. eexists _, _. split; [done|]. split; [done|]. by do 2 eexists.
  - intros (t & text' & -> & Ha & w & rest & -> & Hd). exists (t :: w), rest. split; [done|by constructor].
Qed.
Lemma den_prefix_many a p text :
  den_prefix (Many a :: p) text ↔ ∃ w1 t2, text = w1 ++ t2 ∧ Forall (atom_ok a) w1 ∧ den_prefix p t2.
Proof.
  split.
  - intros (w & rest & -> & Hd). inversion Hd; subst. eexists _, _. split; [by rewrite <-app_assoc|]. split; [done|]. by do 2 eexists.
  - intros (w1 & t2 & -> & Hf & w & rest & -> & Hd). exists (w1 ++ w), rest. split; [by rewrite <-app_assoc|by constructor].
Qed.
Lemma den_prefix_eol text : den_prefix [Eol] text ↔ text = [].
Proof.
  split.
  - intros (w & rest & -> & Hd). inversion Hd as [| | |? ? Hn]; subst. by inversion Hn.
  - intros ->. exists [], []. split; [done|]. constructor. constructor.
Qed.

Lemma matchhere_char c re1 text (IH : ∀ text, matchhere re1 text = true ↔ den_prefix (items re1) text) :
  match text with t :: text => if (c =? dot) || (c =? t) then matchhere re1 text else false | [] => false end = true ↔
    den_prefix (One (atom_of c) :: items re1) text.
Proof.
  rewrite den_prefix_one. destruct text as [|t text]; [split; [done|]; by intros (? & ? & ? & _)|].
  destruct ((c =? dot) || (c =? t)) eqn:Ha.
  - rewrite IH. apply atom_ok_bool' in Ha. split; [eauto|]. by intros (? & ? & [= -> ->] & _ & ?).
  - split; [done|]. intros (? & ? & [= -> ->] & Ha' & _). apply atom_ok_bool' in Ha'. congruence.
Qed.

Lemma matchhere_spec n : ∀ re text, (length re ≤ n)%nat → matchhere re text = true ↔ den_prefix (items re) text.
Proof.
  induction n as [|n IH]; intros [|c re1] text Hn; cbn in Hn; try lia; try (split; [intros _; apply den_prefix_nil|done]).
  assert (IH1 : ∀ text, matchhere re1 text = true ↔ den_prefix (items re1) text) by (intros; apply IH; lia).
  destruct re1 as [|d re2].
  - cbn [matchhere items]. destruct (c =? dollar); [rewrite den_prefix_eol; by destruct text|]. by apply (matchhere_char c []).
  - change (matchhere (c :: d :: re2) text) with (if d =? star then matchstar c (matchhere re2) text else
      match text with t :: text => if (c =? dot) || (c =? t) then matchhere (d :: re2) text else false | [] => false end).
    change (items (c :: d :: re2)) with (if d =? star then Many (atom_of c) :: items re2 else One (atom_of c) :: items (d :: re2)).
    destruct (d =? star); [|by apply matchhere_char]. rewrite den_prefix_many. cbn in Hn.
    apply (matchstar_spec c (matchhere re2) (den_prefix (items re2))). intros; apply IH; lia.
Qed.

Lemma match_loop_spec re text : match_loop re text = true ↔
  ∃ before w rest, text = before ++ w ++ rest ∧ den (items re) w rest.
Proof.
  assert (Hh : ∀ text, matchhere re text = true ↔ den_prefix (items re) text) by (intros; by eapply matchhere_spec).
  induction text as [|t text IH]; cbn [match_loop].
  - destruct (matchhere re []) eqn:E; split; try done.
    + intros _. apply Hh in E as (w & rest & He & Hd). by exists [], w, rest.
    + intros (b & w & rest & He & Hd). symmetry in He. apply app_eq_nil in He as [-> He].
      assert (den_prefix (items re) []) as Hp%Hh by (by exists w, rest). congruence.
  - destruct (matchhere re (t :: text)) eqn:E.
    + split; [intros _|done]. apply Hh in E as (w & rest & He & Hd). by exists [], w, rest.
    + rewrite IH. split.
      * intros (b & w & rest & -> & Hd). by exists (t :: b), w, rest.
      * intros ([|x b] & w & rest & He & Hd).
        { assert (den_prefix (items re) (t :: text)) as Hp%Hh by (by exists w, rest). congruence. }
        injection He as -> ->. by exists b, w, rest.
Qed.

(** C38: the matcher of grep decides the language of the pattern: it accepts a
    line exactly when some stretch of it, its start after a caret, is matched
    by the items of the pattern (a character or a dot, a starred one repeated
    any number of times, and a final dollar sign for the end of the line). *)
Theorem match_language re text : match_ re text = true ↔ matches re text.
Proof.
  unfold match_, matches. destruct re as [|c re1]; [apply match_loop_spec|].
  destruct (c =? caret); [|apply match_loop_spec]. by eapply (matchhere_spec (length re1)).
Qed.

(** ** The program *)

(** [strchr(p, '\n')]: the line before the newline and what follows it; none
    if there is no newline before the terminating NUL. *)
Fixpoint cut_line (p : list Z) : option (list Z * list Z) :=
  match p with
  | [] => None
  | c :: p => if c =? 0 then None else if c =? 10 then Some ([], p) else
              match cut_line p with Some (l, r) => Some (c :: l, r) | None => None end
  end.

Section program.
Context {S : Type} `{Sys S}.

(** The lines in the buffer from [p] on; returns what is after the last. *)
Fixpoint grep_buf (pattern p : list Z) (fuel : nat) : M S (list Z) :=
  match cut_line p with
  | None => mret p
  | Some (l, r) =>
      match fuel with
      | O => spin
      | Datatypes.S fuel =>
          when (match_ pattern l) (u_write 1 (l ++ newline) (Z.of_nat (length l) + 1);; mret tt);;
          grep_buf pattern r fuel
      end
  end.

(** [buf] is the first [m] bytes of the buffer. *)
Fixpoint grep_loop (pattern : list Z) (fd : Z) (buf : list Z) (fuel : nat) : M S unit :=
  match fuel with
  | O => spin
  | Datatypes.S fuel =>
      r ← u_read fd (1024 - Z.of_nat (length buf) - 1);
      if 0 <? r.1 then
        let buf := buf ++ r.2 in
        p ← grep_buf pattern buf (length buf);
        grep_loop pattern fd (if decide (length p = length buf) then [] else p) fuel
      else mret tt
  end.
Definition grep (fuel : nat) (pattern : list Z) (fd : Z) : M S unit := grep_loop pattern fd [] fuel.

Definition grep_file (fuel : nat) (pattern name : list Z) : M S unit :=
  fd ← u_open name 0;
  if fd <? 0 then
    uprintf 1 (str "grep: cannot open %s" ++ newline) [AStr (Some name)];;
    uexit
  else
    grep fuel pattern fd;;
    u_close fd;;
    mret tt.
Definition grep_main (fuel : nat) (argv : list (list Z)) : M S unit :=
  match argv with
  | [] => uprintf 2 (str "usage: grep pattern [file ...]" ++ newline) [];; uexit
  | [pattern] => grep fuel pattern 0;; uexit
  | pattern :: names => for_each names (grep_file fuel pattern);; uexit
  end.
End program.

(** ** Lines through the buffer *)

(** A world with an input that arrives in pieces, as from a pipe, and an
    output; there is nothing else in it. *)
Record stream := mkStream { s_in : list (list Z); s_out : list Z }.
#[global] Instance stream_sys : Sys stream := {|
  u_fork := mret (-1); u_wait := mret (-1); u_pipe := mret (-1, 0, 0);
  u_write _ l n := modify (λ s, mkStream (s_in s) (s_out s ++ take (Z.to_nat n) l));; mret n;
  u_read _ n := λ s, match s_in s with
    | [] => Ok (0, []) s
    | c :: cs => if Z.of_nat (length c) <=? n then Ok (Z.of_nat (length c), c) (mkStream cs (s_out s))
                 else Ok (n, take (Z.to_nat n) c) (mkStream (drop (Z.to_nat n) c :: cs) (s_out s))
    end;
  u_close _ := mret 0; u_kill _ := mret (-1); u_exec _ _ := mret (-1); u_open _ _ := mret (-1); u_mknod _ _ _ := mret (-1);
  u_unlink _ := mret (-1); u_fstat _ := mret (-1, mkStat 0 0 0 0 0 0 0 0); u_link _ _ := mret (-1); u_mkdir _ := mret (-1);
  u_chdir _ := mret (-1); u_dup _ := mret (-1); u_getpid := mret 1; u_sbrk _ := mret (-1); u_sleep _ := mret 0;
  u_uptime := mret 0; u_chmod _ _ := mret (-1)
|}.

(** The complete lines of a text and what follows the last newline. *)
Fixpoint split_lines (l : list Z) : list (list Z) * list Z :=
  match l with
  | [] => ([], [])
  | c :: l =>
      let (ls, r) := split_lines l in
      if c =? 10 then ([] :: ls, r) else
      match ls with
      | [] => ([], c :: r)
      | x :: ls => ((c :: x) :: ls, r)
      end
  end.
Definition grep_spec (pattern text : list Z) : list Z :=
  concat ((λ l, l ++ newline) <$> filter (λ l, match_ pattern l = true) (split_lines text).1).

Lemma split_lines_none l : 10 ∉ l → split_lines l = ([], l).
Proof.
  induction l as [|c l IH]; [done|]. intros [Hc Hl]%not_elem_of_cons. cbn. rewrite IH by done.
  by destruct (Z.eqb_spec c 10).
Qed.
Lemma split_lines_cons x r : 10 ∉ x → split_lines (x ++ 10 :: r) = (x :: (split_lines r).1, (split_lines r).2).
Proof.
  induction x as [|c x IH]; intros Hx; cbn.
  - by destruct (split_lines r).
  - apply not_elem_of_cons in Hx as [Hc Hx]. rewrite IH by done. by destruct (Z.eqb_spec c 10).
Qed.
Lemma cut_line_spec p : 0 ∉ p → match cut_line p with
  | Some (l, r) => p = l ++ 10 :: r ∧ (10 ∉ l)
  | None => 10 ∉ p
  end.
Proof.
  induction p as [|c p IH]; cbn; [intros _; apply not_elem_of_nil|]. intros [Hc Hp]%not_elem_of_cons.
  destruct (Z.eqb_spec c 0); [congruence|]. destruct (Z.eqb_spec c 10) as [->|Hn]; [split; [done|apply not_elem_of_nil]|].
  specialize (IH Hp). destruct (cut_line p) as [[l r]|].
  - destruct IH as [-> Hl]. split; [done|]. by apply not_elem_of_cons.
  - by apply not_elem_of_cons.
Qed.

(** Lines of a text in two parts. *)
Lemma split_lines_app a b :
  split_lines (a ++ b) = ((split_lines a).1 ++ (split_lines ((split_lines a).2 ++ b)).1, (split_lines ((split_lines a).2 ++ b)).2).
Proof.
  induction a as [|c a IH]; cbn [app].
  { cbn. by destruct (split_lines b). }
  cbn [split_lines]. rewrite IH. destruct (split_lines a) as [ls r]. cbn [fst snd].
  destruct (Z.eqb_spec c 10) as [->|Hc]; [done|]. destruct ls as [|x ls]; cbn [fst snd app]; [|done].
  cbn [split_lines]. destruct (split_lines (r ++ b)) as [ls' r']. cbn [fst snd]. destruct (Z.eqb_spec c 10); [done|]. by destruct ls'.
Qed.
Lemma split_lines_rest_elem a x : x ∈ (split_lines a).2 → x ∈ a ∧ x ≠ 10.
Proof.
  induction a as [|c a IH]; cbn; [by intros ?%not_elem_of_nil|]. destruct (split_lines a) as [ls r]. cbn in IH.
  destruct (Z.eqb_spec c 10) as [->|Hc]; cbn; [intros [? ?]%IH; split; [by right|done]|].
  destruct ls; cbn; [|intros [? ?]%IH; split; [by right|done]].
  intros [->|[? ?]%IH]%elem_of_cons; [split; [left|done]|split; [by right|done]].
Qed.
Lemma split_lines_rest_short a : 10 ∈ a → (length (split_lines a).2 < length a)%nat.
Proof.
  assert (Hle : ∀ a, (length (split_lines a).2 ≤ length a)%nat).
  { clear. induction a as [|c a IH]; cbn; [lia|]. destruct (split_lines a) as [ls r]. cbn in IH.
    destruct (c =? 10); cbn; [lia|]. destruct ls; cbn; lia. }
  induction a as [|c a IH]; [by intros ?%not_elem_of_nil|]. intros Hin. specialize (Hle a). cbn.
  destruct (Z.eqb_spec c 10) as [->|Hc]; [destruct (split_lines a); cbn in *; lia|].
  apply elem_of_cons in Hin as [?|Hin]; [congruence|]. specialize (IH Hin).
  destruct (split_lines a) as [[|x ls] r] eqn:E; cbn in *; [|lia]. lia.
Qed.

Lemma split_lines_some a : 10 ∈ a → (split_lines a).1 ≠ [].
Proof.
  induction a as [|c a IH]; cbn; [by intros ?%not_elem_of_nil|]. intros Hin. destruct (split_lines a) as [ls r].
  destruct (Z.eqb_spec c 10) as [->|Hc]; [done|]. apply elem_of_cons in Hin as [?|Hin]; [congruence|]. by destruct ls; [apply IH in Hin|].
Qed.
(** What follows the last newline does not depend on what is before it. *)
Lemma split_lines_rest_app a b : 10 ∈ b → (split_lines (a ++ b)).2 = (split_lines b).2.
Proof.
  intros Hb. induction a as [|c a IH]; [done|]. cbn. pose proof (split_lines_some (a ++ b)) as Hs.
  rewrite elem_of_app in Hs. specialize (Hs (or_intror Hb)). destruct (split_lines (a ++ b)) as [ls r]. cbn in *.
  destruct (c =? 10); [done|]. by destruct ls.
Qed.

Lemma grep_spec_app pattern a b :
  grep_spec pattern (a ++ b) = grep_spec pattern a ++ grep_spec pattern ((split_lines a).2 ++ b).
Proof. unfold grep_spec. rewrite split_lines_app. cbn [fst]. by rewrite filter_app, fmap_app, concat_app. Qed.

Lemma grep_buf_run pattern cs fuel : ∀ p out, 0 ∉ p → (length p ≤ fuel)%nat →
  grep_buf pattern p fuel (mkStream cs out) = Ok (split_lines p).2 (mkStream cs (out ++ grep_spec pattern p)).
Proof.
  induction fuel as [|fuel IH]; intros p out H0 Hf; pose proof (cut_line_spec p H0) as Hc.
  - destruct p; [|cbn in Hf; lia]. cbn. by rewrite app_nil_r.
  - cbn [grep_buf]. destruct (cut_line p) as [[l r]|].
    + destruct Hc as [-> Hl]. rewrite length_app in Hf. cbn in Hf.
      assert (0 ∉ r) as Hr by (intros ?; apply H0, elem_of_app; right; by right).
      unfold grep_spec. rewrite split_lines_cons by done. cbn [fst snd].
      rewrite filter_cons. destruct (match_ pattern l) eqn:Hm; cbn [when].
      * rewrite decide_True by done. cbn [fmap list_fmap concat].
        erewrite bind_run; [|reflexivity]. rewrite IH by (done || lia). cbn [s_in s_out]. f_equal. f_equal.
        rewrite take_ge by (rewrite length_app; cbn; lia). by rewrite <-!app_assoc.
      * rewrite decide_False by done. erewrite bind_run; [|reflexivity]. rewrite IH by (done || lia). done.
    + rewrite split_lines_none by done. unfold grep_spec. rewrite split_lines_none by done. cbn. by rewrite app_nil_r.
Qed.

(** A piece of input that grep's buffer always has room for. *)
Definition piece_ok (c : list Z) : Prop := 10 ∈ c ∧ (0 ∉ c) ∧ (length c ≤ 512)%nat.

Lemma grep_loop_run pattern fd cs : ∀ buf out fuel, Forall piece_ok cs → 10 ∉ buf → 0 ∉ buf → (length buf < 512)%nat →
  (length cs < fuel)%nat →
  grep_loop pattern fd buf fuel (mkStream cs out) = Ok tt (mkStream [] (out ++ grep_spec pattern (buf ++ concat cs))).
Proof.
  induction cs as [|c cs IH]; intros buf out fuel Hcs Hb H0 Hlen Hfuel; (destruct fuel as [|fuel]; [cbn in Hfuel; lia|]).
  - cbn. rewrite app_nil_r. unfold grep_spec. rewrite split_lines_none by done. cbn. by rewrite app_nil_r.
  - apply Forall_cons in Hcs as [(Hn & Hz & Hl) Hcs]. cbn [grep_loop]. erewrite bind_run.
    2:{ cbn [u_read stream_sys s_in]. destruct (Z.leb_spec (Z.of_nat (length c)) (1024 - Z.of_nat (length buf) - 1)); [reflexivity|lia]. }
    cbn [fst snd s_out]. destruct (Z.ltb_spec 0 (Z.of_nat (length c))); [|destruct c; [by apply not_elem_of_nil in Hn|cbn in *; lia]].
    cbv zeta. erewrite bind_run; [|apply grep_buf_run; [|done]; rewrite elem_of_app; tauto].
    assert (Hin : 10 ∈ buf ++ c) by (apply elem_of_app; by right). pose proof (split_lines_rest_short _ Hin).
    rewrite decide_False by lia. rewrite split_lines_rest_app in * by done. pose proof (split_lines_rest_short _ Hn).
    rewrite IH; [|done| | |lia|cbn in Hfuel; lia].
    + f_equal. f_equal. cbn [concat]. rewrite (app_assoc buf c), (grep_spec_app _ (buf ++ c)), split_lines_rest_app, <-app_assoc by done. done.
    + by intros [_ ?]%split_lines_rest_elem.
    + by intros [? _]%split_lines_rest_elem.
Qed.

(** C39: grep prints the matching lines.  Whatever the pieces in which the
    input arrives, as long as each holds a newline, holds no NUL and is at
    most 512 bytes long, grep writes exactly the complete lines of the input
    that the pattern matches, in order, lines that cross pieces included, and
    it ends. *)
Theorem grep_prints_matches pattern fd cs out fuel : Forall piece_ok cs → (length cs < fuel)%nat →
  grep fuel pattern fd (mkStream cs out) = Ok tt (mkStream [] (out ++ grep_spec pattern (concat cs))).
Proof. intros Hcs Hf. apply grep_loop_run; try done; try apply not_elem_of_nil. cbn. lia. Qed.

Lemma grep_prints_matches_witness :
  grep 3 (str "a.c$") 0 (mkStream [str "xabc" ++ newline ++ str "ab"; str "c" ++ newline ++ str "d"] []) =
    Ok tt (mkStream [] (str "xabc" ++ newline ++ str "abc" ++ newline)).
Proof.
  rewrite grep_prints_matches; [vm_compute; reflexivity| |cbn; lia].
  repeat constructor; apply (bool_decide_unpack _); vm_compute; exact I.
Defined.

(** Without the newlines a partial line is dropped: the same text in two
    pieces has no output. *)
Lemma grep_drops_partial_line :
  grep 3 (str "abc") 0 (mkStream [str "abc" ++ newline] []) = Ok tt (mkStream [] (str "abc" ++ newline)) ∧
  grep 3 (str "abc") 0 (mkStream [str "ab"; str "c" ++ newline] []) = Ok tt (mkStream [] []).
Proof. split; vm_compute; reflexivity. Qed.
