(* ===== verification/Sh.v ===== *)
(** * Sh: user/sh.c

    The shell: the lexer, the recursive-descent parser, the termination of the
    words of a line in place, and the execution of command trees.

    The type theorem says that whatever line is typed the parser stops within
    its fuel and without reading outside the line, and returns a well-formed
    command or complains; in the first case every word of the tree is a C
    string in the line, although the terminating NULs are written over the
    line itself.  The round trip prints a command with the parentheses it
    needs and parses it back.

    The commands are trees of [cmd]; memory from [malloc] is taken to be there
    (a null result is used by the constructors as if it were not). *)

From stdpp Require Import prelude functions gmap strings.
From S2P Require Import Prelude Types Cstr Ulib Fs Cprintf Uprintf Sysfile User Grep.
Open Scope Z_scope.

Definition MAXARGS : Z := 10.

(** Parsed command representation.  [T] is the type of words: a pair of
    pointers into the line ([argv[i]] and [eargv[i]], [file] and [efile])
    while parsing, a string when the command is run.  The null pointer after
    the last argument is the end of the list. *)
Inductive cmd (T : Type) :=
| EXEC (argv : list T)
| REDIR (c : cmd T) (file : T) (mode fd : Z)
| PIPE (left right : cmd T)
| LIST (left right : cmd T)
| BACK (c : cmd T).
Arguments EXEC {T} argv.
Arguments REDIR {T} c file mode fd.
Arguments PIPE {T} left right.
Arguments LIST {T} left right.
Arguments BACK {T} c.

#[global] Instance cmd_eq_dec T `{EqDecision T} : EqDecision (cmd T).
Proof. solve_decision. Defined.

Fixpoint cmd_map {A B} (f : A → B) (c : cmd A) : cmd B :=
  match c with
  | EXEC argv => EXEC (f <$> argv)
  | REDIR c file mode fd => REDIR (cmd_map f c) (f file) mode fd
  | PIPE l r => PIPE (cmd_map f l) (cmd_map f r)
  | LIST l r => LIST (cmd_map f l) (cmd_map f r)
  | BACK c => BACK (cmd_map f c)
  end.
(** ** Lexer *)

Definition c_amp : Z := 38.
Definition c_lpar : Z := 40.
Definition c_rpar : Z := 41.
Definition c_plus : Z := 43.
Definition c_semi : Z := 59.
Definition c_lt : Z := 60.
Definition c_gt : Z := 62.
Definition c_a : Z := 97.
Definition c_pipe : Z := 124.

Definition whitespace : list Z := [32; 9; 13; 10; 11].
Definition symbols : list Z := [c_lt; c_pipe; c_gt; c_amp; c_semi; c_lpar; c_rpar].

(** [strchr(set, c)] is not null. *)
Definition in_set (set : list Z) (c : Z) : bool :=
  match strchr (cells (set ++ [0])) c (S (length set)) with Some (Some _) => true | _ => false end.
Definition ordinary (c : Z) : bool := negb (in_set whitespace c) && negb (in_set symbols c).

(** A word: where it starts and where it ends, as offsets into the line. *)
Definition word_ptr : Type := nat * nat.

(** Constructors. *)
Definition execcmd : cmd word_ptr := EXEC [].
Definition redircmd (subcmd : cmd word_ptr) (file efile : nat) (mode fd : Z) : cmd word_ptr := REDIR subcmd (file, efile) mode fd.
Definition pipecmd (left right : cmd word_ptr) : cmd word_ptr := PIPE left right.
Definition listcmd (left right : cmd word_ptr) : cmd word_ptr := LIST left right.
Definition backcmd (subcmd : cmd word_ptr) : cmd word_ptr := BACK subcmd.

Section parser.
Context (buf : list Z) (es : nat).

(** [while(s < es && p( *s )) s++], where [n] is [es - s]. *)
Fixpoint skip (p : Z → bool) (s n : nat) : option nat :=
  match n with
  | O => Some s
  | S n => match buf !! s with
           | Some c => if p c then skip p (S s) n else Some s
           | None => None
           end
  end.

(** The state is [*ps]. *)
Definition put_ps (s : nat) : M nat unit := λ _, Ok tt s.

(** Returns the kind of the token, [*q] and [*eq]. *)
Definition gettoken : M nat (Z * nat * nat) :=
  s ← get;
  s ← need (skip (in_set whitespace) s (es - s));
  let q := s in
  c ← need (buf !! s);
  '(ret, s) ← (
    if c =? 0 then mret (c, s)
    else if (c =? c_pipe) || (c =? c_lpar) || (c =? c_rpar) || (c =? c_semi) || (c =? c_amp) || (c =? c_lt)
    then mret (c, S s)
    else if c =? c_gt then
      d ← need (buf !! S s);
      if d =? c_gt then mret (c_plus, S (S s)) else mret (c, S s)
    else
      s ← need (skip ordinary s (es - s));
      mret (c_a, s));
  let eq := s in
  s ← need (skip (in_set whitespace) s (es - s));
  put_ps s;;
  mret (ret, q, eq).

Definition peek (toks : list Z) : M nat bool :=
  s ← get;
  s ← need (skip (in_set whitespace) s (es - s));
  put_ps s;;
  c ← need (buf !! s);
  mret (negb (c =? 0) && in_set toks c).

(** ** Parser *)

Fixpoint parseredirs (c : cmd word_ptr) (fuel : nat) : M nat (cmd word_ptr) :=
  b ← peek [c_lt; c_gt];
  if negb b then mret c else
  match fuel with
  | O => spin
  | S fuel =>
      '(tok, _, _) ← gettoken;
      '(t, q, eq) ← gettoken;
      if negb (t =? c_a) then panic "missing file for redirection" else
      parseredirs
        (if tok =? c_lt then redircmd c q eq O_RDONLY 0
         else if tok =? c_gt then redircmd c q eq (Z.lor O_WRONLY O_CREATE) 1
         else if tok =? c_plus then redircmd c q eq (Z.lor O_WRONLY O_CREATE) 1
         else c) fuel
  end.

(** [cmd->argv[argc] = q; cmd->eargv[argc] = eq], where [cmd] is the [execcmd]
    that the redirections of [ret] are wrapped around. *)
Fixpoint add_arg (w : word_ptr) (ret : cmd word_ptr) : cmd word_ptr :=
  match ret with
  | EXEC argv => EXEC (argv ++ [w])
  | REDIR c file mode fd => REDIR (add_arg w c) file mode fd
  | c => c
  end.

Fixpoint parseargs (ret : cmd word_ptr) (argc : Z) (fuel : nat) : M nat (cmd word_ptr) :=
  b ← peek [c_pipe; c_rpar; c_amp; c_semi];
  if b : bool then mret ret else
  match fuel with
  | O => spin
  | S fuel =>
      '(tok, q, eq) ← gettoken;
      if tok =? 0 then mret ret else
      if negb (tok =? c_a) then panic "syntax" else
      let ret := add_arg (q, eq) ret in
      let argc := argc + 1 in
      if MAXARGS <=? argc then panic "too many args" else
      ret ← parseredirs ret (S es);
      parseargs ret argc fuel
  end.

Fixpoint parseback (c : cmd word_ptr) (fuel : nat) : M nat (cmd word_ptr) :=
  b ← peek [c_amp];
  if negb b then mret c else
  match fuel with
  | O => spin
  | S fuel => gettoken;; parseback (backcmd c) fuel
  end.

Fixpoint parseline (fuel : nat) : M nat (cmd word_ptr) :=
  match fuel with
  | O => spin
  | S fuel =>
      c ← parsepipe fuel;
      c ← parseback c (S es);
      b ← peek [c_semi];
      if b : bool then
        gettoken;;
        r ← parseline fuel;
        mret (listcmd c r)
      else mret c
  end
with parsepipe (fuel : nat) : M nat (cmd word_ptr) :=
  match fuel with
  | O => spin
  | S fuel =>
      c ← parseexec fuel;
      b ← peek [c_pipe];
      if b : bool then
        gettoken;;
        r ← parsepipe fuel;
        mret (pipecmd c r)
      else mret c
  end
with parseexec (fuel : nat) : M nat (cmd word_ptr) :=
  match fuel with
  | O => spin
  | S fuel =>
      b ← peek [c_lpar];
      if b : bool then parseblock fuel else
      ret ← parseredirs execcmd (S es);
      parseargs ret 0 (S es)
  end
with parseblock (fuel : nat) : M nat (cmd word_ptr) :=
  match fuel with
  | O => spin
  | S fuel =>
      b ← peek [c_lpar];
      if negb b then panic "parseblock" else
      gettoken;;
      c ← parseline fuel;
      b ← peek [c_rpar];
      if negb b then panic "syntax - missing )" else
      gettoken;;
      parseredirs c (S es)
  end.
End parser.

(** NUL-terminate all the counted strings. *)
Fixpoint nulterminate (c : cmd word_ptr) (buf : list Z) : list Z :=
  match c with
  | EXEC argv => foldl (λ buf w, <[w.2 := 0]> buf) buf argv
  | REDIR c file _ _ => <[file.2 := 0]> (nulterminate c buf)
  | PIPE l r | LIST l r => nulterminate r (nulterminate l buf)
  | BACK c => nulterminate c buf
  end.

(** The C string at the head of a buffer. *)
Fixpoint until0 (l : list Z) : list Z :=
  match l with
  | [] => []
  | c :: l => if c =? 0 then [] else c :: until0 l
  end.
Definition word_string (buf : list Z) (w : word_ptr) : list Z := until0 (drop w.1 buf).

(** Fuel that is enough for a line of [n] bytes. *)
Definition parse_fuel (n : nat) : nat := 4 * n + 4.

(** ** Running commands *)

Section shell.
Context {W : Type} `{Sys W}.

Definition sh_panic {A} (s : string) : M W A :=
  uprintf 2 (str "%s" ++ newline) [AStr (Some (str s))];;
  uexit.

Definition fork1 : M W Z :=
  pid ← u_fork;
  if pid =? -1 then sh_panic "fork" else mret pid.

Definition parsecmd (buf : list Z) : M W (cmd (list Z)) :=
  let es := length (until0 buf) in
  match (c ← parseline buf es (parse_fuel es); peek buf es [];; mret c) O with
  | Ok c s =>
      if negb (Nat.eqb s es) then
        uprintf 2 (str "leftovers: %s" ++ newline) [AStr (Some (until0 (drop s buf)))];;
        sh_panic "syntax"
      else mret (cmd_map (word_string (nulterminate c buf)) c)
  | Panic msg => sh_panic msg
  | Sleeps _ | Fault => fault
  | Spin => spin
  end.

(** Execute a command; never returns. *)
Fixpoint runcmd (c : cmd (list Z)) : M W unit :=
  match c with
  | EXEC argv =>
      match argv with
      | [] => uexit
      | a :: _ =>
          u_exec a argv;;
          uprintf 2 (str "exec %s failed" ++ newline) [AStr (Some a)];;
          uexit
      end
  | REDIR c file mode fd =>
      u_close fd;;
      r ← u_open file mode;
      if r <? 0 then
        uprintf 2 (str "open %s failed" ++ newline) [AStr (Some file)];;
        uexit
      else
      runcmd c;;
      uexit
  | LIST l r =>
      pid ← fork1;
      when (pid =? 0) (runcmd l);;
      u_wait;;
      runcmd r;;
      uexit
  | PIPE l r =>
      '(n, p0, p1) ← u_pipe;
      when (n <? 0) (sh_panic "pipe");;
      pid ← fork1;
      when (pid =? 0) (
        u_close 1;;
        u_dup p1;;
        u_close p0;;
        u_close p1;;
        runcmd l);;
      pid ← fork1;
      when (pid =? 0) (
        u_close 0;;
        u_dup p0;;
        u_close p0;;
        u_close p1;;
        runcmd r);;
      u_close p0;;
      u_close p1;;
      u_wait;;
      u_wait;;
      uexit
  | BACK c =>
      pid ← fork1;
      when (pid =? 0) (runcmd c);;
      uexit
  end.

(** The buffer after [gets], or nothing at the end of the input. *)
Definition getcmd (nbuf : Z) : M W (option (list Z)) :=
  uprintf 2 (str "$ ") [];;
  l ← ugets nbuf;
  let buf := l ++ replicate (Z.to_nat nbuf - length l) 0 in
  c ← need (buf !! O);
  mret (if c =? 0 then None else Some buf).

Fixpoint sh_open (fuel : nat) : M W unit :=
  match fuel with
  | O => spin
  | S fuel =>
      fd ← u_open (str "console") O_RDWR;
      if fd <? 0 then mret tt else
      if 3 <=? fd then u_close fd;; mret tt else sh_open fuel
  end.

Definition is_cd (buf : list Z) : bool :=
  bool_decide (take 3 buf = str "cd ").

Fixpoint sh_loop (fuel : nat) : M W unit :=
  match fuel with
  | O => spin
  | S fuel =>
      ol ← getcmd 100;
      match ol with
      | None => mret tt
      | Some buf =>
          (if is_cd buf then
             let buf := <[(length (until0 buf) - 1)%nat := 0]> buf in
             let dir := until0 (drop 3 buf) in
             r ← u_chdir dir;
             when (r <? 0) (uprintf 2 (str "cannot cd %s" ++ newline) [AStr (Some dir)])
           else
             pid ← fork1;
             when (pid =? 0) (c ← parsecmd buf; runcmd c);;
             u_wait;;
             mret tt);;
          sh_loop fuel
      end
  end.
Definition sh_main (opens fuel : nat) : M W unit :=
  sh_open opens;;
  sh_loop fuel;;
  uexit.
End shell.

(** ** Sets of characters *)

Lemma in_set_loop set c : c ≠ 0 → Forall (λ x, x ≠ 0) set → ∀ pre,
  match strchr_loop (cells (pre ++ set ++ [0])) c (Z.of_nat (length pre)) (S (length set)) with Some (Some _) => true | _ => false end
  = bool_decide (c ∈ set).
Proof.
  intros Hc. induction set as [|x set IH]; intros Hs pre; cbn [strchr_loop length].
  - unfold cells. rewrite Nat2Z.id, app_nth2, Nat.sub_diag by lia. done.
  - apply Forall_cons in Hs as [Hx Hs]. unfold cells at 1 2. rewrite Nat2Z.id, app_nth2, Nat.sub_diag by lia. cbn [nth app].
    destruct (Z.eqb_spec x 0); [done|]. destruct (Z.eqb_spec x c) as [->|Hne].
    + symmetry. apply bool_decide_eq_true. by left.
    + specialize (IH Hs (pre ++ [x])). rewrite <-app_assoc, length_app, Nat2Z.inj_add in IH. cbn [app] in IH. etrans; [apply IH|].
      apply bool_decide_ext. rewrite elem_of_cons. naive_solver.
Qed.
Lemma in_set_spec set c : c ≠ 0 → Forall (λ x, x ≠ 0) set → in_set set c = bool_decide (c ∈ set).
Proof. intros Hc Hs. apply (in_set_loop set c Hc Hs []). Qed.
Lemma in_set_0 set : Forall (λ x, x ≠ 0) set → in_set set 0 = false.
Proof.
  intros Hs. unfold in_set, strchr. assert (Hl : ∀ pre, match strchr_loop (cells (pre ++ set ++ [0])) 0 (Z.of_nat (length pre)) (S (length set)) with
    Some (Some _) => true | _ => false end = false); [|apply (Hl [])].
  induction Hs as [|x set Hx Hs IH]; intros pre; cbn [strchr_loop length].
  - unfold cells. by rewrite Nat2Z.id, app_nth2, Nat.sub_diag by lia.
  - unfold cells at 1 2. rewrite Nat2Z.id, app_nth2, Nat.sub_diag by lia. cbn [nth app].
    destruct (Z.eqb_spec x 0); [done|]. specialize (IH (pre ++ [x])). rewrite <-app_assoc, length_app, Nat2Z.inj_add in IH. apply IH.
Qed.
Lemma in_whitespace c : in_set whitespace c = bool_decide (c ∈ whitespace).
Proof.
  destruct (decide (c = 0)) as [->|]; [done|]. apply in_set_spec; [done|]. apply (bool_decide_unpack _). vm_compute. exact I.
Qed.
Lemma in_symbols c : in_set symbols c = bool_decide (c ∈ symbols).
Proof.
  destruct (decide (c = 0)) as [->|]; [done|]. apply in_set_spec; [done|]. apply (bool_decide_unpack _). vm_compute. exact I.
Qed.

(** ** The parser is total and typed *)

Section typing.
Context (text junk : list Z) (Hz : 0 ∉ text).
Local Abbreviation buf := (text ++ 0 :: junk).
Local Abbreviation es := (length text).

Lemma buf_lookup s : (s < es)%nat → ∃ c, buf !! s = Some c ∧ c ≠ 0.
Proof.
  intros Hs. destruct (lookup_lt_is_Some_2 text s Hs) as [c Hc]. exists c. split; [by apply lookup_app_l_Some|].
  intros ->. apply Hz. by eapply list_elem_of_lookup_2.
Qed.
Lemma buf_es : buf !! es = Some 0.
Proof. by rewrite lookup_app_r, Nat.sub_diag. Qed.

Lemma skip_spec p s n : (s + n = es)%nat → ∃ s', skip buf p s n = Some s' ∧ (s ≤ s' ≤ es)%nat ∧
  (∀ i, (s ≤ i < s')%nat → ∃ c, buf !! i = Some c ∧ c ≠ 0 ∧ p c = true) ∧
  ((s' < es)%nat → ∃ c, buf !! s' = Some c ∧ c ≠ 0 ∧ p c = false).
Proof.
  revert s. induction n as [|n IH]; intros s Hs; cbn [skip].
  - exists s. split_and!; [done|lia|lia|intros; lia|intros; lia].
  - destruct (buf_lookup s) as (c & Hl & Hc); [lia|]. rewrite Hl. destruct (p c) eqn:Hp; [|exists s; split_and!; try done; [lia|lia|naive_solver]].
    destruct (IH (S s)) as (s' & -> & Hr & Hin & Hend); [lia|]. exists s'. split_and!; try done; [lia|lia|].
    intros i Hi. destruct (decide (i = s)) as [->|]; [naive_solver|apply Hin; lia].
Qed.

(** What [gettoken] promises of a word: it lies in the line, consists of
    ordinary characters, and is followed by a character that is not one. *)
Definition word_at (w : word_ptr) : Prop :=
  (w.1 < w.2 ≤ es)%nat ∧
  (∀ i, (w.1 ≤ i < w.2)%nat → ∃ c, buf !! i = Some c ∧ c ≠ 0 ∧ ordinary c = true) ∧
  (∃ c, buf !! w.2 = Some c ∧ (c = 0 ∨ ordinary c = false)).

(** [wp] for the lexer, which changes nothing but the position. *)
Lemma skip_wp {A} p s (f : nat → M nat A) E Q t : (s ≤ es)%nat →
  (∀ s', (s ≤ s' ≤ es)%nat → (∀ i, (s ≤ i < s')%nat → ∃ c, buf !! i = Some c ∧ c ≠ 0 ∧ p c = true) →
    ((s' < es)%nat → ∃ c, buf !! s' = Some c ∧ c ≠ 0 ∧ p c = false) → wp (f s') E Q t) →
  wp (s' ← need (skip buf p s (es - s)); f s') E Q t.
Proof.
  intros Hs Hf. destruct (skip_spec p s (es - s)) as (s' & Hk & Hr & Hin & Hend); [lia|].
  apply wp_bind. eapply wp_need; [done|]. by apply Hf.
Qed.
Lemma char_at s : (s ≤ es)%nat → ∃ c, buf !! s = Some c ∧ (s = es ∧ c = 0 ∨ (s < es)%nat ∧ c ≠ 0).
Proof.
  intros Hs. destruct (decide (s = es)) as [->|]; [exists 0; rewrite buf_es; auto|].
  destruct (buf_lookup s) as (c & Hc & ?); [lia|]. exists c. split; [done|]. right. split; [lia|done].
Qed.

Lemma wp_put E (Q : unit → nat → Prop) s s' : Q tt s' → wp (put_ps s') E Q s.
Proof. done. Qed.
Lemma peek_wp toks s : (s ≤ es)%nat → wp (peek buf es toks) (λ _, False)
  (λ b s', (s ≤ s' ≤ es)%nat ∧ (b = true → (s' < es)%nat)) s.
Proof.
  intros Hs. unfold peek. apply wp_bind, wp_get, skip_wp; [done|]. intros s' Hr _ _.
  apply wp_bind, wp_put. destruct (char_at s') as (c & Hl & Hc); [lia|]. apply wp_bind. eapply wp_need; [done|].
  apply wp_ret. split; [lia|].
  intros Hb. apply andb_true_iff in Hb as [Hb%negb_true_iff%Z.eqb_neq _]. naive_solver.
Qed.

Lemma gettoken_wp s : (s ≤ es)%nat → wp (gettoken buf es) (λ _, False)
  (λ r s', (s ≤ s' ≤ es)%nat ∧ ((s < es)%nat → (s < s')%nat) ∧ (r.1.1 = c_a → word_at (r.1.2, r.2) ∧ (s < s')%nat)) s.
Proof.
  intros Hs. unfold gettoken. apply wp_bind, wp_get, skip_wp; [done|]. intros q Hq _ Hend. cbv zeta.
  destruct (char_at q) as (c & Hl & Hc); [lia|]. apply wp_bind. eapply wp_need; [done|]. apply wp_bind.
  apply (wp_post _ _ (λ r s', s' = s ∧ (q ≤ r.2 ≤ es)%nat ∧ ((q < es)%nat → (q < r.2)%nat) ∧ (r.1 = c_a → word_at (q, r.2)))).
  2:{ intros [ret s1] s2 (-> & Hr & Hp & Ha). apply skip_wp; [cbn in *; lia|]. intros s' Hr' Hin' _. apply wp_bind, wp_put, wp_ret.
      cbn in *. split_and!; [lia|lia| |intros H1; specialize (Ha H1) as Hw; split; [done|destruct Hw as [Hw _]; cbn in Hw; lia]].
      intros Hlt. destruct (decide (q = es)); lia. }
  destruct (Z.eqb_spec c 0) as [->|Hc0]; [apply wp_ret; cbn; split_and!; [done|lia|lia|destruct Hc as [[-> _]|[_ ?]]; [lia|done]|done]|].
  assert (Hlt : (q < es)%nat) by (destruct Hc as [[_ ->]|[? _]]; done).
  destruct (_ || _) eqn:Hsym; [apply wp_ret; cbn; split_and!; [done|lia|lia|lia|]; intros ->; done|].
  destruct (Z.eqb_spec c c_gt) as [->|Hgt].
  - destruct (char_at (S q)) as (d & Hd & Hdz); [lia|]. apply wp_bind. eapply wp_need; [done|].
    destruct (Z.eqb_spec d c_gt) as [->|]; apply wp_ret; cbn; split_and!; try done; try lia.
  - apply skip_wp; [lia|]. intros s' Hs' Hin Hout. apply wp_ret. cbn.
    assert (Hord : ordinary c = true).
    { destruct (Hend Hlt) as (c' & Hl' & _ & Hw). rewrite Hl in Hl'. injection Hl' as <-. unfold ordinary. rewrite Hw, in_symbols.
      rewrite bool_decide_eq_false_2; [done|]. rewrite !orb_false_iff, !Z.eqb_neq in Hsym.
      destruct Hsym as [[[[[? ?] ?] ?] ?] ?]. unfold symbols. rewrite !not_elem_of_cons. split_and!; try done. apply not_elem_of_nil. }
    assert (Hqs : (q < s')%nat).
    { destruct (decide (q = s')) as [<-|]; [|lia]. destruct (Hout Hlt) as (c' & Hl' & _ & Hw). congruence. }
    split_and!; [done|lia|lia|done|]. intros _. split_and!; [cbn; lia..|done|]. cbn.
    destruct (char_at s') as (d & Hd & Hdz); [lia|]. exists d. split; [done|]. destruct Hdz as [[_ ->]|[Hds _]]; [by left|right].
    destruct (Hout Hds) as (c' & Hl' & _ & Hw). congruence.
Qed.

(** ** Well-formed commands *)

Definition redir_ok (mode fd : Z) : Prop :=
  mode = O_RDONLY ∧ fd = 0 ∨ mode = Z.lor O_WRONLY O_CREATE ∧ fd = 1.
Fixpoint cmd_typed {T} (P : T → Prop) (c : cmd T) : Prop :=
  match c with
  | EXEC argv => Z.of_nat (length argv) < MAXARGS ∧ Forall P argv
  | REDIR c file mode fd => cmd_typed P c ∧ P file ∧ redir_ok mode fd
  | PIPE l r | LIST l r => cmd_typed P l ∧ cmd_typed P r
  | BACK c => cmd_typed P c
  end.
(** Redirections around an [execcmd] of [n] words. *)
Fixpoint exec_chain {T} (n : Z) (c : cmd T) : Prop :=
  match c with
  | EXEC argv => Z.of_nat (length argv) = n
  | REDIR c _ _ _ => exec_chain n c
  | _ => False
  end.
Lemma add_arg_typed w n c : exec_chain n c → cmd_typed word_at c → word_at w → n + 1 < MAXARGS →
  exec_chain (n + 1) (add_arg w c) ∧ cmd_typed word_at (add_arg w c).
Proof.
  intros Hn Hc Hw Hlt. induction c as [argv|c IH f m fd| | |]; cbn in *; try done; [|naive_solver].
  rewrite length_app. cbn. split; [lia|]. split; [lia|]. apply Forall_app. naive_solver.
Qed.

(** A parsing function returns a command with [I] at a later position, or
    complains. *)
Definition parses (I : cmd word_ptr → Prop) (m : M nat (cmd word_ptr)) (s : nat) : Prop :=
  wp m (λ _, True) (λ c s', I c ∧ (s ≤ s' ≤ es)%nat) s.
Lemma lexer_bind {A B} (m : M nat A) (f : A → M nat B) (P : A → nat → Prop) E Q s :
  wp m (λ _, False) P s → (∀ a s', P a s' → wp (f a) E Q s') → wp (a ← m; f a) E Q s.
Proof. intros Hm Hf. apply wp_bind. eapply wp_mono; [done|done|]. done. Qed.

Lemma parseredirs_wp (I : cmd word_ptr → Prop) fuel c s :
  (∀ c w mode fd, I c → word_at w → redir_ok mode fd → I (REDIR c w mode fd)) →
  I c → (s ≤ es)%nat → (es - s ≤ fuel)%nat → parses I (parseredirs buf es c fuel) s.
Proof.
  intros HI. revert c s. induction fuel as [|fuel IH]; intros c s Hc Hs Hf; cbn [parseredirs];
    (eapply lexer_bind; [by apply peek_wp|]); intros [] s1 [H1 Hb]; cbn [negb]; try specialize (Hb eq_refl);
    try lia; try (apply wp_ret; split; [done|lia]).
  eapply lexer_bind; [apply gettoken_wp; lia|]. intros [[tok q0] eq0] s2 (H2 & Hp & _).
  eapply lexer_bind; [apply gettoken_wp; lia|]. intros [[t q] eq] s3 (H3 & _ & Ha). cbn in Ha.
  destruct (Z.eqb_spec t c_a) as [->|]; [|by apply wp_panic]. cbn [negb]. destruct (Ha eq_refl) as [Hw _]. specialize (Hp Hb).
  eapply wp_post; [apply IH|cbn; intros ?? [??]; split; [done|lia]]; [|lia|lia].
  repeat case_match; try done; apply HI; try done; unfold redir_ok; auto.
Qed.

Lemma parseargs_wp fuel ret argc s : exec_chain argc ret → cmd_typed word_at ret → (s ≤ es)%nat → (es - s < fuel)%nat →
  parses (cmd_typed word_at) (parseargs buf es ret argc fuel) s.
Proof.
  revert ret argc s. induction fuel as [|fuel IH]; intros ret argc s Hn Hc Hs Hf; [lia|]. cbn [parseargs].
  eapply lexer_bind; [by apply peek_wp|]. intros [] s1 [H1 _]; [apply wp_ret; split; [done|lia]|].
  eapply lexer_bind; [apply gettoken_wp; lia|]. intros [[tok q] eq] s2 (H2 & _ & Ha). cbn in Ha.
  destruct (tok =? 0); [apply wp_ret; split; [done|lia]|].
  destruct (Z.eqb_spec tok c_a) as [->|]; [|by apply wp_panic]. cbn [negb]. destruct (Ha eq_refl) as [Hw Hp].
  destruct (Z.leb_spec MAXARGS (argc + 1)); [by apply wp_panic|].
  destruct (add_arg_typed (q, eq) argc ret) as [Hn' Hc']; [done..|]. apply wp_bind.
  eapply wp_post; [apply (parseredirs_wp (λ c, exec_chain (argc + 1) c ∧ cmd_typed word_at c)); cbn; [naive_solver|done|lia|lia]|].
  intros c' s3 [[Hn3 Hc3] H3]. eapply wp_post; [apply IH; [done|done|lia|lia]|]. intros ?? [??]. split; [done|lia].
Qed.
Lemma parseback_wp fuel c s : cmd_typed word_at c → (s ≤ es)%nat → (es - s ≤ fuel)%nat →
  parses (cmd_typed word_at) (parseback buf es c fuel) s.
Proof.
  revert c s. induction fuel as [|fuel IH]; intros c s Hc Hs Hf; cbn [parseback];
    (eapply lexer_bind; [by apply peek_wp|]); intros [] s1 [H1 Hb]; cbn [negb]; try specialize (Hb eq_refl);
    try lia; try (apply wp_ret; split; [done|lia]).
  eapply lexer_bind; [apply gettoken_wp; lia|]. intros [[tok q0] eq0] s2 (H2 & Hp & _). specialize (Hp Hb).
  eapply wp_post; [apply IH; [done|lia|lia]|]. intros ?? [??]. split; [done|lia].
Qed.

Lemma parses_bind I (m : M nat (cmd word_ptr)) (f : cmd word_ptr → M nat (cmd word_ptr)) J s :
  parses I m s → (∀ c s', I c → (s ≤ s' ≤ es)%nat → parses J (f c) s') → parses J (c ← m; f c) s.
Proof.
  intros Hm Hf. apply wp_bind. eapply wp_post; [done|]. intros c s' [Hc Hs']. eapply wp_post; [by apply Hf|].
  intros ?? [??]. split; [done|lia].
Qed.
Lemma parses_peek toks (f : bool → M nat (cmd word_ptr)) J s : (s ≤ es)%nat →
  (∀ b s', (s ≤ s' ≤ es)%nat → (b = true → (s' < es)%nat) → parses J (f b) s') → parses J (b ← peek buf es toks; f b) s.
Proof.
  intros Hs Hf. eapply lexer_bind; [by apply peek_wp|]. intros b s' [H1 Hb]. eapply wp_post; [by apply Hf|].
  intros ?? [??]. split; [done|lia].
Qed.
Lemma parses_gettoken m J s : (s < es)%nat →
  (∀ s', (s < s' ≤ es)%nat → parses J m s') → parses J (gettoken buf es;; m) s.
Proof.
  intros Hs Hf. eapply lexer_bind; [apply gettoken_wp; lia|]. intros b s' (H1 & H2 & _). eapply wp_post; [apply Hf; lia|].
  intros ?? [??]. split; [done|lia].
Qed.
Lemma parses_ret I (c : cmd word_ptr) s : I c → (s ≤ es)%nat → parses I (mret c) s.
Proof. intros. apply wp_ret. split; [done|lia]. Qed.

Lemma parse_wp fuel : ∀ s, (s ≤ es)%nat →
  ((4 * (es - s) + 4 ≤ fuel)%nat → parses (cmd_typed word_at) (parseline buf es fuel) s) ∧
  ((4 * (es - s) + 3 ≤ fuel)%nat → parses (cmd_typed word_at) (parsepipe buf es fuel) s) ∧
  ((4 * (es - s) + 2 ≤ fuel)%nat → parses (cmd_typed word_at) (parseexec buf es fuel) s) ∧
  ((4 * (es - s) + 1 ≤ fuel)%nat → parses (cmd_typed word_at) (parseblock buf es fuel) s).
Proof.
  induction fuel as [|fuel IH]; intros s Hs; [split_and!; lia|]. split_and!; intros Hf.
  - cbn [parseline]. eapply parses_bind; [apply IH; lia|]. intros c s1 Hc H1.
    eapply parses_bind; [apply parseback_wp; [done|lia|lia]|]. intros c' s2 Hc' H2.
    apply parses_peek; [lia|]. intros [] s3 H3 Hb; [|apply parses_ret; [done|lia]].
    apply parses_gettoken; [auto|]. intros s4 H4. eapply parses_bind; [apply IH; lia|]. intros r s5 Hr H5.
    by apply parses_ret; [|lia].
  - cbn [parsepipe]. eapply parses_bind; [apply IH; lia|]. intros c s1 Hc H1.
    apply parses_peek; [lia|]. intros [] s3 H3 Hb; [|apply parses_ret; [done|lia]].
    apply parses_gettoken; [auto|]. intros s4 H4. eapply parses_bind; [apply IH; lia|]. intros r s5 Hr H5.
    by apply parses_ret; [|lia].
  - cbn [parseexec]. apply parses_peek; [lia|]. intros [] s1 H1 Hb; [apply IH; lia|].
    eapply parses_bind; [apply (parseredirs_wp (λ c, exec_chain 0 c ∧ cmd_typed word_at c)); cbn; [naive_solver|split; [done|by split]|lia|lia]|].
    intros c s2 [Hc Ht] H2. apply parseargs_wp; [done|done|lia|lia].
  - cbn [parseblock]. apply parses_peek; [lia|]. intros [] s1 H1 Hb; [|by apply wp_panic]. cbn [negb].
    apply parses_gettoken; [auto|]. intros s2 H2. eapply parses_bind; [apply IH; lia|]. intros c s3 Hc H3.
    apply parses_peek; [lia|]. intros [] s4 H4 Hb4; [|by apply wp_panic]. cbn [negb].
    apply parses_gettoken; [auto|]. intros s5 H5. apply parseredirs_wp; [naive_solver|done|lia|lia].
Qed.

(** ** The words become strings *)

Lemma cmd_typed_map {A B} (P : A → Prop) (Q : B → Prop) f (c : cmd A) : cmd_typed P c → (∀ w, P w → Q (f w)) → cmd_typed Q (cmd_map f c).
Proof.
  intros Hc HPQ. induction c as [argv|c IH f' m fd|l IHl r IHr|l IHl r IHr|c IH]; cbn in *; try naive_solver.
  rewrite length_fmap. destruct Hc as [? Hc]. split; [done|]. apply Forall_fmap. eapply Forall_impl; [done|]. auto.
Qed.
Lemma cmd_map_ext {A B} (P : A → Prop) (f g : A → B) (c : cmd A) : cmd_typed P c → (∀ w, P w → f w = g w) → cmd_map f c = cmd_map g c.
Proof.
  intros Hc HPQ. induction c as [argv|c IH f' m fd|l IHl r IHr|l IHl r IHr|c IH]; cbn in *; f_equal; try naive_solver.
  apply list_fmap_ext. intros i x Hx. apply HPQ. destruct Hc as [_ Hc]. eapply Forall_lookup_1; [apply Hc|done].
Qed.
Lemma cmd_typed_mono {A} (P Q : A → Prop) (c : cmd A) : cmd_typed P c → (∀ w, P w → Q w) → cmd_typed Q c.
Proof.
  intros Hc HPQ. induction c as [argv|c IH f' m fd|l IHl r IHr|l IHl r IHr|c IH]; cbn in *; try naive_solver.
  destruct Hc as [? Hc]. split; [done|]. eapply Forall_impl; [done|]. auto.
Qed.

(** The buffer after some of the words are terminated: the characters of all
    words are as they were, and the NULs of [done] are there. *)
Definition cut (b : list Z) : Prop :=
  length b = length buf ∧ ∀ i c, buf !! i = Some c → c ≠ 0 → ordinary c = true → b !! i = Some c.
Definition ended (b : list Z) (w : word_ptr) : Prop := word_at w ∧ b !! w.2 = Some 0.
Definition keeps_nul (b b' : list Z) : Prop := ∀ i, b !! i = Some 0 → b' !! i = Some 0.

Lemma cut_insert b w : cut b → word_at w → cut (<[w.2 := 0]> b) ∧ keeps_nul b (<[w.2 := 0]> b) ∧ ended (<[w.2 := 0]> b) w.
Proof.
  intros [Hl Hb] Hw. pose proof Hw as (Hr & _ & c & Hc & Ho).
  assert (Hlt : (w.2 < length b)%nat) by (rewrite Hl; by eapply lookup_lt_Some). split_and!.
  - split; [by rewrite length_insert|]. intros i d Hd Hnz Hord. rewrite list_lookup_insert_ne; [by apply Hb|]. intros <-. 
    rewrite Hc in Hd. injection Hd as <-. destruct Ho; congruence.
  - intros i Hi. destruct (decide (w.2 = i)) as [<-|]; [by rewrite list_lookup_insert_eq|by rewrite list_lookup_insert_ne].
  - split; [done|by rewrite list_lookup_insert_eq].
Qed.
Lemma ended_keeps b b' w : ended b w → keeps_nul b b' → ended b' w.
Proof. intros [? ?] Hk. split; [done|by apply Hk]. Qed.
#[local] Hint Resolve ended_keeps : core.

Lemma nulterminate_exec argv b : cut b → Forall word_at argv →
  let b' := foldl (λ buf w, <[w.2 := 0]> buf) b argv in cut b' ∧ keeps_nul b b' ∧ Forall (ended b') argv.
Proof.
  intros Hb Hw. revert b Hb. induction Hw as [|w argv Hw _ IH]; intros b Hb; cbn; [split; [done|split; [by intros ?|constructor]]|].
  destruct (cut_insert b w Hb Hw) as (Hc1 & Hk1 & He1). destruct (IH _ Hc1) as (Hc2 & Hk2 & He2).
  split_and!; [done|intros i Hi; auto|]. constructor; [eauto|done].
Qed.
Lemma nulterminate_inv c : ∀ b, cut b → cmd_typed word_at c →
  cut (nulterminate c b) ∧ keeps_nul b (nulterminate c b) ∧ cmd_typed (ended (nulterminate c b)) c.
Proof.
  assert (Htwo : ∀ l r, (∀ b, cut b → cmd_typed word_at l → cut (nulterminate l b) ∧ keeps_nul b (nulterminate l b) ∧ cmd_typed (ended (nulterminate l b)) l) →
    (∀ b, cut b → cmd_typed word_at r → cut (nulterminate r b) ∧ keeps_nul b (nulterminate r b) ∧ cmd_typed (ended (nulterminate r b)) r) →
    ∀ b, cut b → cmd_typed word_at l ∧ cmd_typed word_at r → let b' := nulterminate r (nulterminate l b) in
      cut b' ∧ keeps_nul b b' ∧ cmd_typed (ended b') l ∧ cmd_typed (ended b') r).
  { intros l r IHl IHr b Hb [Hl Hr]. destruct (IHl b Hb Hl) as (Hc1 & Hk1 & He1). destruct (IHr _ Hc1 Hr) as (Hc2 & Hk2 & He2).
    split_and!; [done|intros i Hi; auto| |done]. eapply cmd_typed_mono; eauto. }
  induction c as [argv|c IH f m fd|l IHl r IHr|l IHl r IHr|c IH]; intros b Hb Hc; [| |by apply Htwo|by apply Htwo|by apply IH].
  - destruct Hc as [Hn Hw]. destruct (nulterminate_exec argv b Hb Hw) as (? & ? & ?). by split_and!.
  - destruct Hc as (Hc & Hf & Hm). destruct (IH b Hb Hc) as (Hc1 & Hk1 & He1). destruct (cut_insert _ f Hc1 Hf) as (Hc2 & Hk2 & He2).
    split_and!; [done|intros i Hi; auto|]. split_and!; [|done|done]. eapply cmd_typed_mono; eauto.
Qed.

Lemma until0_at l n : (∀ i, (i < n)%nat → ∃ c, l !! i = Some c ∧ c ≠ 0) → l !! n = Some 0 → until0 l = take n l.
Proof.
  revert n. induction l as [|c l IH]; intros n Hin Hn; [done|]. destruct n as [|n]; cbn in *; [by injection Hn as ->|].
  destruct (Hin 0%nat ltac:(lia)) as (? & [= <-] & Hc). apply Z.eqb_neq in Hc as ->. f_equal. apply IH; [|done].
  intros i Hi. apply (Hin (S i)). lia.
Qed.
Definition word_text (w : word_ptr) : list Z := take (w.2 - w.1) (drop w.1 text).
Lemma word_string_cut b w : cut b → ended b w → word_string b w = word_text w.
Proof.
  intros [Hl Hb] [(Hr & Hin & _) Hnul]. unfold word_string.
  rewrite (until0_at _ (w.2 - w.1)).
  - apply list_eq. intros i. destruct (decide (i < w.2 - w.1)%nat); [|unfold word_text; by rewrite !lookup_take_ge by lia].
    unfold word_text. rewrite !lookup_take, !lookup_drop by lia. rewrite !decide_True by lia.
    destruct (Hin (w.1 + i)%nat ltac:(lia)) as (c & Hc & ? & ?).
    rewrite (Hb _ _ Hc) by done. by rewrite lookup_app_l in Hc by lia.
  - intros i Hi. destruct (Hin (w.1 + i)%nat ltac:(lia)) as (c & Hc & ? & ?). rewrite lookup_drop. eauto.
  - rewrite lookup_drop. by replace (w.1 + (w.2 - w.1))%nat with w.2 by lia.
Qed.

Definition is_word (w : list Z) : Prop := w ≠ [] ∧ Forall (λ c, c ≠ 0 ∧ ordinary c = true) w.
Lemma word_at_text w : word_at w → is_word (word_text w).
Proof.
  intros (Hr & Hin & _). split.
  - intros Hnil%(f_equal length). unfold word_text in Hnil. rewrite length_take, length_drop in Hnil. cbn in Hnil. lia.
  - apply Forall_lookup. intros i c [Hc Hi]%lookup_take_Some. rewrite lookup_drop in Hc.
    destruct (Hin (w.1 + i)%nat ltac:(lia)) as (d & Hd & ? & ?). by rewrite lookup_app_l, Hc in Hd by lia; injection Hd as ->.
Qed.
Lemma nulterminate_strings c : cmd_typed word_at c →
  cmd_map (word_string (nulterminate c buf)) c = cmd_map word_text c ∧ cmd_typed is_word (cmd_map word_text c).
Proof.
  intros Hc. destruct (nulterminate_inv c buf) as (Hcut & _ & He); [by split|done|]. split.
  - eapply cmd_map_ext; [done|]. intros w Hw. by apply word_string_cut.
  - eapply cmd_typed_map; [apply Hc|]. apply word_at_text.
Qed.
Lemma until0_text : until0 buf = text.
Proof.
  rewrite (until0_at _ es); [by rewrite take_app_length|apply buf_lookup|apply buf_es].
Qed.
End typing.

(** *** The result of [parsecmd] *)

Lemma parse_result text junk : 0 ∉ text → let buf := text ++ 0 :: junk in let es := length text in
  wp (c ← parseline buf es (parse_fuel es); peek buf es [];; mret c) (λ _, True)
    (λ c s, cmd_typed (word_at text junk) c ∧ (s ≤ es)%nat) O.
Proof.
  intros Hz buf es. apply wp_bind. eapply wp_post; [apply parse_wp; [done|lia|unfold parse_fuel; lia]|].
  intros c s [Hc Hs]. eapply lexer_bind; [apply peek_wp; [done|lia]|]. intros b s' [H1 _]. apply wp_ret. split; [done|]. unfold es. lia.
Qed.

(** ** Printing commands *)

Inductive token := Word (w : list Z) | Sym (c : Z).
Definition token_text (t : token) : list Z := match t with Word w => w ++ [32] | Sym c => [c; 32] end.
Definition render (ts : list token) : list Z := concat (token_text <$> ts).

(** What may appear without parentheses: a simple command with redirections,
    also a pipeline, also commands in the background, also a list. *)
Definition L_exec : nat := 0.
Definition L_pipe : nat := 1.
Definition L_back : nat := 2.
Definition L_line : nat := 3.
Definition parens (b : bool) (ts : list token) : list token := if b then Sym c_lpar :: ts ++ [Sym c_rpar] else ts.
Definition redir_sym (fd : Z) : token := Sym (if fd =? 0 then c_lt else c_gt).
Fixpoint tokens (lv : nat) (c : cmd (list Z)) : list token :=
  match c with
  | EXEC argv => Word <$> argv
  | REDIR c file _ fd => tokens L_exec c ++ [redir_sym fd; Word file]
  | PIPE l r => parens (lv <? L_pipe)%nat (tokens L_exec l ++ Sym c_pipe :: tokens L_pipe r)
  | BACK c => parens (lv <? L_back)%nat (tokens L_back c ++ [Sym c_amp])
  | LIST l r => parens (lv <? L_line)%nat (tokens L_back l ++ Sym c_semi :: tokens L_line r)
  end.
Definition print_cmd (c : cmd (list Z)) : list Z := render (tokens L_line c).

Definition token_ok (t : token) : Prop := match t with Word w => is_word w | Sym c => c ∈ symbols end.

Lemma render_cons t ts : render (t :: ts) = token_text t ++ render ts.
Proof. done. Qed.
Lemma render_app a b : render (a ++ b) = render a ++ render b.
Proof. unfold render. by rewrite fmap_app, concat_app. Qed.
Lemma length_render ts : (length ts ≤ length (render ts))%nat.
Proof.
  induction ts as [|t ts IH]; [done|]. rewrite render_cons, length_app. cbn [length].
  destruct t; cbn [token_text]; rewrite ?length_app; cbn; lia.
Qed.

(** The first character of a rendered text. *)
Definition blank (l : list Z) : bool := match l with c :: _ => in_set whitespace c | [] => false end.
Lemma symbol_not_blank c : c ∈ symbols → in_set whitespace c = false ∧ c ≠ 0.
Proof.
  intros Hc. assert (Hall : Forall (λ c, in_set whitespace c = false ∧ c ≠ 0) symbols); [|by eapply Forall_forall in Hall].
  apply (bool_decide_unpack _). vm_compute. exact I.
Qed.
Lemma word_head w : is_word w → ∃ c w', w = c :: w' ∧ c ≠ 0 ∧ in_set whitespace c = false ∧ c ∉ symbols.
Proof.
  intros [Hne Hw]. destruct w as [|c w]; [done|]. apply Forall_cons in Hw as [[Hz Ho] _]. exists c, w.
  apply andb_true_iff in Ho as [Ho1%negb_true_iff Ho2%negb_true_iff]. rewrite in_symbols in Ho2. apply bool_decide_eq_false in Ho2. done.
Qed.
Lemma render_blank ts : Forall token_ok ts → blank (render ts) = false.
Proof.
  destruct 1 as [|[w|c] ts Ht _]; [done| |]; rewrite render_cons; cbn in *.
  - by destruct (word_head w Ht) as (c & w' & -> & _ & ? & _).
  - by apply symbol_not_blank.
Qed.

(** Whether the next token is one of the symbols [toks]. *)
Definition starts (toks : list Z) (ts : list token) : bool :=
  match ts with Sym c :: _ => bool_decide (c ∈ toks) | _ => false end.

(** Membership of a character in a fixed set, by evaluation. *)
Ltac chars := apply (bool_decide_unpack _); vm_compute; exact I.

Section printing.
Context (text junk : list Z) (Hz : 0 ∉ text).
Local Abbreviation buf := (text ++ 0 :: junk).
Local Abbreviation es := (length text).

Definition at_ (s : nat) (t : list Z) : Prop := (s ≤ es)%nat ∧ drop s text = t.
Lemma at_length s t : at_ s t → (s ≤ es ∧ es - s = length t)%nat.
Proof. intros [Hs <-]. by rewrite length_drop. Qed.
Lemma at_app s a t : at_ s (a ++ t) → at_ (s + length a) t.
Proof.
  intros Ha. pose proof (at_length _ _ Ha) as [Hs Hl]. rewrite length_app in Hl. destruct Ha as [_ Ha]. split; [lia|].
  by rewrite <-drop_drop, Ha, drop_app_length.
Qed.
Lemma at_head s c t : at_ s (c :: t) → buf !! s = Some c.
Proof.
  intros Ha. pose proof (at_length _ _ Ha) as [Hs Hl]. cbn in Hl. destruct Ha as [_ Ha]. rewrite lookup_app_l by lia.
  rewrite <-(Nat.add_0_r s), <-lookup_drop, Ha. done.
Qed.
Lemma at_end s : at_ s [] → s = es.
Proof. intros [Hs Hl]%at_length. cbn in Hl. lia. Qed.

Lemma skip_run p a : ∀ s t, at_ s (a ++ t) → Forall (λ c, p c = true) a → match t with c :: _ => p c = false | [] => True end →
  skip buf p s (es - s) = Some (s + length a)%nat.
Proof.
  induction a as [|c a IH]; intros s t Ha Hp Ht.
  - cbn [length app] in *. rewrite Nat.add_0_r. destruct t as [|c t].
    + apply at_end in Ha as ->. by rewrite Nat.sub_diag.
    + pose proof (at_head _ _ _ Ha) as Hc. apply at_length in Ha as [Hs Hl]. rewrite Hl. cbn. by rewrite Hc, Ht.
  - apply Forall_cons in Hp as [Hc Hp]. pose proof (at_head _ _ _ Ha) as Hh. pose proof (at_length _ _ Ha) as [Hs Hl].
    cbn [app length] in *. specialize (IH (S s) t). replace (es - s)%nat with (S (es - S s)) by lia. cbn [skip]. rewrite Hh, Hc.
    rewrite IH; [f_equal; lia| |done|done]. apply (at_app s [c]) in Ha. by rewrite Nat.add_comm in Ha.
Qed.
Lemma skip_blank s t : at_ s t → blank t = false → skip buf (in_set whitespace) s (es - s) = Some s.
Proof. intros Ha Hb. rewrite (skip_run _ [] s t); [by rewrite Nat.add_0_r|done|done|by destruct t]. Qed.
Lemma skip_space s t : at_ s (32 :: t) → blank t = false → skip buf (in_set whitespace) s (es - s) = Some (S s).
Proof. intros Ha Hb. rewrite (skip_run _ [32] s t); [f_equal; cbn; lia|done|by repeat constructor|by destruct t]. Qed.

Lemma peek_run toks s ts : at_ s (render ts) → Forall token_ok ts → toks ⊆ symbols → peek buf es toks s = Ok (starts toks ts) s.
Proof.
  intros Ha Hts Htoks. unfold peek. erewrite bind_run by done. erewrite bind_run.
  2:{ erewrite skip_blank; [done|done|by apply render_blank]. }
  erewrite bind_run by done. destruct Hts as [|t ts Ht Hts].
  { apply at_end in Ha as ->. by rewrite buf_es. }
  assert (Hset : ∀ c, c ≠ 0 → in_set toks c = bool_decide (c ∈ toks)).
  { intros c Hc. apply in_set_spec; [done|]. apply Forall_forall. intros x Hx. by apply symbol_not_blank, Htoks. }
  rewrite render_cons in Ha. destruct t as [w|c]; cbn in Ht.
  - destruct (word_head w Ht) as (c & w' & -> & Hc & _ & Hsym). erewrite bind_run by by rewrite (at_head _ _ _ Ha). rewrite Hset by done.
    apply Z.eqb_neq in Hc as ->. rewrite bool_decide_eq_false_2; [done|]. intros ?. by apply Hsym, Htoks.
  - destruct (symbol_not_blank c Ht) as [_ Hc]. erewrite bind_run by by rewrite (at_head _ _ _ Ha). rewrite Hset by done. by apply Z.eqb_neq in Hc as ->.
Qed.

(** *** Tokens read one by one *)

Lemma next_peek {A} toks s ts (f : bool → M nat A) E Q : at_ s (render ts) → Forall token_ok ts → toks ⊆ symbols →
  wp (f (starts toks ts)) E Q s → wp (b ← peek buf es toks; f b) E Q s.
Proof. intros ??? Hf. apply wp_bind. eapply wp_run; [by apply peek_run|done]. Qed.

Lemma gettoken_word s w t : at_ s (w ++ 32 :: t) → is_word w → blank t = false →
  gettoken buf es s = Ok (c_a, s, (s + length w)%nat) (S (s + length w)).
Proof.
  intros Ha Hw Hb. destruct (word_head w Hw) as (c & w' & Hcw & Hc & Hcb & Hsym).
  unfold gettoken. erewrite bind_run by done. erewrite bind_run; [|erewrite skip_blank; [done|done|by subst w]].
  pose proof Ha as Hh. rewrite Hcw in Hh. apply at_head in Hh. cbv zeta. erewrite bind_run by by rewrite Hh.
  erewrite bind_run; [|apply Z.eqb_neq in Hc as ->].
  2:{ unfold symbols in Hsym. rewrite !not_elem_of_cons in Hsym. destruct Hsym as (H1 & H2 & H3 & H4 & H5 & H6 & H7 & _).
      apply Z.eqb_neq in H1 as ->, H2 as ->, H3 as ->, H4 as ->, H5 as ->, H6 as ->, H7 as ->. cbn [orb].
      erewrite bind_run; [done|]. erewrite skip_run; [done|done| |done]. eapply Forall_impl; [apply Hw|]. naive_solver. }
  cbv beta iota zeta. erewrite bind_run; [done|]. erewrite skip_space; [done| |done]. by apply at_app in Ha.
Qed.
Lemma gettoken_sym s c t : at_ s (c :: 32 :: t) → c ∈ symbols → blank t = false →
  gettoken buf es s = Ok (c, s, S s) (S (S s)).
Proof.
  intros Ha Hc Hb. destruct (symbol_not_blank c Hc) as [Hcb Hc0].
  unfold gettoken. erewrite bind_run by done. erewrite bind_run; [|erewrite skip_blank; [done|done|done]].
  pose proof (at_head _ _ _ Ha) as Hh. apply (at_app s [c]) in Ha as Ha1. rewrite Nat.add_1_r in Ha1.
  cbv zeta. erewrite bind_run by by rewrite Hh. erewrite bind_run; [|apply Z.eqb_neq in Hc0 as ->].
  2:{ instantiate (1 := s). instantiate (1 := (c, S s)). destruct (_ || _) eqn:Hsym; [done|].
      destruct (Z.eqb_spec c c_gt) as [->|Hgt]; [by erewrite bind_run by by rewrite (at_head _ _ _ Ha1)|].
      rewrite !orb_false_iff, !Z.eqb_neq in Hsym. destruct Hsym as [[[[[? ?] ?] ?] ?] ?]. 
      assert (c ∉ symbols); [|done]. unfold symbols. rewrite !not_elem_of_cons. split_and!; try done. apply not_elem_of_nil. }
  cbv beta iota zeta. erewrite bind_run; [done|]. by erewrite skip_space.
Qed.
Lemma gettoken_end s : at_ s [] → gettoken buf es s = Ok (0, s, s) s.
Proof.
  intros ->%at_end. unfold gettoken. erewrite bind_run by done. erewrite bind_run by by rewrite Nat.sub_diag.
  cbv zeta. erewrite bind_run by by rewrite buf_es. cbn [Z.eqb]. erewrite bind_run by done. cbv beta iota zeta. by rewrite Nat.sub_diag.
Qed.

Lemma next_word {A} s w ts (f : Z * nat * nat → M nat A) E Q : at_ s (render (Word w :: ts)) → Forall token_ok (Word w :: ts) →
  (∀ q eq s', at_ s' (render ts) → word_text text (q, eq) = w → wp (f (c_a, q, eq)) E Q s') → wp (r ← gettoken buf es; f r) E Q s.
Proof.
  intros Ha [Hw Hts]%Forall_cons Hf. rewrite render_cons in Ha. cbn [token_text] in Ha. rewrite <-app_assoc in Ha. cbn [app] in Ha.
  apply wp_bind. eapply wp_run; [eapply gettoken_word; [done|done|by apply render_blank]|]. apply Hf.
  - apply at_app in Ha. apply (at_app _ [32]) in Ha. by rewrite Nat.add_1_r in Ha.
  - destruct Ha as [_ Ha]. unfold word_text. cbn [fst snd]. rewrite Ha, Nat.add_comm, Nat.add_sub. by rewrite take_app_length.
Qed.
Lemma next_sym {A} s c ts (f : Z * nat * nat → M nat A) E Q : at_ s (render (Sym c :: ts)) → Forall token_ok (Sym c :: ts) →
  (∀ q eq s', at_ s' (render ts) → wp (f (c, q, eq)) E Q s') → wp (r ← gettoken buf es; f r) E Q s.
Proof.
  intros Ha [Hc Hts]%Forall_cons Hf. rewrite render_cons in Ha. cbn [token_text app] in Ha.
  apply wp_bind. eapply wp_run; [eapply gettoken_sym; [done|done|by apply render_blank]|]. apply Hf.
  apply (at_app _ [c; 32]) in Ha. cbn [length] in Ha. by replace (S (S s)) with (s + 2)%nat by lia.
Qed.
(** *** Levels of the grammar *)

(** The tokens that may follow a phrase, none at the end of the line. *)
Definition follow (set : list Z) (ts : list token) : Prop :=
  match ts with [] => True | Sym c :: _ => c ∈ set | Word _ :: _ => False end.
Lemma follow_stops set toks ts : follow set ts → Forall (λ c, c ∉ toks) set → starts toks ts = false.
Proof. destruct ts as [|[w|c] ts]; cbn; [done..|]. intros Hc Hs. eapply Forall_forall in Hs; [|done]. by apply bool_decide_eq_false_2. Qed.
Lemma follow_weaken set set' ts : follow set ts → Forall (λ c, c ∈ set') set → follow set' ts.
Proof. destruct ts as [|[w|c] ts]; cbn; [done..|]. intros Hc Hs. by eapply Forall_forall in Hs. Qed.

(** [m] reads the tokens before [ts] and returns the command [c]. *)
Definition gives (m : M nat (cmd word_ptr)) (c : cmd (list Z)) (ts : list token) (s : nat) : Prop :=
  wp m (λ _, False) (λ c' s', cmd_map (word_text text) c' = c ∧ at_ s' (render ts)) s.

Fixpoint wrap (c : cmd (list Z)) (rs : list (list Z * Z * Z)) : cmd (list Z) :=
  match rs with
  | [] => c
  | (file, mode, fd) :: rs => wrap (REDIR c file mode fd) rs
  end.
Fixpoint redir_tokens (rs : list (list Z * Z * Z)) : list token :=
  match rs with
  | [] => []
  | (file, _, fd) :: rs => redir_sym fd :: Word file :: redir_tokens rs
  end.
Definition redirs_ok (rs : list (list Z * Z * Z)) : Prop := Forall (λ r, redir_ok r.1.2 r.2) rs.

Ltac peek_next := eapply next_peek; [eassumption|try assumption|intros ?; rewrite !elem_of_cons; set_solver|].

Lemma parseredirs_gives rs : ∀ ret ts s fuel, at_ s (render (redir_tokens rs ++ ts)) → Forall token_ok (redir_tokens rs ++ ts) →
  redirs_ok rs → follow [c_pipe; c_rpar; c_amp; c_semi] ts ∨ (∃ w ts', ts = Word w :: ts') → (length rs ≤ fuel)%nat →
  gives (parseredirs buf es ret fuel) (wrap (cmd_map (word_text text) ret) rs) ts s.
Proof.
  induction rs as [|[[file mode] fd] rs IH]; intros ret ts s fuel Ha Hts Hrs Hf Hfuel.
  - assert (Hst : starts [c_lt; c_gt] ts = false) by (destruct Hf as [Hf|(w & ts' & ->)]; [by eapply follow_stops; [done|chars]|done]).
    destruct fuel; cbn [parseredirs]; peek_next; cbn [redir_tokens app] in *; rewrite Hst; by apply wp_ret.
  - destruct fuel as [|fuel]; [cbn in Hfuel; lia|]. cbn [parseredirs]. peek_next. cbn [redir_tokens app] in *.
    apply Forall_cons in Hrs as [Hr Hrs]. cbn in Hr. unfold redir_sym in *. cbn [starts].
    rewrite bool_decide_eq_true_2 by (rewrite !elem_of_cons; case_match; auto). cbn [negb].
    eapply next_sym; [done|done|]. intros q0 eq0 s1 Ha1. apply Forall_cons in Hts as [_ Hts].
    eapply next_word; [done|done|]. intros q eq s2 Ha2 Hw. apply Forall_cons in Hts as [_ Hts]. cbn [negb Z.eqb].
    eapply wp_post; [apply IH; [done|done|done|done|cbn in Hfuel; lia]|]. intros c' s' [-> Ha']. split; [|done]. cbn [wrap]. f_equal.
    by destruct Hr as [[-> ->]|[-> ->]]; rewrite <-Hw.
Qed.

Definition F_exec : list Z := [c_pipe; c_rpar; c_amp; c_semi].
Definition F_pipe : list Z := [c_rpar; c_amp; c_semi].
Definition F_back : list Z := [c_rpar; c_semi].
Definition F_line : list Z := [c_rpar].

Lemma redir_tokens_length rs ts s : at_ s (render (redir_tokens rs ++ ts)) → (length rs ≤ S es)%nat.
Proof.
  intros [Hs Hl]%at_length. pose proof (length_render (redir_tokens rs ++ ts)) as Hr. rewrite length_app in Hr.
  assert (length rs ≤ length (redir_tokens rs))%nat; [|lia]. clear. induction rs as [|[[??]?] rs IH]; cbn; lia.
Qed.

Lemma parseargs_done ret argc fuel ts s : at_ s (render ts) → Forall token_ok ts → follow F_exec ts →
  gives (parseargs buf es ret argc (S fuel)) (cmd_map (word_text text) ret) ts s.
Proof.
  intros Ha Hts Hf. cbn [parseargs]. peek_next. destruct ts as [|[w|c] ts]; [|done|].
  - cbn [starts]. apply wp_bind. eapply wp_run; [by apply gettoken_end|]. by apply wp_ret.
  - cbn [starts follow] in *. rewrite bool_decide_eq_true_2 by done. by apply wp_ret.
Qed.
Lemma parseargs_gives argv : ∀ w acc ret argc rs ts s fuel, at_ s (render ((Word <$> w :: argv) ++ redir_tokens rs ++ ts)) →
  Forall token_ok ((Word <$> w :: argv) ++ redir_tokens rs ++ ts) → redirs_ok rs → follow F_exec ts →
  ret = EXEC acc → argc = Z.of_nat (length acc) → argc + Z.of_nat (length (w :: argv)) < MAXARGS → (S (length argv) < fuel)%nat →
  gives (parseargs buf es ret argc fuel) (wrap (EXEC ((word_text text <$> acc) ++ w :: argv)) rs) ts s.
Proof.
  induction argv as [|w' argv IH]; intros w acc ret argc rs ts s fuel Ha Hts Hrs Hf -> -> Hmax Hfuel;
    (destruct fuel as [|fuel]; [lia|]); cbn [parseargs]; peek_next; cbn [fmap list_fmap app starts] in *;
    (eapply next_word; [done|done|]); intros q eq s1 Ha1 Hw; apply Forall_cons in Hts as [_ Hts];
    change (c_a =? 0) with false; change (c_a =? c_a) with true; cbn [negb add_arg]; cbv zeta;
    (destruct (Z.leb_spec MAXARGS (Z.of_nat (length acc) + 1)); [cbn in Hmax; lia|]); apply wp_bind.
  - destruct fuel as [|fuel]; [cbn in Hfuel; lia|].
    eapply wp_post; [apply parseredirs_gives; [done|done|done|by left|by eapply redir_tokens_length]|].
    intros c s2 [Hc Ha2]. eapply wp_post; [apply parseargs_done; [done|by apply Forall_app in Hts as [_ ?]|done]|].
    intros c' s' [-> Ha']. split; [|done]. rewrite Hc. cbn [cmd_map]. rewrite fmap_app. cbn [fmap list_fmap]. by rewrite Hw.
  - eapply wp_post; [apply (parseredirs_gives [] _ (Word w' :: (Word <$> argv) ++ redir_tokens rs ++ ts)); [exact Ha1|exact Hts|by constructor|right; eauto|cbn; lia]|].
    intros c s2 [Hc Ha2]. cbn [wrap cmd_map] in Hc. destruct c as [acc'| | | |]; try done. injection Hc as Hacc.
    rewrite fmap_app in Hacc. cbn [fmap list_fmap] in Hacc. rewrite Hw in Hacc.
    assert (Hl : length acc' = S (length acc)).
    { apply (f_equal length) in Hacc. rewrite length_fmap, length_app, length_fmap in Hacc. cbn in Hacc. lia. }
    eapply wp_post; [apply (IH w' acc'); [done|done|done|done|done|lia|cbn in *; lia|cbn in *; lia]|].
    intros c' s' [-> Ha']. split; [|done]. by rewrite Hacc, <-app_assoc.
Qed.

(** What each parsing function does with a printed command, followed by
    redirections or background marks of its own. *)
Definition ready (s : nat) (ts : list token) : Prop := at_ s (render ts) ∧ Forall token_ok ts.
Definition exec_gives (c : cmd (list Z)) : Prop := ∀ rs ts s fuel, ready s (tokens L_exec c ++ redir_tokens rs ++ ts) →
  redirs_ok rs → follow F_exec ts → (4 * (es - s) + 2 ≤ fuel)%nat → gives (parseexec buf es fuel) (wrap c rs) ts s.
Definition pipe_gives (c : cmd (list Z)) : Prop := ∀ ts s fuel, ready s (tokens L_pipe c ++ ts) →
  follow F_pipe ts → (4 * (es - s) + 3 ≤ fuel)%nat → gives (parsepipe buf es fuel) c ts s.
Definition back_gives (c : cmd (list Z)) : Prop := ∀ n ts s fuel, ready s (tokens L_back c ++ replicate n (Sym c_amp) ++ ts) →
  follow F_back ts → (4 * (es - s) + 3 ≤ fuel)%nat →
  gives (c ← parsepipe buf es fuel; parseback buf es c (S es)) (Nat.iter n BACK c) ts s.
Definition line_gives (c : cmd (list Z)) : Prop := ∀ ts s fuel, ready s (tokens L_line c ++ ts) →
  follow F_line ts → (4 * (es - s) + 4 ≤ fuel)%nat → gives (parseline buf es fuel) c ts s.

Lemma ready_app s a b s' : ready s (a ++ b) → at_ s' (render b) → ready s' b.
Proof. intros [_ Hts] Ha. split; [done|]. by apply Forall_app in Hts as [_ ?]. Qed.
Lemma gives_bind (m : M nat (cmd word_ptr)) (f : cmd word_ptr → M nat (cmd word_ptr)) c1 c ts1 ts s pre :
  ready s (pre ++ ts1) → gives m c1 ts1 s →
  (∀ c' s', cmd_map (word_text text) c' = c1 → ready s' ts1 → (es - s' ≤ es - s)%nat → gives (f c') c ts s') →
  gives (c' ← m; f c') c ts s.
Proof.
  intros Hr Hm Hf. apply wp_bind. eapply wp_post; [done|]. intros c' s' [Hc Ha]. apply Hf; [done|by eapply ready_app|].
  destruct Hr as [[_ ->]%at_length _]. apply at_length in Ha as [_ ->]. rewrite render_app, length_app. lia.
Qed.
Lemma gives_peek toks (f : bool → M nat (cmd word_ptr)) c ts0 ts s : ready s ts0 → toks ⊆ symbols →
  gives (f (starts toks ts0)) c ts s → gives (b ← peek buf es toks; f b) c ts s.
Proof. intros [Ha Hts] Ht Hf. by eapply next_peek. Qed.
Lemma gives_sym c0 (m : M nat (cmd word_ptr)) c ts0 ts s : ready s (Sym c0 :: ts0) →
  (∀ s', ready s' ts0 → (es - s' < es - s)%nat → gives m c ts s') → gives (gettoken buf es;; m) c ts s.
Proof.
  intros [Ha Hts] Hm. eapply next_sym; [done|done|]. intros _ _ s' Ha'. apply Hm; [split; [done|by apply Forall_cons in Hts as [_ ?]]|].
  apply at_length in Ha as [? ->], Ha' as [? ->]. rewrite render_cons, length_app. cbn. lia.
Qed.
Lemma gives_ret c' c ts s : cmd_map (word_text text) c' = c → ready s ts → gives (mret c') c ts s.
Proof. intros Hc [Ha _]. by apply wp_ret. Qed.

Ltac next_toks := eapply gives_peek; [eassumption|intros ?; rewrite !elem_of_cons; set_solver|].

Lemma exec_exec argv : Z.of_nat (length argv) < MAXARGS → exec_gives (EXEC argv).
Proof.
  intros Hmax rs ts s fuel Hr Hrs Hf Hfuel. destruct fuel as [|fuel]; [lia|]. cbn [parseexec]. next_toks.
  replace (starts _ _) with false; cbn [tokens] in *.
  2:{ symmetry. destruct argv; [|done]. destruct rs as [|[[??] fd] rs]; [by eapply follow_stops; [done|chars]|].
      cbn. by destruct (fd =? 0); apply bool_decide_eq_false_2; chars. }
  destruct argv as [|w argv].
  - eapply (gives_bind _ _ _ _ ts _ _ (redir_tokens rs)); [exact Hr|apply parseredirs_gives; [apply Hr|apply Hr|done|by left|eapply redir_tokens_length; apply Hr]|].
    intros c' s' Hc Hr' _. eapply wp_post; [apply parseargs_done; [apply Hr'|apply Hr'|done]|]. by intros ?? [-> ?].
  - eapply (gives_bind _ _ _ _ _ _ _ []); [done|apply (parseredirs_gives [] _ (_ :: _)); [apply Hr|apply Hr|by constructor|right; eauto|cbn; lia]|].
    intros c' s' Hc Hr' _. cbn [wrap cmd_map] in Hc. destruct c' as [acc'| | | |]; try done. injection Hc as Hacc. destruct acc'; [|done].
    apply (parseargs_gives argv w []); try done; [apply Hr'|apply Hr'|].
    destruct Hr as [[_ Hl]%at_length _]. pose proof (length_render ((Word <$> w :: argv) ++ redir_tokens rs ++ ts)) as Hlen.
    rewrite length_app, length_fmap in Hlen. cbn [length] in Hlen. lia.
Qed.
Lemma exec_redir c file mode fd : redir_ok mode fd → exec_gives c → exec_gives (REDIR c file mode fd).
Proof.
  intros Hm Hc rs ts s fuel Hr Hrs Hf Hfuel. apply (Hc ((file, mode, fd) :: rs)); [|by constructor|done|done].
  cbn [tokens redir_tokens] in *. by rewrite <-app_assoc in Hr.
Qed.
Lemma exec_of_line c : tokens L_exec c = parens true (tokens L_line c) → line_gives c → exec_gives c.
Proof.
  intros Ht Hc rs ts s fuel Hr Hrs Hf Hfuel. rewrite Ht in Hr. cbn [parens app] in Hr. rewrite <-app_assoc in Hr. cbn [app] in Hr.
  destruct fuel as [|[|fuel]]; [lia|lia|]. cbn [parseexec]. next_toks. cbn [starts]. rewrite bool_decide_eq_true_2 by (by left).
  cbn [parseblock]. next_toks. cbn [starts]. rewrite bool_decide_eq_true_2 by (by left). cbn [negb].
  eapply gives_sym; [done|]. intros s1 Hr1 Hs1. eapply gives_bind; [done|apply Hc; [done|by left|lia]|]. intros c' s2 Hc' Hr2 Hs2.
  next_toks. cbn [starts]. rewrite bool_decide_eq_true_2 by (by left). cbn [negb].
  eapply gives_sym; [done|]. intros s3 Hr3 Hs3. rewrite <-Hc'.
  apply parseredirs_gives; [apply Hr3|apply Hr3|done|by left|eapply redir_tokens_length; apply Hr3].
Qed.

Lemma pipe_of_exec c : tokens L_pipe c = tokens L_exec c → exec_gives c → pipe_gives c.
Proof.
  intros Ht Hc ts s fuel Hr Hf Hfuel. rewrite Ht in Hr. destruct fuel as [|fuel]; [lia|]. cbn [parsepipe].
  eapply gives_bind; [done|apply (Hc []); [done|by constructor|eapply follow_weaken; [done|chars]|lia]|].
  intros c' s' Hc' Hr' _. next_toks. erewrite follow_stops; [|done|chars]. by apply gives_ret.
Qed.
Lemma pipe_pipe l r : exec_gives l → pipe_gives r → pipe_gives (PIPE l r).
Proof.
  intros Hl Hrr ts s fuel Hr Hf Hfuel. cbn [tokens parens] in Hr. change (L_pipe <? L_pipe)%nat with false in Hr. cbn [parens] in Hr.
  rewrite <-app_assoc in Hr. cbn [app] in Hr. destruct fuel as [|fuel]; [lia|]. cbn [parsepipe].
  eapply gives_bind; [done|apply (Hl []); [done|by constructor|by left|lia]|]. intros c1 s1 Hc1 Hr1 Hs1.
  next_toks. cbn [starts]. rewrite bool_decide_eq_true_2 by (by left). eapply gives_sym; [done|]. intros s2 Hr2 Hs2.
  eapply gives_bind; [done|apply Hrr; [done|done|lia]|]. intros c2 s3 Hc2 Hr3 _. apply gives_ret; [|done]. cbn in *. by rewrite Hc1, Hc2.
Qed.

Lemma parseback_gives n : ∀ c ts s fuel, ready s (replicate n (Sym c_amp) ++ ts) → follow F_back ts → (n ≤ fuel)%nat →
  gives (parseback buf es c fuel) (Nat.iter n BACK (cmd_map (word_text text) c)) ts s.
Proof.
  induction n as [|n IH]; intros c ts s fuel Hr Hf Hfuel.
  - destruct fuel; cbn [parseback]; next_toks; cbn [replicate app]; (erewrite follow_stops; [|done|chars]); by apply gives_ret.
  - destruct fuel as [|fuel]; [lia|]. cbn [parseback]. next_toks. cbn [starts replicate app] in *. rewrite bool_decide_eq_true_2 by (by left).
    cbn [negb]. eapply gives_sym; [done|]. intros s1 Hr1 Hs1. rewrite Nat.iter_succ_r. apply (IH (BACK c)); [done|done|lia].
Qed.
Lemma back_of_pipe c : tokens L_back c = tokens L_pipe c → pipe_gives c → back_gives c.
Proof.
  intros Ht Hc n ts s fuel Hr Hf Hfuel. rewrite Ht in Hr.
  eapply gives_bind; [done|apply Hc; [done|by destruct n; [eapply follow_weaken; [done|chars]|right; left]|lia]|].
  intros c' s' <- Hr' _. apply parseback_gives; [done|done|]. destruct Hr' as [[_ Hl]%at_length _].
  pose proof (length_render (replicate n (Sym c_amp) ++ ts)) as Hlen. rewrite length_app, length_replicate in Hlen. lia.
Qed.
Lemma back_back c : back_gives c → back_gives (BACK c).
Proof.
  intros Hc n ts s fuel Hr Hf Hfuel. rewrite <-Nat.iter_succ_r. apply Hc; [|done|done].
  cbn [tokens] in Hr. change (L_back <? L_back)%nat with false in Hr. cbn [parens] in Hr. by rewrite <-app_assoc in Hr.
Qed.

Lemma bind_assoc {A B C} (m : M nat A) (f : A → M nat B) (g : B → M nat C) s :
  (x ← m; y ← f x; g y) s = (y ← (x ← m; f x); g y) s.
Proof. unfold mbind, M_bind. by destruct (m s). Qed.
Lemma line_of_back c : tokens L_line c = tokens L_back c → back_gives c → line_gives c.
Proof.
  intros Ht Hc ts s fuel Hr Hf Hfuel. rewrite Ht in Hr. destruct fuel as [|fuel]; [lia|]. cbn [parseline].
  eapply wp_eq; [apply bind_assoc|]. eapply gives_bind; [done|apply (Hc 0%nat); [done|eapply follow_weaken; [done|chars]|lia]|].
  intros c' s' Hc' Hr' _. next_toks. erewrite follow_stops; [|done|chars]. by apply gives_ret.
Qed.
Lemma line_list l r : back_gives l → line_gives r → line_gives (LIST l r).
Proof.
  intros Hl Hrr ts s fuel Hr Hf Hfuel. cbn [tokens] in Hr. change (L_line <? L_line)%nat with false in Hr. cbn [parens] in Hr.
  rewrite <-app_assoc in Hr. cbn [app] in Hr. destruct fuel as [|fuel]; [lia|]. cbn [parseline].
  eapply wp_eq; [apply bind_assoc|]. eapply gives_bind; [done|apply (Hl 0%nat); [done|right; by left|lia]|].
  intros c1 s1 Hc1 Hr1 Hs1. next_toks. cbn [starts]. rewrite bool_decide_eq_true_2 by (by left).
  eapply gives_sym; [done|]. intros s2 Hr2 Hs2. eapply gives_bind; [done|apply Hrr; [done|done|lia]|].
  intros c2 s3 Hc2 Hr3 _. apply gives_ret; [|done]. cbn in *. by rewrite Hc1, Hc2.
Qed.

Ltac up l := match goal with H : _ |- _ => apply l in H as ?; [|reflexivity] end; try by split_and!.
Lemma cmd_gives c : cmd_typed is_word c → exec_gives c ∧ pipe_gives c ∧ back_gives c ∧ line_gives c.
Proof.
  induction c as [argv|c IH file mode fd|l IHl r IHr|l IHl r IHr|c IH]; cbn [cmd_typed]; intros Hc.
  - assert (He : exec_gives (EXEC argv)) by apply exec_exec, Hc. up pipe_of_exec; up back_of_pipe; up line_of_back.
  - assert (He : exec_gives (REDIR c file mode fd)) by (apply exec_redir; [|apply IH]; apply Hc). up pipe_of_exec; up back_of_pipe; up line_of_back.
  - assert (He : pipe_gives (PIPE l r)) by (apply pipe_pipe; [apply IHl|apply IHr]; apply Hc). up back_of_pipe; up line_of_back; up exec_of_line.
  - assert (He : line_gives (LIST l r)) by (apply line_list; [apply IHl|apply IHr]; apply Hc). up exec_of_line; up pipe_of_exec; up back_of_pipe.
  - assert (He : back_gives (BACK c)) by by apply back_back, IH. up line_of_back; up exec_of_line; up pipe_of_exec.
Qed.
End printing.

Lemma tokens_ok c lv : cmd_typed is_word c → Forall token_ok (tokens lv c).
Proof.
  assert (Hp : ∀ b ts, Forall token_ok ts → Forall token_ok (parens b ts)).
  { intros [] ts Hts; [|done]. constructor; [cbn; chars|]. apply Forall_app. split; [done|]. constructor; [cbn; chars|done]. }
  revert lv. induction c as [argv|c IH file mode fd|l IHl r IHr|l IHl r IHr|c IH]; intros lv; cbn [cmd_typed tokens]; intros Hc.
  - apply Forall_fmap. apply Hc.
  - destruct Hc as (Hc & Hf & _). apply Forall_app. split; [by apply IH|]. constructor; [|by constructor].
    unfold redir_sym. destruct (fd =? 0); cbn; chars.
  - destruct Hc as [Hl Hr]. apply Hp, Forall_app. split; [by apply IHl|]. constructor; [cbn; chars|by apply IHr].
  - destruct Hc as [Hl Hr]. apply Hp, Forall_app. split; [by apply IHl|]. constructor; [cbn; chars|by apply IHr].
  - apply Hp, Forall_app. split; [by apply IH|]. constructor; [cbn; chars|done].
Qed.
Lemma render_nonzero ts : Forall token_ok ts → 0 ∉ render ts.
Proof.
  induction 1 as [|[w|c] ts Ht _ IH]; [apply not_elem_of_nil| |]; rewrite render_cons, not_elem_of_app; (split; [|done]); cbn [token_text].
  - rewrite not_elem_of_app. destruct Ht as [_ Hw]. split; [|rewrite not_elem_of_cons; split; [done|apply not_elem_of_nil]].
    intros H0. eapply Forall_forall in Hw; [|done]. naive_solver.
  - apply symbol_not_blank in Ht as [_ Hc]. rewrite !not_elem_of_cons. split_and!; [done|done|apply not_elem_of_nil].
Qed.


Section results.
Context {W : Type} `{Sys W}.

(** C36: the parser of the shell is total and typed.  For every line
    [parsecmd] reads only the line and stops.  It either complains on
    descriptor 2 and exits, or returns, with nothing else done, a well-formed
    command: every command has fewer than MAXARGS words, every redirection
    has one of the two modes with its descriptor, and every word is a
    non-empty string of ordinary characters, although the strings lie in the
    line one behind the other and are terminated in place. *)
Theorem parsecmd_typed text junk : 0 ∉ text →
  (∃ c, cmd_typed is_word c ∧ parsecmd (W:=W) (text ++ 0 :: junk) = mret c) ∨
  (∃ msg, parsecmd (W:=W) (text ++ 0 :: junk) = sh_panic msg) ∨
  (∃ rest, parsecmd (W:=W) (text ++ 0 :: junk) =
     (uprintf 2 (str "leftovers: %s" ++ newline) [AStr (Some rest)];; sh_panic "syntax")).
Proof.
  intros Hz. unfold parsecmd. rewrite until0_text by done. 
  destruct (wp_cases _ _ _ _ (parse_result text junk Hz)) as [(c & s & -> & Hc & Hs)|(msg & -> & _)]; [|right; left; by exists msg].
  destruct (Nat.eqb s (length text)); cbn [negb]; [|by right; right; eexists].
  left. destruct (nulterminate_strings text junk c Hc) as [-> Ht]. eauto.
Qed.
(** C37: printing and parsing a command are inverse to each other.  A
    well-formed command, printed with parentheses where the grammar of the
    shell needs them, parses to itself, whatever follows the line in the
    buffer. *)
Theorem parsecmd_print c junk : cmd_typed is_word c → parsecmd (W:=W) (print_cmd c ++ 0 :: junk) = mret c.
Proof.
  intros Hc. set (text := print_cmd c). assert (Hz : 0 ∉ text) by by apply render_nonzero, tokens_ok.
  unfold parsecmd. rewrite until0_text by done.
  assert (Hrun : gives text (c0 ← parseline (text ++ 0 :: junk) (length text) (parse_fuel (length text));
    peek (text ++ 0 :: junk) (length text) [];; mret c0) c [] 0).
  { assert (Hr : ready text 0 (tokens L_line c ++ [])) by (rewrite app_nil_r; split; [by split; [lia|]|by apply tokens_ok]).
    eapply gives_bind; [done|apply cmd_gives; [done|done|done|done|unfold parse_fuel; lia]|]. intros c' s' Hc' Hr' _.
    eapply gives_peek; [done|by intros ? ?%not_elem_of_nil|]. by apply gives_ret. }
  assert (Htyped := parse_result text junk Hz). cbv zeta in Htyped.
  destruct (wp_cases _ _ _ _ Hrun) as [(c' & s & Hok & Hc' & Hs)|(? & _ & [])].
  rewrite Hok. apply (wp_elim _ _ _ _ _ _ Htyped) in Hok as [Hty _]. apply at_end in Hs as ->. rewrite Nat.eqb_refl. cbn [negb].
  destruct (nulterminate_strings text junk c' Hty) as [-> _]. by rewrite Hc'.
Qed.

(** "Execute cmd.  Never returns": whatever the system calls do. *)
Definition never {A} (m : M W A) : Prop := ∀ s a s', m s ≠ Ok a s'.
Lemma never_uexit {A} : never (uexit (A:=A)).
Proof. done. Qed.
Lemma never_bind {A B} (m : M W A) (f : A → M W B) : (∀ a, never (f a)) → never (m ≫= f).
Proof. intros Hf s b s' Hr. inv_ok Hr as a s1 H1. by eapply Hf. Qed.
Lemma runcmd_never_returns c : never (runcmd c).
Proof.
  destruct c as [[|a argv]|c file mode fd|l r|l r|c]; cbn [runcmd]; repeat (first [apply never_uexit|apply never_bind; intros|case_match]).
Qed.
End results.

Lemma parsecmd_typed_witness :
  (∃ c, cmd_typed is_word c ∧ parsecmd (W:=stream) (str "ls > out" ++ 0 :: [7]) = mret c) ∨
  (∃ msg, parsecmd (W:=stream) (str "ls > out" ++ 0 :: [7]) = sh_panic msg) ∨
  (∃ rest, parsecmd (W:=stream) (str "ls > out" ++ 0 :: [7]) =
     (uprintf 2 (str "leftovers: %s" ++ newline) [AStr (Some rest)];; sh_panic "syntax")).
Proof. apply parsecmd_typed. chars. Defined.

Lemma parsecmd_print_witness :
  let c := LIST (BACK (PIPE (EXEC [str "a"; str "b"]) (REDIR (LIST (EXEC []) (EXEC [str "x"])) (str "f") O_RDONLY 0)))
             (REDIR (EXEC [str "q"]) (str "o") (Z.lor O_WRONLY O_CREATE) 1) in
  print_cmd c = str "a b | ( ; x ) < f & ; q > o " ∧ parsecmd (W:=stream) (print_cmd c ++ [0]) = mret c.
Proof.
  intros c. split; [vm_compute; reflexivity|]. apply (parsecmd_print c []). chars.
Defined.
