(* ===== verification/Umalloc.v ===== *)
(** * Umalloc: ulib/umalloc.c

    The allocator of user programs: a circular list of free blocks in order of
    their addresses, through the static header [base], with first fit, splitting
    at the tail and coalescing.

    An address is a byte address; the headers are in two arrays, of the [ptr]
    and the [size] at an address.  What [sbrk] answers is a sequence of
    successes and failures in the state: it returns the old break and moves
    it, or -1.  The theorem is about every sequence of calls: the memory from
    [sbrk] stays tiled by blocks, each free or handed out. *)

From stdpp Require Import prelude functions gmap strings sorting.
From S2P Require Import Prelude.
Open Scope Z_scope.

(** [sizeof(Header)]. *)
Definition HDR : Z := 16.

Record uheap := mkHeap {
  h_ptr : Z → Z;
  h_size : Z → Z;
  h_freep : Z;
  h_brk : Z;
  h_avail : list bool
}.
Definition set_ptr (a v : Z) (h : uheap) : uheap := mkHeap (<[a := v]> (h_ptr h)) (h_size h) (h_freep h) (h_brk h) (h_avail h).
Definition set_size (a v : Z) (h : uheap) : uheap := mkHeap (h_ptr h) (<[a := v]> (h_size h)) (h_freep h) (h_brk h) (h_avail h).
Definition set_freep (a : Z) (h : uheap) : uheap := mkHeap (h_ptr h) (h_size h) a (h_brk h) (h_avail h).

Definition ptr_of (a : Z) : M uheap Z := gets (λ h, h_ptr h a).
Definition size_of (a : Z) : M uheap Z := gets (λ h, h_size h a).

(** Success moves the break by [n]; a process has less than 4 GB.  The system
    call returns the old break as an [int]; it is less than 2^31, as user
    memory is smaller than the physical memory of 224 MB. *)
Definition sbrk (n : Z) : M uheap Z := λ h,
  match h_avail h with
  | true :: av =>
      if h_brk h + n <? 2 ^ 32 then Ok (h_brk h) (mkHeap (h_ptr h) (h_size h) (h_freep h) (h_brk h + n) av)
      else Ok (-1) (mkHeap (h_ptr h) (h_size h) (h_freep h) (h_brk h) av)
  | false :: av => Ok (-1) (mkHeap (h_ptr h) (h_size h) (h_freep h) (h_brk h) av)
  | [] => Ok (-1) h
  end.

Section umalloc.
Context (base : Z).

(** The block after which [bp] belongs. *)
Fixpoint free_loop (p bp : Z) (fuel : nat) : M uheap Z :=
  match fuel with
  | O => spin
  | S fuel =>
      nx ← ptr_of p;
      if (p <? bp) && (bp <? nx) then mret p else
      if (nx <=? p) && ((p <? bp) || (bp <? nx)) then mret p else
      free_loop nx bp fuel
  end.

Definition free (fuel : nat) (ap : Z) : M uheap unit :=
  let bp := ap - HDR in
  freep ← gets h_freep;
  p ← free_loop freep bp fuel;
  n ← size_of bp;
  nx ← ptr_of p;
  (if bp + n * HDR =? nx then
     m ← size_of nx;
     modify (set_size bp (u32 (n + m)));;
     nn ← ptr_of nx;
     modify (set_ptr bp nn)
   else modify (set_ptr bp nx));;
  m ← size_of p;
  (if p + m * HDR =? bp then
     n ← size_of bp;
     modify (set_size p (u32 (m + n)));;
     nn ← ptr_of bp;
     modify (set_ptr p nn)
   else modify (set_ptr p bp));;
  modify (set_freep p).

Definition morecore (fuel : nat) (nu : Z) : M uheap Z :=
  let nu := if nu <? 4096 then 4096 else nu in
  p ← sbrk (i32 (nu * HDR));
  if p =? -1 then mret 0 else
  modify (set_size p nu);;
  free fuel (p + HDR);;
  gets h_freep.

Fixpoint malloc_loop (nunits prevp p : Z) (fuel : nat) : M uheap Z :=
  match fuel with
  | O => spin
  | S fuel =>
      n ← size_of p;
      if nunits <=? n then
        p ← (if n =? nunits then
               nx ← ptr_of p;
               modify (set_ptr prevp nx);;
               mret p
             else
               modify (set_size p (u32 (n - nunits)));;
               n ← size_of p;
               let p := p + n * HDR in
               modify (set_size p nunits);;
               mret p);
        modify (set_freep prevp);;
        mret (p + HDR)
      else
        freep ← gets h_freep;
        if p =? freep then
          p ← morecore fuel nunits;
          if p =? 0 then mret 0 else
          nx ← ptr_of p;
          malloc_loop nunits p nx fuel
        else
          nx ← ptr_of p;
          malloc_loop nunits p nx fuel
  end.

Definition malloc (fuel : nat) (nbytes : Z) : M uheap Z :=
  let nunits := u32 ((nbytes + HDR - 1) / HDR + 1) in
  freep ← gets h_freep;
  (if freep =? 0 then
     modify (set_freep base);;
     modify (set_ptr base base);;
     modify (set_size base 0)
   else mret tt);;
  prevp ← gets h_freep;
  p ← ptr_of prevp;
  malloc_loop nunits prevp p fuel.
End umalloc.

(** ** Lists of free blocks *)

(** From [x] the pointers lead through [l] to [y]. *)
Fixpoint chain (ptr : Z → Z) (x : Z) (l : list Z) (y : Z) : Prop :=
  match l with
  | [] => ptr x = y
  | z :: l => ptr x = z ∧ chain ptr z l y
  end.
Lemma chain_app ptr x l1 z l2 y : chain ptr x (l1 ++ z :: l2) y ↔ chain ptr x l1 z ∧ chain ptr z l2 y.
Proof. revert x. induction l1 as [|w l1 IH]; intros x; cbn; [done|]. rewrite IH. tauto. Qed.
Lemma uchain_ext ptr ptr' x l y : (∀ a, a ∈ x :: l → ptr' a = ptr a) → chain ptr x l y → chain ptr' x l y.
Proof.
  revert x. induction l as [|z l IH]; intros x He; cbn; [intros <-; apply He; by left|].
  intros [Hx Hc]. split; [rewrite <-Hx; apply He; by left|]. apply IH; [|done]. intros a Ha. apply He. by right.
Qed.
(** The last of [x :: l]. *)
Fixpoint lst (x : Z) (l : list Z) : Z := match l with [] => x | z :: l => lst z l end.
Lemma lst_elem x l : lst x l ∈ x :: l.
Proof. revert x. induction l as [|z l IH]; intros x; [by left|]. right. apply IH. Qed.
Lemma chain_last ptr x l y : chain ptr x l y → ptr (lst x l) = y.
Proof. revert x. induction l as [|z l IH]; intros x; cbn; [done|]. intros [_ Hc]. by apply IH. Qed.
(** Redirecting the last pointer. *)
Lemma chain_redirect ptr x l y z : NoDup (x :: l) → chain ptr x l y → chain (<[lst x l := z]> ptr) x l z.
Proof.
  revert x. induction l as [|w l IH]; intros x Hnd; cbn [chain lst]; [intros _; by rewrite fn_lookup_insert|].
  intros [Hx Hc]. apply NoDup_cons in Hnd as [Hni Hnd]. split; [|by apply IH].
  rewrite fn_lookup_insert_ne; [done|]. intros He. apply Hni. rewrite <-He. apply lst_elem.
Qed.
(** A ring can be entered at any of its members. *)
Lemma chain_rotate ptr b l x : chain ptr b l b → x ∈ b :: l → ∃ l', chain ptr x l' x ∧ x :: l' ≡ₚ b :: l.
Proof.
  intros Hc [->|(l1 & l2 & ->)%list_elem_of_split]%elem_of_cons; [by exists l|].
  apply chain_app in Hc as [H1 H2]. exists (l2 ++ b :: l1). split; [by apply chain_app|].
  rewrite <-!Permutation_middle, (Permutation_app_comm l2). apply Permutation_swap.
Qed.

Lemma chain_suffix ptr x l y a : chain ptr x l y → a ∈ x :: l →
  ∃ l0 l', x :: l = l0 ++ a :: l' ∧ chain ptr a l' y ∧ lst a l' = lst x l.
Proof.
  revert x. induction l as [|z l IH]; intros x; cbn [chain lst]; intros Hc Ha.
  - apply list_elem_of_singleton in Ha as ->. exists [], []. done.
  - apply elem_of_cons in Ha as [->|Ha]; [by exists [], (z :: l)|]. destruct (IH z) as (l0 & l' & -> & ? & ?); [naive_solver|done|].
    by exists (x :: l0), l'.
Qed.

(** No two members of a list point to the same one. *)
Lemma chain_targets ptr x l y : chain ptr x l y → ptr <$> x :: l = l ++ [y].
Proof. revert x. induction l as [|z l IH]; intros x; cbn [chain]; [by intros <-|]. intros [<- Hc]. cbn. f_equal. by apply IH. Qed.
Lemma chain_inj ptr x l y u v : chain ptr x l y → NoDup (l ++ [y]) → u ∈ x :: l → v ∈ x :: l → ptr u = ptr v → u = v.
Proof.
  intros Hc Hnd [i Hi]%list_elem_of_lookup [j Hj]%list_elem_of_lookup He. rewrite <-(chain_targets _ _ _ _ Hc) in Hnd.
  assert (i = j) as ->; [|congruence]. eapply (NoDup_lookup (ptr <$> x :: l)); [done|by rewrite list_lookup_fmap, Hi|].
  rewrite list_lookup_fmap, Hj. cbn. by rewrite He.
Qed.

(** ** Tilings *)

(** A block: the address of its header, its size in units, and whether it is
    handed out. *)
Abbreviation tile := (Z * Z * bool)%type.
Fixpoint tiled (lo : Z) (ts : list tile) (hi : Z) : Prop :=
  match ts with
  | [] => lo = hi
  | (a, n, _) :: ts => a = lo ∧ 1 <= n ∧ tiled (lo + n * HDR) ts hi
  end.
Definition tile_addr (t : tile) : Z := t.1.1.
Definition frees (ts : list tile) : list Z := tile_addr <$> filter (λ t, t.2 = false) ts.

Lemma tiled_app lo ts1 ts2 hi : tiled lo (ts1 ++ ts2) hi ↔ ∃ mid, tiled lo ts1 mid ∧ tiled mid ts2 hi.
Proof.
  revert lo. induction ts1 as [|[[a n] u] ts1 IH]; intros lo; cbn; [naive_solver|]. rewrite IH. naive_solver.
Qed.
Lemma tiled_bounds lo ts hi : tiled lo ts hi → lo <= hi ∧ Forall (λ t, lo <= tile_addr t ∧ 1 <= t.1.2 ∧ tile_addr t + t.1.2 * HDR <= hi) ts.
Proof.
  revert lo. induction ts as [|[[a n] u] ts IH]; intros lo; cbn; [intros ->; by split|].
  intros (-> & Hn & Ht). destruct (IH _ Ht) as [Hle Hall]. unfold HDR in *. split; [lia|]. constructor; [cbn; lia|].
  eapply Forall_impl; [done|]. cbn. intros. lia.
Qed.
Lemma frees_app ts1 ts2 : frees (ts1 ++ ts2) = frees ts1 ++ frees ts2.
Proof. unfold frees. by rewrite filter_app, fmap_app. Qed.
Lemma frees_elem ts a : a ∈ frees ts ↔ ∃ n, (a, n, false) ∈ ts.
Proof.
  unfold frees. rewrite list_elem_of_fmap. split.
  - intros ([[a' n] u] & -> & [Hu Ht]%list_elem_of_filter). cbn in *. subst. eauto.
  - intros [n Ht]. exists (a, n, false). split; [done|]. by apply list_elem_of_filter.
Qed.
Lemma frees_bounds lo ts hi : tiled lo ts hi → Forall (λ a, lo <= a < hi) (frees ts).
Proof.
  intros [_ Ht]%tiled_bounds. apply Forall_forall. intros a [n Ha]%frees_elem. eapply Forall_forall in Ht; [|done]. cbn in Ht.
  unfold HDR in *. lia.
Qed.
Lemma tiled_NoDup lo ts hi : tiled lo ts hi → NoDup (tile_addr <$> ts).
Proof.
  revert lo. induction ts as [|[[a n] u] ts IH]; intros lo; cbn; [constructor|]. intros (-> & Hn & Ht).
  constructor; [|by eapply IH]. intros ([[a' n'] u'] & -> & Hin)%list_elem_of_fmap. apply tiled_bounds in Ht as [_ Ht].
  eapply Forall_forall in Ht; [|done]. cbn in Ht. unfold HDR in *. lia.
Qed.
Lemma frees_NoDup lo ts hi : tiled lo ts hi → NoDup (frees ts).
Proof. intros Ht%tiled_NoDup. unfold frees. eapply sublist_NoDup; [apply Ht|]. apply fmap_sublist, sublist_filter. Qed.
Lemma frees_sorted lo ts hi : tiled lo ts hi → StronglySorted Z.lt (frees ts).
Proof.
  revert lo. induction ts as [|[[a n] u] ts IH]; intros lo; cbn [tiled]; [constructor|]. intros (-> & Hn & Ht).
  specialize (IH _ Ht). destruct u; cbn; [done|]. constructor; [done|]. apply frees_bounds in Ht.
  eapply Forall_impl; [done|]. cbn. unfold HDR. lia.
Qed.
Lemma length_frees ts : (length (frees ts) ≤ length ts)%nat.
Proof. unfold frees. rewrite length_fmap. apply length_filter. Qed.
(** The tiles before and after one of them. *)
Lemma tiled_middle lo ts1 bp n u ts2 hi : tiled lo (ts1 ++ (bp, n, u) :: ts2) hi →
  tiled lo ts1 bp ∧ 1 <= n ∧ tiled (bp + n * HDR) ts2 hi.
Proof. intros (mid & H1 & -> & Hn & H2)%tiled_app. done. Qed.

(** The first free block of [ts], or [b]. *)
Definition first_free (b : Z) (ts : list tile) : Z := match frees ts with [] => b | a :: _ => a end.
Lemma chain_frees ptr b ts1 ts2 : chain ptr b (frees ts1 ++ frees ts2) b ↔
  chain ptr b (frees ts1) (first_free b ts2) ∧ match frees ts2 with [] => True | a :: l => chain ptr a l b end.
Proof. unfold first_free. destruct (frees ts2) as [|a l]; [rewrite app_nil_r; tauto|]. apply chain_app. Qed.
Definition useds (ts : list tile) : list (Z * Z) := fst <$> filter (λ t, t.2 = true) ts.
Lemma useds_app ts1 ts2 : useds (ts1 ++ ts2) = useds ts1 ++ useds ts2.
Proof. unfold useds. by rewrite filter_app, fmap_app. Qed.
Lemma useds_cons a n u ts : useds ((a, n, u) :: ts) = (if u : bool then [(a, n)] else []) ++ useds ts.
Proof. by destruct u. Qed.

Lemma tiled_nil lo ts hi : tiled lo ts hi → lo = hi → ts = [].
Proof.
  destruct ts as [|[[a n] u] ts]; cbn; [done|]. intros (-> & Hn & [Hle _]%tiled_bounds) ->. unfold HDR in *. lia.
Qed.
Lemma frees_split ts a l : frees ts = a :: l → ∃ A m B, ts = A ++ (a, m, false) :: B ∧ frees A = [] ∧ frees B = l.
Proof.
  induction ts as [|[[a' n] u] ts IH]; [done|]. destruct u; cbn.
  - intros (A & m & B & -> & HA & HB)%IH. exists ((a', n, true) :: A), m, B. done.
  - intros He. injection He as He1 He2. exists [], n, ts. by subst a l.
Qed.
Lemma lst_app x l z : lst x (l ++ [z]) = z.
Proof. revert x. by induction l; intros x; cbn. Qed.
Lemma lst_frees b ts : frees ts ≠ [] → ∃ A m B, ts = A ++ (lst b (frees ts), m, false) :: B ∧ frees B = [].
Proof.
  induction ts as [|[[a n] u] ts IH] using rev_ind; [done|]. rewrite frees_app.
  destruct u; [change (frees [(a, n, true)]) with (@nil Z)|change (frees [(a, n, false)]) with [a]].
  - rewrite app_nil_r. intros (A & m & B & He & HB)%IH. exists A, m, (B ++ [(a, n, true)]). rewrite He at 1.
    split; [by rewrite <-app_assoc|]. by rewrite frees_app, HB.
  - intros _. exists ts, n, []. by rewrite lst_app.
Qed.

(** The sizes in the headers. *)
Definition sized (size : Z → Z) (ts : list tile) : Prop := Forall (λ t, size (tile_addr t) = t.1.2) ts.
Lemma sized_insert size ts x v : x ∉ tile_addr <$> ts → sized size ts → sized (<[x := v]> size) ts.
Proof.
  intros Hx Hs. apply Forall_forall. intros t Ht. eapply Forall_forall in Hs; [|done]. rewrite fn_lookup_insert_ne; [done|].
  intros ->. apply Hx. apply list_elem_of_fmap. eauto.
Qed.
Lemma tiled_outside lo ts hi x : tiled lo ts hi → x < lo ∨ hi <= x → x ∉ tile_addr <$> ts.
Proof.
  intros [_ Hb]%tiled_bounds Hx (t & -> & Ht)%list_elem_of_fmap. eapply Forall_forall in Hb; [|done]. cbn in Hb. unfold HDR in *. lia.
Qed.

(** ** The invariant *)

Section safety.
Context (base lo : Z).

Record heap_inv (ts : list tile) (h : uheap) : Prop := {
  hi_base : 0 < base < lo;
  hi_tiled : tiled lo ts (h_brk h);
  hi_brk : h_brk h < 2 ^ 32;
  hi_size : sized (h_size h) ts;
  hi_base_size : h_size h base = 0;
  hi_ring : chain (h_ptr h) base (frees ts) base;
  hi_freep : h_freep h ∈ base :: frees ts
}.

(** The loop of [free] through blocks below [bp] ... *)
Lemma walk_low h bp l : ∀ x y fuel, chain (h_ptr h) x l y → StronglySorted Z.lt (x :: l) → Forall (λ a, a < bp) (x :: l) →
  bp < y ∨ y <= x ∧ y < bp → (length l < fuel)%nat → free_loop x bp fuel h = Ok (lst x l) h.
Proof.
  induction l as [|z l IH]; intros x y fuel; cbn [chain lst]; intros Hc Hs Hb Hy Hf; (destruct fuel as [|fuel]; [cbn in Hf; lia|]);
    cbn [free_loop]; (erewrite bind_run by done); apply Forall_cons in Hb as [Hx Hb].
  - rewrite Hc. destruct (Z.ltb_spec x bp); [|lia]. destruct (Z.ltb_spec bp y); [done|]. destruct (Z.leb_spec y x); [done|lia].
  - destruct Hc as [-> Hc]. apply StronglySorted_inv in Hs as [Hs Hlt]. apply Forall_cons in Hlt as [Hxz Hlt].
    apply Forall_cons in Hb as Hb'. destruct Hb' as [Hz _].
    destruct (Z.ltb_spec bp z); [lia|]. rewrite andb_false_r. destruct (Z.leb_spec z x); [lia|]. cbn [andb].
    eapply IH; [done|done|done| |cbn in Hf; lia]. destruct Hy as [?|[? ?]]; [by left|right; lia].
Qed.
(** ... and above it. *)
Lemma walk_high h bp b l : ∀ x fuel, chain (h_ptr h) x l b → StronglySorted Z.lt (x :: l) → Forall (λ a, bp < a) (x :: l) → b < bp →
  (length l < fuel)%nat → free_loop x bp fuel h = free_loop b bp (fuel - S (length l)) h.
Proof.
  induction l as [|z l IH]; intros x fuel; cbn [chain]; intros Hc Hs Hb Hlt Hf; (destruct fuel as [|fuel]; [cbn in Hf; lia|]);
    cbn [free_loop length Nat.sub]; (erewrite bind_run by done); apply Forall_cons in Hb as [Hx Hb];
    (destruct (Z.ltb_spec x bp); [lia|]); cbn [andb orb].
  - rewrite Hc. destruct (Z.ltb_spec bp b); [lia|]. by rewrite andb_false_r, Nat.sub_0_r.
  - destruct Hc as [-> Hc]. apply StronglySorted_inv in Hs as [Hs Hxl]. apply Forall_cons in Hxl as [Hxz Hxl].
    destruct (Z.leb_spec z x); [lia|]. cbn [andb]. apply IH; [done|done|done|done|cbn in Hf; lia].
Qed.

(** The block that is found is the last free one below [bp]. *)
Lemma free_loop_finds h ts1 bp n ts2 fuel : let ts := ts1 ++ (bp, n, true) :: ts2 in
  0 < base < lo → tiled lo ts (h_brk h) → chain (h_ptr h) base (frees ts) base → h_freep h ∈ base :: frees ts →
  (2 * length ts + 2 ≤ fuel)%nat → free_loop (h_freep h) bp fuel h = Ok (lst base (frees ts1)) h.
Proof.
  intros ts Hb Ht Hc Hp Hf. unfold ts in *. rewrite frees_app in *. change (frees ((bp, n, true) :: ts2)) with (frees ts2) in *.
  rewrite length_app in Hf. cbn in Hf. pose proof (length_frees ts1) as Hl1. pose proof (length_frees ts2) as Hl2.
  apply tiled_middle in Ht as (H1 & Hn & H2). pose proof (frees_sorted _ _ _ H1) as Hs1. pose proof (frees_sorted _ _ _ H2) as Hs2.
  apply frees_bounds in H1 as Hb1. apply frees_bounds in H2 as Hb2. apply tiled_bounds in H1 as [Hlo _].
  apply chain_frees in Hc as [Hc1 Hc2]. 
  assert (Hs : StronglySorted Z.lt (base :: frees ts1)) by (constructor; [done|]; eapply Forall_impl; [done|]; cbn; lia).
  assert (Hlow : Forall (λ a, a < bp) (base :: frees ts1)) by (constructor; [lia|]; eapply Forall_impl; [done|]; cbn; lia).
  assert (Hy : ∀ x, x ∈ base :: frees ts1 → bp < first_free base ts2 ∨ first_free base ts2 <= x ∧ first_free base ts2 < bp).
  { intros x Hx. unfold first_free. destruct (frees ts2); [right|left; apply Forall_cons in Hb2 as [? _]; unfold HDR in *; lia].
    split; [|lia]. apply elem_of_cons in Hx as [->|Hx]; [lia|]. eapply Forall_forall in Hb1; [|done]. cbn in Hb1. lia. }
  assert (Hfrom : ∀ x fuel, x ∈ base :: frees ts1 → (length ts1 < fuel)%nat → free_loop x bp fuel h = Ok (lst base (frees ts1)) h).
  { intros x fuel' Hx Hf'. destruct (chain_suffix _ _ _ _ _ Hc1 Hx) as (l0 & l' & He & Hc' & <-). rewrite He in Hs, Hlow.
    apply (f_equal length) in He. rewrite length_app in He. cbn in He.
    eapply walk_low; [done|by eapply StronglySorted_app_1_r|by apply Forall_app in Hlow as [_ ?]|by apply Hy|lia]. }
  rewrite app_comm_cons, elem_of_app in Hp. destruct Hp as [Hp|Hp]; [apply Hfrom; [done|lia]|].
  destruct (frees ts2) as [|a l] eqn:E; [by apply not_elem_of_nil in Hp|].
  destruct (chain_suffix _ _ _ _ _ Hc2 Hp) as (l0 & l' & He & Hc' & _). rewrite He in Hs2, Hb2.
  apply (f_equal length) in He. rewrite length_app in He. cbn in He, Hl2. apply Forall_app in Hb2 as [_ Hb2].
  rewrite (walk_high h bp base l'); [apply Hfrom; [by left|lia]|done|by eapply StronglySorted_app_1_r| |lia|lia].
  eapply Forall_impl; [done|]. cbn. unfold HDR. lia.
Qed.

(** [free] between its two halves: [bp] is linked to its successor, but its
    predecessor not yet to it. *)
Record limbo (ts1 : list tile) (bp n : Z) (ts2 : list tile) (h : uheap) : Prop := {
  li_base : 0 < base < lo;
  li_low : tiled lo ts1 bp;
  li_n : 1 <= n;
  li_high : tiled (bp + n * HDR) ts2 (h_brk h);
  li_brk : h_brk h < 2 ^ 32;
  li_size1 : sized (h_size h) ts1;
  li_size : h_size h bp = n;
  li_size2 : sized (h_size h) ts2;
  li_base_size : h_size h base = 0;
  li_chain1 : ∃ y, chain (h_ptr h) base (frees ts1) y;
  li_ptr : h_ptr h bp = first_free base ts2;
  li_chain2 : match frees ts2 with [] => True | a :: l => chain (h_ptr h) a l base end
}.

Lemma free_join_next ts1 bp n ts2 h : let nx := first_free base ts2 in
  heap_inv (ts1 ++ (bp, n, true) :: ts2) h → h_ptr h (lst base (frees ts1)) = nx ∧ h_size h bp = n ∧
  ∃ n' ts2' h', (if bp + n * HDR =? nx then
     m ← size_of nx; modify (set_size bp (u32 (n + m)));; nn ← ptr_of nx; modify (set_ptr bp nn)
   else modify (set_ptr bp nx)) h = Ok tt h' ∧ n <= n' ∧ useds ts2' = useds ts2 ∧ limbo ts1 bp n' ts2' h' ∧
    h_brk h' = h_brk h ∧ h_freep h' = h_freep h ∧ (length ts2' ≤ length ts2)%nat.
Proof.
  intros nx [Hb Ht Hk Hs Hbs Hr Hp]. assert (Hd : nx = first_free base ts2) by done. clearbody nx. pose proof Ht as (H1 & Hn & H2)%tiled_middle.
  apply Forall_app in Hs as [Hs1 [Hsb Hs2]%Forall_cons]. cbn in Hsb.
  rewrite frees_app in Hr. change (frees ((bp, n, true) :: ts2)) with (frees ts2) in Hr. apply chain_frees in Hr as [Hc1 Hc2].
  rewrite <-Hd in Hc1. split; [by apply chain_last|]. split; [done|].
  assert (Hlow : ∀ a, a ∈ base :: frees ts1 → a ≠ bp).
  { intros a [->|Ha]%elem_of_cons; [apply tiled_bounds in H1; lia|]. apply frees_bounds in H1. eapply Forall_forall in H1; [|done]. cbn in H1. lia. }
  assert (Hhigh : ∀ a, a ∈ frees ts2 → a ≠ bp).
  { intros a Ha. apply frees_bounds in H2. eapply Forall_forall in H2; [|done]. cbn in H2. unfold HDR in *. lia. }
  destruct (Z.eqb_spec (bp + n * HDR) nx) as [Hnx|Hnx].
  - assert (∃ l, frees ts2 = nx :: l) as [l Hf].
    { unfold first_free in Hd. destruct (frees ts2); [apply tiled_bounds in H1; unfold HDR in *; lia|rewrite Hd; eauto]. }
    destruct (frees_split _ _ _ Hf) as (A & m & B & -> & HA & HB). pose proof H2 as (HtA & Hm & HtB)%tiled_middle.
    assert (A = []) as -> by by eapply tiled_nil. cbn [app] in *. apply Forall_cons in Hs2 as [Hsm Hs2]. cbn in Hsm.
    pose proof (tiled_bounds _ _ _ HtB) as [HleB _]. apply tiled_bounds in H1 as HleA. destruct HleA as [HleA _].
    exists (n + m), B. eexists. unfold size_of, ptr_of, modify, gets, mbind, M_bind. cbn. split; [done|]. rewrite Hsm.
    rewrite u32_small by (unfold HDR in *; lia). split; [lia|]. split; [done|]. split; [|split_and!; [done|done|lia]].
    split; cbn; try done; [lia|by replace (bp + (n + m) * HDR) with (nx + m * HDR) by (unfold HDR in *; lia)|..].
    + apply sized_insert; [eapply tiled_outside; [done|lia]|done].
    + by rewrite fn_lookup_insert.
    + apply sized_insert; [eapply tiled_outside; [done|unfold HDR in *; lia]|done].
    + rewrite fn_lookup_insert_ne; [done|]. intros ->. lia.
    + exists nx. eapply uchain_ext; [|done]. intros a Ha. rewrite fn_lookup_insert_ne; [done|]. intros <-. by apply (Hlow bp).
    + rewrite fn_lookup_insert. rewrite Hf in Hc2. unfold first_free. rewrite HB. by destruct l; [|destruct Hc2].
    + rewrite Hf in Hc2. rewrite HB. destruct l as [|a l]; [done|]. destruct Hc2 as [_ Hc2]. eapply uchain_ext; [|done].
      intros x Hx. rewrite fn_lookup_insert_ne; [done|]. intros <-. apply (Hhigh bp); [|done]. rewrite Hf. by right.
  - exists n, ts2. eexists. unfold modify. split; [done|]. split; [lia|]. split; [done|]. split; [|by split_and!].
    split; cbn; try done.
    + exists nx. eapply uchain_ext; [|done]. intros a Ha. rewrite fn_lookup_insert_ne; [done|]. intros <-. by apply (Hlow bp).
    + by rewrite fn_lookup_insert.
    + destruct (frees ts2) as [|a l]; [done|]. eapply uchain_ext; [|done].
      intros x Hx. rewrite fn_lookup_insert_ne; [done|]. intros <-. by apply (Hhigh bp).
Qed.

Lemma free_join_prev ts1 bp n ts2 h : let p := lst base (frees ts1) in limbo ts1 bp n ts2 h →
  ∃ ts' a m h', (m ← size_of p;
   (if p + m * HDR =? bp then
      n ← size_of bp; modify (set_size p (u32 (m + n)));; nn ← ptr_of bp; modify (set_ptr p nn)
    else modify (set_ptr p bp));;
   modify (set_freep p)) h = Ok tt h' ∧ heap_inv ts' h' ∧ useds ts' = useds ts1 ++ useds ts2 ∧ (a, m, false) ∈ ts' ∧ n <= m ∧
   h_brk h' = h_brk h ∧ (length ts' ≤ length ts1 + S (length ts2))%nat.
Proof.
  intros p [Hb H1 Hn H2 Hk Hs1 Hsb Hs2 Hbs [y Hc1] Hptr Hc2].
  assert (Hpd : p = lst base (frees ts1)) by done. clearbody p.
  pose proof (tiled_bounds _ _ _ H1) as [Hle1 _]. pose proof (tiled_bounds _ _ _ H2) as [Hle2 _].
  pose proof (frees_bounds _ _ _ H1) as Hfb1. pose proof (frees_bounds _ _ _ H2) as Hfb2.
  assert (Hnd : NoDup (base :: frees ts1)).
  { constructor; [|by eapply frees_NoDup]. intros Hin. eapply Forall_forall in Hfb1; [|done]. cbn in Hfb1. lia. }
  assert (Hpin : p ∈ base :: frees ts1) by (rewrite Hpd; apply lst_elem).
  assert (Hpb : p < bp).
  { apply elem_of_cons in Hpin as [->|Hpin]; [lia|]. eapply Forall_forall in Hfb1; [|done]. cbn in Hfb1. lia. }
  assert (Hhigh : ∀ z, match frees ts2 with [] => True | a :: l => chain (<[p := z]> (h_ptr h)) a l base end).
  { intros z. destruct (frees ts2) as [|a l]; [done|]. eapply uchain_ext; [|done]. intros x Hx. rewrite fn_lookup_insert_ne; [done|].
    intros <-. eapply Forall_forall in Hfb2; [|done]. cbn in Hfb2. unfold HDR in *. lia. }
  assert (Hlow : ∀ z, chain (<[p := z]> (h_ptr h)) base (frees ts1) z) by (intros z; rewrite Hpd; by eapply chain_redirect).
  unfold size_of, ptr_of, gets. erewrite bind_run by done.
  destruct (Z.eqb_spec (p + h_size h p * HDR) bp) as [Hj|Hj].
  - assert (Hne : frees ts1 ≠ []).
    { intros He. rewrite He in Hpd. cbn in Hpd. subst p. rewrite Hbs in Hj. lia. }
    destruct (lst_frees base ts1 Hne) as (A & m & B & He & HB). rewrite <-Hpd in He. subst ts1.
    apply tiled_middle in H1 as HtA. destruct HtA as (HtA & Hm & HtB).
    apply Forall_app in Hs1 as [HsA [Hsm HsB]%Forall_cons]. cbn in Hsm. rewrite Hsm in *.
    assert (B = []) as -> by by eapply tiled_nil.
    pose proof (tiled_bounds _ _ _ HtA) as [HleA _].
    eexists (A ++ (p, m + n, false) :: ts2), p, (m + n), _. unfold modify, mbind, M_bind. cbn. split; [done|].
    rewrite Hsb, u32_small by (unfold HDR in *; lia). rewrite !frees_app in Hlow.
    split; [|split_and!; [by rewrite !useds_app; cbn; rewrite app_nil_r|apply elem_of_app; right; by left|lia|done|rewrite !length_app; cbn; lia]].
    split; cbn; try done.
    + apply tiled_app. exists p. split; [done|]. split_and!; [done|lia|].
      by replace (p + (m + n) * HDR) with (bp + n * HDR) by (unfold HDR in *; lia).
    + apply Forall_app. split; [apply sized_insert; [eapply tiled_outside; [done|lia]|done]|]. constructor; [cbn; by rewrite fn_lookup_insert|].
      apply sized_insert; [eapply tiled_outside; [done|unfold HDR in *; lia]|done].
    + rewrite fn_lookup_insert_ne; [done|]. intros ->. lia.
    + rewrite frees_app. replace (frees A ++ frees ((p, m + n, false) :: ts2)) with ((frees A ++ frees [(p, m, false)]) ++ frees ts2) by by rewrite <-app_assoc.
      rewrite <-frees_app. apply chain_frees. rewrite frees_app. rewrite Hptr. split; [apply Hlow|apply Hhigh].
    + rewrite frees_app. rewrite elem_of_cons, elem_of_app. right; right. by left.
  - eexists (ts1 ++ (bp, n, false) :: ts2), bp, n, _. unfold modify, mbind, M_bind. cbn. split; [done|].
    split; [|split_and!; [by rewrite !useds_app|apply elem_of_app; right; by left|lia|done|rewrite !length_app; cbn; lia]].
    split; cbn; try done.
    + apply tiled_app. by exists bp.
    + apply Forall_app. split; [done|]. by constructor.
    + rewrite frees_app. change (frees ((bp, n, false) :: ts2)) with (bp :: frees ts2). apply chain_app. split; [apply Hlow|].
      assert (Hbp : (<[p := bp]> (h_ptr h)) bp = first_free base ts2) by (rewrite fn_lookup_insert_ne; [done|lia]).
      specialize (Hhigh bp). unfold first_free in Hbp. by destruct (frees ts2) as [|a l].
    + rewrite frees_app, app_comm_cons, elem_of_app. by left.
Qed.

Lemma free_run ts1 bp n ts2 h fuel : heap_inv (ts1 ++ (bp, n, true) :: ts2) h → (2 * length (ts1 ++ (bp, n, true) :: ts2) + 2 ≤ fuel)%nat →
  ∃ ts' a m h', free fuel (bp + HDR) h = Ok tt h' ∧ heap_inv ts' h' ∧ useds ts' = useds ts1 ++ useds ts2 ∧ (a, m, false) ∈ ts' ∧ n <= m ∧
    (length ts' ≤ length ts1 + S (length ts2))%nat.
Proof.
  intros Hi Hf. destruct (free_join_next _ _ _ _ _ Hi) as (Hnx & Hsz & n' & ts2' & h1 & H1 & Hn & Hu & Hl & _ & _ & Hlen).
  destruct (free_join_prev _ _ _ _ _ Hl) as (ts' & a & m & h2 & H2 & Hi' & Hu' & Hin & Hm & _ & Hlen').
  exists ts', a, m, h2. split; [|split_and!; [done|by rewrite Hu', Hu|done|lia|lia]].
  unfold free. cbv zeta. replace (bp + HDR - HDR) with bp by lia. erewrite bind_run by done.
  erewrite bind_run by (eapply free_loop_finds; [apply Hi|apply Hi|apply Hi|apply Hi|done]).
  unfold size_of at 1, ptr_of at 1, gets. erewrite bind_run by done. erewrite bind_run by done. rewrite Hsz, Hnx.
  by rewrite (bind_run _ _ _ _ _ H1).
Qed.

Lemma heap_grow ts h nu : heap_inv ts h → 1 <= nu → h_brk h + nu * HDR < 2 ^ 32 →
  heap_inv (ts ++ [(h_brk h, nu, true)]) (set_size (h_brk h) nu (mkHeap (h_ptr h) (h_size h) (h_freep h) (h_brk h + nu * HDR) (tail (h_avail h)))).
Proof.
  intros [Hb Ht Hk Hs Hbs Hr Hp] Hn Hlt. pose proof (tiled_bounds _ _ _ Ht) as [Hle _].
  assert (Hfr : frees (ts ++ [(h_brk h, nu, true)]) = frees ts) by (rewrite frees_app; apply app_nil_r).
  split; cbn; rewrite ?Hfr; try done.
  - apply tiled_app. by exists (h_brk h).
  - apply Forall_app. split; [apply sized_insert; [eapply tiled_outside; [done|lia]|done]|].
    constructor; [cbn; by rewrite fn_lookup_insert|done].
  - rewrite fn_lookup_insert_ne; [done|lia].
Qed.
Lemma sbrk_run n h : (∃ av, sbrk n h = Ok (-1) (mkHeap (h_ptr h) (h_size h) (h_freep h) (h_brk h) av)) ∨
  h_brk h + n < 2 ^ 32 ∧ sbrk n h = Ok (h_brk h) (mkHeap (h_ptr h) (h_size h) (h_freep h) (h_brk h + n) (tail (h_avail h))).
Proof.
  unfold sbrk. destruct h as [ptr size freep brk [|[] av]]; cbn -[Z.pow]; [by left; eexists| |by left; eexists].
  destruct (Z.ltb_spec (brk + n) (2 ^ 32)); [by right|by left; eexists].
Qed.
(** [sbrk] does not give the memory that a request of [nunits] asks for. *)
Definition refused (nunits : Z) (h : uheap) : Prop := ∃ h', sbrk (Z.max 4096 nunits * HDR) h = Ok (-1) h'.
Lemma morecore_run ts h nu fuel : heap_inv ts h → 1 <= nu → nu * HDR < 2 ^ 31 → (2 * length ts + 4 ≤ fuel)%nat →
  ∃ r h', morecore fuel nu h = Ok r h' ∧
    (r = 0 ∧ heap_inv ts h' ∧ refused nu h ∨
     r = h_freep h' ∧ r ≠ 0 ∧ ∃ ts' a m, heap_inv ts' h' ∧ useds ts' = useds ts ∧ (a, m, false) ∈ ts' ∧ nu <= m ∧ (length ts' ≤ S (length ts))%nat).
Proof.
  intros Hi Hn Hlt Hf. unfold morecore. set (nu' := if nu <? 4096 then 4096 else nu). cbv zeta.
  assert (Hnu : nu <= nu' ∧ 1 <= nu' ∧ nu' * HDR < 2 ^ 31) by (unfold nu'; destruct (Z.ltb_spec nu 4096); unfold HDR in *; lia).
  rewrite i32_small by (unfold HDR in *; lia).
  pose proof (hi_base _ _ Hi) as Hb. pose proof (tiled_bounds _ _ _ (hi_tiled _ _ Hi)) as [Hle _].
  destruct (sbrk_run (nu' * HDR) h) as [[av Hs]|[Hlt' Hs]].
  { eexists 0, _. rewrite (bind_run _ _ _ _ _ Hs). split; [done|]. left. split; [done|]. split; [by destruct Hi|].
    exists (mkHeap (h_ptr h) (h_size h) (h_freep h) (h_brk h) av). rewrite <-Hs. f_equal. f_equal. unfold nu'. destruct (Z.ltb_spec nu 4096); lia. }
  rewrite (bind_run _ _ _ _ _ Hs). destruct (Z.eqb_spec (h_brk h) (-1)); [lia|].
  pose proof (heap_grow ts h nu' Hi (proj1 (proj2 Hnu)) Hlt') as Hg. erewrite bind_run by done.
  destruct (free_run _ _ _ _ _ fuel Hg) as (ts' & a & m & h' & Hfr & Hi' & Hu & Hin & Hm & Hlen); [rewrite length_app; cbn; lia|].
  rewrite (bind_run _ _ _ _ _ Hfr). unfold gets. exists (h_freep h'), h'. split; [done|]. right. split; [done|]. split.
  - destruct Hi' as [_ Ht' _ _ _ _ Hp']. apply elem_of_cons in Hp' as [->|Hp']; [lia|]. apply frees_bounds in Ht'.
    eapply Forall_forall in Ht'; [|done]. cbn in Ht'. lia.
  - exists ts', a, m. rewrite app_nil_r in Hu. cbn in Hlen. split_and!; [done|done|done|lia|lia].
Qed.

(** *** Taking a block *)

Definition ring (ts : list tile) : list Z := base :: frees ts.
Lemma ring_NoDup ts h : heap_inv ts h → NoDup (frees ts ++ [base]).
Proof.
  intros Hi. pose proof (hi_tiled _ _ Hi) as Ht. pose proof (hi_base _ _ Hi). rewrite (Permutation_app_comm _ [base]). constructor; [|by eapply frees_NoDup].
  intros Hin. apply frees_bounds in Ht. eapply Forall_forall in Ht; [|done]. cbn in Ht. lia.
Qed.
Lemma ring_prev ts h prev z : heap_inv ts h → prev ∈ ring ts → h_ptr h prev = z → z ∈ frees ts →
  ∃ ts1 m ts2, ts = ts1 ++ (z, m, false) :: ts2 ∧ prev = lst base (frees ts1).
Proof.
  intros Hi Hp Hz [m (ts1 & ts2 & ->)%list_elem_of_split]%frees_elem. exists ts1, m, ts2. split; [done|].
  pose proof (ring_NoDup _ _ Hi) as Hnd. destruct Hi as [_ _ _ _ _ Hr _]. unfold ring in Hp.
  rewrite frees_app in Hr, Hnd, Hp. change (frees ((z, m, false) :: ts2)) with (z :: frees ts2) in *.
  eapply chain_inj; [exact Hr|done|done| |].
  - rewrite app_comm_cons. apply elem_of_app. left. apply lst_elem.
  - rewrite Hz. apply chain_app in Hr as [Hr _]. by apply chain_last in Hr.
Qed.

Lemma take_exact ts1 z m ts2 h : heap_inv (ts1 ++ (z, m, false) :: ts2) h → let prev := lst base (frees ts1) in
  heap_inv (ts1 ++ (z, m, true) :: ts2) (set_freep prev (set_ptr prev (h_ptr h z) h)).
Proof.
  intros Hi prev. pose proof (ring_NoDup _ _ Hi) as Hnd. destruct Hi as [Hb Ht Hk Hs Hbs Hr Hp].
  rewrite frees_app in Hr, Hnd. change (frees ((z, m, false) :: ts2)) with (z :: frees ts2) in *.
  assert (Hf : frees (ts1 ++ (z, m, true) :: ts2) = frees ts1 ++ frees ts2) by by rewrite frees_app.
  apply chain_app in Hr as [Hr1 Hr2]. pose proof (lst_elem base (frees ts1)) as Hl. fold prev in Hl.
  assert (Hnd1 : NoDup (base :: frees ts1) ∧ ∀ a, a ∈ frees ts2 → a ∉ base :: frees ts1).
  { rewrite (Permutation_app_comm _ [base]) in Hnd. cbn in Hnd. rewrite app_comm_cons in Hnd. apply NoDup_app in Hnd as (? & H2 & ?).
    split; [done|]. intros a Ha Ha'. apply (H2 a Ha'). by right. }
  split; cbn; rewrite ?Hf; try done.
  - apply tiled_app. apply tiled_app in Ht as (mid & ? & ?). by exists mid.
  - apply Forall_app. apply Forall_app in Hs as [? Hs]. split; [done|]. apply Forall_cons in Hs as [? ?]. by constructor.
  - apply chain_frees. split.
    + replace (h_ptr h z) with (first_free base ts2); [eapply chain_redirect; [apply Hnd1|done]|].
      unfold first_free. by destruct (frees ts2); [|destruct Hr2].
    + destruct (frees ts2) as [|a l] eqn:E; [done|]. destruct Hr2 as [_ Hr2]. eapply uchain_ext; [|done]. intros x Hx.
      rewrite fn_lookup_insert_ne; [done|]. intros <-. by apply (proj2 Hnd1 prev).
  - rewrite app_comm_cons, elem_of_app. by left.
Qed.
Lemma take_split ts1 z m ts2 h nunits : heap_inv (ts1 ++ (z, m, false) :: ts2) h → 1 <= nunits < m →
  let prev := lst base (frees ts1) in let b := z + (m - nunits) * HDR in
  heap_inv (ts1 ++ (z, m - nunits, false) :: (b, nunits, true) :: ts2) (set_freep prev (set_size b nunits (set_size z (m - nunits) h))).
Proof.
  intros [Hb Ht Hk Hs Hbs Hr Hp] Hn prev b. pose proof (lst_elem base (frees ts1)) as Hl. fold prev in Hl.
  assert (Hf : frees (ts1 ++ (z, m - nunits, false) :: (b, nunits, true) :: ts2) = frees (ts1 ++ (z, m, false) :: ts2)) by by rewrite !frees_app.
  pose proof Ht as (H1 & Hm & H2)%tiled_middle. pose proof (tiled_bounds _ _ _ H1) as [Hle1 _].
  apply Forall_app in Hs as [Hs1 [Hsz Hs2]%Forall_cons]. cbn in Hsz.
  assert (Hzb : z < b ∧ b + nunits * HDR = z + m * HDR) by (unfold b, HDR; lia).
  split; cbn; rewrite ?Hf; try done.
  - apply tiled_app. exists z. split; [done|]. split_and!; [done|lia|]. split_and!; [done|lia|].
    by replace (z + (m - nunits) * HDR + nunits * HDR) with (z + m * HDR) by (unfold HDR; lia).
  - apply Forall_app. split; [|constructor; [cbn; rewrite fn_lookup_insert_ne by lia; by rewrite fn_lookup_insert|]; constructor; [cbn; by rewrite fn_lookup_insert|]].
    + by apply sized_insert; [eapply tiled_outside; [done|lia]|apply sized_insert; [eapply tiled_outside; [done|lia]|]].
    + unfold HDR in *. by apply sized_insert; [eapply tiled_outside; [done|lia]|apply sized_insert; [eapply tiled_outside; [done|lia]|]].
  - rewrite !fn_lookup_insert_ne; [done|lia|lia].
  - rewrite frees_app, app_comm_cons, elem_of_app. by left.
Qed.

(** The outcome of [malloc]: a null pointer and the same blocks, for which
    there must be the reason [why], or a new block of [nunits] units. *)
Definition mallocs (why : Prop) (ts : list tile) (nunits : Z) (r : res uheap Z) : Prop :=
  ∃ a ts' h', r = Ok a h' ∧ heap_inv ts' h' ∧
    (a = 0 ∧ useds ts' = useds ts ∧ why ∨ ∃ b, a = b + HDR ∧ useds ts' ≡ₚ (b, nunits) :: useds ts).

Lemma malloc_take why ts h prev z nunits fuel : heap_inv ts h → prev ∈ ring ts → h_ptr h prev = z → z ∈ ring ts →
  1 <= nunits <= h_size h z → mallocs why ts nunits (malloc_loop nunits prev z (S fuel) h).
Proof.
  intros Hi Hp Hz Hzr Hn. assert (Hzf : z ∈ frees ts).
  { apply elem_of_cons in Hzr as [->|?]; [|done]. rewrite (hi_base_size _ _ Hi) in Hn. lia. }
  destruct (ring_prev _ _ _ _ Hi Hp Hz Hzf) as (ts1 & m & ts2 & -> & ->).
  assert (Hm : h_size h z = m).
  { pose proof (hi_size _ _ Hi) as Hs. apply Forall_app in Hs as [_ [Hs _]%Forall_cons]. done. }
  pose proof (hi_tiled _ _ Hi) as (H1 & _ & H2)%tiled_middle. pose proof (hi_brk _ _ Hi). pose proof (hi_base _ _ Hi).
  pose proof (tiled_bounds _ _ _ H1) as [Hle1 _]. pose proof (tiled_bounds _ _ _ H2) as [Hle2 _].
  cbn [malloc_loop]. unfold size_of, ptr_of, gets, modify. erewrite bind_run by done. rewrite Hm.
  destruct (Z.leb_spec nunits m); [|lia]. destruct (Z.eqb_spec m nunits) as [<-|Hne].
  - unfold mbind, M_bind, mret, M_ret. eexists _, _, _. split; [done|]. split; [by apply (take_exact _ _ _ _ _ Hi)|].
    right. exists z. split; [done|]. rewrite !useds_app, !useds_cons. cbn [app]. by rewrite <-Permutation_middle.
  - unfold mbind, M_bind, mret, M_ret. rewrite u32_small by (unfold HDR in *; lia). cbn [h_size set_size]. rewrite fn_lookup_insert.
    eexists _, _, _. split; [done|]. split; [apply (take_split _ _ _ _ _ nunits Hi); lia|].
    right. eexists. split; [done|]. rewrite !useds_app, !useds_cons. cbn [app]. by rewrite <-Permutation_middle.
Qed.

(** The search, from [prev] to the block where it started. *)
Lemma malloc_scan why ts h nunits l : heap_inv ts h → 1 <= nunits → ∀ prev fuel, chain (h_ptr h) prev l (h_freep h) →
  Forall (λ a, a ∈ ring ts) (prev :: l) → h_freep h ∉ l → (length l < fuel)%nat →
  mallocs why ts nunits (malloc_loop nunits prev (h_ptr h prev) fuel h) ∨
  Forall (λ a, h_size h a < nunits) (l ++ [h_freep h]) ∧ ∃ prev',
    malloc_loop nunits prev (h_ptr h prev) fuel h = malloc_loop nunits prev' (h_freep h) (fuel - length l) h.
Proof.
  intros Hi Hn. induction l as [|z l IH]; intros prev fuel Hc Hin Hnf Hf; (destruct fuel as [|fuel]; [cbn in Hf; lia|]);
    apply Forall_cons in Hin as [Hprev Hin]; cbn [chain] in Hc.
  - rewrite Hc. destruct (decide (nunits <= h_size h (h_freep h))) as [Hfit|Hfit].
    + left. apply malloc_take; [done|done|done|apply Hi|lia].
    + right. split; [constructor; [lia|done]|]. by exists prev.
  - destruct Hc as [Hpz Hc]. rewrite Hpz. apply Forall_cons in Hin as Hin'. destruct Hin' as [Hz _].
    apply not_elem_of_cons in Hnf as [Hzf Hnf].
    destruct (decide (nunits <= h_size h z)) as [Hfit|Hfit]; [left; by apply malloc_take|].
    assert (Hstep : malloc_loop nunits prev z (S fuel) h = malloc_loop nunits z (h_ptr h z) fuel h).
    { cbn [malloc_loop]. unfold size_of, ptr_of, gets. erewrite bind_run by done. destruct (Z.leb_spec nunits (h_size h z)); [lia|].
      erewrite bind_run by done. destruct (Z.eqb_spec z (h_freep h)); [congruence|]. by erewrite bind_run by done. }
    rewrite Hstep. destruct (IH z fuel) as [?|[Hall [prev' Hp']]]; [done|done|done|cbn in Hf; lia|by left|].
    right. split; [constructor; [lia|done]|]. by exists prev'.
Qed.

Lemma ring_from_freep ts h : heap_inv ts h → ∃ l, chain (h_ptr h) (h_freep h) l (h_freep h) ∧
  Forall (λ a, a ∈ ring ts) (h_freep h :: l) ∧ (h_freep h ∉ l) ∧ (length l ≤ length ts)%nat ∧ (∀ a, a ∈ frees ts → a ∈ l ++ [h_freep h]).
Proof.
  intros Hi. destruct (chain_rotate _ _ _ _ (hi_ring _ _ Hi) (hi_freep _ _ Hi)) as (l & Hc & Hp). exists l. split; [done|].
  pose proof (ring_NoDup _ _ Hi) as Hnd. rewrite (Permutation_app_comm _ [base]) in Hnd. cbn in Hnd. rewrite <-Hp in Hnd.
  split; [apply Forall_forall; intros a Ha; unfold ring; by rewrite <-Hp|]. split; [by apply NoDup_cons in Hnd as [? _]|]. split.
  - apply Permutation_length in Hp. cbn in Hp. pose proof (length_frees ts). lia.
  - intros a Ha. rewrite (Permutation_app_comm l). cbn. rewrite Hp. by right.
Qed.
Lemma malloc_loop_fits why ts h nunits a m fuel : heap_inv ts h → 1 <= nunits → (a, m, false) ∈ ts → nunits <= m → (length ts < fuel)%nat →
  mallocs why ts nunits (malloc_loop nunits (h_freep h) (h_ptr h (h_freep h)) fuel h).
Proof.
  intros Hi Hn Ha Hm Hf. destruct (ring_from_freep ts h Hi) as (l & Hc & Hin & Hnf & Hl & Hall).
  destruct (malloc_scan why ts h nunits l Hi Hn _ fuel Hc Hin Hnf) as [?|[Hno _]]; [lia|done|]. exfalso.
  assert (Has : h_size h a = m) by (pose proof (hi_size _ _ Hi) as Hs; by eapply Forall_forall in Hs; [|exact Ha]).
  eapply Forall_forall in Hno; [|apply Hall, frees_elem; eauto]. cbn in Hno. lia.
Qed.
Lemma malloc_loop_run ts h nunits fuel : heap_inv ts h → 1 <= nunits → nunits * HDR < 2 ^ 31 → (3 * length ts + 8 ≤ fuel)%nat →
  mallocs ((∀ a, a ∈ frees ts → h_size h a < nunits) ∧ refused nunits h) ts nunits (malloc_loop nunits (h_freep h) (h_ptr h (h_freep h)) fuel h).
Proof.
  intros Hi Hn Hlt Hf. destruct (ring_from_freep ts h Hi) as (l & Hc & Hin & Hnf & Hl & Hall).
  set (why := (∀ a, a ∈ frees ts → h_size h a < nunits) ∧ refused nunits h).
  destruct (malloc_scan why ts h nunits l Hi Hn _ fuel Hc Hin Hnf) as [?|[Hno [prev' ->]]]; [lia|done|].
  assert (Hsmall : ∀ a, a ∈ frees ts → h_size h a < nunits) by (intros a Ha%Hall; by eapply Forall_forall in Hno; [|exact Ha]).
  apply Forall_app in Hno as [_ [Hno _]%Forall_cons]. destruct (fuel - length l)%nat as [|fuel'] eqn:Ef; [lia|].
  cbn [malloc_loop]. unfold size_of, ptr_of, gets. erewrite bind_run by done. destruct (Z.leb_spec nunits (h_size h (h_freep h))); [lia|].
  erewrite bind_run by done. rewrite Z.eqb_refl.
  destruct (morecore_run ts h nunits fuel' Hi Hn Hlt) as (r & h' & Hm & Hr); [lia|]. rewrite (bind_run _ _ _ _ _ Hm).
  destruct Hr as [(-> & Hi' & Hrf)|(-> & Hnz & ts' & a & m & Hi' & Hu & Ha & Hge & Hlen)].
  - cbn. exists 0, ts, h'. split; [done|]. split; [done|]. left. by repeat split.
  - destruct (Z.eqb_spec (h_freep h') 0); [done|]. erewrite bind_run by done.
    destruct (malloc_loop_fits why ts' h' nunits a m fuel' Hi' Hn Ha Hge) as (r & ts'' & h'' & Hr & Hi'' & Ho); [lia|].
    exists r, ts'', h''. by rewrite <-Hu.
Qed.

(** ** Programs that use the allocator *)

(** The states that a program reaches by calls of [malloc] and by freeing, in
    any order, pointers that it got and has not freed; with them the pointers
    in use and the sizes asked for. *)
Inductive ureach : list (Z * Z) → uheap → Prop :=
| U_init h : 0 < base < lo → h_freep h = 0 → h_brk h = lo → lo < 2 ^ 32 → ureach [] h
| U_malloc us h fuel nbytes p h' :
    ureach us h → 0 <= nbytes < 2 ^ 31 - 32 → malloc base fuel nbytes h = Ok p h' →
    ureach (if p =? 0 then us else (p, nbytes) :: us) h'
| U_free us1 p n us2 h fuel h' :
    ureach (us1 ++ (p, n) :: us2) h → free fuel p h = Ok tt h' → ureach (us1 ++ us2) h'.

Definition units (nbytes : Z) : Z := u32 ((nbytes + HDR - 1) / HDR + 1).
Lemma units_bounds n : 0 <= n < 2 ^ 31 - 32 → 1 <= units n ∧ n + HDR <= units n * HDR ∧ units n * HDR < 2 ^ 31.
Proof.
  intros Hn. unfold units, HDR. pose proof (Z.div_mod (n + 16 - 1) 16 ltac:(lia)). pose proof (Z.mod_pos_bound (n + 16 - 1) 16 ltac:(lia)).
  rewrite u32_small by lia. lia.
Qed.
Definition block_of (u : Z * Z) : Z * Z := (u.1 - HDR, units u.2).

(** Before the first call there is no list yet. *)
Definition inited (h : uheap) : uheap := set_size base 0 (set_ptr base base (set_freep base h)).
Definition uheap_inv (ts : list tile) (h : uheap) : Prop :=
  h_freep h ≠ 0 ∧ heap_inv ts h ∨ h_freep h = 0 ∧ ts = [] ∧ heap_inv [] (inited h).

Lemma heap_freep ts h : heap_inv ts h → h_freep h ≠ 0.
Proof.
  intros [Hb Ht _ _ _ _ Hp]. apply elem_of_cons in Hp as [->|Hp]; [lia|]. apply frees_bounds in Ht.
  eapply Forall_forall in Ht; [|done]. cbn in Ht. lia.
Qed.
Lemma refused_inited n h : refused n (inited h) → refused n h.
Proof.
  unfold refused, sbrk. intros [h' Hr]. cbn [h_avail h_brk inited set_size set_ptr set_freep] in Hr.
  destruct (h_avail h) as [|[] av]; [eauto| |eauto]. destruct (_ <? _); [|eauto]. injection Hr as -> _. eauto.
Qed.
Lemma malloc_run ts h nbytes fuel : uheap_inv ts h → 0 <= nbytes < 2 ^ 31 - 32 → (3 * length ts + 8 ≤ fuel)%nat →
  mallocs ((∀ a, a ∈ frees ts → h_size h a < units nbytes) ∧ refused (units nbytes) h) ts (units nbytes) (malloc base fuel nbytes h).
Proof.
  intros Hi Hn Hf. destruct (units_bounds nbytes Hn) as (H1 & _ & H2). unfold malloc. cbv zeta. fold (units nbytes).
  unfold ptr_of, gets, modify. erewrite bind_run by done. destruct Hi as [[Hnz Hi]|(Hz & -> & Hi)].
  - destruct (Z.eqb_spec (h_freep h) 0); [done|]. erewrite bind_run by done. erewrite bind_run by done. erewrite bind_run by done.
    by apply malloc_loop_run.
  - rewrite Hz. cbn [Z.eqb]. erewrite bind_run by done. erewrite bind_run by done. erewrite bind_run by done.
    destruct (malloc_loop_run [] (inited h) (units nbytes) fuel Hi H1 H2 Hf) as (r & ts' & h' & Hr & Hi' & Ho). exists r, ts', h'.
    split; [exact Hr|]. split; [exact Hi'|]. destruct Ho as [(H3 & H4 & _ & h2 & H5)|?]; [left|by right].
    split; [done|]. split; [done|]. split; [by intros a ?%not_elem_of_nil|]. apply refused_inited. by exists h2.
Qed.
Lemma used_tile ts b n : (b, n) ∈ useds ts ↔ (b, n, true) ∈ ts.
Proof.
  unfold useds. rewrite list_elem_of_fmap. split.
  - intros ([[b' n'] u] & [= -> ->] & [Hu Ht]%list_elem_of_filter). by cbn in Hu; subst.
  - intros Ht. exists (b, n, true). split; [done|]. by apply list_elem_of_filter.
Qed.
Lemma free_used ts h b n fuel : uheap_inv ts h → (b, n) ∈ useds ts → (2 * length ts + 2 ≤ fuel)%nat →
  ∃ ts' h', free fuel (b + HDR) h = Ok tt h' ∧ heap_inv ts' h' ∧ (b, n) :: useds ts' ≡ₚ useds ts.
Proof.
  intros [[_ Hi]|(_ & -> & _)] Hu Hf; [|by apply not_elem_of_nil in Hu].
  apply used_tile, list_elem_of_split in Hu as (ts1 & ts2 & ->). destruct (free_run _ _ _ _ _ fuel Hi Hf) as (ts' & _ & _ & h' & Hr & Hi' & Hu' & _).
  exists ts', h'. split; [done|]. split; [done|]. rewrite Hu', useds_app, useds_cons. cbn [app]. by rewrite Permutation_middle.
Qed.

(** More fuel does not change what a loop returns. *)
Lemma free_loop_fuel p bp f1 f2 h a h' : (f1 ≤ f2)%nat → free_loop p bp f1 h = Ok a h' → free_loop p bp f2 h = Ok a h'.
Proof.
  revert p f2. induction f1 as [|f1 IH]; intros p f2 Hle; [done|]. destruct f2 as [|f2]; [lia|]. cbn [free_loop].
  unfold ptr_of, gets, mbind, M_bind. repeat case_match; try done. apply IH. lia.
Qed.
Lemma bind_mono {A B} (m m' : M uheap A) (f f' : A → M uheap B) h : (∀ a h1, m h = Ok a h1 → m' h = Ok a h1) →
  (∀ a h1 b h2, f a h1 = Ok b h2 → f' a h1 = Ok b h2) → ∀ b h2, (m ≫= f) h = Ok b h2 → (m' ≫= f') h = Ok b h2.
Proof. intros Hm Hf b h2 Hr. inv_ok Hr as a h1 H1. rewrite (bind_run _ _ _ _ _ (Hm _ _ H1)). by apply Hf. Qed.
Lemma free_fuel ap f1 f2 h u h' : (f1 ≤ f2)%nat → free f1 ap h = Ok u h' → free f2 ap h = Ok u h'.
Proof.
  intros Hle. unfold free. apply bind_mono; [done|]. intros p0 h0. apply bind_mono; [|done]. intros p h1. by apply free_loop_fuel.
Qed.
Lemma morecore_fuel nu f1 f2 h r h' : (f1 ≤ f2)%nat → morecore f1 nu h = Ok r h' → morecore f2 nu h = Ok r h'.
Proof.
  intros Hle. unfold morecore. apply bind_mono; [done|]. intros p h0 r0 h1. destruct (p =? -1); [done|]. apply bind_mono; [done|].
  intros _ h2. apply bind_mono; [|done]. intros ??. by apply free_fuel.
Qed.
Lemma malloc_loop_fuel nunits f1 f2 : (f1 ≤ f2)%nat → ∀ prevp p h r h',
  malloc_loop nunits prevp p f1 h = Ok r h' → malloc_loop nunits prevp p f2 h = Ok r h'.
Proof.
  revert f2. induction f1 as [|f1 IH]; intros f2 Hle prevp p h r h'; [done|]. destruct f2 as [|f2]; [lia|]. cbn [malloc_loop].
  apply bind_mono; [done|]. intros n h0 r0 h1. destruct (nunits <=? n); [done|]. apply bind_mono; [done|]. intros fp h2 r2 h3.
  destruct (p =? fp); [|apply bind_mono; [done|]; intros ????; apply IH; lia]. apply bind_mono; [intros ??; apply morecore_fuel; lia|].
  intros q h4 r4 h5. destruct (q =? 0); [done|]. apply bind_mono; [done|]. intros ????. apply IH. lia.
Qed.
Lemma malloc_fuel nbytes f1 f2 h r h' : (f1 ≤ f2)%nat → malloc base f1 nbytes h = Ok r h' → malloc base f2 nbytes h = Ok r h'.
Proof.
  intros Hle. unfold malloc. do 4 (apply bind_mono; [done|]; intros ? ?). intros ??. by apply malloc_loop_fuel.
Qed.

Lemma uheap_tiled ts h : uheap_inv ts h → 0 < base < lo ∧ tiled lo ts (h_brk h).
Proof. intros [[_ Hi]|(_ & -> & Hi)]; split; apply Hi. Qed.
Lemma ureach_inv us h : ureach us h →
  ∃ ts, uheap_inv ts h ∧ block_of <$> us ≡ₚ useds ts ∧ Forall (λ u, 0 <= u.2 < 2 ^ 31 - 32) us.
Proof.
  induction 1 as [h Hb Hz Hk Hlt|us h fuel nbytes p h' _ (ts & Hi & Hu & Hn) Hnb Hm|us1 p n us2 h fuel h' _ (ts & Hi & Hu & Hn) Hf].
  - exists []. split; [|done]. right. split; [done|]. split; [done|]. split; cbn; try done; [by rewrite Hk|by constructor|by rewrite fn_lookup_insert..|by left].
  - destruct (malloc_run ts h nbytes (fuel + (3 * length ts + 8)) Hi Hnb) as (a & ts' & h2 & Hr & Hi' & Ho); [lia|].
    apply (malloc_fuel _ _ (fuel + (3 * length ts + 8))) in Hm; [|lia]. rewrite Hm in Hr. injection Hr as <- <-.
    exists ts'. split; [left; split; [by eapply heap_freep|done]|]. destruct Ho as [(-> & Ho & _)|(b & -> & Ho)]; [by cbn; rewrite Ho|].
    assert (Hbp : (b, units nbytes) ∈ useds ts') by (rewrite Ho; by left). apply used_tile in Hbp.
    destruct Hi' as [Hb Ht _ _ _ _ _]. apply tiled_bounds in Ht as [_ Ht]. eapply Forall_forall in Ht; [|done]. cbn in Ht.
    destruct (Z.eqb_spec (b + HDR) 0); [unfold HDR in *; lia|]. cbn. rewrite Ho. split; [|by constructor]. unfold block_of at 1. cbn.
    replace (b + HDR - HDR) with b by lia. by rewrite Hu.
  - rewrite fmap_app in Hu. cbn in Hu. unfold block_of at 2 in Hu. cbn in Hu.
    destruct (free_used ts h (p - HDR) (units n) (fuel + (2 * length ts + 2)) Hi) as (ts' & h2 & Hr & Hi' & Hu'); [rewrite <-Hu; apply elem_of_app; right; by left|lia|].
    apply (free_fuel _ _ (fuel + (2 * length ts + 2))) in Hf; [|lia]. replace (p - HDR + HDR) with p in Hr by lia. rewrite Hf in Hr. injection Hr as <-.
    exists ts'. split; [left; split; [by eapply heap_freep|done]|]. rewrite <-Hu', <-Permutation_middle in Hu. apply Permutation_cons_inv in Hu.
    split; [by rewrite fmap_app|]. apply Forall_app in Hn as [? [_ ?]%Forall_cons]. by apply Forall_app.
Qed.

Lemma tiled_disjoint l ts hi b1 n1 u1 b2 n2 u2 : tiled l ts hi → (b1, n1, u1) ∈ ts → (b2, n2, u2) ∈ ts → b1 ≠ b2 →
  b1 + n1 * HDR <= b2 ∨ b2 + n2 * HDR <= b1.
Proof.
  revert l. induction ts as [|[[a n] u] ts IH]; intros l; cbn [tiled]; [by intros _ ?%not_elem_of_nil|]. intros (-> & Hn & Ht) H1 H2 Hne.
  apply tiled_bounds in Ht as Hb. destruct Hb as [_ Hb]. rewrite Forall_forall in Hb.
  apply elem_of_cons in H1 as [[= -> -> ->]|H1], H2 as [[= -> -> ->]|H2]; [done|apply Hb in H2; cbn in H2; lia|apply Hb in H1; cbn in H1; lia|by eapply IH].
Qed.

(** A block on the list of free blocks: one that the pointers lead to from
    [freep], other than the static header. *)
Definition free_block (h : uheap) (a : Z) : Prop := h_freep h ≠ 0 ∧ a ≠ base ∧ ∃ n, a = Nat.iter n (h_ptr h) (h_freep h).

Lemma chain_step ptr b l x : chain ptr b l b → x ∈ b :: l → ptr x ∈ b :: l.
Proof.
  intros Hc Hx. apply (list_elem_of_fmap_2 ptr) in Hx. rewrite (chain_targets _ _ _ _ Hc) in Hx.
  apply elem_of_app in Hx as [Hx|Hx%list_elem_of_singleton]; [by right|rewrite Hx; by left].
Qed.
Lemma chain_reach ptr x l y z : chain ptr x l y → z ∈ l → ∃ n, z = Nat.iter n ptr x.
Proof.
  revert x. induction l as [|w l IH]; intros x; [by intros _ ?%not_elem_of_nil|]. intros [Hw Hc] [->|Hz]%elem_of_cons.
  - by exists 1%nat.
  - destruct (IH w Hc Hz) as [n ->]. exists (S n). by rewrite Nat.iter_succ_r, Hw.
Qed.
(** The free blocks are the free tiles. *)
Lemma free_block_tile ts h a : uheap_inv ts h → free_block h a ↔ a ∈ frees ts.
Proof.
  intros [[Hnz Hi]|(Hz & -> & Hi)]; [|split; [by intros [? _]|by intros ?%not_elem_of_nil]]. split.
  - assert (Hin : ∀ n, Nat.iter n (h_ptr h) (h_freep h) ∈ base :: frees ts).
    { induction n as [|n IH]; [apply Hi|]. rewrite Nat.iter_succ. apply chain_step; [apply Hi|exact IH]. }
    intros (_ & Hne & n & ->). specialize (Hin n). by apply elem_of_cons in Hin as [?|?].
  - intros Ha. destruct (ring_from_freep ts h Hi) as (l & Hc & _ & _ & _ & Hall). split; [done|]. split.
    + intros ->. pose proof (ring_NoDup _ _ Hi) as Hnd. apply NoDup_app in Hnd as (_ & Hd & _). apply (Hd base Ha). by left.
    + specialize (Hall a Ha). apply elem_of_app in Hall as [Hl|Hl%list_elem_of_singleton]; [by eapply chain_reach|by exists 0%nat].
Qed.

Lemma tiled_cover l ts hi x : tiled l ts hi → l <= x < hi → ∃ b n u, (b, n, u) ∈ ts ∧ b <= x < b + n * HDR.
Proof.
  revert l. induction ts as [|[[a n] u] ts IH]; intros l; cbn [tiled]; [lia|]. intros (-> & Hn & Ht) Hx.
  destruct (decide (x < l + n * HDR)) as [Hlt|Hge]; [exists l, n, u; split; [by left|lia]|].
  destruct (IH _ Ht ltac:(lia)) as (b & m & w & Hin & Hb). exists b, m, w. split; [by right|done].
Qed.
Lemma tiled_same l ts hi b n1 u1 n2 u2 : tiled l ts hi → (b, n1, u1) ∈ ts → (b, n2, u2) ∈ ts → n1 = n2 ∧ u1 = u2.
Proof.
  intros Hnd%tiled_NoDup (i & Hi)%list_elem_of_lookup (j & Hj)%list_elem_of_lookup.
  assert (i = j) as -> by (eapply (NoDup_lookup _ _ _ _ Hnd); rewrite list_lookup_fmap, ?Hi, ?Hj; done).
  rewrite Hi in Hj. by injection Hj.
Qed.

(** The memory from [sbrk] between [lo] and the break is made up of the blocks
    in use, each with its header, and the blocks of the free list. *)
Record divided (us : list (Z * Z)) (h : uheap) : Prop := {
  dv_used i j p n q m : us !! i = Some (p, n) → us !! j = Some (q, m) → i ≠ j → p + n <= q - HDR ∨ q + m <= p - HDR;
  dv_inside p n : (p, n) ∈ us → lo + HDR <= p ∧ p + n <= h_brk h;
  dv_free p n a : (p, n) ∈ us → free_block h a → p + n <= a ∨ a + h_size h a * HDR <= p - HDR;
  dv_frees a b : free_block h a → free_block h b → a ≠ b → a + h_size h a * HDR <= b ∨ b + h_size h b * HDR <= a;
  dv_free_inside a : free_block h a → lo <= a ∧ 1 <= h_size h a ∧ a + h_size h a * HDR <= h_brk h;
  dv_all x : lo <= x < h_brk h → (∃ p n, (p, n) ∈ us ∧ p - HDR <= x < p - HDR + units n * HDR) ∨
    ∃ a, free_block h a ∧ a <= x < a + h_size h a * HDR
}.

Lemma tile_divided us ts h : uheap_inv ts h → block_of <$> us ≡ₚ useds ts → Forall (λ u, 0 <= u.2 < 2 ^ 31 - 32) us → divided us h.
Proof.
  intros Hi Hu Hn. pose proof (uheap_tiled _ _ Hi) as [Hb Ht]. pose proof (tiled_bounds _ _ _ Ht) as [_ Hin]. rewrite Forall_forall in Hin.
  assert (Htile : ∀ p n, (p, n) ∈ us → (p - HDR, units n, true) ∈ ts ∧ n + HDR <= units n * HDR).
  { intros p n Hp. split.
    - apply used_tile. rewrite <-Hu. apply list_elem_of_fmap. by exists (p, n).
    - eapply Forall_forall in Hn; [|done]. by apply units_bounds. }
  assert (Hfree : ∀ a, free_block h a → (a, h_size h a, false) ∈ ts).
  { intros a Ha. apply (free_block_tile ts) in Ha; [|done]. apply frees_elem in Ha as [m Hm].
    enough (h_size h a = m) as -> by done. destruct Hi as [[_ Hi]|(_ & -> & _)]; [|by apply not_elem_of_nil in Hm].
    pose proof (hi_size _ _ Hi) as Hs. by eapply Forall_forall in Hs; [|exact Hm]. }
  split.
  - intros i j p n q m Hi1 Hj1 Hij. destruct (Htile p n) as [Htp Hp]; [by eapply list_elem_of_lookup_2|].
    destruct (Htile q m) as [Htq Hq]; [by eapply list_elem_of_lookup_2|].
    assert (Hne : p - HDR ≠ q - HDR).
    { intros He. apply Hij. eapply (NoDup_lookup (fst <$> (block_of <$> us))); [|by rewrite !list_lookup_fmap, Hi1|].
      - rewrite Hu. eapply sublist_NoDup; [by eapply tiled_NoDup|]. unfold useds. rewrite <-list_fmap_compose. by apply fmap_sublist, sublist_filter.
      - rewrite !list_lookup_fmap, Hj1. cbn. by rewrite He. }
    destruct (tiled_disjoint _ _ _ _ _ _ _ _ _ Ht Htp Htq Hne); [left|right]; lia.
  - intros p n [Htp Hp]%Htile. apply Hin in Htp. cbn in Htp. lia.
  - intros p n a [Htp Hp]%Htile Hta%Hfree. destruct (decide (a = p - HDR)) as [->|Hne].
    + by destruct (tiled_same _ _ _ _ _ _ _ _ Ht Htp Hta).
    + destruct (tiled_disjoint _ _ _ _ _ _ _ _ _ Ht Hta Htp Hne); [right|left]; lia.
  - intros a b Ha%Hfree Hb'%Hfree Hne. by apply (tiled_disjoint _ _ _ _ _ _ _ _ _ Ht Ha Hb').
  - intros a Ha%Hfree%Hin. cbn in Ha. lia.
  - intros x Hx. destruct (tiled_cover _ _ _ _ Ht Hx) as (b & n & [] & Hbn & Hbx).
    + left. apply used_tile in Hbn. rewrite <-Hu in Hbn. apply list_elem_of_fmap in Hbn as ([p m] & [= -> ->] & Hp). by exists p, m.
    + right. exists b. assert (Hfb : free_block h b) by (apply (free_block_tile ts); [done|]; apply frees_elem; by exists n).
      split; [done|]. by destruct (tiled_same _ _ _ _ _ _ _ _ Ht Hbn (Hfree b Hfb)) as [<- _].
Qed.

(** C27: the allocator of user programs is safe.  In every state that a program
    reaches by calls of [malloc] for less than 2 GB and by [free], the memory
    from [sbrk] is divided among the blocks in use and the blocks of the free
    list: no two of them overlap, not even with the header of the other, none
    is lost, and every block in use has the size that was asked for.  The next
    [malloc] returns, with a null pointer only when no block of the free list
    is large enough and [sbrk] refuses more; a [free] of a block in use
    returns. *)
Theorem malloc_safe us h : ureach us h →
  divided us h ∧
  ∃ enough, ∀ fuel, (enough ≤ fuel)%nat →
    (∀ nbytes, 0 <= nbytes < 2 ^ 31 - 32 → ∃ p h', malloc base fuel nbytes h = Ok p h' ∧
       (p = 0 → (∀ a, free_block h a → h_size h a < units nbytes) ∧ refused (units nbytes) h)) ∧
    (∀ p n, (p, n) ∈ us → ∃ h', free fuel p h = Ok tt h').
Proof.
  intros (ts & Hi & Hu & Hn)%ureach_inv. split; [by eapply tile_divided|].
  exists (3 * length ts + 8)%nat. intros fuel Hf. split.
  - intros nb Hnb. destruct (malloc_run ts h nb fuel Hi Hnb Hf) as (a & ts' & h' & Hr & Hi' & Ho). exists a, h'. split; [exact Hr|].
    intros ->. destruct Ho as [(_ & _ & Hsmall & Href)|(b & Hb & Ho)].
    + split; [|exact Href]. intros a Ha. apply Hsmall. by apply (free_block_tile ts h).
    + exfalso. assert (Hbt : (b, units nb) ∈ useds ts') by (rewrite Ho; by left). apply used_tile in Hbt.
      destruct Hi' as [Hbl Ht' _ _ _ _ _]. apply tiled_bounds in Ht' as [_ Ht']. eapply Forall_forall in Ht'; [|exact Hbt]. cbn in Ht'. unfold HDR in *. lia.
  - intros p n Hin. destruct (free_used ts h (p - HDR) (units n) fuel Hi) as (_ & h' & Hr & _); [|lia|].
    + rewrite <-Hu. apply list_elem_of_fmap. by exists (p, n).
    + exists h'. by replace (p - HDR + HDR) with p in Hr by lia.
Qed.
End safety.

(** Two blocks from a first call of [sbrk]. *)
Definition heap0 : uheap := mkHeap (λ _, 0) (λ _, 0) 0 8192 [true].
Definition heap_after {A} (r : res uheap A) : uheap := match r with Ok _ h => h | _ => heap0 end.
Definition heap1 : uheap := heap_after (malloc 4096 20 100 heap0).
Definition heap2 : uheap := heap_after (malloc 4096 20 200 heap1).
Definition code {A} (r : res uheap A) : option A := match r with Ok a _ => Some a | _ => None end.
Lemma heap_after_ok {A} (r : res uheap A) a : code r = Some a → r = Ok a (heap_after r).
Proof. by destruct r; intros [= <-]. Qed.

(** Both blocks, and what is left of the 64 KB, which is free. *)
Lemma malloc_safe_witness :
  (73616 + 100 <= 73392 - HDR ∨ 73392 + 200 <= 73616 - HDR) ∧
  free_block 4096 heap2 8192 ∧ (73392 + 200 <= 8192 ∨ 8192 + h_size heap2 8192 * HDR <= 73392 - HDR).
Proof.
  assert (H2 : ureach 4096 8192 [(73392, 200); (73616, 100)] heap2).
  { apply (U_malloc _ _ [(73616, 100)] heap1 20 200 73392); [|lia|apply heap_after_ok; vm_compute; reflexivity].
    apply (U_malloc _ _ [] heap0 20 100 73616); [|lia|apply heap_after_ok; vm_compute; reflexivity]. apply U_init; try done; lia. }
  destruct (malloc_safe 4096 8192 _ _ H2) as [Hd _].
  assert (Hfb : free_block 4096 heap2 8192) by (split; [discriminate|split; [discriminate|exists 1%nat; vm_compute; reflexivity]]).
  split; [exact (dv_used _ _ _ _ Hd 1 0 _ _ _ _ eq_refl eq_refl ltac:(discriminate))|]. split; [exact Hfb|].
  apply (dv_free _ _ _ _ Hd 73392 200 8192); [left|exact Hfb].
Defined.

(** A request near 4 GB asks [sbrk] for nothing and returns memory past the
    break: the number of bytes does not fit an [int]. *)
Lemma malloc_wraps : ∃ p h', malloc 4096 20 (2 ^ 32 - 16) heap0 = Ok p h' ∧ p ≠ 0 ∧ h_brk h' = 8192 ∧ 8192 < p + 2 ^ 32 - 16.
Proof.
  eexists _, (heap_after (malloc 4096 20 (2 ^ 32 - 16) heap0)). split; [apply heap_after_ok; vm_compute; reflexivity|].
  split_and!; vm_compute; done.
Qed.
