(* ===== verification/Mp.v ===== *)
(** * Mp: the search for processors

    kernel/mp.c and kernel/acpi.c: the MP floating pointer and its
    configuration table, and the ACPI tables, read from the memory that the
    firmware left.  The theorem is about the configuration table: whatever
    processors, I/O APICs and other entries it lists, [mpinit]'s loop records
    exactly them. *)

From stdpp Require Import prelude functions gmap strings.
From S2P Require Import Prelude Types Spinlock Sched Cstr Kalloc Cprintf Intr Vm.
Open Scope Z_scope.

Definition DEVBASE : Z := 0xFFFFFFFF40000000.
Definition IO2V (a : Z) : Z := u64 (a + DEVBASE - DEVSPACE).

(** ** Reading the tables *)

Definition mem8 (a : Z) : K Z := km ← getkm; mret (km_mem km a).
Definition mem_le (a n : Z) : K Z := km ← getkm; mret (le_get (mget_bytes (km_mem km) a n)).
Definition mem_is (a : Z) (s : list Z) : K bool :=
  km ← getkm;
  mret (memcmp (λ i, km_mem km (a + i)) (cells s) (Z.of_nat (length s)) =? 0).

(** [cpus[i] = ...]; the array has NCPU elements. *)
Definition set_cpu (i id apicid : Z) : K unit :=
  p ← getplat;
  if (0 <=? i) && (i <? Z.of_nat (length (cpus p))) then updplat (set_cpus (<[Z.to_nat i := (id, apicid)]> (cpus p)))
  else fault.

(** ** mp.c *)

Definition MPBOOT : Z := 2.
Definition MPPROC : Z := 0.
Definition MPBUS : Z := 1.
Definition MPIOAPIC : Z := 2.
Definition MPIOINTR : Z := 3.
Definition MPLINTR : Z := 4.

(** [sizeof] of the structures. *)
Definition MP_SIZE : Z := 16.
Definition MPCONF_SIZE : Z := 44.
Definition MPPROC_SIZE : Z := 20.
Definition MPIOAPIC_SIZE : Z := 8.

Definition mpbcpu : K Z := p ← getplat; mret (bcpu p).

Definition sum_bytes (addr len : Z) : K Z :=
  km ← getkm;
  mret (u8 (foldl Z.add 0 (mget_bytes (km_mem km) addr len))).

(** The address of the structure, or 0. *)
Fixpoint mpsearch1_loop (p : Z) (n : nat) : K Z :=
  match n with
  | O => mret 0
  | S n =>
      b ← mem_is p (str "_MP_");
      s ← sum_bytes p MP_SIZE;
      if b && (s =? 0) then mret p else mpsearch1_loop (p + MP_SIZE) n
  end.
Definition mpsearch1 (a len : Z) : K Z := mpsearch1_loop (p2v a) (Z.to_nat ((len + MP_SIZE - 1) / MP_SIZE)).

Definition mpsearch : K Z :=
  let bda := p2v 0x400 in
  b1 ← mem8 (bda + 0x0F);
  b0 ← mem8 (bda + 0x0E);
  let p := Z.shiftl (Z.lor (Z.shiftl b1 8) b0) 4 in
  mp ← (if negb (p =? 0) then mpsearch1 p 1024 else
        b1 ← mem8 (bda + 0x14);
        b0 ← mem8 (bda + 0x13);
        let p := Z.lor (Z.shiftl b1 8) b0 * 1024 in
        mpsearch1 (u32 (p - 1024)) 1024);
  if negb (mp =? 0) then mret mp else mpsearch1 0xF0000 0x10000.

(** The configuration table and the floating pointer. *)
Definition mpconfig : K (option (Z * Z)) :=
  mp ← mpsearch;
  if mp =? 0 then mret None else
  physaddr ← mem_le (mp + 4) 4;
  if physaddr =? 0 then mret None else
  let conf := p2v physaddr in
  b ← mem_is conf (str "PCMP");
  if negb b then mret None else
  version ← mem8 (conf + 6);
  if negb (version =? 1) && negb (version =? 4) then mret None else
  length ← mem_le (conf + 4) 2;
  s ← sum_bytes conf length;
  if negb (s =? 0) then mret None else
  mret (Some (conf, mp)).

Fixpoint mpinit_loop (p e : Z) (fuel : nat) : K unit :=
  if p <? e then
    match fuel with
    | O => spin
    | S fuel =>
        type ← mem8 p;
        if type =? MPPROC then
          apicid ← mem8 (p + 1);
          flags ← mem8 (p + 3);
          pl ← getplat;
          cprintf (Some (str "mpinit ncpu=%d apicid=%d" ++ [10])) [AInt (ncpu pl); AInt apicid];;
          when (negb (Z.land flags MPBOOT =? 0)) (updplat (set_bcpu (ncpu pl)));;
          set_cpu (ncpu pl) (u8 (ncpu pl)) apicid;;
          updplat (set_ncpu (ncpu pl + 1));;
          mpinit_loop (p + MPPROC_SIZE) e fuel
        else if type =? MPIOAPIC then
          apicno ← mem8 (p + 1);
          updplat (set_ioapicid apicno);;
          mpinit_loop (p + MPIOAPIC_SIZE) e fuel
        else if (type =? MPBUS) || (type =? MPIOINTR) || (type =? MPLINTR) then
          mpinit_loop (p + 8) e fuel
        else
          cprintf (Some (str "mpinit: unknown config type %x" ++ [10])) [AInt type];;
          updplat (set_ismp false);;
          mpinit_loop p e fuel
    end
  else mret tt.

(** Reading the IMCR is [imcr]. *)
Definition mpinit (imcr : Z) (fuel : nat) : K unit :=
  updplat (set_bcpu 0);;
  c ← mpconfig;
  match c with
  | None => mret tt
  | Some (conf, mp) =>
      updplat (set_ismp true);;
      lapicaddr ← mem_le (conf + 36) 4;
      updplat (set_lapic (IO2V lapicaddr));;
      length ← mem_le (conf + 4) 2;
      mpinit_loop (conf + MPCONF_SIZE) (conf + length) fuel;;
      pl ← getplat;
      if negb (ismp pl) then
        updplat (set_ncpu 1);;
        updplat (set_lapic 0);;
        updplat (set_ioapicid 0)
      else
        imcrp ← mem8 (mp + 12);
        when (negb (imcrp =? 0)) (
          port_out 0x22 0x70;;
          port_out 0x23 (Z.lor imcr 1))
  end.

(** ** acpi.c *)

Definition PHYSLIMIT : Z := 0x80000000.
Definition TYPE_LAPIC : Z := 0.
Definition TYPE_IOAPIC : Z := 1.
Definition APIC_LAPIC_ENABLED : Z := 1.

(** [sizeof] of the structures. *)
Definition RDSP_SIZE : Z := 36.
Definition DESC_HEADER_SIZE : Z := 36.
Definition MADT_SIZE : Z := 44.
Definition MADT_LAPIC_SIZE : Z := 8.
Definition MADT_IOAPIC_SIZE : Z := 12.

(** [n] is the number of places that are left. *)
Fixpoint scan_rdsp_loop (p : Z) (n : nat) : K Z :=
  match n with
  | O => mret 0
  | S n =>
      b ← mem_is p (str "RSD PTR ");
      km ← getkm;
      let sum := u32 (foldl Z.add 0 (mget_bytes (km_mem km) p 20)) in
      if b && (Z.land sum 0xff =? 0) then mret p else scan_rdsp_loop (p + 4) n
  end.
Definition scan_rdsp (base len : Z) : K Z := scan_rdsp_loop (p2v base) (Z.to_nat ((len - RDSP_SIZE) / 4 + 1)).

Definition find_rdsp : K Z :=
  w ← mem_le (p2v 0x40E) 2;
  let pa := Z.shiftl w 4 in
  rdsp ← (if negb (pa =? 0) then scan_rdsp pa 1024 else mret 0);
  if negb (rdsp =? 0) then mret rdsp else scan_rdsp 0xE0000 0x20000.

Definition madt_lapic_entry (p len : Z) : K unit :=
  if len <? MADT_LAPIC_SIZE then mret tt else
  flags ← mem_le (p + 4) 4;
  if Z.land flags APIC_LAPIC_ENABLED =? 0 then mret tt else
  apic_id ← mem8 (p + 3);
  pl ← getplat;
  cprintf (Some (str "acpi: cpu#%d apicid %d" ++ [10])) [AInt (ncpu pl); AInt apic_id];;
  set_cpu (ncpu pl) (u8 (ncpu pl)) apic_id;;
  updplat (set_ncpu (ncpu pl + 1)).
(** Returns [nioapic]. *)
Definition madt_ioapic_entry (p len nioapic : Z) : K Z :=
  if len <? MADT_IOAPIC_SIZE then mret nioapic else
  id ← mem8 (p + 2);
  addr ← mem_le (p + 4) 4;
  base ← mem_le (p + 8) 4;
  cprintf (Some (str "acpi: ioapic#%d @%x id=%d base=%d" ++ [10])) [AInt nioapic; AInt addr; AInt id; AInt base];;
  (if negb (nioapic =? 0) then cprintf (Some (str "warning: multiple ioapics are not supported")) []
   else updplat (set_ioapicid id));;
  mret (nioapic + 1).

Fixpoint madt_loop (p e nioapic : Z) (fuel : nat) : K unit :=
  if p <? e then
    if e - p <? 2 then mret tt else
    len ← mem8 (p + 1);
    if e - p <? len then mret tt else
    match fuel with
    | O => spin
    | S fuel =>
        type ← mem8 p;
        nioapic ← (
          if type =? TYPE_LAPIC then madt_lapic_entry p len;; mret nioapic
          else if type =? TYPE_IOAPIC then madt_ioapic_entry p len nioapic
          else mret nioapic);
        madt_loop (p + len) e nioapic fuel
    end
  else mret tt.

(** [madt] is the address of the table, 0 if there is none. *)
Definition acpi_config_smp (madt : Z) (fuel : nat) : K Z :=
  if madt =? 0 then mret (-1) else
  length ← mem_le (madt + 4) 4;
  if length <? MADT_SIZE then mret (-1) else
  lapic_addr ← mem_le (madt + 36) 4;
  let p := madt + MADT_SIZE in
  madt_loop p (p + length - MADT_SIZE) 0 fuel;;
  pl ← getplat;
  if negb (ncpu pl =? 0) then
    updplat (set_ismp true);;
    updplat (set_lapic (IO2V lapic_addr));;
    mret 0
  else mret (-1).

(** The table found last, or nothing if one is not mapped. *)
Fixpoint rsdt_loop (rsdt madt n : Z) (cnt : nat) : K (option Z) :=
  match cnt with
  | O => mret (Some madt)
  | S cnt =>
      entry ← mem_le (rsdt + DESC_HEADER_SIZE + 4 * n) 4;
      let hdr := p2v entry in
      if PHYSLIMIT <? entry then mret None else
      b ← mem_is hdr (str "APIC");
      rsdt_loop rsdt (if b : bool then hdr else madt) (n + 1) cnt
  end.

(** Without a root pointer the null pointer is used. *)
Definition acpiinit (fuel : nat) : K Z :=
  rdsp ← find_rdsp;
  if rdsp =? 0 then fault else
  rsdt_addr_phys ← mem_le (rdsp + 16) 4;
  let notmapped :=
    cprintf (Some (str "acpi: tables above 0x%x not mapped." ++ [10])) [AInt PHYSLIMIT];; mret (-1) in
  if PHYSLIMIT <? rsdt_addr_phys then notmapped else
  let rsdt := p2v rsdt_addr_phys in
  length ← mem_le (rsdt + 4) 4;
  let count := u32 (u64 (length - DESC_HEADER_SIZE) / 4) in
  r ← rsdt_loop rsdt 0 0 (Z.to_nat count);
  match r with
  | None => notmapped
  | Some madt => acpi_config_smp madt fuel
  end.

(** ** What the table says *)

(** The entries of a configuration table: a processor with its local APIC and
    flags, an I/O APIC, and the entries that are skipped. *)
Inductive mp_entry :=
| EProc (apicid version flags : Z) (rest : list Z)
| EIoapic (apicno : Z) (rest : list Z)
| EOther (type : Z) (rest : list Z).
Definition entry_ok (e : mp_entry) : Prop :=
  match e with
  | EProc _ _ _ rest => length rest = 16%nat
  | EIoapic _ rest => length rest = 6%nat
  | EOther type rest => (type = MPBUS ∨ type = MPIOINTR ∨ type = MPLINTR) ∧ length rest = 7%nat
  end.
Definition entry_bytes (e : mp_entry) : list Z :=
  match e with
  | EProc apicid version flags rest => [MPPROC; apicid; version; flags] ++ rest
  | EIoapic apicno rest => [MPIOAPIC; apicno] ++ rest
  | EOther type rest => type :: rest
  end.
Definition table_bytes (es : list mp_entry) : list Z := concat (entry_bytes <$> es).

Fixpoint procs (es : list mp_entry) : list (Z * Z) :=
  match es with
  | [] => []
  | EProc apicid _ flags _ :: es => (apicid, flags) :: procs es
  | _ :: es => procs es
  end.
Fixpoint last_ioapic (es : list mp_entry) (d : Z) : Z :=
  match es with
  | [] => d
  | EIoapic apicno _ :: es => last_ioapic es apicno
  | _ :: es => last_ioapic es d
  end.
(** The last processor marked as the bootstrap processor, counting from [i]. *)
Fixpoint boot_index (ps : list (Z * Z)) (i d : Z) : Z :=
  match ps with
  | [] => d
  | (_, flags) :: ps => boot_index ps (i + 1) (if Z.land flags MPBOOT =? 0 then d else i)
  end.
(** Processors [i] and up filled in. *)
Fixpoint fill_cpus (ps : list (Z * Z)) (i : Z) (l : list (Z * Z)) : list (Z * Z) :=
  match ps with
  | [] => l
  | (apicid, _) :: ps => fill_cpus ps (i + 1) (<[Z.to_nat i := (u8 i, apicid)]> l)
  end.
Definition recorded (es : list mp_entry) (p : platform) : platform :=
  set_cpus (fill_cpus (procs es) (ncpu p) (cpus p))
    (set_ncpu (ncpu p + Z.of_nat (length (procs es)))
       (set_bcpu (boot_index (procs es) (ncpu p) (bcpu p))
          (set_ioapicid (last_ioapic es (ioapicid p)) p))).

Lemma length_entry e : entry_ok e → Z.of_nat (length (entry_bytes e)) = match e with EProc _ _ _ _ => MPPROC_SIZE | _ => 8 end.
Proof. destruct e; cbn; unfold MPPROC_SIZE; lia. Qed.
Lemma mget_bytes_app m a l1 l2 : mget_bytes m a (Z.of_nat (length (l1 ++ l2))) = l1 ++ l2 →
  mget_bytes m a (Z.of_nat (length l1)) = l1 ∧ mget_bytes m (a + Z.of_nat (length l1)) (Z.of_nat (length l2)) = l2.
Proof.
  unfold mget_bytes. rewrite length_app, Nat2Z.inj_add, seqZ_app by lia. rewrite fmap_app. intros He.
  apply app_inj_1 in He; [done|]. rewrite length_fmap, length_seqZ. lia.
Qed.
Lemma mget_bytes_lookup m a l i x : mget_bytes m a (Z.of_nat (length l)) = l → l !! i = Some x → m (a + Z.of_nat i) = x.
Proof.
  unfold mget_bytes. intros He Hi. rewrite <-He in Hi. rewrite list_lookup_fmap in Hi.
  apply fmap_Some in Hi as (y & Hy & ->). apply lookup_seqZ in Hy as [-> _]. done.
Qed.

(** The console can be written to. *)
Definition quiet (k : kernel) : Prop := ∃ L pr, at_mach L pr (k_mach k) ∧ (L_cons ∉ L) ∧ panicked (k_cons k) = false.
Lemma wp_print fmt ap k E (Q : unit → kernel → Prop) : quiet k → args_ok fmt ap = true →
  (∀ k1, quiet k1 → k_plat k1 = k_plat k → k_kmem k1 = k_kmem k → Q tt k1) → wp (cprintf (Some fmt) ap) E Q k.
Proof.
  intros (L & pr & Hm & HL & Hp) Hok HQ. eapply outputs_cprintf; [done|done| |done|]; [by intros lk ->%list_elem_of_singleton|].
  intros k1 (Hm1 & Hs & m & c & ->). apply HQ; [|done|done]. exists L, pr. split_and!; [done|done|]. by rewrite (sc_panicked _ _ Hs).
Qed.

Lemma wp_mem8 a k E (Q : Z → kernel → Prop) : Q (km_mem (k_kmem k) a) k → wp (mem8 a) E Q k.
Proof. intros HQ. unfold mem8, getkm. wp_steps. done. Qed.
Lemma wp_getplat k E (Q : platform → kernel → Prop) : Q (k_plat k) k → wp getplat E Q k.
Proof. intros HQ. unfold getplat. by wp_steps. Qed.
Lemma wp_updplat f k E (Q : unit → kernel → Prop) : Q tt (set_plat (f (k_plat k)) k) → wp (updplat f) E Q k.
Proof. intros HQ. unfold updplat. by wp_steps. Qed.
Lemma wp_set_cpu i id apicid k E (Q : unit → kernel → Prop) : 0 <= i < Z.of_nat (length (cpus (k_plat k))) →
  Q tt (set_plat (set_cpus (<[Z.to_nat i := (id, apicid)]> (cpus (k_plat k))) (k_plat k)) k) → wp (set_cpu i id apicid) E Q k.
Proof.
  intros Hi HQ. unfold set_cpu. apply wp_bind, wp_getplat. destruct (Z.leb_spec 0 i); [|lia]. destruct (Z.ltb_spec i (Z.of_nat (length (cpus (k_plat k))))); [|lia].
  by apply wp_updplat.
Qed.
Lemma quiet_plat p k : quiet k → quiet (set_plat p k).
Proof. done. Qed.

Definition table_at (k : kernel) (p : Z) (l : list Z) : Prop := mget_bytes (km_mem (k_kmem k)) p (Z.of_nat (length l)) = l.
Lemma wp_entry8 {A} k p l i x (f : Z → K A) E Q : table_at k p l → l !! i = Some x → wp (f x) E Q k → wp (y ← mem8 (p + Z.of_nat i); f y) E Q k.
Proof. intros Ht Hi Hf. apply wp_bind, wp_mem8. by rewrite (mget_bytes_lookup _ _ _ _ _ Ht Hi). Qed.

Lemma recorded_proc apicid version flags rest es p :
  recorded es (set_ncpu (ncpu p + 1) (set_cpus (<[Z.to_nat (ncpu p) := (u8 (ncpu p), apicid)]> (cpus p))
    (set_bcpu (if Z.land flags MPBOOT =? 0 then bcpu p else ncpu p) p))) = recorded (EProc apicid version flags rest :: es) p.
Proof.
  unfold recorded. cbn [procs length last_ioapic]. rewrite Nat2Z.inj_succ.
  replace (ncpu p + Z.succ (Z.of_nat (length (procs es)))) with (ncpu p + 1 + Z.of_nat (length (procs es))) by lia. by destruct p.
Qed.
Lemma mpinit_loop_records es : ∀ k p fuel E (Q : unit → kernel → Prop), quiet k → table_at k p (table_bytes es) → Forall entry_ok es →
  0 <= ncpu (k_plat k) → ncpu (k_plat k) + Z.of_nat (length (procs es)) <= Z.of_nat (length (cpus (k_plat k))) → (length es ≤ fuel)%nat →
  (∀ k', quiet k' → k_kmem k' = k_kmem k → k_plat k' = recorded es (k_plat k) → Q tt k') →
  wp (mpinit_loop p (p + Z.of_nat (length (table_bytes es))) fuel) E Q k.
Proof.
  induction es as [|e es IH]; intros k p fuel E Q Hq Ht Hok Hn0 Hn Hf HQ.
  { destruct fuel; cbn [mpinit_loop table_bytes]; (destruct (Z.ltb_spec p (p + Z.of_nat (length (table_bytes [])))); [cbn in *; lia|]);
      apply wp_ret; (apply HQ; [done|done|]); unfold recorded; cbn; rewrite Z.add_0_r; by destruct (k_plat k). }
  apply Forall_cons in Hok as [He Hok]. destruct fuel as [|fuel]; [cbn in Hf; lia|]. cbn [mpinit_loop].
  pose proof (length_entry e He) as Hlen. change (table_bytes (e :: es)) with (entry_bytes e ++ table_bytes es) in *.
  destruct (mget_bytes_app _ _ _ _ Ht) as [Hte Htr]. rewrite length_app, Nat2Z.inj_add. rewrite Z.add_assoc.
  destruct (Z.ltb_spec p (p + Z.of_nat (length (entry_bytes e)) + Z.of_nat (length (table_bytes es)))); [|destruct e; unfold MPPROC_SIZE in *; lia].
  destruct e as [apicid version flags rest|apicno rest|type rest].
  - rewrite <-(Z.add_0_r p) at 1. eapply (wp_entry8 _ _ _ 0); [exact Hte|done|]. cbn [Z.eqb]. change (MPPROC =? MPPROC) with true. cbv iota.
    eapply (wp_entry8 _ _ _ 1); [exact Hte|done|]. eapply (wp_entry8 _ _ _ 3); [exact Hte|done|].
    apply wp_bind, wp_getplat, wp_bind. eapply wp_print; [done|done|]. intros k1 Hq1 Hp1 Hm1. apply wp_bind.
    rewrite Hlen in *. cbn [procs length] in Hn.
    apply (wp_post _ _ (λ _ k2, quiet k2 ∧ k_kmem k2 = k_kmem k ∧
      k_plat k2 = set_bcpu (if Z.land flags MPBOOT =? 0 then bcpu (k_plat k) else ncpu (k_plat k)) (k_plat k))).
    { destruct (Z.land flags MPBOOT =? 0); cbn [negb when]; [apply wp_ret|apply wp_updplat]; (split_and!; [done|done|]); cbn; rewrite Hp1; [by destruct (k_plat k)|done]. }
    intros [] k2 (Hq2 & Hm2 & Hp2). apply wp_bind, wp_set_cpu; [rewrite Hp2; cbn; lia|]. apply wp_bind, wp_updplat. rewrite Hp2. apply IH.
    + done.
    + unfold table_at. cbn. by rewrite Hm2.
    + done.
    + cbn. lia.
    + cbn. rewrite length_insert. lia.
    + cbn in Hf. lia.
    + intros k' Hq' Hm' Hp'. apply HQ; [done|by rewrite Hm'; cbn|]. rewrite Hp'. exact (recorded_proc apicid version flags rest es (k_plat k)).
  - rewrite <-(Z.add_0_r p) at 1. eapply (wp_entry8 _ _ _ 0); [exact Hte|done|].
    change (MPIOAPIC =? MPPROC) with false. change (MPIOAPIC =? MPIOAPIC) with true. cbv iota.
    eapply (wp_entry8 _ _ _ 1); [exact Hte|done|]. apply wp_bind, wp_updplat. rewrite Hlen in *. apply IH; [done|exact Htr|done|done|done|cbn in Hf; lia|].
    intros k' Hq' Hm' Hp'. by apply HQ; [done|..].
  - rewrite <-(Z.add_0_r p) at 1. eapply (wp_entry8 _ _ _ 0); [exact Hte|done|]. destruct He as [Hty _].
    replace (type =? MPPROC) with false by (destruct Hty as [->|[->| ->]]; done). replace (type =? MPIOAPIC) with false by (destruct Hty as [->|[->| ->]]; done).
    replace (_ || _ || _) with true by (destruct Hty as [->|[->| ->]]; done). rewrite Hlen in *. apply IH; try done. cbn in Hf. lia.
Qed.

(** The search only reads. *)
Definition reads {A} (m : K A) : Prop := ∀ k k', k_kmem k = k_kmem k' → ∃ a, m k = Ok a k ∧ m k' = Ok a k'.
Lemma reads_ret {A} (a : A) : reads (mret a).
Proof. intros k k' _. by exists a. Qed.
Lemma reads_bind {A B} (m : K A) (f : A → K B) : reads m → (∀ a, reads (f a)) → reads (m ≫= f).
Proof.
  intros Hm Hf k k' Hk. destruct (Hm k k' Hk) as (a & H1 & H2). destruct (Hf a k k' Hk) as (b & H3 & H4).
  exists b. by rewrite (bind_run _ _ _ _ _ H1), (bind_run _ _ _ _ _ H2).
Qed.
Lemma reads_getkm : reads getkm.
Proof. intros k k' Hk. exists (k_kmem k). unfold getkm, gets. split; [done|]. by rewrite Hk. Qed.
Lemma reads_mem8 a : reads (mem8 a).
Proof. apply reads_bind; [apply reads_getkm|intros; apply reads_ret]. Qed.
Lemma reads_mem_le a n : reads (mem_le a n).
Proof. apply reads_bind; [apply reads_getkm|intros; apply reads_ret]. Qed.
Lemma reads_mem_is a s : reads (mem_is a s).
Proof. apply reads_bind; [apply reads_getkm|intros; apply reads_ret]. Qed.
Lemma reads_sum a n : reads (sum_bytes a n).
Proof. apply reads_bind; [apply reads_getkm|intros; apply reads_ret]. Qed.
Ltac reads_step := lazymatch goal with
  | |- reads (mret _) => apply reads_ret
  | |- reads (mem8 _) => apply reads_mem8
  | |- reads (mem_le _ _) => apply reads_mem_le
  | |- reads (mem_is _ _) => apply reads_mem_is
  | |- reads (sum_bytes _ _) => apply reads_sum
  | |- reads (_ ≫= _) => apply reads_bind; [|intros ?]
  | |- reads (if _ then _ else _) => case_match
  end.
Ltac reads_tac := repeat reads_step.
Lemma reads_mpsearch1 a len : reads (mpsearch1 a len).
Proof. unfold mpsearch1. generalize (p2v a). induction (Z.to_nat _) as [|n IH]; intros p; cbn [mpsearch1_loop]; reads_tac; apply IH. Qed.
Lemma reads_mpsearch : reads mpsearch.
Proof. unfold mpsearch. cbv zeta. reads_tac; apply reads_mpsearch1. Qed.
Lemma reads_mpconfig : reads mpconfig.
Proof. unfold mpconfig. apply reads_bind; [apply reads_mpsearch|intros ?]. reads_tac. Qed.

Lemma wp_reads {A} (m : K A) a k k' E (Q : A → kernel → Prop) : reads m → k_kmem k' = k_kmem k → m k = Ok a k → Q a k' → wp m E Q k'.
Proof.
  intros Hm Hk Hr HQ. destruct (Hm k k' (eq_sym Hk)) as (b & H1 & H2). rewrite H1 in Hr. injection Hr as ->. by eapply wp_run.
Qed.
Lemma wp_mem_le a n k E (Q : Z → kernel → Prop) : Q (le_get (mget_bytes (km_mem (k_kmem k)) a n)) k → wp (mem_le a n) E Q k.
Proof. intros HQ. unfold mem_le, getkm. by wp_steps. Qed.

Lemma fill_cpus_length ps : ∀ i l, length (fill_cpus ps i l) = length l.
Proof. induction ps as [|[a f] ps IH]; intros i l; cbn; [done|]. by rewrite IH, length_insert. Qed.
Lemma fill_cpus_low ps : ∀ i l j, 0 <= i → (j < Z.to_nat i)%nat → fill_cpus ps i l !! j = l !! j.
Proof.
  induction ps as [|[a f] ps IH]; intros i l j Hi Hj; cbn; [done|]. rewrite IH by lia. by rewrite list_lookup_insert_ne by lia.
Qed.
Lemma fill_cpus_lookup ps : ∀ i l j a f, 0 <= i → i + Z.of_nat (length ps) <= Z.of_nat (length l) → ps !! j = Some (a, f) →
  fill_cpus ps i l !! (Z.to_nat i + j)%nat = Some (u8 (i + Z.of_nat j), a).
Proof.
  induction ps as [|[b g] ps IH]; intros i l j a f Hi Hl Hj; [done|]. cbn [length] in Hl. destruct j as [|j]; cbn [fill_cpus].
  - injection Hj as -> ->. rewrite fill_cpus_low by lia. rewrite Nat.add_0_r, Z.add_0_r, list_lookup_insert_eq by lia. done.
  - cbn in Hj. replace (Z.to_nat i + S j)%nat with (Z.to_nat (i + 1) + j)%nat by lia.
    erewrite IH; [|lia|rewrite length_insert; lia|done]. do 3 f_equal. lia.
Qed.

(** C28: [mpinit] finds the processors.  When the search ends at a
    configuration table whose entries are [es], a processor, an I/O APIC or
    one of the kinds that are skipped each, and no more processors than
    NCPU, [mpinit] returns, and afterwards [ncpu] is their number, each has
    its slot of [cpus] with its number and its APIC id, the boot processor is
    the one the table marks, [lapic] is the address of the table and
    [ioapicid] the id of the last I/O APIC entry: the variable holds one id, and
    those of earlier entries are not kept. *)
Theorem mpinit_records k conf mp es imcr fuel : quiet k → mpconfig k = Ok (Some (conf, mp)) k →
  table_at k (conf + MPCONF_SIZE) (table_bytes es) → Forall entry_ok es →
  le_get (mget_bytes (km_mem (k_kmem k)) (conf + 4) 2) = MPCONF_SIZE + Z.of_nat (length (table_bytes es)) →
  ncpu (k_plat k) = 0 → Z.of_nat (length (procs es)) <= Z.of_nat (length (cpus (k_plat k))) → (length es ≤ fuel)%nat →
  wp (mpinit imcr fuel) (λ _, False) (λ _ k',
    ismp (k_plat k') = true ∧ ncpu (k_plat k') = Z.of_nat (length (procs es)) ∧
    (∀ i apicid flags, procs es !! i = Some (apicid, flags) → cpus (k_plat k') !! i = Some (u8 (Z.of_nat i), apicid)) ∧
    bcpu (k_plat k') = boot_index (procs es) 0 0 ∧
    ioapicid (k_plat k') = last_ioapic es (ioapicid (k_plat k)) ∧
    lapic (k_plat k') = IO2V (le_get (mget_bytes (km_mem (k_kmem k)) (conf + 36) 4))) k.
Proof.
  intros Hq Hc Ht Hok Hlen Hn0 Hn Hf. unfold mpinit. apply wp_bind, wp_updplat, wp_bind.
  eapply wp_reads; [apply reads_mpconfig| |exact Hc|]; [done|]. apply wp_bind, wp_updplat, wp_bind, wp_mem_le, wp_bind, wp_updplat, wp_bind, wp_mem_le.
  apply wp_bind. cbn [k_kmem set_plat]. rewrite Hlen. replace (conf + (MPCONF_SIZE + Z.of_nat (length (table_bytes es))))
    with (conf + MPCONF_SIZE + Z.of_nat (length (table_bytes es))) by lia.
  apply mpinit_loop_records; [done|done|done|cbn; lia|cbn; lia|done|]. intros k1 Hq1 Hm1 Hp1.
  assert (Hres : ismp (k_plat k1) = true ∧ ncpu (k_plat k1) = Z.of_nat (length (procs es)) ∧
    (∀ i apicid flags, procs es !! i = Some (apicid, flags) → cpus (k_plat k1) !! i = Some (u8 (Z.of_nat i), apicid)) ∧
    bcpu (k_plat k1) = boot_index (procs es) 0 0 ∧ ioapicid (k_plat k1) = last_ioapic es (ioapicid (k_plat k)) ∧
    lapic (k_plat k1) = IO2V (le_get (mget_bytes (km_mem (k_kmem k)) (conf + 36) 4))).
  { rewrite Hp1. cbn. rewrite Hn0. split_and!; try done. intros i a f Hi. exact (fill_cpus_lookup (procs es) 0 (cpus (k_plat k)) i a f (Z.le_refl 0) Hn Hi). }
  apply wp_bind, wp_getplat. destruct Hres as [Hm Hres]. rewrite Hm. cbn [negb]. apply wp_bind, wp_mem8.
  destruct (negb _); cbn [when]; [unfold port_out; apply wp_bind, wp_updplat, wp_updplat|apply wp_ret]; by split.
Qed.

(** A machine with one processor and one I/O APIC. *)
Definition demo_entries : list mp_entry := [EProc 0 20 3 (replicate 16 0); EIoapic 1 (replicate 6 0)].
Definition demo_mp : list Z := str "_MP_" ++ [0; 16; 0; 0; 1; 4; 144; 0; 0; 0; 0; 0].
Definition demo_conf : list Z := str "PCMP" ++ [72; 0; 4; 140] ++ replicate 28 0 ++ [0; 0; 0xE0; 0xFE] ++ replicate 4 0 ++ table_bytes demo_entries.
Definition mp_demo : kernel :=
  set_kmem (set_km_mem (mput_bytes (mput_bytes (λ _, 0) (p2v 0xF0000) demo_mp) (p2v 0x1000) demo_conf) (k_kmem (kernel0 ∅)))
    (set_plat (set_ncpu 0 (k_plat (kernel0 ∅))) (kernel0 ∅)).
Definition run_code {A} (r : res kernel A) : option A := match r with Ok a _ => Some a | _ => None end.

Lemma mpinit_records_witness :
  wp (mpinit 0 5) (λ _, False) (λ _ k', ncpu (k_plat k') = 1 ∧ ioapicid (k_plat k') = 1 ∧ bcpu (k_plat k') = 0 ∧
    lapic (k_plat k') = IO2V 0xFEE00000) mp_demo.
Proof.
  eapply wp_post; [apply (mpinit_records mp_demo (p2v 0x1000) (p2v 0xF0000) demo_entries)|].
  - exists [], (Some 0%nat). split; [exact (kernel0_at_mach ∅)|]. split; [apply not_elem_of_nil|reflexivity].
  - destruct (reads_mpconfig mp_demo mp_demo eq_refl) as (a & Ha & _). rewrite Ha. f_equal.
    assert (Hr : run_code (mpconfig mp_demo) = Some (Some (p2v 0x1000, p2v 0xF0000))) by (vm_compute; reflexivity).
    rewrite Ha in Hr. by injection Hr.
  - vm_compute. reflexivity.
  - by repeat constructor.
  - vm_compute. reflexivity.
  - reflexivity.
  - vm_compute. discriminate.
  - cbn. lia.
  - intros [] k' (_ & H1 & _ & H2 & H3 & H4). split_and!; [exact H1|exact H3|exact H2|]. rewrite H4. vm_compute. reflexivity.
Defined.

(** An entry of another kind is never left. *)
Lemma mpinit_unknown_spins fuel : ∀ k p e, quiet k → p < e → km_mem (k_kmem k) p = 9 → mpinit_loop p e fuel k = Spin.
Proof.
  induction fuel as [|fuel IH]; intros k p e Hq Hlt H9; cbn [mpinit_loop]; (destruct (Z.ltb_spec p e); [|lia]); [done|].
  unfold mem8. erewrite bind_run by done. rewrite H9.
  destruct (wp_ok (cprintf (Some (str "mpinit: unknown config type %x" ++ [10])) [AInt 9])
    (λ _ k1, quiet k1 ∧ k_kmem k1 = k_kmem k) k) as ([] & k1 & Hr & Hq1 & Hm); [by apply wp_print|].
  change (9 =? MPPROC) with false. change (9 =? MPIOAPIC) with false.
  change ((9 =? MPBUS) || (9 =? MPIOINTR) || (9 =? MPLINTR)) with false. cbv iota.
  rewrite (bind_run _ _ _ _ _ Hr). unfold updplat, modify. erewrite bind_run by done. apply IH; [done|done|]. cbn. by rewrite Hm.
Qed.
