(* ===== verification/Boot.v ===== *)
(** * Boot: kernel/bootmain.c

    The boot loader, which runs in 32-bit mode before the kernel: it reads the
    head of the kernel image from the disk, looks for the multiboot header in
    it, loads the image where the header says, clears its bss and jumps to its
    entry point.  The state is the physical memory, the registers of the disk
    controller that are written and the disk; a jump is the address returned.
    The theorem says that the image is loaded. *)

From stdpp Require Import prelude functions gmap strings.
From S2P Require Import Prelude.
Open Scope Z_scope.

Definition SECTSIZE : Z := 512.

Record bstate := mkB {
  b_mem : Z → Z;
  b_regs : Z → Z;                (* the ports 0x1F2 to 0x1F7 *)
  b_status : Z;                  (* what inb(0x1F7) returns *)
  b_disk : Z → list Z            (* the sectors *)
}.
Definition set_b_mem (m : Z → Z) (b : bstate) : bstate := mkB m (b_regs b) (b_status b) (b_disk b).

Definition b_outb (port v : Z) : M bstate unit :=
  modify (λ b, mkB (b_mem b) (<[port := u8 v]> (b_regs b)) (b_status b) (b_disk b)).

Definition waitdisk : M bstate unit :=
  b ← get;
  if Z.land (b_status b) 0xC0 =? 0x40 then mret tt else spin.

(** The sector that the registers select: a 28-bit block address. *)
Definition selected (b : bstate) : Z :=
  let r := b_regs b in
  r 0x1F3 + 256 * r 0x1F4 + 65536 * r 0x1F5 + 16777216 * Z.land (r 0x1F6) 0x0F.

(** [insl(0x1F0, dst, SECTSIZE/4)]; addresses have 32 bits. *)
Definition b_insl (dst : Z) : M bstate unit := modify (λ b,
  set_b_mem (λ a, let d := u32 (a - dst) in if d <? SECTSIZE then nth (Z.to_nat d) (b_disk b (selected b)) 0 else b_mem b a) b).

Definition readsect (dst offset : Z) : M bstate unit :=
  waitdisk;;
  b_outb 0x1F2 1;;
  b_outb 0x1F3 offset;;
  b_outb 0x1F4 (Z.shiftr offset 8);;
  b_outb 0x1F5 (Z.shiftr offset 16);;
  b_outb 0x1F6 (Z.lor (Z.shiftr offset 24) 0xE0);;
  b_outb 0x1F7 0x20;;
  waitdisk;;
  b_insl dst.

Fixpoint readseg_loop (pa epa offset : Z) (fuel : nat) : M bstate unit :=
  if pa <? epa then
    match fuel with
    | O => spin
    | S fuel =>
        readsect pa offset;;
        readseg_loop (u32 (pa + SECTSIZE)) epa (u32 (offset + 1)) fuel
    end
  else mret tt.
Definition readseg (pa count offset : Z) : M bstate unit :=
  let epa := u32 (pa + count) in
  let pa := u32 (pa - offset mod SECTSIZE) in
  let offset := offset / SECTSIZE + 1 in
  readseg_loop pa epa offset (Z.to_nat ((epa - pa) / SECTSIZE + 1)).

(** A little-endian word in memory. *)
Definition b_word (m : Z → Z) (a : Z) : Z := le_get (m <$> seqZ a 4).

Record mbheader := mkMb {
  mb_magic : Z;
  mb_flags : Z;
  mb_checksum : Z;
  mb_header_addr : Z;
  mb_load_addr : Z;
  mb_load_end_addr : Z;
  mb_bss_end_addr : Z;
  mb_entry_addr : Z
}.
Definition mb_at (m : Z → Z) (a : Z) : mbheader :=
  mkMb (b_word m a) (b_word m (a + 4)) (b_word m (a + 8)) (b_word m (a + 12)) (b_word m (a + 16)) (b_word m (a + 20))
    (b_word m (a + 24)) (b_word m (a + 28)).

Definition b_scratch : Z := 0x10000.

(** The index of the header; [cnt] places are left. *)
Definition is_header (m : Z → Z) (n : Z) : bool :=
  let x i := b_word m (b_scratch + 4 * i) in
  (x n =? 0x1BADB002) && (u32 (x n + x (n + 1) + x (n + 2)) =? 0).
Fixpoint find_header (m : Z → Z) (n : Z) (cnt : nat) : option Z :=
  match cnt with
  | O => None
  | S cnt => if is_header m n then Some n else find_header m (n + 1) cnt
  end.

(** [stosb(a, 0, n)]. *)
Definition b_clear (a n : Z) : M bstate unit := modify (λ b,
  set_b_mem (λ x, if u32 (x - a) <? n then 0 else b_mem b x) b).

(** The address that is jumped to, or nothing if it returns. *)
Definition bootmain : M bstate (option Z) :=
  readseg b_scratch 8192 0;;
  b ← get;
  match find_header (b_mem b) 0 (Z.to_nat (8192 / 4)) with
  | None => mret None
  | Some n =>
      let hdr m := mb_at m (b_scratch + 4 * n) in
      let h := hdr (b_mem b) in
      if Z.land (mb_flags h) 0x10000 =? 0 then mret None else
      if mb_header_addr h <? mb_load_addr h then mret None else
      if mb_load_end_addr h <? mb_load_addr h then mret None else
      readseg (mb_load_addr h) (u32 (mb_load_end_addr h - mb_load_addr h)) (u32 (n * 4 - (mb_header_addr h - mb_load_addr h)));;
      b ← get;
      let h := hdr (b_mem b) in
      when (mb_load_end_addr h <? mb_bss_end_addr h) (
        b_clear (mb_load_end_addr h) (u32 (mb_bss_end_addr h - mb_load_end_addr h)));;
      b ← get;
      mret (Some (mb_entry_addr (hdr (b_mem b))))
  end.

(** ** Reading the disk *)

(** The bytes of the kernel image, which starts at sector 1. *)
Definition img (b : bstate) (o : Z) : Z := nth (Z.to_nat (o mod SECTSIZE)) (b_disk b (o / SECTSIZE + 1)) 0.
Definition b_ready (b : bstate) : Prop := Z.land (b_status b) 0xC0 = 0x40.

(** [b'] is [b] with the memory [m]. *)
Definition loads (b b' : bstate) (m : Z → Z) : Prop :=
  b_status b' = b_status b ∧ b_disk b' = b_disk b ∧ ∀ a, 0 <= a < 2 ^ 32 → b_mem b' a = m a.

Lemma top_nibble y : 0 <= y < 16 → Z.land (u8 (Z.lor y 0xE0)) 0x0F = y.
Proof.
  intros Hy. assert (Hin : y ∈ seqZ 0 16) by (apply elem_of_seqZ; lia).
  assert (Hall : Forall (λ y, Z.land (u8 (Z.lor y 0xE0)) 0x0F = y) (seqZ 0 16)) by (vm_compute; repeat constructor).
  by eapply Forall_forall in Hall.
Qed.
Lemma readsect_run dst offset b : b_ready b → 0 <= offset < 2 ^ 28 → ∃ b', readsect dst offset b = Ok tt b' ∧
  loads b b' (λ a, if u32 (a - dst) <? SECTSIZE then nth (Z.to_nat (u32 (a - dst))) (b_disk b offset) 0 else b_mem b a).
Proof.
  intros Hr Ho. unfold b_ready in Hr. unfold readsect, waitdisk, b_outb, b_insl, modify, get, mbind, M_bind, mret, M_ret. rewrite Hr. cbn -[Z.lor Z.land Z.pow].
  rewrite Hr. cbn -[Z.lor Z.land Z.pow]. eexists. split; [done|]. split; [done|]. split; [done|]. intros a Ha. cbn [b_mem set_b_mem].
  replace (selected _) with offset; [done|]. unfold selected. cbn -[Z.lor Z.land Z.pow].
  repeat (rewrite fn_lookup_insert || rewrite fn_lookup_insert_ne by done). rewrite !Z.shiftr_div_pow2 by lia.
  rewrite top_nibble by (split; [apply Z.div_pos; lia|apply Z.div_lt_upper_bound; lia]). unfold u8.
  pose proof (Z.div_mod offset (2 ^ 8) ltac:(lia)). pose proof (Z.div_mod (offset / 2 ^ 8) (2 ^ 8) ltac:(lia)).
  pose proof (Z.div_mod (offset / 2 ^ 16) (2 ^ 8) ltac:(lia)).
  replace (offset / 2 ^ 16) with (offset / 2 ^ 8 / 2 ^ 8) in * by (rewrite Z.div_div by lia; done).
  replace (offset / 2 ^ 24) with (offset / 2 ^ 8 / 2 ^ 8 / 2 ^ 8) in * by (rewrite !Z.div_div by lia; done). lia.
Qed.

(** What [readseg] leaves in memory: the sectors from the one that holds
    [offset] on, up to the one that holds the last byte asked for. *)
Lemma readseg_loop_run k : ∀ b pa epa offset fuel, (k ≤ fuel)%nat → b_ready b → 0 <= pa → pa + 512 * Z.of_nat k < 2 ^ 32 → 1 <= offset → offset + Z.of_nat k < 2 ^ 28 →
  512 * Z.of_nat k < epa - pa + 512 → epa - pa <= 512 * Z.of_nat k →
  ∃ b', readseg_loop pa epa offset fuel b = Ok tt b' ∧
    loads b b' (λ a, if (pa <=? a) && (a <? pa + 512 * Z.of_nat k) then img b (512 * (offset - 1) + (a - pa)) else b_mem b a).
Proof.
  induction k as [|k IH]; intros b pa epa offset fuel Hfuel Hr Hpa Hend Ho1 Ho2 Hlo Hhi.
  - destruct fuel; cbn [readseg_loop]; (destruct (Z.ltb_spec pa epa); [lia|]); exists b; (split; [done|]); (split; [done|]); (split; [done|]); intros a Ha;
      destruct (Z.leb_spec pa a), (Z.ltb_spec a (pa + 512 * Z.of_nat 0)); cbn [andb]; try done; lia.
  - destruct fuel as [|fuel]; [lia|]. cbn [readseg_loop]. destruct (Z.ltb_spec pa epa); [|lia].
    destruct (readsect_run pa offset b Hr) as (b1 & H1 & Hs1 & Hd1 & Hm1); [lia|]. rewrite (bind_run _ _ _ _ _ H1).
    unfold SECTSIZE. rewrite !u32_small by lia.
    destruct (IH b1 (pa + 512) epa (offset + 1) fuel) as (b2 & H2 & Hs2 & Hd2 & Hm2); [lia|unfold b_ready in *; by rewrite Hs1|lia..|].
    exists b2. split; [done|]. split; [congruence|]. split; [congruence|]. intros a Ha. rewrite Hm2 by done. unfold img. rewrite Hd1.
    destruct (Z.leb_spec (pa + 512) a), (Z.ltb_spec a (pa + 512 + 512 * Z.of_nat k)); cbn [andb].
    + destruct (Z.leb_spec pa a); [|lia]. destruct (Z.ltb_spec a (pa + 512 * Z.of_nat (S k))); [|lia]. cbn [andb].
      by replace (512 * (offset + 1 - 1) + (a - (pa + 512))) with (512 * (offset - 1) + (a - pa)) by lia.
    + rewrite Hm1 by done. destruct (Z.ltb_spec a (pa + 512 * Z.of_nat (S k))); [lia|]. rewrite andb_false_r.
      rewrite u32_small by lia. unfold SECTSIZE. by destruct (Z.ltb_spec (a - pa) 512); [lia|].
    + rewrite Hm1 by done. destruct (Z.ltb_spec a (pa + 512 * Z.of_nat (S k))); [|lia]. rewrite andb_true_r. destruct (Z.leb_spec pa a).
      * rewrite u32_small by lia. unfold SECTSIZE. destruct (Z.ltb_spec (a - pa) 512); [|lia].
        rewrite (Z.mul_comm 512), Z.add_comm, Z.mod_add, Z.div_add by lia. rewrite Z.mod_small, Z.div_small by lia. by replace (0 + (offset - 1) + 1) with offset by lia.
      * assert (Hneg : u32 (a - pa) = a - pa + 2 ^ 32) by (unfold u32; symmetry; apply (Z.mod_unique_pos _ _ (-1)); lia). rewrite Hneg.
        unfold SECTSIZE. by destruct (Z.ltb_spec (a - pa + 2 ^ 32) 512); [lia|].
    + lia.
Qed.

Lemma readseg_run pa count off b : b_ready b → 0 <= off → 511 <= pa → 0 <= count → pa + count + 512 < 2 ^ 32 → (off + count) / 512 + 3 < 2 ^ 28 →
  ∃ b', readseg pa count off b = Ok tt b' ∧ b_status b' = b_status b ∧ b_disk b' = b_disk b ∧
    (∀ a, pa <= a < pa + count → b_mem b' a = img b (off + (a - pa))) ∧
    (∀ a, 0 <= a < 2 ^ 32 → a < pa - 511 ∨ pa + count + 511 <= a → b_mem b' a = b_mem b a).
Proof.
  intros Hr Ho Hpa Hc Hend Hsec. unfold readseg, SECTSIZE. pose proof (Z.mod_pos_bound off 512 ltac:(lia)) as Hmod.
  pose proof (Z.div_mod off 512 ltac:(lia)) as Hdm. rewrite !u32_small by lia.
  set (r := off mod 512) in *. set (q := off / 512) in *. set (k := Z.to_nat ((count + r + 511) / 512)).
  pose proof (Z.div_mod (count + r + 511) 512 ltac:(lia)) as Hk. pose proof (Z.mod_pos_bound (count + r + 511) 512 ltac:(lia)).
  assert (Hkz : Z.of_nat k = (count + r + 511) / 512) by (unfold k; rewrite Z2Nat.id; [done|apply Z.div_pos; lia]).
  pose proof (Z.div_mod (off + count) 512 ltac:(lia)). pose proof (Z.mod_pos_bound (off + count) 512 ltac:(lia)).
  replace (pa + count - (pa - r)) with (count + r) by lia. pose proof (Z.div_mod (count + r) 512 ltac:(lia)). pose proof (Z.mod_pos_bound (count + r) 512 ltac:(lia)).
  destruct (readseg_loop_run k b (pa - r) (pa + count) (q + 1) (Z.to_nat ((count + r) / 512 + 1))) as (b' & Hb & Hs & Hd & Hm); [lia|done|lia..|].
  exists b'. split; [done|]. split; [done|]. split; [done|]. split.
  - intros a Ha. rewrite Hm by lia. destruct (Z.leb_spec (pa - r) a); [|lia]. destruct (Z.ltb_spec a (pa - r + 512 * Z.of_nat k)); [|lia].
    cbn [andb]. f_equal. lia.
  - intros a Ha Hout. rewrite Hm by done. destruct (Z.leb_spec (pa - r) a); [|done]. destruct (Z.ltb_spec a (pa - r + 512 * Z.of_nat k)); [lia|done].
Qed.

(** ** The loader *)

Lemma b_word_ext m m' a : (∀ x, a <= x < a + 4 → m x = m' x) → b_word m a = b_word m' a.
Proof.
  intros He. unfold b_word. f_equal. apply list_fmap_ext. intros i x [-> Hx]%lookup_seqZ. apply He. lia.
Qed.
Lemma find_header_at m n cnt : ∀ i, 0 <= i <= n → n < i + Z.of_nat cnt → is_header m n = true →
  (∀ j, i <= j < n → is_header m j = false) → find_header m i cnt = Some n.
Proof.
  induction cnt as [|cnt IH]; intros i Hi Hn Hh Hno; [lia|]. cbn [find_header]. destruct (decide (i = n)) as [->|].
  - by rewrite Hh.
  - rewrite Hno by lia. apply IH; [lia|lia|done|]. intros j Hj. apply Hno. lia.
Qed.
(** Two memories that agree on the scratch space have the same headers. *)
Definition scratch_eq (m m' : Z → Z) : Prop := ∀ x, b_scratch <= x < b_scratch + 8192 → m x = m' x.
Lemma is_header_ext m m' n : scratch_eq m m' → 0 <= n < 2040 → is_header m n = is_header m' n.
Proof.
  intros He Hn. unfold is_header. by rewrite !(b_word_ext m m') by (intros x Hx; apply He; lia).
Qed.
Lemma mb_at_ext m m' n : scratch_eq m m' → 0 <= n <= 2040 → mb_at m (b_scratch + 4 * n) = mb_at m' (b_scratch + 4 * n).
Proof. intros He Hn. unfold mb_at. by rewrite !(b_word_ext m m') by (intros x Hx; apply He; lia). Qed.

Lemma b_word_range m a : (∀ x, a <= x < a + 4 → is_byte (m x)) → 0 <= b_word m a < 2 ^ 32.
Proof.
  intros Hb. unfold b_word. assert (Hr : bytes (m <$> seqZ a 4)).
  { apply Forall_fmap, Forall_forall. intros x Hx%elem_of_seqZ. apply Hb. lia. }
  apply le_get_range in Hr. by rewrite length_fmap, length_seqZ in Hr.
Qed.

(** C29: the boot loader loads the kernel.  If the first 8192 bytes of the
    image, which starts at sector 1, hold a multiboot header with valid
    addresses above the scratch space, then [bootmain] jumps to the entry
    point of the header, the bytes of the image are in memory at the load
    address, from the offset that the header implies, and the bss is zero. *)
Theorem bootmain_loads b n : let m0 a := img b (a - b_scratch) in let h := mb_at m0 (b_scratch + 4 * n) in
  b_ready b → (∀ o, is_byte (img b o)) → 0 <= n < 2040 → is_header m0 n = true → (∀ j, 0 <= j < n → is_header m0 j = false) →
  Z.land (mb_flags h) 0x10000 ≠ 0 →
  mb_load_addr h <= mb_header_addr h <= mb_load_addr h + 4 * n → mb_load_addr h <= mb_load_end_addr h →
  b_scratch + 8192 + 511 <= mb_load_addr h → mb_load_end_addr h + 512 < 2 ^ 32 →
  ∃ b', bootmain b = Ok (Some (mb_entry_addr h)) b' ∧
    (∀ i, 0 <= i < mb_load_end_addr h - mb_load_addr h →
       b_mem b' (mb_load_addr h + i) = img b (4 * n - (mb_header_addr h - mb_load_addr h) + i)) ∧
    (∀ a, mb_load_end_addr h <= a < mb_bss_end_addr h → b_mem b' a = 0).
Proof.
  intros m0 h Hr Hb Hn Hh Hno Hfl Hha Hle Hla Hend. unfold bootmain.
  assert (Hws : ∀ a, 0 <= b_word m0 a < 2 ^ 32) by (intros a; apply b_word_range; intros; apply Hb).
  destruct (readseg_run b_scratch 8192 0 b) as (b1 & H1 & Hs1 & Hd1 & Hm1 & _); [done|unfold b_scratch; lia..|by vm_compute|].
  rewrite (bind_run _ _ _ _ _ H1). unfold get. erewrite bind_run by done.
  assert (Hsc : scratch_eq (b_mem b1) m0).
  { intros x Hx. rewrite Hm1 by lia. unfold m0. f_equal. }
  rewrite (find_header_at _ n); [|lia|change (Z.of_nat (Z.to_nat (8192 / 4))) with 2048; lia|by rewrite (is_header_ext _ m0)|];
    [|intros j Hj; rewrite (is_header_ext _ m0) by (done || lia); by apply Hno].
  cbv zeta. rewrite (mb_at_ext _ m0) by (done || lia). fold h. apply Z.eqb_neq in Hfl as ->.
  destruct (Z.ltb_spec (mb_header_addr h) (mb_load_addr h)); [lia|]. destruct (Z.ltb_spec (mb_load_end_addr h) (mb_load_addr h)); [lia|].
  assert (Hrng : 0 <= mb_load_addr h < 2 ^ 32 ∧ 0 <= mb_load_end_addr h < 2 ^ 32 ∧ 0 <= mb_bss_end_addr h < 2 ^ 32) by (split_and!; apply Hws).
  rewrite !u32_small by (unfold b_scratch in *; lia).
  destruct (readseg_run (mb_load_addr h) (mb_load_end_addr h - mb_load_addr h) (n * 4 - (mb_header_addr h - mb_load_addr h)) b1)
    as (b2 & H2 & Hs2 & Hd2 & Hm2 & Ho2); [unfold b_ready; congruence|unfold b_scratch in *; lia..| |].
  { enough ((n * 4 - (mb_header_addr h - mb_load_addr h) + (mb_load_end_addr h - mb_load_addr h)) / 512 < 2 ^ 27) by lia.
    apply Z.div_lt_upper_bound; lia. }
  rewrite (bind_run _ _ _ _ _ H2). erewrite bind_run by done.
  assert (Hsc2 : scratch_eq (b_mem b2) m0).
  { intros x Hx. rewrite Ho2; [by apply Hsc|unfold b_scratch in *; lia|left; lia]. }
  rewrite (mb_at_ext _ m0) by (done || lia). fold h.
  assert (Himg : ∀ i, 0 <= i < mb_load_end_addr h - mb_load_addr h →
    b_mem b2 (mb_load_addr h + i) = img b (4 * n - (mb_header_addr h - mb_load_addr h) + i)).
  { intros i Hi. rewrite Hm2 by lia. unfold img. rewrite Hd1. by replace (n * 4 - (mb_header_addr h - mb_load_addr h) + (mb_load_addr h + i - mb_load_addr h))
      with (4 * n - (mb_header_addr h - mb_load_addr h) + i) by lia. }
  destruct (Z.ltb_spec (mb_load_end_addr h) (mb_bss_end_addr h)) as [Hbss|Hbss]; cbn [when].
  - unfold b_clear, modify. erewrite bind_run by done. erewrite bind_run by done. cbn [b_mem set_b_mem].
    assert (Hlow : ∀ x, 0 <= x < mb_load_end_addr h → (u32 (x - mb_load_end_addr h) <? u32 (mb_bss_end_addr h - mb_load_end_addr h)) = false).
    { intros x Hx. rewrite (u32_small (mb_bss_end_addr h - _)) by lia. apply Z.ltb_ge. unfold u32.
      rewrite <-(Z.mod_unique_pos _ _ (-1) (x - mb_load_end_addr h + 2 ^ 32)); lia. }
    eexists. split; [|split].
    + rewrite (mb_at_ext _ m0); [done| |lia]. intros x Hx. rewrite Hlow by (unfold b_scratch in *; lia). by apply Hsc2.
    + intros i Hi. cbn [b_mem set_b_mem]. rewrite Hlow by lia. by apply Himg.
    + intros a Ha. cbn [b_mem set_b_mem]. rewrite !u32_small by lia. by destruct (Z.ltb_spec (a - mb_load_end_addr h) (mb_bss_end_addr h - mb_load_end_addr h)); [|lia].
  - erewrite bind_run by done. erewrite bind_run by done. eexists. split; [by rewrite (mb_at_ext _ m0) by (done || lia)|]. split; [done|]. intros; lia.
Qed.

(** An image of one sector: a word, the header, and 12 bytes more. *)
Definition boot_image : list Z :=
  concat (le_put 4 <$> [7; 0x1BADB002; 0x10000; u32 (- (0x1BADB002 + 0x10000)); 0x100004; 0x100000; 0x100030; 0x100040; 0x10000C; 1; 2; 3]).
Definition boot_demo : bstate := mkB (λ _, 0xFF) (λ _, 0) 0x50 (λ s, if s =? 1 then boot_image else []).

Lemma bootmain_loads_witness : ∃ b', bootmain boot_demo = Ok (Some 0x10000C) b' ∧ b_mem b' 0x100000 = 7 ∧ b_mem b' 0x100038 = 0.
Proof.
  destruct (bootmain_loads boot_demo 1) as (b' & Hb & Himg & Hbss).
  - reflexivity.
  - intros o. unfold img, boot_demo. cbn [b_disk]. destruct (_ =? 1); [|by destruct (Z.to_nat _)].
    assert (Hall : Forall is_byte boot_image) by (vm_compute; repeat constructor; discriminate).
    destruct (nth_in_or_default (Z.to_nat (o mod SECTSIZE)) boot_image 0) as [Hin| ->]; [|by split].
    eapply Forall_forall in Hall; [done|]. by apply list_elem_of_In.
  - lia.
  - vm_compute. reflexivity.
  - intros j Hj. replace j with 0 by lia. vm_compute. reflexivity.
  - vm_compute. discriminate.
  - vm_compute. split; discriminate.
  - vm_compute. discriminate.
  - vm_compute. discriminate.
  - vm_compute. reflexivity.
  - exists b'. split; [exact Hb|]. split.
    + assert (H0 := Himg 0 ltac:(vm_compute; split; [discriminate|reflexivity])). vm_compute in H0. exact H0.
    + apply Hbss. vm_compute. split; [discriminate|reflexivity].
Defined.
