(* ===== verification/Scheduler.v ===== *)
(** * Scheduler: the scheduler loop, and the system of CPUs and processes

    [scheduler] of kernel/proc.c is given as a loop whose parameters are what
    a process does between [swtch] to it and its own [swtch] back, and what the
    interrupt does that ends [hlt].

    The rest of the file puts the code of Sched and Proc together: several
    CPUs, each in its scheduler or in the kernel code of a process, take turns
    in any order.  A step is the code between two points at which other CPUs
    can see the process table, which is a critical section of [ptable.lock];
    where a process goes on after [swtch] is part of the state.  The theorems
    are about every run of that system: no exit of a child is missed by
    [wait], and no runnable process is passed over by a scheduler. *)

From stdpp Require Import prelude functions gmap strings.
From S2P Require Import Prelude Types Ring Spinlock Sched Cstr Ide Bio Block Frame Log Fs FsInode Kalloc Pipe File Cprintf Vm Proc.
Open Scope Z_scope.

(** ** The scheduler of one CPU *)

Section scheduler.
Variable run : nat → K unit.
Variable hlt : K unit.

(** The body of the loop over the table; the page table register, which
    [switchkvm] sets when the process is back, is not part of the state. *)
Definition scheduler_entry (i : nat) : K unit :=
  b ← scheduler_visit i;
  when b (run i;; set_cpuproc None).
(** One round of [for(;;)].  [p] is an index into the table, [None] for the
    null pointer that it is at first. *)
Definition scheduler_pass (p : option nat) : K (option nat) :=
  on_mach sti;;
  when (bool_decide (p = Some (Z.to_nat NPROC))) hlt;;
  acquire L_ptable;;
  for_each (seq 0 (Z.to_nat NPROC)) scheduler_entry;;
  release L_ptable;;
  mret (Some (Z.to_nat NPROC)).
(** The first rounds. *)
Fixpoint scheduler_rounds (rounds : nat) (p : option nat) : K unit :=
  match rounds with
  | O => mret tt
  | S rounds => p ← scheduler_pass p; scheduler_rounds rounds p
  end.
Definition scheduler (rounds : nat) : K unit := scheduler_rounds rounds None.
End scheduler.

(** ** The system *)

(** Where a CPU is: between two passes of its scheduler; before entry [n] of a
    pass, with the lock of the table; just after [swtch] to its process; in the
    code of its process; just after [swtch] to the scheduler. *)
Inductive cpos := CIdle | CLoop (n : nat) | CResume | CProc | CBack.
(** What a process is doing: anything; in [fork], with a slot for the child,
    with a kernel stack for it, or with its image. *)
Inductive task := TAny | TSlot (np : nat) | TChild (np : nat) | TBorn (np : nat).
(** Where a process goes on when it is resumed: in [forkret], in the [sleep] of
    [wait], in another [sleep], in [yield]. *)
Inductive stop := SNew | SWait | SSleep (lk : lockid) | SYield.

(** [os_stop] has the saved [intena] of [sched] too; [os_ran] records which CPU
    chose which process. *)
Record os := mkOs {
  os_k : kernel;
  os_cpu : nat → cpos;
  os_task : nat → task;
  os_stop : nat → stop * bool;
  os_ran : list (nat * nat)
}.

Definition this_cpu (s : os) : nat := m_me (k_mach (os_k s)).
Definition with_k (k : kernel) (s : os) : os := mkOs k (os_cpu s) (os_task s) (os_stop s) (os_ran s).
(** This CPU goes to [p], with the globals [k]. *)
Definition goto (p : cpos) (k : kernel) (s : os) : os :=
  mkOs k (fupd (this_cpu s) p (os_cpu s)) (os_task s) (os_stop s) (os_ran s).
Definition does (me : nat) (t : task) (s : os) : os :=
  mkOs (os_k s) (os_cpu s) (fupd me t (os_task s)) (os_stop s) (os_ran s).
Definition stops (me : nat) (st : stop) (intena : bool) (s : os) : os :=
  mkOs (os_k s) (os_cpu s) (os_task s) (fupd me (st, intena) (os_stop s)) (os_ran s).
Definition chosen (n : nat) (s : os) : os :=
  mkOs (os_k s) (os_cpu s) (os_task s) (os_stop s) (os_ran s ++ [(this_cpu s, n)]).
(** Process [me] has switched to the scheduler. *)
Definition intena_of (k : kernel) : bool :=
  match m_cpus (k_mach k) !! m_me (k_mach k) with Some c => c_intena c | None => false end.
Definition leave (me : nat) (st : stop) (k : kernel) (s : os) : os := stops me st (intena_of k) (goto CBack k s).

(** The code that a process runs when it is resumed, to the next point where
    the table is not locked. *)
Definition resume (me : nat) (st : stop) (intena : bool) : K unit :=
  match st with
  | SNew => release L_ptable
  | SWait => sched_return intena;; sleep_wake L_ptable;; wait_loop me 0;; mret tt
  | SSleep lk => sched_return intena;; sleep_wake lk
  | SYield => sched_return intena;; release L_ptable
  end.

Inductive action :=
| ABegin | AVisit | AEnd | ABack | AResume
| AExit | AWait | ASleep (ch : chan) (lk : lockid) | AYield | AKill (pid : Z)
| ASlot | AStack | AUndo | AImage (pgdir : Z) | AStart
| AWakeup (ch : chan) | AAcquire (lk : lockid) | ARelease (lk : lockid).

(** The outcome of a piece of code. *)
Definition outcome {A} (r : res kernel A) (f : A → kernel → option os) (g : kernel → option os) : option os :=
  match r with Ok a k => f a k | Sleeps k => g k | _ => None end.
Definition returns {A} (r : res kernel A) (f : A → kernel → option os) : option os := outcome r f (λ _, None).

(** Only [wait] sleeps on a process. *)
Definition proc_chan (ch : chan) : bool := match ch with ChProc _ => true | _ => false end.

(** What process [me] does on this CPU. *)
Definition proc_step (a : action) (me : nat) (s : os) : option os :=
  let k := os_k s in
  match a, os_task s me with
  | AExit, TAny =>
      if bool_decide (pt_initproc (k_pt k) = Some me) then None else
      outcome (exit_locked me k) (λ _ _, None) (λ k', Some (leave me SNew k' s))
  | AWait, TAny => outcome (wait k) (λ _ k', Some (with_k k' s)) (λ k', Some (leave me SWait k' s))
  | ASleep ch lk, _ =>
      if proc_chan ch || bool_decide (lk = L_ptable) then None else
      outcome (sleep ch (Some lk) k) (λ _ _, None) (λ k', Some (leave me (SSleep lk) k' s))
  | AYield, _ => outcome (yield k) (λ _ _, None) (λ k', Some (leave me SYield k' s))
  | AKill pid, TAny => returns (kill pid k) (λ _ k', Some (with_k k' s))
  | ASlot, TAny => returns (alloc_slot k) (λ o k', Some (match o with Some np => does me (TSlot np) (with_k k' s) | None => with_k k' s end))
  | AStack, TSlot np =>
      returns (alloc_stack np k) (λ o k', Some (match o with
        | Some _ => stops np SNew false (does me (TChild np) (with_k k' s))
        | None => does me TAny (with_k k' s) end))
  | AUndo, TChild np => returns ((updproc np (set_p_pgdir 0);; fork_undo np) k) (λ _ k', Some (does me TAny (with_k k' s)))
  | AImage pgdir, TChild np =>
      if pgdir =? 0 then None else
      returns ((updproc np (set_p_pgdir pgdir);; p ← getproc me; fork_image me p np) k) (λ _ k', Some (does me (TBorn np) (with_k k' s)))
  | AStart, TBorn np => returns (fork_start np k) (λ _ k', Some (does me TAny (with_k k' s)))
  | _, _ => None
  end.

(** What this CPU does.  Interrupt handlers call [wakeup], and use other locks,
    wherever they come. *)
Definition cpu_step (a : action) (s : os) : option os :=
  let k := os_k s in
  match a, os_cpu s (this_cpu s), curproc (k_mach k) with
  | AWakeup ch, _, _ => returns (wakeup ch k) (λ _ k', Some (with_k k' s))
  | AAcquire lk, _, _ => if bool_decide (lk = L_ptable) then None else returns (acquire lk k) (λ _ k', Some (with_k k' s))
  | ARelease lk, _, _ => if bool_decide (lk = L_ptable) then None else returns (release lk k) (λ _ k', Some (with_k k' s))
  | ABegin, CIdle, _ => returns ((on_mach sti;; acquire L_ptable) k) (λ _ k', Some (goto (CLoop 0) k' s))
  | AVisit, CLoop n, _ =>
      if bool_decide (n < Z.to_nat NPROC)%nat then
        returns (scheduler_visit n k) (λ b k', Some (if b : bool then goto CResume k' (chosen n s) else goto (CLoop (S n)) k' s))
      else None
  | AEnd, CLoop n, _ =>
      if bool_decide (n = Z.to_nat NPROC) then returns (release L_ptable k) (λ _ k', Some (goto CIdle k' s)) else None
  | ABack, CBack, Some i => returns (set_cpuproc None k) (λ _ k', Some (goto (CLoop (S i)) k' s))
  | AResume, CResume, Some me =>
      outcome (resume me (os_stop s me).1 (os_stop s me).2 k) (λ _ k', Some (goto CProc k' s)) (λ k', Some (leave me SWait k' s))
  | _, CProc, Some me => proc_step a me s
  | _, _, _ => None
  end.

(** The steps of the system: the turn passes to another CPU; this CPU does
    something of the above; a process changes a field of a process that
    scheduling, [wait] and [exit] do not look at; anything else that leaves the
    process table, the CPUs and the locks alone. *)
Inductive os_step (s : os) : os → Prop :=
| Os_turn c : (c < length (m_cpus (k_mach (os_k s))))%nat → os_step s (with_k (set_mach (on_cpu c (k_mach (os_k s))) (os_k s)) s)
| Os_act a s' : cpu_step a s = Some s' → os_step s s'
| Os_private i f k' : (∀ p, p_state (f p) = p_state p ∧ p_parent (f p) = p_parent p ∧ p_chan (f p) = p_chan p) →
    updproc i f (os_k s) = Ok tt k' → os_step s (with_k k' s)
| Os_other k' : k_pt k' = k_pt (os_k s) → k_mach k' = k_mach (os_k s) → os_step s (with_k k' s).

(** The CPUs enter their schedulers: [userinit] has made the first process. *)
Record os_boot (s : os) : Prop := {
  ob_init : ∃ i p, pt_initproc (k_pt (os_k s)) = Some i ∧ pt_proc (k_pt (os_k s)) !! i = Some p ∧ p_state p = RUNNABLE ∧
    ∀ j q, pt_proc (k_pt (os_k s)) !! j = Some q → p_parent q = None ∧ (j ≠ i → p_state q = UNUSED);
  ob_cpu : ∀ c, os_cpu s c = CIdle;
  ob_task : ∀ i, os_task s i = TAny;
  ob_stop : ∀ i, os_stop s i = (SNew, false)
}.

(** ** What the pieces of code do to the states of the processes *)

Definition sts (k : kernel) : list procstate := p_state <$> pt_proc (k_pt k).
Definition cprocs (m : machine) : list (option nat) := c_proc <$> m_cpus m.
(** The first process, this CPU, and the processes of the CPUs. *)
Definition rest (k : kernel) : option nat * (nat * list (option nat)) :=
  (pt_initproc (k_pt k), (m_me (k_mach k), cprocs (k_mach k))).

Lemma curproc_cprocs m : curproc m = cprocs m !! m_me m ≫= id.
Proof. unfold curproc, cprocs. rewrite list_lookup_fmap. by destruct (m_cpus m !! m_me m). Qed.

(** [m] does not sleep and keeps [f]. *)
Definition quiet {S A B} (f : S → B) (m : M S A) : Prop :=
  ∀ s, match m s with Ok _ s' => f s' = f s | Sleeps _ => False | _ => True end.

Section quiet.
Context {S B : Type} (f : S → B).
Lemma quiet_ret {A} (a : A) : quiet f (mret a : M S A).
Proof. done. Qed.
Lemma quiet_bind {A A'} (m : M S A) (g : A → M S A') : quiet f m → (∀ a, quiet f (g a)) → quiet f (m ≫= g).
Proof.
  intros Hm Hg s. specialize (Hm s). unfold mbind, M_bind. destruct (m s) as [a s'| |s'| |]; try done.
  specialize (Hg a s'). destruct (g a s'); try done. congruence.
Qed.
Lemma quiet_get : quiet f (get : M S S).
Proof. done. Qed.
Lemma quiet_gets {A} (g : S → A) : quiet f (gets g).
Proof. done. Qed.
Lemma quiet_modify (g : S → S) : (∀ s, f (g s) = f s) → quiet f (modify g).
Proof. intros Hg s. apply Hg. Qed.
Lemma quiet_panic {A} msg : quiet f (panic msg : M S A).
Proof. done. Qed.
Lemma quiet_spin {A} : quiet f (spin : M S A).
Proof. done. Qed.
Lemma quiet_need {A} (o : option A) : quiet f (need o : M S A).
Proof. intros s. unfold need. by destruct o. Qed.
Lemma quiet_when (c : bool) (m : M S unit) : quiet f m → quiet f (when c m).
Proof. by destruct c. Qed.
Lemma quiet_for_each {X} (l : list X) (body : X → M S unit) : (∀ x, quiet f (body x)) → quiet f (for_each l body).
Proof. intros Hb. induction l; cbn; [done|]. apply quiet_bind; [apply Hb|done]. Qed.
End quiet.

Create HintDb quiet discriminated.
#[export] Hint Resolve quiet_ret quiet_get quiet_gets quiet_panic quiet_spin quiet_need : quiet.
Ltac quiet_step :=
  match goal with
  | |- quiet _ (mbind _ _) => apply quiet_bind; [|intros]
  | |- quiet _ (when _ _) => apply quiet_when
  | |- quiet _ (for_each _ _) => apply quiet_for_each; intros
  | |- quiet _ (modify _) => apply quiet_modify; done
  | |- quiet _ (match ?x with _ => _ end) => destruct x
  | |- quiet _ (let x := _ in _) => cbv zeta
  | |- quiet _ _ => solve [eauto with quiet]
  end.
Ltac quiet_tac := repeat quiet_step.

(** The locks. *)
Definition mrest (m : machine) : nat * list (option nat) := (m_me m, cprocs m).
Lemma quiet_setcpu {A} (g : cpu → cpu) (h : cpu → M machine A) : (∀ c, c_proc (g c) = c_proc c) → (∀ c, quiet mrest (h c)) →
  quiet mrest (c ← mycpu; set_mycpu (g c);; h c).
Proof.
  intros Hg Hh m. unfold mycpu, get, need, set_mycpu, modify, mbind, M_bind. destruct (m_cpus m !! m_me m) as [c|] eqn:Hc; [|done].
  match goal with |- match h c ?m' with _ => _ end => specialize (Hh c m'); assert (Hm : mrest m' = mrest m) end.
  { unfold mrest, cprocs. cbn. f_equal. rewrite list_fmap_insert, Hg. apply list_insert_id. by rewrite list_lookup_fmap, Hc. }
  destruct (h c _); try done. congruence.
Qed.
Lemma bind_ret_r {S A} (m : M S A) s : (m ≫= mret) s = m s.
Proof. unfold mbind, M_bind, mret, M_ret. by destruct (m s). Qed.
Lemma quiet_ext {S A B} (f : S → B) (m m' : M S A) : (∀ s, m s = m' s) → quiet f m' → quiet f m.
Proof. intros He Hm s. rewrite He. apply Hm. Qed.
Lemma quiet_setcpu1 (g : cpu → cpu) : (∀ c, c_proc (g c) = c_proc c) → quiet mrest (c ← mycpu; set_mycpu (g c)).
Proof.
  intros Hg. eapply quiet_ext; [|apply (quiet_setcpu g (λ _, mret tt) Hg); intros; apply quiet_ret].
  intros m. unfold mycpu, get, need, set_mycpu, modify, mbind, M_bind. by destruct (m_cpus m !! m_me m).
Qed.
Lemma quiet_mycpu : quiet mrest mycpu.
Proof. unfold mycpu. quiet_tac. Qed.
Lemma quiet_sti : quiet mrest sti.
Proof. by apply (quiet_setcpu1 (λ c, mkCpu (c_ncli c) (c_intena c) true (c_proc c))). Qed.
Lemma quiet_cli : quiet mrest cli.
Proof. by apply (quiet_setcpu1 (λ c, mkCpu (c_ncli c) (c_intena c) false (c_proc c))). Qed.
#[export] Hint Resolve quiet_mycpu quiet_sti quiet_cli : quiet.
Lemma quiet_pushcli : quiet mrest pushcli.
Proof.
  unfold pushcli, readeflags_if. apply quiet_bind; [quiet_tac|]. intros e. apply quiet_bind; [quiet_tac|]. intros _. cbv zeta.
  by apply (quiet_setcpu1 (λ c, mkCpu (c_ncli c + 1) (if c_ncli c =? 0 then e else c_intena c) (c_if c) (c_proc c))).
Qed.
Lemma quiet_popcli : quiet mrest popcli.
Proof.
  unfold popcli, readeflags_if. apply quiet_bind; [quiet_tac|]. intros [|]; [quiet_tac|]. cbv zeta.
  apply (quiet_setcpu (λ c, mkCpu (c_ncli c - 1) (c_intena c) (c_if c) (c_proc c))); [done|]. intros c. quiet_tac.
Qed.
Lemma quiet_set_lock lk v : quiet mrest (set_lock lk v).
Proof. unfold set_lock. quiet_tac. Qed.
#[export] Hint Resolve quiet_pushcli quiet_popcli quiet_set_lock : quiet.
Lemma quiet_holding lk : quiet mrest (holding lk).
Proof. unfold holding. quiet_tac. Qed.
#[export] Hint Resolve quiet_holding : quiet.
Lemma quiet_acquire_m lk : quiet mrest (acquire_m lk).
Proof. unfold acquire_m, xchg, set_lk_cpu. quiet_tac. Qed.
Lemma quiet_release_m lk : quiet mrest (release_m lk).
Proof. unfold release_m, xchg, set_lk_cpu. quiet_tac. Qed.
Lemma quiet_sched_return_m b : quiet mrest (c ← mycpu; set_mycpu (mkCpu (c_ncli c) b (c_if c) (c_proc c))).
Proof. by apply (quiet_setcpu1 (λ c, mkCpu (c_ncli c) b (c_if c) (c_proc c))). Qed.
#[export] Hint Resolve quiet_acquire_m quiet_release_m quiet_sched_return_m : quiet.

(** What the theorems look at. *)
Definition seen (k : kernel) : list procstate * (option nat * (nat * list (option nat))) := (sts k, rest k).
Lemma quiet_on_mach {A} (m : M machine A) : quiet mrest m → quiet seen (on_mach m).
Proof.
  intros Hm k. specialize (Hm (k_mach k)). unfold on_mach. destruct (m (k_mach k)) as [a m'| | | |]; try done.
  unfold seen, sts, rest. cbn. unfold mrest in Hm. by rewrite Hm.
Qed.
#[export] Hint Resolve quiet_on_mach : quiet.
Lemma quiet_acquire lk : quiet seen (acquire lk).
Proof. unfold acquire. quiet_tac. Qed.
Lemma quiet_release lk : quiet seen (release lk).
Proof. unfold release. quiet_tac. Qed.
Lemma quiet_getproc i : quiet seen (getproc i).
Proof. unfold getproc. quiet_tac. Qed.
Lemma quiet_myproc : quiet seen myproc.
Proof. unfold myproc. quiet_tac. Qed.
Lemma quiet_sched_return b : quiet seen (sched_return b).
Proof. unfold sched_return. quiet_tac. Qed.
Lemma quiet_updproc i f : (∀ p, p_state (f p) = p_state p) → quiet seen (updproc i f).
Proof. intros Hf. apply quiet_modify. intros k. unfold seen, sts, rest. cbn. by rewrite fmap_alter_same. Qed.
Lemma quiet_updkm f : quiet seen (updkm f).
Proof. by apply quiet_modify. Qed.
Lemma quiet_getkm : quiet seen getkm.
Proof. unfold getkm. quiet_tac. Qed.
#[export] Hint Resolve quiet_acquire quiet_release quiet_getproc quiet_myproc quiet_sched_return quiet_updkm quiet_getkm : quiet.
#[export] Hint Extern 1 (quiet seen (updproc _ _)) => apply quiet_updproc; done : quiet.
Lemma quiet_kalloc : quiet seen kalloc.
Proof. unfold kalloc. quiet_tac. Qed.
Lemma quiet_kfree v : quiet seen (kfree v).
Proof. unfold kfree. quiet_tac. Qed.
Lemma quiet_kread64 a : quiet seen (kread64 a).
Proof. unfold kread64. quiet_tac. Qed.
Lemma quiet_kwrite64 a v : quiet seen (kwrite64 a v).
Proof. unfold kwrite64. quiet_tac. Qed.
#[export] Hint Resolve quiet_kalloc quiet_kfree quiet_kread64 quiet_kwrite64 : quiet.
Lemma quiet_walkpgdir d va : quiet seen (walkpgdir d va false).
Proof. unfold walkpgdir. cbn [negb]. quiet_tac. Qed.
#[export] Hint Resolve quiet_walkpgdir : quiet.
Lemma quiet_deallocuvm_loop d o fuel : ∀ a, quiet seen (deallocuvm_loop d o a fuel).
Proof. induction fuel; intros a; cbn [deallocuvm_loop]; quiet_tac. Qed.
#[export] Hint Resolve quiet_deallocuvm_loop : quiet.
Lemma quiet_freevm d : quiet seen (freevm d).
Proof. unfold freevm, deallocuvm, freevm_table. quiet_tac. Qed.
Lemma quiet_switchuvm i : quiet seen (switchuvm i).
Proof. unfold switchuvm. quiet_tac. Qed.
#[export] Hint Resolve quiet_freevm quiet_switchuvm : quiet.

(** Some sleepers are made runnable. *)
Definition woke (l l' : list procstate) : Prop := Forall2 (λ a b, b = a ∨ a = SLEEPING ∧ b = RUNNABLE) l l'.
#[global] Instance woke_preorder : PreOrder woke.
Proof.
  split.
  - intros l. apply Forall_Forall2_diag, Forall_true. auto.
  - intros l1 l2 l3 H12. revert l3. induction H12 as [|a b l1 l2 Hab H12 IH]; intros l3 H23; inversion H23 as [|? c ? l3' Hbc H23']; subst; constructor; [|by apply IH].
    destruct Hab as [->|[-> ->]], Hbc as [->|[? ->]]; auto; discriminate.
Qed.
Lemma woke_map (f : proc → proc) ps : (∀ p, p_state (f p) = p_state p ∨ p_state p = SLEEPING ∧ p_state (f p) = RUNNABLE) →
  woke (p_state <$> ps) (p_state <$> map f ps).
Proof. intros Hf. unfold woke. rewrite Forall2_fmap. apply Forall2_fmap_r, Forall_Forall2_diag, Forall_true. intros p. apply Hf. Qed.

(** The states satisfy [P], and the rest is [r]. *)
Definition at_ (P : list procstate → Prop) r (k : kernel) : Prop := P (sts k) ∧ rest k = r.
Lemma at_seen P r k k' : seen k' = seen k → at_ P r k → at_ P r k'.
Proof.
  intros Hs [HP Hr]. pose proof (f_equal fst Hs) as H1. pose proof (f_equal snd Hs) as H2. cbn [seen fst snd] in H1, H2.
  split; [by rewrite H1|by rewrite H2].
Qed.

Section runs.
Context {r : option nat * (nat * list (option nat))} {A : Type} {Q : A → kernel → Prop} {W : kernel → Prop}.
Lemma at_quiet {A'} P (m : K A') (f : A' → K A) : quiet seen m → (∀ a, runs (at_ P r) (f a) Q W) → runs (at_ P r) (m ≫= f) Q W.
Proof.
  intros Hm Hf k Hk. specialize (Hm k). unfold mbind, M_bind. destruct (m k) as [a k'| |k'| |]; try done.
  apply Hf. by apply (at_seen P r k).
Qed.
Lemma at_get P (f : kernel → K A) : (∀ k, at_ P r k → runs (at_ P r) (f k) Q W) → runs (at_ P r) (get ≫= f) Q W.
Proof. intros Hf k Hk. by apply (Hf k Hk). Qed.
Lemma at_upd P i st (f : unit → K A) : runs (at_ (λ l', ∃ l, P l ∧ l' = <[i := st]> l) r) (f tt) Q W → runs (at_ P r) (updproc i (set_p_state st) ≫= f) Q W.
Proof.
  intros Hf k [HP Hr]. apply (Hf (set_pt (set_procs (alter (set_p_state st) i) (k_pt k)) k)). split; [|done]. exists (sts k). split; [done|].
  unfold sts. cbn. apply list_eq. intros j. destruct (decide (j = i)) as [->|Hne].
  - rewrite list_lookup_fmap, list_lookup_alter_eq. destruct (pt_proc (k_pt k) !! i) as [p|] eqn:Hp; cbn.
    + rewrite list_lookup_insert_eq; [done|]. rewrite length_fmap. by eapply lookup_lt_Some.
    + symmetry. apply lookup_ge_None. rewrite length_insert, length_fmap. by apply lookup_ge_None.
  - rewrite list_lookup_fmap, list_lookup_alter_ne, list_lookup_insert_ne, list_lookup_fmap by done. done.
Qed.
Lemma at_set l i st (f : unit → K A) : runs (at_ (eq (<[i := st]> l)) r) (f tt) Q W → runs (at_ (eq l) r) (updproc i (set_p_state st) ≫= f) Q W.
Proof. intros Hf. apply at_upd. eapply runs_pre; [|exact Hf]. intros k [(l1 & <- & Hk) Hr]. by split. Qed.
Lemma at_ret P (a : A) : (∀ k, at_ P r k → Q a k) → runs (at_ P r) (mret a) Q W.
Proof. done. Qed.
End runs.

(** [sched] comes to [swtch]. *)
Lemma at_sched {A} P r (f : unit → K A) (Q : A → kernel → Prop) (W : kernel → Prop) :
  (∀ k, at_ P r k → W k) → runs (at_ P r) (sched ≫= f) Q W.
Proof.
  intros HW. eapply (runs_bind _ _ _ (λ _ _, False)); [|by intros a k []]. unfold sched.
  apply at_quiet; [quiet_tac|]. intros h. destruct (negb h); [apply runs_panic|].
  apply at_quiet; [quiet_tac|]. intros c. destruct (negb (c_ncli c =? 1)); [apply runs_panic|].
  apply at_quiet; [quiet_tac|]. intros i. apply at_quiet; [quiet_tac|]. intros p.
  case_bool_decide; [apply runs_panic|]. destruct (c_if c); [apply runs_panic|].
  apply at_quiet; [quiet_tac|]. intros _. exact HW.
Qed.
Lemma at_sched1 P r (Q : unit → kernel → Prop) (W : kernel → Prop) : (∀ k, at_ P r k → W k) → runs (at_ P r) sched Q W.
Proof. intros HW k Hk. pose proof (at_sched P r mret Q W HW k Hk) as H. by rewrite bind_ret_r in H. Qed.

(** Reading the result of a piece of code. *)
Lemma at_start {A} (m : K A) Q W k : runs (at_ (eq (sts k)) (rest k)) m Q W →
  match m k with Ok a k' => Q a k' | Sleeps k' => W k' | _ => True end.
Proof. intros Hr. by apply Hr. Qed.
Lemma quiet_end {A} P r (m : K A) (Q : A → kernel → Prop) W : quiet seen m → (∀ a k, at_ P r k → Q a k) → runs (at_ P r) m Q W.
Proof.
  intros Hm HQ k Hk. specialize (Hm k). destruct (m k); try done. apply HQ. by apply (at_seen P r k).
Qed.

Section effects.
Context (l : list procstate) (r : option nat * (nat * list (option nat))).
(** The process of this CPU. *)
Definition cur : option nat := r.2.2 !! r.2.1 ≫= id.
Lemma at_cur P k : at_ P r k → curproc (k_mach k) = cur.
Proof. intros [_ Hr]. rewrite curproc_cprocs. unfold cur. by rewrite <-Hr. Qed.

Lemma at_myproc {A} P (f : nat → K A) Q W : (∀ me, cur = Some me → runs (at_ P r) (f me) Q W) → runs (at_ P r) (myproc ≫= f) Q W.
Proof.
  intros Hf k Hk. pose proof (at_cur P k Hk) as Hc. unfold myproc, get, need, mbind, M_bind.
  destruct (curproc (k_mach k)) as [me|]; [|done]. by apply Hf.
Qed.

Lemma at_wakeup1_ptr {A} P o (f : unit → K A) Q W : (∀ l1 l2, woke l1 l2 → P l1 → P l2) →
  runs (at_ P r) (f tt) Q W → runs (at_ P r) (wakeup1_proc_ptr o ≫= f) Q W.
Proof.
  intros HP Hf k [Hk Hr]. destruct o as [i|]; apply Hf; split; try done; (eapply HP; [|exact Hk]); apply woke_map;
    intros p; unfold wakeup1_proc; (case_bool_decide as Hd; [right; by destruct Hd|by left]).
Qed.

Lemma eff_wakeup ch : runs (at_ (eq l) r) (wakeup ch) (λ _, at_ (woke l) r) (λ _, False).
Proof.
  unfold wakeup. apply at_quiet; [quiet_tac|]. intros _. eapply (runs_bind _ _ _ (λ _, at_ (woke l) r)).
  - apply runs_modify. intros k [Hl Hr]. split; [|done]. rewrite Hl. apply woke_map. intros p. unfold wakeup1_proc. case_bool_decide as Hd; [|by left].
    right. by destruct Hd.
  - intros []. apply quiet_end; [quiet_tac|done].
Qed.

Lemma eff_exit me (Q : unit → kernel → Prop) : runs (at_ (eq l) r) (exit_locked me) Q
  (at_ (λ l', ∃ l1, woke l l1 ∧ l' = <[me := ZOMBIE]> l1) r).
Proof.
  unfold exit_locked. apply at_quiet; [quiet_tac|]. intros _. apply at_quiet; [quiet_tac|]. intros p.
  apply (runs_pre (at_ (woke l) r)); [intros k [Hl Hr]; split; [by rewrite <-Hl|exact Hr]|].
  apply (at_wakeup1_ptr (woke l)); [intros l1 l2 H12 H1; by transitivity l1|].
  eapply (runs_bind _ _ _ (λ _, at_ (woke l) r)).
  { apply runs_for_each. intros i _. unfold reparent. apply at_quiet; [quiet_tac|]. intros q. unfold when.
    case_bool_decide; [|apply at_ret; auto]. apply at_get. intros k _. apply at_quiet; [quiet_tac|]. intros _.
    case_bool_decide; [|apply at_ret; auto]. intros k1 Hk1.
    pose proof (at_wakeup1_ptr (woke l) (pt_initproc (k_pt k)) mret (λ _, at_ (woke l) r) (at_ (λ l', ∃ l1, woke l l1 ∧ l' = <[me := ZOMBIE]> l1) r)) as Hw.
    specialize (Hw ltac:(intros l1 l2 H12 H1; by transitivity l1) ltac:(apply at_ret; auto) k1 Hk1). by rewrite bind_ret_r in Hw. }
  intros []. apply at_upd, at_sched. intros k [(l1 & H1 & H2) Hr]. split; [by exists l1|done].
Qed.

Lemma wait_scan_some me ps : ∀ i j b, wait_scan me ps i = (Some j, b) → ∃ m c, j = (i + m)%nat ∧ ps !! m = Some c ∧ p_state c = ZOMBIE.
Proof.
  induction ps as [|p ps IH]; intros i j b; cbn [wait_scan]; [done|]. case_bool_decide; cbn [negb].
  - case_bool_decide as Hz; [intros [= <- <-]; exists 0%nat, p; split; [lia|done]|].
    destruct (wait_scan me ps (S i)) as [z b'] eqn:E. intros [= -> _]. apply IH in E as (m & c & -> & ?). exists (S m), c. split; [lia|done].
  - intros (m & c & -> & ?)%IH. exists (S m), c. split; [lia|done].
Qed.

Lemma eff_wait_loop me : cur = Some me → runs (at_ (eq l) r) (wait_loop me 0)
  (λ _, at_ (λ l', l' = l ∨ ∃ i, l !! i = Some ZOMBIE ∧ l' = <[i := UNUSED]> l) r) (at_ (eq (<[me := SLEEPING]> l)) r).
Proof.
  intros Hme. cbn [wait_loop]. apply at_get. intros k Hk. pose proof Hk as [Hl _].
  destruct (wait_scan me (pt_proc (k_pt k)) 0) as [[i|] b] eqn:Hscan.
  - apply wait_scan_some in Hscan as (m & c & -> & Hc & Hz). cbn [Nat.add].
    unfold reap. do 4 (apply at_quiet; [quiet_tac|]; intros ?). apply at_set. apply quiet_end; [quiet_tac|].
    intros _ k1 [Hs Hr]. split; [|done]. right. exists m. split; [|done]. rewrite Hl. unfold sts. rewrite list_lookup_fmap, Hc. cbn. by rewrite Hz.
  - apply at_quiet; [quiet_tac|]. intros p. destruct (negb b || p_killed p).
    + apply quiet_end; [quiet_tac|]. intros _ k1 [Hs Hr]. split; [by left|done].
    + eapply (runs_bind _ _ _ (λ _ _, False)); [|by intros a k1 []]. unfold sleep. apply at_get. intros k1 Hk1. rewrite (at_cur _ _ Hk1), Hme.
      rewrite bool_decide_true by done. cbn [negb when]. apply at_quiet; [quiet_tac|]. intros _. apply at_quiet; [quiet_tac|]. intros _. apply at_set, at_sched1.
      auto.
Qed.
Lemma eff_wait : runs (at_ (eq l) r) wait
  (λ _, at_ (λ l', l' = l ∨ ∃ i, l !! i = Some ZOMBIE ∧ l' = <[i := UNUSED]> l) r)
  (λ k, ∃ me, cur = Some me ∧ at_ (eq (<[me := SLEEPING]> l)) r k).
Proof.
  unfold wait. apply at_quiet; [quiet_tac|]. intros _. apply at_myproc. intros me Hme.
  eapply runs_post; [by apply eff_wait_loop|done|done|]. intros k Hk. by exists me.
Qed.

Lemma eff_sleep ch lk (Q : unit → kernel → Prop) : runs (at_ (eq l) r) (sleep ch lk) Q
  (λ k, ∃ me, cur = Some me ∧ at_ (eq (<[me := SLEEPING]> l)) r k).
Proof.
  unfold sleep. apply at_get. intros k Hk. rewrite (at_cur _ _ Hk). destruct cur as [me|]; [|apply runs_panic]. destruct lk as [lk|]; [|apply runs_panic].
  apply at_quiet; [quiet_tac|]. intros _. apply at_quiet; [quiet_tac|]. intros _. apply at_set, at_sched1.
  intros k2 Hk2. by exists me.
Qed.
Lemma eff_yield (Q : unit → kernel → Prop) : runs (at_ (eq l) r) yield Q
  (λ k, ∃ me, cur = Some me ∧ at_ (eq (<[me := RUNNABLE]> l)) r k).
Proof.
  unfold yield. apply at_quiet; [quiet_tac|]. intros _. apply at_myproc. intros me Hme. apply at_set, at_sched1.
  intros k2 Hk2. by exists me.
Qed.

Lemma woke_set i : l !! i = Some SLEEPING → woke l (<[i := RUNNABLE]> l).
Proof. intros Hi. unfold woke. rewrite <-(list_insert_id _ _ _ Hi) at 1. apply Forall2_insert; [reflexivity|by right]. Qed.
Lemma eff_kill pid : runs (at_ (eq l) r) (kill pid) (λ _, at_ (woke l) r) (λ _, False).
Proof.
  unfold kill. apply at_quiet; [quiet_tac|]. intros _. apply at_get. intros k _. destruct (pid_scan _ _ _) as [i|].
  - apply at_quiet; [quiet_tac|]. intros _.
    eapply (runs_bind _ _ _ (λ p k, at_ (eq l) r k ∧ l !! i = Some (p_state p))).
    { intros k1 [Hl Hr]. unfold getproc, get, need, mbind, M_bind. destruct (pt_proc (k_pt k1) !! i) as [p|] eqn:Hp; [|done].
      split; [by split|]. rewrite Hl. unfold sts. by rewrite list_lookup_fmap, Hp. }
    intros p. cbn beta. intros k1 [Hk1 Hp]. revert k1 Hk1. change (runs (at_ (eq l) r) (when (bool_decide (p_state p = SLEEPING)) (updproc i (set_p_state RUNNABLE));; release L_ptable;; mret 0) (λ _, at_ (woke l) r) (λ _, False)).
    unfold when. case_bool_decide as Hs.
    + apply at_set. apply quiet_end; [quiet_tac|]. intros _ k1 [Hl1 Hr]. split; [|done]. rewrite <-Hl1. apply woke_set. by rewrite Hp, Hs.
    + apply quiet_end; [quiet_tac|]. intros _ k1 [Hl1 Hr]. split; [by rewrite <-Hl1|done].
  - apply quiet_end; [quiet_tac|]. intros _ k1 [Hl1 Hr]. split; [by rewrite <-Hl1|done].
Qed.

Lemma unused_scan_spec ps : ∀ i j, unused_scan ps i = Some j → ∃ m p, j = (i + m)%nat ∧ ps !! m = Some p ∧ p_state p = UNUSED.
Proof.
  induction ps as [|p ps IH]; intros i j; cbn [unused_scan]; [done|]. case_bool_decide as Hu.
  - intros [= <-]. exists 0%nat, p. split; [lia|done].
  - intros (m & q & -> & ?)%IH. exists (S m), q. split; [lia|done].
Qed.
Lemma eff_slot : runs (at_ (eq l) r) alloc_slot
  (λ o k, match o with Some np => l !! np = Some UNUSED ∧ at_ (eq (<[np := EMBRYO]> l)) r k | None => at_ (eq l) r k end) (λ _, False).
Proof.
  unfold alloc_slot. apply at_quiet; [quiet_tac|]. intros _. apply at_get. intros k [Hl _]. destruct (unused_scan _ _) as [i|] eqn:Hu.
  - apply unused_scan_spec in Hu as (m & p & -> & Hp & Hs). cbn [Nat.add]. apply at_set. apply at_quiet; [quiet_tac|]. intros _.
    apply at_quiet; [unfold updpt; quiet_tac|]. intros _. apply at_quiet; [quiet_tac|]. intros _. apply at_ret. intros k1 Hk1. split; [|done].
    rewrite Hl. unfold sts. rewrite list_lookup_fmap, Hp. cbn. by rewrite Hs.
  - apply at_quiet; [quiet_tac|]. intros _. apply at_ret. auto.
Qed.
Lemma eff_stack np : runs (at_ (eq l) r) (alloc_stack np)
  (λ o, match o with Some _ => at_ (eq l) r | None => at_ (eq (<[np := UNUSED]> l)) r end) (λ _, False).
Proof.
  unfold alloc_stack. apply at_quiet; [quiet_tac|]. intros ks. apply at_quiet; [quiet_tac|]. intros _. destruct (ks =? 0).
  - apply at_set, at_ret. auto.
  - apply at_quiet; [quiet_tac|]. intros _. apply at_ret. auto.
Qed.
Lemma at_upd1 i st (Q : unit → kernel → Prop) W : (∀ k, at_ (eq (<[i := st]> l)) r k → Q tt k) → runs (at_ (eq l) r) (updproc i (set_p_state st)) Q W.
Proof.
  intros HQ k Hk. pose proof (at_set l i st mret (r:=r) (Q:=Q) (W:=W)) as H.
  specialize (H ltac:(apply at_ret; exact HQ) k Hk). by rewrite bind_ret_r in H.
Qed.
Lemma eff_undo np : runs (at_ (eq l) r) (updproc np (set_p_pgdir 0);; fork_undo np) (λ _, at_ (eq (<[np := UNUSED]> l)) r) (λ _, False).
Proof.
  apply at_quiet; [quiet_tac|]. intros _. unfold fork_undo. do 3 (apply at_quiet; [quiet_tac|]; intros ?). by apply at_upd1.
Qed.
Lemma eff_start np : runs (at_ (eq l) r) (fork_start np) (λ _, at_ (eq (<[np := RUNNABLE]> l)) r) (λ _, False).
Proof.
  unfold fork_start. apply at_quiet; [quiet_tac|]. intros _. apply at_set. apply quiet_end; [quiet_tac|].
  done.
Qed.
Lemma eff_image me pgdir np : runs (at_ (eq l) r) (updproc np (set_p_pgdir pgdir);; p ← getproc me; fork_image me p np) (λ _, at_ (eq l) r) (λ _, False).
Proof. apply quiet_end; [|done]. unfold fork_image. quiet_tac. Qed.

Lemma eff_resume me st ie : cur = Some me → runs (at_ (eq l) r) (resume me st ie)
  (λ _, at_ (λ l', l' = l ∨ ∃ i, l !! i = Some ZOMBIE ∧ l' = <[i := UNUSED]> l) r) (at_ (eq (<[me := SLEEPING]> l)) r).
Proof.
  intros Hme.
  assert (Hdone : ∀ k, at_ (eq l) r k → at_ (λ l', l' = l ∨ ∃ i, l !! i = Some ZOMBIE ∧ l' = <[i := UNUSED]> l) r k) by (intros k [Hl Hr]; split; [by left|done]).
  destruct st as [| |lk|]; cbn [resume]; [apply quiet_end; [quiet_tac|auto]| |apply quiet_end; [unfold sleep_wake; quiet_tac|auto]|apply quiet_end; [quiet_tac|auto]].
  apply at_quiet; [quiet_tac|]. intros _. apply at_quiet; [unfold sleep_wake; quiet_tac|]. intros _.
  eapply runs_bind; [by apply eff_wait_loop|]. intros z. by intros k Hk.
Qed.
End effects.

(** [scheduler_visit] chooses a runnable process. *)
Lemma set_cpuproc_run v k k' : set_cpuproc v k = Ok tt k' →
  k_pt k' = k_pt k ∧ m_me (k_mach k') = m_me (k_mach k) ∧ cprocs (k_mach k') = <[m_me (k_mach k) := v]> (cprocs (k_mach k)) ∧
  (m_me (k_mach k) < length (cprocs (k_mach k)))%nat.
Proof.
  unfold set_cpuproc, on_mach, mycpu, get, need, set_mycpu, modify, mbind, M_bind. destruct (m_cpus (k_mach k) !! m_me (k_mach k)) as [c|] eqn:Hc; [|done].
  intros [= <-]. cbn. split; [done|]. split; [done|]. unfold cprocs. cbn. rewrite list_fmap_insert, length_fmap. split; [done|]. by eapply lookup_lt_Some.
Qed.
Lemma visit_run n b k k' : scheduler_visit n k = Ok b k' →
  b = false ∧ k' = k ∧ sts k !! n ≠ Some RUNNABLE ∨
  b = true ∧ sts k !! n = Some RUNNABLE ∧ sts k' = <[n := RUNNING]> (sts k) ∧ pt_initproc (k_pt k') = pt_initproc (k_pt k) ∧
    m_me (k_mach k') = m_me (k_mach k) ∧ cprocs (k_mach k') = <[m_me (k_mach k) := Some n]> (cprocs (k_mach k)) ∧
    (m_me (k_mach k) < length (cprocs (k_mach k)))%nat.
Proof.
  intros H. unfold scheduler_visit in H. inv_ok H as p k1 H1.
  assert (k1 = k ∧ sts k !! n = Some (p_state p)) as [-> Hn].
  { unfold getproc, get, need, mbind, M_bind in H1. destruct (pt_proc (k_pt k) !! n) as [q|] eqn:Hq; [|done]. injection H1 as -> ->.
    split; [done|]. unfold sts. by rewrite list_lookup_fmap, Hq. }
  case_bool_decide as Hs; cbn [negb] in H.
  - right. inv_ok H as u2 k2 H2. destruct u2. apply set_cpuproc_run in H2 as (Hpt & Hme & Hc & Hlt). inv_ok H as u3 k3 H3.
    pose proof (quiet_switchuvm n k2) as Hq. rewrite H3 in Hq. pose proof (f_equal fst Hq) as Hq1. pose proof (f_equal snd Hq) as Hq2. cbn [seen fst snd] in Hq1, Hq2.
    pose proof (at_start (updproc n (set_p_state RUNNING);; mret true) (λ _, at_ (eq (<[n := RUNNING]> (sts k3))) (rest k3)) (λ _, False) k3) as Hu.
    specialize (Hu ltac:(apply at_set, at_ret; auto)). rewrite H in Hu. destruct Hu as [Hu1 Hu2].
    split; [by inv_ok H as u4 k4 H4; injection H as <-|]. split; [by rewrite Hn, Hs|].
    assert (Hs2 : sts k2 = sts k) by (unfold sts; by rewrite Hpt). rewrite <-Hu1, Hq1, Hs2. split; [done|].
    unfold rest in Hu2, Hq2. rewrite Hq2 in Hu2. injection Hu2 as -> -> ->. by rewrite Hpt, Hme, Hc.
  - left. unfold mret, M_ret in H. simplify_eq. split; [done|]. split; [done|]. rewrite Hn. congruence.
Qed.

(** ** The life of a process *)

Definition live (o : option procstate) : Prop := o = Some RUNNING ∨ o = Some RUNNABLE ∨ o = Some SLEEPING.
(** [on] gives the processes that run on the CPUs, [kid] the processes that
    are being made. *)
Record lives (l : list procstate) (on kid : nat → option nat) (ini : option nat) : Prop := {
  lv_on : ∀ c i, on c = Some i → l !! i = Some RUNNING;
  lv_inj : ∀ c c' i, on c = Some i → on c' = Some i → c = c';
  lv_fork : ∀ i np, kid i = Some np → live (l !! i) ∧ l !! np = Some EMBRYO;
  lv_kid : ∀ i i' np, kid i = Some np → kid i' = Some np → i = i';
  lv_init : ∀ i, ini = Some i → live (l !! i)
}.

Lemma lives_ext l on on' kid kid' ini : (∀ c, on' c = on c) → (∀ i, kid' i = kid i) → lives l on kid ini → lives l on' kid' ini.
Proof.
  intros Ho Hk [H1 H2 H3 H4 H5]. split; intros *; rewrite ?Ho, ?Hk; eauto.
Qed.
Lemma woke_lookup l l' i st : woke l l' → l !! i = Some st → st ≠ SLEEPING → l' !! i = Some st.
Proof. intros Hw Hi Hne. eapply Forall2_lookup_l in Hw as (b & Hb & [->|[? _]]); [done|done|exact Hi]. Qed.
Lemma woke_live l l' i : woke l l' → live (l !! i) → live (l' !! i).
Proof.
  intros Hw [Hi|[Hi|Hi]]; [left|right; left|right]; [by eapply woke_lookup..|].
  eapply Forall2_lookup_l in Hw as (b & Hb & [->|[_ ->]]); [by right|by left|exact Hi].
Qed.
Lemma lives_woke l l' on kid ini : woke l l' → lives l on kid ini → lives l' on kid ini.
Proof.
  intros Hw [H1 H2 H3 H4 H5]. split; [|done| |done|].
  - intros c i Hc. by eapply woke_lookup; [|eapply H1|].
  - intros i np Hi. destruct (H3 i np Hi) as [Hl Hn]. split; [by eapply woke_live|by eapply woke_lookup].
  - intros i Hi. eapply woke_live; [done|by apply H5].
Qed.

(** One process goes from state [a] to [b], and with it perhaps onto or off CPU
    [c0], or into or out of the making by [j0]. *)
Lemma lives_set l i a b on on' kid kid' ini c0 j0 : lives l on kid ini → l !! i = Some a →
  (∀ c j, on' c = Some j → j ≠ i ∧ on c = Some j ∨ j = i ∧ b = RUNNING ∧ c = c0) →
  (∀ j np, kid' j = Some np → np ≠ i ∧ kid j = Some np ∨ np = i ∧ j = j0 ∧ j0 ≠ i ∧ b = EMBRYO ∧ live (l !! j0)) →
  (live (Some a) → live (Some b) ∨ kid i = None ∧ ini ≠ Some i) →
  lives (<[i := b]> l) on' kid' ini.
Proof.
  intros [H1 H2 H3 H4 H5] Hi Hon Hkid Hlive. pose proof (lookup_lt_Some _ _ _ Hi) as Hlt.
  assert (Hl : ∀ j, live (l !! j) → (j = i → kid i = None ∧ ini ≠ Some i → False) → live (<[i := b]> l !! j)).
  { intros j Hj Hno. destruct (decide (j = i)) as [->|Hne]; [|by rewrite list_lookup_insert_ne].
    rewrite list_lookup_insert_eq by done. rewrite Hi in Hj. destruct (Hlive Hj) as [|Hx]; [done|]. by destruct (Hno eq_refl Hx). }
  split.
  - intros c j [[Hne Hc]|(-> & -> & _)]%Hon; [rewrite list_lookup_insert_ne by done; by eapply H1|by apply list_lookup_insert_eq].
  - intros c c' j Hc Hc'. apply Hon in Hc as [[Hne Hc]|(-> & _ & ->)], Hc' as [[Hne' Hc']|(? & _ & ->)]; [by eapply H2|done|done|done].
  - intros j np Hj. apply Hkid in Hj as [[Hne Hj]|(-> & -> & Hne & -> & Hj)].
    + destruct (H3 j np Hj) as [Hlj Hnp]. split; [|by rewrite list_lookup_insert_ne]. apply Hl; [done|]. intros -> [Hk _]. congruence.
    + split; [by rewrite list_lookup_insert_ne|by apply list_lookup_insert_eq].
  - intros j j' np Hj Hj'. apply Hkid in Hj as [[Hne Hj]|(-> & -> & _)], Hj' as [[Hne' Hj']|(? & -> & _)]; [by eapply H4|done|done|done].
  - intros j Hj. apply Hl; [by apply H5|]. intros -> [_ Hx]. congruence.
Qed.

(** ** Invariants of the system *)

Definition on (s : os) (c : nat) : option nat :=
  match os_cpu s c with CResume | CProc => cprocs (k_mach (os_k s)) !! c ≫= id | _ => None end.
Definition child (t : task) : option nat := match t with TAny => None | TSlot np | TChild np | TBorn np => Some np end.
Definition kid (s : os) (i : nat) : option nat := child (os_task s i).
Record os_inv (s : os) : Prop := {
  oi_pt : pt_inv (k_pt (os_k s));
  oi_lives : lives (sts (os_k s)) (on s) (kid s) (pt_initproc (k_pt (os_k s)))
}.

(** CPU [c] is in a pass and has not come to entry [i] yet. *)
Definition ahead (s : os) (c i : nat) : Prop :=
  match os_cpu s c with
  | CIdle => False
  | CLoop n => (n <= i)%nat
  | CResume | CProc | CBack => ∃ m, cprocs (k_mach (os_k s)) !! c = Some (Some m) ∧ (m < i)%nat
  end.
(** What a step keeps: the invariant, and that process [i] is runnable and
    still to be looked at by CPU [c], unless some CPU chooses it. *)
Definition good (s s' : os) : Prop :=
  os_inv s' ∧ ∀ c i, (i < Z.to_nat NPROC)%nat → sts (os_k s) !! i = Some RUNNABLE → ahead s c i →
    (∃ c', os_ran s' = os_ran s ++ [(c', i)]) ∨ sts (os_k s') !! i = Some RUNNABLE ∧ ahead s' c i ∧ ∃ l, os_ran s' = os_ran s ++ l.

Lemma sts_set (l : list procstate) (i : nat) a b (j : nat) : l !! i = Some a → a ≠ RUNNABLE → l !! j = Some RUNNABLE → <[i := b]> l !! j = Some RUNNABLE.
Proof. intros Hi Ha Hj. rewrite list_lookup_insert_ne; [done|]. intros ->. congruence. Qed.

Section steps.
Context (s : os) (Hs : os_inv s).

Lemma rest_cprocs k' : rest k' = rest (os_k s) → cprocs (k_mach k') = cprocs (k_mach (os_k s)) ∧ m_me (k_mach k') = m_me (k_mach (os_k s)) ∧ pt_initproc (k_pt k') = pt_initproc (k_pt (os_k s)).
Proof. unfold rest. intros Hr. by injection Hr as -> -> ->. Qed.

(** The CPU stays where it is; [s'] differs in the globals and the task of one
    process. *)
Lemma good_here s' : (∀ c, os_cpu s' c = os_cpu s c) → cprocs (k_mach (os_k s')) = cprocs (k_mach (os_k s)) → os_ran s' = os_ran s →
  os_inv s' → (∀ j, sts (os_k s) !! j = Some RUNNABLE → sts (os_k s') !! j = Some RUNNABLE) → good s s'.
Proof.
  intros Hc Hp Hr Hi Hst. split; [done|]. intros c i _ Hrun Ha. right. split; [by apply Hst|]. split; [|exists []; by rewrite Hr, app_nil_r].
  unfold ahead in *. by rewrite Hc, Hp.
Qed.
Lemma on_here s' : (∀ c, os_cpu s' c = os_cpu s c) → cprocs (k_mach (os_k s')) = cprocs (k_mach (os_k s)) → ∀ c, on s' c = on s c.
Proof. intros Hc Hp c. unfold on. by rewrite Hc, Hp. Qed.
Lemma good_woke k' : rest k' = rest (os_k s) → woke (sts (os_k s)) (sts k') → pt_inv (k_pt k') → good s (with_k k' s).
Proof.
  intros (Hp & Hm & Hi)%rest_cprocs Hw Hpt. apply good_here; [done|done|done| |].
  - split; [done|]. cbn. rewrite Hi. eapply lives_woke; [exact Hw|]. eapply lives_ext; [|done|apply Hs]. by apply on_here.
  - intros j Hj. by eapply woke_lookup.
Qed.

(** This CPU goes to [p], in the code of its process or out of it. *)
Definition in_proc (p : cpos) : Prop := p = CResume ∨ p = CProc.
Lemma ahead_goto p k' : rest k' = rest (os_k s) → in_proc (os_cpu s (this_cpu s)) → in_proc p ∨ p = CBack → ∀ c i, ahead s c i → ahead (goto p k' s) c i.
Proof.
  intros (Hp & _ & _)%rest_cprocs Hin Hto c i. unfold ahead, goto. cbn. rewrite Hp. unfold fupd. case_decide as Hc; [|done]. subst c.
  intros Ha. unfold in_proc in *. by destruct Hin as [Hin|Hin]; rewrite Hin in Ha; destruct Hto as [[->| ->]| ->].
Qed.
(** Process [me] gives up the CPU, in state [b]; it may have woken others. *)
Lemma good_leave me st b l1 k' : in_proc (os_cpu s (this_cpu s)) → curproc (k_mach (os_k s)) = Some me → rest k' = rest (os_k s) → woke (sts (os_k s)) l1 → sts k' = <[me := b]> l1 →
  live (Some b) ∨ kid s me = None ∧ pt_initproc (k_pt (os_k s)) ≠ Some me → pt_inv (k_pt k') → good s (leave me st k' s).
Proof.
  intros Hin Hme Hr Hw Hst Hb Hpt. pose proof (rest_cprocs _ Hr) as (Hp & Hm & Hi). rewrite curproc_cprocs in Hme.
  assert (Hon : on s (this_cpu s) = Some me) by (unfold on; destruct Hin as [-> | ->]; exact Hme).
  pose proof (lv_on _ _ _ _ (oi_lives _ Hs) _ _ Hon) as Hrun. pose proof (woke_lookup _ _ _ _ Hw Hrun ltac:(done)) as Hrun1. split.
  - split; [exact Hpt|]. cbn [leave stops goto os_k]. rewrite Hst, Hi.
    eapply (lives_set l1 me RUNNING b (on s) _ (kid s) _ _ 0 0); [eapply lives_woke; [exact Hw|apply Hs]|exact Hrun1| | |].
    + intros c j Hc. left. unfold on in Hc. cbn in Hc. rewrite Hp in Hc. unfold fupd in Hc. case_decide as Hd; [done|].
      assert (Hcj : on s c = Some j) by exact Hc. split; [|exact Hcj]. intros ->. apply Hd. by eapply (lv_inj _ _ _ _ (oi_lives _ Hs)).
    + intros j np Hj. left. assert (Hk : kid s j = Some np) by exact Hj. split; [|done]. intros ->.
      destruct (lv_fork _ _ _ _ (oi_lives _ Hs) _ _ Hk) as [_ He]. congruence.
    + auto.
  - intros c i _ Hri Ha. right. cbn [leave stops os_k os_ran goto]. split; [|split; [|exists []; by rewrite app_nil_r]].
    + rewrite Hst. eapply sts_set; [exact Hrun1|done|]. by eapply woke_lookup.
    + exact (ahead_goto CBack k' Hr Hin (or_intror eq_refl) c i Ha).
Qed.
(** A process without a CPU changes its state; this CPU is and stays in the code
    of a process. *)
Lemma lives_off s' i a : in_proc (os_cpu s (this_cpu s)) → (∀ c, c ≠ (this_cpu s) → os_cpu s' c = os_cpu s c) → in_proc (os_cpu s' (this_cpu s)) →
  cprocs (k_mach (os_k s')) = cprocs (k_mach (os_k s)) → sts (os_k s) !! i = Some a → a ≠ RUNNING → ∀ c j, on s' c = Some j → j ≠ i ∧ on s c = Some j.
Proof.
  intros Hin Hc Hin' Hp Hi Ha c j Hj.
  assert (Ho : on s c = Some j).
  { unfold on in *. rewrite Hp in Hj. destruct (decide (c = (this_cpu s))) as [->|Hne]; [|by rewrite Hc in Hj].
    unfold in_proc in *. by destruct Hin as [-> | ->], Hin' as [Hx|Hx]; rewrite Hx in Hj. }
  split; [|done]. intros ->. pose proof (lv_on _ _ _ _ (oi_lives _ Hs) _ _ Ho). congruence.
Qed.
End steps.

(** ** Every step keeps the invariants *)

Lemma eff_ok {A} (m : K A) Q W k a k' : runs (at_ (eq (sts k)) (rest k)) m Q W → m k = Ok a k' → Q a k'.
Proof. intros Hr Hm. apply at_start in Hr. by rewrite Hm in Hr. Qed.
Lemma eff_sleeps {A} (m : K A) Q W k k' : runs (at_ (eq (sts k)) (rest k)) m Q W → m k = Sleeps k' → W k'.
Proof. intros Hr Hm. apply at_start in Hr. by rewrite Hm in Hr. Qed.
Lemma pt_ok {A} (m : K A) k a k' : pt_pres m → pt_inv (k_pt k) → m k = Ok a k' → pt_inv (k_pt k').
Proof. intros Hp Hk Hm. eapply runs_elim; [exact Hp|exact Hk|eauto]. Qed.
Lemma pt_sleeps {A} (m : K A) k k' : pt_pres m → pt_inv (k_pt k) → m k = Sleeps k' → pt_inv (k_pt k').
Proof. intros Hp Hk Hm. eapply runs_elim; [exact Hp|exact Hk|eauto]. Qed.
Lemma cur_rest k : cur (rest k) = curproc (k_mach k).
Proof. symmetry. by apply (at_cur (rest k) (eq (sts k)) k). Qed.
Lemma outcome_some {A} (r : res kernel A) f g s : outcome r f g = Some s →
  (∃ a k, r = Ok a k ∧ f a k = Some s) ∨ ∃ k, r = Sleeps k ∧ g k = Some s.
Proof. destruct r; cbn; intros H; try done; eauto. Qed.
Lemma returns_some {A} (r : res kernel A) f s : returns r f = Some s → ∃ a k, r = Ok a k ∧ f a k = Some s.
Proof. intros [?|(k & _ & ?)]%outcome_some; done. Qed.

Section proc_steps.
Context (s : os) (Hs : os_inv s) (me : nat).
Context (Hin : in_proc (os_cpu s (this_cpu s))) (Hme : curproc (k_mach (os_k s)) = Some me).

(** Of the processes that do not live, only those change that no CPU runs. *)
Lemma good_off s' i a b j0 : ¬ live (Some a) → (∀ c, c ≠ this_cpu s → os_cpu s' c = os_cpu s c) → in_proc (os_cpu s' (this_cpu s)) →
  rest (os_k s') = rest (os_k s) → os_ran s' = os_ran s → sts (os_k s) !! i = Some a → sts (os_k s') = <[i := b]> (sts (os_k s)) →
  (∀ j np, kid s' j = Some np → np ≠ i ∧ kid s j = Some np ∨ np = i ∧ j = j0 ∧ j0 ≠ i ∧ b = EMBRYO ∧ live (sts (os_k s) !! j0)) →
  pt_inv (k_pt (os_k s')) → good s s'.
Proof.
  intros Ha Hc Hin' (Hp & _ & Hi)%rest_cprocs Hran Hsi Hst Hkid Hpt. split.
  - split; [done|]. rewrite Hst, Hi. eapply (lives_set _ i a b (on s) _ (kid s) _ _ 0 j0); [apply Hs|done| |done|done].
    intros c j Hj. left. eapply (lives_off s Hs s' i a); eauto. intros ->. apply Ha. by left.
  - intros c j _ Hj Hah. right. split; [|split; [|exists []; by rewrite Hran, app_nil_r]].
    + rewrite Hst. eapply sts_set; [done| |done]. intros ->. apply Ha. by right; left.
    + unfold ahead in *. rewrite Hp. destruct (decide (c = this_cpu s)) as [->|Hne]; [|by rewrite Hc].
      destruct Hin as [He|He]; rewrite He in Hah; destruct Hin' as [-> | ->]; exact Hah.
Qed.
(** The states stay. *)
Lemma good_same s' : (∀ c, c ≠ this_cpu s → os_cpu s' c = os_cpu s c) → in_proc (os_cpu s' (this_cpu s)) →
  rest (os_k s') = rest (os_k s) → os_ran s' = os_ran s → sts (os_k s') = sts (os_k s) → (∀ j, kid s' j = kid s j) →
  pt_inv (k_pt (os_k s')) → good s s'.
Proof.
  intros Hc Hin' (Hp & _ & Hi)%rest_cprocs Hran Hst Hkid Hpt. split.
  - split; [done|]. rewrite Hst, Hi. eapply lives_ext; [|exact Hkid|apply Hs]. intros c. unfold on. rewrite Hp.
    destruct (decide (c = this_cpu s)) as [->|Hne]; [|by rewrite Hc]. by destruct Hin as [-> | ->], Hin' as [-> | ->].
  - intros c j _ Hj Hah. right. split; [by rewrite Hst|split; [|exists []; by rewrite Hran, app_nil_r]].
    unfold ahead in *. rewrite Hp. destruct (decide (c = this_cpu s)) as [->|Hne]; [|by rewrite Hc].
    destruct Hin as [He|He]; rewrite He in Hah; destruct Hin' as [-> | ->]; exact Hah.
Qed.
Lemma good_reaped s' : (∀ c, c ≠ this_cpu s → os_cpu s' c = os_cpu s c) → in_proc (os_cpu s' (this_cpu s)) → os_ran s' = os_ran s →
  at_ (λ l', l' = sts (os_k s) ∨ ∃ i, sts (os_k s) !! i = Some ZOMBIE ∧ l' = <[i := UNUSED]> (sts (os_k s))) (rest (os_k s)) (os_k s') →
  (∀ j, kid s' j = kid s j) → pt_inv (k_pt (os_k s')) → good s s'.
Proof.
  intros Hc Hin' Hran [[Hst|(i & Hz & Hst)] Hr] Hkid Hpt; [by apply good_same|].
  eapply (good_off s' i ZOMBIE UNUSED 0); eauto; [by intros [?|[?|?]]|]. intros j np. rewrite Hkid. intros Hj. left. split; [|done].
  intros ->. destruct (lv_fork _ _ _ _ (oi_lives _ Hs) _ _ Hj). congruence.
Qed.
(** The process that [me] makes ceases to be one in the making. *)
Lemma good_made s' np b : kid s me = Some np → (∀ c, os_cpu s' c = os_cpu s c) → rest (os_k s') = rest (os_k s) → os_ran s' = os_ran s →
  sts (os_k s') = <[np := b]> (sts (os_k s)) → (∀ j, kid s' j = fupd me None (kid s) j) → pt_inv (k_pt (os_k s')) → good s s'.
Proof.
  intros Hk Hc Hr Hran Hst Hkid Hpt. destruct (lv_fork _ _ _ _ (oi_lives _ Hs) _ _ Hk) as [_ He].
  eapply (good_off s' np EMBRYO b 0); eauto; [by intros [?|[?|?]]|by rewrite Hc|].
  intros j np'. rewrite Hkid. unfold fupd. case_decide as Hd; [done|]. intros Hj. left. split; [|done]. intros ->. apply Hd.
  by eapply (lv_kid _ _ _ _ (oi_lives _ Hs)).
Qed.

Lemma good_exit k' : kid s me = None → pt_initproc (k_pt (os_k s)) ≠ Some me → exit_locked me (os_k s) = Sleeps k' → good s (leave me SNew k' s).
Proof.
  intros Hk Hi Hx. pose proof (eff_sleeps _ _ _ _ _ (eff_exit _ _ me (λ _ _, True)) Hx) as [(l1 & Hw & Hst) Hr].
  eapply (good_leave s Hs me SNew ZOMBIE l1); eauto. eapply runs_elim; [by apply runs_exit_locked|apply Hs|eauto].
Qed.
Lemma good_wait s' : outcome (wait (os_k s)) (λ _ k', Some (with_k k' s)) (λ k', Some (leave me SWait k' s)) = Some s' → good s s'.
Proof.
  intros [(a & k' & Hx & [= <-])|(k' & Hx & [= <-])]%outcome_some.
  - apply good_reaped; try done. { exact (eff_ok _ _ _ _ _ _ (eff_wait _ _) Hx). } eapply pt_ok; [apply pt_pres_wait|apply Hs|exact Hx].
  - pose proof (eff_sleeps _ _ _ _ _ (eff_wait _ _) Hx) as (me' & Hc & Hst & Hr). rewrite cur_rest, Hme in Hc. injection Hc as <-.
    eapply (good_leave s Hs me SWait SLEEPING (sts (os_k s))); eauto; [done|left; by right; right|]. eapply pt_sleeps; [apply pt_pres_wait|apply Hs|exact Hx].
Qed.
(** [me] gives up the CPU and lives on. *)
Lemma good_gives {A} (m : K A) (Q : A → kernel → Prop) b st k' :
  (∀ l r, runs (at_ (eq l) r) m Q (λ k, ∃ me, cur r = Some me ∧ at_ (eq (<[me := b]> l)) r k)) → live (Some b) → pt_pres m →
  m (os_k s) = Sleeps k' → good s (leave me st k' s).
Proof.
  intros He Hb Hp Hx. pose proof (eff_sleeps _ _ _ _ _ (He _ _) Hx) as (me' & Hc & Hst & Hr). rewrite cur_rest, Hme in Hc. injection Hc as <-.
  eapply (good_leave s Hs me st b (sts (os_k s))); eauto; [done|]. eapply pt_sleeps; [exact Hp|apply Hs|exact Hx].
Qed.
(** Others are perhaps woken. *)
Lemma good_wakes {A} (m : K A) a k' : (∀ l r, runs (at_ (eq l) r) m (λ _, at_ (woke l) r) (λ _, False)) → pt_pres m →
  m (os_k s) = Ok a k' → good s (with_k k' s).
Proof.
  intros He Hp Hx. destruct (eff_ok _ _ _ _ _ _ (He _ _) Hx) as [Hw Hr]. apply good_woke; [done|done|done|]. eapply pt_ok; [exact Hp|apply Hs|exact Hx].
Qed.

Lemma on_me : on s (this_cpu s) = Some me.
Proof. unfold on. rewrite curproc_cprocs in Hme. by destruct Hin as [-> | ->]. Qed.
Lemma me_running : sts (os_k s) !! me = Some RUNNING.
Proof. eapply (lv_on _ _ _ _ (oi_lives _ Hs)), on_me. Qed.

Lemma kid_does np t s0 j : os_task s0 = os_task s → kid (does np t s0) j = fupd np (child t) (kid s) j.
Proof. intros Ht. unfold kid, does, fupd. cbn. rewrite Ht. by case_decide. Qed.

Lemma good_slot o k' : kid s me = None → alloc_slot (os_k s) = Ok o k' →
  good s (match o with Some np => does me (TSlot np) (with_k k' s) | None => with_k k' s end).
Proof.
  intros Hk Hx. pose proof me_running as Hrun. pose proof (eff_ok _ _ _ _ _ _ (eff_slot _ _) Hx) as He. assert (Hpt : pt_inv (k_pt k')) by (eapply pt_ok; [apply pt_pres_slot|apply Hs|exact Hx]).
  destruct o as [np|]; cbn beta iota in He.
  - destruct He as [Hu [Hst Hr]]. eapply (good_off _ np UNUSED EMBRYO me); try done; [by intros [?|[?|?]]|].
    intros j np'. rewrite kid_does by done. unfold fupd. case_decide as Hd.
    + subst j. intros [= <-]. right. split_and!; [done|done| |done|by left]. intros ->. congruence.
    + intros Hj. left. split; [|done]. intros ->. destruct (lv_fork _ _ _ _ (oi_lives _ Hs) _ _ Hj). congruence.
  - destruct He as [Hst Hr]. apply good_same; done.
Qed.
Lemma good_stack np o k' : os_task s me = TSlot np → alloc_stack np (os_k s) = Ok o k' →
  good s (match o with Some _ => stops np SNew false (does me (TChild np) (with_k k' s)) | None => does me TAny (with_k k' s) end).
Proof.
  intros Ht Hx. pose proof (eff_ok _ _ _ _ _ _ (eff_stack _ _ np) Hx) as He. assert (Hpt : pt_inv (k_pt k')) by (eapply pt_ok; [apply pt_pres_stack|apply Hs|exact Hx]).
  assert (Hk : kid s me = Some np) by (unfold kid; by rewrite Ht).
  destruct o as [v|]; cbn beta iota in He; destruct He as [Hst Hr].
  - apply good_same; try done. intros j. change (kid (does me (TChild np) (with_k k' s)) j = kid s j). rewrite kid_does by done. unfold fupd. case_decide; [by subst|done].
  - eapply (good_made _ np UNUSED); eauto. intros j. by rewrite kid_does.
Qed.
Lemma good_finish {A} (m : K A) np b a k' : kid s me = Some np →
  (∀ l r, runs (at_ (eq l) r) m (λ _, at_ (eq (<[np := b]> l)) r) (λ _, False)) → pt_pres m →
  m (os_k s) = Ok a k' → good s (does me TAny (with_k k' s)).
Proof.
  intros Hk He Hp Hx. destruct (eff_ok _ _ _ _ _ _ (He _ _) Hx) as [Hst Hr]. eapply (good_made _ np b); eauto.
  - intros j. by rewrite kid_does.
  - eapply pt_ok; [exact Hp|apply Hs|exact Hx].
Qed.
End proc_steps.

Lemma pt_pres_undo np : pt_pres (updproc np (set_p_pgdir 0);; fork_undo np).
Proof.
  apply pt_pres_bind; [apply pt_pres_upd; intros t; apply calm_upd; auto|]. intros _. unfold fork_undo.
  apply pt_pres_bind; [apply pt_pres_keeps; unfold getproc; keeps_tac|]. intros q.
  apply pt_pres_bind; [apply pt_pres_keeps, keeps_kfree_pt|]. intros _.
  apply pt_pres_bind; [apply pt_pres_upd; intros t; apply calm_upd; auto|]. intros _. apply pt_pres_upd. intros t. by apply calm_state.
Qed.
Lemma pt_pres_start np : pt_pres (fork_start np).
Proof.
  unfold fork_start. apply pt_pres_bind; [apply pt_pres_keeps, keeps_acquire_pt|]. intros _.
  apply pt_pres_bind; [apply pt_pres_upd; intros t; by apply calm_state|]. intros _. apply pt_pres_keeps, keeps_release_pt.
Qed.

(** [fork] gives the new process its parent while it is in the making. *)
Definition making (np : nat) (t : ptable) : Prop :=
  pt_inv t ∧ (∃ q, pt_proc t !! np = Some q ∧ p_state q = EMBRYO) ∧ pt_initproc t ≠ Some np.
Lemma making_upd np i f : (∀ p, p_state (f p) = p_state p ∧ p_parent (f p) = p_parent p ∧ p_chan (f p) = p_chan p) →
  ∀ t, making np t → making np (set_procs (alter f i) t).
Proof.
  intros Hf t (Hpt & (q & Hq & He) & Hi). split; [|split; [|done]].
  - eapply pt_inv_calm, Hpt. apply calm_upd. intros p _. destruct (Hf p) as (-> & -> & ->). auto.
  - cbn. destruct (decide (i = np)) as [->|Hne].
    + exists (f q). rewrite list_lookup_alter_eq, Hq. by rewrite (proj1 (Hf q)).
    + exists q. by rewrite list_lookup_alter_ne.
Qed.
Lemma runs_image me np pgdir : np ≠ me → runs (λ k, making np (k_pt k))
  (updproc np (set_p_pgdir pgdir);; p ← getproc me; fork_image me p np) (λ _ k, pt_inv (k_pt k)) (λ k, pt_inv (k_pt k)).
Proof.
  intros Hne. eapply (runs_bind _ _ _ (λ _ k, making np (k_pt k))); [by apply runs_updproc, making_upd|]. intros [].
  eapply (runs_bind _ _ _ (λ _ k, making np (k_pt k))).
  { intros k Hk. unfold getproc, get, need, mbind, M_bind. by destruct (pt_proc (k_pt k) !! me). }
  intros p. unfold fork_image. eapply (runs_bind _ _ _ (λ _ k, making np (k_pt k))); [by apply runs_updproc, making_upd|]. intros [].
  eapply (runs_bind _ _ _ (λ _ k, pt_inv (k_pt k))).
  { apply (runs_updproc np _ (making np) pt_inv). intros t (Hpt & (q & Hq & He) & Hi). by eapply pt_inv_parent. }
  intros []. eapply (runs_bind _ _ _ (λ _ k, pt_inv (k_pt k))); [|intros []]; apply runs_upd_calm; intros t; apply calm_upd; cbn; auto.
Qed.

Lemma good_image s me np pgdir k' : os_inv s → in_proc (os_cpu s (this_cpu s)) → curproc (k_mach (os_k s)) = Some me → os_task s me = TChild np →
  (updproc np (set_p_pgdir pgdir);; p ← getproc me; fork_image me p np) (os_k s) = Ok tt k' → good s (does me (TBorn np) (with_k k' s)).
Proof.
  intros Hs Hin Hme Ht Hx. destruct (eff_ok _ _ _ _ _ _ (eff_image _ _ me pgdir np) Hx) as [Hst Hr].
  assert (Hk : kid s me = Some np) by (unfold kid; by rewrite Ht). destruct (lv_fork _ _ _ _ (oi_lives _ Hs) _ _ Hk) as [_ He].
  eapply good_same; try done.
  - intros j. rewrite (kid_does s) by done. unfold fupd. case_decide; [by subst|done].
  - eapply runs_elim; [apply (runs_image me np pgdir)| |eauto].
    + intros ->. pose proof (me_running s Hs me Hin Hme). congruence.
    + split; [apply Hs|]. split.
      * unfold sts in He. rewrite list_lookup_fmap in He. destruct (pt_proc (k_pt (os_k s)) !! np) as [q|]; [|done]. injection He as He. eauto.
      * intros Hi. destruct (lv_init _ _ _ _ (oi_lives _ Hs) _ Hi) as [?|[?|?]]; congruence.
Qed.

Lemma quiet_cur {A} (m : K A) me W : quiet seen m → pt_pres m →
  runs (λ k, pt_inv (k_pt k) ∧ curproc (k_mach k) = Some me) m (λ _ k, pt_inv (k_pt k) ∧ curproc (k_mach k) = Some me) W.
Proof.
  intros Hq Hp k [Hk Hme]. specialize (Hq k). specialize (Hp k Hk). destruct (m k) as [a k'| |k'| |]; try done. split; [done|].
  pose proof (f_equal snd Hq) as Hr. cbn [seen snd] in Hr. by rewrite <-cur_rest, Hr, cur_rest.
Qed.
Lemma runs_resume me st ie : runs (λ k, pt_inv (k_pt k) ∧ curproc (k_mach k) = Some me) (resume me st ie) (λ _ k, pt_inv (k_pt k)) (λ k, pt_inv (k_pt k)).
Proof.
  assert (Hsr : pt_pres (sched_return ie)) by (apply pt_pres_keeps; unfold sched_return; keeps_tac; apply keeps_on_mach_pt).
  assert (Hrel : ∀ lk, pt_pres (release lk)) by (intros lk; apply pt_pres_keeps, keeps_release_pt).
  destruct st as [| |lk|]; cbn [resume].
  - eapply runs_pre; [|apply Hrel]. by intros k [? _].
  - eapply runs_bind; [apply quiet_cur; [quiet_tac|done]|]. intros []. eapply runs_bind; [apply runs_sleep_wake|]. intros [].
    eapply runs_bind; [apply runs_wait_loop|]. intros z. by intros k Hk.
  - eapply runs_pre; [|apply (pt_pres_bind _ _ Hsr)]; [by intros k [? _]|]. intros []. unfold sleep_wake.
    apply pt_pres_bind; [apply pt_pres_keeps; unfold myproc; keeps_tac|]. intros i.
    apply pt_pres_bind; [apply pt_pres_upd; intros t; apply calm_upd; intros p _; cbn; naive_solver|]. intros [].
    apply pt_pres_when, Hrel.
  - eapply runs_pre; [|apply (pt_pres_bind _ _ Hsr)]; [by intros k [? _]|]. intros []. apply Hrel.
Qed.
Lemma good_resume s me s' : os_inv s → os_cpu s (this_cpu s) = CResume → curproc (k_mach (os_k s)) = Some me →
  outcome (resume me (os_stop s me).1 (os_stop s me).2 (os_k s)) (λ _ k', Some (goto CProc k' s)) (λ k', Some (leave me SWait k' s)) = Some s' → good s s'.
Proof.
  intros Hs Hcpu Hme. assert (Hin : in_proc (os_cpu s (this_cpu s))) by (by left).
  assert (Hcur : cur (rest (os_k s)) = Some me) by (by rewrite cur_rest).
  intros [(a & k' & Hx & [= <-])|(k' & Hx & [= <-])]%outcome_some.
  - eapply good_reaped; [exact Hs|exact Hin| | |done|exact (eff_ok _ _ _ _ _ _ (eff_resume _ _ _ _ _ Hcur) Hx)|done|].
    + intros c Hc. cbn. unfold fupd. by rewrite decide_False.
    + cbn. unfold fupd. rewrite decide_True by done. by right.
    + eapply runs_elim; [apply runs_resume|split; [apply Hs|exact Hme]|eauto].
  - destruct (eff_sleeps _ _ _ _ _ (eff_resume _ _ _ _ _ Hcur) Hx) as [Hst Hr].
    eapply (good_leave s Hs me SWait SLEEPING (sts (os_k s))); eauto; [done|left; by right; right|].
    eapply runs_elim; [apply runs_resume|split; [apply Hs|exact Hme]|eauto].
Qed.

Lemma good_proc s a me s' : os_inv s → os_cpu s (this_cpu s) = CProc → curproc (k_mach (os_k s)) = Some me → proc_step a me s = Some s' → good s s'.
Proof.
  intros Hs Hcpu Hme. assert (Hin : in_proc (os_cpu s (this_cpu s))) by (by right).
  assert (Hany : os_task s me = TAny → kid s me = None) by (intros Ht; unfold kid; by rewrite Ht). unfold proc_step.
  destruct a; try done.
  - destruct (os_task s me) eqn:Ht; try done. case_bool_decide; [done|]. intros [(? & ? & _ & ?)|(k' & Hx & [= <-])]%outcome_some; [done|].
    by apply good_exit; auto.
  - destruct (os_task s me) eqn:Ht; try done. by apply good_wait.
  - destruct (proc_chan ch || bool_decide (lk = L_ptable)) eqn:Hch; [done|]. apply orb_false_iff in Hch as [Hch _].
    intros [(? & ? & _ & ?)|(k' & Hx & [= <-])]%outcome_some; [done|].
    eapply (good_gives s Hs me Hin Hme (sleep ch (Some lk)) (λ _ _, True) SLEEPING); [intros; apply eff_sleep|by right; right|apply pt_pres_sleep; by intros i ->|exact Hx].
  - intros [(? & ? & _ & ?)|(k' & Hx & [= <-])]%outcome_some; [done|].
    eapply (good_gives s Hs me Hin Hme _ (λ _ _, True) RUNNABLE); [intros; apply eff_yield|by right; left|apply pt_pres_yield|exact Hx].
  - destruct (os_task s me) eqn:Ht; try done. intros (a & k' & Hx & [= <-])%returns_some.
    eapply good_wakes; [exact Hs|intros; apply eff_kill|apply pt_pres_kill|exact Hx].
  - destruct (os_task s me) eqn:Ht; try done. intros (o & k' & Hx & [= <-])%returns_some. by apply good_slot; auto.
  - destruct (os_task s me) eqn:Ht; try done. intros (o & k' & Hx & [= <-])%returns_some. by apply good_stack.
  - destruct (os_task s me) as [| |np|] eqn:Ht; try done. intros (o & k' & Hx & [= <-])%returns_some.
    eapply (good_finish s Hs me Hin _ np UNUSED); [unfold kid; by rewrite Ht|intros; apply eff_undo|apply pt_pres_undo|exact Hx].
  - destruct (os_task s me) as [| |np|] eqn:Ht; try done. destruct (pgdir =? 0); [done|]. intros ([] & k' & Hx & [= <-])%returns_some.
    by eapply good_image.
  - destruct (os_task s me) as [| | |np] eqn:Ht; try done. intros (o & k' & Hx & [= <-])%returns_some.
    eapply (good_finish s Hs me Hin _ np RUNNABLE); [unfold kid; by rewrite Ht|intros; apply eff_start|apply pt_pres_start|exact Hx].
Qed.

Section cpu_steps.
Context (s : os) (Hs : os_inv s).

Lemma good_quiet {A} (m : K A) a k' : quiet seen m → keeps k_pt m → m (os_k s) = Ok a k' → good s (with_k k' s).
Proof.
  intros Hq Hk Hx. specialize (Hq (os_k s)). rewrite Hx in Hq. pose proof (f_equal fst Hq) as Hst. pose proof (f_equal snd Hq) as Hr. cbn [seen fst snd] in Hst, Hr.
  apply good_woke; [done|done|by rewrite Hst|]. eapply pt_ok; [by apply pt_pres_keeps|apply Hs|exact Hx].
Qed.
(** Off the code of a process, this CPU goes to [p]. *)
Lemma good_off_proc p k' : on s (this_cpu s) = None → ¬ in_proc p → (∀ c, c ≠ this_cpu s → cprocs (k_mach k') !! c = cprocs (k_mach (os_k s)) !! c) →
  sts k' = sts (os_k s) → pt_initproc (k_pt k') = pt_initproc (k_pt (os_k s)) → pt_inv (k_pt k') →
  (∀ i, (i < Z.to_nat NPROC)%nat → sts (os_k s) !! i = Some RUNNABLE → ahead s (this_cpu s) i → ahead (goto p k' s) (this_cpu s) i) →
  good s (goto p k' s).
Proof.
  intros Hon Hp Hcp Hst Hi Hpt Ha.
  assert (Hcpu : ∀ c, c ≠ this_cpu s → os_cpu (goto p k' s) c = os_cpu s c) by (intros c Hc; cbn; unfold fupd; by rewrite decide_False).
  split.
  - split; [done|]. cbn [goto os_k]. rewrite Hst, Hi. eapply lives_ext; [|done|apply Hs]. intros c.
    destruct (decide (c = this_cpu s)) as [->|Hne]; [|unfold on; by rewrite Hcpu, Hcp].
    rewrite Hon. unfold on. cbn. unfold fupd. rewrite decide_True by done. destruct p; try done; destruct Hp; unfold in_proc; auto.
  - intros c i Hlt Hrun Hah. right. split; [by cbn; rewrite Hst|]. split; [|exists []; by rewrite app_nil_r].
    destruct (decide (c = this_cpu s)) as [->|Hne]; [by apply Ha|]. unfold ahead in *. rewrite Hcpu by done. cbn. by rewrite Hcp.
Qed.
Lemma good_move {A} (m : K A) a p k' : quiet seen m → keeps k_pt m → m (os_k s) = Ok a k' → on s (this_cpu s) = None → ¬ in_proc p →
  (∀ i, (i < Z.to_nat NPROC)%nat → ¬ ahead s (this_cpu s) i) → good s (goto p k' s).
Proof.
  intros Hq Hk Hx Hon Hp Ha. specialize (Hq (os_k s)). rewrite Hx in Hq. pose proof (f_equal fst Hq) as Hst. pose proof (f_equal snd Hq) as Hr. cbn [seen fst snd] in Hst, Hr.
  destruct (rest_cprocs _ _ Hr) as (Hcp & _ & Hi). apply good_off_proc; try done; [by rewrite Hcp|eapply pt_ok; [by apply pt_pres_keeps|apply Hs|exact Hx]|].
  intros i Hlt _ Hah. by destruct (Ha i Hlt).
Qed.
Lemma ahead_goto_this p k' i : ahead (goto p k' s) (this_cpu s) i ↔
  match p with CIdle => False | CLoop n => (n <= i)%nat | CResume | CProc | CBack => ∃ m, cprocs (k_mach k') !! this_cpu s = Some (Some m) ∧ (m < i)%nat end.
Proof. unfold ahead. cbn. unfold fupd. by rewrite decide_True. Qed.

Lemma good_pass n : os_cpu s (this_cpu s) = CLoop n → sts (os_k s) !! n ≠ Some RUNNABLE → good s (goto (CLoop (S n)) (os_k s) s).
Proof.
  intros Hc Hn. apply good_off_proc; try done; [unfold on; by rewrite Hc|by intros [|]|apply Hs|].
  intros i _ Hrun Hah. apply ahead_goto_this. unfold ahead in Hah. rewrite Hc in Hah. assert (i ≠ n) by congruence. lia.
Qed.
Lemma good_back i k' : os_cpu s (this_cpu s) = CBack → curproc (k_mach (os_k s)) = Some i → set_cpuproc None (os_k s) = Ok tt k' →
  good s (goto (CLoop (S i)) k' s).
Proof.
  intros Hc Hme (Hpt & _ & Hcp & _)%set_cpuproc_run. apply good_off_proc; [unfold on; by rewrite Hc|by intros [|]| |by unfold sts; rewrite Hpt|by rewrite Hpt|rewrite Hpt; apply Hs|].
  - intros c Hne. rewrite Hcp. by rewrite list_lookup_insert_ne.
  - intros j _ _ Hah. apply ahead_goto_this. unfold ahead in Hah. rewrite Hc in Hah. destruct Hah as (m & Hm & Hlt).
    rewrite curproc_cprocs in Hme. fold (this_cpu s) in Hme. rewrite Hm in Hme. injection Hme as ->. lia.
Qed.
Lemma good_choose n k' : os_cpu s (this_cpu s) = CLoop n → scheduler_visit n (os_k s) = Ok true k' → good s (goto CResume k' (chosen n s)).
Proof.
  intros Hc Hx. assert (Hpt : pt_inv (k_pt k')) by (eapply pt_ok; [apply pt_pres_visit|apply Hs|exact Hx]).
  apply visit_run in Hx as [(? & _)|(_ & Hn & Hst & Hi & _ & Hcp & Hlt)]; [done|]. fold (this_cpu s) in Hcp, Hlt.
  assert (Hcpu : ∀ c, c ≠ this_cpu s → os_cpu (goto CResume k' (chosen n s)) c = os_cpu s c) by (intros c Hne; cbn; unfold fupd; by rewrite decide_False).
  assert (Hcps : ∀ c, c ≠ this_cpu s → cprocs (k_mach k') !! c = cprocs (k_mach (os_k s)) !! c) by (intros c Hne; rewrite Hcp; by apply list_lookup_insert_ne).
  assert (Hme : cprocs (k_mach k') !! this_cpu s = Some (Some n)) by (rewrite Hcp; by apply list_lookup_insert_eq).
  assert (Hthis : os_cpu (goto CResume k' (chosen n s)) (this_cpu s) = CResume) by (cbn; unfold fupd; by rewrite decide_True).
  split.
  - split; [done|]. cbn [goto chosen os_k]. rewrite Hst, Hi.
    eapply (lives_set _ n RUNNABLE RUNNING (on s) _ (kid s) _ _ (this_cpu s) 0); [apply Hs|exact Hn| | |intros _; left; by left].
    + intros c j Hj. unfold on in Hj. destruct (decide (c = this_cpu s)) as [->|Hne].
      * rewrite Hthis in Hj. cbn in Hj. rewrite Hme in Hj. injection Hj as <-. by right.
      * rewrite Hcpu in Hj by done. cbn [goto os_k] in Hj. rewrite Hcps in Hj by done. left. assert (Ho : on s c = Some j) by exact Hj. split; [|done].
        intros ->. pose proof (lv_on _ _ _ _ (oi_lives _ Hs) _ _ Ho). congruence.
    + intros j np Hj. left. assert (Hk : kid s j = Some np) by exact Hj. split; [|done]. intros ->. destruct (lv_fork _ _ _ _ (oi_lives _ Hs) _ _ Hk). congruence.
  - intros c i _ Hrun Hah. destruct (decide (i = n)) as [->|Hne]; [left; by exists (this_cpu s)|]. right. cbn [goto chosen os_k os_ran].
    split; [rewrite Hst; by rewrite list_lookup_insert_ne|split; [|by eexists]].
    unfold ahead in *. destruct (decide (c = this_cpu s)) as [->|Hnc].
    + rewrite Hthis. rewrite Hc in Hah. exists n. split; [done|lia].
    + rewrite Hcpu by done. cbn [goto os_k]. by rewrite Hcps.
Qed.

Lemma good_step a s' : cpu_step a s = Some s' → good s s'.
Proof.
  assert (Hacq : ∀ lk, keeps k_pt (acquire lk)) by (intros; apply keeps_acquire_pt).
  assert (Hrel : ∀ lk, keeps k_pt (release lk)) by (intros; apply keeps_release_pt).
  assert (Hp : cpu_step a s = match os_cpu s (this_cpu s), curproc (k_mach (os_k s)) with CProc, Some me => proc_step a me s | _, _ => None end → cpu_step a s = Some s' → good s s').
  { intros -> Hx. destruct (os_cpu s (this_cpu s)) eqn:Hc; try done. destruct (curproc (k_mach (os_k s))) as [me|] eqn:Hme; [|done]. by eapply good_proc. }
  destruct a; try (apply Hp; unfold cpu_step; by destruct (os_cpu s (this_cpu s))); clear Hp; unfold cpu_step.
  - destruct (os_cpu s (this_cpu s)) eqn:Hc; try done; try by destruct (curproc _). intros (a & k' & Hx & [= <-])%returns_some.
    eapply good_move; [| |exact Hx|unfold on; by rewrite Hc|by intros [|]|intros i _ Hah; unfold ahead in Hah; by rewrite Hc in Hah]; [quiet_tac|keeps_tac; apply keeps_on_mach_pt].
  - destruct (os_cpu s (this_cpu s)) as [|n| | |] eqn:Hc; try done; try by destruct (curproc _). case_bool_decide; [|done]. intros (b & k' & Hx & [= <-])%returns_some.
    destruct b; [by apply good_choose|]. apply visit_run in Hx as [(_ & -> & Hn)|(? & _)]; [by apply good_pass|done].
  - destruct (os_cpu s (this_cpu s)) as [|n| | |] eqn:Hc; try done; try by destruct (curproc _). case_bool_decide; [|done]. intros (b & k' & Hx & [= <-])%returns_some.
    eapply good_move; [| |exact Hx|unfold on; by rewrite Hc|by intros [|]|intros i Hi; unfold ahead; rewrite Hc; lia]; [quiet_tac|done].
  - destruct (os_cpu s (this_cpu s)) as [|n| | |] eqn:Hc; destruct (curproc (k_mach (os_k s))) as [i|] eqn:Hme; try done.
    intros ([] & k' & Hx & [= <-])%returns_some. by apply good_back.
  - destruct (os_cpu s (this_cpu s)) as [|n| | |] eqn:Hc; destruct (curproc (k_mach (os_k s))) as [i|] eqn:Hme; try done. by apply good_resume.
  - intros (a & k' & Hx & [= <-])%returns_some. eapply good_wakes; [exact Hs|intros; apply eff_wakeup|apply pt_pres_wakeup|exact Hx].
  - case_bool_decide; [done|]. intros (a & k' & Hx & [= <-])%returns_some. eapply good_quiet; [| |exact Hx]; [quiet_tac|done].
  - case_bool_decide; [done|]. intros (a & k' & Hx & [= <-])%returns_some. eapply good_quiet; [| |exact Hx]; [quiet_tac|done].
Qed.
End cpu_steps.

Lemma good_os_step s s' : os_inv s → os_step s s' → good s s'.
Proof.
  intros Hs [c Hc|a s1 Hx|i f k' Hf Hx|k' Hpt Hm].
  - apply good_here; try done. split; [apply Hs|]. eapply lives_ext; [|done|apply Hs]. done.
  - by eapply good_step.
  - injection Hx as <-. apply good_woke; [done|done| |].
    + assert (Heq : sts (set_pt (set_procs (alter f i) (k_pt (os_k s))) (os_k s)) = sts (os_k s)); [|by rewrite Heq]. unfold sts. cbn. apply list_eq. intros j. rewrite !list_lookup_fmap.
      destruct (decide (i = j)) as [->|Hne]; [|by rewrite list_lookup_alter_ne]. rewrite list_lookup_alter_eq. destruct (pt_proc _ !! j); [|done]. cbn. f_equal. apply Hf.
    + eapply pt_inv_calm, Hs. apply calm_upd. intros p _. destruct (Hf p) as (-> & -> & ->). auto.
  - apply good_woke; [done| | |]; [unfold rest; by rewrite Hpt, Hm|unfold sts; by rewrite Hpt|rewrite Hpt; apply Hs].
Qed.

Lemma boot_inv s : os_boot s → os_inv s.
Proof.
  intros [(i & p & Hi & Hp & Hr & Hall) Hc Ht _]. split.
  - split.
    + intros j j' _ (q & Hq & Hpar & _). destruct (Hall _ _ Hq) as [Hn _]. congruence.
    + intros j q Hq. destruct (Hall _ _ Hq) as [-> _]. done.
    + intros j q _ Hq. by destruct (Hall _ _ Hq).
  - assert (Hon : ∀ c, on s c = None) by (intros c; unfold on; by rewrite Hc).
    assert (Hkid : ∀ j, kid s j = None) by (intros j; unfold kid; by rewrite Ht).
    split; intros *; rewrite ?Hon, ?Hkid; try done. rewrite Hi. intros [= <-]. right; left.
    unfold sts. rewrite list_lookup_fmap, Hp. cbn. by rewrite Hr.
Qed.
Lemma inv_reach s s' : os_inv s → rtc os_step s s' → os_inv s'.
Proof. intros Hs Hr. induction Hr as [s|s s1 s2 H1 H2 IH]; [done|]. apply IH. by apply good_os_step in H1 as [? _]. Qed.
(** [os_ran] only grows. *)
Lemma step_ran a s s' : cpu_step a s = Some s' → os_ran s `prefix_of` os_ran s'.
Proof.
  unfold cpu_step, proc_step, returns, outcome. intros H. repeat case_match; simplify_eq; try done; cbn; by apply prefix_app_r.
Qed.
Lemma ran_prefix s s' : rtc os_step s s' → os_ran s `prefix_of` os_ran s'.
Proof.
  induction 1 as [s|s s1 s2 H1 H2 IH]; [done|]. etrans; [|exact IH]. destruct H1 as [| a s1 Hx| |]; try done. by eapply step_ran.
Qed.
(** A runnable process that the pass of CPU [c] has not come to is chosen, or
    the pass still has not come to it. *)
Lemma chosen_or_ahead s s' c i : os_inv s → rtc os_step s s' → (i < Z.to_nat NPROC)%nat → sts (os_k s) !! i = Some RUNNABLE → ahead s c i →
  (∃ c', (c', i) ∈ drop (length (os_ran s)) (os_ran s')) ∨ ahead s' c i.
Proof.
  intros Hs Hr Hi. induction Hr as [s|s s1 s2 H1 H2 IH]; intros Hrun Ha; [by right|].
  apply good_os_step in H1 as [Hs1 Hgo]; [|done]. pose proof (ran_prefix _ _ H2) as [l2 Hl2].
  destruct (Hgo c i Hi Hrun Ha) as [[c' Hc']|(Hrun1 & Ha1 & l & Hl)].
  - left. exists c'. rewrite Hl2, Hc', <-app_assoc, drop_app_length. set_solver.
  - destruct (IH Hs1 Hrun1 Ha1) as [[c' Hc']|]; [|by right]. left. exists c'.
    rewrite Hl2 in *. rewrite drop_app_length in Hc'. rewrite Hl, <-app_assoc, drop_app_length. set_solver.
Qed.

(** ** Properties *)

(** C16: from the boot on, and with any number of CPUs, whatever the CPUs and the
    processes do - they schedule, sleep, yield, wait, exit, kill, fork piece by
    piece, wake each other up and use other locks, in any order in which the
    locks let them - a process that sleeps in [wait] never has a zombie
    child, so no exit is missed. *)
Theorem no_exit_missed s s' i j : os_boot s → rtc os_step s s' →
  waiter (pt_proc (k_pt (os_k s'))) i → ¬ zombie_of (pt_proc (k_pt (os_k s'))) i j.
Proof. intros Hb Hr. eapply pi_wait, oi_pt, inv_reach; [by apply boot_inv|exact Hr]. Qed.

(** C26: when a CPU goes through the process table once, from [CLoop 0] to
    [CLoop NPROC], every process that was runnable at the start of the pass has
    been chosen by [scheduler_visit] on some CPU before the pass ends, whatever
    the processes that run in between, and the other CPUs, do. *)
Theorem scheduler_runs_all s0 s s' c i p : os_boot s0 → rtc os_step s0 s → os_cpu s c = CLoop 0 →
  rtc os_step s s' → os_cpu s' c = CLoop (Z.to_nat NPROC) →
  (i < Z.to_nat NPROC)%nat → pt_proc (k_pt (os_k s)) !! i = Some p → p_state p = RUNNABLE →
  ∃ c', (c', i) ∈ drop (length (os_ran s)) (os_ran s').
Proof.
  intros Hb Hr0 Hc Hr Hc' Hi Hp Hs. destruct (chosen_or_ahead s s' c i) as [|Ha]; try done.
  - eapply inv_reach; [by apply boot_inv|exact Hr0].
  - unfold sts. rewrite list_lookup_fmap, Hp. cbn. by rewrite Hs.
  - unfold ahead. rewrite Hc. lia.
  - unfold ahead in Ha. rewrite Hc' in Ha. lia.
Qed.

(** A run of two CPUs, as a list of turns and actions. *)
Fixpoint go (l : list (nat + action)) (s : os) : option os :=
  match l with
  | [] => Some s
  | inl c :: l =>
      if bool_decide (c < length (m_cpus (k_mach (os_k s))))%nat then go l (with_k (set_mach (on_cpu c (k_mach (os_k s))) (os_k s)) s) else None
  | inr a :: l => s ← cpu_step a s; go l s
  end.
Lemma go_steps l : ∀ s s', go l s = Some s' → rtc os_step s s'.
Proof.
  induction l as [|[c|a] l IH]; cbn [go]; intros s s'.
  - intros [= <-]. done.
  - case_bool_decide; [|done]. intros Hgo%IH. by eapply rtc_l; [apply Os_turn|].
  - destruct (cpu_step a s) as [s1|] eqn:Ha; [|done]. cbn. intros Hgo%IH. by eapply rtc_l; [eapply Os_act|].
Qed.
Definition after (l : list (nat + action)) (s : os) : os := default s (go l s).
Lemma after_steps l s : bool_decide (is_Some (go l s)) = true → rtc os_step s (after l s).
Proof. intros [s' Hgo]%bool_decide_eq_true. unfold after. rewrite Hgo. by apply (go_steps l). Qed.

(** The first process is ready, there are two CPUs and a free page. *)
Definition demo_os : os :=
  mkOs (set_mach (mkMach (replicate 2 (mkCpu 0 true true None)) 0 (λ _, mkLock false None))
    (set_pt (mkPtable (set_p_state RUNNABLE proc_run :: replicate 63 proc0) (Some 0%nat) 2)
    (set_kmem (mkKmem false (KERNBASE + 0x5000) 0 (λ _, 0)) (kernel0 ∅))))
    (λ _, CIdle) (λ _, TAny) (λ _, (SNew, false)) [].
Lemma demo_boot : os_boot demo_os.
Proof.
  split; try done. exists 0%nat, (set_p_state RUNNABLE proc_run). split_and!; [done..|].
  intros [|j] q; cbn -[replicate]; [by intros [= <-]|]. intros Hq. apply lookup_replicate in Hq as [-> _]. done.
Qed.
(** It forks, waits, and its child runs on the same CPU and exits. *)
Definition forked : list (nat + action) := inr <$> [ABegin; AVisit; AResume; ASlot; AStack; AImage 8192; AStart].
Definition waits : list (nat + action) := forked ++ [inr AWait].
Definition child_exits : list (nat + action) := waits ++ (inr <$> [ABack; AVisit; AResume; AExit]).
Lemma no_exit_missed_witness :
  let ps l := pt_proc (k_pt (os_k (after l demo_os))) in
  waiter (ps waits) 0 ∧ p_parent <$> ps waits !! 1%nat = Some (Some 0%nat) ∧ ¬ zombie_of (ps waits) 0 1 ∧
  rtc os_step demo_os (after child_exits demo_os) ∧ zombie_of (ps child_exits) 0 1 ∧ p_state <$> ps child_exits !! 0%nat = Some RUNNABLE.
Proof.
  cbv zeta. assert (Hw : waiter (pt_proc (k_pt (os_k (after waits demo_os)))) 0) by (eexists; split_and!; [vm_compute; reflexivity|reflexivity|reflexivity]).
  split; [exact Hw|]. split; [vm_compute; reflexivity|]. split; [|split; [|split]].
  - apply (no_exit_missed demo_os); [apply demo_boot|apply after_steps; vm_compute; reflexivity|exact Hw].
  - apply after_steps. vm_compute. reflexivity.
  - eexists. split_and!; [vm_compute; reflexivity|reflexivity|reflexivity].
  - vm_compute. reflexivity.
Defined.

(** Both are runnable, and CPU 0 begins a pass; while it runs the first process,
    CPU 1 runs the other. *)
Definition visits (n : nat) : list (nat + action) := replicate n (inr AVisit).
Definition pass_begins : list (nat + action) :=
  forked ++ (inr <$> [AYield; ABack; AVisit; AResume; AYield; ABack]) ++ visits 62 ++ (inr <$> [AEnd; ABegin]).
Definition pass_ends : list (nat + action) :=
  (inr <$> [AVisit; AResume]) ++ [inl 1%nat] ++ (inr <$> [ABegin; AVisit; AVisit; AResume]) ++ [inl 0%nat] ++ (inr <$> [AYield; ABack]) ++ visits 63.
Lemma scheduler_runs_all_witness :
  let s := after pass_begins demo_os in let s' := after pass_ends s in
  drop (length (os_ran s)) (os_ran s') = [(0, 0); (1, 1)]%nat ∧ ∃ c', (c', 1%nat) ∈ drop (length (os_ran s)) (os_ran s').
Proof.
  cbv zeta. split; [vm_compute; reflexivity|]. eapply (scheduler_runs_all demo_os _ _ 0 1).
  - apply demo_boot.
  - apply after_steps. vm_compute. reflexivity.
  - vm_compute. reflexivity.
  - apply after_steps. vm_compute. reflexivity.
  - vm_compute. reflexivity.
  - apply Nat.ltb_lt. vm_compute. reflexivity.
  - vm_compute. reflexivity.
  - reflexivity.
Defined.
