(* ===== verification/Main.v ===== *)
(** * Main: the kernel from its entry to the scheduler

    kernel/main.c, the initialization in kernel/vm64.c and the detection of the
    second disk in kernel/ide.c.  The registers that [seginit] loads are its
    result.  The interrupt vectors, the code for the other processors and
    their entry point are made by the assembler and are parameters, as is what
    the hardware answers when it is probed.  The theorem is about the
    interrupt descriptor table: where its gates lead and who may use them. *)

From stdpp Require Import prelude functions gmap strings.
From S2P Require Import Prelude Types Spinlock Sched Ide Bio Cstr Fs Kalloc File Cprintf Intr Console Cpuid Vm Proc Mp Scheduler.
Open Scope Z_scope.

Definition SEG_KCODE : Z := 1.
Definition SEG_KDATA : Z := 2.
Definition SEG_KCPU : Z := 3.
Definition SEG_TSS : Z := 6.

(** ** vm64.c *)

(** A [uint] of an array at [a]. *)
Definition kwrite32 (a v : Z) : K unit := updkm (λ x, set_km_mem (mput_bytes (km_mem x) a (le_put 4 v)) x).

(** The four words of a gate. *)
Definition gate (kva pl : Z) (trap : bool) : list Z :=
  let trap := if trap then 0x8F00 else 0x8E00 in
  [u32 (Z.lor (Z.land kva 0xFFFF) (Z.shiftl (Z.shiftl SEG_KCODE 3) 16));
   u32 (Z.lor (Z.lor (Z.land kva 0xFFFF0000) trap) (Z.shiftl (Z.land pl 3) 13));
   u32 (Z.shiftr kva 32);
   0].
Definition mkgate (idt n kva pl : Z) (trap : bool) : K unit :=
  updkm (λ x, set_km_mem (mput_bytes (km_mem x) (idt + 4 * (u32 (n * 4))) (concat (le_put 4 <$> gate kva pl trap))) x).

Definition tss_set_rsp (tss n rsp : Z) : K unit :=
  kwrite32 (tss + 4 * (n * 2 + 1)) (u32 rsp);;
  kwrite32 (tss + 4 * (n * 2 + 2)) (u32 (Z.shiftr rsp 32)).

(** The registers loaded: the addresses and limits of the two tables, the
    task register and the base of FS, and the page of the CPU. *)
Record segregs := mkSegs { sr_idt : Z * Z; sr_gdt : Z * Z; sr_tr : Z; sr_fs : Z; sr_cpu : Z; sr_local : Z }.

Section boot.
Variable vectors : Z → Z.

(** Every vector behind an interrupt gate, then 64, for system calls, behind
    a trap gate that user code may use. *)
Definition idt_init (idt : Z) : K unit :=
  for_each (seqZ 0 256) (λ n, mkgate idt n (vectors n) 0 false);;
  mkgate idt 64 (vectors 64) 3 true.

Definition seginit : K segregs :=
  idt ← kalloc;
  kmemset idt 0 PGSIZE;;
  idt_init idt;;
  loc ← kalloc;
  kmemset loc 0 PGSIZE;;
  let gdt := loc in
  let tss := loc + 1024 in
  kwrite32 (tss + 4 * 16) 0x00680000;;
  c ← cpunum 0;
  set_cpuproc None;;
  let addr := tss in
  kwrite64 (gdt + 8 * 0) 0;;
  kwrite64 (gdt + 8 * SEG_KCODE) 0x0020980000000000;;
  kwrite64 (gdt + 8 * SEG_UCODE) 0x0020F80000000000;;
  kwrite64 (gdt + 8 * SEG_KDATA) 0x0000920000000000;;
  kwrite64 (gdt + 8 * SEG_KCPU) 0;;
  kwrite64 (gdt + 8 * SEG_UDATA) 0x0000F20000000000;;
  kwrite64 (gdt + 8 * (SEG_TSS + 0))
    (u64 (Z.lor (Z.lor (Z.lor 0x0067 (Z.shiftl (Z.land addr 0xFFFFFF) 16)) (Z.shiftl 0x00E9 40))
       (Z.shiftl (Z.land (Z.shiftr addr 24) 0xFF) 56)));;
  kwrite64 (gdt + 8 * (SEG_TSS + 1)) (Z.shiftr addr 32);;
  mret (mkSegs (idt, PGSIZE) (gdt, 8 * 8) (Z.shiftl SEG_TSS 3) (u64 (loc + PGSIZE / 2)) c loc).

(** ** ide.c *)

(** [probe i] is what the status register of drive 1 reads the [i]-th time. *)
Definition ideinit (probe : nat → Z) : K unit :=
  on_mach (initlock L_ide);;
  picenable IRQ_IDE;;
  p ← getplat;
  ioapicenable IRQ_IDE (ncpu p - 1);;
  idewait false;;
  outb 0x1f6 (Z.lor 0xe0 (Z.shiftl 1 4));;
  (if existsb (λ i, negb (probe i =? 0)) (seq 0 1000) then
     modify (λ k, set_ide (let d := k_ide k in
       mkIde (ide_queue d) true (ide_status d) (ide_nsect d) (ide_lba0 d) (ide_lba1 d) (ide_lba2 d) (ide_drive d) (ide_cmd d) (ide_disk d) (ide_trace d)) k)
   else mret tt);;
  outb 0x1f6 (Z.lor 0xe0 (Z.shiftl 0 4)).

(** ** main.c *)

(** The image of entryother.S, its 64-bit entry, and what happens on the
    machine while CPU [c] starts and this one waits for it. *)
Variable entryother : list Z.
Variable entry32mp : Z.
Variable others : Z → K unit.

Definition start_cpu (code c apicid : Z) : K unit :=
  me ← cpunum 0;
  if c =? me then mret tt else
  stack ← kalloc;
  kwrite32 (code - 4) 0x8000;;
  kwrite32 (code - 8) (u32 (v2p entry32mp));;
  kwrite64 (code - 16) (u64 (stack + KSTACKSIZE));;
  lapicstartap apicid (v2p code);;
  others c;;
  p ← getplat;
  if bool_decide (c ∈ started p) then mret tt else spin.
Definition startothers : K unit :=
  let code := p2v 0x7000 in
  updkm (λ x, set_km_mem (mput_bytes (km_mem x) code entryother) x);;
  p ← getplat;
  for_each (seqZ 0 (ncpu p)) (λ c,
    p ← getplat;
    e ← need (cpus p !! Z.to_nat c);
    start_cpu code c e.2).

(** The processes and the interrupts, as [scheduler] has them, and how many
    rounds of its loop are looked at. *)
Variable run : nat → K unit.
Variable hlt : K unit.
Variable rounds : nat.

(** [cpu->id], where [c] is the index of the CPU that [cpu] points to. *)
Definition cpu_id (c : Z) : K Z :=
  p ← getplat;
  e ← need (cpus p !! Z.to_nat c);
  mret e.1.
(** [c] is [cpu], an index.  [idtinit] and [tvinit] are empty. *)
Definition mpmain (c : Z) : K unit :=
  id ← cpu_id c;
  cprintf (Some (str "cpu%d: starting" ++ [10])) [AInt id];;
  updplat (λ p, set_started (c :: started p) p);;
  scheduler run hlt rounds.

(** What is loaded in the page table register. *)
Definition switchkvm (kv : kvm) : Z := v2p (kpml4 kv).
Definition mpenter (kv : kvm) : K (Z * segregs) :=
  let cr3 := switchkvm kv in
  r ← seginit;
  lapicinit;;
  mpmain (sr_cpu r);;
  mret (cr3, r).

(** The device table until [cpuidinit]. *)
Definition devsw0 : Devsw := {|
  dev_read := λ major, if major =? CONSOLE then Some consoleread else None;
  dev_write := λ major, if major =? CONSOLE then Some consolewrite else None
|}.

(** [kend] is [end], [initcode] the first program; [present], [probe], [imcr]
    and [cpuid] are the answers of the hardware.  The result is the variables
    that are set: the kernel's page tables, the registers and the processor's
    description, with the device table. *)
Definition main (kend : Z) (initcode : list Z) (present : bool) (probe : nat → Z) (imcr : Z) (cpuid : Z → Z → Z * Z * Z * Z) (fuel : nat) :
    K (kvm * segregs * (cpuid_vars * Devsw)) :=
  uartearlyinit present;;
  kinit1 kend (p2v (4 * 1024 * 1024));;
  kv ← kvmalloc;
  r ← acpiinit fuel;
  when (negb (r =? 0)) (mpinit imcr fuel);;
  lapicinit;;
  s ← seginit;
  id ← cpu_id (sr_cpu s);
  cprintf (Some ([10] ++ str "cpu%d: starting xv6" ++ [10; 10])) [AInt id];;
  picinit;;
  ioapicinit;;
  consoleinit;;
  uartinit;;
  pinit;;
  binit;;
  fileinit;;
  iinit;;
  ideinit probe;;
  p ← getplat;
  when (negb (ismp p)) timerinit;;
  startothers;;
  kinit2 (p2v (4 * 1024 * 1024)) (p2v PHYSTOP);;
  @userinit kv initcode devsw0;;
  let d := cpuidinit cpuid in
  mpmain (sr_cpu s);;
  mret (kv, s, d).
End boot.

(** ** The gates *)

(** What a gate says, as the processor reads it: the address it leads to, the
    code segment, the privilege needed to use it by an instruction, whether it
    leaves interrupts on, and whether it is there. *)
Record gate_info := mkGate { g_addr : Z; g_sel : Z; g_dpl : Z; g_trap : bool; g_present : bool }.
Definition read_gate (ws : list Z) : gate_info :=
  let w i := nth i ws 0 in
  mkGate (Z.lor (Z.lor (Z.land (w 0%nat) 0xFFFF) (Z.land (w 1%nat) 0xFFFF0000)) (Z.shiftl (w 2%nat) 32))
    (Z.shiftr (w 0%nat) 16) (Z.land (Z.shiftr (w 1%nat) 13) 3) (Z.land (Z.shiftr (w 1%nat) 8) 0xF =? 0xF) (Z.testbit (w 1%nat) 15).

(** Words put together of two parts. *)
Lemma lor_parts hi lo n : 0 <= n → 0 <= lo < 2 ^ n → Z.lor (Z.shiftl hi n) lo = hi * 2 ^ n + lo.
Proof.
  intros Hn Hlo. rewrite <-Z.shiftl_mul_pow2 by done. symmetry. apply Z.add_nocarry_lor. apply Z.bits_inj'. intros i Hi.
  rewrite Z.land_spec, Z.bits_0. destruct (Z.lt_ge_cases i n); [by rewrite Z.shiftl_spec_low by lia|].
  rewrite (Z.testbit_eqb lo) by lia. rewrite Z.div_small; [by rewrite andb_false_r|]. split; [lia|].
  eapply Z.lt_le_trans; [apply Hlo|]. apply Z.pow_le_mono_r; lia.
Qed.
Lemma land_high x : Z.land x 0xFFFF0000 = (x / 2 ^ 16) mod 2 ^ 16 * 2 ^ 16.
Proof.
  rewrite <-Z.shiftl_mul_pow2, <-Z.land_ones, <-Z.shiftr_div_pow2 by lia. change 0xFFFF0000 with (Z.shiftl (Z.ones 16) 16).
  apply Z.bits_inj'. intros i Hi. rewrite Z.land_spec. destruct (Z.lt_ge_cases i 16); [by rewrite !Z.shiftl_spec_low, andb_false_r by lia|].
  rewrite !Z.shiftl_spec by lia. rewrite Z.land_spec, Z.shiftr_spec by lia. by replace (i - 16 + 16) with i by lia.
Qed.

(** The low half of the second word: the kind of gate and the privilege. *)
Definition gate_low (pl : Z) (trap : bool) : Z := Z.lor (if trap then 0x8F00 else 0x8E00) (Z.shiftl (Z.land pl 3) 13).
Lemma gate_low_facts pl trap : 0 <= pl < 4 → 0 <= gate_low pl trap < 2 ^ 16 ∧ (gate_low pl trap / 2 ^ 13) mod 4 = pl ∧
  ((gate_low pl trap / 2 ^ 8) mod 16 =? 0xF) = trap ∧ Z.odd (gate_low pl trap / 2 ^ 15) = true.
Proof.
  intros Hpl. assert (pl = 0 ∨ pl = 1 ∨ pl = 2 ∨ pl = 3) as [->|[->|[->| ->]]] by lia; destruct trap; vm_compute; repeat split; discriminate.
Qed.
Lemma gate_reads kva pl trap : 0 <= kva < 2 ^ 64 → 0 <= pl < 4 → read_gate (gate kva pl trap) = mkGate kva (Z.shiftl SEG_KCODE 3) pl trap true.
Proof.
  intros Hk Hp. destruct (gate_low_facts pl trap Hp) as (Hc & Hdpl & Htrap & Hpres). unfold read_gate, gate. cbn [nth].
  set (c := gate_low pl trap) in *. set (h := (kva / 2 ^ 16) mod 2 ^ 16).
  assert (Hh : 0 <= h < 2 ^ 16) by (apply Z.mod_pos_bound; lia). pose proof (Z.mod_pos_bound kva (2 ^ 16) ltac:(lia)) as Hl.
  assert (Hw0 : u32 (Z.lor (Z.land kva 0xFFFF) (Z.shiftl (Z.shiftl SEG_KCODE 3) 16)) = 8 * 2 ^ 16 + kva mod 2 ^ 16).
  { change 0xFFFF with (Z.ones 16). rewrite Z.land_ones, Z.lor_comm, lor_parts by lia. change (Z.shiftl SEG_KCODE 3) with 8. rewrite u32_small by lia. done. }
  assert (Hw1 : u32 (Z.lor (Z.lor (Z.land kva 0xFFFF0000) (if trap then 0x8F00 else 0x8E00)) (Z.shiftl (Z.land pl 3) 13)) = h * 2 ^ 16 + c).
  { rewrite <-Z.lor_assoc. fold (gate_low pl trap). fold c. rewrite land_high. fold h. pose proof (lor_parts h c 16 ltac:(lia) Hc) as He. rewrite Z.shiftl_mul_pow2 in He by lia. rewrite He. apply u32_small. lia. }
  assert (Hw2 : u32 (Z.shiftr kva 32) = kva / 2 ^ 32).
  { rewrite Z.shiftr_div_pow2 by lia. apply u32_small. split; [apply Z.div_pos; lia|apply Z.div_lt_upper_bound; lia]. }
  rewrite Hw0, Hw1, Hw2. f_equal.
  - change 0xFFFF with (Z.ones 16). rewrite Z.land_ones, land_high by lia.
    replace ((8 * 2 ^ 16 + kva mod 2 ^ 16) mod 2 ^ 16) with (kva mod 2 ^ 16) by (rewrite Z.add_comm, Z.mod_add, Z.mod_mod by lia; done).
    replace ((h * 2 ^ 16 + c) / 2 ^ 16) with h by (rewrite Z.add_comm, Z.div_add, Z.div_small by lia; done).
    rewrite (Z.mod_small h) by lia. pose proof (lor_parts h (kva mod 2 ^ 16) 16 ltac:(lia) Hl) as He. rewrite Z.shiftl_mul_pow2 in He by lia.
    rewrite (Z.lor_comm (kva mod _)), He, Z.lor_comm, lor_parts by lia. unfold h.
    pose proof (Z.div_mod kva (2 ^ 16) ltac:(lia)). pose proof (Z.div_mod (kva / 2 ^ 16) (2 ^ 16) ltac:(lia)).
    replace (kva / 2 ^ 32) with (kva / 2 ^ 16 / 2 ^ 16) by (rewrite Z.div_div by lia; done). lia.
  - rewrite Z.shiftr_div_pow2 by lia. rewrite Z.add_comm, Z.div_add, Z.div_small by lia. done.
  - change 3 with (Z.ones 2). rewrite Z.shiftr_div_pow2, Z.land_ones by lia. change (2 ^ 16) with (8 * 2 ^ 13).
    rewrite Z.mul_assoc, Z.add_comm, Z.div_add by lia. change (2 ^ 2) with 4. replace (h * 8) with (h * 2 * 4) by lia. by rewrite Z.mod_add by lia.
  - change 0xF with (Z.ones 4) at 1. rewrite Z.shiftr_div_pow2, Z.land_ones by lia. change (2 ^ 16) with (256 * 2 ^ 8).
    rewrite Z.mul_assoc, Z.add_comm, Z.div_add by lia. change (2 ^ 4) with 16. replace (h * 256) with (h * 16 * 16) by lia. by rewrite Z.mod_add by lia.
  - rewrite Z.testbit_odd, Z.shiftr_div_pow2 by lia. change (2 ^ 16) with (2 * 2 ^ 15). rewrite Z.mul_assoc, Z.add_comm, Z.div_add by lia.
    rewrite (Z.mul_comm h). by rewrite Z.odd_add_mul_2.
Qed.

(** The gate in the sixteen bytes of entry [n] of the table. *)
Definition split_words (l : list Z) : list Z := (λ i, le_get (take 4 (drop i l))) <$> [0; 4; 8; 12]%nat.
Definition gate_at (m : mem) (idt n : Z) : gate_info := read_gate (split_words (mget_bytes m (idt + 16 * n) 16)).

Lemma split_words_put a b c d : Forall (λ w, 0 <= w < 2 ^ 32) [a; b; c; d] → split_words (concat (le_put 4 <$> [a; b; c; d])) = [a; b; c; d].
Proof.
  intros Hw. assert (He : ∀ w, 0 <= w < 2 ^ 32 → le_get (le_put 4 w) = w) by (intros w Hr; rewrite le_get_put; by apply Z.mod_small).
  rewrite !Forall_cons in Hw. destruct Hw as (Ha & Hb & Hc & Hd & _). 
  change (split_words _) with [le_get (le_put 4 a); le_get (le_put 4 b); le_get (le_put 4 c); le_get (le_put 4 d)]. by rewrite !He.
Qed.
Lemma gate_put m idt n kva pl trap : 0 <= kva < 2 ^ 64 → 0 <= pl < 4 →
  gate_at (mput_bytes m (idt + 16 * n) (concat (le_put 4 <$> gate kva pl trap))) idt n = mkGate kva (Z.shiftl SEG_KCODE 3) pl trap true.
Proof.
  intros Hk Hp. unfold gate_at. pose proof (mget_put_bytes m (idt + 16 * n) (concat (le_put 4 <$> gate kva pl trap))) as He.
  change (Z.of_nat (length _)) with 16 in He. rewrite He.
  unfold gate at 1. rewrite split_words_put; [by apply gate_reads|].
  repeat (constructor; [first [apply u32_range|lia]|]). constructor.
Qed.
Lemma gate_put_ne m idt n n' l : length l = 16%nat → n ≠ n' → gate_at (mput_bytes m (idt + 16 * n) l) idt n' = gate_at m idt n'.
Proof.
  intros Hl Hne. unfold gate_at. f_equal. f_equal. apply mget_bytes_ext. intros x Hx. rewrite mput_bytes_at, Hl.
  by rewrite bool_decide_eq_false_2 by lia.
Qed.

Lemma mkgate_run idt n kva pl trap k : 0 <= n < 256 → mkgate idt n kva pl trap k =
  Ok tt (set_kmem (set_km_mem (mput_bytes (km_mem (k_kmem k)) (idt + 16 * n) (concat (le_put 4 <$> gate kva pl trap))) (k_kmem k)) k).
Proof. intros Hn. unfold mkgate. rewrite u32_small by lia. by replace (4 * (n * 4)) with (16 * n) by lia. Qed.
Lemma mkgates_run vectors idt cnt : ∀ lo k, 0 <= lo → lo + Z.of_nat cnt <= 256 → (∀ n, 0 <= n < 256 → 0 <= vectors n < 2 ^ 64) →
  ∃ k', for_each (seqZ lo (Z.of_nat cnt)) (λ n, mkgate idt n (vectors n) 0 false) k = Ok tt k' ∧ ∀ n,
    gate_at (km_mem (k_kmem k')) idt n = if bool_decide (lo <= n < lo + Z.of_nat cnt) then mkGate (vectors n) (Z.shiftl SEG_KCODE 3) 0 false true
                                         else gate_at (km_mem (k_kmem k)) idt n.
Proof.
  induction cnt as [|cnt IH]; intros lo k Hlo Hhi Hv; [exists k; split; [done|]; intros n; by rewrite bool_decide_eq_false_2 by lia|].
  rewrite seqZ_cons by lia. cbn [for_each]. erewrite bind_run by (apply mkgate_run; lia).
  replace (Z.pred (Z.of_nat (S cnt))) with (Z.of_nat cnt) by lia. rewrite <-Z.add_1_r.
  match goal with |- context [for_each _ _ ?k1] => destruct (IH (lo + 1) k1) as (k' & Hr & Hg); [lia|lia|done|] end.
  exists k'. split; [done|]. intros n. rewrite Hg. cbn [k_kmem set_kmem km_mem set_km_mem]. destruct (decide (n = lo)) as [->|Hne].
  - rewrite bool_decide_eq_false_2, bool_decide_eq_true_2 by lia. apply gate_put; [apply Hv; lia|lia].
  - rewrite gate_put_ne by done. by rewrite (bool_decide_ext _ (lo <= n < lo + Z.of_nat (S cnt))) by lia.
Qed.

(** The interrupt descriptor table.  Each of its 256 gates is present and
    leads to its vector in the kernel's code segment; the gates are interrupt
    gates that user code cannot use, except that of the system call vector,
    which is a trap gate for privilege 3. *)
Theorem idt_gates vectors idt k : (∀ n, 0 <= n < 256 → 0 <= vectors n < 2 ^ 64) →
  ∃ k', idt_init vectors idt k = Ok tt k' ∧ ∀ n, 0 <= n < 256 →
    gate_at (km_mem (k_kmem k')) idt n =
      mkGate (vectors n) (Z.shiftl SEG_KCODE 3) (if decide (n = T_SYSCALL) then 3 else 0) (bool_decide (n = T_SYSCALL)) true.
Proof.
  intros Hv. unfold idt_init. destruct (mkgates_run vectors idt 256 0 k) as (k1 & Hr & Hg); [lia|lia|done|]. rewrite (bind_run _ _ _ _ _ Hr).
  eexists. split; [apply mkgate_run; lia|]. intros n Hn. cbn [k_kmem set_kmem km_mem set_km_mem]. unfold T_SYSCALL.
  destruct (decide (n = 64)) as [->|Hne].
  - rewrite gate_put by (try apply Hv; lia). done.
  - rewrite gate_put_ne by done. rewrite Hg, bool_decide_eq_true_2, bool_decide_eq_false_2 by lia. done.
Qed.

Lemma idt_gates_witness : ∃ k', idt_init (λ n, KERNBASE + 16 * n) (p2v 0x5000) (kernel0 ∅) = Ok tt k' ∧
  g_dpl (gate_at (km_mem (k_kmem k')) (p2v 0x5000) 14) = 0 ∧ g_dpl (gate_at (km_mem (k_kmem k')) (p2v 0x5000) 64) = 3.
Proof.
  destruct (idt_gates (λ n, KERNBASE + 16 * n) (p2v 0x5000) (kernel0 ∅)) as (k' & Hr & Hg); [intros n Hn; unfold KERNBASE; lia|].
  exists k'. split; [exact Hr|]. rewrite !Hg by lia. split; reflexivity.
Defined.
