(* ===== verification/MkfsImage.v ===== *)
(** * MkfsImage: what mkfs makes is a file system

    The invariant of mkfs while it appends to files: the blocks that the
    inodes refer to are all different and below the next free one, they hold
    the bytes appended so far, and everything above is zero.  The theorem is
    about the whole program: the image satisfies what the theorems about the
    kernel assume of a disk, and has the files of the command line. *)

From stdpp Require Import prelude functions gmap strings.
From S2P Require Import Prelude Types Spinlock Sched Ide Bio Cstr Log Fs Block FsBlock FsInode FsDinode FsData FsDir Cprintf Mkfs.
Open Scope Z_scope.

(** ** Sectors *)

Definition blk (img : list block) (b : Z) : block := nth (Z.to_nat b) img zero_block.
Definition upd (img : list block) (b : Z) (d : block) : list block := <[Z.to_nat b := d]> img.
Definition img_wf (img : list block) : Prop := length img = Z.to_nat FSSIZE ∧ Forall (λ d, length d = 512%nat) img.

Lemma blk_upd img b d x : img_wf img → 0 <= b < FSSIZE → 0 <= x → blk (upd img b d) x = if x =? b then d else blk img x.
Proof.
  intros [Hl _] Hb Hx. unfold blk, upd. rewrite !nth_lookup. destruct (Z.eqb_spec x b) as [->|Hne].
  - by rewrite list_lookup_insert_eq by lia.
  - by rewrite list_lookup_insert_ne by lia.
Qed.
Lemma blk_upd_eq img b d : img_wf img → 0 <= b < FSSIZE → blk (upd img b d) b = d.
Proof. intros. rewrite blk_upd by lia || done. by rewrite Z.eqb_refl. Qed.
Lemma blk_upd_ne img b d x : img_wf img → 0 <= b < FSSIZE → 0 <= x → x ≠ b → blk (upd img b d) x = blk img x.
Proof. intros ? ? ? Hne. rewrite blk_upd by done. by rewrite (proj2 (Z.eqb_neq _ _)). Qed.
Lemma upd_wf img b d : img_wf img → length d = 512%nat → img_wf (upd img b d).
Proof. intros [Hl Hf] Hd. split; [by unfold upd; rewrite length_insert|]. by apply Forall_insert. Qed.
Lemma length_blk img b : img_wf img → length (blk img b) = 512%nat.
Proof.
  intros [_ Hf]. unfold blk. rewrite nth_lookup. destruct (img !! Z.to_nat b) as [d|] eqn:E; [|done]. by apply (Forall_lookup_1 _ _ _ _ Hf E).
Qed.

Lemma sect_small sec : 0 <= sec < FSSIZE → u32 (sec * BSIZE) / BSIZE = sec.
Proof. unfold FSSIZE, BSIZE. intros. rewrite u32_small by lia. by rewrite Z.div_mul. Qed.
Lemma rsect_run sec s : 0 <= sec < FSSIZE → img_wf (fs_img s) → rsect sec s = Ok (blk (fs_img s) sec) s.
Proof.
  intros Hs [Hl _]. unfold rsect, get, mbind, M_bind. rewrite sect_small by done. unfold blk. rewrite nth_lookup.
  destruct (lookup_lt_is_Some_2 (fs_img s) (Z.to_nat sec)) as [d Hd]; [lia|]. by rewrite Hd.
Qed.
Lemma wsect_run sec d s : 0 <= sec < FSSIZE → img_wf (fs_img s) → wsect sec d s = Ok tt (set_fs_img (upd (fs_img s) sec d) s).
Proof.
  intros Hs [Hl _]. unfold wsect, modify. rewrite sect_small by done. unfold img_put, upd.
  by rewrite (proj2 (Nat.ltb_lt _ _)) by lia.
Qed.
Lemma xint_u32 x : xint x = u32 x.
Proof. unfold xint. by rewrite le_get_put. Qed.
Lemma xshort_u16 x : xshort x = u16 x.
Proof. unfold xshort. by rewrite le_get_put. Qed.
Lemma get32_zero j n : (j + 4 <= n)%nat → get32 j (replicate n 0) = 0.
Proof.
  intros Hj. unfold get32, bslice. rewrite drop_replicate, take_replicate. by replace (_ `min` _)%nat with 4%nat by lia.
Qed.
Lemma nth_zero_block j : nth j zero_block 0 = 0.
Proof. unfold zero_block. rewrite nth_lookup. destruct (replicate _ _ !! j) eqn:E; [|done]. by apply lookup_replicate in E as [-> _]. Qed.

Lemma nmeta_val : nmeta = 29.
Proof. reflexivity. Qed.

(** ** The blocks of inodes *)

(** The address that the inode [din] has for the indirect block, [None], or
    for a block of the file; 0 if it has none. *)
Definition daddr (din : list Z) (n : Z) : Z := get32 (addr_off n) din.
Definition dloc (img : list block) (din : list Z) (key : option Z) : Z :=
  match key with
  | None => daddr din NDIRECT
  | Some bn => if bn <? NDIRECT then daddr din bn
               else if daddr din NDIRECT =? 0 then 0 else get32 (Z.to_nat (4 * (bn - NDIRECT))) (blk img (daddr din NDIRECT))
  end.
Definition key_ok (key : option Z) : Prop := match key with None => True | Some bn => 0 <= bn < MAXFILE end.

(** The inodes [D] below [fi], of which the blocks that [A] tells are there,
    have the bytes [C]; the blocks from [fb] are free. *)
Record data_ok (D : Z → list Z) (A : Z → option Z → bool) (C : Z → list Z) (fi fb : Z) (img : list block) : Prop := {
  o_img : img_wf img;
  o_fb : nmeta <= fb <= FSSIZE;
  o_din i : length (D i) = 64%nat;
  o_loc i key : 1 <= i < fi → key_ok key → if A i key then nmeta <= dloc img (D i) key < fb else dloc img (D i) key = 0;
  o_inj i key i' key' : 1 <= i < fi → 1 <= i' < fi → key_ok key → key_ok key' → A i key = true → A i' key' = true →
    dloc img (D i) key = dloc img (D i') key' → i = i' ∧ key = key';
  o_cont i bn j : 1 <= i < fi → 0 <= bn < MAXFILE → 0 <= j < BSIZE → A i (Some bn) = true →
    nth (Z.to_nat j) (blk img (dloc img (D i) (Some bn))) 0 = nth (Z.to_nat (bn * BSIZE + j)) (C i) 0;
  o_zero b : fb <= b < FSSIZE → blk img b = zero_block
}.
Definition aset (A : Z → option Z → bool) (i : Z) (key : option Z) : Z → option Z → bool :=
  λ i' key', bool_decide (i' = i ∧ key' = key) || A i' key'.

Lemma aset_eq A i key : aset A i key i key = true.
Proof. unfold aset. by rewrite bool_decide_eq_true_2. Qed.
Lemma aset_ne A i key i' key' : ¬ (i' = i ∧ key' = key) → aset A i key i' key' = A i' key'.
Proof. intros H. unfold aset. by rewrite bool_decide_eq_false_2. Qed.

(** Block [fb] is taken for [key] of inode [i0]. *)
Lemma data_ok_alloc D A C fi fb img i0 key0 D' img' :
  data_ok D A C fi fb img → fb < FSSIZE → 1 <= i0 < fi → A i0 key0 = false → (∀ bn, key0 = Some bn → Z.of_nat (length (C i0)) <= bn * BSIZE) →
  img_wf img' → (∀ i, length (D' i) = 64%nat) →
  (∀ i key, 1 <= i < fi → key_ok key → dloc img' (D' i) key = if bool_decide (i = i0 ∧ key = key0) then fb else dloc img (D i) key) →
  (∀ i bn, 1 <= i < fi → 0 <= bn < MAXFILE → A i (Some bn) = true → blk img' (dloc img (D i) (Some bn)) = blk img (dloc img (D i) (Some bn))) →
  (∀ b, fb <= b < FSSIZE → blk img' b = blk img b) →
  data_ok D' (aset A i0 key0) C fi (fb + 1) img'.
Proof.
  intros Ho Hfb Hi0 HA HC Hwf Hdin Hloc Hblk Hfree. pose proof (o_fb _ _ _ _ _ _ Ho) as Hr.
  assert (Hold : ∀ i key, 1 <= i < fi → key_ok key → A i key = true → ¬ (i = i0 ∧ key = key0) ∧ nmeta <= dloc img (D i) key < fb).
  { intros i key Hi Hk Ha. split; [intros [-> ->]; congruence|]. pose proof (o_loc _ _ _ _ _ _ Ho i key Hi Hk) as H. by rewrite Ha in H. }
  split; [done|lia|done|..].
  - intros i key Hi Hk. rewrite Hloc by done. unfold aset. destruct (bool_decide_reflect (i = i0 ∧ key = key0)) as [He|He]; cbn [orb]; [lia|].
    pose proof (o_loc _ _ _ _ _ _ Ho i key Hi Hk) as H. destruct (A i key); [lia|done].
  - intros i key i' key' Hi Hi' Hk Hk'. rewrite !Hloc by done. unfold aset.
    destruct (bool_decide_reflect (i = i0 ∧ key = key0)) as [[-> ->]|He], (bool_decide_reflect (i' = i0 ∧ key' = key0)) as [[-> ->]|He']; cbn [orb]; intros Ha Ha' Heq.
    + done.
    + pose proof (Hold _ _ Hi' Hk' Ha'). lia.
    + pose proof (Hold _ _ Hi Hk Ha). lia.
    + by apply (o_inj _ _ _ _ _ _ Ho).
  - intros i bn j Hi Hbn Hj. rewrite Hloc by done. unfold aset. destruct (bool_decide_reflect (i = i0 ∧ Some bn = key0)) as [[-> <-]|He]; cbn [orb]; intros Ha.
    + rewrite Hfree, (o_zero _ _ _ _ _ _ Ho) by lia. specialize (HC bn eq_refl). rewrite (nth_overflow (C i0)) by lia.
      apply nth_zero_block.
    + rewrite Hblk by done. by apply (o_cont _ _ _ _ _ _ Ho).
  - intros b Hb. rewrite Hfree by lia. apply (o_zero _ _ _ _ _ _ Ho). lia.
Qed.

Lemma din_off n : 0 <= n <= NDIRECT → (addr_off n + 4 <= 64)%nat.
Proof. unfold addr_off, NDIRECT. lia. Qed.
Lemma daddr_put din n n' x : length din = 64%nat → 0 <= n <= NDIRECT → 0 <= n' <= NDIRECT → u32 x = x →
  daddr (put32 (addr_off n) x din) n' = if n' =? n then x else daddr din n'.
Proof.
  intros Hl Hn Hn' Hx. unfold daddr. pose proof (din_off n Hn). destruct (Z.eqb_spec n' n) as [->|Hne].
  - by rewrite get_put32 by lia.
  - rewrite get_put32_ne; [done|lia|]. unfold addr_off. lia.
Qed.
Lemma length_put_addr din n x : length din = 64%nat → 0 <= n <= NDIRECT → length (put32 (addr_off n) x din) = 64%nat.
Proof. intros Hl Hn. rewrite length_put32; [done|]. pose proof (din_off n Hn). lia. Qed.

(** An address of the inode. *)
Lemma data_ok_take D A C fi fb img i0 n key0 : data_ok D A C fi fb img → fb < FSSIZE → 1 <= i0 < fi →
  key0 = (if n =? NDIRECT then None else Some n) → 0 <= n <= NDIRECT → A i0 key0 = false → (n < NDIRECT → Z.of_nat (length (C i0)) <= n * BSIZE) →
  data_ok (<[i0 := put32 (addr_off n) fb (D i0)]> D) (aset A i0 key0) C fi (fb + 1) img.
Proof.
  intros Ho Hfb Hi0 Hk0 Hn HA HC. pose proof (o_fb _ _ _ _ _ _ Ho) as Hr.
  assert (Hu : u32 fb = fb) by (apply u32_small; rewrite nmeta_val in Hr; unfold FSSIZE in *; lia).
  assert (Hlen := o_din _ _ _ _ _ _ Ho).
  eapply data_ok_alloc; [exact Ho|done|done|done| |apply Ho| | |done|done].
  - intros bn Heq. destruct (Z.eqb_spec n NDIRECT); [congruence|]. assert (bn = n) as -> by congruence. apply HC. lia.
  - intros i. destruct (decide (i = i0)) as [->|Hne]; [rewrite fn_lookup_insert; by apply length_put_addr|by rewrite fn_lookup_insert_ne].
  - intros i key Hi Hk. destruct (decide (i = i0)) as [->|Hne]; [rewrite fn_lookup_insert|by rewrite fn_lookup_insert_ne, bool_decide_eq_false_2 by naive_solver].
    pose proof (o_loc _ _ _ _ _ _ Ho i0 key Hi Hk) as Hl. unfold dloc in *. destruct key as [bn|]; cbn [key_ok] in Hk.
    + destruct (Z.ltb_spec bn NDIRECT) as [Hbn|Hbn].
      * rewrite daddr_put by (done || lia). destruct (Z.eqb_spec bn n) as [->|Hne].
        -- rewrite bool_decide_eq_true_2; [done|]. split; [done|]. by rewrite Hk0, (proj2 (Z.eqb_neq _ _)) by lia.
        -- rewrite bool_decide_eq_false_2; [done|]. intros [_ He]. rewrite Hk0 in He. destruct (n =? NDIRECT); congruence.
      * rewrite bool_decide_eq_false_2 by (intros [_ He]; rewrite Hk0 in He; destruct (Z.eqb_spec n NDIRECT); [congruence|]; injection He; lia).
        rewrite !daddr_put by (done || lia). destruct (Z.eqb_spec NDIRECT n) as [<-|Hne]; [|done].
        rewrite Z.eqb_refl in Hk0. subst key0. pose proof (o_loc _ _ _ _ _ _ Ho i0 None Hi0 I) as Hn0. rewrite HA in Hn0. cbn [dloc] in Hn0. rewrite Hn0, Z.eqb_refl.
        destruct (fb =? 0); [done|]. rewrite (o_zero _ _ _ _ _ _ Ho) by lia. unfold zero_block. apply get32_zero. unfold MAXFILE, NDIRECT, NINDIRECT, BSIZE in *. change (512 / 4) with 128 in *. lia.
    + rewrite daddr_put by (done || lia). rewrite Z.eqb_sym. rewrite Hk0. destruct (Z.eqb_spec n NDIRECT) as [->|Hne].
      * by rewrite bool_decide_eq_true_2.
      * by rewrite bool_decide_eq_false_2 by (intros [_ ?]; done).
Qed.

(** Where allocated blocks are. *)
Lemma data_ok_range D A C fi fb img i key : data_ok D A C fi fb img → 1 <= i < fi → key_ok key → A i key = true →
  nmeta <= dloc img (D i) key < fb.
Proof. intros Ho Hi Hk Ha. pose proof (o_loc _ _ _ _ _ _ Ho i key Hi Hk) as H. by rewrite Ha in H. Qed.
Lemma data_ok_there D A C fi fb img i key : data_ok D A C fi fb img → 1 <= i < fi → key_ok key → dloc img (D i) key ≠ 0 → A i key = true.
Proof. intros Ho Hi Hk Hne. pose proof (o_loc _ _ _ _ _ _ Ho i key Hi Hk) as H. by destruct (A i key). Qed.

Lemma ind_off_ok bn : NDIRECT <= bn < MAXFILE → (Z.to_nat (4 * (bn - NDIRECT)) + 4 <= 512)%nat.
Proof. rewrite MAXFILE_val. unfold NDIRECT. lia. Qed.

(** A change of block [x], which has no addresses in it, changes none. *)
Lemma dloc_upd D A C fi fb img x d i key : data_ok D A C fi fb img → 1 <= i < fi → key_ok key → 0 <= x < FSSIZE → daddr (D i) NDIRECT ≠ x →
  dloc (upd img x d) (D i) key = dloc img (D i) key.
Proof.
  intros Ho Hi Hk Hx Hne. pose proof (o_img _ _ _ _ _ _ Ho) as Hwf. unfold dloc. destruct key as [bn|]; [|done].
  destruct (bn <? NDIRECT); [done|]. destruct (Z.eqb_spec (daddr (D i) NDIRECT) 0) as [|Hz]; [done|].
  pose proof (data_ok_range _ _ _ _ _ _ i None Ho Hi I (data_ok_there _ _ _ _ _ _ i None Ho Hi I Hz)) as Hr. cbn [dloc] in Hr. rewrite nmeta_val in Hr.
  by rewrite blk_upd_ne by (done || lia).
Qed.

(** An address in the indirect block. *)
Lemma data_ok_take_ind D A C fi fb img i0 bn : data_ok D A C fi fb img → fb < FSSIZE → 1 <= i0 < fi → NDIRECT <= bn < MAXFILE →
  A i0 None = true → A i0 (Some bn) = false → Z.of_nat (length (C i0)) <= bn * BSIZE →
  let ia := dloc img (D i0) None in
  data_ok D (aset A i0 (Some bn)) C fi (fb + 1) (upd img ia (put32 (Z.to_nat (4 * (bn - NDIRECT))) fb (blk img ia))).
Proof.
  intros Ho Hfb Hi0 Hbn HN HA HC ia. pose proof (o_img _ _ _ _ _ _ Ho) as Hwf. pose proof (o_fb _ _ _ _ _ _ Ho) as Hr. rewrite nmeta_val in Hr.
  assert (Hu : u32 fb = fb) by (apply u32_small; unfold FSSIZE in *; lia). pose proof (ind_off_ok bn Hbn) as Hoff.
  pose proof (data_ok_range _ _ _ _ _ _ i0 None Ho Hi0 I HN) as Hia. fold ia in Hia. rewrite nmeta_val in Hia.
  pose proof (length_blk img ia Hwf) as Hlen.
  eapply data_ok_alloc; [exact Ho|done|done|done| |apply upd_wf; [done|by rewrite length_put32 by lia]|apply Ho| | |].
  - intros ? [= <-]. done.
  - intros i key Hi Hk. destruct (decide (i = i0)) as [->|Hne].
    + cbn [dloc] in ia. unfold dloc. destruct key as [bn'|]; [|by rewrite bool_decide_eq_false_2 by (intros [_ ?]; done)].
      destruct (Z.ltb_spec bn' NDIRECT); [rewrite bool_decide_eq_false_2; [done|]; intros [_ [= ->]]; lia|]. fold ia.
      rewrite (proj2 (Z.eqb_neq ia 0)) by lia. rewrite blk_upd_eq by (done || lia). cbn [key_ok] in Hk. destruct (decide (bn' = bn)) as [->|Hne].
      * rewrite bool_decide_eq_true_2 by done. by rewrite get_put32 by lia.
      * rewrite bool_decide_eq_false_2 by (intros [_ [= ->]]; done). apply get_put32_ne; [lia|]. unfold NDIRECT in *. lia.
    + rewrite bool_decide_eq_false_2 by (intros [-> _]; done). eapply dloc_upd; [exact Ho|done|done|lia|]. intros He.
      pose proof (data_ok_there _ _ _ _ _ _ i None Ho Hi I) as Ha. cbn [dloc] in Ha. rewrite He in Ha. specialize (Ha ltac:(lia)).
      destruct (o_inj _ _ _ _ _ _ Ho i None i0 None Hi Hi0 I I Ha HN) as [? _]; [exact He|done].
  - intros i bn' Hi Hbn' Ha. pose proof (data_ok_range _ _ _ _ _ _ i (Some bn') Ho Hi Hbn' Ha) as Hx. rewrite nmeta_val in Hx.
    apply blk_upd_ne; [done|lia|lia|]. intros He. by destruct (o_inj _ _ _ _ _ _ Ho i (Some bn') i0 None Hi Hi0 Hbn' I Ha HN) as [_ ?].
  - intros b Hb. apply blk_upd_ne; [done|lia..].
Qed.

Lemma nth_bsplice_at o s l j : (o + length s <= length l)%nat →
  nth j (bsplice o s l) 0 = if decide (o <= j < o + length s)%nat then nth (j - o) s 0 else nth j l 0.
Proof. intros Hl. rewrite !nth_lookup, lookup_bsplice by done. by destruct (decide (o <= j < o + length s)%nat). Qed.

(** Bytes are appended within a block. *)
Lemma data_ok_write D A C fi fb img i0 bn d : data_ok D A C fi fb img → 1 <= i0 < fi → 0 <= bn < MAXFILE → A i0 (Some bn) = true →
  let off := Z.of_nat (length (C i0)) in let x := dloc img (D i0) (Some bn) in
  bn * BSIZE <= off → off + Z.of_nat (length d) <= (bn + 1) * BSIZE →
  data_ok D A (<[i0 := C i0 ++ d]> C) fi fb (upd img x (bsplice (Z.to_nat (off - bn * BSIZE)) d (blk img x))).
Proof.
  intros Ho Hi0 Hbn Ha0 off x Hlo Hhi. assert (Hoff : off = Z.of_nat (length (C i0))) by reflexivity. clearbody off. pose proof (o_img _ _ _ _ _ _ Ho) as Hwf. pose proof (o_fb _ _ _ _ _ _ Ho) as Hr. rewrite nmeta_val in Hr.
  pose proof (data_ok_range _ _ _ _ _ _ i0 (Some bn) Ho Hi0 Hbn Ha0) as Hx. fold x in Hx. rewrite nmeta_val in Hx.
  pose proof (length_blk img x Hwf) as Hlen. unfold BSIZE in *.
  assert (Hloc : ∀ i key, 1 <= i < fi → key_ok key → dloc (upd img x (bsplice (Z.to_nat (off - bn * 512)) d (blk img x))) (D i) key = dloc img (D i) key).
  { intros i key Hi Hk. eapply dloc_upd; [exact Ho|done|done|lia|]. intros He.
    pose proof (data_ok_there _ _ _ _ _ _ i None Ho Hi I) as Ha. cbn [dloc] in Ha. rewrite He in Ha. specialize (Ha ltac:(lia)).
    by destruct (o_inj _ _ _ _ _ _ Ho i None i0 (Some bn) Hi Hi0 I Hbn Ha Ha0) as [_ ?]. }
  split; [apply upd_wf; [done|]; rewrite length_bsplice; [exact Hlen|rewrite Hlen; lia]|rewrite nmeta_val; lia|apply Ho|..].
  - intros i key Hi Hk. rewrite Hloc by done. by apply (o_loc _ _ _ _ _ _ Ho).
  - intros i key i' key' Hi Hi' Hk Hk' Ha Ha'. rewrite !Hloc by done. by apply (o_inj _ _ _ _ _ _ Ho).
  - intros i bn' j Hi Hbn' Hj Ha. unfold BSIZE in *. rewrite Hloc by done. pose proof (o_cont _ _ _ _ _ _ Ho i bn' j Hi Hbn' Hj Ha) as Hc. unfold BSIZE in Hc.
    destruct (decide (dloc img (D i) (Some bn') = x)) as [He|He].
    + destruct (o_inj _ _ _ _ _ _ Ho i (Some bn') i0 (Some bn) Hi Hi0 Hbn' Hbn Ha Ha0 He) as [-> [= ->]].
      rewrite He, blk_upd_eq, nth_bsplice_at, fn_lookup_insert by (done || lia). rewrite He in Hc. case_decide.
      * rewrite app_nth2 by lia. f_equal. lia.
      * rewrite Hc. destruct (decide (Z.to_nat (bn * 512 + j) < length (C i0))%nat); [by rewrite app_nth1 by lia|].
        rewrite !nth_overflow; rewrite ?length_app; [done|lia..].
    + pose proof (data_ok_range _ _ _ _ _ _ i (Some bn') Ho Hi Hbn' Ha) as Hx'. rewrite nmeta_val in Hx'. rewrite blk_upd_ne, Hc by (done || lia).
      destruct (decide (i = i0)) as [->|Hne]; [rewrite fn_lookup_insert|by rewrite fn_lookup_insert_ne].
      assert (bn' ≠ bn) by (intros ->; done). destruct (decide (Z.to_nat (bn' * 512 + j) < length (C i0))%nat); [by rewrite app_nth1 by lia|].
      rewrite !nth_overflow; rewrite ?length_app; [done|nia..].
  - intros b Hb. rewrite blk_upd_ne by (done || lia). apply (o_zero _ _ _ _ _ _ Ho). lia.
Qed.

(** ** Appending *)

(** The blocks that [n] bytes need. *)
Definition needs (n : Z) (key : option Z) : bool := match key with None => NDIRECT * BSIZE <? n | Some bn => bn * BSIZE <? n end.
Definition blocks_of (n : Z) : Z := (n + (BSIZE - 1)) / BSIZE + (if NDIRECT * BSIZE <? n then 1 else 0).

(** Inode [i0] may change in [D'], but for what comes before the addresses. *)
Definition same_but (i0 : Z) (D D' : Z → list Z) : Prop := (∀ i, i ≠ i0 → D' i = D i) ∧ take 20 (D' i0) = take 20 (D i0).
Lemma img_same_but_refl i0 D : same_but i0 D D.
Proof. done. Qed.
Lemma img_same_but_trans i0 D D' D'' : same_but i0 D D' → same_but i0 D' D'' → same_but i0 D D''.
Proof. intros [H1 H2] [H3 H4]. split; [intros i Hi; by rewrite H3, H1|congruence]. Qed.

Lemma take_put_addr n x din : 0 <= n <= NDIRECT → length din = 64%nat → take 20 (put32 (addr_off n) x din) = take 20 din.
Proof.
  intros Hn Hl. unfold put32, bsplice. pose proof (din_off n Hn). assert (20 <= addr_off n)%nat by (unfold addr_off; lia).
  rewrite take_app_le by (rewrite length_take; lia). rewrite take_take. f_equal. lia.
Qed.
Lemma xint_small x : 0 <= x < FSSIZE → xint x = x.
Proof. intros Hx. rewrite xint_u32. apply u32_small. unfold FSSIZE in Hx. lia. Qed.

Lemma take_addr_ok D A C fi fb img i0 n key fv : data_ok D A C fi fb img → 1 <= i0 < fi → 0 <= n <= NDIRECT →
  key = (if n =? NDIRECT then None else Some n) → (A i0 key = false → fb < FSSIZE ∧ (n < NDIRECT → Z.of_nat (length (C i0)) <= n * BSIZE)) →
  ∃ D', let A' := if A i0 key then A else aset A i0 key in let fb' := if A i0 key then fb else fb + 1 in
    take_addr (D i0) n (mkMkfs img fv fb) = Ok (D' i0) (mkMkfs img fv fb') ∧ data_ok D' A' C fi fb' img ∧ same_but i0 D D'.
Proof.
  intros Ho Hi0 Hn Hkey HA. pose proof (o_fb _ _ _ _ _ _ Ho) as Hr. rewrite nmeta_val in Hr.
  assert (Hk : key_ok key) by (subst key; destruct (Z.eqb_spec n NDIRECT); cbn; [done|rewrite MAXFILE_val; unfold NDIRECT in *; lia]).
  pose proof (o_loc _ _ _ _ _ _ Ho i0 key Hi0 Hk) as Hl.
  assert (Hd : dloc img (D i0) key = get32 (addr_off n) (D i0)).
  { subst key. destruct (Z.eqb_spec n NDIRECT) as [->|Hne]; [done|]. cbn [dloc]. by rewrite (proj2 (Z.ltb_lt n NDIRECT)) by lia. }
  rewrite Hd in Hl. unfold take_addr. destruct (A i0 key) eqn:HA0.
  - rewrite nmeta_val in Hl. exists D. split; [|done]. rewrite xint_small by lia. by rewrite (proj2 (Z.eqb_neq _ 0)) by lia.
  - destruct (HA eq_refl) as [Hfb HC]. rewrite Hl. change (xint 0 =? 0) with true. exists (<[i0 := put32 (addr_off n) fb (D i0)]> D). rewrite fn_lookup_insert. split; [|split].
    + unfold take_block, gets, modify, mbind, M_bind, mret, M_ret. cbn [freeblock fs_img freeinode]. rewrite xint_small by lia.
      rewrite u32_small by (unfold FSSIZE in *; lia). done.
    + by eapply data_ok_take.
    + split; [intros i Hne; by rewrite fn_lookup_insert_ne|]. rewrite fn_lookup_insert. apply take_put_addr; [done|apply Ho].
Qed.

Lemma needs_step off key : 0 <= off → key_ok key →
  needs (off + 1) key = bool_decide (off mod BSIZE = 0 ∧ key = Some (off / BSIZE)) || bool_decide (off = NDIRECT * BSIZE ∧ key = None) || needs off key.
Proof.
  intros Hoff Hk. unfold needs, BSIZE, NDIRECT. pose proof (Z.div_mod off 512 ltac:(lia)). pose proof (Z.mod_pos_bound off 512 ltac:(lia)). destruct key as [bn|].
  - rewrite (bool_decide_eq_false_2 (_ ∧ Some bn = None)) by (intros [_ ?]; done). rewrite orb_false_r.
    destruct (bool_decide_reflect (off mod 512 = 0 ∧ Some bn = Some (off / 512))) as [[H1 [= ->]]|He]; cbn [orb]; [apply Z.ltb_lt; lia|].
    destruct (Z.ltb_spec (bn * 512) off); [apply Z.ltb_lt; lia|]. apply Z.ltb_ge. destruct (decide (bn * 512 = off)) as [<-|]; [|lia].
    exfalso. apply He. split; [by apply Z.mod_mul|]. by rewrite Z.div_mul.
  - rewrite (bool_decide_eq_false_2 (_ ∧ None = Some _)) by (intros [_ ?]; done). cbn [orb].
    match goal with |- context [@bool_decide ?P ?d] => destruct (@bool_decide_reflect P d) as [[-> _]|He] end; cbn [orb]; [done|].
    assert (off ≠ 10 * 512) by (intros ->; by apply He). destruct (Z.ltb_spec (10 * 512) off); [apply Z.ltb_lt|apply Z.ltb_ge]; lia.
Qed.
Lemma blocks_of_step off : 0 <= off →
  blocks_of (off + 1) = blocks_of off + (if bool_decide (off mod BSIZE = 0) then 1 else 0) + (if bool_decide (off = NDIRECT * BSIZE) then 1 else 0).
Proof.
  intros Hoff. unfold blocks_of, BSIZE, NDIRECT. pose proof (Z.div_mod off 512 ltac:(lia)). pose proof (Z.mod_pos_bound off 512 ltac:(lia)).
  assert (Hd : (off + 1 + (512 - 1)) / 512 = off / 512 + 1) by (replace (off + 1 + (512 - 1)) with (off + 1 * 512) by lia; by rewrite Z.div_add).
  rewrite Hd. assert (He : (off + (512 - 1)) / 512 = off / 512 + (if bool_decide (off mod 512 = 0) then 0 else 1)).
  { destruct (bool_decide_reflect (off mod 512 = 0)); [symmetry; apply Z.div_unique with 511; lia|].
    symmetry. apply Z.div_unique with (off mod 512 - 1); lia. }
  rewrite He. destruct (bool_decide_reflect (off = 10 * 512)); destruct (bool_decide (off mod 512 = 0));
    destruct (Z.ltb_spec (10 * 512) (off + 1)), (Z.ltb_spec (10 * 512) off); lia.
Qed.
Lemma needs_last off : 0 <= off → needs off (Some (off / BSIZE)) = negb (bool_decide (off mod BSIZE = 0)).
Proof.
  intros Hoff. unfold needs, BSIZE. pose proof (Z.div_mod off 512 ltac:(lia)). pose proof (Z.mod_pos_bound off 512 ltac:(lia)).
  destruct (bool_decide_reflect (off mod 512 = 0)); [apply Z.ltb_ge|apply Z.ltb_lt]; lia.
Qed.

(** What one step of the loop does before it writes: file [i0], which has
    [off] bytes, has the block for the next. *)
Record block_taken (D : Z → list Z) (A : Z → option Z → bool) (C : Z → list Z) (fi fb : Z) (img : list block) (i0 off : Z)
    (D' : Z → list Z) (A' : Z → option Z → bool) (fb' : Z) (img' : list block) : Prop := {
  bt_ok : data_ok D' A' C fi fb' img';
  bt_mine key : key_ok key → A' i0 key = needs (off + 1) key;
  bt_others i key : i ≠ i0 → A' i key = A i key;
  bt_same : same_but i0 D D';
  bt_meta b : 0 <= b < nmeta → blk img' b = blk img b;
  bt_fb : fb' = fb + (blocks_of (off + 1) - blocks_of off)
}.

Section append.
Context (D : Z → list Z) (A : Z → option Z → bool) (C : Z → list Z) (fi fb : Z) (img : list block) (i0 fv : Z).
Local Abbreviation off := (Z.of_nat (length (C i0))).
Local Abbreviation bn := (off / BSIZE).
Context (Ho : data_ok D A C fi fb img) (Hi0 : 1 <= i0 < fi) (HA : ∀ key, key_ok key → A i0 key = needs off key) (Hbn : bn < MAXFILE)
  (Hfb : fb + (blocks_of (off + 1) - blocks_of off) <= FSSIZE).

Lemma bn_range : 0 <= bn < MAXFILE.
Proof. split; [apply Z.div_pos; unfold BSIZE; lia|done]. Qed.

Lemma iappend_direct : bn < NDIRECT → ∃ D' A' fb', iappend_block (D i0) bn (mkMkfs img fv fb) = Ok (D' i0, dloc img (D' i0) (Some bn)) (mkMkfs img fv fb') ∧
  block_taken D A C fi fb img i0 off D' A' fb' img.
Proof.
  intros Hd. pose proof bn_range as Hr. pose proof (HA (Some bn) Hr) as Ha. rewrite needs_last in Ha by lia.
  assert (Hne : off ≠ NDIRECT * BSIZE). { intros He. rewrite He in Hd. rewrite Z.div_mul in Hd by done. lia. }
  rewrite blocks_of_step, (bool_decide_eq_false_2 (off = _)) in Hfb by lia.
  destruct (take_addr_ok D A C fi fb img i0 bn (Some bn) fv Ho Hi0) as (D' & Hrun & Ho' & Hsame).
  { lia. } { by rewrite (proj2 (Z.eqb_neq _ _)) by lia. }
  { intros Hf. rewrite Hf in Ha. destruct (bool_decide_reflect (off mod BSIZE = 0)) as [Hz|]; [|done]. split; [lia|].
    intros _. pose proof (Z.div_mod off BSIZE ltac:(done)). lia. }
  exists D', (if A i0 (Some bn) then A else aset A i0 (Some bn)), (if A i0 (Some bn) then fb else fb + 1).
  assert (Hloc : dloc img (D' i0) (Some bn) = get32 (addr_off bn) (D' i0)) by (cbn [dloc]; by rewrite (proj2 (Z.ltb_lt _ _)) by lia).
  assert (Hin : nmeta <= dloc img (D' i0) (Some bn) < if A i0 (Some bn) then fb else fb + 1).
  { apply (data_ok_range _ _ _ _ _ _ i0 (Some bn) Ho' Hi0 Hr). destruct (A i0 (Some bn)) eqn:E; [done|apply aset_eq]. }
  pose proof (o_fb _ _ _ _ _ _ Ho') as Hb. rewrite nmeta_val in *. split.
  - unfold iappend_block. rewrite (proj2 (Z.ltb_lt _ _)) by lia. rewrite (bind_run _ _ _ _ _ Hrun). unfold mret, M_ret. rewrite Hloc in *. by rewrite xint_small by lia.
  - split; [exact Ho'| | |exact Hsame|done|].
    + intros key Hk. rewrite needs_step by (done || lia). rewrite (bool_decide_eq_false_2 (_ ∧ key = None)) by (by intros [? _]). rewrite orb_false_r.
      rewrite Ha. destruct (bool_decide (off mod BSIZE = 0)) eqn:Hz; cbn [negb].
      * unfold aset. rewrite HA by done. f_equal. apply bool_decide_ext. apply bool_decide_eq_true in Hz. naive_solver.
      * rewrite HA by done. apply bool_decide_eq_false in Hz. by rewrite bool_decide_eq_false_2 by naive_solver.
    + intros i key Hi. destruct (A i0 (Some bn)); [done|]. apply aset_ne. naive_solver.
    + rewrite blocks_of_step, (bool_decide_eq_false_2 (off = _)), Ha by lia. destruct (bool_decide (off mod BSIZE = 0)); cbn [negb]; lia.
Qed.

Lemma take_ind_ok D1 A1 fb1 : data_ok D1 A1 C fi fb1 img → NDIRECT <= bn → A1 i0 None = true →
  (A1 i0 (Some bn) = false → fb1 < FSSIZE ∧ off <= bn * BSIZE) → let ia := dloc img (D1 i0) None in
  ∃ img', let A' := if A1 i0 (Some bn) then A1 else aset A1 i0 (Some bn) in let fb' := if A1 i0 (Some bn) then fb1 else fb1 + 1 in
    take_ind ia (4 * (bn - NDIRECT)) (mkMkfs img fv fb1) = Ok (blk img' ia) (mkMkfs img' fv fb') ∧ data_ok D1 A' C fi fb' img' ∧
    ∀ b, 0 <= b < nmeta → blk img' b = blk img b.
Proof.
  intros Ho1 Hd HN Hf ia. pose proof bn_range as Hr. pose proof (o_img _ _ _ _ _ _ Ho1) as Hwf. pose proof (o_fb _ _ _ _ _ _ Ho1) as Hb. rewrite nmeta_val in *.
  pose proof (data_ok_range _ _ _ _ _ _ i0 None Ho1 Hi0 I HN) as Hia. fold ia in Hia. rewrite nmeta_val in Hia.
  assert (Hloc : dloc img (D1 i0) (Some bn) = get32 (Z.to_nat (4 * (bn - NDIRECT))) (blk img ia)).
  { cbn [dloc] in *. rewrite (proj2 (Z.ltb_ge _ _)) by lia. unfold ia in *. by rewrite (proj2 (Z.eqb_neq _ 0)) by lia. }
  pose proof (o_loc _ _ _ _ _ _ Ho1 i0 (Some bn) Hi0 Hr) as Hl. rewrite Hloc in Hl. unfold take_ind.
  rewrite (bind_run _ _ _ _ _ (rsect_run ia (mkMkfs img fv fb1) ltac:(lia) Hwf)). cbn [fs_img]. destruct (A1 i0 (Some bn)) eqn:HA1.
  - rewrite nmeta_val in Hl. rewrite (proj2 (Z.eqb_neq _ 0)) by lia. by exists img.
  - destruct (Hf eq_refl) as [Hlt Hle]. rewrite Hl. cbn [Z.eqb]. exists (upd img ia (put32 (Z.to_nat (4 * (bn - NDIRECT))) fb1 (blk img ia))). split; [|split].
    + unfold take_block, gets, modify, mbind, M_bind, mret, M_ret. cbn [freeblock fs_img freeinode]. rewrite xint_small by lia.
      rewrite u32_small by (unfold FSSIZE in *; lia). rewrite wsect_run by (done || lia). by rewrite blk_upd_eq by (done || lia).
    + by apply data_ok_take_ind.
    + intros b Hb'. apply blk_upd_ne; [done|lia..].
Qed.

Lemma iappend_indirect : NDIRECT <= bn →
  ∃ D' A' fb' img', iappend_block (D i0) bn (mkMkfs img fv fb) = Ok (D' i0, dloc img' (D' i0) (Some bn)) (mkMkfs img' fv fb') ∧
  block_taken D A C fi fb img i0 off D' A' fb' img'.
Proof.
  intros Hd. pose proof bn_range as Hr. pose proof (HA (Some bn) Hr) as Ha. rewrite needs_last in Ha by lia. pose proof (HA None I) as HaN. cbn [needs] in HaN.
  pose proof (Z.div_mod off BSIZE ltac:(done)) as Hdm. pose proof (Z.mod_pos_bound off BSIZE ltac:(done)) as Hm.
  assert (Hge : NDIRECT * BSIZE <= off) by (unfold BSIZE in *; lia).
  rewrite blocks_of_step in Hfb by lia.
  destruct (take_addr_ok D A C fi fb img i0 NDIRECT None fv Ho Hi0) as (D1 & Hrun & Ho1 & Hsame1).
  { unfold NDIRECT. lia. } { done. }
  { intros Hf. rewrite Hf in HaN. symmetry in HaN. apply Z.ltb_ge in HaN. split; [|lia]. rewrite (bool_decide_eq_true_2 (off = _)) in Hfb by lia. destruct (bool_decide (_ = 0)); lia. }
  set (A1 := if A i0 None then A else aset A i0 None) in *. set (fb1 := if A i0 None then fb else fb + 1) in *.
  assert (Hfb1 : fb1 = fb + if bool_decide (off = NDIRECT * BSIZE) then 1 else 0).
  { unfold fb1. rewrite HaN. destruct (bool_decide_reflect (off = NDIRECT * BSIZE)), (Z.ltb_spec (NDIRECT * BSIZE) off); lia. }
  assert (HA1N : A1 i0 None = true) by (unfold A1; destruct (A i0 None) eqn:E; [done|apply aset_eq]).
  assert (HA1 : ∀ b, A1 i0 (Some b) = A i0 (Some b)) by (intros b; unfold A1; destruct (A i0 None); [done|apply aset_ne; by intros [_ ?]]).
  destruct (take_ind_ok D1 A1 fb1 Ho1 Hd HA1N) as (img' & Hrun' & Ho' & Hmeta).
  { rewrite HA1, Ha. intros Hz. apply negb_false_iff in Hz. rewrite Hz in Hfb. apply bool_decide_eq_true in Hz. split; lia. }
  rewrite HA1, Ha in *. exists D1, (if negb (bool_decide (off mod BSIZE = 0)) then A1 else aset A1 i0 (Some bn)), (if negb (bool_decide (off mod BSIZE = 0)) then fb1 else fb1 + 1), img'.
  pose proof (data_ok_range _ _ _ _ _ _ i0 None Ho1 Hi0 I HA1N) as Hia. pose proof (o_fb _ _ _ _ _ _ Ho') as Hb'. pose proof (o_fb _ _ _ _ _ _ Ho1) as Hb1. rewrite nmeta_val in *.
  assert (Hin : nmeta <= dloc img' (D1 i0) (Some bn) < if negb (bool_decide (off mod BSIZE = 0)) then fb1 else fb1 + 1).
  { apply (data_ok_range _ _ _ _ _ _ i0 (Some bn) Ho' Hi0 Hr). destruct (negb _) eqn:E; [by rewrite HA1, Ha|apply aset_eq]. }
  assert (Hloc : dloc img' (D1 i0) (Some bn) = get32 (Z.to_nat (4 * (bn - NDIRECT))) (blk img' (dloc img (D1 i0) None))).
  { cbn [dloc] in *. rewrite (proj2 (Z.ltb_ge _ _)) by lia. by rewrite (proj2 (Z.eqb_neq _ 0)) by lia. }
  rewrite nmeta_val in Hin. split.
  - unfold iappend_block. rewrite (proj2 (Z.ltb_ge _ _)) by lia. rewrite (bind_run _ _ _ _ _ Hrun).
    change (get32 (addr_off NDIRECT) (D1 i0)) with (dloc img (D1 i0) None). rewrite (xint_small (dloc _ _ None)) by lia.
    rewrite (bind_run _ _ _ _ _ Hrun'). unfold mret, M_ret. rewrite Hloc in *. by rewrite xint_small by lia.
  - split; [exact Ho'| | |exact Hsame1|intros b; rewrite nmeta_val; apply Hmeta|].
    + intros key Hk. rewrite needs_step by (done || lia). rewrite <-(HA key Hk).
      assert (HK : A1 i0 key = bool_decide (off = NDIRECT * BSIZE ∧ key = None) || A i0 key).
      { unfold A1. destruct (A i0 None) eqn:E.
        - symmetry in HaN. apply Z.ltb_lt in HaN. by rewrite bool_decide_eq_false_2 by lia.
        - unfold aset. symmetry in HaN. apply Z.ltb_ge in HaN. f_equal. apply bool_decide_ext. split; [intros [_ ->]; split; [lia|done]|by intros [_ ->]]. }
      rewrite <-orb_assoc, <-HK. destruct (bool_decide_reflect (off mod BSIZE = 0)) as [Hz|Hz]; cbn [negb].
      * unfold aset. f_equal. apply bool_decide_ext. naive_solver.
      * by rewrite bool_decide_eq_false_2 by naive_solver.
    + intros i key Hi. assert (A1 i key = A i key) by (unfold A1; destruct (A i0 None); [done|apply aset_ne; by intros [? _]]).
      destruct (negb _); [done|]. rewrite aset_ne; [done|by intros [? _]].
    + rewrite blocks_of_step by lia. destruct (bool_decide (off mod BSIZE = 0)); cbn [negb]; lia.
Qed.
End append.

(** The blocks are the ones that the bytes need. *)
Definition filled (C : Z → list Z) : Z → option Z → bool := λ i key, needs (Z.of_nat (length (C i))) key.

(** The same blocks and bytes, described otherwise. *)
Lemma data_ok_transfer D A C fi fb img D' A' C' img' : data_ok D A C fi fb img → img_wf img' → (∀ i, length (D' i) = 64%nat) →
  (∀ i key, 1 <= i < fi → key_ok key → dloc img' (D' i) key = dloc img (D i) key) →
  (∀ i key, 1 <= i < fi → key_ok key → A' i key = A i key) → (∀ i, 1 <= i < fi → C' i = C i) →
  (∀ b, nmeta <= b < FSSIZE → blk img' b = blk img b) → data_ok D' A' C' fi fb img'.
Proof.
  intros Ho Hwf Hlen Hloc HA HC Hblk. pose proof (o_fb _ _ _ _ _ _ Ho) as Hr. split; [done|done|done|..].
  - intros i key Hi Hk. rewrite HA, Hloc by done. by apply Ho.
  - intros i key i' key' Hi Hi' Hk Hk'. rewrite !HA, !Hloc by done. by apply (o_inj _ _ _ _ _ _ Ho).
  - intros i bn j Hi Hbn Hj. rewrite HA, HC, Hloc by done. intros Ha.
    pose proof (o_loc _ _ _ _ _ _ Ho i (Some bn) Hi Hbn) as H. rewrite Ha in H. rewrite Hblk by lia. by apply (o_cont _ _ _ _ _ _ Ho).
  - intros b Hb. rewrite Hblk by lia. by apply Ho.
Qed.
Lemma data_ok_ext D A A' C fi fb img : data_ok D A C fi fb img → (∀ i key, 1 <= i < fi → key_ok key → A' i key = A i key) → data_ok D A' C fi fb img.
Proof. intros Ho HA. eapply data_ok_transfer; [exact Ho|apply Ho|apply Ho|done..]. Qed.
Lemma filled_ext D C C' fi fb img : data_ok D (filled C) C fi fb img → (∀ i, C' i = C i) → data_ok D (filled C') C' fi fb img.
Proof. intros Ho HC. eapply data_ok_transfer; [exact Ho|apply Ho|apply Ho|done| |done..]. intros i key _ _. unfold filled. by rewrite HC. Qed.

(** Within a block nothing more is needed. *)
Lemma needs_block off n key : 0 <= off → 1 <= n → off + n <= (off / BSIZE + 1) * BSIZE → key_ok key → needs (off + n) key = needs (off + 1) key.
Proof.
  intros Hoff Hn Hle Hk. unfold needs, BSIZE, NDIRECT in *. pose proof (Z.div_mod off 512 ltac:(lia)). pose proof (Z.mod_pos_bound off 512 ltac:(lia)).
  destruct key as [bn|]; [destruct (Z.ltb_spec (bn * 512) (off + 1))|destruct (Z.ltb_spec (10 * 512) (off + 1))]; (apply Z.ltb_lt || apply Z.ltb_ge); lia.
Qed.
Lemma blocks_of_block off n : 0 <= off → 1 <= n → off + n <= (off / BSIZE + 1) * BSIZE → blocks_of (off + n) = blocks_of (off + 1).
Proof.
  intros Hoff Hn Hle. pose proof (needs_block off n None Hoff Hn Hle I) as He. unfold needs in He. unfold blocks_of. rewrite He. f_equal.
  unfold BSIZE in *. pose proof (Z.div_mod off 512 ltac:(lia)). pose proof (Z.mod_pos_bound off 512 ltac:(lia)).
  rewrite <-(Z.div_unique (off + n + (512 - 1)) 512 (off / 512 + 1) (off mod 512 + n - 1)) by lia.
  by rewrite <-(Z.div_unique (off + 1 + (512 - 1)) 512 (off / 512 + 1) (off mod 512)) by lia.
Qed.
Lemma blocks_of_mono m n : 0 <= m <= n → blocks_of m <= blocks_of n.
Proof.
  intros H. unfold blocks_of, BSIZE, NDIRECT. pose proof (Z.div_le_mono (m + (512 - 1)) (n + (512 - 1)) 512 ltac:(lia) ltac:(lia)).
  destruct (Z.ltb_spec (10 * 512) m), (Z.ltb_spec (10 * 512) n); lia.
Qed.

(** The bytes [p] appended to file [i0]. *)
Record appended (D C : Z → list Z) (fi fb : Z) (img : list block) (i0 : Z) (p : list Z) (D' : Z → list Z) (fb' : Z) (img' : list block) : Prop := {
  ap_ok : let C' := <[i0 := C i0 ++ p]> C in data_ok D' (filled C') C' fi fb' img';
  ap_same : same_but i0 D D';
  ap_meta b : 0 <= b < nmeta → blk img' b = blk img b;
  ap_fb : fb' = fb + (blocks_of (Z.of_nat (length (C i0) + length p)) - blocks_of (Z.of_nat (length (C i0))))
}.

Lemma iappend_piece D C fi fb img i0 fv d : let off := Z.of_nat (length (C i0)) in
  data_ok D (filled C) C fi fb img → 1 <= i0 < fi → off < MAXFILE * BSIZE → (1 <= length d)%nat → off + Z.of_nat (length d) <= (off / BSIZE + 1) * BSIZE →
  fb + (blocks_of (off + 1) - blocks_of off) <= FSSIZE →
  ∃ D' fb' img1 img' x, iappend_block (D i0) (off / BSIZE) (mkMkfs img fv fb) = Ok (D' i0, x) (mkMkfs img1 fv fb') ∧ 0 <= x < FSSIZE ∧ img_wf img1 ∧
    img' = upd img1 x (bsplice (Z.to_nat (off - off / BSIZE * BSIZE)) d (blk img1 x)) ∧ appended D C fi fb img i0 d D' fb' img'.
Proof.
  intros off Ho Hi0 Hmax Hd Hle Hfb. assert (Hoff : off = Z.of_nat (length (C i0))) by reflexivity.
  assert (Hbn : 0 <= off / BSIZE < MAXFILE) by (split; [apply Z.div_pos; unfold BSIZE; lia|apply Z.div_lt_upper_bound; [done|]; lia]).
  assert (Hstep : ∃ D' A' fb' img', iappend_block (D i0) (off / BSIZE) (mkMkfs img fv fb) = Ok (D' i0, dloc img' (D' i0) (Some (off / BSIZE))) (mkMkfs img' fv fb') ∧
    block_taken D (filled C) C fi fb img i0 off D' A' fb' img').
  { destruct (Z.lt_ge_cases (off / BSIZE) NDIRECT) as [Hn|Hn].
    - destruct (iappend_direct D (filled C) C fi fb img i0 fv Ho Hi0 ltac:(done) (proj2 Hbn) Hfb Hn) as (D' & A' & fb' & H). by exists D', A', fb', img.
    - exact (iappend_indirect D (filled C) C fi fb img i0 fv Ho Hi0 ltac:(done) (proj2 Hbn) Hfb Hn). }
  destruct Hstep as (D' & A' & fb' & img1 & Hrun & Hbt). pose proof (bt_ok _ _ _ _ _ _ _ _ _ _ _ _ Hbt) as Ho1.
  assert (Hlow : off / BSIZE * BSIZE <= off) by (rewrite Z.mul_comm; by apply Z.mul_div_le).
  assert (Ha : A' i0 (Some (off / BSIZE)) = true) by (rewrite (bt_mine _ _ _ _ _ _ _ _ _ _ _ _ Hbt) by done; cbn [needs]; apply Z.ltb_lt; lia).
  pose proof (data_ok_range _ _ _ _ _ _ i0 (Some (off / BSIZE)) Ho1 Hi0 Hbn Ha) as Hx. pose proof (o_fb _ _ _ _ _ _ Ho1) as Hb. rewrite nmeta_val in *.
  exists D', fb', img1. eexists _, _. split; [exact Hrun|]. split; [lia|]. split; [apply Ho1|]. split; [done|]. split.
  - eapply data_ok_ext; [apply (data_ok_write _ _ _ _ _ _ i0 (off / BSIZE) d Ho1 Hi0 Hbn Ha); fold off; lia|].
    intros i key Hi Hk. unfold filled. destruct (decide (i = i0)) as [->|Hne].
    + rewrite fn_lookup_insert, length_app, Nat2Z.inj_add, <-Hoff, needs_block by (done || lia). symmetry. by apply (bt_mine _ _ _ _ _ _ _ _ _ _ _ _ Hbt).
    + rewrite fn_lookup_insert_ne by done. by rewrite (bt_others _ _ _ _ _ _ _ _ _ _ _ _ Hbt).
  - apply Hbt.
  - intros b Hb'. rewrite nmeta_val in Hb'. rewrite blk_upd_ne by (apply Ho1 || lia). apply (bt_meta _ _ _ _ _ _ _ _ _ _ _ _ Hbt). by rewrite nmeta_val.
  - rewrite Nat2Z.inj_add, <-Hoff, blocks_of_block by lia. apply (bt_fb _ _ _ _ _ _ _ _ _ _ _ _ Hbt).
Qed.

Lemma appended_trans D C fi fb img i0 p q D1 fb1 img1 D2 fb2 img2 : appended D C fi fb img i0 p D1 fb1 img1 →
  appended D1 (<[i0 := C i0 ++ p]> C) fi fb1 img1 i0 q D2 fb2 img2 → appended D C fi fb img i0 (p ++ q) D2 fb2 img2.
Proof.
  intros [Ho1 Hs1 Hm1 Hf1] [Ho2 Hs2 Hm2 Hf2]. rewrite fn_lookup_insert in *. split.
  - cbn zeta in *. rewrite <-app_assoc in Ho2.
    assert (He : ∀ i, (<[i0 := C i0 ++ p ++ q]> (<[i0 := C i0 ++ p]> C)) i = (<[i0 := C i0 ++ p ++ q]> C) i).
    { intros i. destruct (decide (i = i0)) as [->|Hne]; [by rewrite !fn_lookup_insert|by rewrite !fn_lookup_insert_ne]. }
    eapply filled_ext; [exact Ho2|]. intros i. by rewrite He.
  - by eapply img_same_but_trans.
  - intros b Hb. by rewrite Hm2, Hm1.
  - rewrite Hf2, Hf1. rewrite !length_app, Nat.add_assoc. lia.
Qed.
Lemma appended_nil D C fi fb img i0 : data_ok D (filled C) C fi fb img → appended D C fi fb img i0 [] D fb img.
Proof.
  intros Ho. assert (He : ∀ i, (<[i0 := C i0 ++ []]> C) i = C i).
  { intros i. destruct (decide (i = i0)) as [->|Hne]; [by rewrite fn_lookup_insert, app_nil_r|by rewrite fn_lookup_insert_ne]. }
  split; [|apply img_same_but_refl|done|rewrite Nat.add_0_r; lia]. by eapply filled_ext.
Qed.

Lemma iappend_loop_ok i0 fi fv fuel : ∀ p D C fb img, let off := Z.of_nat (length (C i0)) in let n := Z.of_nat (length p) in
  data_ok D (filled C) C fi fb img → 1 <= i0 < fi → (length p <= fuel)%nat → off + n <= MAXFILE * BSIZE →
  fb + (blocks_of (off + n) - blocks_of off) <= FSSIZE →
  ∃ D' fb' img', iappend_loop (D i0) off p fuel (mkMkfs img fv fb) = Ok (D' i0, off + n) (mkMkfs img' fv fb') ∧ appended D C fi fb img i0 p D' fb' img'.
Proof.
  induction fuel as [|fuel IH]; intros p D C fb img off n Ho Hi0 Hfuel Hmax Hfb.
  { destruct p; [|cbn in Hfuel; lia]. exists D, fb, img. split; [unfold n; cbn; by rewrite Z.add_0_r|by apply appended_nil]. }
  cbn [iappend_loop]. fold n. destruct (Z.ltb_spec 0 n) as [Hn|Hn].
  2: { destruct p; [|unfold n in Hn; cbn in Hn; lia]. exists D, fb, img. split; [unfold n; cbn; by rewrite Z.add_0_r|by apply appended_nil]. }
  assert (Hoff : off = Z.of_nat (length (C i0))) by reflexivity. assert (Hnn : n = Z.of_nat (length p)) by reflexivity.
  pose proof (Z.mul_div_le off BSIZE eq_refl) as Hdl. pose proof (Z.mul_succ_div_gt off BSIZE eq_refl) as Hdg.
  rewrite MAXFILE_val in Hmax. assert (Hlt : off / BSIZE < MAXFILE) by (rewrite MAXFILE_val; apply Z.div_lt_upper_bound; [done|]; lia).
  rewrite (proj2 (Z.ltb_lt _ _)) by done. cbn [negb].
  set (n1 := if n <? (off / BSIZE + 1) * BSIZE - off then n else (off / BSIZE + 1) * BSIZE - off).
  assert (Hn1 : 1 <= n1 <= n ∧ off + n1 <= (off / BSIZE + 1) * BSIZE) by (unfold n1; destruct (Z.ltb_spec n ((off / BSIZE + 1) * BSIZE - off)); lia).
  clearbody n1. assert (Hl1 : length (take (Z.to_nat n1) p) = Z.to_nat n1) by (rewrite length_take; lia).
  pose proof (blocks_of_mono (off + 1) (off + n) ltac:(lia)).
  destruct (iappend_piece D C fi fb img i0 fv (take (Z.to_nat n1) p)) as (D1 & fb1 & img1 & img2 & x & Hrun & Hx & Hwf & Himg & Hap); [done|done|rewrite MAXFILE_val; fold off; lia|lia|fold off; lia|fold off; lia|].
  fold off in Hrun, Himg. rewrite (bind_run _ _ _ _ _ Hrun). cbn [fst snd].
  rewrite (bind_run _ _ _ _ _ (rsect_run x (mkMkfs img1 fv fb1) Hx Hwf)). cbn [fs_img].
  rewrite (bind_run _ _ _ _ _ (wsect_run x _ (mkMkfs img1 fv fb1) Hx Hwf)). unfold set_fs_img. cbn [fs_img freeinode freeblock]. rewrite <-Himg.
  rewrite u32_small by (unfold BSIZE in *; lia).
  assert (Hc1 : off + n1 = Z.of_nat (length ((<[i0 := C i0 ++ take (Z.to_nat n1) p]> C) i0))) by (rewrite fn_lookup_insert, length_app, Hl1; lia).
  pose proof (ap_fb _ _ _ _ _ _ _ _ _ _ Hap) as Hf1. rewrite Hl1 in Hf1. replace (Z.of_nat (length (C i0) + Z.to_nat n1)) with (off + n1) in Hf1 by lia. fold off in Hf1.
  assert (Hn2 : Z.of_nat (length (drop (Z.to_nat n1) p)) = n - n1) by (rewrite length_drop; lia).
  destruct (IH (drop (Z.to_nat n1) p) D1 (<[i0 := C i0 ++ take (Z.to_nat n1) p]> C) fb1 img2) as (D' & fb' & img' & Hrun' & Hap').
  { apply Hap. } { done. } { lia. } { rewrite <-Hc1, Hn2, MAXFILE_val. lia. } { rewrite <-Hc1, Hn2. replace (off + n1 + (n - n1)) with (off + n) by lia. lia. }
  rewrite <-Hc1, Hn2 in Hrun'. replace (off + n1 + (n - n1)) with (off + n) in Hrun' by lia.
  exists D', fb', img'. split; [exact Hrun'|]. rewrite <-(take_drop (Z.to_nat n1) p). by eapply appended_trans.
Qed.

(** ** The image as a whole *)

(** The inode that [ialloc] writes. *)
Definition fresh (type : Z) : list Z :=
  put32 12 (xint 0x700) (put16 10 (xshort 1) (put16 8 (xshort 99) (put32 16 (xint 0) (put16 6 (xshort 1) (put16 0 (xshort type) (replicate 64 0)))))).

(** The image after [ialloc] and [iappend]: inode [i] has the type [Ty i] and
    the bytes [C i]; the inodes from [freeinode] are free. *)
Record mk_ok (D : Z → list Z) (Ty : Z → Z) (C : Z → list Z) (s : mkfs) : Prop := {
  m_data : data_ok D (filled C) C (freeinode s) (freeblock s) (fs_img s);
  m_fi : 1 <= freeinode s <= NINODES;
  m_ino i : 1 <= i < NINODES → bslice (dip_off i) 64 (blk (fs_img s) (IBLOCK i)) = D i;
  m_free i : freeinode s <= i → D i = replicate 64 0;
  m_size i : 1 <= i < freeinode s → get32 16 (D i) = Z.of_nat (length (C i)) ∧ Z.of_nat (length (C i)) <= MAXFILE * BSIZE;
  m_fields i : 1 <= i < freeinode s → take 16 (D i) = take 16 (fresh (Ty i));
  m_sb : blk (fs_img s) 1 = bsplice 0 sb_bytes zero_block;
  m_boot : blk (fs_img s) 0 = zero_block
}.

Lemma iblock_meta i : 0 <= i < NINODES → 2 <= IBLOCK i < nmeta - 1.
Proof.
  intros Hi. rewrite nmeta_val. unfold IBLOCK, NINODES in *. change IPB with 8. pose proof (Z.div_pos i 8 ltac:(lia) ltac:(lia)).
  pose proof (Z.div_le_mono i 199 8 ltac:(lia) ltac:(lia)) as Hle. change (199 / 8) with 24 in Hle. lia.
Qed.
Lemma dip_off_ne i j : i ≠ j → IBLOCK i = IBLOCK j → (dip_off i + 64 <= dip_off j ∨ dip_off j + 64 <= dip_off i)%nat.
Proof.
  intros Hne. unfold IBLOCK, dip_off. change IPB with 8. change DINODE_SIZE with 64. intros He.
  pose proof (Z.div_mod i 8 ltac:(lia)). pose proof (Z.div_mod j 8 ltac:(lia)). pose proof (Z.mod_pos_bound i 8 ltac:(lia)). pose proof (Z.mod_pos_bound j 8 ltac:(lia)). lia.
Qed.

Lemma rinode_run inum s : 0 <= inum < NINODES → img_wf (fs_img s) → rinode inum s = Ok (bslice (dip_off inum) 64 (blk (fs_img s) (IBLOCK inum))) s.
Proof.
  intros Hi Hwf. pose proof (iblock_meta inum Hi) as Hb. rewrite nmeta_val in Hb. unfold rinode.
  rewrite (bind_run _ _ _ _ _ (rsect_run (IBLOCK inum) s ltac:(unfold FSSIZE; lia) Hwf)). done.
Qed.
(** The image with inode [inum] written. *)
Definition put_inode (img : list block) (inum : Z) (din : list Z) : list block :=
  upd img (IBLOCK inum) (bsplice (dip_off inum) din (blk img (IBLOCK inum))).
Lemma winode_run inum din s : 0 <= inum < NINODES → img_wf (fs_img s) → winode inum din s = Ok tt (set_fs_img (put_inode (fs_img s) inum din) s).
Proof.
  intros Hi Hwf. pose proof (iblock_meta inum Hi) as Hb. rewrite nmeta_val in Hb. unfold winode.
  rewrite (bind_run _ _ _ _ _ (rsect_run (IBLOCK inum) s ltac:(unfold FSSIZE; lia) Hwf)). by rewrite wsect_run by (done || unfold FSSIZE; lia).
Qed.

(** Inodes and data do not share blocks. *)
Lemma data_ok_meta D A C fi fb img b d : data_ok D A C fi fb img → 0 <= b < nmeta → length d = 512%nat → data_ok D A C fi fb (upd img b d).
Proof.
  intros Ho Hb Hd. pose proof (o_img _ _ _ _ _ _ Ho) as Hwf. pose proof (o_fb _ _ _ _ _ _ Ho) as Hr. rewrite nmeta_val in *.
  assert (Hloc : ∀ i key, 1 <= i < fi → key_ok key → dloc (upd img b d) (D i) key = dloc img (D i) key).
  { intros i key Hi Hk. unfold dloc. destruct key as [bn|]; [|done]. destruct (bn <? NDIRECT); [done|]. destruct (Z.eqb_spec (daddr (D i) NDIRECT) 0) as [|Hz]; [done|].
    pose proof (data_ok_range _ _ _ _ _ _ i None Ho Hi I (data_ok_there _ _ _ _ _ _ i None Ho Hi I Hz)) as H. cbn [dloc] in H. rewrite nmeta_val in H.
    by rewrite blk_upd_ne by (done || lia). }
  eapply data_ok_transfer; [exact Ho|by apply upd_wf|apply Ho|done..|]. intros x Hx. rewrite nmeta_val in Hx. apply blk_upd_ne; (done || unfold FSSIZE; lia).
Qed.
(** Only the addresses of the inodes matter. *)
Lemma data_ok_addrs D D' A C fi fb img : data_ok D A C fi fb img → (∀ i, length (D' i) = 64%nat) →
  (∀ i n, 1 <= i < fi → 0 <= n <= NDIRECT → daddr (D' i) n = daddr (D i) n) → data_ok D' A C fi fb img.
Proof.
  intros Ho Hl HD. assert (Hloc : ∀ i key, 1 <= i < fi → key_ok key → dloc img (D' i) key = dloc img (D i) key).
  { intros i key Hi Hk. unfold dloc. destruct key as [bn|]; [|apply HD; [done|unfold NDIRECT; lia]]. cbn [key_ok] in Hk. rewrite !(HD i NDIRECT) by (done || unfold NDIRECT; lia).
    destruct (Z.ltb_spec bn NDIRECT); [|done]. apply HD; [done|lia]. }
  eapply data_ok_transfer; [exact Ho|apply Ho|done..].
Qed.

Lemma length_put_dinode img i b din : img_wf img → length din = 64%nat → length (bsplice (dip_off i) din (blk img b)) = 512%nat.
Proof. intros Hwf Hd. pose proof (dip_off_range i). rewrite length_bsplice; rewrite length_blk by done; [done|]. by rewrite Hd. Qed.
Lemma put_inode_wf img i din : img_wf img → 0 <= i < NINODES → length din = 64%nat → img_wf (put_inode img i din).
Proof.
  intros Hwf Hi Hd. apply upd_wf; [done|]. by apply length_put_dinode.
Qed.
Lemma put_inode_read img i j din : img_wf img → 0 <= i < NINODES → 0 <= j < NINODES → length din = 64%nat →
  bslice (dip_off j) 64 (blk (put_inode img i din) (IBLOCK j)) = if j =? i then din else bslice (dip_off j) 64 (blk img (IBLOCK j)).
Proof.
  intros Hwf Hi Hj Hd. pose proof (iblock_meta i Hi) as Hbi. pose proof (iblock_meta j Hj) as Hbj. rewrite nmeta_val in *. unfold put_inode.
  pose proof (dip_off_range i) as Hoi. pose proof (length_blk img (IBLOCK i) Hwf) as Hl. rewrite blk_upd by (done || unfold FSSIZE; lia).
  destruct (Z.eqb_spec j i) as [->|Hne]; [rewrite Z.eqb_refl; rewrite <-Hd at 1; apply bslice_bsplice_eq; lia|].
  destruct (Z.eqb_spec (IBLOCK j) (IBLOCK i)) as [He|]; [|done]. rewrite He. apply bslice_bsplice_ne; [lia|]. rewrite Hd.
  destruct (dip_off_ne j i Hne He); lia.
Qed.
Lemma put_inode_other img i din b : img_wf img → 0 <= i < NINODES → 0 <= b → b < 2 ∨ nmeta - 1 <= b → blk (put_inode img i din) b = blk img b.
Proof. intros Hwf Hi Hb Hb'. pose proof (iblock_meta i Hi) as Hbi. rewrite nmeta_val in *. apply blk_upd_ne; (done || unfold FSSIZE; lia). Qed.

(** Fields of the inode. *)
Lemma take_put_size n x din : (n <= 16)%nat → length din = 64%nat → take n (put32 16 x din) = take n din.
Proof.
  intros Hn Hl. unfold put32, bsplice. rewrite take_app_le by (rewrite length_take; lia). rewrite take_take. f_equal. lia.
Qed.
Lemma daddr_put_size n x din : 0 <= n <= NDIRECT → length din = 64%nat → daddr (put32 16 x din) n = daddr din n.
Proof. intros Hn Hl. unfold daddr. apply get_put32_ne; [lia|]. unfold addr_off. lia. Qed.

Lemma iappend_ok D Ty C s i0 p : mk_ok D Ty C s → 1 <= i0 < freeinode s → Z.of_nat (length (C i0) + length p) <= MAXFILE * BSIZE →
  let fb' := freeblock s + (blocks_of (Z.of_nat (length (C i0) + length p)) - blocks_of (Z.of_nat (length (C i0)))) in fb' <= FSSIZE →
  ∃ D' img', iappend i0 p s = Ok tt (mkMkfs img' (freeinode s) fb') ∧ mk_ok D' Ty (<[i0 := C i0 ++ p]> C) (mkMkfs img' (freeinode s) fb').
Proof.
  intros Hok Hi0 Hmax fb' Hfb. destruct s as [img fi fb]. cbn [fs_img freeinode freeblock] in *. pose proof (m_data _ _ _ _ Hok) as Ho. cbn [fs_img freeinode freeblock] in Ho.
  pose proof (m_fi _ _ _ _ Hok) as Hfi. cbn [freeinode] in Hfi. assert (Hi : 0 <= i0 < NINODES) by lia. pose proof (o_img _ _ _ _ _ _ Ho) as Hwf.
  destruct (m_size _ _ _ _ Hok i0 Hi0) as [Hsz _]. rewrite MAXFILE_val in Hmax. unfold BSIZE in Hmax.
  unfold iappend. rewrite (bind_run _ _ _ _ _ (rinode_run i0 (mkMkfs img fi fb) Hi Hwf)).
  rewrite (m_ino _ _ _ _ Hok i0) by lia. rewrite Hsz, xint_u32, u32_small by lia.
  destruct (iappend_loop_ok i0 fi fi (length p) p D C fb img) as (D1 & fb1 & img1 & Hrun & Hap); [done|done|done|rewrite MAXFILE_val; unfold BSIZE; lia|rewrite <-Nat2Z.inj_add; lia|].
  rewrite (bind_run _ _ _ _ _ Hrun). cbn [fst snd]. destruct Hap as [Ho1 Hsame Hmeta Hfb1]. cbn zeta in Ho1. assert (fb1 = fb') as -> by done.
  pose proof (o_img _ _ _ _ _ _ Ho1) as Hwf1. pose proof (o_din _ _ _ _ _ _ Ho1) as Hlen. rewrite winode_run by done. unfold set_fs_img. cbn [fs_img freeinode freeblock].
  set (din := put32 16 _ (D1 i0)). assert (Hdl : length din = 64%nat) by (unfold din; rewrite length_put32; [done|rewrite Hlen; lia]).
  exists (<[i0 := din]> D1). eexists. split; [done|].
  assert (Hdin : ∀ i, i ≠ i0 → (<[i0 := din]> D1) i = D i) by (intros i Hne; rewrite fn_lookup_insert_ne by done; by apply Hsame).
  split; cbn [fs_img freeinode freeblock].
  - eapply data_ok_addrs; [apply data_ok_meta; [exact Ho1|pose proof (iblock_meta i0 Hi); lia|]|..].
    + by apply length_put_dinode.
    + intros i. destruct (decide (i = i0)) as [->|Hne]; [by rewrite fn_lookup_insert|by rewrite fn_lookup_insert_ne].
    + intros i n _ Hn. destruct (decide (i = i0)) as [->|Hne]; [rewrite fn_lookup_insert; by apply daddr_put_size|by rewrite fn_lookup_insert_ne].
  - done.
  - intros i Hi'. rewrite put_inode_read by (done || lia). destruct (Z.eqb_spec i i0) as [->|Hne]; [by rewrite fn_lookup_insert|]. rewrite Hdin by done.
    pose proof (iblock_meta i ltac:(lia)). rewrite Hmeta by lia. by apply (m_ino _ _ _ _ Hok).
  - intros i Hi'. rewrite Hdin by lia. by apply (m_free _ _ _ _ Hok).
  - intros i Hi'. destruct (decide (i = i0)) as [->|Hne].
    + rewrite !fn_lookup_insert, length_app. unfold din. rewrite get_put32 by (rewrite Hlen; lia). rewrite xint_u32, <-Nat2Z.inj_add, MAXFILE_val. unfold BSIZE.
      rewrite (u32_small (Z.of_nat _)), u32_small by lia. lia.
    + rewrite Hdin, fn_lookup_insert_ne by done. by apply (m_size _ _ _ _ Hok).
  - intros i Hi'. destruct (decide (i = i0)) as [->|Hne]; [|rewrite Hdin by done; by apply (m_fields _ _ _ _ Hok)].
    rewrite fn_lookup_insert. unfold din. rewrite take_put_size by (done || lia). rewrite <-(m_fields _ _ _ _ Hok i0 Hi').
    replace 16%nat with (16 `min` 20)%nat by done. rewrite <-!take_take. f_equal. apply Hsame.
  - rewrite put_inode_other, Hmeta by (done || rewrite ?nmeta_val; lia). apply (m_sb _ _ _ _ Hok).
  - rewrite put_inode_other, Hmeta by (done || rewrite ?nmeta_val; lia). apply (m_boot _ _ _ _ Hok).
Qed.

Lemma length_fresh type : length (fresh type) = 64%nat.
Proof. unfold fresh. by repeat first [rewrite length_put32|rewrite length_put16|rewrite length_replicate]; (lia || done). Qed.
Lemma fresh_addr type n : 0 <= n <= NDIRECT → daddr (fresh type) n = 0.
Proof.
  intros Hn. assert (Hd : drop 20 (fresh type) = replicate 44 0) by reflexivity.
  assert (He : daddr (fresh type) n = get32 (Z.to_nat (4 * n)) (drop 20 (fresh type))).
  { unfold daddr, get32, bslice. rewrite drop_drop. do 3 f_equal. unfold addr_off. lia. }
  rewrite He, Hd. apply get32_zero. unfold NDIRECT in Hn. lia.
Qed.
Lemma fresh_size type : get32 16 (fresh type) = 0.
Proof. reflexivity. Qed.

Lemma data_ok_new D C fi fb img type : data_ok D (filled C) C fi fb img → 1 <= fi →
  let C' := <[fi := []]> C in data_ok (<[fi := fresh type]> D) (filled C') C' (fi + 1) fb img.
Proof.
  intros Ho Hfi C'. assert (Hold : ∀ i, 1 <= i < fi → (<[fi := fresh type]> D) i = D i ∧ C' i = C i) by (intros i Hi; unfold C'; by rewrite !fn_lookup_insert_ne by lia).
  assert (Hloc : ∀ key, key_ok key → dloc img (fresh type) key = 0).
  { intros key Hk. unfold dloc. destruct key as [bn|]; cbn [key_ok] in Hk; [|apply fresh_addr; unfold NDIRECT; lia].
    rewrite (fresh_addr type NDIRECT) by (unfold NDIRECT; lia). destruct (Z.ltb_spec bn NDIRECT); [apply fresh_addr; lia|done]. }
  assert (Hnew : ∀ key, key_ok key → filled C' fi key = false).
  { intros key Hk. unfold filled, C'. rewrite fn_lookup_insert. unfold needs. cbn [length]. destruct key as [bn|]; cbn [key_ok] in Hk; apply Z.ltb_ge; unfold BSIZE, NDIRECT; lia. }
  assert (Hcase : ∀ i key, 1 <= i < fi + 1 → key_ok key → filled C' i key = true → 1 <= i < fi ∧ filled C i key = true).
  { intros i key Hi Hk Ha. destruct (decide (i = fi)) as [->|Hne]; [by rewrite Hnew in Ha|]. split; [lia|]. unfold filled in *. by rewrite (proj2 (Hold i ltac:(lia))) in Ha. }
  split; try apply Ho.
  - intros i. destruct (decide (i = fi)) as [->|Hne]; [rewrite fn_lookup_insert; apply length_fresh|rewrite fn_lookup_insert_ne by done; apply Ho].
  - intros i key Hi Hk. destruct (decide (i = fi)) as [->|Hne]; [rewrite Hnew, fn_lookup_insert by done; by apply Hloc|].
    destruct (Hold i ltac:(lia)) as [-> HC]. unfold filled. rewrite HC. apply (o_loc _ _ _ _ _ _ Ho); [lia|done].
  - intros i key i' key' Hi Hi' Hk Hk' Ha Ha'. destruct (Hcase i key Hi Hk Ha) as [Hi1 Ha1], (Hcase i' key' Hi' Hk' Ha') as [Hi2 Ha2].
    destruct (Hold i Hi1) as [-> _], (Hold i' Hi2) as [-> _]. by apply (o_inj _ _ _ _ _ _ Ho).
  - intros i bn j Hi Hbn Hj Ha. destruct (Hcase i (Some bn) Hi Hbn Ha) as [Hi1 Ha1]. destruct (Hold i Hi1) as [-> ->]. by apply (o_cont _ _ _ _ _ _ Ho).
Qed.

Lemma mk_ialloc_ok D Ty C s type : mk_ok D Ty C s → freeinode s < NINODES → let fi := freeinode s in
  ∃ D' img', mk_ialloc type s = Ok fi (mkMkfs img' (fi + 1) (freeblock s)) ∧ mk_ok D' (<[fi := type]> Ty) (<[fi := []]> C) (mkMkfs img' (fi + 1) (freeblock s)).
Proof.
  intros Hok Hlt fi. destruct s as [img fi' fb]. cbn [freeinode freeblock] in *. subst fi. rename fi' into fi. pose proof (m_fi _ _ _ _ Hok) as Hfi. cbn [freeinode] in Hfi.
  pose proof (m_data _ _ _ _ Hok) as Ho. cbn [fs_img freeinode freeblock] in Ho. pose proof (o_img _ _ _ _ _ _ Ho) as Hwf. pose proof (length_fresh type) as Hfl.
  unfold NINODES in *. assert (Hrun : mk_ialloc type (mkMkfs img fi fb) = Ok fi (mkMkfs (put_inode img fi (fresh type)) (fi + 1) fb)).
  { pose proof (winode_run fi (fresh type) (mkMkfs img (fi + 1) fb) ltac:(unfold NINODES; lia) Hwf) as Hw.
    unfold mk_ialloc. erewrite bind_run by reflexivity. erewrite bind_run by (unfold modify; cbn [fs_img freeinode freeblock]; rewrite u32_small by lia; reflexivity).
    by erewrite bind_run by exact Hw. }
  exists (<[fi := fresh type]> D). eexists. split; [exact Hrun|]. split; cbn [fs_img freeinode freeblock].
  - apply data_ok_meta; [exact (data_ok_new D C fi fb img type Ho (proj1 Hfi))|pose proof (iblock_meta fi ltac:(unfold NINODES; lia)); lia|].
    by apply length_put_dinode.
  - unfold NINODES. lia.
  - intros i Hi. rewrite put_inode_read by (done || unfold NINODES in *; lia). destruct (Z.eqb_spec i fi) as [->|Hne]; [by rewrite fn_lookup_insert|].
    rewrite fn_lookup_insert_ne by done. by apply (m_ino _ _ _ _ Hok).
  - intros i Hi. rewrite fn_lookup_insert_ne by lia. apply (m_free _ _ _ _ Hok). cbn. lia.
  - intros i Hi. destruct (decide (i = fi)) as [->|Hne]; [rewrite !fn_lookup_insert; split; [apply fresh_size|done]|].
    rewrite !fn_lookup_insert_ne by done. apply (m_size _ _ _ _ Hok). cbn. lia.
  - intros i Hi. destruct (decide (i = fi)) as [->|Hne]; [by rewrite !fn_lookup_insert|]. rewrite !fn_lookup_insert_ne by done. apply (m_fields _ _ _ _ Hok). cbn. lia.
  - rewrite put_inode_other by (done || unfold NINODES; rewrite ?nmeta_val; lia). apply (m_sb _ _ _ _ Hok).
  - rewrite put_inode_other by (done || unfold NINODES; rewrite ?nmeta_val; lia). apply (m_boot _ _ _ _ Hok).
Qed.

Lemma mk_ok_ext D Ty C Ty' C' s : mk_ok D Ty C s → (∀ i, 1 <= i < freeinode s → Ty' i = Ty i) → (∀ i, 1 <= i < freeinode s → C' i = C i) → mk_ok D Ty' C' s.
Proof.
  intros Hok HT HC. pose proof (m_data _ _ _ _ Hok) as Ho. destruct Hok as [_ Hfi Hino Hfree Hsz Hf Hsb Hb]. split; [|done|done|done| | |done|done].
  - eapply data_ok_transfer; [exact Ho|apply Ho|apply Ho|done| |done|done]. intros i key Hi _. unfold filled. by rewrite HC.
  - intros i Hi. rewrite HC by done. by apply Hsz.
  - intros i Hi. rewrite HT by done. by apply Hf.
Qed.

(** The pieces of a file. *)
Lemma iappends_ok Ty i0 ps : ∀ D C s, mk_ok D Ty C s → 1 <= i0 < freeinode s → Z.of_nat (length (C i0) + length (concat ps)) <= MAXFILE * BSIZE →
  let fb' := freeblock s + (blocks_of (Z.of_nat (length (C i0) + length (concat ps))) - blocks_of (Z.of_nat (length (C i0)))) in fb' <= FSSIZE →
  ∃ D' img', for_each ps (iappend i0) s = Ok tt (mkMkfs img' (freeinode s) fb') ∧ mk_ok D' Ty (<[i0 := C i0 ++ concat ps]> C) (mkMkfs img' (freeinode s) fb').
Proof.
  induction ps as [|p ps IH]; intros D C s Hok Hi0 Hmax fb' Hfb; cbn [concat] in *.
  { exists D, (fs_img s). unfold fb'. rewrite Nat.add_0_r, Z.sub_diag, Z.add_0_r. destruct s as [img fi fb]. split; [done|].
    eapply mk_ok_ext; [exact Hok|done|]. intros i _. rewrite app_nil_r. destruct (decide (i = i0)) as [->|Hne]; [by rewrite fn_lookup_insert|by rewrite fn_lookup_insert_ne]. }
  rewrite length_app in *. pose proof (blocks_of_mono (Z.of_nat (length (C i0) + length p)) (Z.of_nat (length (C i0) + (length p + length (concat ps)))) ltac:(lia)).
  assert (Hfb2 := Hfb). unfold fb' in Hfb2. rewrite ?length_app in Hfb2. cbn [for_each]. destruct (iappend_ok D Ty C s i0 p Hok Hi0) as (D1 & img1 & Hrun & Hok1); [lia|lia|]. rewrite (bind_run _ _ _ _ _ Hrun).
  destruct (IH D1 _ _ Hok1 Hi0) as (D' & img' & Hrun' & Hok'); cbn [freeinode freeblock]; rewrite ?fn_lookup_insert, ?length_app, <-?Nat.add_assoc; [lia|lia|].
  rewrite fn_lookup_insert in Hok', Hrun'. cbn [freeinode freeblock] in Hok', Hrun'. rewrite length_app, <-Nat.add_assoc in Hok', Hrun'.
  match type of Hrun' with _ = Ok _ (mkMkfs _ _ ?x) => replace x with fb' in Hok', Hrun' by (unfold fb'; rewrite ?length_app; lia) end.
  exists D', img'. split; [exact Hrun'|]. eapply mk_ok_ext; [exact Hok'|done|]. intros i _. rewrite app_assoc.
  destruct (decide (i = i0)) as [->|Hne]; [by rewrite !fn_lookup_insert|by rewrite !fn_lookup_insert_ne].
Qed.

(** ** The files of the command line *)

Implicit Types given : list (list Z * list (list Z)).
(** The entry of file [k], whose inode is [k + 2], the files, and the
    directory. *)
Definition entry_of (k : nat) (f : list Z * list (list Z)) : list Z := de_bytes (new_dirent (mk_name f.1) (Z.of_nat k + 2)).
Definition dot_entry (name : list Z) : list Z := de_bytes (mkDirent ROOTINO (short_name name)).
Definition dir_bytes given : list Z := dot_entry (str ".") ++ dot_entry (str "..") ++ concat (imap entry_of given).
Definition contents given : Z → list Z := λ i, if i =? ROOTINO then dir_bytes given else nth (Z.to_nat (i - 2)) ((λ f, concat f.2) <$> given) [].
Definition types : Z → Z := λ i, if i =? ROOTINO then T_DIR else T_FILE.
(** The blocks that are needed. *)
Definition file_blocks given : Z := foldr (λ f n, blocks_of (Z.of_nat (length (concat f.2))) + n) 0 given.
Definition data_blocks given : Z := blocks_of (16 * (Z.of_nat (length given) + 2)) + file_blocks given.

Record fits given : Prop := {
  ft_inodes : Z.of_nat (length given) + 2 <= NINODES;
  ft_blocks : data_blocks given <= nblocks;
  ft_sizes : Forall (λ f, Z.of_nat (length (concat f.2)) <= MAXFILE * BSIZE) given;
  ft_names : Forall (λ f, 47 ∉ mk_name f.1) given
}.

Lemma length_dir_entry k f : length (entry_of k f) = 16%nat.
Proof. reflexivity. Qed.
Lemma length_dir_bytes given : length (dir_bytes given) = (16 * (length given + 2))%nat.
Proof.
  unfold dir_bytes. rewrite !length_app. change (length (dot_entry _)) with 16%nat at 1. change (length (dot_entry (str ".."))) with 16%nat.
  enough (H : ∀ n, length (concat (imap (λ k, entry_of (n + k)) given)) = (16 * length given)%nat) by (specialize (H 0%nat); change (λ k, entry_of (0 + k)) with entry_of in H; lia).
  induction given as [|f given IH]; intros n; [done|]. rewrite imap_cons. cbn [concat length]. rewrite length_app, length_dir_entry.
  rewrite (imap_ext _ (λ k, entry_of (S n + k))) by (intros k x _; cbn; by rewrite Nat.add_succ_r). rewrite IH. lia.
Qed.
Lemma dir_bytes_app given f : dir_bytes (given ++ [f]) = dir_bytes given ++ entry_of (length given) f.
Proof. unfold dir_bytes. rewrite imap_app, concat_app. cbn [imap concat]. rewrite Nat.add_0_r, app_nil_r, <-!app_assoc. done. Qed.
Lemma file_blocks_cons f given : file_blocks (f :: given) = blocks_of (Z.of_nat (length (concat f.2))) + file_blocks given.
Proof. done. Qed.
Lemma file_blocks_app given rest : file_blocks (given ++ rest) = file_blocks given + file_blocks rest.
Proof. induction given as [|g given IH]; [done|]. cbn [app]. rewrite !file_blocks_cons, IH. lia. Qed.

(** mkfs has made the files [given]. *)
Definition made given (s : mkfs) : Prop :=
  (∃ D, mk_ok D types (contents given) s) ∧ freeinode s = Z.of_nat (length given) + 2 ∧ freeblock s = nmeta + data_blocks given.

Lemma contents_root given : contents given ROOTINO = dir_bytes given.
Proof. done. Qed.
Lemma contents_file given f i : i ≠ ROOTINO → 1 <= i → i - 2 < Z.of_nat (length given) → contents (given ++ [f]) i = contents given i.
Proof.
  intros Hne Hi Hl. unfold contents. rewrite (proj2 (Z.eqb_neq _ _)) by done. unfold ROOTINO in Hne. rewrite fmap_app, app_nth1; [done|]. rewrite length_fmap. lia.
Qed.
Lemma contents_last given f : contents (given ++ [f]) (Z.of_nat (length given) + 2) = concat f.2.
Proof.
  unfold contents. rewrite (proj2 (Z.eqb_neq _ _)) by (unfold ROOTINO; lia). rewrite fmap_app, app_nth2; rewrite length_fmap; [|lia].
  by replace (Z.to_nat _ - _)%nat with 0%nat by lia.
Qed.
Lemma nmeta_nblocks : nmeta + nblocks = FSSIZE - nlog.
Proof. reflexivity. Qed.
Lemma blocks_of_pos n : 0 <= n → 0 <= blocks_of n.
Proof. intros Hn. exact (blocks_of_mono 0 n ltac:(lia)). Qed.
Lemma file_blocks_pos given : 0 <= file_blocks given.
Proof. induction given as [|f given IH]; [done|]. rewrite file_blocks_cons. pose proof (blocks_of_pos (Z.of_nat (length (concat f.2))) ltac:(lia)). lia. Qed.

Lemma no_slash name : 47 ∉ name → existsb (Z.eqb 47) name = false.
Proof. intros Hn. apply not_true_iff_false. intros (x & Hx & He)%existsb_exists. apply Z.eqb_eq in He. subst x. by apply Hn, list_elem_of_In. Qed.
Lemma data_blocks_app given f :
  data_blocks (given ++ [f]) = blocks_of (16 * (Z.of_nat (length given) + 3)) + file_blocks given + blocks_of (Z.of_nat (length (concat f.2))).
Proof.
  unfold data_blocks. rewrite file_blocks_app, length_app, file_blocks_cons. change (file_blocks []) with 0. cbn [length]. rewrite Nat2Z.inj_add.
  replace (_ + Z.of_nat 1 + 2) with (Z.of_nat (length given) + 3) by lia. lia.
Qed.

(** The entry of a file. *)
Lemma mk_entry_ok D given n ino s : mk_ok D (<[ino := T_FILE]> types) (<[ino := []]> (contents given)) s → 1 < ino < freeinode s →
  Z.of_nat (length given) + 3 <= NINODES → length n = 16%nat →
  let fb' := freeblock s + (blocks_of (16 * (Z.of_nat (length given) + 3)) - blocks_of (16 * (Z.of_nat (length given) + 2))) in fb' <= FSSIZE →
  ∃ D' img', iappend ROOTINO n s = Ok tt (mkMkfs img' (freeinode s) fb') ∧
    mk_ok D' (<[ino := T_FILE]> types) (<[ROOTINO := dir_bytes given ++ n]> (<[ino := []]> (contents given))) (mkMkfs img' (freeinode s) fb').
Proof.
  intros Hok Hino Hin Hl fb' Hfb. pose proof (length_dir_bytes given) as Hld. unfold NINODES in Hin.
  assert (HC1 : (<[ino := []]> (contents given)) ROOTINO = dir_bytes given) by (by rewrite fn_lookup_insert_ne by (unfold ROOTINO; lia)).
  destruct (iappend_ok D _ _ s ROOTINO n Hok) as (D' & img' & Hr & Hok'); rewrite ?HC1, ?Hld, ?Hl; rewrite ?MAXFILE_val; unfold BSIZE, ROOTINO; [lia|lia|..].
  - replace (Z.of_nat (16 * (length given + 2) + 16)) with (16 * (Z.of_nat (length given) + 3)) by lia.
    replace (Z.of_nat (16 * (length given + 2))) with (16 * (Z.of_nat (length given) + 2)) by lia. exact Hfb.
  - rewrite HC1, Hld, Hl in Hr, Hok'. replace (Z.of_nat (16 * (length given + 2) + 16)) with (16 * (Z.of_nat (length given) + 3)) in Hr, Hok' by lia.
    replace (Z.of_nat (16 * (length given + 2))) with (16 * (Z.of_nat (length given) + 2)) in Hr, Hok' by lia. by exists D', img'.
Qed.

Lemma mk_file_ok given f s : made given s → fits (given ++ [f]) → ∃ s', mk_file ROOTINO (f.1, Some f.2) s = Ok tt s' ∧ made (given ++ [f]) s'.
Proof.
  intros ((D & Hok) & Hfi & Hfb) [Hin Hbl Hsz Hnm]. apply Forall_app in Hsz as [_ Hsz]. apply Forall_app in Hnm as [_ Hnm]. rewrite Forall_singleton in Hsz, Hnm.
  rewrite length_app in Hin. cbn [length] in Hin. rewrite data_blocks_app in Hbl. pose proof nmeta_nblocks as Hnb. unfold nlog, LOGSIZE, MAXOPBLOCKS in Hnb.
  unfold data_blocks in Hfb. pose proof (blocks_of_pos (Z.of_nat (length (concat f.2))) ltac:(lia)). set (ino := Z.of_nat (length given) + 2) in Hfi.
  assert (Hino : ino = Z.of_nat (length given) + 2) by reflexivity. clearbody ino. unfold mk_file. cbn [fst snd]. rewrite no_slash by done.
  destruct (mk_ialloc_ok D types (contents given) s T_FILE Hok ltac:(lia)) as (D1 & img1 & Hr1 & Hok1). rewrite (bind_run _ _ _ _ _ Hr1). rewrite Hfi in *.
  replace (de_bytes (mkDirent (xshort ino) _)) with (entry_of (length given) f) by (by rewrite xshort_u16, Hino).
  destruct (mk_entry_ok D1 given (entry_of (length given) f) ino _ Hok1) as (D2 & img2 & Hr2 & Hok2); cbn [freeinode freeblock]; [lia|lia|done|lia|].
  cbn [freeinode freeblock] in Hr2, Hok2. rewrite (bind_run _ _ _ _ _ Hr2).
  assert (HC2 : (<[ROOTINO := dir_bytes given ++ entry_of (length given) f]> (<[ino := []]> (contents given))) ino = []).
  { rewrite fn_lookup_insert_ne by (unfold ROOTINO; lia). by rewrite fn_lookup_insert. }
  destruct (iappends_ok _ ino f.2 _ _ _ Hok2) as (D3 & img3 & Hr3 & Hok3); cbn [freeinode freeblock]; rewrite ?HC2; cbn [length Nat.add]; [lia|done|change (blocks_of (Z.of_nat 0)) with 0; lia|].
  rewrite HC2 in Hr3, Hok3. cbn [freeinode freeblock length Nat.add app] in Hr3, Hok3. change (blocks_of (Z.of_nat 0)) with 0 in Hr3, Hok3.
  eexists. split; [exact Hr3|]. split; [exists D3|cbn [freeinode freeblock]; rewrite length_app, data_blocks_app; cbn [length]; lia].
  eapply mk_ok_ext; [exact Hok3|..]; cbn [freeinode]; intros i Hi.
  - destruct (decide (i = ino)) as [->|Hne]; [rewrite fn_lookup_insert|by rewrite fn_lookup_insert_ne]. unfold types. by rewrite (proj2 (Z.eqb_neq _ _)) by (unfold ROOTINO; lia).
  - destruct (decide (i = ino)) as [->|Hne]; [rewrite fn_lookup_insert, Hino; apply contents_last|]. rewrite fn_lookup_insert_ne by done.
    destruct (decide (i = ROOTINO)) as [->|Hr]; [rewrite fn_lookup_insert; apply dir_bytes_app|]. rewrite !fn_lookup_insert_ne by done. apply contents_file; [done|lia..].
Qed.

Lemma fits_prefix given rest : fits (given ++ rest) → fits given.
Proof.
  intros [Hin Hbl Hsz Hnm]. rewrite length_app in Hin. apply Forall_app in Hsz as [Hsz _]. apply Forall_app in Hnm as [Hnm _]. split; [lia| |done|done].
  unfold data_blocks in *. rewrite length_app, file_blocks_app in Hbl. pose proof (file_blocks_pos rest). pose proof (blocks_of_mono (16 * (Z.of_nat (length given) + 2)) (16 * (Z.of_nat (length given + length rest) + 2)) ltac:(lia)). lia.
Qed.
Definition opened given : list (list Z * option (list (list Z))) := (λ f, (f.1, Some f.2)) <$> given.
Lemma mk_files_ok rest : ∀ given s, made given s → fits (given ++ rest) → ∃ s', for_each (opened rest) (mk_file ROOTINO) s = Ok tt s' ∧ made (given ++ rest) s'.
Proof.
  induction rest as [|f rest IH]; intros given s Hm Hf; [exists s; by rewrite app_nil_r|].
  replace (given ++ f :: rest) with ((given ++ [f]) ++ rest) in * by (by rewrite <-app_assoc).
  destruct (mk_file_ok given f s Hm (fits_prefix _ _ Hf)) as (s1 & Hr1 & Hm1). cbn [opened fmap list_fmap for_each]. rewrite (bind_run _ _ _ _ _ Hr1).
  by apply IH.
Qed.

(** The empty image. *)
Lemma zero_loop n : ∀ k fi fb, (k + n <= 1000)%nat →
  for_each (seqZ (Z.of_nat k) (Z.of_nat n)) (λ i, wsect i zero_block) (mkMkfs (replicate k zero_block) fi fb) = Ok tt (mkMkfs (replicate (k + n) zero_block) fi fb).
Proof.
  induction n as [|n IH]; intros k fi fb Hk; [by rewrite Nat.add_0_r|]. rewrite seqZ_cons by lia. cbn [for_each].
  assert (Hr : wsect (Z.of_nat k) zero_block (mkMkfs (replicate k zero_block) fi fb) = Ok tt (mkMkfs (replicate (S k) zero_block) fi fb)).
  { unfold wsect, modify, set_fs_img. rewrite sect_small by (unfold FSSIZE; lia). cbn [fs_img freeinode freeblock]. unfold img_put. rewrite length_replicate, Nat2Z.id, Nat.ltb_irrefl, Nat.sub_diag.
    change (replicate 0 zero_block ++ [zero_block]) with [zero_block]. by rewrite replicate_S_end. }
  rewrite (bind_run _ _ _ _ _ Hr). replace (Z.pred (Z.of_nat (S n))) with (Z.of_nat n) by lia. replace (Z.succ (Z.of_nat k)) with (Z.of_nat (S k)) by lia.
  rewrite IH by lia. by rewrite Nat.add_succ_r.
Qed.
Definition img0 : list block := replicate 1000 zero_block.
Lemma img0_wf : img_wf img0.
Proof. split; [done|]. apply Forall_replicate. done. Qed.
Lemma blk_img0 b : blk img0 b = zero_block.
Proof. unfold blk, img0. rewrite nth_lookup. destruct (_ !! _) eqn:E; [|done]. by apply lookup_replicate in E as [-> _]. Qed.
Lemma mk_ok0 : mk_ok (λ _, replicate 64 0) (λ _, 0) (λ _, []) (mkMkfs (upd img0 1 (bsplice 0 sb_bytes zero_block)) 1 nmeta).
Proof.
  pose proof img0_wf as Hwf. split; cbn [fs_img freeinode freeblock]; try (intros; lia).
  - apply data_ok_meta; [|rewrite nmeta_val; lia|done]. split; [done|rewrite nmeta_val; unfold FSSIZE; lia|done|intros; lia..|]. intros b _. apply blk_img0.
  - unfold NINODES. lia.
  - intros i Hi. pose proof (iblock_meta i ltac:(lia)). rewrite blk_upd_ne by (done || unfold FSSIZE; lia). rewrite blk_img0. pose proof (dip_off_range i).
    unfold bslice, zero_block. rewrite drop_replicate, take_replicate. change (Z.to_nat BSIZE) with 512%nat. f_equal. lia.
  - done.
  - by rewrite blk_upd_eq by (done || unfold FSSIZE; lia).
  - rewrite blk_upd_ne by (done || unfold FSSIZE; lia). apply blk_img0.
Qed.

Lemma mk_root_ok : ∃ s1 s2 s3, mk_ialloc T_DIR (mkMkfs (upd img0 1 (bsplice 0 sb_bytes zero_block)) 1 nmeta) = Ok ROOTINO s1 ∧
  iappend ROOTINO (dot_entry (str ".")) s1 = Ok tt s2 ∧ iappend ROOTINO (dot_entry (str "..")) s2 = Ok tt s3 ∧ made [] s3.
Proof.
  destruct (mk_ialloc_ok _ _ _ _ T_DIR mk_ok0) as (D1 & img1 & Hr1 & Hok1); [done|]. cbn [freeinode freeblock] in *.
  destruct (iappend_ok _ _ _ _ ROOTINO (dot_entry (str ".")) Hok1) as (D2 & img2 & Hr2 & Hok2); cbn [freeinode freeblock]; rewrite ?fn_lookup_insert; [done|done|done|].
  destruct (iappend_ok _ _ _ _ ROOTINO (dot_entry (str "..")) Hok2) as (D3 & img3 & Hr3 & Hok3); cbn [freeinode freeblock]; rewrite ?fn_lookup_insert; [done|done|done|].
  eexists _, _, _. split; [exact Hr1|]. split; [exact Hr2|]. split; [exact Hr3|]. split; [exists D3|by split].
  cbn [freeinode freeblock] in Hok3. eapply mk_ok_ext; [exact Hok3|..]; cbn [freeinode]; intros i Hi; replace i with ROOTINO by (unfold ROOTINO; lia); by rewrite !fn_lookup_insert.
Qed.

(** The bitmap of [used] blocks. *)
Definition bitmap (used : Z) : block := foldl (λ buf i, bit_set i buf) zero_block (seqZ 0 used).
Lemma length_bitmap used : length (bitmap used) = 512%nat.
Proof.
  unfold bitmap. change 512%nat with (length zero_block). generalize zero_block. induction (seqZ 0 used) as [|i l IH]; intros d; [done|]. cbn [foldl]. by rewrite IH, length_bit_set.
Qed.
Lemma bit_of_bitmap used b : 0 <= used <= BPB → 0 <= b < BPB → bit_of (bitmap used) b = (b <? used).
Proof.
  intros Hu Hb. unfold bitmap. assert (Hz : bit_of zero_block b = false) by (unfold bit_of; by rewrite nth_zero_block).
  assert (Hl : length zero_block = Z.to_nat BSIZE) by done.
  enough (H : ∀ l d, length d = Z.to_nat BSIZE → (∀ x, x ∈ l → 0 <= x < BPB) → bit_of (foldl (λ buf i, bit_set i buf) d l) b = bool_decide (b ∈ l) || bit_of d b).
  { rewrite H, Hz, orb_false_r; [|done|intros x Hx%elem_of_seqZ; lia]. destruct (Z.ltb_spec b used); [apply bool_decide_eq_true|apply bool_decide_eq_false]; rewrite elem_of_seqZ; lia. }
  induction l as [|i l IH]; intros d Hd Hr; [done|]. cbn [foldl]. rewrite IH by (rewrite ?length_bit_set; set_solver).
  rewrite bit_of_set by (done || apply Hr; left). rewrite orb_assoc. f_equal.
  destruct (Z.eqb_spec b i) as [->|Hne]; [rewrite orb_true_r; symmetry; apply bool_decide_eq_true; left|]. rewrite orb_false_r. apply bool_decide_ext. set_solver.
Qed.

(** ** The finished image *)
Record image_of given (D : Z → list Z) (img : list block) : Prop := {
  im_data : data_ok D (filled (contents given)) (contents given) (Z.of_nat (length given) + 2) (nmeta + data_blocks given) img;
  im_ino i : 1 <= i < NINODES → bslice (dip_off i) 64 (blk img (IBLOCK i)) = D i;
  im_free i : Z.of_nat (length given) + 2 <= i → D i = replicate 64 0;
  im_size i : 1 < i < Z.of_nat (length given) + 2 → get32 16 (D i) = Z.of_nat (length (contents given i)) ∧ Z.of_nat (length (contents given i)) <= MAXFILE * BSIZE;
  im_root : get32 16 (D ROOTINO) = (16 * (Z.of_nat (length given) + 2) / BSIZE + 1) * BSIZE;
  im_fields i : 1 <= i < Z.of_nat (length given) + 2 → take 16 (D i) = take 16 (fresh (types i));
  im_sb : blk img 1 = bsplice 0 sb_bytes zero_block;
  im_map : blk img (nmeta - 1) = bitmap (nmeta + data_blocks given)
}.

Lemma mk_end_ok given s : made given s → fits given → let din := bslice (dip_off ROOTINO) 64 (blk (fs_img s) (IBLOCK ROOTINO)) in
  let off := u32 ((xint (get32 16 din) / BSIZE + 1) * BSIZE) in
  ∃ D img s2, winode ROOTINO (put32 16 (xint off) din) s = Ok tt s2 ∧ freeblock s2 = freeblock s ∧ mk_balloc (freeblock s) s2 = Ok tt (mkMkfs img (freeinode s) (freeblock s)) ∧ image_of given D img.
Proof.
  intros ((D & Hok) & Hfi & Hfb) [Hin Hbl _ _] din off. pose proof (m_data _ _ _ _ Hok) as Ho. pose proof (o_img _ _ _ _ _ _ Ho) as Hwf. unfold NINODES in Hin.
  destruct (m_size _ _ _ _ Hok ROOTINO) as [Hsz _]; [unfold ROOTINO; lia|]. rewrite contents_root, length_dir_bytes in Hsz.
  assert (Hdin : din = D ROOTINO) by (apply (m_ino _ _ _ _ Hok); by unfold ROOTINO, NINODES). pose proof (o_din _ _ _ _ _ _ Ho ROOTINO) as Hlen. rewrite <-Hdin in Hlen, Hsz. clearbody din.
  assert (Hdb : 0 <= 16 * (Z.of_nat (length given) + 2) / BSIZE <= 6) by (split; [apply Z.div_pos; unfold BSIZE; lia|apply Z.lt_succ_r, Z.div_lt_upper_bound; unfold BSIZE; lia]).
  assert (Hoff : xint off = (16 * (Z.of_nat (length given) + 2) / BSIZE + 1) * BSIZE).
  { unfold off. rewrite Hsz, !xint_u32. replace (Z.of_nat (16 * (length given + 2))) with (16 * (Z.of_nat (length given) + 2)) by lia. rewrite (u32_small (16 * _)) by lia.
    rewrite u32_u32. apply u32_small. unfold BSIZE in *. lia. }
  rewrite Hoff. set (din' := put32 16 _ din). assert (Hl' : length din' = 64%nat) by (unfold din'; rewrite length_put32; lia).
  pose proof (put_inode_wf (fs_img s) ROOTINO din' Hwf ltac:(done) Hl') as Hwf2. unfold nblocks, nlog, LOGSIZE, MAXOPBLOCKS in Hbl. rewrite nmeta_val in *.
  exists (<[ROOTINO := din']> D), (upd (put_inode (fs_img s) ROOTINO din') (ninodeblocks + 2) (bitmap (freeblock s))), (set_fs_img (put_inode (fs_img s) ROOTINO din') s).
  split; [by apply winode_run|]. split; [done|]. split.
  { unfold mk_balloc. rewrite (proj2 (Z.ltb_lt _ _)) by (unfold FSSIZE, BSIZE in *; lia). cbn [negb]. fold (bitmap (freeblock s)). by rewrite wsect_run. }
  assert (HD : ∀ i, i ≠ ROOTINO → (<[ROOTINO := din']> D) i = D i) by (intros i Hne; by rewrite fn_lookup_insert_ne).
  pose proof (length_bitmap (freeblock s)) as Hlb. change (ninodeblocks + 2) with 28. split; rewrite ?nmeta_val.
  - rewrite <-Hfi, <-Hfb. eapply data_ok_addrs; [apply data_ok_meta; [apply data_ok_meta; [exact Ho|change (IBLOCK ROOTINO) with 2; rewrite nmeta_val; lia|]|rewrite nmeta_val; lia|done]|..].
    + by apply length_put_dinode.
    + intros i. destruct (decide (i = ROOTINO)) as [->|Hne]; [by rewrite fn_lookup_insert|rewrite HD by done; apply Ho].
    + intros i n _ Hn. destruct (decide (i = ROOTINO)) as [->|Hne]; [rewrite fn_lookup_insert, <-Hdin; by apply daddr_put_size|by rewrite HD].
  - intros i Hi. pose proof (iblock_meta i ltac:(lia)) as Hb. rewrite nmeta_val in Hb. rewrite blk_upd_ne by (done || lia). rewrite put_inode_read by (done || lia).
    destruct (Z.eqb_spec i ROOTINO) as [->|Hne]; [by rewrite fn_lookup_insert|]. rewrite HD by done. by apply (m_ino _ _ _ _ Hok).
  - intros i Hi. rewrite HD by (unfold ROOTINO; lia). apply (m_free _ _ _ _ Hok). lia.
  - intros i Hi. rewrite HD by (unfold ROOTINO; lia). apply (m_size _ _ _ _ Hok). lia.
  - rewrite fn_lookup_insert. unfold din'. rewrite get_put32 by lia. apply u32_small. unfold BSIZE in *. lia.
  - intros i Hi. destruct (decide (i = ROOTINO)) as [->|Hne]; [|rewrite HD by done; apply (m_fields _ _ _ _ Hok); lia].
    rewrite fn_lookup_insert. unfold din'. rewrite take_put_size by (done || lia). rewrite Hdin. apply (m_fields _ _ _ _ Hok). lia.
  - rewrite blk_upd_ne by done. rewrite put_inode_other by (done || lia). apply (m_sb _ _ _ _ Hok).
  - rewrite blk_upd_eq by done. by rewrite Hfb.
Qed.

Lemma mk_main_ok given : fits given → ∃ D s, mk_main (Some true) (opened given) mkfs0 = Ok tt s ∧ image_of given D (fs_img s).
Proof.
  intros Hf. destruct mk_root_ok as (s1 & s2 & s3 & Hr1 & Hr2 & Hr3 & Hm3). destruct (mk_files_ok given [] s3 Hm3 Hf) as (s4 & Hr4 & Hm4).
  destruct (mk_end_ok given s4 Hm4 Hf) as (D & img & s5 & Hr5 & Hfb & Hr6 & Him). exists D, (mkMkfs img (freeinode s4) (freeblock s4)). split; [|exact Him].
  unfold mk_main. rewrite !bool_decide_eq_false_2 by done. erewrite bind_run by reflexivity. cbn [fs_img freeinode mkfs0].
  rewrite (bind_run _ _ _ _ _ (zero_loop 1000 0 1 nmeta ltac:(done))). change (replicate (0 + 1000) zero_block) with img0.
  rewrite (bind_run _ _ _ _ _ (wsect_run 1 _ (mkMkfs img0 1 nmeta) ltac:(done) img0_wf)). cbn [set_fs_img fs_img freeinode freeblock].
  rewrite (bind_run _ _ _ _ _ Hr1). change (negb (ROOTINO =? ROOTINO)) with false. cbv iota. change (xshort ROOTINO) with ROOTINO. fold (dot_entry (str ".")) (dot_entry (str "..")).
  rewrite (bind_run _ _ _ _ _ Hr2), (bind_run _ _ _ _ _ Hr3), (bind_run _ _ _ _ _ Hr4).
  destruct Hm4 as ((D4 & Hok4) & _). pose proof (o_img _ _ _ _ _ _ (m_data _ _ _ _ Hok4)) as Hwf.
  rewrite (bind_run _ _ _ _ _ (rinode_run ROOTINO s4 ltac:(done) Hwf)). rewrite (bind_run _ _ _ _ _ Hr5).
  erewrite bind_run by reflexivity. rewrite Hfb. exact Hr6.
Qed.

(** ** What the kernel sees *)

(** The inode that [ilock] loads. *)
Definition blank (i : Z) : inode := mkInode ROOTDEV i 0 0 0 0 0 0 0 0 0 0 [].
Definition ino (v : Z → block) (i : Z) : inode := dinode_load (v (IBLOCK i)) (blank i).

Lemma bslice_bslice {A} o m j n (l : list A) : (j + n <= m)%nat → bslice (o + j) n l = bslice j n (bslice o m l).
Proof. intros Hj. apply list_eq. intros i. rewrite !lookup_bslice. case_decide; [|done]. rewrite decide_True by lia. f_equal. lia. Qed.

Section view.
Context given (D : Z → list Z) (img : list block) (Him : image_of given D img) (Hf : fits given).
Local Abbreviation v := (blk img).
Local Abbreviation fi := (Z.of_nat (length given) + 2).
Local Abbreviation start := (FSSIZE - nlog).

Lemma view_data : data_ok D (filled (contents given)) (contents given) fi (nmeta + data_blocks given) img.
Proof. apply Him. Qed.
Lemma view_free_block : nmeta <= nmeta + data_blocks given <= start.
Proof. pose proof (o_fb _ _ _ _ _ _ view_data). pose proof (ft_blocks _ Hf). pose proof nmeta_nblocks. lia. Qed.

Section inode.
Context (i : Z) (Hi : 1 <= i < NINODES).

Lemma ino_get16 k : (k + 2 <= 64)%nat → get16 (dip_off i + k) (v (IBLOCK i)) = get16 k (D i).
Proof. intros Hk. unfold get16. by rewrite (bslice_bslice _ 64), (im_ino _ _ _ Him). Qed.
Lemma ino_get32 k : (k + 4 <= 64)%nat → get32 (dip_off i + k) (v (IBLOCK i)) = get32 k (D i).
Proof. intros Hk. unfold get32. by rewrite (bslice_bslice _ 64), (im_ino _ _ _ Him). Qed.
Lemma ino_size : i_size (ino v i) = get32 16 (D i).
Proof. exact (ino_get32 16 ltac:(lia)). Qed.
Lemma ino_addr n : 0 <= n <= NDIRECT → addr_at (ino v i) n = daddr (D i) n.
Proof.
  intros Hn. unfold addr_at, ino, dinode_load. cbn [i_addrs i_inum blank]. unfold get_addrs. unfold NDIRECT in Hn.
  rewrite nth_lookup, list_lookup_fmap, lookup_seq_lt by lia. cbn [fmap option_fmap option_map default from_option]. rewrite Nat.add_0_l, <-Nat.add_assoc, ino_get32 by lia.
  unfold daddr, addr_off, id. f_equal. lia.
Qed.
Lemma ino_addr_of bn : 0 <= bn < MAXFILE → addr_of v (ino v i) bn = dloc img (D i) (Some bn).
Proof.
  intros Hbn. unfold addr_of, dloc, ind. rewrite (ino_addr NDIRECT) by (unfold NDIRECT; lia). destruct (Z.ltb_spec bn NDIRECT); [|done]. apply ino_addr. lia.
Qed.
Lemma ino_ind : ind (ino v i) = dloc img (D i) None.
Proof. apply ino_addr. unfold NDIRECT. lia. Qed.
End inode.

(** The layout. *)
Lemma view_sb : sbv v = mkSb FSSIZE nblocks NINODES nlog.
Proof. unfold sbv. rewrite (im_sb _ _ _ Him). reflexivity. Qed.
Lemma view_bitmap : bitmap_block v = nmeta - 1.
Proof. unfold bitmap_block. rewrite view_sb. reflexivity. Qed.
Lemma view_used b : 0 <= b < FSSIZE → used v b = (b <? nmeta + data_blocks given).
Proof.
  intros Hb. unfold used. rewrite view_bitmap, (im_map _ _ _ Him). pose proof view_free_block as Hr. rewrite nmeta_val in *. unfold nlog, LOGSIZE, MAXOPBLOCKS, FSSIZE in *.
  apply bit_of_bitmap; unfold BPB, BSIZE; lia.
Qed.
Lemma view_geo : fs_geo start v.
Proof.
  pose proof view_free_block as Hr. rewrite nmeta_val in Hr. split; rewrite ?view_sb, ?view_bitmap; cbn [sb_size sb_ninodes]; rewrite ?nmeta_val; unfold nlog, LOGSIZE, MAXOPBLOCKS, FSSIZE, NINODES; try lia.
  intros b Hb. rewrite view_used by (unfold FSSIZE; lia). rewrite nmeta_val. apply Z.ltb_lt. lia.
Qed.

Section file.
Context (i : Z) (Hi : 1 <= i < fi).
Lemma file_inum : 1 <= i < NINODES.
Proof. pose proof (ft_inodes _ Hf). lia. Qed.
Lemma file_block key : key_ok key → dloc img (D i) key ≠ 0 → data_block start v (dloc img (D i) key).
Proof.
  intros Hk Hne. pose proof view_data as Ho. pose proof (data_ok_range _ _ _ _ _ _ i key Ho Hi Hk (data_ok_there _ _ _ _ _ _ i key Ho Hi Hk Hne)) as Hr.
  pose proof view_free_block as Hfb. split; [rewrite view_bitmap; lia|]. rewrite view_used by (unfold FSSIZE, nlog, LOGSIZE, MAXOPBLOCKS in *; rewrite nmeta_val in *; lia). apply Z.ltb_lt. lia.
Qed.
Lemma file_there key : key_ok key → dloc img (D i) key ≠ 0 ↔ needs (Z.of_nat (length (contents given i))) key = true.
Proof.
  intros Hk. pose proof (o_loc _ _ _ _ _ _ view_data i key Hi Hk) as Hl. unfold filled in Hl. destruct (needs _ key); [|by rewrite Hl]. rewrite nmeta_val in Hl. split; [done|lia].
Qed.
Lemma view_file_wf : file_wf start v (ino v i).
Proof.
  pose proof file_inum as Hn. pose proof view_data as Ho. split; [done|done|..].
  - rewrite ino_ind by done. by apply file_block.
  - intros bn Hbn. rewrite ino_addr_of, ino_ind by done. intros Hne. split; [by apply file_block|]. intros He.
    pose proof (data_ok_there _ _ _ _ _ _ i (Some bn) Ho Hi Hbn Hne) as H1. rewrite He in Hne. pose proof (data_ok_there _ _ _ _ _ _ i None Ho Hi I Hne) as H2.
    by destruct (o_inj _ _ _ _ _ _ Ho i (Some bn) i None Hi Hi Hbn I H1 H2 He) as [_ ?].
  - intros bn bn' Hbn Hbn'. rewrite !ino_addr_of by done. intros Hne He.
    pose proof (data_ok_there _ _ _ _ _ _ i (Some bn) Ho Hi Hbn Hne) as H1. rewrite He in Hne. pose proof (data_ok_there _ _ _ _ _ _ i (Some bn') Ho Hi Hbn' Hne) as H2.
    by destruct (o_inj _ _ _ _ _ _ Ho i (Some bn) i (Some bn') Hi Hi Hbn Hbn' H1 H2 He) as [_ [= ?]].
Qed.
(** The bytes, and zeros to the end of the last block. *)
Lemma view_fbyte o : 0 <= o → o / BSIZE * BSIZE < Z.of_nat (length (contents given i)) → o < MAXFILE * BSIZE → fbyte v (ino v i) o = nth (Z.to_nat o) (contents given i) 0.
Proof.
  intros Ho Hlt Hmax. assert (Hbn : 0 <= o / BSIZE < MAXFILE) by (split; [apply Z.div_pos; unfold BSIZE; lia|apply Z.div_lt_upper_bound; [done|]; lia]).
  unfold fbyte. rewrite ino_addr_of by (done || apply file_inum). pose proof (Z.mod_pos_bound o BSIZE eq_refl) as Hm.
  rewrite (o_cont _ _ _ _ _ _ view_data i (o / BSIZE) (o mod BSIZE) Hi Hbn Hm); [|unfold filled, needs; by apply Z.ltb_lt].
  f_equal. f_equal. pose proof (Z.div_mod o BSIZE ltac:(done)). lia.
Qed.
End file.

(** ** Files *)

Lemma view_fields i : 1 <= i < fi → i_type (ino v i) = types i ∧ i_nlink (ino v i) = 1.
Proof.
  intros Hi. assert (Hn : 1 <= i < NINODES) by (by apply file_inum). pose proof (im_fields _ _ _ Him i Hi) as Ht.
  assert (Hg : ∀ k, (k + 2 <= 16)%nat → get16 k (D i) = get16 k (fresh (types i))).
  { intros k Hk. pose proof (bslice_bslice 0 16 k 2 (D i) Hk) as E1. pose proof (bslice_bslice 0 16 k 2 (fresh (types i)) Hk) as E2.
    change (bslice 0 16) with (@take Z 16) in E1, E2. unfold get16. cbn [Nat.add] in E1, E2. by rewrite E1, E2, Ht. }
  assert (Hty : types i = T_DIR ∨ types i = T_FILE) by (unfold types; destruct (i =? ROOTINO); auto).
  unfold ino, dinode_load. cbn [i_type i_nlink i_inum blank]. rewrite <-(Nat.add_0_r (dip_off i)) at 1. rewrite !ino_get16, !Hg by (done || lia).
  destruct Hty as [-> | ->]; split; reflexivity.
Qed.
(** Bytes of the file within its last block. *)
Lemma view_fbytes i o n : 1 <= i < fi → 0 <= o → 0 <= n → o + n <= MAXFILE * BSIZE → (0 < n → (o + n - 1) / BSIZE * BSIZE < Z.of_nat (length (contents given i))) →
  fbytes v (ino v i) o n = (λ x, nth (Z.to_nat x) (contents given i) 0) <$> seqZ o n.
Proof.
  intros Hi Ho Hn Hmax Hlt. unfold fbytes. apply list_fmap_ext. intros k x Hx%lookup_seqZ. apply view_fbyte; [done|lia| |lia].
  pose proof (Z.div_le_mono x (o + n - 1) BSIZE ltac:(done) ltac:(lia)). specialize (Hlt ltac:(lia)). unfold BSIZE in *. lia.
Qed.
Lemma view_covered i n : 1 <= i < fi → 0 <= n <= MAXFILE * BSIZE → (0 < n → (n - 1) / BSIZE * BSIZE < Z.of_nat (length (contents given i))) → covered v (ino v i) n.
Proof.
  intros Hi Hn Hlt. split; [lia|]. intros bn Hbn Hlo. specialize (Hlt ltac:(unfold BSIZE in *; lia)).
  assert (bn <= (n - 1) / BSIZE) by (apply Z.div_le_lower_bound; unfold BSIZE in *; lia).
  assert (Hk : 0 <= bn < MAXFILE) by (rewrite MAXFILE_val in *; unfold BSIZE in *; lia).
  rewrite ino_addr_of by (done || by apply file_inum). apply file_there; [done|done|]. cbn [needs]. apply Z.ltb_lt. unfold BSIZE in *. lia.
Qed.
Lemma last_block n : 0 < n → (n - 1) / BSIZE * BSIZE < n.
Proof. intros Hn. pose proof (Z.mul_div_le (n - 1) BSIZE eq_refl). lia. Qed.
Lemma seq_nth (l : list Z) : (λ x, nth (Z.to_nat x) l 0) <$> seqZ 0 (Z.of_nat (length l)) = l.
Proof.
  apply list_eq. intros j. rewrite list_lookup_fmap. destruct (decide (j < length l)%nat) as [Hj|Hj].
  - rewrite lookup_seqZ_lt by lia. cbn. rewrite nth_lookup. replace (Z.to_nat (0 + Z.of_nat j)) with j by lia. destruct (lookup_lt_is_Some_2 l j Hj) as [x Hx]. by rewrite Hx.
  - rewrite lookup_seqZ_ge by lia. symmetry. apply lookup_ge_None. lia.
Qed.
Lemma view_file i : 1 < i < fi → let ip := ino v i in
  i_size ip = Z.of_nat (length (contents given i)) ∧ covered v ip (i_size ip) ∧ fbytes v ip 0 (i_size ip) = contents given i.
Proof.
  intros Hi ip. destruct (im_size _ _ _ Him i Hi) as [Hs Hm]. assert (Hsz : i_size ip = Z.of_nat (length (contents given i))).
  { unfold ip. by rewrite ino_size by (apply file_inum; lia). }
  rewrite Hsz. split; [done|]. split; [apply view_covered; [lia|lia|apply last_block]|].
  unfold ip. rewrite view_fbytes; [apply seq_nth|lia..|]. apply last_block.
Qed.

(** No block is in two files. *)
Lemma view_mine i x : 1 <= i < fi → mine v (ino v i) x → ∃ key, key_ok key ∧ x = dloc img (D i) key ∧ filled (contents given) i key = true.
Proof.
  intros Hi (Hx & Hm). pose proof (file_inum i Hi) as Hn. assert (H : ∃ key, key_ok key ∧ x = dloc img (D i) key).
  { destruct Hm as [->|(bn & Hbn & <-)]; [exists None; by rewrite ino_ind|exists (Some bn); by rewrite ino_addr_of]. }
  destruct H as (key & Hk & ->). exists key. split; [done|]. split; [done|]. by apply (data_ok_there _ _ _ _ _ _ i key view_data).
Qed.
Lemma view_disjoint i j x : 1 <= i < fi → 1 <= j < fi → mine v (ino v i) x → mine v (ino v j) x → i = j.
Proof.
  intros Hi Hj (key & Hk & Hx & Ha)%view_mine (key' & Hk' & Hx' & Ha')%view_mine; [|done..].
  by destruct (o_inj _ _ _ _ _ _ view_data i key j key' Hi Hj Hk Hk' Ha Ha') as [? _]; [congruence|].
Qed.
End view.

(** ** The root directory *)

Lemma bslice_concat (L : list (list Z)) k e : Forall (λ e, length e = 16%nat) L → L !! k = Some e → bslice (16 * k) 16 (concat L) = e.
Proof.
  intros HL. revert k. induction HL as [|x L Hx HL IH]; intros k Hk; [done|]. cbn [concat]. destruct k as [|k].
  - injection Hk as ->. unfold bslice. rewrite Nat.mul_0_r, drop_0. by rewrite take_app_length'.
  - rewrite <-(IH k Hk). unfold bslice. f_equal. replace (16 * S k)%nat with (16 + 16 * k)%nat by lia. by rewrite <-drop_drop, drop_app_length'.
Qed.
(** The entries: the names with their inodes. *)
Definition dir_names given : list (list Z) := str "." :: str ".." :: ((λ f, mk_name f.1) <$> given).
Definition entry_inum (m : nat) : Z := Z.max ROOTINO (Z.of_nat m).
Lemma dir_bytes_entries given : dir_bytes given = concat (imap (λ m n, de_bytes (new_dirent n (entry_inum m))) (dir_names given)).
Proof.
  unfold dir_bytes, dir_names. rewrite !imap_cons. cbn [concat]. f_equal. f_equal. rewrite imap_fmap. f_equal. apply imap_ext. intros k f _. unfold entry_of, compose.
  do 3 f_equal. unfold entry_inum, ROOTINO. lia.
Qed.
Lemma dir_entry given m n : dir_names given !! m = Some n → bslice (16 * m) 16 (dir_bytes given) = de_bytes (new_dirent n (entry_inum m)).
Proof.
  intros Hm. rewrite dir_bytes_entries. apply bslice_concat; [|rewrite list_lookup_imap, Hm; done]. apply Forall_forall. intros e He. by apply elem_of_lookup_imap in He as (j & x & -> & _).
Qed.

Lemma dir_find_at v ip name n : ∀ k off, (k < n)%nat → (∀ m, (m < k)%nat → de_match name (entry_at v ip (off + DIRENT_SIZE * Z.of_nat m)) = false) →
  de_match name (entry_at v ip (off + DIRENT_SIZE * Z.of_nat k)) = true →
  dir_find v ip name off n = Some (off + DIRENT_SIZE * Z.of_nat k, de_inum (entry_at v ip (off + DIRENT_SIZE * Z.of_nat k))).
Proof.
  induction n as [|n IH]; intros k off Hk Hbefore Hat; [lia|]. cbn [dir_find]. destruct k as [|k].
  - rewrite Z.mul_0_r, Z.add_0_r in *. by rewrite Hat.
  - pose proof (Hbefore 0%nat ltac:(lia)) as H0. rewrite Z.mul_0_r, Z.add_0_r in H0. rewrite H0.
    rewrite (IH k (off + DIRENT_SIZE)); [..|lia| |]; replace (off + DIRENT_SIZE + DIRENT_SIZE * Z.of_nat k) with (off + DIRENT_SIZE * Z.of_nat (S k)) by lia; [done| |done].
    intros m Hm. replace (off + DIRENT_SIZE + DIRENT_SIZE * Z.of_nat m) with (off + DIRENT_SIZE * Z.of_nat (S m)) by lia. apply Hbefore. lia.
Qed.

Section root.
Context given (D : Z → list Z) (img : list block) (Him : image_of given D img) (Hf : fits given) (Hfull : (Z.of_nat (length given) + 2) mod 32 ≠ 0).
Local Abbreviation v := (blk img).
Local Abbreviation root := (ino v ROOTINO).
Local Abbreviation n := (Z.of_nat (length given) + 2).

Lemma root_facts : 1 <= ROOTINO < n ∧ n <= 200 ∧ Z.of_nat (length (contents given ROOTINO)) = 16 * n ∧ 16 * n / BSIZE * BSIZE < 16 * n.
Proof.
  pose proof (ft_inodes _ Hf) as Hn. unfold NINODES in Hn. split; [unfold ROOTINO; lia|]. split; [done|]. rewrite contents_root, length_dir_bytes. split; [lia|].
  unfold BSIZE. pose proof (Z.div_mod (16 * n) 512 ltac:(lia)) as Hd. pose proof (Z.mod_pos_bound (16 * n) 512 ltac:(lia)). change 512 with (16 * 32) in Hd at 3. rewrite Z.mul_mod_distr_l in Hd by lia.
  pose proof (Z.mod_pos_bound n 32 ltac:(lia)). lia.
Qed.
Lemma root_size : i_size root = (16 * n / BSIZE + 1) * BSIZE.
Proof. rewrite (ino_size given D img Him) by done. apply Him. Qed.
Lemma root_bytes o : Forall bytes (dir_names given) → 0 <= o < i_size root → is_byte (fbyte v root o).
Proof.
  intros Hb Ho. destruct root_facts as (Hi & Hn & Hl & Hlt). rewrite root_size in Ho.
  assert (Ho' : o / BSIZE < 16 * n / BSIZE + 1) by (apply Z.div_lt_upper_bound; [done|lia]).
  rewrite (view_fbyte given D img Him Hf ROOTINO); [|done|lia|rewrite Hl; unfold BSIZE in *; lia|].
  - rewrite contents_root, dir_bytes_entries. apply (is_byte_cells _ o), Forall_concat, Forall_forall.
    intros e (j & x & -> & Hx)%elem_of_lookup_imap. apply bytes_new_dirent. by apply (Forall_lookup_1 _ _ _ _ Hb Hx).
  - rewrite MAXFILE_val. unfold BSIZE in *. lia.
Qed.
Lemma root_dir : Forall bytes (dir_names given) → dir_wf v root ∧ (length (dir_names given) <= dir_entries root)%nat.
Proof.
  intros Hb8.
  destruct root_facts as (Hi & Hn & Hl & Hb). pose proof root_size as Hs. pose proof (Z.div_pos (16 * n) BSIZE ltac:(lia) eq_refl). pose proof (Z.mul_succ_div_gt (16 * n) BSIZE eq_refl).
  assert (Hde : dir_entries root = Z.to_nat ((16 * n / BSIZE + 1) * 32)).
  { unfold dir_entries. rewrite Hs. f_equal. unfold BSIZE, DIRENT_SIZE. replace ((16 * n / 512 + 1) * 512) with ((16 * n / 512 + 1) * 32 * 16) by lia. by rewrite Z.div_mul. }
  split; [split|].
  - by destruct (view_fields given D img Him Hf ROOTINO Hi) as [-> _].
  - rewrite Hs, Hde. unfold BSIZE, DIRENT_SIZE in *. lia.
  - apply (view_covered given D img Him Hf ROOTINO); [done| |]; rewrite Hs; [rewrite MAXFILE_val; unfold BSIZE in *; lia|]. intros _. rewrite Hl.
    replace ((16 * n / BSIZE + 1) * BSIZE - 1) with (BSIZE - 1 + 16 * n / BSIZE * BSIZE) by lia. rewrite Z.div_add by done. change ((BSIZE - 1) / BSIZE) with 0. done.
  - intros o. by apply root_bytes.
  - rewrite Hde. unfold dir_names. cbn [length]. rewrite length_fmap. unfold BSIZE in *. lia.
Qed.
Lemma root_entry m name : dir_names given !! m = Some name → entry_at v root (DIRENT_SIZE * Z.of_nat m) = new_dirent name (entry_inum m).
Proof.
  intros Hm. pose proof (lookup_lt_Some _ _ _ Hm) as Hlt. unfold dir_names in Hlt. cbn [length] in Hlt. rewrite length_fmap in Hlt. destruct root_facts as (Hi & Hn & Hl & Hb).
  assert (Hmn : Z.of_nat m < n) by lia. unfold entry_at. rewrite (view_fbytes given D img Him Hf ROOTINO) by (try done; unfold DIRENT_SIZE, BSIZE in *; rewrite ?MAXFILE_val; lia || (intros _; rewrite Hl;
    pose proof (Z.mul_div_le (16 * Z.of_nat m + 16 - 1) 512 ltac:(lia)); lia)).
  assert (He : (λ x, nth (Z.to_nat x) (contents given ROOTINO) 0) <$> seqZ (DIRENT_SIZE * Z.of_nat m) DIRENT_SIZE = bslice (16 * m) 16 (dir_bytes given)).
  { apply list_eq. intros j. rewrite list_lookup_fmap, lookup_bslice. pose proof (length_dir_bytes given). unfold DIRENT_SIZE. case_decide.
    - rewrite lookup_seqZ_lt by lia. cbn [fmap option_fmap option_map]. rewrite nth_lookup, contents_root. replace (Z.to_nat (16 * Z.of_nat m + Z.of_nat j)) with (16 * m + j)%nat by lia.
      destruct (lookup_lt_is_Some_2 (dir_bytes given) (16 * m + j)) as [x Hx]; [lia|]. by rewrite Hx.
    - by rewrite lookup_seqZ_ge by lia. }
  rewrite He, (dir_entry _ _ _ Hm). apply de_of_bytes_bytes; [|apply length_new_dirent]. unfold new_dirent. cbn [de_inum]. unfold entry_inum, ROOTINO. rewrite (u16_small (Z.max _ _)) by lia. apply u16_small. lia.
Qed.
End root.

(** The kernel finds file [k] in the root directory. *)
Lemma root_finds given D img k f : image_of given D img → fits given → (Z.of_nat (length given) + 2) mod 32 ≠ 0 →
  Forall bytes (dir_names given) → NoDup ((λ n, cstr (cells n) DIRSIZ) <$> dir_names given) → given !! k = Some f →
  let root := ino (blk img) ROOTINO in
  dir_find (blk img) root (mk_name f.1) 0 (dir_entries root) = Some (16 * (Z.of_nat k + 2), Z.of_nat k + 2).
Proof.
  intros Him Hf Hfull Hb Hnd Hk root. assert (Hm : dir_names given !! S (S k) = Some (mk_name f.1)) by (change (dir_names given !! S (S k)) with (((λ f, mk_name f.1) <$> given) !! k); by rewrite list_lookup_fmap, Hk).
  pose proof (root_entry given D img Him Hf Hfull) as He. destruct (root_dir given D img Him Hf Hfull Hb) as [_ Hlen]. pose proof (lookup_lt_Some _ _ _ Hm).
  destruct (root_facts given Hf Hfull) as (_ & Hn & _). pose proof (lookup_lt_Some _ _ _ Hk).
  assert (Hnz : ∀ m, (m <= S (S k))%nat → u16 (entry_inum m) = entry_inum m ∧ entry_inum m ≠ 0) by (intros m Hle; unfold entry_inum, ROOTINO; rewrite u16_small; lia).
  assert (Hmatch : ∀ m n, (m <= S (S k))%nat → dir_names given !! m = Some n →
    de_match (mk_name f.1) (entry_at (blk img) root (DIRENT_SIZE * Z.of_nat m)) = bool_decide (m = S (S k))).
  { intros m n Hle Hmn. unfold root. rewrite (He m n Hmn). destruct (Hnz m Hle) as [Hu Hz]. rewrite de_match_new by congruence.
    apply bool_decide_ext. split; [|intros ->; by rewrite Hm in Hmn; injection Hmn as ->]. intros Hc. symmetry. eapply (NoDup_lookup _ _ _ _ Hnd); rewrite list_lookup_fmap, ?Hm, ?Hmn; cbn; [done|by rewrite Hc]. }
  rewrite (dir_find_at _ _ _ _ (S (S k))); rewrite ?Z.add_0_l.
  - unfold root. rewrite (He _ _ Hm). unfold new_dirent. cbn [de_inum]. rewrite (proj1 (Hnz (S (S k)) ltac:(lia))). unfold entry_inum, ROOTINO, DIRENT_SIZE. f_equal. f_equal; lia.
  - unfold root in *. lia.
  - intros m Hlt. rewrite Z.add_0_l. destruct (lookup_lt_is_Some_2 (dir_names given) m) as [x Hx]; [lia|]. rewrite (Hmatch m x) by (done || lia). apply bool_decide_eq_false_2. lia.
  - rewrite (Hmatch (S (S k)) _ ltac:(lia) Hm). by apply bool_decide_eq_true_2.
Qed.

(** C30: mkfs makes a file system.  For files that fit, with names that differ
    in their first [DIRSIZ] bytes, mkfs ends; on its image the assumptions of
    the theorems about the kernel hold: the layout and the bitmap, with the
    log free for itself, the root directory and every file with their blocks
    marked in use, no block in two files; and the kernel's search finds every
    file under its name, with its bytes.  The directory must not fill its last
    block. *)
Theorem mkfs_image given (Hf : fits given) (Hfull : (Z.of_nat (length given) + 2) mod 32 ≠ 0)
  (Hb : Forall bytes (dir_names given)) (Hnd : NoDup ((λ n, cstr (cells n) DIRSIZ) <$> dir_names given)) :
  ∃ s, mk_main (Some true) (opened given) mkfs0 = Ok tt s ∧ let v := blk (fs_img s) in let start := FSSIZE - nlog in let root := ino v ROOTINO in
    length (fs_img s) = Z.to_nat FSSIZE ∧ sbv v = mkSb FSSIZE nblocks NINODES nlog ∧ fs_geo start v ∧ (∀ b, start <= b < FSSIZE → used v b = false) ∧
    file_wf start v root ∧ dir_wf v root ∧
    (∀ k f, given !! k = Some f → let ip := ino v (Z.of_nat k + 2) in
       dir_find v root (mk_name f.1) 0 (dir_entries root) = Some (16 * (Z.of_nat k + 2), Z.of_nat k + 2) ∧
       i_type ip = T_FILE ∧ i_nlink ip = 1 ∧ file_wf start v ip ∧ covered v ip (i_size ip) ∧ fbytes v ip 0 (i_size ip) = concat f.2) ∧
    (∀ i j x, 1 <= i < Z.of_nat (length given) + 2 → 1 <= j < Z.of_nat (length given) + 2 → mine v (ino v i) x → mine v (ino v j) x → i = j).
Proof.
  destruct (mk_main_ok given Hf) as (D & s & Hr & Him). exists s. split; [exact Hr|]. cbv zeta.
  destruct (root_facts given Hf Hfull) as (Hroot & _). pose proof (view_free_block given D _ Him Hf) as Hfb.
  split; [apply (o_img _ _ _ _ _ _ (view_data given D _ Him))|]. split; [by apply (view_sb given D)|]. split; [by apply (view_geo given D)|]. split.
  { intros b Hbr. rewrite (view_used given D _ Him Hf) by (unfold nlog, LOGSIZE, MAXOPBLOCKS, FSSIZE in *; lia). apply Z.ltb_ge. lia. }
  split; [by apply (view_file_wf given D)|]. split; [by apply (root_dir given D)|]. split.
  - intros k f Hk. split; [by apply (root_finds given D)|]. pose proof (lookup_lt_Some _ _ _ Hk) as Hlt.
    destruct (view_fields given D _ Him Hf (Z.of_nat k + 2) ltac:(lia)) as [Hty Hnl]. destruct (view_file given D _ Him Hf (Z.of_nat k + 2) ltac:(lia)) as (Hs & Hc & Hbs).
    assert (HC : contents given (Z.of_nat k + 2) = concat f.2).
    { unfold contents. rewrite (proj2 (Z.eqb_neq _ _)) by (unfold ROOTINO; lia). replace (Z.to_nat _) with k by lia. by rewrite nth_lookup, list_lookup_fmap, Hk. }
    split; [rewrite Hty; unfold types; by rewrite (proj2 (Z.eqb_neq _ _)) by (unfold ROOTINO; lia)|]. split; [exact Hnl|].
    split; [apply (view_file_wf given D _ Him Hf); lia|]. split; [exact Hc|]. by rewrite Hbs.
  - intros i j x Hi Hj. by apply (view_disjoint given D).
Qed.

(** Two files, the second of two pieces. *)
Definition demo_given : list (list Z * list (list Z)) := [(str ".fs/init", [[1; 2; 3]]); (str "README", [[4; 5]; [6]])].
Lemma demo_fits : fits demo_given.
Proof.
  split; [done|vm_compute; discriminate|repeat constructor; vm_compute; discriminate|]. apply Forall_forall. intros f Hin. apply list_elem_of_In in Hin. cbn in Hin.
  destruct Hin as [<-|[<-|[]]]; refine (bool_decide_unpack _ _); vm_compute; exact I.
Qed.
Lemma demo_names : Forall bytes (dir_names demo_given) ∧ NoDup ((λ n, cstr (cells n) DIRSIZ) <$> dir_names demo_given).
Proof. split; [repeat constructor; vm_compute; (reflexivity || discriminate)|refine (bool_decide_unpack _ _); vm_compute; exact I]. Qed.
Lemma mkfs_image_witness : ∃ s, mk_main (Some true) (opened demo_given) mkfs0 = Ok tt s ∧ let v := blk (fs_img s) in
  dir_find v (ino v ROOTINO) (str "README") 0 (dir_entries (ino v ROOTINO)) = Some (48, 3) ∧ fbytes v (ino v 3) 0 (i_size (ino v 3)) = [4; 5; 6].
Proof.
  destruct (mkfs_image demo_given) as (s & Hr & _ & _ & _ & _ & _ & _ & Hfiles & _).
  - exact demo_fits.
  - vm_compute. discriminate.
  - apply demo_names.
  - apply demo_names.
  - exists s. split; [exact Hr|]. destruct (Hfiles 1%nat (str "README", [[4; 5]; [6]]) eq_refl) as (Hfind & _ & _ & _ & _ & Hbytes). split; [exact Hfind|exact Hbytes].
Defined.

(** A directory that fills its last block: mkfs rounds its size up to one
    block more, which the directory does not have. *)
Lemma mkfs_root_hole given : fits given → (Z.of_nat (length given) + 2) mod 32 = 0 →
  ∃ s, mk_main (Some true) (opened given) mkfs0 = Ok tt s ∧ let v := blk (fs_img s) in ¬ covered v (ino v ROOTINO) (i_size (ino v ROOTINO)).
Proof.
  intros Hf Hfull. destruct (mk_main_ok given Hf) as (D & s & Hr & Him). exists s. split; [exact Hr|]. intros v [_ Hc]. pose proof (ft_inodes _ Hf) as Hn. unfold NINODES in Hn.
  set (n := Z.of_nat (length given) + 2) in *. assert (Hi : 1 <= ROOTINO < n) by (unfold ROOTINO; lia).
  assert (H200 : 1 <= ROOTINO < NINODES) by (unfold ROOTINO, NINODES; lia).
  pose proof (ino_size given D _ Him ROOTINO H200) as Hs. rewrite (im_root _ _ _ Him) in Hs. fold v n in Hs.
  assert (Hd : 16 * n = 16 * n / BSIZE * BSIZE).
  { unfold BSIZE. pose proof (Z.div_mod n 32 ltac:(lia)). replace (16 * n) with (n / 32 * 512) by lia. by rewrite Z.div_mul. }
  pose proof (Z.div_pos (16 * n) BSIZE ltac:(lia) eq_refl) as Hp. assert (Hk : key_ok (Some (16 * n / BSIZE))) by (cbn; rewrite MAXFILE_val; unfold BSIZE in *; lia).
  apply (Hc (16 * n / BSIZE)); [done|rewrite Hs; unfold BSIZE; lia|]. unfold v. rewrite (ino_addr_of given D _ Him ROOTINO H200 _ Hk).
  pose proof (o_loc _ _ _ _ _ _ (view_data given D _ Him) ROOTINO (Some (16 * n / BSIZE)) Hi Hk) as Hl. unfold filled in Hl. rewrite contents_root, length_dir_bytes in Hl. cbn [needs] in Hl.
  by rewrite (proj2 (Z.ltb_ge _ _)) in Hl by lia.
Qed.
