(* ===== verification/Libfs.v ===== *)
(** * Libfs: file system images on the host, tools/libfs.c

    The library that opfs uses to read and change an image of the file system,
    which is mapped in memory: [img_t] is an array of blocks and an [inode_t]
    points into it.  A pointer is its distance in bytes from the start of the
    image, and the null pointer is 0; a use of the null pointer, or of a block
    that the image does not have, is a [Fault].  [fatal] and a failed
    assertion end the command, with [Panic].  The messages that go to the
    standard error are left out; the rest of the state, what is printed and
    what can be read, is used by opfs.

    The names of libfs.c that the kernel uses too have the prefix [l_]. *)

From stdpp Require Import prelude functions gmap strings.
From S2P Require Import Prelude Types Spinlock Sched Ide Bio Cstr Log Fs Cprintf.
Open Scope Z_scope.

(** What goes to the standard output: a call of [printf] or of [write]. *)
Inductive oarg := ONum (n : Z) | OStr (s : list Z).
Inductive oevent := OPrintf (fmt : string) (args : list oarg) | OWrite (bytes : list Z).

(** The image, the output, and what successive reads of the standard input
    return, where [None] is an error and the end of the file is empty; and the
    variable [root_inode]. *)
Record opfs := mkOpfs {
  l_img : list block;
  l_out : list oevent;
  l_in : list (option (list Z));
  root_inode : Z }.
Abbreviation LF := (M opfs).
Definition set_l_img (v : list block) (s : opfs) : opfs := mkOpfs v (l_out s) (l_in s) (root_inode s).

(** ** Memory *)

(** [img[b]]. *)
Definition getb (b : Z) : LF block := s ← get; if b <? 0 then fault else need (l_img s !! Z.to_nat b).
Definition putb (b : Z) (d : block) : LF unit := getb b;; modify (λ s, set_l_img (<[Z.to_nat b := d]> (l_img s)) s).

(** A field at offset [o] of the inode at [ip]. *)
Definition ld16 (ip o : Z) : LF Z :=
  if ip =? 0 then fault else d ← getb (ip / BSIZE); mret (get16 (Z.to_nat (ip mod BSIZE + o)) d).
Definition ld32 (ip o : Z) : LF Z :=
  if ip =? 0 then fault else d ← getb (ip / BSIZE); mret (get32 (Z.to_nat (ip mod BSIZE + o)) d).
Definition st16 (ip o x : Z) : LF unit :=
  if ip =? 0 then fault else d ← getb (ip / BSIZE); putb (ip / BSIZE) (put16 (Z.to_nat (ip mod BSIZE + o)) x d).
Definition st32 (ip o x : Z) : LF unit :=
  if ip =? 0 then fault else d ← getb (ip / BSIZE); putb (ip / BSIZE) (put32 (Z.to_nat (ip mod BSIZE + o)) x d).
Definition ld_type (ip : Z) : LF Z := x ← ld16 ip 0; mret (i16 x).
Definition ld_nlink (ip : Z) : LF Z := x ← ld16 ip 6; mret (i16 x).
Definition ld_size (ip : Z) : LF Z := ld32 ip 16.
Definition ld_addr (ip n : Z) : LF Z := ld32 ip (20 + 4 * n).
Definition st_addr (ip n x : Z) : LF unit := st32 ip (20 + 4 * n) x.

(** [SBLK(img)]. *)
Definition SBLK : LF superblock := d ← getb 1; mret (sb_of_block d).

(** ** General functions *)

Definition divceil (x y : Z) : Z := if x =? 0 then 0 else (x - 1) ÷ y + 1.
Definition bitcount (x : Z) : Z :=
  let x := u32 (x - Z.land (Z.shiftr x 1) 0x55555555) in
  let x := u32 (Z.land x 0x33333333 + Z.land (Z.shiftr x 2) 0x33333333) in
  let x := Z.land (u32 (x + Z.shiftr x 4)) 0x0f0f0f0f in
  let x := u32 (x + Z.shiftr x 8) in
  let x := u32 (x + Z.shiftr x 16) in
  Z.land x 0x3f.
Definition typename (type : Z) : string :=
  if type =? T_DIR then "directory" else if type =? T_FILE then "file" else if type =? T_DEV then "device" else "unknown".

(** ** Blocks *)

Definition valid_data_block (sb : superblock) (b : Z) : bool :=
  let Ni := sb_ninodes sb / IPB + 1 in
  let Nm := sb_size sb / (BSIZE * 8) + 1 in
  let Nd := sb_nblocks sb in
  let d := u32 (2 + Ni + Nm) in
  (d <=? b) && (b <=? u32 (d + Nd - 1)).

(** The inner loop is that of the kernel's [balloc]. *)
Fixpoint l_balloc_loop (sb : superblock) (bs : list Z) : LF Z :=
  match bs with
  | [] => panic "balloc: no free blocks"
  | b :: bs =>
      bp ← getb (BBLOCK b (sb_ninodes sb));
      match balloc_scan bp b (sb_size sb) 0 (Z.to_nat BPB) with
      | Some bi =>
          putb (BBLOCK b (sb_ninodes sb)) (bit_set bi bp);;
          if negb (valid_data_block sb (b + bi)) then panic "balloc: invalid data block number" else
          putb (b + bi) zero_block;;
          mret (b + bi)
      | None => l_balloc_loop sb bs
      end
  end.
Definition l_balloc : LF Z :=
  sb ← SBLK;
  l_balloc_loop sb ((λ i, i * BPB) <$> seqZ 0 ((sb_size sb + BPB - 1) / BPB)).

Definition l_bfree (b : Z) : LF Z :=
  sb ← SBLK;
  if negb (valid_data_block sb b) then mret (-1) else
  bp ← getb (BBLOCK b (sb_ninodes sb));
  putb (BBLOCK b (sb_ninodes sb)) (bit_clear (b mod BPB) bp);;
  mret 0.

(** ** Inodes *)

(** [(inode_t)img[IBLOCK(inum)] + inum % IPB]. *)
Definition iptr (inum : Z) : Z := IBLOCK inum * BSIZE + inum mod IPB * DINODE_SIZE.
Definition root_inode_number : Z := 1.
Definition l_iget (inum : Z) : LF Z :=
  sb ← SBLK;
  if (0 <? inum) && (inum <? sb_ninodes sb) then mret (iptr inum) else mret 0.

Fixpoint geti_loop (ip i : Z) (n : nat) : Z :=
  match n with
  | O => 0
  | S n =>
      let bp := (i + 2) * BSIZE in
      if (bp <=? ip) && (ip <? bp + IPB * DINODE_SIZE) then (ip - bp) / DINODE_SIZE + i * IPB else geti_loop ip (i + 1) n
  end.
Definition geti (ip : Z) : LF Z :=
  sb ← SBLK;
  let Ni := sb_ninodes sb / IPB + 1 in
  mret (geti_loop ip 0 (Z.to_nat Ni)).

Fixpoint l_ialloc_loop (type inum : Z) (n : nat) : LF Z :=
  match n with
  | O => panic "ialloc: cannot allocate"
  | S n =>
      let ip := iptr inum in
      t ← ld_type ip;
      if t =? 0 then
        d ← getb (ip / BSIZE);
        putb (ip / BSIZE) (bsplice (Z.to_nat (ip mod BSIZE)) (replicate (Z.to_nat DINODE_SIZE) 0) d);;
        st16 ip 0 type;;
        mret ip
      else l_ialloc_loop type (inum + 1) n
  end.
Definition l_ialloc (type : Z) : LF Z :=
  sb ← SBLK;
  l_ialloc_loop type 1 (Z.to_nat (sb_ninodes sb - 1)).

Definition ifree (inum : Z) : LF Z :=
  ip ← l_iget inum;
  if ip =? 0 then mret (-1) else
  st16 ip 0 0;;
  mret 0.

Definition l_bmap (ip n : Z) : LF Z :=
  if n <? NDIRECT then
    addr ← ld_addr ip n;
    if addr =? 0 then
      addr ← l_balloc;
      st_addr ip n addr;;
      mret addr
    else mret addr
  else
    let k := n - NDIRECT in
    if NINDIRECT <=? k then mret 0 else
    iaddr ← ld_addr ip NDIRECT;
    iaddr ← (if iaddr =? 0 then a ← l_balloc; st_addr ip NDIRECT a;; mret a else mret iaddr);
    iblock ← getb iaddr;
    let j := Z.to_nat (4 * k) in
    if get32 j iblock =? 0 then
      a ← l_balloc;
      iblock ← getb iaddr;
      putb iaddr (put32 j a iblock);;
      mret (u32 a)
    else mret (get32 j iblock).

(** What [iread] puts in its buffer is part of its result.  The conversion to
    [int] of the arguments of [min] is written out. *)
Definition imin (x y : Z) : Z := Z.min (i32 x) (i32 y).
Definition imax (x y : Z) : Z := Z.max (i32 x) (i32 y).
Fixpoint iread_loop (ip off n t : Z) (acc : list Z) (fuel : nat) : LF (Z * list Z) :=
  if t <? n then
    match fuel with
    | O => spin
    | S fuel =>
        b ← l_bmap ip (off / BSIZE);
        sb ← SBLK;
        if negb (valid_data_block sb b) then mret (t, acc) else
        let m := u32 (imin (n - t) (BSIZE - off mod BSIZE)) in
        d ← getb b;
        if BSIZE <? off mod BSIZE + m then fault else
        iread_loop ip (u32 (off + m)) n (u32 (t + m)) (acc ++ bslice (Z.to_nat (off mod BSIZE)) (Z.to_nat m) d) fuel
    end
  else mret (t, acc).
Definition iread (ip n off : Z) : LF (Z * list Z) :=
  ty ← ld_type ip;
  if ty =? T_DEV then mret (-1, []) else
  size ← ld_size ip;
  if (size <? off) || (u32 (off + n) <? off) then mret (-1, []) else
  let n := if size <? u32 (off + n) then size - off else n in
  r ← iread_loop ip off n 0 [] (Z.to_nat (n / BSIZE + 2));
  mret (i32 r.1, r.2).

Definition MAXFILESIZE : Z := MAXFILE * BSIZE.
(** The result is [t] and [off]. *)
Fixpoint iwrite_loop (ip : Z) (buf : list Z) (off n t : Z) (fuel : nat) : LF (Z * Z) :=
  if t <? n then
    match fuel with
    | O => spin
    | S fuel =>
        b ← l_bmap ip (off / BSIZE);
        sb ← SBLK;
        if negb (valid_data_block sb b) then mret (t, off) else
        let m := u32 (imin (n - t) (BSIZE - off mod BSIZE)) in
        d ← getb b;
        if BSIZE <? off mod BSIZE + m then fault else
        putb b (bsplice (Z.to_nat (off mod BSIZE)) (bslice (Z.to_nat t) (Z.to_nat m) buf) d);;
        iwrite_loop ip buf (u32 (off + m)) n (u32 (t + m)) fuel
    end
  else mret (t, off).
Definition iwrite (ip : Z) (buf : list Z) (n off : Z) : LF Z :=
  ty ← ld_type ip;
  if ty =? T_DEV then mret (-1) else
  size ← ld_size ip;
  if (size <? off) || (u32 (off + n) <? off) || (MAXFILESIZE <? u32 (off + n)) then mret (-1) else
  r ← iwrite_loop ip buf off n 0 (Z.to_nat (n / BSIZE + 2));
  size ← ld_size ip;
  when ((0 <? r.1) && (size <? r.2)) (st32 ip 16 r.2);;
  mret (i32 r.1).

(** An index outside of the indirect block is a [Fault]. *)
Definition itruncate_ind (iaddr i : Z) : LF unit :=
  if NINDIRECT <=? i then fault else
  iblock ← getb iaddr;
  l_bfree (get32 (Z.to_nat (4 * i)) iblock);;
  iblock ← getb iaddr;
  putb iaddr (put32 (Z.to_nat (4 * i)) 0 iblock).
Fixpoint itruncate_fill (ip off n t : Z) (fuel : nat) : LF unit :=
  if t <? n then
    match fuel with
    | O => spin
    | S fuel =>
        b ← l_bmap ip (off / BSIZE);
        bp ← getb b;
        let m := u32 (imin (n - t) (BSIZE - off mod BSIZE)) in
        putb b (bsplice (Z.to_nat (off mod BSIZE)) (replicate (Z.to_nat m) 0) bp);;
        itruncate_fill ip (u32 (off + m)) n (u32 (t + m)) fuel
    end
  else mret ().
Definition itruncate (ip size : Z) : LF Z :=
  ty ← ld_type ip;
  if ty =? T_DEV then mret (-1) else
  if MAXFILESIZE <? size then mret (-1) else
  isize ← ld_size ip;
  (if size <? isize then
     let n := divceil (i32 isize) BSIZE in
     let k := divceil (i32 size) BSIZE in
     let nd := imin n NDIRECT in
     let kd := imin k NDIRECT in
     for_each (seqZ kd (nd - kd)) (λ i, a ← ld_addr ip i; l_bfree a;; st_addr ip i 0);;
     if NDIRECT <? n then
       iaddr ← ld_addr ip NDIRECT;
       if iaddr =? 0 then panic "assert iaddr != 0" else
       let ni := imax (n - NDIRECT) 0 in
       let ki := imax (k - NDIRECT) 0 in
       for_each (seqZ ki (ni - ki)) (itruncate_ind iaddr);;
       when (ki =? 0) (l_bfree iaddr;; st_addr ip NDIRECT 0)
     else mret ()
   else
     let n := size - isize in
     itruncate_fill ip isize n 0 (Z.to_nat (n / BSIZE + 2)));;
  st32 ip 16 size;;
  mret 0.

(** ** Path names *)

(** A path is a string without its NUL; its loops are those of the kernel's
    [skipelem].  A name is the string that the buffer holds. *)
Definition is_empty (s : list Z) : bool := bool_decide (s = []).
Definition is_sep (c : Z) : bool := c =? slash.
Definition l_skipelem (path : list Z) : list Z * list Z :=
  let s := skip_slashes path in
  let r := skip_name s in
  (r.2, take (Z.to_nat (imin (Z.of_nat (length r.1)) DIRSIZ)) r.1).

Fixpoint splitpath_loop (path s : list Z) (fuel : nat) : list Z :=
  match path, fuel with
  | [], _ | _, O => s
  | _, S fuel => let s := skip_slashes path in splitpath_loop (skip_name s).2 s fuel
  end.
(** The base name, and the directory that a buffer of [size] bytes gets. *)
Definition splitpath (path : list Z) (size : Z) : list Z * list Z :=
  let s := splitpath_loop path path (length path) in
  (s, take (Z.to_nat (imin (Z.of_nat (length path - length s)) (size - 1))) path).

(** ** Directories *)

(** The inode, and the offset of its entry; the entry's inode number may not be
    an inode's, and the inode is then null. *)
Fixpoint dlookup_loop (dp : Z) (name : list Z) (off : Z) (fuel : nat) : LF (Z * option Z) :=
  size ← ld_size dp;
  if off <? size then
    match fuel with
    | O => spin
    | S fuel =>
        r ← iread dp DIRENT_SIZE off;
        if negb (r.1 =? DIRENT_SIZE) then mret (0, None) else
        let de := de_of_bytes r.2 in
        if strncmp (cells name) (cells (de_name de)) DIRSIZ =? 0 then
          ip ← l_iget (de_inum de); mret (ip, Some off)
        else dlookup_loop dp name (u32 (off + DIRENT_SIZE)) fuel
    end
  else mret (0, None).
Definition dlookup (dp : Z) (name : list Z) : LF (Z * option Z) :=
  ty ← ld_type dp;
  if negb (ty =? T_DIR) then panic "assert dp->type == T_DIR" else
  size ← ld_size dp;
  dlookup_loop dp name 0 (Z.to_nat (size / DIRENT_SIZE + 1)).

(** The offset at which the search stops, [None] on an error. *)
Fixpoint daddent_loop (dp : Z) (name : list Z) (off : Z) (fuel : nat) : LF (option Z) :=
  size ← ld_size dp;
  if off <? size then
    match fuel with
    | O => spin
    | S fuel =>
        r ← iread dp DIRENT_SIZE off;
        if negb (r.1 =? DIRENT_SIZE) then mret None else
        let de := de_of_bytes r.2 in
        if de_inum de =? 0 then mret (Some off) else
        if strncmp (cells (de_name de)) (cells name) DIRSIZ =? 0 then mret None
        else daddent_loop dp name (u32 (off + DIRENT_SIZE)) fuel
    end
  else mret (Some off).
(** An entry, its name written with [strncpy]. *)
Definition new_de (inum : Z) (name : list Z) : list Z :=
  de_bytes (mkDirent (Z.land inum 0xffff) (bytes_of (strncpy (λ _, 0) 0 (cells name) DIRSIZ) DIRSIZ)).
Definition add_nlink (ip k : Z) : LF unit := n ← ld_nlink ip; st16 ip 6 (n + k).
Definition daddent (dp : Z) (name : list Z) (ip : Z) : LF Z :=
  size ← ld_size dp;
  o ← daddent_loop dp name 0 (Z.to_nat (size / DIRENT_SIZE + 1));
  match o with
  | None => mret (-1)
  | Some off =>
      inum ← geti ip;
      n ← iwrite dp (new_de inum name) DIRENT_SIZE off;
      if negb (n =? DIRENT_SIZE) then mret (-1) else
      when (negb (strncmp (cells name) (cells (str ".")) DIRSIZ =? 0)) (add_nlink ip 1);;
      mret 0
  end.

(** Without an entry for the parent the offset is not set. *)
Definition dmkparlink (pip cip : Z) : LF Z :=
  ty ← ld_type pip;
  if negb (ty =? T_DIR) then mret (-1) else
  ty ← ld_type cip;
  if negb (ty =? T_DIR) then mret (-1) else
  r ← dlookup cip (str "..");
  off ← need r.2;
  inum ← geti pip;
  n ← iwrite cip (new_de inum (str "..")) DIRENT_SIZE off;
  if negb (n =? DIRENT_SIZE) then mret (-1) else
  add_nlink pip 1;;
  mret 0.

Definition assert_dir (rp : Z) : LF unit :=
  if rp =? 0 then panic "assert rp != NULL" else
  ty ← ld_type rp;
  if negb (ty =? T_DIR) then panic "assert rp->type == T_DIR" else mret ().

Fixpoint ilookup_loop (rp : Z) (path : list Z) (fuel : nat) : LF Z :=
  match fuel with
  | O => spin
  | S fuel =>
      assert_dir rp;;
      let '(path, name) := l_skipelem path in
      if is_empty name then mret rp else
      r ← dlookup rp name;
      let ip := r.1 in
      if ip =? 0 then mret 0 else
      if is_empty path then mret ip else
      ty ← ld_type ip;
      if negb (ty =? T_DIR) then mret 0 else
      ilookup_loop ip path fuel
  end.
Definition ilookup (rp : Z) (path : list Z) : LF Z := ilookup_loop rp path (S (length path)).

(** The new inode, and the directory that is stored through [dpp]. *)
Fixpoint icreat_loop (rp : Z) (path : list Z) (type : Z) (fuel : nat) : LF (Z * option Z) :=
  match fuel with
  | O => spin
  | S fuel =>
      assert_dir rp;;
      let '(path, name) := l_skipelem path in
      if is_empty name then mret (0, None) else
      r ← dlookup rp name;
      let ip := r.1 in
      if is_empty path then
        if negb (ip =? 0) then mret (0, None) else
        ip ← l_ialloc type;
        daddent rp name ip;;
        ty ← ld_type ip;
        when (ty =? T_DIR) (daddent ip (str ".") ip;; daddent ip (str "..") rp;; mret ());;
        mret (ip, Some rp)
      else if ip =? 0 then mret (0, None) else
      ty ← ld_type ip;
      if negb (ty =? T_DIR) then mret (0, None) else
      icreat_loop ip path type fuel
  end.
Definition icreat (rp : Z) (path : list Z) (type : Z) : LF (Z * option Z) :=
  icreat_loop rp path type (S (length path)).

(** [de] is what the entry on the stack holds, empty before the first read. *)
Fixpoint emptydir_loop (dp off nent : Z) (de : list Z) (fuel : nat) : LF Z :=
  size ← ld_size dp;
  if off <? size then
    match fuel with
    | O => spin
    | S fuel =>
        r ← iread dp DIRENT_SIZE off;
        let de := r.2 ++ drop (length r.2) de in
        if (length de <? 2)%nat then fault else
        emptydir_loop dp (u32 (off + DIRENT_SIZE)) (if get16 0 de =? 0 then nent else nent + 1) de fuel
    end
  else mret nent.
Definition emptydir (dp : Z) : LF bool :=
  size ← ld_size dp;
  nent ← emptydir_loop dp 0 0 [] (Z.to_nat (size / DIRENT_SIZE + 1));
  mret (nent =? 2).

Fixpoint iunlink_loop (rp : Z) (path : list Z) (fuel : nat) : LF Z :=
  match fuel with
  | O => spin
  | S fuel =>
      assert_dir rp;;
      let '(path, name) := l_skipelem path in
      if is_empty name then mret (-1) else
      r ← dlookup rp name;
      let ip := r.1 in
      if negb (ip =? 0) && is_empty path then
        if (strncmp (cells name) (cells (str ".")) DIRSIZ =? 0) || (strncmp (cells name) (cells (str "..")) DIRSIZ =? 0)
        then mret (-1) else
        off ← need r.2;
        n ← iwrite rp (replicate (Z.to_nat DIRENT_SIZE) 0) DIRENT_SIZE off;
        if negb (n =? DIRENT_SIZE) then mret (-1) else
        ty ← ld_type ip;
        (if ty =? T_DIR then up ← dlookup ip (str ".."); when (up.1 =? rp) (add_nlink rp (-1)) else mret ());;
        add_nlink ip (-1);;
        nlink ← ld_nlink ip;
        (if nlink =? 0 then
           ty ← ld_type ip;
           when (negb (ty =? T_DEV)) (itruncate ip 0;; mret ());;
           inum ← geti ip;
           ifree inum;;
           mret ()
         else mret ());;
        mret 0
      else if ip =? 0 then mret (-1) else
      ty ← ld_type ip;
      if negb (ty =? T_DIR) then mret (-1) else
      iunlink_loop ip path fuel
  end.
Definition iunlink (rp : Z) (path : list Z) : LF Z := iunlink_loop rp path (S (length path)).
