(* ===== verification/LibfsFile.v ===== *)
(** * LibfsFile: files in an image, against the kernel's specification

    The image, seen as blocks, is described as the kernel's disk is: [fs_geo]
    for the layout, [file_wf] and [covered] for a file, [fbytes] for its
    contents, [written] for a write.  libfs reads and writes files by that
    description, so that what it writes is what the kernel reads, and the
    other way round.  The inode is in its block of the image all the time: the
    invariant compares the image with a disk whose inode block stays as it was
    at first, and with the inode as it is now. *)

From stdpp Require Import prelude functions gmap strings.
From S2P Require Import Prelude Types Spinlock Sched Ide Bio Block Cstr Log Fs FsBlock FsInode FsDinode FsData FsDir Cprintf Mkfs MkfsImage Libfs.
Open Scope Z_scope.

(** ** Inodes in their block *)

Lemma iptr_block i : 0 <= i → iptr i / BSIZE = IBLOCK i ∧ iptr i mod BSIZE = Z.of_nat (dip_off i) ∧ iptr i ≠ 0.
Proof.
  intros Hi. unfold iptr, dip_off, IBLOCK, DINODE_SIZE, BSIZE, IPB in *. change (BSIZE / DINODE_SIZE) with 8.
  pose proof (Z.mod_pos_bound i 8 eq_refl). pose proof (Z.div_pos i 8 Hi eq_refl).
  rewrite Z.add_comm, Z.div_add, Z.mod_add, Z.div_small, Z.mod_small by lia. lia.
Qed.

Lemma dip_off_apart i j : i ≠ j → IBLOCK i = IBLOCK j → 0 <= i → 0 <= j → (dip_off i + 64 <= dip_off j ∨ dip_off j + 64 <= dip_off i)%nat.
Proof.
  unfold IBLOCK, dip_off, IPB, DINODE_SIZE, BSIZE. change (512 / 64) with 8. intros.
  pose proof (Z.div_mod i 8 ltac:(done)). pose proof (Z.div_mod j 8 ltac:(done)).
  pose proof (Z.mod_pos_bound i 8 eq_refl). pose proof (Z.mod_pos_bound j 8 eq_refl). lia.
Qed.

(** A store of four bytes in the inode, seen by a load. *)
Lemma load_put_addr i n b d : length d = 512%nat → 0 <= n <= NDIRECT → u32 b = b →
  dinode_load (put32 (dip_off i + Z.to_nat (20 + 4 * n)) b d) (blank i) = set_addr n b (dinode_load d (blank i)).
Proof.
  intros Hd Hn Hb. pose proof (dip_off_range i) as Ho. unfold NDIRECT in Hn. unfold dinode_load, set_addr, set_i_addrs. cbv zeta. cbn [blank i_inum i_dev i_ref i_flags i_type i_major i_minor i_nlink i_ownerid i_groupid i_mode i_size i_addrs].
  f_equal; unfold get16, get32; skip_stores; try done.
  apply list_eq. intros k. unfold get_addrs. rewrite list_lookup_fmap.
  destruct (decide (k < 11)%nat) as [Hk|Hk].
  - rewrite lookup_seq_lt by done. cbn [fmap option_fmap option_map]. rewrite Nat.add_0_l. destruct (decide (k = Z.to_nat n)) as [->|Hne].
    + rewrite list_lookup_insert_eq by (by rewrite length_fmap, length_seq). f_equal.
      replace (dip_off i + 20 + 4 * Z.to_nat n)%nat with (dip_off i + Z.to_nat (20 + 4 * n))%nat by lia. by rewrite get_put32 by lia.
    + rewrite list_lookup_insert_ne by done. rewrite list_lookup_fmap, lookup_seq_lt by done. cbn [fmap option_fmap option_map].
      f_equal. apply get_put32_ne; lia.
  - rewrite lookup_seq_ge by lia. symmetry. apply lookup_ge_None. rewrite length_insert, length_fmap, length_seq. lia.
Qed.
Lemma load_put_size i x d : length d = 512%nat → u32 x = x →
  dinode_load (put32 (dip_off i + 16) x d) (blank i) = set_i_size x (dinode_load d (blank i)).
Proof.
  intros Hd Hx. pose proof (dip_off_range i) as Ho. unfold dinode_load, set_i_size. cbv zeta. cbn [blank i_inum i_dev i_ref i_flags i_type i_major i_minor i_nlink i_ownerid i_groupid i_mode i_size i_addrs].
  f_equal; unfold get16, get32; skip_stores; try done.
  - by apply load_uint; [lia|].
  - unfold get_addrs. apply list_fmap_ext. intros k y Hy%lookup_seq. unfold get32. skip_stores. done.
Qed.
Lemma load_put_other i j o x d : length d = 512%nat → i ≠ j → IBLOCK i = IBLOCK j → 0 <= i → 0 <= j → (o + 4 <= 64)%nat →
  dinode_load (put32 (dip_off i + o) x d) (blank j) = dinode_load d (blank j).
Proof.
  intros Hd Hne Hb Hi Hj Ho. pose proof (dip_off_range i). pose proof (dip_off_range j). pose proof (dip_off_apart i j Hne Hb Hi Hj).
  unfold dinode_load. cbv zeta. cbn [blank i_inum].
  f_equal; unfold get_addrs, get16, get32; skip_stores; try done.
  apply list_fmap_ext. intros k y Hy%lookup_seq. unfold get32. skip_stores. done.
Qed.

(** ** The image and the disk *)

(** In an image with [N] inodes and its log from block [st], the inode [i]. *)
Section image.
Context (E : string → Prop) (N st i : Z).
Local Abbreviation img s := (l_img s).

Record lmem (v : Z → block) (ip : inode) (s : opfs) : Prop := {
  lm_img : img_wf (img s);
  lm_view : ∀ x, 0 <= x < FSSIZE → x ≠ IBLOCK i → blk (img s) x = v x;
  lm_ino : ino (blk (img s)) i = ip;
  lm_len : ∀ x, length (v x) = Z.to_nat BSIZE
}.
(** [m] blocks are free. *)
Record linv (m : Z) (v : Z → block) (ip : inode) (s : opfs) : Prop := {
  lv_mem : lmem v ip s;
  lv_inodes : sb_ninodes (sbv v) = N;
  lv_num : 1 <= i < N;
  lv_geo : fs_geo st v;
  lv_st : st = bitmap_block v + 1 + sb_nblocks (sbv v);
  lv_free : 0 <= m <= nfree st v;
  lv_wf : file_wf st v ip
}.
(** The other inodes, and the rest of the state, stay. *)
Record lframe (s s' : opfs) : Prop := {
  lf_ino : ∀ j, 1 <= j < N → j ≠ i → ino (blk (img s')) j = ino (blk (img s)) j;
  lf_out : l_out s' = l_out s;
  lf_in : l_in s' = l_in s;
  lf_root : root_inode s' = root_inode s
}.
#[local] Instance lframe_preorder : PreOrder lframe.
Proof. split; [by intros s; split|]. intros s1 s2 s3 [H1 ? ? ?] [H2 ? ? ?]. split; [|congruence..]. intros j Hj Hne. by rewrite H2, H1. Qed.

Lemma wp_getb x s (Q : block → opfs → Prop) : img_wf (img s) → 0 <= x < FSSIZE → Q (blk (img s) x) s → wp (getb x) E Q s.
Proof.
  intros [Hl _] Hx HQ. unfold getb. wp_steps. rewrite (proj2 (Z.ltb_ge _ _)) by lia. unfold blk in HQ. rewrite nth_lookup in HQ.
  destruct (lookup_lt_is_Some_2 (img s) (Z.to_nat x)) as [d Hd]; [lia|]. rewrite Hd in HQ. by eapply wp_need.
Qed.
Lemma wp_putb x d s (Q : unit → opfs → Prop) : img_wf (img s) → 0 <= x < FSSIZE → Q tt (set_l_img (upd (img s) x d) s) → wp (putb x d) E Q s.
Proof. intros Hwf Hx HQ. unfold putb. wp_steps. apply wp_getb; [done..|]. by wp_steps. Qed.

(** The inode's block. *)
Lemma linv_iblock m v ip s : linv m v ip s → 1 <= i < N ∧ 2 <= IBLOCK i < bitmap_block v ∧ 3 <= bitmap_block v < st ∧ st <= FSSIZE.
Proof.
  intros [_ HN Hi Hg _ _ _]. pose proof (iblock_range st v (blank i) Hg) as H. cbn [blank i_inum] in H. rewrite HN in H.
  pose proof (fs_geo_bm _ _ Hg). pose proof (g_bm _ _ Hg). pose proof (g_start _ _ Hg). pose proof (g_size _ _ Hg). specialize (H ltac:(lia)). lia.
Qed.

Lemma wp_ld16 v ip s o (Q : Z → opfs → Prop) : lmem v ip s → 1 <= i ∧ IBLOCK i < FSSIZE → 0 <= o →
  Q (get16 (dip_off i + Z.to_nat o) (blk (img s) (IBLOCK i))) s → wp (ld16 (iptr i) o) E Q s.
Proof.
  intros Hm [Hi Hb] Ho HQ. destruct (iptr_block i ltac:(lia)) as (H1 & H2 & H3). unfold ld16. rewrite (proj2 (Z.eqb_neq _ _)) by done. rewrite H1, H2. wp_steps.
  apply wp_getb; [apply Hm|pose proof (Z.div_pos i IPB ltac:(lia) eq_refl); unfold IBLOCK in *; lia|]. wp_steps. by replace (Z.to_nat (_ + o)) with (dip_off i + Z.to_nat o)%nat by lia.
Qed.
Lemma wp_ld32 v ip s o (Q : Z → opfs → Prop) : lmem v ip s → 1 <= i ∧ IBLOCK i < FSSIZE → 0 <= o →
  Q (get32 (dip_off i + Z.to_nat o) (blk (img s) (IBLOCK i))) s → wp (ld32 (iptr i) o) E Q s.
Proof.
  intros Hm [Hi Hb] Ho HQ. destruct (iptr_block i ltac:(lia)) as (H1 & H2 & H3). unfold ld32. rewrite (proj2 (Z.eqb_neq _ _)) by done. rewrite H1, H2. wp_steps.
  apply wp_getb; [apply Hm|pose proof (Z.div_pos i IPB ltac:(lia) eq_refl); unfold IBLOCK in *; lia|]. wp_steps. by replace (Z.to_nat (_ + o)) with (dip_off i + Z.to_nat o)%nat by lia.
Qed.
Lemma iblock_pos : 1 <= i → 2 <= IBLOCK i.
Proof. intros. pose proof (Z.div_pos i IPB ltac:(lia) eq_refl). unfold IBLOCK. lia. Qed.
Lemma wp_ld_type v ip s (Q : Z → opfs → Prop) : lmem v ip s → 1 <= i ∧ IBLOCK i < FSSIZE → Q (i_type ip) s → wp (ld_type (iptr i)) E Q s.
Proof. intros Hm Hi HQ. unfold ld_type. wp_steps. eapply wp_ld16; [done..|]. wp_steps. rewrite Nat.add_0_r. by rewrite <-(lm_ino _ _ _ Hm) in HQ. Qed.
Lemma wp_ld_size v ip s (Q : Z → opfs → Prop) : lmem v ip s → 1 <= i ∧ IBLOCK i < FSSIZE → Q (i_size ip) s → wp (ld_size (iptr i)) E Q s.
Proof. intros Hm Hi HQ. unfold ld_size. eapply wp_ld32; [done..|]. by rewrite <-(lm_ino _ _ _ Hm) in HQ. Qed.
Lemma ino_addr_at v n : 0 <= n <= NDIRECT → get32 (dip_off i + Z.to_nat (20 + 4 * n)) (v (IBLOCK i)) = addr_at (ino v i) n.
Proof.
  intros Hn. unfold NDIRECT in Hn. unfold addr_at, ino, dinode_load. cbn [i_addrs blank i_inum]. unfold get_addrs. rewrite nth_lookup, list_lookup_fmap, lookup_seq_lt by lia.
  cbn [fmap option_fmap option_map default from_option]. by replace (dip_off i + 20 + _)%nat with (dip_off i + Z.to_nat (20 + 4 * n))%nat by lia.
Qed.
Lemma wp_ld_addr v ip s n (Q : Z → opfs → Prop) : lmem v ip s → 1 <= i ∧ IBLOCK i < FSSIZE → 0 <= n <= NDIRECT → Q (addr_at ip n) s → wp (ld_addr (iptr i) n) E Q s.
Proof.
  intros Hm Hi Hn HQ. unfold ld_addr. eapply wp_ld32; [done|done|lia|]. rewrite ino_addr_at by done. by rewrite (lm_ino _ _ _ Hm).
Qed.

(** *** Stores *)

(** A store in a block after the inodes. *)
Lemma lm_putb v ip s x d (Q : unit → opfs → Prop) : lmem v ip s → 0 <= x < FSSIZE → (∀ j, 1 <= j < N → IBLOCK j < x) → 1 <= i < N → length d = Z.to_nat BSIZE →
  (∀ s', lmem (vupd v x d) ip s' → lframe s s' → Q tt s') → wp (putb x d) E Q s.
Proof.
  intros [Hw Hv Hino Hl] Hx Hj Hi Hd HQ. pose proof (Hj i Hi) as Hib. pose proof (iblock_pos ltac:(lia)) as Hip.
  assert (Hk : ∀ j, 1 <= j < N → ino (blk (upd (img s) x d)) j = ino (blk (img s)) j).
  { intros j Hjr. specialize (Hj j Hjr). unfold ino. rewrite blk_upd_ne; [done..|unfold IBLOCK; pose proof (Z.div_pos j IPB ltac:(lia) eq_refl); lia|lia]. }
  apply wp_putb; [done..|]. apply HQ.
  - split; cbn [l_img set_l_img]; [by apply upd_wf| |by rewrite Hk|].
    + intros y Hy Hne. rewrite blk_upd by (done || lia). unfold vupd. destruct (Z.eqb_spec y x); [by rewrite decide_True|rewrite decide_False by done; by apply Hv].
    + intros y. unfold vupd. by case_decide.
  - split; try done. intros j Hjr _. by apply Hk.
Qed.

(** A store in the inode. *)
Lemma lm_st32 v ip ip' s o x (Q : unit → opfs → Prop) : lmem v ip s → 1 <= i < N ∧ IBLOCK i < FSSIZE → 0 <= o <= 60 →
  (∀ d, length d = 512%nat → dinode_load d (blank i) = ip → dinode_load (put32 (dip_off i + Z.to_nat o) x d) (blank i) = ip') →
  (∀ s', lmem v ip' s' → lframe s s' → Q tt s') → wp (st32 (iptr i) o x) E Q s.
Proof.
  intros [Hw Hv Hino Hl] [Hi Hb] Ho Hld HQ. destruct (iptr_block i ltac:(lia)) as (H1 & H2 & H3). pose proof (iblock_pos ltac:(lia)) as Hip. pose proof (dip_off_range i).
  unfold st32. rewrite (proj2 (Z.eqb_neq _ _)) by done. rewrite H1, H2. wp_steps. apply wp_getb; [done|lia|]. pose proof (length_blk (img s) (IBLOCK i) Hw) as Hlb.
  replace (Z.to_nat (_ + o)) with (dip_off i + Z.to_nat o)%nat by lia. apply wp_putb; [done|lia|]. apply HQ.
  - split; cbn [l_img set_l_img].
    + apply upd_wf; [done|]. by rewrite length_put32 by lia.
    + intros y Hy Hne. rewrite blk_upd_ne by (done || lia). by apply Hv.
    + unfold ino. rewrite blk_upd_eq by (done || lia). by apply Hld.
    + done.
  - split; try done. intros j Hj Hne. cbn [l_img set_l_img]. unfold ino. destruct (decide (IBLOCK j = IBLOCK i)) as [He|He].
    + rewrite He, blk_upd_eq by (done || lia). apply load_put_other; [done..|lia|lia|lia].
    + rewrite blk_upd_ne; [done|done|lia|unfold IBLOCK; pose proof (Z.div_pos j IPB ltac:(lia) eq_refl); lia|done].
Qed.
Lemma lm_st_addr v ip s n b (Q : unit → opfs → Prop) : lmem v ip s → 1 <= i < N ∧ IBLOCK i < FSSIZE → 0 <= n <= NDIRECT → u32 b = b →
  (∀ s', lmem v (set_addr n b ip) s' → lframe s s' → Q tt s') → wp (st_addr (iptr i) n b) E Q s.
Proof.
  intros Hm Hi Hn Hb HQ. unfold st_addr. eapply lm_st32; [done|done|unfold NDIRECT in *; lia| |exact HQ]. intros d Hd <-. by apply load_put_addr.
Qed.
Lemma lm_st_size v ip s x (Q : unit → opfs → Prop) : lmem v ip s → 1 <= i < N ∧ IBLOCK i < FSSIZE → u32 x = x →
  (∀ s', lmem v (set_i_size x ip) s' → lframe s s' → Q tt s') → wp (st32 (iptr i) 16 x) E Q s.
Proof. intros Hm Hi Hx HQ. eapply lm_st32; [done|done|lia| |exact HQ]. intros d Hd <-. by apply load_put_size. Qed.

(** *** The superblock and the bitmap *)

Section valid.
Context (m : Z) (v : Z → block) (ip : inode) (s : opfs) (Hl : linv m v ip s).
Lemma wp_SBLK (Q : superblock → opfs → Prop) : Q (sbv v) s → wp SBLK E Q s.
Proof.
  intros HQ. destruct (linv_iblock _ _ _ _ Hl) as (? & ? & ? & ?). unfold SBLK. wp_steps. apply wp_getb; [apply Hl|unfold FSSIZE; lia|]. wp_steps.
  rewrite (lm_view _ _ _ (lv_mem _ _ _ _ Hl)) by (unfold FSSIZE; lia). exact HQ.
Qed.
Lemma valid_eq x : valid_data_block (sbv v) x = (bitmap_block v <? x) && (x <? st).
Proof.
  destruct (linv_iblock _ _ _ _ Hl) as (? & ? & ? & ?). pose proof (lv_st _ _ _ _ Hl). pose proof (g_start _ _ (lv_geo _ _ _ _ Hl)). pose proof (g_size _ _ (lv_geo _ _ _ _ Hl)).
  unfold FSSIZE in *. unfold valid_data_block. rewrite (Z.div_small (sb_size (sbv v))) by (unfold BSIZE; lia).
  assert (Hd : 2 + (sb_ninodes (sbv v) / IPB + 1) + (0 + 1) = bitmap_block v + 1) by (unfold bitmap_block, BBLOCK; rewrite Z.div_0_l by done; lia).
  rewrite Hd, !u32_small by (rewrite ?u32_small; lia). lia.
Qed.
Lemma valid_data x : data_block st v x → valid_data_block (sbv v) x = true.
Proof. intros [Hx _]. rewrite valid_eq. lia. Qed.

(** [balloc] takes the lowest free block. *)
Lemma l_balloc_ok (Q : Z → opfs → Prop) : 1 <= m →
  (∀ b s', first_free v b → b < st → lmem (view_alloc v b) ip s' → lframe s s' → fs_geo st (view_alloc v b) → m - 1 <= nfree st (view_alloc v b) → Q b s') → wp l_balloc E Q s.
Proof.
  intros Hm HQ. destruct (linv_iblock _ _ _ _ Hl) as (Hi & Hib & Hbm & Hst). pose proof Hl as [Hmem HN _ Hg Hs Hf Hwf].
  destruct (nfree_first st v) as (b & Hff & Hb); [lia|]. pose proof (first_free_data _ _ _ Hg Hff) as Hd. pose proof (g_start _ _ Hg). pose proof (g_size _ _ Hg).
  assert (Hj : ∀ j, 1 <= j < N → IBLOCK j < bitmap_block v).
  { intros j Hj. pose proof (iblock_range st v (blank j) Hg) as H'. cbn [blank i_inum] in H'. rewrite HN in H'. specialize (H' ltac:(lia)). lia. }
  unfold l_balloc. wp_steps. apply wp_SBLK. rewrite one_bitmap by lia. cbn [l_balloc_loop]. rewrite bblock_eq by (unfold FSSIZE; lia). wp_steps. apply wp_getb; [apply Hmem|lia|].
  rewrite (lm_view _ _ _ Hmem) by lia. destruct Hff as (Hb0 & Hbf & Hall).
  rewrite (balloc_scan_first _ _ _ 0 b); [|unfold BPB, BSIZE, FSSIZE in *; lia|lia|intros j Hjj; by apply Hall|done]. wp_steps. rewrite Z.add_0_l.
  eapply lm_putb; [exact Hmem|lia|done|done|rewrite length_bit_set; apply Hmem|]. intros s1 Hm1 Hf1. rewrite valid_eq.
  replace (bitmap_block v <? b) with true by lia. replace (b <? st) with true by lia. cbn [andb negb]. wp_steps.
  eapply lm_putb; [exact Hm1|lia|intros j Hjj; specialize (Hj j Hjj); lia|done|done|]. intros s2 Hm2 Hf2. wp_steps. apply HQ; try done.
  - by rewrite Hf1.
  - apply alloc_geo; try done. apply Hmem.
  - rewrite (nfree_alloc st v b) in Hf by (done || apply Hmem). lia.
Qed.
End valid.

(** *** Blocks of the file *)

Lemma linv_grown m m' v v' ip ip' s s' : linv m v ip s → grows v ip v' ip' → lmem v' ip' s' → fs_geo st v' → 0 <= m' <= nfree st v' → file_wf st v' ip' →
  linv m' v' ip' s'.
Proof.
  intros [_ HN Hi _ Hs _ _] Hgr Hm Hg Hf Hwf. pose proof (gr_sb _ _ _ _ Hgr) as Hsb.
  split; try done; [by unfold sbv; rewrite Hsb|]. rewrite (bitmap_block_eq v v') by done. unfold sbv in *. by rewrite Hsb.
Qed.
Lemma linv_weaken m m' v ip s : linv m v ip s → 0 <= m' <= m → linv m' v ip s.
Proof. intros [] ?. split; try done. lia. Qed.
Lemma linv_bounds m v ip s : linv m v ip s → 1 <= i < N ∧ IBLOCK i < FSSIZE.
Proof. intros Hl. destruct (linv_iblock _ _ _ _ Hl) as (? & ? & ? & ?). lia. Qed.
Lemma iblock_below m v ip s j : linv m v ip s → 1 <= j < N → IBLOCK j < bitmap_block v.
Proof.
  intros Hl Hj. pose proof (iblock_range st v (blank j) (lv_geo _ _ _ _ Hl)) as H'. cbn [blank i_inum] in H'.
  rewrite (lv_inodes _ _ _ _ Hl) in H'. specialize (H' ltac:(lia)). lia.
Qed.
Lemma first_free_range m v ip s b : linv m v ip s → first_free v b → b < st → bitmap_block v < b < FSSIZE ∧ b ≠ 0 ∧ u32 b = b.
Proof.
  intros Hl Hff Hb. pose proof (first_free_data _ _ _ (lv_geo _ _ _ _ Hl) Hff). destruct (linv_iblock _ _ _ _ Hl) as (? & ? & ? & ?).
  unfold FSSIZE in *. rewrite u32_small by lia. lia.
Qed.

Definition lbmapped (m : Z) (v : Z → block) (ip : inode) (bn : Z) (s : opfs) (Q : Z → opfs → Prop) : Prop :=
  ∀ a v' ip' s', linv m v' ip' s' → grows v ip v' ip' → addr_of v' ip' bn = a → a ≠ 0 → lframe s s' → Q a s'.

(** The address [n] of the inode is there, or is allocated. *)
Definition l_get_addr (n : Z) : LF Z :=
  addr ← ld_addr (iptr i) n;
  if addr =? 0 then addr ← l_balloc; st_addr (iptr i) n addr;; mret addr else mret addr.

Lemma l_bmap_direct m v ip bn s (Q : Z → opfs → Prop) : linv m v ip s → 1 <= m → 0 <= bn < NDIRECT → lbmapped (m - 1) v ip bn s Q → wp (l_get_addr bn) E Q s.
Proof.
  intros Hl Hm Hbn HQ. pose proof (linv_bounds _ _ _ _ Hl) as Hi. pose proof Hl as [Hmem HN _ Hg Hs Hf Hwf]. unfold l_get_addr. wp_steps.
  eapply wp_ld_addr; [exact Hmem|lia|lia|]. assert (Ha : addr_of v ip bn = addr_at ip bn) by (unfold addr_of; by rewrite (proj2 (Z.ltb_lt _ _)) by lia).
  destruct (Z.eqb_spec (addr_at ip bn) 0) as [Hz|Hz]; wp_steps.
  2:{ apply (HQ _ v ip); [eapply linv_weaken; [done|lia]|apply grows_refl|done|done|done]. }
  eapply l_balloc_ok; [exact Hl|done|]. intros b s1 Hff Hb Hm1 Hf1 Hg1 Hn1. wp_steps. destruct (first_free_range _ _ _ _ _ Hl Hff Hb) as (Hbr & Hb0 & Hbu). destruct (linv_iblock _ _ _ _ Hl) as (_ & _ & _ & Hst).
  destruct (grow_direct st v ip b Hg Hst Hff Hb (lm_len _ _ _ Hmem) Hwf bn Hbn Hz) as (Hwf' & Hgr & Hab).
  eapply lm_st_addr; [exact Hm1|done|lia|done|]. intros s2 Hm2 Hf2. wp_steps. eapply HQ; [|exact Hgr|done|done|by rewrite Hf1].
  eapply linv_grown; [exact Hl|done..|lia|done].
Qed.
Lemma l_bmap_ind m v ip s (Q : Z → opfs → Prop) : linv m v ip s → 1 <= m →
  (∀ v' ip' s', linv (m - 1) v' ip' s' → grows v ip v' ip' → ind ip' ≠ 0 → (∀ bn, 0 <= bn < MAXFILE → addr_of v' ip' bn = addr_of v ip bn) → lframe s s' → Q (ind ip') s') →
  wp (l_get_addr NDIRECT) E Q s.
Proof.
  intros Hl Hm HQ. pose proof (linv_bounds _ _ _ _ Hl) as Hi. pose proof Hl as [Hmem HN _ Hg Hs Hf Hwf]. unfold l_get_addr. wp_steps.
  eapply wp_ld_addr; [exact Hmem|lia|unfold NDIRECT; lia|]. fold (ind ip). destruct (Z.eqb_spec (ind ip) 0) as [Hz|Hz]; wp_steps.
  2:{ apply (HQ v ip); [eapply linv_weaken; [done|lia]|apply grows_refl|done|done|done]. }
  eapply l_balloc_ok; [exact Hl|done|]. intros b s1 Hff Hb Hm1 Hf1 Hg1 Hn1. wp_steps. destruct (first_free_range _ _ _ _ _ Hl Hff Hb) as (Hbr & Hb0 & Hbu). destruct (linv_iblock _ _ _ _ Hl) as (_ & _ & _ & Hst).
  destruct (grow_ind st v ip b Hg Hst Hff Hb (lm_len _ _ _ Hmem) Hwf Hz) as (Hwf' & Hgr & Hib & Ha).
  eapply lm_st_addr; [exact Hm1|done|unfold NDIRECT; lia|done|]. intros s2 Hm2 Hf2. wp_steps. rewrite <-Hib. eapply HQ; [|exact Hgr|by rewrite Hib|exact Ha|by rewrite Hf1].
  eapply linv_grown; [exact Hl|done..|lia|done].
Qed.

(** The entry of the indirect block is there, or is allocated. *)
Definition l_get_entry (iaddr k : Z) : LF Z :=
  iblock ← getb iaddr;
  let j := Z.to_nat (4 * k) in
  if get32 j iblock =? 0 then
    a ← l_balloc;
    iblock ← getb iaddr;
    putb iaddr (put32 j a iblock);;
    mret (u32 a)
  else mret (get32 j iblock).

Lemma addr_of_ind v ip bn : ind ip ≠ 0 → NDIRECT <= bn → addr_of v ip bn = get32 (Z.to_nat (4 * (bn - NDIRECT))) (v (ind ip)).
Proof. intros. unfold addr_of. rewrite (proj2 (Z.ltb_ge _ _)) by lia. by rewrite (proj2 (Z.eqb_neq _ _)). Qed.

Lemma l_bmap_entry m v ip bn s (Q : Z → opfs → Prop) : linv m v ip s → 1 <= m → ind ip ≠ 0 → NDIRECT <= bn < MAXFILE → lbmapped (m - 1) v ip bn s Q →
  wp (l_get_entry (ind ip) (bn - NDIRECT)) E Q s.
Proof.
  intros Hl Hm Hi0 Hbn HQ. pose proof (linv_bounds _ _ _ _ Hl) as Hi. pose proof Hl as [Hmem HN _ Hg Hs Hf Hwf]. destruct (linv_iblock _ _ _ _ Hl) as (_ & Hib & Hbm & Hst).
  pose proof (fw_ind _ _ _ Hwf Hi0) as [Hir Hiu]. unfold l_get_entry. wp_steps. apply wp_getb; [apply Hmem|lia|]. rewrite (lm_view _ _ _ Hmem) by lia.
  rewrite <-(addr_of_ind v ip bn) by (done || lia). cbv zeta. destruct (Z.eqb_spec (addr_of v ip bn) 0) as [Hz|Hz]; wp_steps.
  2:{ apply (HQ _ v ip); [eapply linv_weaken; [done|lia]|apply grows_refl|done|done|done]. }
  eapply l_balloc_ok; [exact Hl|done|]. intros b s1 Hff Hb Hm1 Hf1 Hg1 Hn1. wp_steps. destruct (first_free_range _ _ _ _ _ Hl Hff Hb) as (Hbr & Hb0 & Hbu).
  destruct (grow_entry st v ip b Hg Hst Hff Hb (lm_len _ _ _ Hmem) Hwf bn Hi0 Hbn Hz) as (Hwf' & Hgr & Hab & Hzb).
  apply wp_getb; [apply Hm1|lia|]. rewrite (lm_view _ _ _ Hm1) by lia. rewrite MAXFILE_val in Hbn. unfold NDIRECT in Hbn. wp_steps.
  assert (Hlv : ∀ x, length (view_alloc v b x) = Z.to_nat BSIZE) by apply Hm1.
  assert (Hlp : length (put32 (Z.to_nat (4 * (bn - NDIRECT))) b (view_alloc v b (ind ip))) = Z.to_nat BSIZE) by (rewrite length_put32; rewrite ?Hlv; unfold NDIRECT, BSIZE; lia).
  eapply lm_putb; [exact Hm1|lia|intros j Hj; specialize (iblock_below _ _ _ _ _ Hl Hj); lia|lia|exact Hlp|].
  fold (view_entry v ip b bn). intros s2 Hm2 Hf2. wp_steps. rewrite Hbu. eapply HQ; [|exact Hgr|done|done|by rewrite Hf1].
  assert (Hbme : bitmap_block (view_alloc v b) = bitmap_block v) by (apply (bitmap_block_alloc st); [done|lia]).
  eapply linv_grown; [exact Hl|done|done| | |done].
  - unfold view_entry. apply fs_geo_upd; [done|lia|]. rewrite Hbme. lia.
  - rewrite (nfree_le st (view_alloc v b)); [lia|]. intros x _. unfold view_entry. apply used_ne; [lia|]. rewrite Hbme. lia.
Qed.

Lemma l_bmap_indirect bn s : NDIRECT <= bn < MAXFILE → l_bmap (iptr i) bn s = (iaddr ← l_get_addr NDIRECT; l_get_entry iaddr (bn - NDIRECT)) s.
Proof.
  intros Hbn. rewrite MAXFILE_val in Hbn. unfold NDIRECT in Hbn. unfold l_bmap. rewrite (proj2 (Z.ltb_ge _ _)) by (unfold NDIRECT; lia). cbv zeta.
  rewrite (proj2 (Z.leb_gt _ _)) by (change NINDIRECT with 128; unfold NDIRECT; lia). unfold l_get_addr, mbind, M_bind. by destruct (ld_addr (iptr i) NDIRECT s).
Qed.
Lemma l_bmap_ok m v ip bn s (Q : Z → opfs → Prop) : linv m v ip s → 2 <= m → 0 <= bn < MAXFILE → lbmapped (m - 2) v ip bn s Q → wp (l_bmap (iptr i) bn) E Q s.
Proof.
  intros Hl Hm Hbn HQ. destruct (decide (bn < NDIRECT)).
  { unfold l_bmap. rewrite (proj2 (Z.ltb_lt _ _)) by lia. eapply l_bmap_direct; [exact Hl|lia|lia|]. intros a v' ip' s' Hl' Hgr Ha Hnz Hfr. eapply HQ; try done. eapply linv_weaken; [done|lia]. }
  eapply wp_eq; [apply l_bmap_indirect; lia|]. wp_steps. eapply l_bmap_ind; [exact Hl|lia|]. intros v1 ip1 s1 Hl1 Hgr1 Hi1 Ha1 Hf1.
  eapply l_bmap_entry; [exact Hl1|lia|done|lia|]. intros a v' ip' s' Hl' Hgr Ha Hnz Hfr. eapply HQ; [eapply linv_weaken; [done|lia]|by eapply grows_trans|done|done|by rewrite Hf1].
Qed.
(** A block that the file has is found without any change. *)
Lemma l_bmap_found m v ip bn s (Q : Z → opfs → Prop) : linv m v ip s → 0 <= bn < MAXFILE → addr_of v ip bn ≠ 0 → Q (addr_of v ip bn) s → wp (l_bmap (iptr i) bn) E Q s.
Proof.
  intros Hl Hbn Hnz HQ. pose proof (linv_bounds _ _ _ _ Hl) as Hi. pose proof Hl as [Hmem HN _ Hg Hs Hf Hwf]. destruct (linv_iblock _ _ _ _ Hl) as (_ & Hib & Hbm & Hst).
  destruct (Z.ltb_spec bn NDIRECT) as [Hd|Hd].
  - unfold l_bmap. rewrite (proj2 (Z.ltb_lt _ _)) by lia. wp_steps. eapply wp_ld_addr; [exact Hmem|lia|lia|]. unfold addr_of in Hnz, HQ. rewrite (proj2 (Z.ltb_lt _ _)) in Hnz, HQ by lia.
    rewrite (proj2 (Z.eqb_neq _ _)) by done. by wp_steps.
  - assert (Hin : ind ip ≠ 0) by (intros Hz; apply Hnz; unfold addr_of; rewrite (proj2 (Z.ltb_ge _ _)) by lia; by rewrite Hz).
    eapply wp_eq; [apply l_bmap_indirect; lia|]. unfold l_get_addr, l_get_entry. wp_steps. eapply wp_ld_addr; [exact Hmem|lia|unfold NDIRECT; lia|]. fold (ind ip).
    rewrite (proj2 (Z.eqb_neq _ _)) by done. wp_steps. destruct (fw_ind _ _ _ Hwf Hin) as [Hir _]. apply wp_getb; [apply Hmem|lia|]. rewrite (lm_view _ _ _ Hmem) by lia.
    rewrite <-(addr_of_ind v ip bn) by done. rewrite (proj2 (Z.eqb_neq _ _)) by done. by wp_steps.
Qed.

(** *** Reading *)

Lemma imin_piece n t off : 0 <= n - t < 2 ^ 31 → imin (n - t) (BSIZE - off mod BSIZE) = piece n t off.
Proof. intros. unfold imin, piece. pose proof (Z.mod_pos_bound off BSIZE eq_refl). unfold BSIZE in *. by rewrite !i32_small by lia. Qed.

Lemma iread_loop_ok m size v ip s : linv m v ip s → covered v ip size → ∀ fuel n off t acc (Q : Z * list Z → opfs → Prop),
  0 <= off → 0 <= t <= n → n <= size → off + (n - t) <= size → enough off (n - t) fuel → Q (n, acc ++ fbytes v ip off (n - t)) s → wp (iread_loop (iptr i) off n t acc fuel) E Q s.
Proof.
  intros Hl Hc. pose proof Hl as [Hmem HN _ Hg Hs Hf Hwf]. destruct (linv_iblock _ _ _ _ Hl) as (_ & Hib & Hbm & Hst). pose proof Hc as [Hmax _]. rewrite MAXFILE_val in Hmax. unfold BSIZE in Hmax.
  induction fuel as [|fuel IH]; intros n off t acc Q Ho Ht Hn Hsz Hen HQ; cbn [iread_loop]; (destruct (Z.ltb_spec t n) as [Hlt|Hge];
    [|assert (t = n) as -> by lia; rewrite Z.sub_diag, app_nil_r in HQ; by wp_steps]).
  { apply enough_0 in Hen. lia. }
  destruct (covered_block v ip size off n t Hc Ho Hlt Hsz) as [Hbn Hnz]. destruct (piece_range n t off Hlt) as [Hp1 Hp2]. destruct (fw_addr _ _ _ Hwf _ Hbn Hnz) as [Hd _].
  wp_steps. eapply l_bmap_found; [exact Hl|done|done|]. wp_steps. eapply wp_SBLK; [exact Hl|]. erewrite valid_data by done. cbn [negb]. wp_steps. rewrite imin_piece by lia.
  rewrite (u32_small (piece n t off)) by lia. destruct Hd as [Hd _]. apply wp_getb; [apply Hmem|lia|]. rewrite (lm_view _ _ _ Hmem) by lia. rewrite (proj2 (Z.ltb_ge _ _)) by done.
  rewrite !u32_small by lia. apply IH; [lia|lia|lia|lia|by apply enough_piece|]. rewrite bslice_fbytes; [|lia|lia|done|apply Hmem].
  rewrite <-app_assoc, <-fbytes_app by lia. by replace (piece n t off + (n - (t + piece n t off))) with (n - t) by lia.
Qed.
(** [iread] is [readi]. *)
Lemma iread_ok m v ip s n off (Q : Z * list Z → opfs → Prop) : linv m v ip s → covered v ip (i_size ip) → i_type ip ≠ T_DEV → 0 <= off <= i_size ip → 0 <= n → off + n < 2 ^ 32 →
  Q (read_count (i_size ip) off n, fbytes v ip off (read_count (i_size ip) off n)) s → wp (iread (iptr i) n off) E Q s.
Proof.
  intros Hl Hc Hty Ho Hn Hov HQ. pose proof (linv_bounds _ _ _ _ Hl) as Hi. pose proof (lv_mem _ _ _ _ Hl) as Hmem. unfold iread. wp_steps. eapply wp_ld_type; [exact Hmem|lia|].
  rewrite (proj2 (Z.eqb_neq _ _)) by done. wp_steps. eapply wp_ld_size; [exact Hmem|lia|]. assert (Hu : u32 (off + n) = off + n) by (apply u32_small; lia).
  rewrite Hu, (proj2 (Z.ltb_ge _ off)), (proj2 (Z.ltb_ge (off + n) off)) by lia. cbn [orb]. cbv zeta. wp_steps. unfold read_count in HQ. rewrite Hu in HQ. set (c := if i_size ip <? off + n then _ else _) in *.
  assert (Hcr : 0 <= c ∧ off + c <= i_size ip) by (unfold c; destruct (Z.ltb_spec (i_size ip) (off + n)); lia). pose proof Hc as [Hmax _]. rewrite MAXFILE_val in Hmax. unfold BSIZE in Hmax.
  eapply iread_loop_ok; [exact Hl|exact Hc|lia|lia|lia|lia|rewrite Z.sub_0_r; apply enough_init; lia|]. wp_steps. cbn [fst snd app]. rewrite i32_small by lia. by rewrite Z.sub_0_r.
Qed.

(** *** Writing *)

(** [c] iterations allocate at most [2 * c] blocks. *)
Lemma iwrite_loop_ok size off src v0 ip0 n : fs_geo st v0 → 0 <= off <= size → off + n <= MAXFILE * BSIZE → n <= Z.of_nat (length src) →
  ∀ c fuel t v ip m s (Q : Z * Z → opfs → Prop), (c <= fuel)%nat → enough (off + t) (n - t) c → linv m v ip s → wrote size off src v0 ip0 t v ip → 2 * Z.of_nat c <= m → 0 <= t <= n →
  (∀ v' ip' s', linv (m - 2 * Z.of_nat c) v' ip' s' → wrote size off src v0 ip0 n v' ip' → lframe s s' → Q (n, off + n) s') →
  wp (iwrite_loop (iptr i) src (off + t) n t fuel) E Q s.
Proof.
  intros Hg0 Ho Hmax Hsrc. induction c as [|c IH]; intros fuel t v ip m s Q Hfu Hen Hl Hw Hm Ht HQ.
  { apply enough_0 in Hen. assert (t = n) as -> by lia. destruct fuel; cbn [iwrite_loop]; rewrite Z.ltb_irrefl; wp_steps; eapply HQ; try done; by eapply linv_weaken; [exact Hl|lia..]. }
  destruct fuel as [|fuel]; [lia|]. cbn [iwrite_loop]. destruct (Z.ltb_spec t n) as [Hlt|Hge].
  2:{ assert (t = n) as -> by lia. wp_steps. eapply HQ; [|done|done]. eapply linv_weaken; [exact Hl|lia..]. }
  destruct (piece_range n t (off + t) Hlt) as [Hp1 Hp2]. pose proof (Z.mod_pos_bound (off + t) BSIZE eq_refl) as Hmod.
  assert (Hbn : 0 <= (off + t) / BSIZE < MAXFILE).
  { pose proof (Z.div_pos (off + t) BSIZE ltac:(lia) eq_refl). pose proof (Z.div_mod (off + t) BSIZE ltac:(done)). rewrite MAXFILE_val in *. unfold BSIZE in *. lia. }
  wp_steps. eapply l_bmap_ok; [exact Hl|lia|exact Hbn|]. intros a v1 ip1 s1 Hl1 Hgr1 Ha Hnz Hfr1. wp_steps. pose proof Hl1 as [Hmem1 _ Hi1 Hg1 _ Hf1 Hwf1].
  destruct (linv_iblock _ _ _ _ Hl1) as (_ & Hib & Hbm & Hst). assert (Hd : data_block st v1 a) by (rewrite <-Ha in Hnz |- *; by apply Hwf1).
  eapply wp_SBLK; [exact Hl1|]. erewrite valid_data by done. cbn [negb]. wp_steps. pose proof Hmax as Hmax'. rewrite MAXFILE_val in Hmax'. unfold BSIZE in Hmax'. rewrite imin_piece by lia.
  set (q := piece n t (off + t)) in *. rewrite (u32_small q) by lia. destruct Hd as [Hd Hdu]. apply wp_getb; [apply Hmem1|lia|]. rewrite (lm_view _ _ _ Hmem1) by lia. rewrite (proj2 (Z.ltb_ge _ _)) by done.
  assert (Hls : Z.of_nat (length (bslice (Z.to_nat t) (Z.to_nat q) src)) = q) by (rewrite length_bslice; lia). assert (Hl1a : length (v1 a) = Z.to_nat BSIZE) by apply Hmem1. wp_steps.
  eapply lm_putb; [exact Hmem1|lia|intros j Hj; pose proof (iblock_below _ _ _ _ _ Hl1 Hj); lia|done|rewrite length_bsplice by (rewrite Hl1a; lia); done|]. intros s2 Hm2 Hf2.
  fold (view_piece v1 a (bslice (Z.to_nat t) (Z.to_nat q) src) ((off + t) mod BSIZE)) in Hm2. rewrite !u32_small by lia. rewrite <-Z.add_assoc.
  destruct (piece_wf st v1 ip1 ((off + t) / BSIZE) a (bslice (Z.to_nat t) (Z.to_nat q) src) ((off + t) mod BSIZE)) as [Hg2 Hwf2]; try done.
  destruct (piece_not_meta st v1 ip1 ((off + t) / BSIZE) a) as [Hm1' Hm2']; try done.
  eapply (IH fuel (t + q) _ ip1 (m - 2)); [lia|rewrite Z.add_assoc; by apply enough_piece; [lia|..]| |eapply wrote_step; try done; lia|lia|lia|].
  - destruct Hl1 as [_ HN1 _ _ Hs1 _ _]. split; try done.
    + unfold view_piece. by rewrite sbv_ne.
    + unfold view_piece. rewrite bitmap_block_ne, sbv_ne by done. done.
    + unfold view_piece. rewrite (nfree_le st v1); [lia|]. intros x _. by apply used_ne.
  - intros v' ip' s' Hl' Hw' Hfr'. eapply HQ; [eapply linv_weaken; [exact Hl'|lia..]|done|by rewrite Hfr1, Hf2].
Qed.

(** [written] does not look at the inode's block. *)
Lemma written_agree off src v ip v1 v2 ip1 : fs_geo st v1 → file_wf st v1 ip1 → (∀ x, 0 <= x < FSSIZE → x ≠ IBLOCK (i_inum ip) → v2 x = v1 x) → IBLOCK (i_inum ip) < bitmap_block v1 →
  i_size ip1 <= MAXFILE * BSIZE → written off src v ip v1 ip1 → written off src v ip v2 ip1.
Proof.
  intros Hg Hwf Hag Hib Hmax [Hs Hmt Hc Hb Hfr]. pose proof (g_start _ _ Hg). pose proof (g_size _ _ Hg).
  assert (Ha : ∀ bn, addr_of v2 ip1 bn = addr_of v1 ip1 bn).
  { intros bn. unfold addr_of. destruct (bn <? NDIRECT); [done|]. destruct (Z.eqb_spec (ind ip1) 0); [done|]. destruct (fw_ind _ _ _ Hwf) as [Hr _]; [done|].
    pose proof (fs_geo_bm _ _ Hg). by rewrite Hag by lia. }
  split; try done.
  - destruct Hc as [Hc1 Hc2]. split; [done|]. intros bn H1 H2. rewrite Ha. by apply Hc2.
  - intros o Ho. rewrite <-Hb by done. unfold fbyte. rewrite Ha. pose proof (Z.div_mod o BSIZE ltac:(done)). pose proof (Z.mod_pos_bound o BSIZE eq_refl).
    assert (Hbn : 0 <= o / BSIZE < MAXFILE) by (split; [apply Z.div_pos; [lia|done]|]; rewrite MAXFILE_val in *; unfold BSIZE in *; lia).
    assert (Hnz : addr_of v1 ip1 (o / BSIZE) ≠ 0) by (apply Hc; lia). destruct (fw_addr _ _ _ Hwf _ Hbn Hnz) as [[Hr _] _]. pose proof (fs_geo_bm _ _ Hg). by rewrite Hag by lia.
  - intros x Hx Hu Hbm Hmi Hxi. rewrite Hag by lia. by apply Hfr.
Qed.

(** [iwrite] is [writei]. *)
Lemma iwrite_ok c m v ip s off src (Q : Z → opfs → Prop) : linv m v ip s → covered v ip (i_size ip) → i_type ip ≠ T_DEV → 0 <= off <= i_size ip →
  off + Z.of_nat (length src) <= MAXFILE * BSIZE → enough off (Z.of_nat (length src)) c → (c <= Z.to_nat (Z.of_nat (length src) / BSIZE + 2))%nat → 2 * Z.of_nat c <= m →
  (∀ v' ip' s', linv (m - 2 * Z.of_nat c) v' ip' s' → written off src v ip (blk (l_img s')) ip' → lframe s s' → Q (Z.of_nat (length src)) s') →
  wp (iwrite (iptr i) src (Z.of_nat (length src)) off) E Q s.
Proof.
  intros Hl Hc Hty Ho Hmax Hen Hfu Hm HQ. set (n := Z.of_nat (length src)) in *. pose proof (linv_bounds _ _ _ _ Hl) as Hi. pose proof (lv_mem _ _ _ _ Hl) as Hmem.
  assert (Hnum : i_inum ip = i) by (by rewrite <-(lm_ino _ _ _ Hmem)).
  unfold iwrite. wp_steps. eapply wp_ld_type; [exact Hmem|lia|]. rewrite (proj2 (Z.eqb_neq _ _)) by done. wp_steps. eapply wp_ld_size; [exact Hmem|lia|].
  pose proof Hmax as Hmax'. rewrite MAXFILE_val in Hmax'. unfold BSIZE in Hmax'. rewrite (u32_small (off + n)) by (unfold n in *; lia).
  rewrite (proj2 (Z.ltb_ge (i_size ip) off)), (proj2 (Z.ltb_ge (off + n) off)) by lia. cbn [orb]. rewrite (proj2 (Z.ltb_ge _ (off + n))) by (unfold MAXFILESIZE; lia). wp_steps. rewrite <-(Z.add_0_r off) at 1.
  eapply (iwrite_loop_ok (i_size ip) off src v ip n); [apply Hl|lia|done|done|exact Hfu|by rewrite Z.add_0_r, Z.sub_0_r|exact Hl|by apply wrote_init; [|lia]|lia|lia|].
  intros v1 ip1 s1 Hl1 Hw1 Hfr1. wp_steps. pose proof Hl1 as [Hmem1 HN1 _ Hg1 Hs1 Hf1 Hwf1]. eapply wp_ld_size; [exact Hmem1|lia|]. cbn [fst snd]. pose proof (wr_ip _ _ _ _ _ _ _ _ Hw1) as Hipe.
  assert (Hsz : i_size ip1 = i_size ip) by (by rewrite Hipe). rewrite Hsz. rewrite (i32_small n) by (unfold n in *; lia). pose proof (proj1 Hc) as Hcm. pose proof (iblock_below _ _ _ _ i Hl1 ltac:(lia)) as Hib.
  destruct ((0 <? n) && (i_size ip <? off + n)) eqn:Hgrow; cbn [when]; wp_steps.
  - eapply lm_st_size; [exact Hmem1|lia|apply u32_small; unfold n in *; lia|]. intros s2 Hm2 Hf2. wp_steps. set (ip2 := set_i_size (off + n) ip1) in *.
    assert (Hwr : written off src v ip (view_iupdate v1 ip2) ip2) by (eapply written_grown; unfold n in *; (done || lia || rewrite Hnum, (lv_inodes _ _ _ _ Hl); lia)).
    assert (Hn2 : i_inum ip2 = i) by (unfold ip2; cbn [i_inum set_i_size]; by rewrite Hipe). pose proof (iblock_pos ltac:(lia)) as Hip. pose proof (set_size_wf st v1 ip1 (off + n) Hwf1) as Hwf2. fold ip2 in Hwf2.
    apply (HQ v1 ip2); [split; (done || lia)| |by rewrite Hfr1]. unfold view_iupdate in Hwr. rewrite Hn2 in Hwr.
    eapply written_agree; [| |rewrite Hnum; intros x Hx Hxi; rewrite (lm_view _ _ _ Hm2 x Hx Hxi); symmetry; by apply vupd_ne| | |exact Hwr].
    + apply fs_geo_upd; [done|lia|lia].
    + apply file_wf_upd; [done|lia|lia|]. destruct (decide (ind ip2 = 0)); [lia|]. destruct (fw_ind _ _ _ Hwf2); [done|lia].
    + rewrite Hnum, bitmap_block_ne by lia. done.
    + unfold ip2. cbn [i_size set_i_size]. lia.
  - apply (HQ v1 ip1); [done| |done]. eapply (written_agree off src v ip v1); [done|done|rewrite Hnum; apply Hmem1|by rewrite Hnum|lia|].
    apply written_same; [exact Hw1|lia|unfold n in *; lia].
Qed.
End image.

(** ** The properties of files in an image *)

(** The disk without the inode's block is the image as well. *)
Lemma linv_image N st i m v ip s : linv N st i m v ip s → linv N st i m (blk (l_img s)) ip s.
Proof.
  intros Hl. destruct (linv_iblock _ _ _ _ _ _ _ Hl) as (_ & Hib & Hbm & Hst). destruct Hl as [[Hw Hv Hino Hlen] HN Hi Hg Hs Hf Hwf]. set (v' := blk (l_img s)) in *.
  assert (H1 : v' 1 = v 1) by (apply Hv; unfold FSSIZE; lia). pose proof (bitmap_block_eq v v' H1) as Hbe. assert (Hsb : sbv v' = sbv v) by (unfold sbv; by rewrite H1).
  assert (Hu : ∀ x, used v' x = used v x) by (intros x; unfold used; rewrite Hbe, Hv by lia; done). assert (Hdb : ∀ x, data_block st v x → data_block st v' x) by (intros x [? ?]; split; [by rewrite Hbe|by rewrite Hu]).
  assert (Ha : ∀ bn, addr_of v' ip bn = addr_of v ip bn).
  { intros bn. unfold addr_of. destruct (bn <? NDIRECT); [done|]. destruct (Z.eqb_spec (ind ip) 0); [done|]. destruct (fw_ind _ _ _ Hwf) as [Hr _]; [done|]. by rewrite Hv by lia. }
  split; rewrite ?Hsb, ?Hbe; try done.
  - split; try done. intros x. by apply length_blk.
  - destruct Hg as [? ? ? ? Hmeta]. split; rewrite ?Hsb, ?Hbe; try done. intros b Hb. rewrite Hu. by apply Hmeta.
  - by rewrite (nfree_le st v) by (intros; apply Hu).
  - destruct Hwf as [? ? Hin Had Hinj]. split; try done; [by intros; apply Hdb, Hin| |].
    + intros bn Hbn. rewrite Ha. intros Hnz. destruct (Had bn Hbn Hnz). split; [by apply Hdb|done].
    + intros bn bn' Hbn Hbn'. rewrite !Ha. by apply Hinj.
Qed.

(** Inode [i] of the image is a file, and [m] blocks are free. *)
Definition image_file (st m i : Z) (s : opfs) : Prop :=
  let v := blk (l_img s) in linv (sb_ninodes (sbv v)) st i m v (ino v i) s.

Lemma image_file_sb N st m i v ip s : linv N st i m v ip s → image_file st m i s ∧ ip = ino (blk (l_img s)) i.
Proof.
  intros Hl%linv_image. pose proof (lm_ino _ _ _ _ (lv_mem _ _ _ _ _ _ _ Hl)) as Hip. split; [|done]. unfold image_file. by rewrite (lv_inodes _ _ _ _ _ _ _ Hl), Hip.
Qed.

(** C31: [iwrite] does to an image what [writei] does to a disk, by the same
    specification: the bytes are in the file where they were written, the
    others and every block of other files are as before, the size grows to the
    end of the write, and no other inode of the image changes.  A following
    [iread] returns what was written, and changes nothing. *)
Theorem iwrite_iread st c m i s off src (Hl : image_file st m i s) (Hc : let v := blk (l_img s) in covered v (ino v i) (i_size (ino v i)))
  (Hty : i_type (ino (blk (l_img s)) i) ≠ T_DEV) (Ho : 0 <= off <= i_size (ino (blk (l_img s)) i))
  (Hmax : off + Z.of_nat (length src) <= MAXFILE * BSIZE) (Hen : enough off (Z.of_nat (length src)) c)
  (Hfu : (c <= Z.to_nat (Z.of_nat (length src) / BSIZE + 2))%nat) (Hm : 2 * Z.of_nat c <= m) :
  let v := blk (l_img s) in let n := Z.of_nat (length src) in
  ∃ s', iwrite (iptr i) src n off s = Ok n s' ∧ let v' := blk (l_img s') in
    image_file st (m - 2 * Z.of_nat c) i s' ∧ written off src v (ino v i) v' (ino v' i) ∧
    (∀ j, 1 <= j < sb_ninodes (sbv v) → j ≠ i → ino v' j = ino v j) ∧ iread (iptr i) n off s' = Ok (n, src) s'.
Proof.
  intros v n. fold v in Hc, Hty, Ho. fold n in Hmax, Hen, Hfu. assert (Hn0 : 0 <= n) by (unfold n; lia). destruct (wp_ok (iwrite (iptr i) src n off) (λ r s', r = n ∧ ∃ v' ip', linv (sb_ninodes (sbv v)) st i (m - 2 * Z.of_nat c) v' ip' s' ∧
    written off src v (ino v i) (blk (l_img s')) ip' ∧ lframe (sb_ninodes (sbv v)) i s s') s) as (r & s' & Hr & -> & v' & ip' & Hl' & Hw' & Hfr').
  { eapply (iwrite_ok no_panic _ st i c); [exact Hl|done..|]. eauto 10. }
  exists s'. split; [done|]. cbv zeta. destruct (image_file_sb _ _ _ _ _ _ _ Hl') as [Hf' He]. rewrite <-He. split; [done|]. split; [done|]. split; [apply Hfr'|].
  pose proof (wt_size _ _ _ _ _ _ Hw') as Hsz. unfold new_size in Hsz. fold n in Hsz. rewrite MAXFILE_val in Hmax. unfold BSIZE in Hmax. assert (Hle : off + n <= i_size ip') by (destruct (Z.ltb_spec 0 n); lia).
  assert (Hty' : i_type ip' ≠ T_DEV) by (pose proof (wt_meta _ _ _ _ _ _ Hw') as Hmt; unfold v in *; by rewrite <-Hmt in Hty).
  destruct (wp_ok (iread (iptr i) n off) (λ r s1, r = (n, src) ∧ s1 = s') s') as (r & s1 & Hr1 & -> & ->); [|done].
  unfold image_file in Hf'. rewrite <-He in Hf'. eapply iread_ok; [exact Hf'|apply Hw'|done|lia|lia|lia|]. unfold read_count. rewrite u32_small by lia. rewrite (proj2 (Z.ltb_ge _ _)) by lia.
  split; [|done]. f_equal. eapply fbytes_written; [done|lia|done].
Qed.

(** *** The files of mkfs *)

Lemma nfree_from st v fb : 0 <= fb <= st → (∀ b, fb <= b < st → used v b = false) → st - fb <= nfree st v.
Proof.
  intros Hfb Hu. unfold nfree. replace st with (fb + (st - fb)) at 2 by lia. rewrite seqZ_app by lia. rewrite filter_app, length_app, Z.add_0_l.
  assert (Hall : filter (λ b, used v b = false) (seqZ fb (st - fb)) = seqZ fb (st - fb)).
  { assert (Hin : Forall (λ x, used v x = false) (seqZ fb (st - fb))) by (apply Forall_forall; intros x Hx%elem_of_seqZ; apply Hu; lia).
    induction Hin as [|x l Hx _ IH]; [done|]. by rewrite filter_cons, decide_True, IH. }
  rewrite Hall, length_seqZ. lia.
Qed.
Lemma mkfs_image_file given D img out inp r i m : image_of given D img → fits given → 1 <= i < Z.of_nat (length given) + 2 → 0 <= m <= nblocks - data_blocks given →
  image_file (FSSIZE - nlog) m i (mkOpfs img out inp r).
Proof.
  intros Him Hf Hi Hm. pose proof nmeta_val as Hnm. pose proof (view_free_block given D img Him Hf) as Hfb. pose proof (ft_inodes _ Hf). pose proof (o_img _ _ _ _ _ _ (view_data given D img Him)) as Hw.
  unfold image_file. cbn [l_img]. rewrite (view_sb given D img Him). cbn [sb_ninodes]. split; rewrite ?(view_sb given D img Him), ?(view_bitmap given D img Him); try done; try lia.
  - split; try done. intros x. by apply length_blk.
  - by apply (view_geo given D).
  - split; [lia|]. etrans; [|apply (nfree_from _ _ (nmeta + data_blocks given))]; [|lia|].
    + rewrite nmeta_val. change nblocks with 941 in Hm. unfold FSSIZE, nlog, LOGSIZE, MAXOPBLOCKS in *. lia.
    + intros b Hb. rewrite (view_used given D img Him Hf) by (unfold nlog, LOGSIZE, MAXOPBLOCKS, FSSIZE in *; lia). apply Z.ltb_ge. lia.
  - by apply (view_file_wf given D).
Qed.

Lemma iwrite_iread_witness : ∃ s s', iwrite (iptr 3) [9; 8] 2 1 s = Ok 2 s' ∧ fbytes (blk (l_img s)) (ino (blk (l_img s)) 3) 0 3 = [4; 5; 6] ∧ iread (iptr 3) 2 1 s' = Ok (2, [9; 8]) s'.
Proof.
  destruct (mk_main_ok demo_given demo_fits) as (D & s0 & _ & Him). set (s := mkOpfs (fs_img s0) [] [] 0).
  destruct (view_file demo_given D (fs_img s0) Him demo_fits 3 ltac:(vm_compute; done)) as (Hs & Hc & Hbs). change (length (contents demo_given 3)) with 3%nat in Hs.
  destruct (iwrite_iread (FSSIZE - nlog) 1 2 3 s 1 [9; 8]) as (s' & Hr & _ & _ & _ & Hrd).
  - apply (mkfs_image_file demo_given D); [exact Him|exact demo_fits|vm_compute; done|split; vm_compute; discriminate].
  - exact Hc.
  - destruct (view_fields demo_given D (fs_img s0) Him demo_fits 3 ltac:(vm_compute; done)) as [Ht _]. cbn [l_img s]. rewrite Ht. done.
  - cbn [l_img s]. rewrite Hs. lia.
  - vm_compute. discriminate.
  - right. vm_compute. discriminate.
  - vm_compute. lia.
  - done.
  - exists s, s'. split; [exact Hr|]. split; [|exact Hrd]. rewrite Hs in Hbs. exact Hbs.
Defined.
