(* ===== verification/Opfs.v ===== *)
(** * Opfs: the image utility, tools/opfs.c

    Every command of opfs is a function of its arguments that returns the exit
    status.  What is printed is recorded as the calls of [printf] and [write]
    in order; the messages for the standard error are left out.  A file that
    cannot be opened, examined or mapped is an argument of [opfs_main].  An
    image that [fatal] leaves half changed is not described: the outcome is
    [Panic]. *)

From stdpp Require Import prelude functions gmap strings.
From S2P Require Import Prelude Types Spinlock Sched Ide Bio Cstr Log Fs Cprintf Libfs.
Open Scope Z_scope.

Definition BUFSIZE : Z := 1024.
Definition EXIT_SUCCESS : Z := 0.
Definition EXIT_FAILURE : Z := 1.

(** [f(img, root_inode, x)]. *)
Definition at_root {A B} (f : Z → A → LF B) (x : A) : LF B := rp ← gets root_inode; f rp x.

Definition emit (e : oevent) : LF unit := modify (λ s, mkOpfs (l_img s) (l_out s ++ [e]) (l_in s) (root_inode s)).
Definition oprintf (fmt : string) (args : list oarg) : LF unit := emit (OPrintf fmt args).
(** An argument for [%d]. *)
Definition num (x : Z) : oarg := ONum (i32 x).

(** ** Inspecting *)

Definition used_bits (d : block) : Z := fold_right (λ c n, bitcount c + n) 0 d.
Definition count_types (t : Z) (d : block) : Z :=
  Z.of_nat (length (filter (λ i, i16 (get16 (Z.to_nat (i * DINODE_SIZE)) d) = t) (seqZ 0 IPB))).
(** The sum of [f] over the blocks [bs]. *)
Fixpoint sum_blocks (f : block → Z) (bs : list Z) : LF Z :=
  match bs with
  | [] => mret 0
  | b :: bs => d ← getb b; n ← sum_blocks f bs; mret (f d + n)
  end.
Definition do_diskinfo (argv : list (list Z)) : LF Z :=
  if negb (length argv =? 0)%nat then mret EXIT_FAILURE else
  sb ← SBLK;
  let N := sb_size sb in
  let Ni := sb_ninodes sb / IPB + 1 in
  let Nm := N / (BSIZE * 8) + 1 in
  let Nd := sb_nblocks sb in
  let Nl := sb_nlog sb in
  oprintf "total blocks: %d (%d bytes)\n" [num N; num (N * BSIZE)];;
  oprintf "inode blocks: #%d-#%d (%d blocks, %d inodes)\n" [num 2; num (Ni + 1); num Ni; num (sb_ninodes sb)];;
  oprintf "bitmap blocks: #%d-#%d (%d blocks)\n" [num (Ni + 2); num (Ni + Nm + 1); num Nm];;
  oprintf "data blocks: #%d-#%d (%d blocks)\n" [num (Ni + Nm + 2); num (Ni + Nm + Nd + 1); num Nd];;
  oprintf "log blocks: #%d-#%d (%d blocks)\n" [num (Ni + Nm + Nd + 2); num (Ni + Nm + Nd + Nl + 1); num Nl];;
  oprintf "maximum file size (bytes): %zu\n" [ONum MAXFILESIZE];;
  nblocks ← sum_blocks used_bits (seqZ (Ni + 2) Nm);
  oprintf "# of used blocks: %d\n" [num nblocks];;
  n_dirs ← sum_blocks (count_types T_DIR) (seqZ 2 Ni);
  n_files ← sum_blocks (count_types T_FILE) (seqZ 2 Ni);
  n_devs ← sum_blocks (count_types T_DEV) (seqZ 2 Ni);
  oprintf "# of used inodes: %d (dirs: %d, files: %d, devs: %d)\n"
    [num (n_dirs + n_files + n_devs); num n_dirs; num n_files; num n_devs];;
  mret EXIT_SUCCESS.

(** The loops of [info] print block numbers up to the first zero, and count
    them. *)
Fixpoint info_direct (ip i : Z) (n : nat) : LF Z :=
  match n with
  | O => mret 0
  | S n => a ← ld_addr ip i;
           if a =? 0 then mret 0 else
           oprintf " %d" [num a];; k ← info_direct ip (i + 1) n; mret (1 + k)
  end.
Fixpoint info_indirect (iblock : block) (i : Z) (n : nat) : LF Z :=
  match n with
  | O => mret 0
  | S n => let a := get32 (Z.to_nat (4 * i)) iblock in
           if a =? 0 then mret 0 else
           oprintf " %d" [num a];; k ← info_indirect iblock (i + 1) n; mret (1 + k)
  end.
Definition do_info (argv : list (list Z)) : LF Z :=
  match argv with
  | [path] =>
      ip ← at_root ilookup path;
      if ip =? 0 then mret EXIT_FAILURE else
      inum ← geti ip;
      oprintf "inode: %d\n" [num inum];;
      ty ← ld_type ip;
      oprintf "type: %d (%s)\n" [num ty; OStr (str (typename ty))];;
      nlink ← ld_nlink ip;
      oprintf "nlink: %d\n" [num nlink];;
      size ← ld_size ip;
      oprintf "size: %d\n" [num size];;
      (if 0 <? size then
         oprintf "data blocks:" [];;
         bcount ← info_direct ip 0 (Z.to_nat NDIRECT);
         iaddr ← ld_addr ip NDIRECT;
         bcount ← (if negb (iaddr =? 0) then
                     oprintf " %d" [num iaddr];;
                     iblock ← getb iaddr;
                     k ← info_indirect iblock 0 (Z.to_nat (BSIZE / 4));
                     mret (bcount + 1 + k)
                   else mret bcount);
         oprintf "\n" [];;
         oprintf "# of data blocks: %d\n" [num bcount]
       else mret ());;
      mret EXIT_SUCCESS
  | _ => mret EXIT_FAILURE
  end.

(** [false] on a read error.  The name is copied with [strncpy] and printed up
    to its NUL. *)
Fixpoint ls_loop (ip off : Z) (fuel : nat) : LF bool :=
  size ← ld_size ip;
  if off <? size then
    match fuel with
    | O => spin
    | S fuel =>
        r ← iread ip DIRENT_SIZE off;
        if negb (r.1 =? DIRENT_SIZE) then mret false else
        let de := de_of_bytes r.2 in
        if de_inum de =? 0 then ls_loop ip (u32 (off + DIRENT_SIZE)) fuel else
        let name := cstr (cells (de_name de)) DIRSIZ in
        p ← l_iget (de_inum de);
        ty ← ld_type p;
        psize ← ld_size p;
        oprintf "%s %d %d %d\n" [OStr name; num ty; num (de_inum de); num psize];;
        ls_loop ip (u32 (off + DIRENT_SIZE)) fuel
    end
  else mret true.
Definition do_ls (argv : list (list Z)) : LF Z :=
  match argv with
  | [path] =>
      ip ← at_root ilookup path;
      if ip =? 0 then mret EXIT_FAILURE else
      ty ← ld_type ip;
      if ty =? T_DIR then
        size ← ld_size ip;
        good ← ls_loop ip 0 (Z.to_nat (size / DIRENT_SIZE + 1));
        mret (if good : bool then EXIT_SUCCESS else EXIT_FAILURE)
      else
        inum ← geti ip;
        size ← ld_size ip;
        oprintf "%s %d %d %d\n" [OStr path; num ty; num inum; num size];;
        mret EXIT_SUCCESS
  | _ => mret EXIT_FAILURE
  end.

(** ** Copying *)

Fixpoint get_loop (ip off : Z) (fuel : nat) : LF Z :=
  size ← ld_size ip;
  if off <? size then
    match fuel with
    | O => spin
    | S fuel =>
        r ← iread ip BUFSIZE off;
        if r.1 <? 0 then mret EXIT_FAILURE else
        emit (OWrite r.2);;
        get_loop ip (u32 (off + BUFSIZE)) fuel
    end
  else mret EXIT_SUCCESS.
Definition do_get (argv : list (list Z)) : LF Z :=
  match argv with
  | [path] =>
      ip ← at_root ilookup path;
      if ip =? 0 then mret EXIT_FAILURE else
      size ← ld_size ip;
      get_loop ip 0 (Z.to_nat (size / BUFSIZE + 1))
  | _ => mret EXIT_FAILURE
  end.

(** [read(0, buf, BUFSIZE)]. *)
Definition read_stdin : LF (option (list Z)) :=
  s ← get;
  match l_in s with
  | [] => mret (Some [])
  | r :: rest => modify (λ s, mkOpfs (l_img s) (l_out s) rest (root_inode s));; mret (take (Z.to_nat BUFSIZE) <$> r)
  end.
Fixpoint put_loop (ip off : Z) (fuel : nat) : LF Z :=
  if off <? MAXFILESIZE then
    match fuel with
    | O => spin
    | S fuel =>
        r ← read_stdin;
        match r with
        | None => mret EXIT_FAILURE
        | Some buf =>
            let n := Z.of_nat (length buf) in
            w ← iwrite ip buf n off;
            if negb (w =? n) then mret EXIT_FAILURE else
            if n <? BUFSIZE then mret EXIT_SUCCESS else
            put_loop ip (u32 (off + BUFSIZE)) fuel
        end
    end
  else mret EXIT_SUCCESS.
Definition put_fuel : nat := Z.to_nat (MAXFILESIZE / BUFSIZE + 1).
Definition do_put (argv : list (list Z)) : LF Z :=
  match argv with
  | [path] =>
      ip ← at_root ilookup path;
      if ip =? 0 then
        r ← at_root (λ rp path, icreat rp path T_FILE) path;
        if r.1 =? 0 then mret EXIT_FAILURE else
        put_loop r.1 0 put_fuel
      else
        ty ← ld_type ip;
        if negb (ty =? T_FILE) then mret EXIT_FAILURE else
        itruncate ip 0;;
        put_loop ip 0 put_fuel
  | _ => mret EXIT_FAILURE
  end.

Definition do_rm (argv : list (list Z)) : LF Z :=
  match argv with
  | [path] =>
      ip ← at_root ilookup path;
      if ip =? 0 then mret EXIT_FAILURE else
      ty ← ld_type ip;
      if ty =? T_DIR then mret EXIT_FAILURE else
      r ← at_root iunlink path;
      mret (if r <? 0 then EXIT_FAILURE else EXIT_SUCCESS)
  | _ => mret EXIT_FAILURE
  end.

Fixpoint cp_loop (sip dip off : Z) (fuel : nat) : LF Z :=
  size ← ld_size sip;
  if off <? size then
    match fuel with
    | O => spin
    | S fuel =>
        r ← iread sip BUFSIZE off;
        if r.1 <? 0 then mret EXIT_FAILURE else
        w ← iwrite dip r.2 r.1 off;
        if negb (w =? r.1) then mret EXIT_FAILURE else
        cp_loop sip dip (u32 (off + BUFSIZE)) fuel
    end
  else mret EXIT_SUCCESS.
(** The destination's inode; 0 after an error message. *)
Definition cp_dest (spath dpath : list Z) : LF Z :=
  dip ← at_root ilookup dpath;
  let '(dname, ddir) := splitpath dpath BUFSIZE in
  if dip =? 0 then
    if is_empty dname then mret 0 else
    ddip ← at_root ilookup ddir;
    if ddip =? 0 then mret 0 else
    ty ← ld_type ddip;
    if negb (ty =? T_DIR) then mret 0 else
    r ← icreat ddip dname T_FILE;
    mret r.1
  else
    ty ← ld_type dip;
    if ty =? T_DIR then r ← icreat dip (splitpath spath 0).1 T_FILE; mret r.1
    else if ty =? T_FILE then itruncate dip 0;; mret dip
    else if ty =? T_DEV then mret 0
    else mret dip.
Definition do_cp (argv : list (list Z)) : LF Z :=
  match argv with
  | [spath; dpath] =>
      sip ← at_root ilookup spath;
      if sip =? 0 then mret EXIT_FAILURE else
      ty ← ld_type sip;
      if negb (ty =? T_FILE) then mret EXIT_FAILURE else
      dip ← cp_dest spath dpath;
      if dip =? 0 then mret EXIT_FAILURE else
      size ← ld_size sip;
      cp_loop sip dip 0 (Z.to_nat (size / BUFSIZE + 1))
  | _ => mret EXIT_FAILURE
  end.

(** ** Renaming, linking, removing *)

(** The destination is a directory [dip]. *)
Definition mv_into (sip dip : Z) (spath : list Z) : LF Z :=
  let sname := (splitpath spath 0).1 in
  r ← dlookup dip sname;
  let ip := r.1 in
  if negb (ip =? 0) then
    ty ← ld_type ip;
    if ty =? T_DIR then
      sty ← ld_type sip;
      if negb (sty =? T_DIR) then mret EXIT_FAILURE else
      e ← emptydir ip;
      if negb e then mret EXIT_FAILURE else
      iunlink dip sname;;
      daddent dip sname sip;;
      at_root iunlink spath;;
      dmkparlink dip sip;;
      mret EXIT_SUCCESS
    else if ty =? T_FILE then
      sty ← ld_type sip;
      if negb (sty =? T_FILE) then mret EXIT_FAILURE else
      iunlink dip sname;;
      daddent dip sname sip;;
      at_root iunlink spath;;
      mret EXIT_SUCCESS
    else mret EXIT_FAILURE
  else
    daddent dip sname sip;;
    at_root iunlink spath;;
    sty ← ld_type sip;
    when (sty =? T_DIR) (dmkparlink dip sip;; mret ());;
    mret EXIT_SUCCESS.
(** The destination is a file. *)
Definition mv_over (sip : Z) (spath dpath dname ddir : list Z) : LF Z :=
  sty ← ld_type sip;
  if negb (sty =? T_FILE) then mret EXIT_FAILURE else
  at_root iunlink dpath;;
  ip ← at_root ilookup ddir;
  assert_dir ip;;
  daddent ip dname sip;;
  at_root iunlink spath;;
  mret EXIT_SUCCESS.
(** The destination does not exist. *)
Definition mv_new (sip : Z) (spath dname ddir : list Z) : LF Z :=
  if is_empty dname then mret EXIT_FAILURE else
  ip ← at_root ilookup ddir;
  if ip =? 0 then mret EXIT_FAILURE else
  ty ← ld_type ip;
  if negb (ty =? T_DIR) then mret EXIT_FAILURE else
  daddent ip dname sip;;
  at_root iunlink spath;;
  sty ← ld_type sip;
  when (sty =? T_DIR) (dmkparlink ip sip;; mret ());;
  mret EXIT_SUCCESS.
Definition do_mv (argv : list (list Z)) : LF Z :=
  match argv with
  | [spath; dpath] =>
      sip ← at_root ilookup spath;
      if sip =? 0 then mret EXIT_FAILURE else
      root ← gets root_inode;
      if sip =? root then mret EXIT_FAILURE else
      dip ← at_root ilookup dpath;
      let '(dname, ddir) := splitpath dpath BUFSIZE in
      if negb (dip =? 0) then
        ty ← ld_type dip;
        if ty =? T_DIR then mv_into sip dip spath
        else if ty =? T_FILE then mv_over sip spath dpath dname ddir
        else mret EXIT_FAILURE
      else mv_new sip spath dname ddir
  | _ => mret EXIT_FAILURE
  end.

(** The directory and the name of the new link, [None] after an error. *)
Definition ln_dest (spath dpath : list Z) : LF (option (Z * list Z)) :=
  let '(dname, ddir) := splitpath dpath BUFSIZE in
  dip ← at_root ilookup ddir;
  if dip =? 0 then mret None else
  ty ← ld_type dip;
  if negb (ty =? T_DIR) then mret None else
  if is_empty dname then
    let dname := (splitpath spath 0).1 in
    r ← dlookup dip dname;
    mret (if negb (r.1 =? 0) then None else Some (dip, dname))
  else
    r ← dlookup dip dname;
    if negb (r.1 =? 0) then
      ty ← ld_type r.1;
      mret (if negb (ty =? T_DIR) then None else Some (r.1, (splitpath spath 0).1))
    else mret (Some (dip, dname)).
Definition do_ln (argv : list (list Z)) : LF Z :=
  match argv with
  | [spath; dpath] =>
      sip ← at_root ilookup spath;
      if sip =? 0 then mret EXIT_FAILURE else
      ty ← ld_type sip;
      if negb (ty =? T_FILE) then mret EXIT_FAILURE else
      d ← ln_dest spath dpath;
      match d with
      | None => mret EXIT_FAILURE
      | Some (dip, dname) =>
          r ← daddent dip dname sip;
          mret (if r <? 0 then EXIT_FAILURE else EXIT_SUCCESS)
      end
  | _ => mret EXIT_FAILURE
  end.

Definition do_mkdir (argv : list (list Z)) : LF Z :=
  match argv with
  | [path] =>
      ip ← at_root ilookup path;
      if negb (ip =? 0) then mret EXIT_FAILURE else
      r ← at_root (λ rp path, icreat rp path T_DIR) path;
      mret (if r.1 =? 0 then EXIT_FAILURE else EXIT_SUCCESS)
  | _ => mret EXIT_FAILURE
  end.

Definition do_rmdir (argv : list (list Z)) : LF Z :=
  match argv with
  | [path] =>
      ip ← at_root ilookup path;
      if ip =? 0 then mret EXIT_FAILURE else
      ty ← ld_type ip;
      if negb (ty =? T_DIR) then mret EXIT_FAILURE else
      e ← emptydir ip;
      if negb e then mret EXIT_FAILURE else
      r ← at_root iunlink path;
      mret (if r <? 0 then EXIT_FAILURE else EXIT_SUCCESS)
  | _ => mret EXIT_FAILURE
  end.

(** ** Commands *)

Definition cmd_table : list (string * (list (list Z) → LF Z)) :=
  [("diskinfo", do_diskinfo); ("info", do_info); ("ls", do_ls); ("get", do_get); ("put", do_put); ("rm", do_rm);
   ("cp", do_cp); ("mv", do_mv); ("ln", do_ln); ("mkdir", do_mkdir); ("rmdir", do_rmdir)]%string.
Fixpoint exec_cmd (table : list (string * (list (list Z) → LF Z))) (cmd : list Z) (argv : list (list Z)) : LF Z :=
  match table with
  | [] => mret EXIT_FAILURE
  | (name, fun_) :: table => if bool_decide (cmd = str name) then fun_ argv else exec_cmd table cmd argv
  end.

(** [argv] is the arguments after the program's name, and [mapped] whether the
    image could be opened, examined and mapped. *)
Definition opfs_main (mapped : bool) (argv : list (list Z)) : LF Z :=
  match argv with
  | img_file :: cmd :: args =>
      if negb mapped then mret EXIT_FAILURE else
      rp ← l_iget root_inode_number;
      modify (λ s, mkOpfs (l_img s) (l_out s) (l_in s) rp);;
      exec_cmd cmd_table cmd args
  | _ => mret EXIT_FAILURE
  end.
