(* ===== verification/OpfsGet.v ===== *)
(** * OpfsGet: opfs reads what mkfs wrote

    Lookup of names and reading of files through libfs, up to the [get]
    command of opfs on an image that mkfs made: it writes the bytes that mkfs
    was given.  And [bitcount], by which [diskinfo] counts the blocks in use,
    against the number of ones. *)

From stdpp Require Import prelude functions gmap strings.
From S2P Require Import Prelude Types Spinlock Sched Ide Bio Block Cstr Log Fs FsBlock FsInode FsDinode FsData FsDir Cprintf Mkfs MkfsImage Libfs LibfsFile Opfs.
Open Scope Z_scope.

(** ** Directories *)

(** The first entry with the name, in use or not. *)
Fixpoint name_find (v : Z → block) (ip : inode) (name : list Z) (off : Z) (n : nat) : option (Z * Z) :=
  match n with
  | O => None
  | S n => let de := entry_at v ip off in
           if namecmp (cells name) (cells (de_name de)) =? 0 then Some (off, de_inum de) else name_find v ip name (off + DIRENT_SIZE) n
  end.
(** It is the kernel's, when no free entry comes before. *)
Lemma name_find_dir v ip name n : bytes name → ∀ off k inum, (∀ m, (m < n)%nat → bytes (de_name (entry_at v ip (off + DIRENT_SIZE * Z.of_nat m)))) → dir_find v ip name off n = Some (off + DIRENT_SIZE * Z.of_nat k, inum) →
  (∀ m, (m < k)%nat → de_inum (entry_at v ip (off + DIRENT_SIZE * Z.of_nat m)) ≠ 0) → name_find v ip name off n = Some (off + DIRENT_SIZE * Z.of_nat k, inum).
Proof.
  intros Hb. induction n as [|n IH]; intros off k inum Hby Hd Hin; [done|]. cbn [dir_find name_find] in *. cbv zeta.
  pose proof (Hby 0%nat ltac:(lia)) as Hb0. rewrite Z.mul_0_r, Z.add_0_r in Hb0. rewrite namecmp_match by done. destruct (de_match name (entry_at v ip off)) eqn:Hm.
  - injection Hd as Hk <-. rewrite <-Hk. unfold de_match in Hm. apply andb_true_iff in Hm as [_ ->]. done.
  - destruct k as [|k].
    + exfalso. revert Hd. clear. assert (H : ∀ n o off', off < off' → dir_find v ip name off' n = Some (o, inum) → off < o).
      { clear. intros n. induction n as [|n IH]; intros o off' Hlt; [done|]. cbn [dir_find]. destruct (de_match _ _); [intros [= <- _]; done|]. apply IH. unfold DIRENT_SIZE. lia. }
      intros Hd%H; unfold DIRENT_SIZE in *; lia.
    + pose proof (Hin 0%nat ltac:(lia)) as H0. rewrite Z.mul_0_r, Z.add_0_r in H0. unfold de_match in Hm. rewrite (proj2 (Z.eqb_neq _ _) H0) in Hm. cbn [negb andb] in Hm. rewrite Hm.
      replace (off + DIRENT_SIZE * Z.of_nat (S k)) with (off + DIRENT_SIZE + DIRENT_SIZE * Z.of_nat k) in * by lia. apply IH; [|done|]; intros m Hlt;
      [replace (off + DIRENT_SIZE + DIRENT_SIZE * Z.of_nat m) with (off + DIRENT_SIZE * Z.of_nat (S m)) by lia; apply Hby; lia|].
      replace (off + DIRENT_SIZE + DIRENT_SIZE * Z.of_nat m) with (off + DIRENT_SIZE * Z.of_nat (S m)) by lia. apply Hin. lia.
Qed.

Section lookup.
Context (E : string → Prop) (N st i m : Z) (v : Z → block) (ip : inode) (s : opfs) (Hl : linv N st i m v ip s).

Lemma l_iget_ok inum (Q : Z → opfs → Prop) : Q (if (0 <? inum) && (inum <? N) then iptr inum else 0) s → wp (l_iget inum) E Q s.
Proof. intros HQ. unfold l_iget. wp_steps. eapply wp_SBLK; [exact Hl|]. rewrite (lv_inodes _ _ _ _ _ _ _ Hl). destruct (_ && _); by wp_steps. Qed.

Context (Hd : dir_wf v ip).
Lemma read_entry off (Q : Z * list Z → opfs → Prop) : 0 <= off → off + DIRENT_SIZE <= i_size ip → Q (DIRENT_SIZE, fbytes v ip off DIRENT_SIZE) s → wp (iread (iptr i) DIRENT_SIZE off) E Q s.
Proof.
  intros Ho Hle HQ. pose proof Hd as [Hty Hsz Hc _]. pose proof Hc as [Hmax _]. rewrite MAXFILE_val in Hmax. unfold DIRENT_SIZE, BSIZE in *. eapply iread_ok; [exact Hl|done|by rewrite Hty|lia|lia|lia|].
  unfold read_count. rewrite u32_small by lia. by rewrite (proj2 (Z.ltb_ge _ _)) by lia.
Qed.
Definition found (r : option (Z * Z)) : Z * option Z :=
  match r with Some (o, inum) => (if (0 <? inum) && (inum <? N) then iptr inum else 0, Some o) | None => (0, None) end.
Lemma dlookup_loop_ok name : ∀ c fuel off (Q : Z * option Z → opfs → Prop), 0 <= off → i_size ip = off + DIRENT_SIZE * Z.of_nat c → (c <= fuel)%nat →
  Q (found (name_find v ip name off c)) s → wp (dlookup_loop (iptr i) name off fuel) E Q s.
Proof.
  pose proof (linv_bounds _ _ _ _ _ _ _ Hl) as Hi. pose proof (lv_mem _ _ _ _ _ _ _ Hl) as Hmem. pose proof (proj1 (dw_cov _ _ Hd)) as Hmax. rewrite MAXFILE_val in Hmax. unfold BSIZE in Hmax.
  induction c as [|c IH]; intros fuel off Q Ho Hsz Hfu HQ.
  { destruct fuel; cbn [dlookup_loop]; wp_steps; (eapply wp_ld_size; [exact Hmem|lia|]); rewrite (proj2 (Z.ltb_ge _ _)) by lia; by wp_steps. }
  destruct fuel as [|fuel]; [lia|]. cbn [dlookup_loop]. wp_steps. eapply wp_ld_size; [exact Hmem|lia|]. unfold DIRENT_SIZE in Hsz. rewrite (proj2 (Z.ltb_lt _ _)) by lia. wp_steps.
  apply read_entry; [done|unfold DIRENT_SIZE; lia|]. cbn [fst snd]. rewrite Z.eqb_refl. cbn [negb]. cbv zeta. fold (entry_at v ip off). cbn [name_find] in HQ. cbv zeta in HQ. unfold namecmp in HQ.
  destruct (strncmp _ _ _ =? 0); [wp_steps; apply l_iget_ok; by wp_steps|]. rewrite u32_small by (unfold DIRENT_SIZE; lia). apply IH; [unfold DIRENT_SIZE; lia|unfold DIRENT_SIZE; lia|lia|done].
Qed.
Lemma dlookup_ok name (Q : Z * option Z → opfs → Prop) : Q (found (name_find v ip name 0 (dir_entries ip))) s → wp (dlookup (iptr i) name) E Q s.
Proof.
  intros HQ. pose proof (linv_bounds _ _ _ _ _ _ _ Hl) as Hi. pose proof (lv_mem _ _ _ _ _ _ _ Hl) as Hmem. unfold dlookup. wp_steps. eapply wp_ld_type; [exact Hmem|lia|]. rewrite (dw_type _ _ Hd). cbn [negb Z.eqb T_DIR Pos.eqb].
  wp_steps. eapply wp_ld_size; [exact Hmem|lia|]. eapply (dlookup_loop_ok name (dir_entries ip)); [lia|rewrite Z.add_0_l; apply Hd|unfold dir_entries; lia|done].
Qed.

(** A path of one name. *)
Lemma skip_plain name : slash ∉ name → skip_slashes name = name ∧ skip_name name = (name, []).
Proof.
  induction name as [|c name IH]; [done|]. intros [Hc Hn]%not_elem_of_cons. cbn. rewrite (proj2 (Z.eqb_neq _ _)) by done. destruct (IH Hn) as [_ ->]. done.
Qed.
Lemma ilookup_name name (Q : Z → opfs → Prop) : slash ∉ name → name ≠ [] → Z.of_nat (length name) < 2 ^ 31 →
  Q (found (name_find v ip (take 14 name) 0 (dir_entries ip))).1 s → wp (ilookup (iptr i) name) E Q s.
Proof.
  intros Hsl Hne Hlen HQ. pose proof (linv_bounds _ _ _ _ _ _ _ Hl) as Hi. pose proof (lv_mem _ _ _ _ _ _ _ Hl) as Hmem. destruct (skip_plain name Hsl) as [Hs1 Hs2]. destruct (iptr_block i ltac:(lia)) as (_ & _ & Hnz).
  unfold ilookup. cbn [ilookup_loop]. unfold assert_dir. rewrite (proj2 (Z.eqb_neq _ _)) by done. wp_steps. eapply wp_ld_type; [exact Hmem|lia|]. rewrite (dw_type _ _ Hd). cbn [negb Z.eqb T_DIR Pos.eqb]. wp_steps.
  unfold l_skipelem. rewrite Hs1, Hs2. cbv zeta. cbn [fst snd].
  assert (Ht : take (Z.to_nat (imin (Z.of_nat (length name)) DIRSIZ)) name = take 14 name).
  { unfold imin, DIRSIZ. rewrite !i32_small by lia. destruct (decide (length name <= 14)%nat); [rewrite !take_ge by lia; done|by rewrite Z.min_r by lia]. }
  rewrite Ht. assert (He : is_empty (take 14 name) = false) by (apply bool_decide_eq_false_2; by destruct name). rewrite He. wp_steps. apply dlookup_ok.
  destruct (Z.eqb_spec (found (name_find v ip (take 14 name) 0 (dir_entries ip))).1 0) as [Hz|Hz]; [rewrite Hz in HQ; by wp_steps|]. change (is_empty []) with true. cbn iota. by wp_steps.
Qed.
End lookup.

(** ** The [get] command *)

Lemma linv_same N st i m v ip s s' : l_img s' = l_img s → linv N st i m v ip s → linv N st i m v ip s'.
Proof. intros He [[Hw Hv Hi Hlen] ? ? ? ? ? ?]. split; try done. split; by rewrite ?He. Qed.

(** What is written to the standard output, in pieces. *)
Definition prints (bytes : list Z) (s s' : opfs) : Prop :=
  ∃ pieces, s' = mkOpfs (l_img s) (l_out s ++ (OWrite <$> pieces)) (l_in s) (root_inode s) ∧ concat pieces = bytes.

Lemma get_loop_ok E N st i m v ip : covered v ip (i_size ip) → i_type ip ≠ T_DEV → ∀ fuel off s (Q : Z → opfs → Prop), linv N st i m v ip s → 0 <= off → i_size ip - off <= BUFSIZE * Z.of_nat fuel →
  (∀ s', prints (fbytes v ip off (Z.max 0 (i_size ip - off))) s s' → Q EXIT_SUCCESS s') → wp (get_loop (iptr i) off fuel) E Q s.
Proof.
  intros Hc Hty. pose proof (proj1 Hc) as Hmax. rewrite MAXFILE_val in Hmax. unfold BSIZE in Hmax.
  induction fuel as [|fuel IH]; intros off s Q Hl Ho Hfu HQ; cbn [get_loop]; wp_steps; pose proof (linv_bounds _ _ _ _ _ _ _ Hl) as Hi; pose proof (lv_mem _ _ _ _ _ _ _ Hl) as Hmem;
    (eapply wp_ld_size; [exact Hmem|lia|]); (destruct (Z.ltb_spec off (i_size ip)) as [Hlt|Hge]; [|wp_steps; apply HQ; exists []; rewrite Z.max_l, app_nil_r by lia; by destruct s]).
  { unfold BUFSIZE in *. lia. }
  wp_steps. unfold BUFSIZE in *. eapply iread_ok; [exact Hl|done|done|lia|lia|lia|]. set (c := read_count (i_size ip) off 1024).
  assert (Hcc : c = Z.min 1024 (i_size ip - off)) by (unfold c, read_count; rewrite u32_small by lia; destruct (Z.ltb_spec (i_size ip) (off + 1024)); lia). cbn [fst snd]. rewrite (proj2 (Z.ltb_ge _ _)) by lia. unfold emit. wp_steps.
  rewrite u32_small by lia. apply IH; [by eapply linv_same; [|exact Hl]|lia|lia|]. cbn [l_img l_out l_in root_inode]. intros s' (pieces & -> & Hp). apply HQ. exists (fbytes v ip off c :: pieces). split.
  - cbn [l_img l_out l_in root_inode]. by rewrite <-app_assoc.
  - cbn [concat]. rewrite Hp. destruct (decide (i_size ip - off <= 1024)).
    + rewrite Hcc, Z.min_r, (Z.max_l 0), (Z.max_r 0) by lia. by rewrite app_nil_r.
    + rewrite Hcc, Z.min_l, !Z.max_r by lia. rewrite <-fbytes_app by lia. f_equal. lia.
Qed.

(** Names are cut at [DIRSIZ]. *)
Lemma cstr_take name : cstr (cells (take 14 name)) DIRSIZ = cstr (cells name) DIRSIZ.
Proof.
  unfold cstr. apply cstr_from_ext. intros j Hj. change (Z.to_nat DIRSIZ) with 14%nat in Hj. rewrite !Z.add_0_l. unfold cells. rewrite !nth_lookup. by rewrite lookup_take_lt by lia.
Qed.
(** The entry of file [k]. *)
Lemma root_name_find given D img k f : image_of given D img → fits given → (Z.of_nat (length given) + 2) mod 32 ≠ 0 →
  Forall bytes (dir_names given) → NoDup ((λ n, cstr (cells n) DIRSIZ) <$> dir_names given) → given !! k = Some f →
  let root := ino (blk img) ROOTINO in
  name_find (blk img) root (take 14 (mk_name f.1)) 0 (dir_entries root) = Some (DIRENT_SIZE * Z.of_nat (k + 2), Z.of_nat k + 2).
Proof.
  intros Him Hf Hfull Hb Hnd Hk root. pose proof (lookup_lt_Some _ _ _ Hk) as Hlt. pose proof (ft_inodes _ Hf) as Hin. unfold NINODES in Hin.
  rewrite <-(Z.add_0_l (DIRENT_SIZE * _)). 
  destruct (root_dir given D img Him Hf Hfull Hb) as [Hdw _].
  assert (Hbn : bytes (mk_name f.1)) by (apply (Forall_lookup_1 _ _ (S (S k)) _ Hb); change (((λ f, mk_name f.1) <$> given) !! k = Some (mk_name f.1)); by rewrite list_lookup_fmap, Hk).
  apply name_find_dir; [by apply Forall_take|..].
  - intros m Hm. rewrite Z.add_0_l. apply entry_bytes; [exact Hdw|unfold DIRENT_SIZE; lia|]. unfold root in *. rewrite (dw_size _ _ Hdw). unfold DIRENT_SIZE. lia.
  - rewrite (dir_find_cstr _ _ (mk_name f.1)) by apply cstr_take. pose proof (root_finds given D img k f Him Hf Hfull Hb Hnd Hk) as Hd. cbv zeta in Hd. unfold root. rewrite Hd. unfold DIRENT_SIZE. do 2 f_equal. lia.
  - intros m Hm. rewrite Z.add_0_l. destruct (lookup_lt_is_Some_2 (dir_names given) m) as [n Hn]; [cbn [dir_names length]; rewrite length_fmap; lia|]. unfold root.
    rewrite (root_entry given D img Him Hf Hfull m n Hn). unfold new_dirent, entry_inum, ROOTINO. cbn [de_inum]. rewrite u16_small by lia. lia.
Qed.

(** C32: opfs gets back what mkfs put in.  mkfs makes an image of files that
    fit; on that image [opfs get] of the name of any of them exits with
    success, leaves the image as it is, and writes the bytes of that file, in
    order and nothing else.  The names are not empty and differ in their first
    [DIRSIZ] bytes, and the directory does not fill its last block. *)
Theorem opfs_gets_mkfs given k f image inp r0 (Hf : fits given) (Hfull : (Z.of_nat (length given) + 2) mod 32 ≠ 0)
  (Hb : Forall bytes (dir_names given)) (Hnd : NoDup ((λ n, cstr (cells n) DIRSIZ) <$> dir_names given))
  (Hk : given !! k = Some f) (Hne : mk_name f.1 ≠ []) (Hlen : Z.of_nat (length (mk_name f.1)) < 2 ^ 31) :
  ∃ s s' pieces, mk_main (Some true) (opened given) mkfs0 = Ok tt s ∧
    opfs_main true [image; str "get"; mk_name f.1] (mkOpfs (fs_img s) [] inp r0) = Ok EXIT_SUCCESS s' ∧
    l_img s' = fs_img s ∧ l_out s' = OWrite <$> pieces ∧ concat pieces = concat f.2.
Proof.
  destruct (mk_main_ok given Hf) as (D & s & Hr & Him). pose proof (lookup_lt_Some _ _ _ Hk) as Hlt. pose proof (ft_inodes _ Hf) as Hin. unfold NINODES in Hin. set (i := Z.of_nat k + 2). set (v := blk (fs_img s)). set (name := mk_name f.1) in *.
  assert (Hfile : ∀ j out inp' rp, 1 <= j < Z.of_nat (length given) + 2 → linv NINODES (FSSIZE - nlog) j 0 v (ino v j) (mkOpfs (fs_img s) out inp' rp)).
  { intros j out inp' rp Hj. pose proof (mkfs_image_file given D (fs_img s) out inp' rp j 0 Him Hf Hj ltac:(pose proof (ft_blocks _ Hf); lia)) as H. unfold image_file in H. cbn [l_img] in H. by rewrite (view_sb given D _ Him) in H. }
  destruct (root_dir given D _ Him Hf Hfull Hb) as [Hdir _]. fold v in Hdir. destruct (view_file given D _ Him Hf i ltac:(unfold i; lia)) as (Hs & Hc & Hbs). fold v in Hs, Hc, Hbs.
  destruct (view_fields given D _ Him Hf i ltac:(unfold i; lia)) as [Hty _]. fold v in Hty.
  assert (HC : contents given i = concat f.2).
  { unfold contents, i. rewrite (proj2 (Z.eqb_neq _ _)) by (unfold ROOTINO; lia). replace (Z.to_nat _) with k by lia. by rewrite nth_lookup, list_lookup_fmap, Hk. }
  pose proof (root_name_find given D _ k f Him Hf Hfull Hb Hnd Hk) as Hfind. cbv zeta in Hfind. fold v name i in Hfind.
  destruct (wp_ok (opfs_main true [image; str "get"; name]) (λ r s', r = EXIT_SUCCESS ∧ prints (concat f.2) (mkOpfs (fs_img s) [] inp (iptr 1)) s') (mkOpfs (fs_img s) [] inp r0)) as (r & s' & Hrun & -> & pieces & -> & Hp).
  - unfold opfs_main. cbn [negb]. wp_steps. eapply l_iget_ok; [apply (Hfile 1); lia|]. cbn [Z.ltb Z.compare andb]. wp_steps.
    change (exec_cmd cmd_table (str "get") [name]) with (do_get [name]). unfold do_get, at_root. wp_steps. cbn [root_inode].
    eapply ilookup_name; [apply (Hfile ROOTINO); unfold ROOTINO; lia|exact Hdir| |done|done|].
    { pose proof (Forall_lookup_1 _ _ _ _ (ft_names _ Hf) Hk) as H47. exact H47. }
    rewrite Hfind. cbn [found fst]. replace ((0 <? i) && (i <? NINODES)) with true by (unfold i, NINODES; lia). destruct (iptr_block i ltac:(unfold i; lia)) as (_ & _ & Hnz). rewrite (proj2 (Z.eqb_neq _ _)) by done.
    pose proof (Hfile i [] inp (iptr 1) ltac:(unfold i; lia)) as Hli. pose proof (linv_bounds _ _ _ _ _ _ _ Hli) as Hbd. wp_steps. eapply wp_ld_size; [apply Hli|lia|].
    eapply get_loop_ok; [exact Hc|rewrite Hty; unfold types; by destruct (_ =? _)|exact Hli|lia| |].
    + rewrite Z.sub_0_r. pose proof (Z.div_mod (i_size (ino v i)) BUFSIZE ltac:(done)). pose proof (Z.mod_pos_bound (i_size (ino v i)) BUFSIZE eq_refl). pose proof (Z.div_pos (i_size (ino v i)) BUFSIZE ltac:(lia) eq_refl). unfold BUFSIZE in *. lia.
    + rewrite Z.sub_0_r, Z.max_r, Hbs, HC by lia. intros s' Hp. split; [reflexivity|exact Hp].
  - exists s, (mkOpfs (fs_img s) ([] ++ (OWrite <$> pieces)) inp (iptr 1)), pieces. split; [exact Hr|]. split; [exact Hrun|]. split; [reflexivity|]. split; [reflexivity|exact Hp].
Qed.

Lemma opfs_gets_mkfs_witness : ∃ s s' pieces, mk_main (Some true) (opened demo_given) mkfs0 = Ok tt s ∧
  opfs_main true [str "fs.img"; str "get"; str "README"] (mkOpfs (fs_img s) [] [] 0) = Ok EXIT_SUCCESS s' ∧ l_out s' = OWrite <$> pieces ∧ concat pieces = [4; 5; 6].
Proof.
  destruct (opfs_gets_mkfs demo_given 1 (str "README", [[4; 5]; [6]]) (str "fs.img") [] 0) as (s & s' & pieces & Hr & Hrun & _ & Hout & Hp).
  - exact demo_fits.
  - vm_compute. discriminate.
  - apply demo_names.
  - apply demo_names.
  - reflexivity.
  - vm_compute. discriminate.
  - vm_compute. reflexivity.
  - exists s, s', pieces. split; [exact Hr|]. split; [exact Hrun|]. split; [exact Hout|exact Hp].
Defined.

(** ** [bitcount] *)

(** The number with the digits [ds] in base [2 ^ w], the lowest first. *)
Fixpoint val (w : Z) (ds : list Z) : Z := match ds with [] => 0 | d :: ds => d + 2 ^ w * val w ds end.
Definition fields_ok (w : Z) (ds : list Z) : Prop := Forall (λ d, 0 <= d < 2 ^ w) ds.

Lemma testbit_cons w d h n : 0 <= w → 0 <= d < 2 ^ w → 0 <= n → Z.testbit (d + 2 ^ w * h) n = if n <? w then Z.testbit d n else Z.testbit h (n - w).
Proof.
  intros Hw Hd Hn. destruct (Z.ltb_spec n w) as [Hlt|Hge].
  - rewrite <-(Z.mod_pow2_bits_low (d + 2 ^ w * h) w n) by lia. rewrite Z.mul_comm, Z.mod_add by lia. by rewrite Z.mod_small.
  - replace n with (n - w + w) at 1 by lia. rewrite <-Z.div_pow2_bits by lia. rewrite Z.mul_comm, Z.div_add by lia. by rewrite Z.div_small, Z.add_0_l.
Qed.
Lemma land_cons w d h e k : 0 <= w → 0 <= d < 2 ^ w → 0 <= e < 2 ^ w → Z.land (d + 2 ^ w * h) (e + 2 ^ w * k) = Z.land d e + 2 ^ w * Z.land h k.
Proof.
  intros Hw Hd He. assert (Hl : 0 <= Z.land d e < 2 ^ w).
  { split; [apply Z.land_nonneg; lia|]. destruct (decide (Z.land d e = 0)) as [->|]; [lia|]. apply Z.log2_lt_cancel. rewrite Z.log2_pow2 by done. destruct (decide (d = 0)) as [->|]; [by rewrite Z.land_0_l in *|].
    pose proof (Z.log2_land d e ltac:(lia) ltac:(lia)). pose proof (proj1 (Z.log2_lt_pow2 d w ltac:(lia)) ltac:(lia)). lia. }
  apply Z.bits_inj'. intros n Hn. rewrite Z.land_spec, !testbit_cons by done. destruct (n <? w); by rewrite Z.land_spec.
Qed.
Lemma land_val w ds : 0 <= w → ∀ es, fields_ok w ds → fields_ok w es → Z.land (val w ds) (val w es) = val w (zip_with Z.land ds es).
Proof.
  intros Hw. induction ds as [|d ds IH]; intros es Hd He; [by rewrite Z.land_0_l|]. destruct es as [|e es]; [apply Z.land_0_r|]. apply Forall_cons in Hd as [Hd Hds], He as [He Hes]. cbn [val zip_with].
  by rewrite land_cons, IH.
Qed.
Lemma shiftr_val w d ds : 0 <= w → 0 <= d < 2 ^ w → Z.shiftr (val w (d :: ds)) w = val w ds.
Proof. intros Hw Hd. cbn [val]. rewrite Z.shiftr_div_pow2 by done. rewrite Z.mul_comm, Z.div_add by lia. by rewrite Z.div_small, Z.add_0_l. Qed.

Fixpoint bits_of (n : nat) (x : Z) : list Z := match n with O => [] | S n => x mod 2 :: bits_of n (x / 2) end.
Lemma bits_of_val n : ∀ x, 0 <= x < 2 ^ Z.of_nat n → val 1 (bits_of n x) = x.
Proof.
  induction n as [|n IH]; intros x Hx; [cbn; lia|]. cbn [bits_of val]. rewrite Nat2Z.inj_succ, Z.pow_succ_r in Hx by lia. pose proof (Z.div_mod x 2 ltac:(done)). rewrite IH; [lia|]. split; [apply Z.div_pos; lia|apply Z.div_lt_upper_bound; lia].
Qed.
Lemma bits_of_digits n : ∀ x, Forall (λ d, d = 0 ∨ d = 1) (bits_of n x) ∧ length (bits_of n x) = n.
Proof. induction n as [|n IH]; intros x; [by split; [constructor|]|]. destruct (IH (x / 2)). cbn. split; [|by f_equal]. constructor; [|done]. pose proof (Z.mod_pos_bound x 2 eq_refl). lia. Qed.

(** The digits at even and at odd places, and the mask of the even places. *)
Fixpoint evens (ds : list Z) : list Z := match ds with d :: _ :: ds => d :: evens ds | _ => [] end.
Fixpoint odds (ds : list Z) : list Z := match ds with _ :: d :: ds => d :: odds ds | _ => [] end.
Fixpoint mask (w : Z) (n : nat) : list Z := match n with O => [] | S n => 2 ^ w - 1 :: 0 :: mask w n end.

Lemma mask_step w d0 d1 X M : 0 <= w → 0 <= d0 < 2 ^ w → 0 <= d1 < 2 ^ w →
  Z.land (d0 + 2 ^ w * (d1 + 2 ^ w * X)) (2 ^ w - 1 + 2 ^ w * (0 + 2 ^ w * M)) = d0 + 2 ^ (2 * w) * Z.land X M.
Proof.
  intros Hw H0 H1. pose proof (Z.pow_pos_nonneg 2 w ltac:(lia) Hw). rewrite !land_cons by lia. rewrite Z.land_0_r. replace (2 ^ w - 1) with (Z.ones w) by (rewrite Z.ones_equiv; lia). rewrite Z.land_ones, Z.mod_small by lia.
  replace (2 * w) with (w + w) by lia. rewrite Z.pow_add_r by lia. lia.
Qed.
Lemma split_val w n : 0 < w → ∀ ds, fields_ok w ds → length ds = (2 * n)%nat →
  Z.land (val w ds) (val w (mask w n)) = val (2 * w) (evens ds) ∧ Z.land (Z.shiftr (val w ds) w) (val w (mask w n)) = val (2 * w) (odds ds) ∧
  val w ds = val (2 * w) (evens ds) + 2 ^ w * val (2 * w) (odds ds).
Proof.
  intros Hw. induction n as [|n IH]; intros ds Hd Hl.
  - destruct ds; [|done]. cbn [val evens odds mask]. rewrite !Z.land_0_r. lia.
  - destruct ds as [|d0 [|d1 ds]]; [done|cbn in Hl; lia|]. apply Forall_cons in Hd as [H0 [H1 Hd]%Forall_cons]. destruct (IH ds Hd ltac:(cbn in Hl; lia)) as (I1 & I2 & I3). cbn [mask evens odds].
    rewrite shiftr_val by lia. cbn [val]. split; [|split].
    + rewrite mask_step by lia. by rewrite I1.
    + destruct ds as [|d2 ds]; cbn [val odds] in *.
      * replace (d1 + 2 ^ w * 0) with (d1 + 2 ^ w * (0 + 2 ^ w * 0)) by lia. rewrite mask_step by lia. rewrite Z.land_0_l. lia.
      * apply Forall_cons in Hd as [H2 Hd]. rewrite mask_step by lia. rewrite <-I2. change (d2 + 2 ^ w * val w ds) with (val w (d2 :: ds)). by rewrite shiftr_val by lia.
    + assert (Hp : 2 ^ (2 * w) = 2 ^ w * 2 ^ w) by (rewrite <-Z.pow_add_r by lia; f_equal; lia). rewrite I3 at 1. rewrite Hp. ring.
Qed.

(** The steps of [bitcount] add neighbouring fields of 1, 2 and 4 bits. *)
Definition sums (ds : list Z) : list Z := zip_with Z.add (evens ds) (odds ds).
Lemma val_add w : ∀ ds es, length ds = length es → val w ds + val w es = val w (zip_with Z.add ds es).
Proof. induction ds as [|d ds IH]; intros [|e es] Hl; try done. cbn [val zip_with]. rewrite <-IH by (cbn in Hl; lia). ring. Qed.
Lemma length_evens n : ∀ ds, length ds = (2 * n)%nat → length (evens ds) = n ∧ length (odds ds) = n.
Proof. induction n as [|n IH]; intros [|d0 [|d1 ds]] Hl; try (cbn in Hl; lia); [done|]. destruct (IH ds ltac:(cbn in Hl; lia)). cbn. lia. Qed.
Section steps.
Context (n : nat) (ds : list Z) (Hl : length ds = (2 * n)%nat).
Lemma bitcount_step1 : fields_ok 1 ds → val 1 ds - Z.land (Z.shiftr (val 1 ds) 1) (val 1 (mask 1 n)) = val 2 (sums ds).
Proof.
  intros Hd. destruct (split_val 1 n ltac:(lia) ds Hd Hl) as (_ & I2 & I3). rewrite I2, I3. change (2 * 1) with 2. change (2 ^ 1) with 2. unfold sums. rewrite <-val_add; [lia|]. by destruct (length_evens n ds Hl) as [-> ->].
Qed.
Lemma bitcount_step2 : fields_ok 2 ds → Z.land (val 2 ds) (val 2 (mask 2 n)) + Z.land (Z.shiftr (val 2 ds) 2) (val 2 (mask 2 n)) = val 4 (sums ds).
Proof.
  intros Hd. destruct (split_val 2 n ltac:(lia) ds Hd Hl) as (I1 & I2 & _). rewrite I1, I2. change (2 * 2) with 4. apply val_add. by destruct (length_evens n ds Hl) as [-> ->].
Qed.
End steps.
(** A sum with the number shifted by a field: each field and the next. *)
Definition nexts (ds : list Z) : list Z := zip_with Z.add ds (drop 1 ds ++ [0]).
Lemma val_next w d ds : 0 <= w → 0 <= d < 2 ^ w → val w (d :: ds) + Z.shiftr (val w (d :: ds)) w = val w (nexts (d :: ds)).
Proof.
  intros Hw Hd. rewrite shiftr_val by done. assert (Hz : val w ds = val w (ds ++ [0])) by (induction ds as [|x ds IH]; cbn [val app]; [ring|by rewrite IH]). rewrite Hz. unfold nexts. cbn [drop]. apply val_add. cbn [length]. rewrite length_app. cbn [length]. rewrite drop_0. lia.
Qed.

Definition sumz (ds : list Z) : Z := fold_right Z.add 0 ds.
Lemma sums_ok k n : ∀ ds, Forall (λ d, 0 <= d <= k) ds → length ds = (2 * n)%nat → Forall (λ d, 0 <= d <= 2 * k) (sums ds) ∧ length (sums ds) = n ∧ sumz (sums ds) = sumz ds.
Proof.
  induction n as [|n IH]; intros [|d0 [|d1 ds]] Hd Hl; try (cbn in Hl; lia); [by split|]. apply Forall_cons in Hd as [H0 [H1 Hd]%Forall_cons]. destruct (IH ds Hd ltac:(cbn in Hl; lia)) as (I1 & I2 & I3).
  change (sums (d0 :: d1 :: ds)) with (d0 + d1 :: sums ds). cbn [length]. split; [constructor; [lia|done]|]. split; [lia|]. cbn [sumz fold_right] in *. unfold sumz in *. lia.
Qed.
Lemma fields_le w k ds : k < 2 ^ w → Forall (λ d, 0 <= d <= k) ds → fields_ok w ds.
Proof. intros Hk Hd. apply (Forall_impl _ _ _ Hd). intros d ?. cbn beta in *. lia. Qed.
Lemma val_range w ds : 0 <= w → fields_ok w ds → 0 <= val w ds < 2 ^ (w * Z.of_nat (length ds)).
Proof.
  intros Hw. induction 1 as [|d ds Hd _ IH]; [by rewrite Z.mul_0_r|]. cbn [val length]. rewrite Nat2Z.inj_succ, Z.mul_succ_r, Z.pow_add_r by lia. set (P := 2 ^ w) in *. set (R := 2 ^ (w * Z.of_nat (length ds))) in *. clearbody P R. nia.
Qed.

(** The last steps, on eight fields of four bits. *)
Lemma bitcount_last q0 q1 q2 q3 q4 q5 q6 q7 : Forall (λ d, 0 <= d <= 4) [q0; q1; q2; q3; q4; q5; q6; q7] →
  let x := val 4 [q0; q1; q2; q3; q4; q5; q6; q7] in let x := Z.land (u32 (x + Z.shiftr x 4)) 0x0f0f0f0f in let x := u32 (x + Z.shiftr x 8) in let x := u32 (x + Z.shiftr x 16) in
  Z.land x 0x3f = sumz [q0; q1; q2; q3; q4; q5; q6; q7].
Proof.
  intros Hd. repeat match goal with H : Forall _ (_ :: _) |- _ => apply Forall_cons in H as [? H] end. cbv zeta. rewrite val_next by lia. cbn [nexts drop app zip_with].
  assert (D4 : fields_ok 4 [q0 + q1; q1 + q2; q2 + q3; q3 + q4; q4 + q5; q5 + q6; q6 + q7; q7 + 0]) by (repeat constructor; lia).
  pose proof (val_range 4 _ ltac:(lia) D4) as R4. rewrite (u32_small (val 4 _)) by exact R4. change 0x0f0f0f0f with (val 4 (mask 4 4)). destruct (split_val 4 4 ltac:(lia) _ D4 eq_refl) as (-> & _ & _). cbn [evens]. change (2 * 4) with 8.
  rewrite val_next by lia. cbn [nexts drop app zip_with]. set (a := q0 + q1 + (q2 + q3)). set (b := q2 + q3 + (q4 + q5)). set (c := q4 + q5 + (q6 + q7)). set (d := q6 + q7 + 0).
  assert (D8 : fields_ok 8 [a; b; c; d]) by (repeat constructor; lia). pose proof (val_range 8 _ ltac:(lia) D8) as R8. rewrite (u32_small (val 8 _)) by exact R8.
  assert (Hs : Z.shiftr (val 8 [a; b; c; d]) 16 = val 8 [c; d]) by (change 16 with (8 + 8); rewrite <-Z.shiftr_shiftr by lia; by rewrite !shiftr_val by lia). rewrite Hs.
  assert (Hv : val 8 [a; b; c; d] + val 8 [c; d] = val 8 [a + c; b + d; c; d]) by (cbn [val]; lia). rewrite Hv. assert (Dl : fields_ok 8 [a + c; b + d; c; d]) by (repeat constructor; lia). pose proof (val_range 8 _ ltac:(lia) Dl) as Rl.
  rewrite (u32_small (val 8 _)) by exact Rl. cbn [val]. change 0x3f with (0x3f + 2 ^ 8 * 0). rewrite land_cons, Z.land_0_r by lia. change 63 with (Z.ones 6). rewrite Z.land_ones, Z.mod_small by lia. unfold sumz, a, b, c, d. cbn [fold_right]. lia.
Qed.

(** C33: [bitcount] returns the number of ones of a 32-bit number. *)
Theorem bitcount_ones x (Hx : 0 <= x < 2 ^ 32) : bitcount x = sumz (bits_of 32 x).
Proof.
  destruct (bits_of_digits 32 x) as [Hd Hl]. pose proof (bits_of_val 32 x Hx) as Hv. set (ds := bits_of 32 x) in *. clearbody ds. assert (Hd1 : Forall (λ d, 0 <= d <= 1) ds) by (apply (Forall_impl _ _ _ Hd); lia).
  destruct (sums_ok 1 16 ds Hd1 Hl) as (Hp & Hlp & Hsp). destruct (sums_ok 2 8 (sums ds) Hp Hlp) as (Hq & Hlq & Hsq). pose proof (fields_le 2 2 _ ltac:(lia) Hp) as D2. pose proof (fields_le 4 4 _ ltac:(lia) Hq) as D4.
  pose proof (val_range 2 _ ltac:(lia) D2) as R2. rewrite Hlp in R2. pose proof (val_range 4 _ ltac:(lia) D4) as R4. rewrite Hlq in R4.
  unfold bitcount. rewrite <-Hv. change 0x55555555 with (val 1 (mask 1 16)). change 0x33333333 with (val 2 (mask 2 8)). rewrite (bitcount_step1 16 ds Hl) by (by apply (fields_le 1 1)). rewrite (u32_small (val 2 _)) by exact R2.
  rewrite (bitcount_step2 8 (sums ds) Hlp D2). rewrite (u32_small (val 4 _)) by exact R4. rewrite <-Hsp, <-Hsq. generalize dependent (sums (sums ds)). intros qs Hq Hlq _ _ _.
  destruct qs as [|q0 [|q1 [|q2 [|q3 [|q4 [|q5 [|q6 [|q7 [|? ?]]]]]]]]]; try discriminate Hlq. by apply bitcount_last.
Qed.
Lemma bitcount_ones_witness : bitcount 0xF0F0F0FF = 20 ∧ bitcount 0xF0F0F0FF = sumz (bits_of 32 0xF0F0F0FF).
Proof. split; [reflexivity|]. apply bitcount_ones. lia. Defined.
