(* ===== verification/Asm.v ===== *)
(** * Asm: traps and context switches in assembly

    The 64-bit code of kernel/swtch64.S, kernel/trapasm64.S, the entry points
    that tools/vectors64.pl generates, and the kernel stack that [allocproc]
    lays out, on a machine with the general registers and a memory of 8-byte
    words.  All their accesses are of words at addresses that are equal modulo
    8, so a word is looked up by its address.  The theorems are what the other
    files take for granted: a trap hands the handler a [trapframe] with the
    interrupted registers and resumes from what the handler left in it;
    [swtch] comes back where the other side called it, with its registers; and
    a new process starts in [forkret], then [trapret], then user mode. *)

From stdpp Require Import prelude functions gmap strings.
From S2P Require Import Prelude Types.
Open Scope Z_scope.

(** ** The machine *)

Inductive reg := RAX | RBX | RCX | RDX | RBP | RSI | RDI | R8 | R9 | R10 | R11 | R12 | R13 | R14 | R15 | RSP.
#[global] Instance reg_eq : EqDecision reg.
Proof. solve_decision. Defined.

Record x64 := mkX64 { regs : reg → Z; words : Z → Z; rip : Z; rcs : Z; rflags : Z; rss : Z }.
Definition set_reg (r : reg) (v : Z) (m : x64) : x64 := mkX64 (<[r := v]> (regs m)) (words m) (rip m) (rcs m) (rflags m) (rss m).
Definition set_word (a v : Z) (m : x64) : x64 := mkX64 (regs m) (<[a := v]> (words m)) (rip m) (rcs m) (rflags m) (rss m).
Definition set_rip (v : Z) (m : x64) : x64 := mkX64 (regs m) (words m) v (rcs m) (rflags m) (rss m).

Definition push (v : Z) (m : x64) : x64 := let sp := u64 (regs m RSP - 8) in set_word sp v (set_reg RSP sp m).
(** The word on the top of the stack, and the machine without it. *)
Definition top (m : x64) : Z := words m (regs m RSP).
Definition drop_top (m : x64) : x64 := set_reg RSP (u64 (regs m RSP + 8)) m.

Inductive instr :=
| Push (r : reg)
| PushImm (n : Z)
| Pop (r : reg)
| Mov (src dst : reg)
| Store (src base : reg)   (* mov %src, (%base) *)
| AddImm (n : Z) (dst : reg)
| Ret
| Iretq.

Definition step (c : instr) (m : x64) : x64 :=
  match c with
  | Push r => push (regs m r) m
  | PushImm n => push n m
  | Pop r => set_reg r (top m) (drop_top m)
  | Mov src dst => set_reg dst (regs m src) m
  | Store src base => set_word (regs m base) (regs m src) m
  | AddImm n dst => set_reg dst (u64 (regs m dst + n)) m
  | Ret => set_rip (top m) (drop_top m)
  | Iretq =>
      let w k := words m (u64 (regs m RSP + 8 * k)) in
      mkX64 (<[RSP := w 3]> (regs m)) (words m) (w 0) (w 1) (w 2) (w 4)
  end.
Definition run (code : list instr) (m : x64) : x64 := foldl (λ m c, step c m) m code.

(** ** swtch64.S *)

Definition swtch : list instr :=
  [Push RBP; Push RBX; Push R11; Push R12; Push R13; Push R14; Push R15;
   Store RSP RDI; Mov RSI RSP;
   Pop R15; Pop R14; Pop R13; Pop R12; Pop R11; Pop RBX; Pop RBP; Ret].

(** ** vectors64.pl and trapasm64.S *)

(** The vectors for which the processor pushes an error code. *)
Definition has_err (i : Z) : bool := (i =? 8) || ((10 <=? i) && (i <=? 14)) || (i =? 17).
Definition vector (i : Z) : list instr := (if negb (has_err i) then [PushImm 0] else []) ++ [PushImm i].
Definition alltraps : list instr :=
  [Push R15; Push R14; Push R13; Push R12; Push R11; Push R10; Push R9; Push R8; Push RDI; Push RSI; Push RBP; Push RDX; Push RCX; Push RBX; Push RAX;
   Mov RSP RDI].
Definition trapret : list instr :=
  [Pop RAX; Pop RBX; Pop RCX; Pop RDX; Pop RBP; Pop RSI; Pop RDI; Pop R8; Pop R9; Pop R10; Pop R11; Pop R12; Pop R13; Pop R14; Pop R15;
   AddImm 16 RSP; Iretq].

(** An interrupt or exception: the processor goes to the stack [ksp], pushes
    the interrupted state, and an error code for some vectors.  What the gate
    loads into CS and the flags is [cs] and [fl]. *)
Definition interrupt (i err ksp cs fl : Z) (m : x64) : x64 :=
  let m1 := push (rip m) (push (rcs m) (push (rflags m) (push (regs m RSP) (push (rss m) (set_reg RSP ksp m))))) in
  let m2 := mkX64 (regs m1) (words m1) (rip m1) cs fl 0 in
  if has_err i then push err m2 else m2.

(** A trap through vector [i]: [handler] is the call of [trap]. *)
Definition trap_path (i err ksp cs fl : Z) (handler : x64 → x64) (m : x64) : x64 :=
  run trapret (handler (run alltraps (run (vector i) (interrupt i err ksp cs fl m)))).

(** The frame at [a]. *)
Definition frame_at (w : Z → Z) (a : Z) : trapframe :=
  mkTf (w a) (w (a + 8)) (w (a + 16)) (w (a + 24)) (w (a + 32)) (w (a + 40)) (w (a + 48)) (w (a + 56)) (w (a + 64)) (w (a + 72)) (w (a + 80))
    (w (a + 88)) (w (a + 96)) (w (a + 104)) (w (a + 112)) (w (a + 120)) (w (a + 128)) (w (a + 136)) (w (a + 144)) (w (a + 152)) (w (a + 160)) (w (a + 168)).
Definition TF_SIZE : Z := 176.
(** The registers of a machine as a frame. *)
Definition regs_frame (trapno err : Z) (m : x64) : trapframe :=
  let r := regs m in
  mkTf (r RAX) (r RBX) (r RCX) (r RDX) (r RBP) (r RSI) (r RDI) (r R8) (r R9) (r R10) (r R11) (r R12) (r R13) (r R14) (r R15)
    trapno err (rip m) (rcs m) (rflags m) (r RSP) (rss m).

(** ** The stack of a new process, allocproc *)

Definition CONTEXT_SIZE : Z := 64.
(** The stack of [allocproc], at [kstack]: the context, with the address of
    [forkret], the address of [trapret], and room for the frame. *)
Definition new_tf (kstack : Z) : Z := kstack + KSTACKSIZE - TF_SIZE.
Definition new_context (kstack : Z) : Z := new_tf kstack - 8 - CONTEXT_SIZE.
Definition new_kstack (kstack trapret_addr forkret_addr : Z) (w : Z → Z) : Z → Z :=
  let w := <[new_tf kstack - 8 := trapret_addr]> w in
  let w := foldl (λ w k, <[new_context kstack + 8 * k := 0]> w) w (seqZ 0 8) in
  <[new_context kstack + 56 := forkret_addr]> w.

(** ** Runs of pushes and pops *)

Lemma run_app c1 c2 m : run (c1 ++ c2) m = run c2 (run c1 m).
Proof. apply foldl_app. Qed.
Lemma run_one c m : run [c] m = step c m.
Proof. reflexivity. Qed.
Lemma run_cons c d code m : run (c :: d :: code) m = run (d :: code) (step c m).
Proof. reflexivity. Qed.
Lemma reg_set_eq r v m : regs (set_reg r v m) r = v.
Proof. apply fn_lookup_insert. Qed.
Lemma reg_set_ne r r' v m : r ≠ r' → regs (set_reg r v m) r' = regs m r'.
Proof. apply fn_lookup_insert_ne. Qed.

(** A list of words pushed in order. *)
Definition pushes (vs : list Z) (m : x64) : x64 := foldl (λ m v, push v m) m vs.
Lemma pushes_cons v vs m : pushes (v :: vs) m = pushes vs (push v m).
Proof. reflexivity. Qed.
Lemma pushes_nil m : pushes [] m = m.
Proof. reflexivity. Qed.
Lemma run_push_words rs : ∀ m, RSP ∉ rs → run (Push <$> rs) m = pushes (regs m <$> rs) m.
Proof.
  induction rs as [|r rs IH]; intros m Hr; [done|]. apply not_elem_of_cons in Hr as [Hr Hrs]. change (run (Push <$> (r :: rs)) m) with (run (Push <$> rs) (push (regs m r) m)). rewrite IH by done.
  rewrite fmap_cons. change (pushes (regs m r :: (regs m <$> rs)) m) with (pushes (regs m <$> rs) (push (regs m r) m)). f_equal. apply list_fmap_ext. intros k x Hx. apply reg_set_ne. intros <-. by apply list_elem_of_lookup_2 in Hx.
Qed.
Record stacked (vs : list Z) (m m' : x64) : Prop := {
  st_sp : regs m' RSP = regs m RSP - 8 * Z.of_nat (length vs);
  st_regs : ∀ r, r ≠ RSP → regs m' r = regs m r;
  st_words : ∀ k v, vs !! k = Some v → words m' (regs m RSP - 8 * (Z.of_nat k + 1)) = v;
  st_frame : ∀ a, a < regs m RSP - 8 * Z.of_nat (length vs) ∨ regs m RSP <= a → words m' a = words m a
}.
Lemma pushes_stacked vs : ∀ m, 8 * Z.of_nat (length vs) <= regs m RSP < 2 ^ 64 → stacked vs m (pushes vs m).
Proof.
  induction vs as [|v vs IH]; intros m Hsp; [split; try done; cbn; lia|]. cbn [length] in Hsp. change (pushes (v :: vs) m) with (pushes vs (push v m)). set (m1 := push v m).
  assert (Hsp1 : regs m1 RSP = regs m RSP - 8) by (unfold m1, push; cbn [regs set_word]; rewrite reg_set_eq; apply u64_small; lia).
  assert (Hw1 : ∀ a, words m1 a = if decide (a = regs m RSP - 8) then v else words m a).
  { intros a. unfold m1, push. cbn [words set_word set_reg]. rewrite u64_small by lia. case_decide as Ha; [subst; by rewrite fn_lookup_insert|by rewrite fn_lookup_insert_ne by congruence]. }
  destruct (IH m1 ltac:(lia)) as [P1 P2 P3 P4]. rewrite Hsp1 in P1, P3, P4. split; cbn [length].
  - rewrite P1. lia.
  - intros r' Hne. rewrite P2 by done. by apply reg_set_ne.
  - intros [|k] x Hk.
    + injection Hk as <-. rewrite P4 by lia. rewrite Hw1. by rewrite decide_True by lia.
    + cbn in Hk. rewrite <-(P3 k x Hk). f_equal. lia.
  - intros a Ha. rewrite P4 by lia. rewrite Hw1. by rewrite decide_False by lia.
Qed.

Record popped (rs : list reg) (m m' : x64) : Prop := {
  po_sp : regs m' RSP = regs m RSP + 8 * Z.of_nat (length rs);
  po_regs : ∀ k r, rs !! k = Some r → regs m' r = words m (regs m RSP + 8 * Z.of_nat k);
  po_other : ∀ r, r ∉ rs → r ≠ RSP → regs m' r = regs m r;
  po_words : words m' = words m
}.
Lemma run_pop rs : ∀ m, RSP ∉ rs → NoDup rs → 0 <= regs m RSP → regs m RSP + 8 * Z.of_nat (length rs) < 2 ^ 64 → popped rs m (run (Pop <$> rs) m).
Proof.
  induction rs as [|r rs IH]; intros m Hr Hnd Hsp Hle; [split; try done; cbn; lia|]. apply not_elem_of_cons in Hr as [Hr Hrs]. apply NoDup_cons in Hnd as [Hni Hnd]. cbn [length] in *.
  change (run (Pop <$> (r :: rs)) m) with (run (Pop <$> rs) (set_reg r (top m) (drop_top m))). set (m1 := set_reg r (top m) (drop_top m)).
  assert (Hsp1 : regs m1 RSP = regs m RSP + 8) by (unfold m1; rewrite reg_set_ne by congruence; unfold drop_top; rewrite reg_set_eq; apply u64_small; lia).
  destruct (IH m1 Hrs Hnd ltac:(lia) ltac:(lia)) as [P1 P2 P3 P4]. rewrite Hsp1 in P1, P2. split.
  - rewrite P1. cbn [length]. lia.
  - intros [|k] r' Hk.
    + injection Hk as <-. rewrite P3 by done. unfold m1. rewrite reg_set_eq, Z.mul_0_r, Z.add_0_r. done.
    + cbn in Hk. rewrite (P2 k r' Hk). cbn [words m1 set_reg drop_top]. f_equal. lia.
  - intros r' [Hne Hni']%not_elem_of_cons Hsp'. rewrite P3 by done. unfold m1, drop_top. by rewrite !reg_set_ne by congruence.
  - exact P4.
Qed.

(** ** Context switches *)

Definition callee : list reg := [RBP; RBX; R11; R12; R13; R14; R15].

Lemma callee_ok : ((RSP ∉ callee) ∧ (RSP ∉ rev callee)) ∧ NoDup (rev callee).
Proof. refine (bool_decide_unpack _ _). vm_compute. exact I. Qed.

Lemma swtch_parts : swtch = ((Push <$> callee) ++ ([Store RSP RDI; Mov RSI RSP] ++ (Pop <$> rev callee)) ++ [Ret]).
Proof. reflexivity. Qed.

(** A run of [swtch(p, n)] from the stack pointer [sp]. *)
Record switched (m m' : x64) : Prop := {
  sw_saved : ∀ k r, callee !! k = Some r → words m' (regs m RSP - 8 * (Z.of_nat k + 1)) = regs m r;
  sw_ptr : words m' (regs m RDI) = regs m RSP - 56;
  sw_frame : ∀ a, a ≠ regs m RDI → a < regs m RSP - 56 ∨ regs m RSP <= a → words m' a = words m a;
  sw_regs : ∀ k r, rev callee !! k = Some r → regs m' r = words m' (regs m RSI + 8 * Z.of_nat k);
  sw_rip : rip m' = words m' (regs m RSI + 56);
  sw_sp : regs m' RSP = regs m RSI + 64
}.
(** The stack of the caller, with the return address, and the place of the
    pointer. *)
Definition switch_room (m : x64) : Prop :=
  56 <= regs m RSP ∧ regs m RSP + 8 < 2 ^ 64 ∧ 0 <= regs m RSI ∧ regs m RSI + 64 < 2 ^ 64 ∧ (regs m RDI < regs m RSP - 56 ∨ regs m RSP + 8 <= regs m RDI).

Lemma run_swtch m : switch_room m → switched m (run swtch m).
Proof.
  intros (H1 & H2 & H3 & H4 & H5). rewrite swtch_parts, !run_app.
  destruct callee_ok as [[Hc1 Hc2] Hc3]. rewrite run_push_words by done. destruct (pushes_stacked (regs m <$> callee) m) as [P1 P2 P3 P4]; [cbn; lia|]. generalize dependent (pushes (regs m <$> callee) m). intros m1 P1 P2 P3 P4. rewrite length_fmap in P1, P4. change (length callee) with 7%nat in *.
  set (m2 := run [Store RSP RDI; Mov RSI RSP] m1). assert (Hsp2 : regs m2 RSP = regs m RSI) by (unfold m2; cbn [run foldl step set_word]; rewrite reg_set_eq; cbn [regs set_word]; by apply P2).
  assert (Hw2 : words m2 = <[regs m RDI := regs m RSP - 56]> (words m1)) by (unfold m2; cbn [run foldl step words set_word set_reg]; rewrite P2, P1 by done; f_equal; f_equal; lia). clearbody m2.
  destruct (run_pop (rev callee) m2) as [Q1 Q2 Q3 Q4]; [exact Hc2|exact Hc3|lia|rewrite Hsp2; cbn; lia|]. generalize dependent (run (Pop <$> rev callee) m2). intros m3 Q1 Q2 Q3 Q4. change (length (rev callee)) with 7%nat in *. rewrite run_one. rewrite Hsp2 in Q1, Q2.
  assert (Hw3 : words (step Ret m3) = words m2) by exact Q4. split; rewrite ?Hw3, ?Hw2.
  - intros k r Hk. pose proof (lookup_lt_Some _ _ _ Hk) as Hlt. change (length callee) with 7%nat in Hlt. rewrite fn_lookup_insert_ne by lia. apply P3. by rewrite list_lookup_fmap, Hk.
  - by rewrite fn_lookup_insert.
  - intros a Hne Ha. rewrite fn_lookup_insert_ne by done. apply P4. lia.
  - intros k r Hk. cbn [step set_rip regs]. unfold drop_top. rewrite reg_set_ne; [|intros <-; by apply list_elem_of_lookup_2 in Hk].
    rewrite (Q2 k r Hk). by rewrite Hw2.
  - cbn [step rip set_rip]. unfold top. rewrite Q4, Q1, Hw2. f_equal.
  - cbn [step regs set_rip]. unfold drop_top. rewrite reg_set_eq, Q1, u64_small by lia. lia.
Qed.

(** C23: a switch away comes back.  After [swtch] has saved a context and gone
    to another, any computation that leaves the words of the saved context and
    the return address as they were can call [swtch] with the pointer that was
    stored: that call returns where the first one was to return, to its stack
    and with the registers that a C function keeps for its caller. *)
Theorem swtch_resumes m m2 (Hm : switch_room m) (Hm2 : switch_room m2)
  (Hptr : regs m2 RSI = words (run swtch m) (regs m RDI))
  (Hkeep : ∀ a, regs m RSP - 56 <= a < regs m RSP + 8 → words m2 a = words (run swtch m) a)
  (Hout : regs m2 RDI < regs m RSP - 56 ∨ regs m RSP + 8 <= regs m2 RDI) (Hdis : regs m2 RSP <= regs m RSP - 56 ∨ regs m RSP + 64 <= regs m2 RSP) :
  let m' := run swtch m2 in
  rip m' = top m ∧ regs m' RSP = regs m RSP + 8 ∧ ∀ r, r ∈ callee → regs m' r = regs m r.
Proof.
  destruct (run_swtch m Hm) as [S1 S2 S3 _ _ _]. destruct (run_swtch m2 Hm2) as [_ _ T3 T4 T5 T6]. rewrite S2 in Hptr. cbv zeta. rewrite Hptr in *. destruct Hm as (H1 & H2 & H3 & H4 & H5).
  assert (Hw : ∀ a, regs m RSP - 56 <= a < regs m RSP + 8 → words (run swtch m2) a = words (run swtch m) a) by (intros a Ha; rewrite T3 by lia; by apply Hkeep).
  split; [|split].
  - rewrite T5, Hw by lia. replace (regs m RSP - 56 + 56) with (regs m RSP) by lia. rewrite S3 by lia. done.
  - lia.
  - intros r [k Hk]%list_elem_of_lookup. pose proof (lookup_lt_Some _ _ _ Hk) as Hlt. change (length callee) with 7%nat in Hlt.
    assert (Hrev : rev callee !! (6 - k)%nat = Some r) by (do 7 (destruct k as [|k]; [exact Hk|]); lia).
    rewrite (T4 _ _ Hrev), Hw by lia. rewrite <-(S1 k r Hk). f_equal. lia.
Qed.

Definition demo_machine : x64 := mkX64 (λ r, match r with RSP => 4096 | RDI => 100 | RSI => 8192 | RBX => 5 | _ => 0 end) (λ a, if a =? 4096 then 77 else 0) 0 0 0 0.
Lemma swtch_resumes_witness : let m1 := run swtch demo_machine in
  let m2 := set_reg RSI (words m1 100) (set_reg RDI 200 m1) in let m' := run swtch m2 in rip m' = 77 ∧ regs m' RSP = 4104 ∧ ∀ r, r ∈ callee → regs m' r = regs demo_machine r.
Proof.
  intros m1 m2. apply (swtch_resumes demo_machine m2).
  - split_and!; vm_compute; (discriminate || reflexivity || (left; reflexivity)).
  - split_and!; vm_compute; (discriminate || reflexivity || (left; reflexivity)).
  - reflexivity.
  - intros a _. reflexivity.
  - left. vm_compute. reflexivity.
  - right. vm_compute. discriminate.
Defined.

(** ** Traps *)

Definition trap_regs : list reg := [R15; R14; R13; R12; R11; R10; R9; R8; RDI; RSI; RBP; RDX; RCX; RBX; RAX].
Definition err_word (i err : Z) : Z := if has_err i then err else 0.
Definition set_segs (cs fl : Z) (m : x64) : x64 := mkX64 (regs m) (words m) (rip m) cs fl 0.
Lemma alltraps_parts : alltraps = ((Push <$> trap_regs) ++ [Mov RSP RDI]).
Proof. reflexivity. Qed.
Lemma trapret_parts : trapret = ((Pop <$> rev trap_regs) ++ [AddImm 16 RSP; Iretq]).
Proof. reflexivity. Qed.
Lemma trap_regs_ok : ((RSP ∉ trap_regs) ∧ (RSP ∉ rev trap_regs)) ∧ NoDup (rev trap_regs).
Proof. refine (bool_decide_unpack _ _). vm_compute. exact I. Qed.
Lemma push_segs cs fl v m : push v (set_segs cs fl m) = set_segs cs fl (push v m).
Proof. reflexivity. Qed.
Lemma vector_interrupt i err ksp cs fl m :
  run (vector i) (interrupt i err ksp cs fl m) = set_segs cs fl (pushes [rss m; regs m RSP; rflags m; rcs m; rip m; err_word i err; i] (set_reg RSP ksp m)).
Proof.
  unfold vector, interrupt, err_word. cbv zeta. rewrite !pushes_cons, pushes_nil. generalize (push (rip m) (push (rcs m) (push (rflags m) (push (regs m RSP) (push (rss m) (set_reg RSP ksp m)))))). intros m1.
  fold (set_segs cs fl m1). destruct (has_err i); cbn [negb app]; rewrite ?run_cons, ?run_one; cbn [step]; by rewrite !push_segs.
Qed.

(** Finds the word of a frame among those that were pushed. *)
Ltac pushed_word H k := etrans; [|apply (H k); reflexivity]; f_equal; cbn [Z.of_nat Pos.of_succ_nat Pos.succ]; lia.
Ltac pushed_in H :=
  first [pushed_word H 0%nat | pushed_word H 1%nat | pushed_word H 2%nat | pushed_word H 3%nat | pushed_word H 4%nat | pushed_word H 5%nat | pushed_word H 6%nat | pushed_word H 7%nat
        | pushed_word H 8%nat | pushed_word H 9%nat | pushed_word H 10%nat | pushed_word H 11%nat | pushed_word H 12%nat | pushed_word H 13%nat | pushed_word H 14%nat].

(** The machine at the call of [trap]. *)
Definition at_trap (i err ksp cs fl : Z) (m : x64) : x64 := run alltraps (run (vector i) (interrupt i err ksp cs fl m)).
Section frame.
Context (i e ksp cs fl : Z) (m m1 m3 : x64).
Hypothesis (H1 : stacked [rss m; regs m RSP; rflags m; rcs m; rip m; e; i] (set_reg RSP ksp m) m1) (H3 : stacked (regs m1 <$> trap_regs) (set_segs cs fl m1) m3).
Lemma frame_sp : regs m1 RSP = ksp - 56 ∧ regs m3 RSP = ksp - TF_SIZE.
Proof.
  pose proof (st_sp _ _ _ H1) as P1. pose proof (st_sp _ _ _ H3) as Q1. rewrite reg_set_eq in P1. rewrite length_fmap in Q1. change (regs (set_segs cs fl m1) RSP) with (regs m1 RSP) in Q1. rewrite P1 in *. cbn [length trap_regs] in *. unfold TF_SIZE in *. lia.
Qed.
Lemma frame_outside a : a < ksp - TF_SIZE ∨ ksp <= a → words m3 a = words m a.
Proof.
  intros Ha. destruct frame_sp as [E1 E3]. pose proof (st_frame _ _ _ H3 a) as Q4. pose proof (st_frame _ _ _ H1 a) as P4. rewrite reg_set_eq in P4. rewrite length_fmap in Q4. change (regs (set_segs cs fl m1) RSP) with (regs m1 RSP) in Q4. rewrite E1 in Q4.
  cbn [length trap_regs] in *. unfold TF_SIZE in *. rewrite Q4 by lia. exact (P4 ltac:(lia)).
Qed.
Lemma frame_low k v : [rss m; regs m RSP; rflags m; rcs m; rip m; e; i] !! k = Some v → words m3 (ksp - 8 * (Z.of_nat k + 1)) = v.
Proof.
  intros Hkv. pose proof (lookup_lt_Some _ _ _ Hkv) as Hlt. cbn [length] in Hlt. destruct frame_sp as [E1 E3]. pose proof (st_words _ _ _ H1 k v Hkv) as P3. rewrite reg_set_eq in P3. pose proof (st_frame _ _ _ H3 (ksp - 8 * (Z.of_nat k + 1))) as Q4.
  change (regs (set_segs cs fl m1) RSP) with (regs m1 RSP) in Q4. rewrite length_fmap, E1 in Q4. rewrite Q4 by (cbn [length trap_regs]; lia). exact P3.
Qed.
Lemma frame_high k r : trap_regs !! k = Some r → words m3 (ksp - 56 - 8 * (Z.of_nat k + 1)) = regs m r.
Proof.
  intros Hkr. destruct frame_sp as [E1 E3]. assert (Hr : r ≠ RSP) by (intros ->; apply list_elem_of_lookup_2 in Hkr; by apply (proj1 (proj1 trap_regs_ok))).
  pose proof (st_words _ _ _ H3 k (regs m1 r)) as Q3. change (regs (set_segs cs fl m1) RSP) with (regs m1 RSP) in Q3. rewrite E1 in Q3. rewrite Q3 by (by rewrite list_lookup_fmap, Hkr).
  rewrite (st_regs _ _ _ H1 r Hr). by apply reg_set_ne.
Qed.
Lemma frame_whole : frame_at (words m3) (ksp - TF_SIZE) = regs_frame i e m.
Proof. unfold frame_at, regs_frame, TF_SIZE. cbv zeta. f_equal; first [pushed_in frame_low | pushed_in frame_high]. Qed.
End frame.

Definition pushed_state (i err ksp : Z) (m : x64) : x64 := pushes [rss m; regs m RSP; rflags m; rcs m; rip m; err_word i err; i] (set_reg RSP ksp m).
Definition pushed_regs (cs fl : Z) (m : x64) : x64 := pushes (regs m <$> trap_regs) (set_segs cs fl m).
Lemma at_trap_eq i err ksp cs fl m : let m3 := pushed_regs cs fl (pushed_state i err ksp m) in at_trap i err ksp cs fl m = set_reg RDI (regs m3 RSP) m3.
Proof.
  intros m3. unfold at_trap. rewrite vector_interrupt, alltraps_parts, run_app, run_one, run_push_words by apply trap_regs_ok. fold (pushed_state i err ksp m). unfold m3.
  generalize (pushed_state i err ksp m). intros m1. unfold pushed_regs. reflexivity.
Qed.
Lemma at_trap_frame i err ksp cs fl m : TF_SIZE <= ksp < 2 ^ 64 → let m1 := at_trap i err ksp cs fl m in
  regs m1 RSP = ksp - TF_SIZE ∧ regs m1 RDI = ksp - TF_SIZE ∧ frame_at (words m1) (ksp - TF_SIZE) = regs_frame i (err_word i err) m ∧
  ∀ a, a < ksp - TF_SIZE ∨ ksp <= a → words m1 a = words m a.
Proof.
  intros Hk. rewrite at_trap_eq. cbv zeta. unfold TF_SIZE in Hk.
  assert (H1 : stacked [rss m; regs m RSP; rflags m; rcs m; rip m; err_word i err; i] (set_reg RSP ksp m) (pushed_state i err ksp m)) by (apply pushes_stacked; rewrite reg_set_eq; cbn [length]; lia).
  generalize dependent (pushed_state i err ksp m). intros m2 H2. pose proof (st_sp _ _ _ H2) as E2. rewrite reg_set_eq in E2. cbn [length] in E2.
  assert (H3 : stacked (regs m2 <$> trap_regs) (set_segs cs fl m2) (pushed_regs cs fl m2)) by (apply pushes_stacked; rewrite length_fmap; cbn [length trap_regs regs set_segs]; rewrite E2; lia).
  generalize dependent (pushed_regs cs fl m2). intros m3 H3. destruct (frame_sp i _ ksp cs fl m m2 m3 H2 H3) as [_ E3].
  rewrite reg_set_ne, reg_set_eq by done. split; [done|]. split; [done|]. split; [exact (frame_whole i _ ksp cs fl m m2 m3 H2 H3)|exact (frame_outside i _ ksp cs fl m m2 m3 H2 H3)].
Qed.

(** [trapret] resumes from the frame on the top of the stack. *)
Definition resumed (tf : trapframe) (m : x64) : Prop := regs_frame (tf_trapno tf) (tf_err tf) m = tf.
Lemma run_trapret m : 0 <= regs m RSP → regs m RSP + TF_SIZE < 2 ^ 64 → resumed (frame_at (words m) (regs m RSP)) (run trapret m) ∧ words (run trapret m) = words m.
Proof.
  intros H0 Hs. unfold TF_SIZE in Hs. rewrite trapret_parts, run_app, run_cons, run_one. destruct trap_regs_ok as [[_ Hc2] Hc3]. destruct (run_pop (rev trap_regs) m) as [Q1 Q2 _ Q4]; [exact Hc2|exact Hc3|done|cbn; lia|].
  generalize dependent (run (Pop <$> rev trap_regs) m). intros m1 Q1 Q2 Q4. change (length (rev trap_regs)) with 15%nat in Q1. set (a := regs m RSP) in *. clearbody a.
  set (m2 := step (AddImm 16 RSP) m1). assert (Hsp : regs m2 RSP = a + 136) by (unfold m2; cbn [step]; rewrite reg_set_eq, Q1, u64_small by lia; lia).
  assert (Hr : ∀ r, RSP ≠ r → regs m2 r = regs m1 r) by (intros r Hne; unfold m2; cbn [step]; by apply reg_set_ne).
  assert (Hw : words m2 = words m) by (unfold m2; cbn [step words set_reg]; exact Q4). clearbody m2.
  split; [|cbn [step words]; exact Hw]. unfold resumed, regs_frame, frame_at. cbv zeta. cbn [step regs words rip rcs rflags rss tf_trapno tf_err]. rewrite Hw, Hsp, fn_lookup_insert, !u64_small by lia.
  rewrite !fn_lookup_insert_ne, !Hr by done.
  rewrite (Q2 0%nat RAX), (Q2 1%nat RBX), (Q2 2%nat RCX), (Q2 3%nat RDX), (Q2 4%nat RBP), (Q2 5%nat RSI), (Q2 6%nat RDI), (Q2 7%nat R8), (Q2 8%nat R9), (Q2 9%nat R10), (Q2 10%nat R11), (Q2 11%nat R12), (Q2 12%nat R13), (Q2 13%nat R14), (Q2 14%nat R15) by reflexivity.
  f_equal; f_equal; lia.
Qed.

(** C24: a trap saves and restores the machine.  For every vector the handler
    is called with a pointer to a frame below the top of the kernel stack that
    holds all registers of the interrupted code, the vector and the error code
    (0 where the processor has none), and no other memory has changed.  When
    the handler returns, execution resumes with exactly what the frame then
    holds: what the handler did not store to is as it was. *)
Theorem trap_roundtrip i err ksp cs fl handler m (Hk : TF_SIZE <= ksp) (Hk2 : ksp < 2 ^ 64)
  (Habi : let m1 := at_trap i err ksp cs fl m in regs (handler m1) RSP = regs m1 RSP) :
  let m1 := at_trap i err ksp cs fl m in let a := regs m1 RDI in
  a = ksp - TF_SIZE ∧ frame_at (words m1) a = regs_frame i (err_word i err) m ∧ (∀ x, x < a ∨ ksp <= x → words m1 x = words m x) ∧
  resumed (frame_at (words (handler m1)) a) (trap_path i err ksp cs fl handler m) ∧ words (trap_path i err ksp cs fl handler m) = words (handler m1).
Proof.
  intros m1 a. cbv zeta in Habi. destruct (at_trap_frame i err ksp cs fl m (conj Hk Hk2)) as (E1 & E2 & Hf & Hw). fold m1 in Habi, E1, E2, Hf, Hw. unfold a. rewrite E2. split; [done|]. split; [done|]. split; [done|].
  change (trap_path i err ksp cs fl handler m) with (run trapret (handler m1)). rewrite E1 in Habi. unfold TF_SIZE in *.
  destruct (run_trapret (handler m1)) as [Hr Hwr]; [lia|unfold TF_SIZE; lia|]. rewrite Habi in Hr. split; [exact Hr|exact Hwr].
Qed.

(** A system call whose handler stores 42 in the frame's [eax]. *)
Definition demo_handler (m : x64) : x64 := set_word (regs m RDI) 42 m.
Lemma demo_handler_sp m : regs (demo_handler m) RSP = regs m RSP.
Proof. reflexivity. Qed.
Lemma trap_roundtrip_witness :
  resumed (frame_at (words (demo_handler (at_trap 64 0 65536 8 0 demo_machine))) (65536 - TF_SIZE)) (trap_path 64 0 65536 8 0 demo_handler demo_machine).
Proof.
  destruct (trap_roundtrip 64 0 65536 8 0 demo_handler demo_machine) as (Ha & _ & _ & Hr & _).
  - discriminate.
  - reflexivity.
  - apply demo_handler_sp.
  - rewrite Ha in Hr. exact Hr.
Defined.
Lemma demo_trap : let m' := trap_path 64 0 65536 8 0 demo_handler demo_machine in regs m' RAX = 42 ∧ regs m' RBX = 5 ∧ regs m' RSP = 4096.
Proof. vm_compute. done. Qed.

(** ** A new process *)

Lemma new_kstack_words kstack tra fra w : let w' := new_kstack kstack tra fra w in let a := new_tf kstack in
  w' (new_context kstack + 56) = fra ∧ w' (a - 8) = tra ∧ (∀ x, a <= x → w' x = w x).
Proof.
  cbv zeta. unfold new_kstack, new_context, CONTEXT_SIZE. generalize (new_tf kstack). intros a. change (seqZ 0 8) with [0; 1; 2; 3; 4; 5; 6; 7]. cbn [foldl]. split; [by rewrite fn_lookup_insert|].
  split; [|intros x Hx]; rewrite !fn_lookup_insert_ne by lia; by rewrite ?fn_lookup_insert.
Qed.

(** C25: a new process starts in user mode with its trap frame.  From the stack
    that [allocproc] laid out, with a frame in it, [swtch] to the context
    enters [forkret]; when that returns it returns to [trapret], which resumes
    from the frame. *)
Theorem new_process_starts kstack tra fra m w0 m2 (Hm : switch_room m) (Hks : 0 <= kstack < 2 ^ 63) (Hw : words m = new_kstack kstack tra fra w0) (Hsi : regs m RSI = new_context kstack)
  (Hstack : regs m RSP <= kstack ∨ kstack + KSTACKSIZE <= regs m RSP - 56) (Hptr : regs m RDI < kstack ∨ kstack + KSTACKSIZE <= regs m RDI)
  (Hret : regs m2 RSP = regs (run swtch m) RSP) (Hkeep : ∀ a, new_tf kstack - 8 <= a < kstack + KSTACKSIZE → words m2 a = words (run swtch m) a) :
  rip (run swtch m) = fra ∧ rip (run [Ret] m2) = tra ∧ resumed (frame_at w0 (new_tf kstack)) (run trapret (run [Ret] m2)).
Proof.
  destruct (run_swtch m Hm) as [_ _ S3 _ S5 S6]. generalize dependent (run swtch m). intros m1 Hret Hkeep S3 S5 S6. destruct (new_kstack_words kstack tra fra w0) as (W1 & W2 & W3). rewrite Hsi in S5, S6.
  assert (Hin : ∀ a, new_context kstack <= a < kstack + KSTACKSIZE → words m1 a = new_kstack kstack tra fra w0 a).
  { intros a Ha. unfold new_context, new_tf, TF_SIZE, CONTEXT_SIZE, KSTACKSIZE in *. rewrite S3 by lia. by rewrite Hw. }
  rewrite run_one. cbn [step set_rip rip]. unfold top. rewrite Hret, S6. replace (new_context kstack + 64) with (new_tf kstack - 8) in * by (unfold new_context, CONTEXT_SIZE; lia).
  assert (Hr : new_context kstack <= new_tf kstack - 8 ∧ new_tf kstack + TF_SIZE = kstack + KSTACKSIZE ∧ 0 <= new_tf kstack - 8 ∧ new_context kstack + 56 < new_tf kstack ∧ kstack + KSTACKSIZE < 2 ^ 64)
    by (unfold new_context, new_tf, TF_SIZE, CONTEXT_SIZE, KSTACKSIZE in *; lia).
  unfold TF_SIZE in Hr. split; [|split].
  - rewrite S5, Hin by lia. exact W1.
  - rewrite Hkeep, Hin by lia. exact W2.
  - set (m3 := set_rip (words m2 (new_tf kstack - 8)) (drop_top m2)). assert (E3 : regs m3 RSP = new_tf kstack) by (unfold m3, drop_top; cbn [regs set_rip]; rewrite reg_set_eq, Hret, S6, u64_small by lia; lia).
    assert (E4 : words m3 = words m2) by reflexivity. clearbody m3. destruct (run_trapret m3) as [Hres _]; [lia|unfold TF_SIZE; lia|]. rewrite E3, E4 in Hres.
    assert (Hfr : frame_at (words m2) (new_tf kstack) = frame_at w0 (new_tf kstack)); [|by rewrite Hfr in Hres].
    unfold frame_at. f_equal; rewrite Hkeep, Hin by lia; apply W3; lia.
Qed.

(** A process whose frame holds 7 in every word. *)
Definition demo_new : x64 := mkX64 (λ r, match r with RSP => 65536 | RDI => 100 | RSI => new_context 4096 | _ => 0 end) (new_kstack 4096 300 200 (λ _, 7)) 0 0 0 0.
Lemma new_process_starts_witness : let m1 := run swtch demo_new in
  rip m1 = 200 ∧ rip (run [Ret] m1) = 300 ∧ resumed (frame_at (λ _, 7) (new_tf 4096)) (run trapret (run [Ret] m1)).
Proof.
  intros m1. apply (new_process_starts 4096 300 200 demo_new (λ _, 7) m1).
  - split_and!; vm_compute; (discriminate || reflexivity || (left; reflexivity)).
  - split; [discriminate|reflexivity].
  - reflexivity.
  - reflexivity.
  - right. vm_compute. discriminate.
  - left. reflexivity.
  - reflexivity.
  - intros a _. reflexivity.
Defined.
