(* ===== verification/Entry.v ===== *)
(** * Entry: the page tables of the first instructions, kernel/entry64.S

    [mboot_entry] writes the page tables with which the processors go to
    64-bit mode, in 32-bit stores to a memory of words.  [walk] is the
    translation of the processor for 4-level paging.  The theorem: the first
    gigabyte is mapped at its own addresses, where the code is running, and at
    [KERNBASE], where the kernel is linked. *)

From stdpp Require Import prelude functions gmap strings.
From S2P Require Import Prelude Types Kalloc.
Open Scope Z_scope.

Definition store32 (a v : Z) (w : Z → Z) : Z → Z := <[a := u32 v]> w.
(** [rep stosb] with AL = 0: [n] bytes at [a], both multiples of 4. *)
Definition clear (a n : Z) (w : Z → Z) : Z → Z := λ x, if (a <=? x) && (x <? a + n) then 0 else w x.

Fixpoint ptbl_loop (eax ebx : Z) (ecx : nat) (w : Z → Z) : Z → Z :=
  match ecx with
  | O => w
  | S ecx => ptbl_loop (u32 (eax + 0x200000)) (u32 (ebx + 0x8)) ecx (store32 ebx eax w)
  end.
Definition mboot_entry (w : Z → Z) : Z → Z :=
  let w := clear 0x1000 0x5000 w in
  let w := store32 0x1000 (Z.lor 0x2000 3) w in
  let w := store32 0x1FF8 (Z.lor 0x3000 3) w in
  let w := store32 0x2000 (Z.lor 0x4000 3) w in
  let w := store32 0x3FF0 (Z.lor 0x4000 3) w in
  ptbl_loop 0x83 0x4000 512 w.
(** What [entry32mp] loads into CR3. *)
Definition entry_cr3 : Z := 0x1000.

(** ** The processor *)

Definition entry_at64 (w : Z → Z) (a : Z) : Z := w a + 2 ^ 32 * w (a + 4).
Definition table_addr (e : Z) : Z := Z.land e 0xFFFFFFFFFF000.
Definition index (va shift : Z) : Z := Z.shiftr va shift mod 512.
(** [None] is a page fault; bit 7 of an entry makes it the last. *)
Definition walk (w : Z → Z) (cr3 va : Z) : option Z :=
  let e4 := entry_at64 w (cr3 + 8 * index va 39) in
  if negb (Z.testbit e4 0) then None else
  let e3 := entry_at64 w (table_addr e4 + 8 * index va 30) in
  if negb (Z.testbit e3 0) then None else
  if Z.testbit e3 7 then Some (Z.land e3 0xFFFFFC0000000 + va mod 2 ^ 30) else
  let e2 := entry_at64 w (table_addr e3 + 8 * index va 21) in
  if negb (Z.testbit e2 0) then None else
  if Z.testbit e2 7 then Some (Z.land e2 0xFFFFFFFE00000 + va mod 2 ^ 21) else
  let e1 := entry_at64 w (table_addr e2 + 8 * index va 12) in
  if negb (Z.testbit e1 0) then None else Some (table_addr e1 + va mod 2 ^ 12).

(** ** The mapping *)

Section tables.
Context (w0 : Z → Z).
Local Abbreviation w := (mboot_entry w0).
Lemma upper_tables : (entry_at64 w 0x1000 = 0x2003 ∧ entry_at64 w 0x1FF8 = 0x3003) ∧ entry_at64 w 0x2000 = 0x4003 ∧ entry_at64 w 0x3FF0 = 0x4003.
Proof. vm_compute. done. Qed.
Definition pde_good (j : Z) : bool :=
  let e := entry_at64 w (0x4000 + 8 * j) in Z.testbit e 0 && Z.testbit e 7 && (Z.land e 0xFFFFFFFE00000 =? j * 2 ^ 21).
Lemma pdes_good : forallb pde_good (seqZ 0 512) = true.
Proof. vm_compute. reflexivity. Qed.
Lemma pde_ok j : 0 <= j < 512 → let e := entry_at64 w (0x4000 + 8 * j) in Z.testbit e 0 = true ∧ Z.testbit e 7 = true ∧ Z.land e 0xFFFFFFFE00000 = j * 2 ^ 21.
Proof.
  intros Hj e. pose proof (proj1 (forallb_forall pde_good _) pdes_good j) as H. specialize (H (proj1 (list_elem_of_In _ _) (proj2 (elem_of_seqZ _ _ _) Hj))). unfold pde_good in H. fold e in H. clearbody e.
  apply andb_true_iff in H as [[H1 H2]%andb_true_iff H3%Z.eqb_eq]. done.
Qed.

(** Both halves go through the same directory. *)
Lemma walk_through va e4 e3 j : entry_at64 w (entry_cr3 + 8 * index va 39) = e4 → entry_at64 w (table_addr e4 + 8 * index va 30) = e3 → Z.testbit e4 0 = true → Z.testbit e3 0 = true → Z.testbit e3 7 = false →
  table_addr e3 = 0x4000 → index va 21 = j → 0 <= j < 512 → walk w entry_cr3 va = Some (j * 2 ^ 21 + va mod 2 ^ 21).
Proof.
  intros E4 E3 T4 T3 T37 Ht Hi Hj. destruct (pde_ok j Hj) as (P1 & P2 & P3). unfold walk. cbv zeta. rewrite E4, T4. cbn [negb]. rewrite E3, T3, T37. cbn [negb]. rewrite Ht, Hi, P1, P2, P3. done.
Qed.

Lemma index_eq va shift q r : 0 <= shift → va = 2 ^ shift * q + r → 0 <= r < 2 ^ shift → index va shift = q mod 512.
Proof. intros Hs -> Hr. unfold index. rewrite Z.shiftr_div_pow2 by done. rewrite Z.mul_comm, Z.div_add_l by lia. by rewrite (Z.div_small r), Z.add_0_r by done. Qed.

(** The boot page tables map the first gigabyte twice: at its physical
    addresses and from [KERNBASE]. *)
Theorem entry_maps pa (Hpa : 0 <= pa < 2 ^ 30) : walk w entry_cr3 pa = Some pa ∧ walk w entry_cr3 (KERNBASE + pa) = Some pa.
Proof.
  destruct upper_tables as ((U1 & U2) & U3 & U4). pose proof (Z.div_mod pa (2 ^ 21) ltac:(done)) as Hd. pose proof (Z.mod_pos_bound pa (2 ^ 21) eq_refl) as Hm. pose proof (Z.div_pos pa (2 ^ 21) ltac:(lia) eq_refl) as Hp.
  set (j := pa / 2 ^ 21) in *. assert (Hj : 0 <= j < 512) by lia. clearbody j. split.
  - rewrite (walk_through pa 0x2003 0x4003 j); [f_equal; lia|..|done]; try reflexivity.
    + rewrite (index_eq pa 39 0 pa) by lia. exact U1.
    + rewrite (index_eq pa 30 0 pa) by lia. exact U3.
    + rewrite (index_eq pa 21 j (pa mod 2 ^ 21)) by lia. by apply Z.mod_small.
  - assert (Hlow : (KERNBASE + pa) mod 2 ^ 21 = pa mod 2 ^ 21) by (symmetry; apply Z.mod_unique with (2 ^ 43 - 2 ^ 10 + j); unfold KERNBASE; lia).
    rewrite (walk_through _ 0x3003 0x4003 j); [rewrite Hlow; f_equal; lia|..|done]; try reflexivity.
    + rewrite (index_eq _ 39 (2 ^ 25 - 1) (2 ^ 39 - 2 ^ 31 + pa)) by (unfold KERNBASE; lia). exact U2.
    + rewrite (index_eq _ 30 (2 ^ 34 - 2) pa) by (unfold KERNBASE; lia). exact U4.
    + rewrite (index_eq _ 21 (2 ^ 43 - 2 ^ 10 + j) (pa mod 2 ^ 21)) by (unfold KERNBASE; lia). symmetry. apply Z.mod_unique with (2 ^ 34 - 2); lia.
Qed.
End tables.
